(* ===== verification/_CoqProject ===== *)
-Q . S2P
Prelude.v
GoHeap.v
ChainTypes.v
TxAccount.v
TxPool.v
TxPoolInv.v
TxPoolProps.v
BigInt.v
Runtime.v
EvmState.v
EvmInstr.v
EvmRun.v
EvmWord.v
EvmPool.v
EvmWp.v
EvmOk.v
EvmOkCall.v
EvmProps.v
EvmFunc.v
EvmRelation.v
Receipts.v
StateTxn.v
StateLemmas.v
Blake2f.v
Precompiled.v
PrecompiledProps.v
Executor.v
ExecutorInv.v
ExecutorReplay.v
ExecutorSample.v
ExecutorProps.v
BlockProps.v
Rlp.v
Trie.v
TriePure.v
TrieRefine.v
TrieHash.v
TrieDb.v
TrieSample.v
TrieProps.v
Snapshot.v
StateProps.v
ChainRlp.v
ChainRlpProps.v
Buildroot.v
Storage.v
Blockchain.v
BlockchainInv.v
BlockchainRun.v
BlockchainProps.v
BlockchainVerify.v
BlockchainData.v
Bls.v
Validators.v
ValidatorsProps.v
PlgExtra.v
PlgExtraProps.v
Hex.v
Proposer.v
ProposerSpec.v
ProposerRefine.v
ProposerProps.v
ValidatorSnapshots.v
Merkle.v
VoteStore.v
VoteSpec.v
VoteProps.v
BlockBuilder.v
StateTx.v
Fsm.v
FsmLemmas.v
FsmSample.v
ProposalProps.v
FsmProps.v
Node.v
