(* ===== verification/Prelude.v ===== *)
(** * A verification development of Go Plgchain

    Go Plgchain is an Ethereum-compatible chain node. Transactions enter a pool,
    a consensus engine asks the pool for the next ones and builds a block, the
    executor applies the block to the state through the EVM, the state is kept in
    a Merkle trie over a key-value database, and the blockchain component verifies
    blocks, stores them and decides which chain is the canonical one.

    ** Conventions

    A machine integer is a [Z] with its wrap-around written out ([u64], [i64],
    [+u], [-u], [*u]); a fixed-size byte array is the integer its bytes spell, any
    other byte string a list of [Z]. A function returning an error is in [result];
    [None] is a panic. Third-party code (RLP library, Keccak, radix tree, LRU
    cache, curve arithmetic, ABI coder) and Go interfaces are type classes, with
    the documented behaviour the proofs use as separate classes of laws. Concrete
    instances (EvmProps, ExecutorSample, StateLemmas, TrieSample, Bls, FsmSample,
    Node) show that the laws can hold together.

    ** Files

    - Prelude, BigInt, GoHeap: integers, errors, loops, [math/big], [container/heap].
    - ChainTypes, Receipts, Hex: transactions, forks, receipts and the bloom filter,
      headers and blocks, addresses as text (types/transaction.go, receipt.go,
      header.go, types.go, chain/params.go).
    - TxAccount, TxPool: the transaction pool (txpool/queue.go, account.go, txpool.go,
      slot_gauge.go, lookup_map.go). TxPoolInv has the step relation over API calls
      and handler goroutines and its invariant, TxPoolProps the theorems.
    - Runtime, EvmState, EvmInstr, EvmRun: the interpreter (state/runtime/runtime.go,
      state/runtime/evm) over an abstract host. EvmWord, EvmPool, EvmWp, EvmOk,
      EvmOkCall: word arithmetic, recycled buffers, a weakest precondition calculus
      and the safety of every instruction. EvmProps, EvmFunc: theorems. EvmRelation:
      the interpreter respects relations between worlds.
    - Blake2f, Precompiled, PrecompiledProps: state/runtime/allowlist and
      state/runtime/precompiled.
    - StateTxn, StateLemmas: the journalled state (state/txn.go, state/state.go).
    - Executor: state/executor.go as the host of the interpreter. ExecutorInv,
      ExecutorProps: its invariant; BlockProps: the theorems on calls and blocks.
      ExecutorReplay: failed transactions leave no trace in the state. ExecutorSample:
      small chains.
    - Rlp, Trie: the immutable trie (state/immutable-trie). It refines a pure trie,
      which refines a finite map (TriePure, TrieRefine); hashing and reloading nodes
      (TrieHash, TrieDb). TrieSample: an encoding; TrieProps: theorems.
    - Snapshot, StateProps: snapshots and commit, composed with the journalled state.
    - ChainRlp, ChainRlpProps: RLP forms (types/rlp_marshal.go, rlp_unmarshal.go and
      their storage variants).
    - Buildroot: roots of transactions and receipts (types/buildroot).
    - Storage, Blockchain: the chain database (blockchain/storage) and the blockchain
      (blockchain/blockchain.go, subscription.go, chain/chain.go). BlockchainInv,
      BlockchainRun: invariant and runs; BlockchainProps, BlockchainVerify,
      BlockchainData: theorems.
    - Bls, Validators, ValidatorsProps, PlgExtra, PlgExtraProps: signatures, bitmaps,
      validator sets, the consensus data of headers (consensus/plgbft/signer, bitmap,
      validator_metadata.go, validator_set.go, extra.go, hash.go).
    - Proposer, ProposerSpec, ProposerRefine, ProposerProps: the proposer rotation
      (proposer_calculator.go) over shared priorities refines one on lists.
    - ValidatorSnapshots: validators by epoch (validators_snapshot.go,
      state_store_epoch.go).
    - Merkle: the tree and its proofs (merkle-tree).
    - VoteStore, VoteSpec, VoteProps: validators, votes and snapshots of the IBFT
      consensus (validators, validators/store/snapshot).
    - BlockBuilder, StateTx, Fsm: building, validating, sealing and inserting a block
      (block_builder.go, blockchain_wrapper.go, state_transaction.go,
      system_state.go, fsm.go), over interfaces of executor and pool. FsmLemmas,
      FsmSample, ProposalProps, FsmProps: lemmas, a small network, theorems.
    - Node: the executor with its state and the transaction pool implement the
      interfaces, and the acceptance of proposals for them.

    ** Theorems

    - Execution: a block is processed without a panic, within its gas limit and
      without creating money; failed calls are reverted and read-only calls do not
      write; the interpreter terminates, keeps its bounds and, in a static frame,
      the world; five instructions differ from their specification, and how.
    - State: what a block leaves is what the next one reads; a database of tries
      behaves as one of finite maps, and root and map determine each other; the fast
      hasher computes the root of the trie; BLAKE2b is that of its RFC.
    - Chain: the head has the most difficulty of all branches, stored blocks are
      read back, verification accepts exactly the blocks that meet its conditions;
      encodings round-trip; which messages make a decoder panic.
    - Pool: reachable pools are consistent and their handlers do not panic.
    - Consensus: two quorums agree; honest proposals are accepted and sealed blocks
      inserted; which engine transactions a block may have; what is not compared;
      proposers rotate in proportion to voting power; validators of an epoch follow
      from the headers; votes replay; Merkle proofs are sound and complete, up to
      the ambiguities of the tree; extra data, header hash and aggregated signatures.

    ** Fuel and bounds

    Nested calls run on fuel that the depth limit of 1024 bounds; the interpreter
    loop on fuel bounded by the gas, which every instruction consumes; trie
    operations on [3 * length key + 4]; heaps, queues and Merkle trees on lengths;
    walks over ancestors on the stored headers. The theorems state that this is
    enough. Filling a block takes the number of timer ticks as an argument.

    ** Not modelled

    Networking, JSON-RPC, gRPC services, commands, secrets and file I/O; generated
    protobuf and ABI code; tracing; genesis allocation; the go-ibft engine itself,
    the goroutines around it and the bridge managers; errors of the disk. *)

From stdpp Require Export base gmap list numbers sorting.
From Stdlib Require Export ZArith Lia.

#[global] Open Scope Z_scope.

(** ** Go machine integers

    A [uint64] is a [Z] in [0, 2^64); Go's operators on it wrap around. *)

Declare Scope go_scope.
Delimit Scope go_scope with go.

Definition two64 : Z := 18446744073709551616.

Definition u64 (z : Z) : Z := z mod two64.

Definition is_u64 (z : Z) : Prop := 0 <= z < two64.

Notation "a +u b" := (u64 (a + b)) (at level 50, left associativity) : go_scope.
Notation "a -u b" := (u64 (a - b)) (at level 50, left associativity) : go_scope.
Notation "a *u b" := (u64 (a * b)) (at level 40, left associativity) : go_scope.

(** A Go [int64] obtained by truncating an integer to 64 bits. *)
Definition i64 (z : Z) : Z := (z + 9223372036854775808) mod two64 - 9223372036854775808.

(** ** Errors

    A Go function returning [(T, error)]. *)

Inductive result (E A : Type) : Type :=
| Ok (a : A)
| Err (e : E).
Arguments Ok {E A} a.
Arguments Err {E A} e.

Notation "'let?' x := c 'in' k" :=
  (match c with Ok x => k | Err e => Err e end)
  (at level 10, x pattern, c at level 100, k at level 200) : go_scope.

Definition is_ok {E A} (r : result E A) : bool :=
  match r with Ok _ => true | Err _ => false end.

(** ** Sums over lists *)

Definition zsum (l : list Z) : Z := foldr Z.add 0 l.

(** ** Shared automation *)

Create HintDb plg discriminated.

Ltac case_bool :=
  match goal with
  | |- context [if ?b then _ else _] => let E := fresh "E" in destruct b eqn:E
  | H : context [if ?b then _ else _] |- _ => let E := fresh "E" in destruct b eqn:E
  end.

(** List membership by propositional reasoning. *)
Ltac in_list :=
  repeat match goal with
  | H : _ ∈ _ ++ _ |- _ => apply elem_of_app in H as [H|H]
  | H : _ ∈ _ :: _ |- _ => apply elem_of_cons in H as [H|H]
  | H : _ ∈ [] |- _ => by apply elem_of_nil in H
  end;
  rewrite ?elem_of_app, ?elem_of_cons, ?elem_of_nil; auto 8.

(** Turn boolean integer tests in the context into propositions. *)
Ltac breflect :=
  repeat match goal with
  | H : (_ <? _) = true |- _ => apply Z.ltb_lt in H
  | H : (_ <? _) = false |- _ => apply Z.ltb_ge in H
  | H : (_ <=? _) = true |- _ => apply Z.leb_le in H
  | H : (_ <=? _) = false |- _ => apply Z.leb_gt in H
  | H : (_ =? _) = true |- _ => apply Z.eqb_eq in H
  | H : (_ =? _) = false |- _ => apply Z.eqb_neq in H
  | H : (_ && _) = true |- _ => apply andb_prop in H; destruct H
  | H : (_ || _) = false |- _ => apply orb_false_elim in H; destruct H
  | H : negb _ = true |- _ => apply negb_true_iff in H
  | H : negb _ = false |- _ => apply negb_false_iff in H
  end.

Lemma u64_range z : 0 <= u64 z < two64.
Proof. unfold u64. apply Z.mod_pos_bound. done. Qed.

Lemma u64_is_u64 z : is_u64 (u64 z).
Proof. apply u64_range. Qed.

Lemma u64_small z : 0 <= z < two64 -> u64 z = z.
Proof. intros. by apply Z.mod_small. Qed.

Lemma u64_idem z : u64 (u64 z) = u64 z.
Proof. apply u64_small, u64_range. Qed.

Lemma u64_add_l a b : u64 (u64 a + b) = u64 (a + b).
Proof. unfold u64. by rewrite Zplus_mod_idemp_l. Qed.

Lemma u64_add_r a b : u64 (a + u64 b) = u64 (a + b).
Proof. unfold u64. by rewrite Zplus_mod_idemp_r. Qed.

Lemma u64_sub_l a b : u64 (u64 a - b) = u64 (a - b).
Proof. unfold u64. by rewrite Zminus_mod_idemp_l. Qed.

Lemma u64_sub_r a b : u64 (a - u64 b) = u64 (a - b).
Proof. unfold u64. by rewrite Zminus_mod_idemp_r. Qed.

Create Rewrite HintDb u64.
#[export] Hint Rewrite u64_idem u64_add_l u64_add_r u64_sub_l u64_sub_r : u64.
#[export] Hint Resolve u64_range u64_is_u64 : plg.

Lemma zsum_app l k : zsum (l ++ k) = zsum l + zsum k.
Proof. induction l; simpl; lia. Qed.

Lemma zsum_cons x l : zsum (x :: l) = x + zsum l.
Proof. done. Qed.

Lemma zsum_perm l k : l ≡ₚ k -> zsum l = zsum k.
Proof. induction 1; simpl; lia. Qed.

#[global] Instance zsum_Permutation : Proper ((≡ₚ) ==> (=)) zsum.
Proof. intros l k H. by apply zsum_perm. Qed.

Lemma zsum_nonneg l : Forall (fun x => 0 <= x) l -> 0 <= zsum l.
Proof. induction 1; simpl; lia. Qed.

(** ** Loops

    [for !stop(s) { s = f(s) }], bounded by a binary fuel so that the bound
    costs nothing when the loop ends early. *)

Fixpoint loop_until {S : Type} (stop : S -> bool) (f : S -> S) (fuel : positive) (s : S) : S :=
  if stop s then s
  else match fuel with
       | xH => f s
       | xO p => loop_until stop f p (loop_until stop f p s)
       | xI p => loop_until stop f p (loop_until stop f p (f s))
       end.

Section Loop.
Context {S : Type} (stop : S -> bool) (f : S -> S).

Definition loop_once (s : S) : S := if stop s then s else f s.

Lemma loop_stopped n s : stop s = true -> Nat.iter n loop_once s = s.
Proof.
  intros Hs. induction n as [|n IH]; [done|]. simpl. rewrite IH. unfold loop_once. by rewrite Hs.
Qed.

Lemma loop_running s : stop s = false -> loop_once s = f s.
Proof. intros Hs. unfold loop_once. by rewrite Hs. Qed.

Lemma loop_until_iter fuel s :
  loop_until stop f fuel s = Nat.iter (Pos.to_nat fuel) loop_once s.
Proof.
  revert s. induction fuel as [p IH|p IH|]; intros s; cbn [loop_until];
    destruct (stop s) eqn:E.
  - by rewrite loop_stopped.
  - rewrite !IH, Pos2Nat.inj_xI. replace (Datatypes.S (2 * Pos.to_nat p))
      with (Pos.to_nat p + (Pos.to_nat p + 1))%nat by lia.
    rewrite Nat.iter_add, (Nat.iter_add (Pos.to_nat p) 1).
    change (Nat.iter 1 loop_once s) with (loop_once s).
    by rewrite (loop_running s E).
  - by rewrite loop_stopped.
  - rewrite !IH, Pos2Nat.inj_xO. replace (2 * Pos.to_nat p)%nat
      with (Pos.to_nat p + Pos.to_nat p)%nat by lia. by rewrite Nat.iter_add.
  - by rewrite loop_stopped.
  - change (f s = loop_once s). by rewrite (loop_running s E).
Qed.

(** A loop whose body preserves an invariant and decreases a measure, unless it
    stops, ends within any larger fuel. *)
Lemma loop_until_ends (I : S -> Prop) (mu : S -> Z) fuel s :
  (forall s, I s -> stop s = false -> I (f s) /\ (stop (f s) = true \/ 0 <= mu (f s) < mu s)) ->
  I s -> 0 <= mu s < Z.pos fuel ->
  I (loop_until stop f fuel s) /\ stop (loop_until stop f fuel s) = true.
Proof.
  intros Hstep HI Hmu. rewrite loop_until_iter.
  assert (Hn : mu s < Z.of_nat (Pos.to_nat fuel)) by lia.
  assert (Hpos : 0 <= mu s) by lia. clear Hmu. revert Hn Hpos HI.
  generalize (Pos.to_nat fuel) as n. intros n. revert s.
  induction n as [|n IH]; intros s Hn Hpos HI; [lia|].
  destruct (stop s) eqn:E; [by rewrite loop_stopped|].
  destruct (Hstep s HI E) as [HI' Hs'].
  replace (Datatypes.S n) with (n + 1)%nat by lia. rewrite Nat.iter_add. simpl.
  rewrite (loop_running s E). destruct Hs' as [Hs'|Hs'].
  - by rewrite loop_stopped.
  - apply IH; (lia || done).
Qed.
End Loop.
