(* ===== verification/GoHeap.v ===== *)
(** * [container/heap] of the Go standard library

    The transaction pool keeps its queues as binary heaps through
    [container/heap]; this file models [Push], [Pop], [up] and [down] on a
    slice (a list) for an arbitrary [Less], and proves that on a strict weak
    order they keep the heap shape, lose no element, and that [Pop] returns a
    least element. *)

From S2P Require Import Prelude.

Section Ops.
Context {A : Type} (less : A -> A -> bool).

(** [h.Swap(i, j)]: both indices are in range at every call below. *)
Definition swap (l : list A) (i j : nat) : list A :=
  match l !! i, l !! j with
  | Some a, Some b => <[i:=b]> (<[j:=a]> l)
  | _, _ => l
  end.

(** [h.Less(i, j)] *)
Definition less_at (l : list A) (i j : nat) : bool :=
  match l !! i, l !! j with
  | Some a, Some b => less a b
  | _, _ => false
  end.

Definition parent (j : nat) : nat := ((j - 1) / 2)%nat.

(** [up]: the index strictly decreases, so [fuel = j] iterations are enough. *)
Fixpoint up (fuel : nat) (l : list A) (j : nat) : list A :=
  match fuel with
  | O => l
  | S f =>
      let i := parent j in
      if (i =? j)%nat || negb (less_at l j i) then l
      else up f (swap l i j) i
  end.

(** [down(h, i, n)]: the index strictly increases below [n], so [fuel = n]
    iterations are enough. *)
Fixpoint down (fuel : nat) (l : list A) (i n : nat) : list A :=
  match fuel with
  | O => l
  | S f =>
      let j1 := (2 * i + 1)%nat in
      if (n <=? j1)%nat then l
      else
        let j2 := (j1 + 1)%nat in
        let j := if (j2 <? n)%nat && less_at l j2 j1 then j2 else j1 in
        if negb (less_at l j i) then l
        else down f (swap l i j) j n
  end.

(** [heap.Push(h, x)] *)
Definition heap_push (l : list A) (x : A) : list A :=
  let l' := l ++ [x] in up (length l) l' (length l).

(** [heap.Pop(h)]; callers check that the queue is not empty. *)
Definition heap_pop (l : list A) : option (A * list A) :=
  match length l with
  | O => None
  | S n =>
      let l' := down (S n) (swap l 0 n) 0 n in
      match l' !! n with
      | Some x => Some (x, take n l')
      | None => None
      end
  end.

(** The heap property of the first [n] slots. *)
Definition heap_upto (l : list A) (n : nat) : Prop :=
  forall j a b, (0 < j < n)%nat ->
    l !! parent j = Some a -> l !! j = Some b -> less b a = false.

Definition is_heap (l : list A) : Prop := heap_upto l (length l).

End Ops.

(** [Less] is a strict weak order: asymmetric, and "not less" is transitive. *)
Class StrictWeak {A} (less : A -> A -> bool) : Prop := {
  less_asym : forall x y, less x y = true -> less y x = false;
  less_ntrans : forall x y z, less x y = false -> less y z = false -> less x z = false;
}.

Section Perm.
Context {A : Type} (less : A -> A -> bool).
Implicit Types l : list A.

Lemma swap_length l i j : length (swap l i j) = length l.
Proof. unfold swap. repeat case_match; by rewrite ?length_insert. Qed.

Lemma swap_lookup l i j k :
  (i < length l)%nat -> (j < length l)%nat ->
  swap l i j !! k = l !! (if decide (k = i) then j else if decide (k = j) then i else k).
Proof.
  intros Hi Hj. unfold swap.
  destruct (l !! i) as [a|] eqn:Ha; [|apply lookup_ge_None in Ha; lia].
  destruct (l !! j) as [b|] eqn:Hb; [|apply lookup_ge_None in Hb; lia].
  destruct (decide (k = i)) as [->|Hki].
  - rewrite list_lookup_insert_eq by (rewrite length_insert; lia). done.
  - rewrite list_lookup_insert_ne by done.
    destruct (decide (k = j)) as [->|Hkj].
    + rewrite list_lookup_insert_eq by lia. done.
    + by rewrite list_lookup_insert_ne by done.
Qed.

Lemma insert_perm l i (x y : A) : l !! i = Some y -> y :: <[i:=x]> l ≡ₚ x :: l.
Proof.
  intros Hk. rewrite insert_take_drop by eauto using lookup_lt_Some.
  rewrite <- (take_drop_middle l i y Hk) at 3.
  rewrite <- !Permutation_middle. apply perm_swap.
Qed.

Lemma swap_perm l i j : swap l i j ≡ₚ l.
Proof.
  unfold swap.
  destruct (l !! i) as [a|] eqn:Ha; [|done].
  destruct (l !! j) as [b|] eqn:Hb; [|done].
  apply (inj (cons a)).
  destruct (decide (i = j)) as [->|Hij].
  - simplify_eq. by rewrite !(list_insert_id l) by done.
  - trans (b :: <[j:=a]> l); apply insert_perm; [|done].
    by rewrite list_lookup_insert_ne.
Qed.

Lemma up_perm fuel l j : up less fuel l j ≡ₚ l.
Proof.
  revert l j. induction fuel as [|f IH]; intros l j; simpl; [done|].
  case_match; [done|]. by rewrite IH, swap_perm.
Qed.

Lemma down_perm fuel l i n : down less fuel l i n ≡ₚ l.
Proof.
  revert l i. induction fuel as [|f IH]; intros l i; simpl; [done|].
  repeat (case_match; [done|]). by rewrite IH, swap_perm.
Qed.

Lemma heap_push_perm l x : heap_push less l x ≡ₚ x :: l.
Proof. unfold heap_push. rewrite up_perm. by rewrite Permutation_app_comm. Qed.

Lemma heap_pop_perm l x l' : heap_pop less l = Some (x, l') -> l ≡ₚ x :: l'.
Proof.
  unfold heap_pop. destruct (length l) as [|n] eqn:Hl; [done|].
  set (d := down _ _ _ _ _).
  assert (Hp : d ≡ₚ l) by (unfold d; by rewrite down_perm, swap_perm).
  destruct (d !! n) as [y|] eqn:Hn; [|done]. intros [= <- <-].
  rewrite <- Hp, <- (take_drop_middle d n y Hn) at 1.
  rewrite drop_ge by (rewrite (Permutation_length Hp); lia).
  by rewrite Permutation_app_comm.
Qed.

Lemma heap_pop_Some l : l <> [] -> is_Some (heap_pop less l).
Proof.
  unfold heap_pop. destruct (length l) as [|n] eqn:Hl; [by destruct l|].
  intros _. set (d := down _ _ _ _ _).
  assert (Hp : d ≡ₚ l) by (unfold d; by rewrite down_perm, swap_perm).
  destruct (d !! n) as [y|] eqn:Hn; [by eexists|].
  apply lookup_ge_None in Hn. rewrite (Permutation_length Hp) in Hn. lia.
Qed.

End Perm.

Section Order.
Context {A : Type} (less : A -> A -> bool) `{!StrictWeak less}.
Implicit Types l : list A.

Definition edge l (i k : nat) : Prop :=
  forall a b, l !! i = Some a -> l !! k = Some b -> less b a = false.

(** Only the edge above [j] may be broken. *)
Definition up_inv l (j : nat) : Prop :=
  (forall k, (0 < k < length l)%nat -> k <> j -> edge l (parent k) k) /\
  (forall k, (0 < k < length l)%nat -> parent k = j -> (0 < j)%nat -> edge l (parent j) k).

(** Only the edges below [i] may be broken. *)
Definition down_inv l (i n : nat) : Prop :=
  (forall k, (0 < k < n)%nat -> parent k <> i -> edge l (parent k) k) /\
  (forall k, (0 < k < n)%nat -> parent k = i -> (0 < i)%nat -> edge l (parent i) k).

Lemma parent_lt j : (0 < j)%nat -> (parent j < j)%nat.
Proof. intros. unfold parent. apply Nat.Div0.div_lt_upper_bound; lia. Qed.

Lemma parent_children k i :
  (0 < k)%nat -> parent k = i <-> (k = 2 * i + 1 \/ k = 2 * i + 2)%nat.
Proof.
  intros Hk. unfold parent. pose proof (Nat.div_mod_eq (k - 1) 2).
  pose proof (Nat.mod_upper_bound (k - 1) 2). lia.
Qed.

Lemma swap_l l i j :
  (i < length l)%nat -> (j < length l)%nat -> swap l i j !! i = l !! j.
Proof. intros. rewrite swap_lookup by done. by rewrite decide_True. Qed.

Lemma swap_r l i j :
  (i < length l)%nat -> (j < length l)%nat -> swap l i j !! j = l !! i.
Proof. intros. rewrite swap_lookup by done. repeat case_decide; congruence. Qed.

Lemma swap_ne l i j k :
  (i < length l)%nat -> (j < length l)%nat -> k <> i -> k <> j -> swap l i j !! k = l !! k.
Proof. intros. rewrite swap_lookup by done. by rewrite !decide_False. Qed.

Lemma edge_trans l i j k :
  (j < length l)%nat -> edge l i j -> edge l j k -> edge l i k.
Proof.
  intros Hj H1 H2 a c Ha Hc. destruct (lookup_lt_is_Some_2 l j Hj) as [b Hb].
  eapply less_ntrans; eauto.
Qed.

(** A strict comparison found by the code, seen as the reversed edge. *)
Lemma less_at_edge l i j : less_at less l j i = true -> edge l j i.
Proof.
  unfold less_at, edge. intros H a b Ha Hb. rewrite Ha, Hb in H. by apply less_asym.
Qed.

Lemma not_less_at_edge l i j : less_at less l j i = false -> edge l i j.
Proof. unfold less_at, edge. intros H a b Ha Hb. by rewrite Ha, Hb in H. Qed.

Lemma edge_swap l l' i j i' j' : l' !! i' = l !! i -> l' !! j' = l !! j -> edge l i j -> edge l' i' j'.
Proof. unfold edge. intros -> ->. done. Qed.

Lemma up_inv_step l j :
  (0 < j < length l)%nat -> less_at less l j (parent j) = true ->
  up_inv l j -> up_inv (swap l (parent j) j) (parent j).
Proof.
  intros [Hj0 Hj] Hless [H1 H2]. set (i := parent j) in *.
  assert (Hij : (i < j)%nat) by (by apply parent_lt).
  pose proof (swap_l l i j ltac:(lia) Hj) as Si.
  pose proof (swap_r l i j ltac:(lia) Hj) as Sj.
  assert (Sk : forall k, k <> i -> k <> j -> swap l i j !! k = l !! k)
    by (intros; apply swap_ne; lia).
  pose proof (less_at_edge _ _ _ Hless) as Hji.
  split; rewrite swap_length; intros k Hk.
  - intros Hki. pose proof (parent_lt k ltac:(lia)) as Hpk.
    destruct (decide (k = j)) as [->|Hkj].
    { apply (edge_swap l _ j i); done. }
    destruct (decide (parent k = j)) as [Hpj|Hpj].
    { rewrite Hpj. apply (edge_swap l _ i k); [done|by apply Sk|]. apply H2; lia. }
    destruct (decide (parent k = i)) as [Hpi|Hpi].
    { rewrite Hpi. apply (edge_swap l _ j k); [done|by apply Sk|].
      apply (edge_trans _ _ i); [lia|done|]. rewrite <- Hpi. by apply H1. }
    apply (edge_swap l _ (parent k) k); [by apply Sk|by apply Sk|]. by apply H1.
  - intros Hki Hi0. pose proof (parent_lt k ltac:(lia)) as Hpk.
    pose proof (parent_lt i Hi0) as Hpi.
    destruct (decide (k = j)) as [->|Hkj].
    { apply (edge_swap l _ (parent i) i); [apply Sk; lia|done|]. apply H1; lia. }
    apply (edge_swap l _ (parent i) k); [apply Sk; lia|apply Sk; lia|].
    apply (edge_trans _ _ i); [lia|apply H1; lia|]. rewrite <- Hki at 1. by apply H1.
Qed.

Lemma up_heap fuel l j :
  (j <= fuel)%nat -> (j < length l)%nat -> up_inv l j -> is_heap less (up less fuel l j).
Proof.
  revert l j. induction fuel as [|f IH]; intros l j Hf Hj Hinv.
  - simpl. intros k a b Hk Ha Hb. destruct Hinv as [H1 _].
    eapply (H1 k); try done; lia.
  - simpl. destruct (decide (j = 0)%nat) as [->|Hj0].
    { simpl. intros k a b Hk. apply Hinv; lia. }
    pose proof (parent_lt j ltac:(lia)).
    destruct (parent j =? j)%nat eqn:E; [apply Nat.eqb_eq in E; lia|]. simpl.
    destruct (less_at less l j (parent j)) eqn:Hl; simpl.
    + apply IH; [lia|rewrite swap_length; lia|]. apply up_inv_step; [lia|done|done].
    + intros k a b Hk. destruct (decide (k = j)) as [->|Hkj].
      * by apply not_less_at_edge.
      * apply Hinv; lia.
Qed.

Lemma heap_push_heap l x : is_heap less l -> is_heap less (heap_push less l x).
Proof.
  intros H. apply up_heap; [lia|rewrite length_app; simpl; lia|].
  split; rewrite length_app; simpl; intros k Hk.
  - intros Hkl a b Ha Hb. pose proof (parent_lt k ltac:(lia)).
    rewrite lookup_app_l in Ha, Hb by lia. eapply H; [|done..]. lia.
  - intros Hp. pose proof (parent_lt k ltac:(lia)). lia.
Qed.

(** The child [down] compares with: the lesser of the two children of [i]. *)
Definition min_child l (i n : nat) : nat :=
  let j1 := (2 * i + 1)%nat in
  if (j1 + 1 <? n)%nat && less_at less l (j1 + 1) j1 then (j1 + 1)%nat else j1.

Lemma min_child_spec l i n :
  (2 * i + 1 < n)%nat -> (n <= length l)%nat ->
  let j := min_child l i n in
  (i < j < n)%nat /\ parent j = i /\
  forall k, (0 < k < n)%nat -> parent k = i -> k <> j -> edge l j k.
Proof.
  intros Hn Hl j. unfold j, min_child.
  destruct (_ && _) eqn:E.
  - apply andb_prop in E as [E1 E2]. apply Nat.ltb_lt in E1.
    split_and!; [lia|lia|apply parent_children; lia|].
    intros k Hk Hp Hkj. apply parent_children in Hp; [|lia].
    assert (k = 2 * i + 1)%nat as -> by lia. by apply less_at_edge.
  - split_and!; [lia|lia|apply parent_children; lia|].
    intros k Hk Hp Hkj. apply parent_children in Hp; [|lia].
    assert (k = 2 * i + 1 + 1)%nat as -> by lia.
    apply andb_false_iff in E as [E|E]; [apply Nat.ltb_ge in E; lia|].
    by apply not_less_at_edge.
Qed.

Lemma down_inv_step l i n :
  (2 * i + 1 < n)%nat -> (n <= length l)%nat ->
  less_at less l (min_child l i n) i = true ->
  down_inv l i n -> down_inv (swap l i (min_child l i n)) (min_child l i n) n.
Proof.
  intros Hn Hl Hless [H1 H2].
  destruct (min_child_spec l i n Hn Hl) as (Hij & Hpj & Hmin).
  set (j := min_child l i n) in *.
  pose proof (swap_l l i j ltac:(lia) ltac:(lia)) as Si.
  pose proof (swap_r l i j ltac:(lia) ltac:(lia)) as Sj.
  assert (Sk : forall k, k <> i -> k <> j -> swap l i j !! k = l !! k)
    by (intros; apply swap_ne; lia).
  pose proof (less_at_edge _ _ _ Hless) as Hji.
  split; intros k Hk Hp; pose proof (parent_lt k ltac:(lia)) as Hpk.
  - destruct (decide (k = j)) as [->|Hkj].
    { rewrite Hpj. apply (edge_swap l _ j i); done. }
    destruct (decide (parent k = i)) as [Hpi|Hpi].
    { rewrite Hpi. apply (edge_swap l _ j k); [done|apply Sk; lia|]. by apply Hmin. }
    destruct (decide (k = i)) as [->|Hki].
    { apply (edge_swap l _ (parent i) j); [by apply Sk|done|]. apply H2; lia. }
    apply (edge_swap l _ (parent k) k); [by apply Sk|by apply Sk|]. by apply H1.
  - intros Hj0. rewrite Hpj.
    apply (edge_swap l _ j k); [done|apply Sk; lia|]. rewrite <- Hp. apply H1; lia.
Qed.

Lemma down_heap fuel l i n :
  (n <= i + fuel)%nat -> (n <= length l)%nat -> down_inv l i n ->
  heap_upto less (down less fuel l i n) n.
Proof.
  assert (Hstop : forall l i, (n <= length l)%nat -> down_inv l i n ->
    (forall k, (0 < k < n)%nat -> parent k = i -> edge l i k) -> heap_upto less l n).
  { intros l0 i0 Hl0 [H1 _] H2 k a b Hk.
    destruct (decide (parent k = i0)) as [<-|Hp]; [by apply H2|by apply H1]. }
  revert l i. induction fuel as [|f IH]; intros l i Hf Hl Hinv; simpl.
  { apply (Hstop l i Hl Hinv). intros k Hk Hp.
    pose proof (parent_lt k ltac:(lia)). lia. }
  destruct (n <=? i + (i + 0) + 1)%nat eqn:E.
  { apply Nat.leb_le in E. apply (Hstop l i Hl Hinv). intros k Hk Hp.
    apply parent_children in Hp; lia. }
  apply Nat.leb_gt in E.
  change (if _ && _ then _ else _) with (min_child l i n).
  destruct (min_child_spec l i n ltac:(lia) Hl) as (Hij & Hpj & Hmin).
  destruct (less_at less l (min_child l i n) i) eqn:Hless; simpl.
  - apply IH; [lia|rewrite swap_length; lia|]. apply down_inv_step; [lia|done..].
  - apply (Hstop l i Hl Hinv). intros k Hk Hp.
    destruct (decide (k = min_child l i n)) as [->|Hkj]; [by apply not_less_at_edge|].
    apply (edge_trans _ _ (min_child l i n)); [lia|by apply not_less_at_edge|by apply Hmin].
Qed.

Lemma down_frame fuel l i n k :
  (n <= length l)%nat -> (n <= k)%nat -> (i < n)%nat -> down less fuel l i n !! k = l !! k.
Proof.
  revert l i. induction fuel as [|f IH]; intros l i Hl Hk Hi; simpl; [done|].
  destruct (n <=? i + (i + 0) + 1)%nat eqn:E; [done|]. apply Nat.leb_gt in E.
  change (if _ && _ then _ else _) with (min_child l i n).
  destruct (min_child_spec l i n ltac:(lia) Hl) as (Hij & _ & _).
  destruct (less_at less l (min_child l i n) i); simpl; [|done].
  rewrite IH by (rewrite ?swap_length; lia). apply swap_ne; lia.
Qed.

(** In a heap nothing is less than the element in slot 0. *)
Lemma heap_root_min l x a j :
  is_heap less l -> l !! 0%nat = Some a -> l !! j = Some x -> less x a = false.
Proof.
  intros Hh Ha. revert x. induction (lt_wf j) as [j _ IH]. intros x Hx.
  destruct (decide (j = 0)%nat) as [->|Hj].
  { simplify_eq. destruct (less a a) eqn:E; [|done]. by apply less_asym in E as E'; congruence. }
  pose proof (lookup_lt_Some _ _ _ Hx). pose proof (parent_lt j ltac:(lia)) as Hp.
  destruct (lookup_lt_is_Some_2 l (parent j) ltac:(lia)) as [b Hb].
  apply (less_ntrans x b a); [|by apply (IH (parent j))].
  eapply (Hh j); [lia|done..].
Qed.

Lemma heap_pop_lookup l x l' : heap_pop less l = Some (x, l') -> l !! 0%nat = Some x.
Proof.
  unfold heap_pop. destruct (length l) as [|n] eqn:Hl; [done|].
  set (d := down _ _ _ _ _).
  assert (Hd : d !! n = l !! 0%nat).
  { unfold d. destruct n as [|n].
    - simpl. unfold swap. destruct l as [|y [|z l]]; simplify_eq/=; done.
    - rewrite down_frame by (rewrite ?swap_length; lia). apply swap_r; lia. }
  rewrite Hd. case_match; [|done]. intros Heq. by simplify_eq.
Qed.

Lemma heap_pop_heap l x l' :
  is_heap less l -> heap_pop less l = Some (x, l') -> is_heap less l'.
Proof.
  unfold heap_pop. destruct (length l) as [|n] eqn:Hl; [done|]. intros Hh.
  assert (Hd : heap_upto less (down less (S n) (swap l 0 n) 0 n) n).
  { apply down_heap; [lia|rewrite swap_length; lia|]. split; [|lia].
    intros k Hk Hp. pose proof (parent_lt k ltac:(lia)).
    apply (edge_swap l _ (parent k) k); [apply swap_ne; lia|apply swap_ne; lia|].
    intros a b. apply Hh. lia. }
  revert Hd. generalize (down less (S n) (swap l 0 n) 0 n) as d. intros d Hd.
  destruct (d !! n) as [y|] eqn:Hn; [|done]. intros [= -> <-].
  pose proof (lookup_lt_Some _ _ _ Hn). unfold is_heap. rewrite length_take_le by lia.
  intros k a b Hk. pose proof (parent_lt k ltac:(lia)).
  rewrite !lookup_take_lt by lia. apply Hd. lia.
Qed.

Lemma heap_pop_min l x l' y :
  is_heap less l -> heap_pop less l = Some (x, l') -> y ∈ l' -> less y x = false.
Proof.
  intros Hh Hp Hy. pose proof (heap_pop_perm _ _ _ _ Hp) as Hperm.
  assert (Hin : y ∈ l) by (rewrite Hperm; set_solver).
  apply list_elem_of_lookup in Hin as [j Hj].
  eapply heap_root_min; eauto using heap_pop_lookup.
Qed.

Lemma is_heap_nil : is_heap less [].
Proof. intros j a b Hj. simpl in Hj. lia. Qed.

End Order.
