(* ===== verification/ChainTypes.v ===== *)
(** * Types shared by the components

    Addresses, hashes, the fork schedule ([chain/params.go]) and transactions
    ([types/transaction.go], [types/rlp_marshal.go]), with the intrinsic gas of
    a transaction ([state/executor.go]).

    A fixed-size byte array ([types.Hash], [types.Address]) is the integer its
    bytes spell in big-endian order; a byte is a [Z] in [0, 256). *)

From S2P Require Import Prelude.
Local Open Scope go_scope.

Abbreviation Address := Z (only parsing).
Abbreviation Hash := Z (only parsing).

Definition ZeroAddress : Address := 0.
Definition ZeroHash : Hash := 0.

(** [new(big.Int).SetBytes(b)] *)
Definition be_val (b : list Z) : Z := fold_left (fun acc x => acc * 256 + x) b 0.

(** The [n] low-order bytes of [z], most significant first. *)
Fixpoint be_bytes (n : nat) (z : Z) : list Z :=
  match n with
  | O => []
  | S k => be_bytes k (z / 256) ++ [z mod 256]
  end.

(** The last [n] bytes of [b]. *)
Definition last_bytes (n : nat) (b : list Z) : list Z := drop (length b - n) b.

Definition BytesToHash (b : list Z) : Hash := be_val (last_bytes 32 b).
Definition BytesToAddress (b : list Z) : Address := be_val (last_bytes 20 b).

(** ** [chain.Forks] *)

Definition Fork : Type := Z.

Record ForksInTime := {
  Homestead : bool; Byzantium : bool; Constantinople : bool; Petersburg : bool;
  Istanbul : bool; London : bool; EIP150 : bool; EIP158 : bool; EIP155 : bool }.

Record Forks := {
  f_Homestead : option Fork; f_Byzantium : option Fork;
  f_Constantinople : option Fork; f_Petersburg : option Fork;
  f_Istanbul : option Fork; f_London : option Fork;
  f_EIP150 : option Fork; f_EIP158 : option Fork; f_EIP155 : option Fork }.

Definition fork_Active (f : Fork) (block : Z) : bool := f <=? block.

Definition forks_active (ff : option Fork) (block : Z) : bool :=
  match ff with None => false | Some f => fork_Active f block end.

Definition Forks_At (f : Forks) (block : Z) : ForksInTime := {|
  Homestead := forks_active (f_Homestead f) block;
  Byzantium := forks_active (f_Byzantium f) block;
  Constantinople := forks_active (f_Constantinople f) block;
  Petersburg := forks_active (f_Petersburg f) block;
  Istanbul := forks_active (f_Istanbul f) block;
  London := forks_active (f_London f) block;
  EIP150 := forks_active (f_EIP150 f) block;
  EIP158 := forks_active (f_EIP158 f) block;
  EIP155 := forks_active (f_EIP155 f) block |}.

(** ** RLP values

    The values the sources build with a [fastrlp.Arena]; their encoding
    ([Value.MarshalTo]) and Keccak-256 are third-party code. *)

Inductive Value :=
| VUint (n : Z)
| VBigInt (z : Z)
| VBytes (b : list Z)
| VNull
| VBool (b : bool)
| VArray (l : list Value)
| VNullArray.

Class Codec := {
  fastrlp_MarshalTo : Value -> list Z;
  keccak256 : list Z -> list Z;
}.

(** ** [types.Transaction] *)

Definition LegacyTx : Z := 0.
Definition StateTx : Z := 127.
Definition StateTransactionGasLimit : Z := 1000000.

Record Transaction := mkTx {
  Nonce : Z;
  GasPrice : Z;
  Gas : Z;
  To : option Address;
  TxValue : Z;
  Input : list Z;
  sigV : Z;
  sigR : Z;
  sigS : Z;
  TxHash : Hash;
  From : Address;
  TxType : Z }.

#[global] Instance Transaction_eq_dec : EqDecision Transaction.
Proof. solve_decision. Defined.

Definition set_From (a : Address) (t : Transaction) : Transaction :=
  mkTx (Nonce t) (GasPrice t) (Gas t) (To t) (TxValue t) (Input t)
       (sigV t) (sigR t) (sigS t) (TxHash t) a (TxType t).

Definition set_Hash (h : Hash) (t : Transaction) : Transaction :=
  mkTx (Nonce t) (GasPrice t) (Gas t) (To t) (TxValue t) (Input t)
       (sigV t) (sigR t) (sigS t) h (From t) (TxType t).

Definition txTypeFromByte (b : Z) : option Z :=
  if (b =? LegacyTx) || (b =? StateTx) then Some b else None.

Definition IsContractCreation (t : Transaction) : bool :=
  match To t with None => true | Some _ => false end.

(** [gas * gasPrice + value], on unbounded integers. *)
Definition Cost (t : Transaction) : Z := GasPrice t * Gas t + TxValue t.

Definition ExceedsBlockGasLimit (t : Transaction) (blockGasLimit : Z) : bool :=
  blockGasLimit <? Gas t.

Definition IsUnderpriced (t : Transaction) (priceLimit : Z) : bool :=
  GasPrice t <? priceLimit.

Definition tx_MarshalRLPWith (t : Transaction) : Value :=
  VArray ([VUint (Nonce t); VBigInt (GasPrice t); VUint (Gas t);
           match To t with Some a => VBytes (be_bytes 20 a) | None => VNull end;
           VBigInt (TxValue t); VBytes (Input t);
           VBigInt (sigV t); VBigInt (sigR t); VBigInt (sigS t)]
          ++ (if TxType t =? StateTx then [VBytes (be_bytes 20 (From t))] else [])).

Section WithCodec.
Context `{Codec}.

Definition tx_MarshalRLP (t : Transaction) : list Z :=
  (if TxType t =? LegacyTx then [] else [TxType t]) ++ fastrlp_MarshalTo (tx_MarshalRLPWith t).

Definition ComputeHash (t : Transaction) : Transaction :=
  set_Hash (be_val (keccak256 (fastrlp_MarshalTo (tx_MarshalRLPWith t)))) t.

(** [Size]: the cached value is the length of the encoding of the fields. *)
Definition Size (t : Transaction) : Z := Z.of_nat (length (tx_MarshalRLP t)).

End WithCodec.

(** ** Intrinsic gas: [state.TransactionGasCost] *)

Definition TxGas : Z := 21000.
Definition TxGasContractCreation : Z := 53000.
Definition SpuriousDragonMaxCodeSize : Z := 24576.
Definition TxPoolMaxInitCodeSize : Z := 2 * SpuriousDragonMaxCodeSize.

Definition MaxUint64 : Z := two64 - 1.

Definition count_zeros (payload : list Z) : Z :=
  fold_left (fun zeros b => if b =? 0 then zeros +u 1 else zeros) payload 0.

(** [None] is [ErrIntrinsicGasOverflow]. *)
Definition TransactionGasCost (msg : Transaction) (isHomestead isIstanbul : bool) : option Z :=
  let cost := if IsContractCreation msg && isHomestead
              then 0 +u TxGasContractCreation else 0 +u TxGas in
  let payload := Input msg in
  if (0 <? length payload)%nat then
    let zeros := count_zeros payload in
    let nonZeros := u64 (Z.of_nat (length payload)) -u zeros in
    let nonZeroCost := if isIstanbul then 16 else 68 in
    if (MaxUint64 -u cost) / nonZeroCost <? nonZeros then None
    else
      let cost := cost +u (nonZeros *u nonZeroCost) in
      if (MaxUint64 -u cost) / 4 <? zeros then None
      else Some (cost +u (zeros *u 4))
  else Some cost.

(** ** Lemmas *)

(** The unbounded intrinsic gas the code's 64-bit computation stands for. *)
Definition intrinsic_gas (msg : Transaction) (isHomestead isIstanbul : bool) : Z :=
  let z := Z.of_nat (length (filter (fun b => b = 0) (Input msg))) in
  let n := Z.of_nat (length (Input msg)) in
  (if IsContractCreation msg && isHomestead then TxGasContractCreation else TxGas)
  + (n - z) * (if isIstanbul then 16 else 68) + z * 4.

Lemma count_zeros_spec payload :
  Z.of_nat (length payload) < two64 ->
  count_zeros payload = Z.of_nat (length (filter (fun b => b = 0) payload)).
Proof.
  intros Hlen. unfold count_zeros.
  assert (Hgen : forall acc, 0 <= acc -> acc + Z.of_nat (length payload) < two64 ->
    fold_left (fun zeros b => if b =? 0 then zeros +u 1 else zeros) payload acc =
    acc + Z.of_nat (length (filter (fun b => b = 0) payload))).
  { clear Hlen. induction payload as [|b l IH]; intros acc H0 H1; simpl in *; [lia|].
    rewrite filter_cons. destruct (b =? 0) eqn:E; breflect; case_decide; try lia.
    - rewrite u64_small by (unfold two64 in *; lia). rewrite IH by lia. simpl. lia.
    - rewrite IH by lia. lia. }
  rewrite Hgen by lia. lia.
Qed.

(** [(Max - a) / b < n] is the code's test for [a + n * b > Max]. *)
Lemma overflow_test a b n :
  0 < b -> 0 <= a <= MaxUint64 ->
  ((MaxUint64 -u a) / b <? n) = (MaxUint64 <? a + n * b).
Proof.
  intros Hb Ha. rewrite u64_small by (unfold MaxUint64 in *; lia).
  apply eq_bool_prop_intro. rewrite !Is_true_true, !Z.ltb_lt.
  rewrite <- Z.le_succ_l. split; intros H.
  - pose proof (Z.mul_succ_div_gt (MaxUint64 - a) b Hb). nia.
  - apply Z.le_succ_l, Z.div_lt_upper_bound; lia.
Qed.

Lemma TransactionGasCost_eq msg h i :
  Z.of_nat (length (Input msg)) < two64 ->
  TransactionGasCost msg h i =
  if intrinsic_gas msg h i <=? MaxUint64 then Some (intrinsic_gas msg h i) else None.
Proof.
  intros Hlen. unfold TransactionGasCost, intrinsic_gas.
  rewrite count_zeros_spec by done.
  set (base := if IsContractCreation msg && h then TxGasContractCreation else TxGas).
  assert (Hbase : (if IsContractCreation msg && h then 0 +u TxGasContractCreation
                   else 0 +u TxGas) = base) by (unfold base; by case_match).
  rewrite Hbase. clear Hbase.
  assert (0 <= base < 60000) by (unfold base, TxGasContractCreation, TxGas; case_match; lia).
  set (z := Z.of_nat (length (filter _ _))). set (n := Z.of_nat (length (Input msg))) in *.
  assert (Hz : 0 <= z <= n).
  { unfold z, n. pose proof (length_filter (fun b => b = 0) (Input msg)). lia. }
  set (c := if i then 16 else 68). assert (Hc : 16 <= c <= 68) by (unfold c; case_match; lia).
  destruct (0 <? length (Input msg))%nat eqn:E.
  2: { apply Nat.ltb_ge in E. replace n with 0 by (unfold n; lia). replace z with 0 by lia.
       rewrite (proj2 (Z.leb_le _ _)) by (unfold MaxUint64, two64; lia). f_equal. lia. }
  rewrite (u64_small n) by lia. rewrite (u64_small (n - z)) by lia.
  rewrite overflow_test by (unfold MaxUint64, two64; lia).
  destruct (MaxUint64 <? _) eqn:E1; breflect.
  { by rewrite (proj2 (Z.leb_gt _ _)) by nia. }
  assert (0 <= (n - z) * c) by nia. unfold MaxUint64 in *.
  rewrite (u64_small ((n - z) * c)), (u64_small (base + _)) by lia.
  pose proof (overflow_test (base + (n - z) * c) 4 z ltac:(lia) ltac:(unfold MaxUint64; lia)) as Ho.
  unfold MaxUint64 in Ho. rewrite Ho. clear Ho.
  destruct (_ <? _) eqn:E2; breflect.
  { by rewrite (proj2 (Z.leb_gt _ _)) by lia. }
  rewrite (proj2 (Z.leb_le _ _)) by lia. rewrite (u64_small (z * 4)), u64_small by lia. done.
Qed.

(** [TransactionGasCost] returns the intrinsic gas computed over unbounded
    integers when it fits in a uint64, and an error exactly when it does not:
    its two divisions catch every overflow and nothing else. *)
Theorem TransactionGasCost_spec msg h i :
  Z.of_nat (length (Input msg)) < two64 ->
  TransactionGasCost msg h i =
  if intrinsic_gas msg h i <=? MaxUint64 then Some (intrinsic_gas msg h i) else None.
Proof. apply TransactionGasCost_eq. Qed.

Lemma TransactionGasCost_spec_witness :
  let msg := mkTx 0 1 50000 None 0 [0; 7; 0; 255] 0 0 0 1 2 0 in
  TransactionGasCost msg true false = Some 53144.
Proof.
  intros msg. assert (Hlen : Z.of_nat (length (Input msg)) < two64) by (vm_compute; reflexivity).
  exact (TransactionGasCost_spec msg true false Hlen).
Defined.
