(* ===== verification/TxAccount.v ===== *)
(** * The queues of the transaction pool ([txpool/queue.go])

    [accountQueue] (a min-nonce heap) and [pricedQueue] (a max-price heap),
    each the slice behind the Go type. The lock methods only order the
    goroutines that call the operations: an operation here runs with the lock
    its callers take. *)

From S2P Require Import Prelude GoHeap ChainTypes.
Local Open Scope go_scope.

Implicit Types q : list Transaction.

(** [minNonceQueue.Less]: by nonce, the higher gas price first on a tie. *)
Definition minNonce_Less (a b : Transaction) : bool :=
  if Nonce a =? Nonce b then GasPrice b <? GasPrice a else Nonce a <? Nonce b.

(** [maxPriceQueue.Less] compares [GasPrice.Uint64()], the low 64 bits. *)
Definition maxPrice_Less (a b : Transaction) : bool :=
  u64 (GasPrice b) <? u64 (GasPrice a).

Definition newAccountQueue : list Transaction := [].
Definition newPricedQueue : list Transaction := [].

(** [length] *)
Definition q_length q : Z := Z.of_nat (length q).

(** [peek] *)
Definition q_peek q : option Transaction := q !! 0%nat.

(** [push] *)
Definition q_push q (tx : Transaction) : list Transaction := heap_push minNonce_Less q tx.

(** [pop]: [nil] on an empty queue. *)
Definition q_pop q : option Transaction * list Transaction :=
  match heap_pop minNonce_Less q with
  | Some (tx, q') => (Some tx, q')
  | None => (None, q)
  end.

(** [prune]: pop while the first nonce is lower; every iteration but the last
    removes an element, so [fuel = length q] is enough. *)
Fixpoint q_prune_loop (fuel : nat) (nonce : Z) (pruned q : list Transaction)
  : list Transaction * list Transaction :=
  match fuel with
  | O => (pruned, q)
  | S f =>
      match q_peek q with
      | None => (pruned, q)
      | Some tx =>
          if nonce <=? Nonce tx then (pruned, q)
          else match q_pop q with
               | (Some x, q') => q_prune_loop f nonce (pruned ++ [x]) q'
               | (None, q') => (pruned, q')
               end
      end
  end.

Definition q_prune (nonce : Z) q : list Transaction * list Transaction :=
  q_prune_loop (length q) nonce [] q.

(** [clear]: the removed transactions and the emptied queue. *)
Definition q_clear q : list Transaction * list Transaction := (q, []).

(** [pricedQueue] *)
Definition pq_clear q : list Transaction := [].
Definition pq_push q (tx : Transaction) : list Transaction := heap_push maxPrice_Less q tx.
Definition pq_pop q : option Transaction * list Transaction :=
  match heap_pop maxPrice_Less q with
  | Some (tx, q') => (Some tx, q')
  | None => (None, q)
  end.
Definition pq_length q : Z := Z.of_nat (length q).

(** ** Both orders are strict weak orders *)

#[global] Instance minNonce_StrictWeak : StrictWeak minNonce_Less.
Proof.
  unfold minNonce_Less. split; intros.
  - destruct (Nonce x =? Nonce y) eqn:E; breflect.
    + rewrite (proj2 (Z.eqb_eq _ _)) by lia. apply Z.ltb_ge. lia.
    + rewrite (proj2 (Z.eqb_neq _ _)) by lia. apply Z.ltb_ge. lia.
  - destruct (Nonce x =? Nonce y) eqn:E1; destruct (Nonce y =? Nonce z) eqn:E2;
      destruct (Nonce x =? Nonce z) eqn:E3; breflect; apply Z.ltb_ge; lia.
Qed.

#[global] Instance maxPrice_StrictWeak : StrictWeak maxPrice_Less.
Proof. unfold maxPrice_Less. split; intros; breflect; apply Z.ltb_ge; lia. Qed.

(** ** Queue lemmas *)

Abbreviation mq := (is_heap minNonce_Less).

Lemma q_peek_min q tx x : mq q -> q_peek q = Some tx -> x ∈ q -> Nonce tx <= Nonce x.
Proof.
  intros Hh Hp Hx. apply list_elem_of_lookup in Hx as [j Hj].
  pose proof (heap_root_min _ _ _ _ _ Hh Hp Hj) as Hl. unfold minNonce_Less in Hl.
  destruct (Nonce x =? Nonce tx) eqn:E; breflect; lia.
Qed.

Lemma q_peek_None q : q_peek q = None -> q = [].
Proof. by destruct q. Qed.

Lemma q_peek_elem q tx : q_peek q = Some tx -> tx ∈ q.
Proof. apply list_elem_of_lookup_2. Qed.

Lemma q_pop_spec q tx q' :
  mq q -> q_pop q = (Some tx, q') -> q_peek q = Some tx /\ q ≡ₚ tx :: q' /\ mq q'.
Proof.
  unfold q_pop. intros Hh. destruct (heap_pop _ q) as [[x l]|] eqn:E; [|done].
  intros [= -> ->]. split_and!.
  - exact (heap_pop_lookup _ _ _ _ E).
  - by apply heap_pop_perm in E.
  - exact (heap_pop_heap _ _ _ _ Hh E).
Qed.

Lemma q_pop_total q : q <> [] -> exists tx q', q_pop q = (Some tx, q').
Proof.
  intros Hq. destruct (heap_pop_Some minNonce_Less q Hq) as [[tx q'] E].
  exists tx, q'. unfold q_pop. by rewrite E.
Qed.

Lemma q_pop_nil : q_pop [] = (None, []).
Proof. done. Qed.

Lemma q_push_perm q tx : q_push q tx ≡ₚ tx :: q.
Proof. apply heap_push_perm. Qed.

Lemma q_push_heap q tx : mq q -> mq (q_push q tx).
Proof. apply heap_push_heap, _. Qed.

#[export] Hint Resolve q_push_heap is_heap_nil : plg.

(** [prune] splits the queue at the nonce. *)
Lemma q_prune_loop_spec fuel nonce acc q pruned q' :
  mq q -> (length q <= fuel)%nat ->
  q_prune_loop fuel nonce acc q = (pruned, q') ->
  exists ps, pruned = acc ++ ps /\ q ≡ₚ ps ++ q' /\ mq q' /\
    Forall (fun t => Nonce t < nonce) ps /\ Forall (fun t => nonce <= Nonce t) q'.
Proof.
  revert acc q. induction fuel as [|f IH]; intros acc q Hh Hf Heq; simpl in Heq.
  - destruct q; [|simpl in Hf; lia]. simplify_eq. exists []. rewrite app_nil_r.
    split_and!; auto with plg.
  - destruct (q_peek q) as [tx|] eqn:Hp.
    2: { apply q_peek_None in Hp as ->. simplify_eq. exists []. rewrite app_nil_r.
         split_and!; auto with plg. }
    destruct (nonce <=? Nonce tx) eqn:Hn; breflect.
    { simplify_eq. exists []. rewrite app_nil_r. split_and!; auto with plg.
      apply Forall_forall. intros x Hx. pose proof (q_peek_min _ _ _ Hh Hp Hx). lia. }
    destruct (q_pop_total q) as (x & q1 & E); [by intros ->|]. rewrite E in Heq.
    destruct (q_pop_spec _ _ _ Hh E) as (Hx & Hperm & Hh1).
    pose proof (Permutation_length Hperm) as Hlen. simpl in Hlen.
    destruct (IH _ _ Hh1 ltac:(lia) Heq) as (ps & -> & Hp2 & Hh2 & Hlt & Hge).
    exists (x :: ps). rewrite <- app_assoc. split_and!; auto.
    + simpl. by rewrite Hperm, Hp2.
    + constructor; [congruence|done].
Qed.

Lemma q_prune_spec nonce q pruned q' :
  mq q -> q_prune nonce q = (pruned, q') ->
  q ≡ₚ pruned ++ q' /\ mq q' /\
  Forall (fun t => Nonce t < nonce) pruned /\ Forall (fun t => nonce <= Nonce t) q'.
Proof.
  intros Hh Heq. destruct (q_prune_loop_spec _ _ _ _ _ _ Hh ltac:(done) Heq)
    as (ps & -> & ?). done.
Qed.

Lemma q_prune_none nonce q :
  mq q -> Forall (fun t => nonce <= Nonce t) q -> q_prune nonce q = ([], q).
Proof.
  intros Hh Hall. unfold q_prune. destruct q as [|t l]; [done|]. simpl.
  inversion_clear Hall. by rewrite (proj2 (Z.leb_le _ _)).
Qed.

(** The executables queue hands out a transaction of highest (64-bit) price. *)
Lemma pq_pop_max q tx q' x :
  is_heap maxPrice_Less q -> pq_pop q = (Some tx, q') -> x ∈ q ->
  u64 (GasPrice x) <= u64 (GasPrice tx).
Proof.
  unfold pq_pop. intros Hh. destruct (heap_pop _ q) as [[y l]|] eqn:E; [|done].
  intros [= -> ->] Hx. apply list_elem_of_lookup in Hx as [j Hj].
  pose proof (heap_root_min _ _ _ _ _ Hh (heap_pop_lookup _ _ _ _ E) Hj) as Hl.
  unfold maxPrice_Less in Hl. breflect. lia.
Qed.

(** * Pool accounts ([txpool/account.go])

    An account separates its transactions by [nextNonce]: [enqueued] holds the
    future ones, [promoted] the executable ones. The invariant [acc_ok] says
    that this separation holds and that the promoted nonces have no gap. *)
Local Open Scope go_scope.

Record account := mkAccount {
  enqueued : list Transaction;
  promoted : list Transaction;
  nextNonce : Z;
  demotions : Z;
  skips : Z;
  maxEnqueued : Z }.

Definition set_enqueued (q : list Transaction) (a : account) : account :=
  mkAccount q (promoted a) (nextNonce a) (demotions a) (skips a) (maxEnqueued a).
Definition set_promoted (q : list Transaction) (a : account) : account :=
  mkAccount (enqueued a) q (nextNonce a) (demotions a) (skips a) (maxEnqueued a).
Definition setNonce (n : Z) (a : account) : account :=
  mkAccount (enqueued a) (promoted a) n (demotions a) (skips a) (maxEnqueued a).
Definition set_demotions (n : Z) (a : account) : account :=
  mkAccount (enqueued a) (promoted a) (nextNonce a) n (skips a) (maxEnqueued a).
Definition set_skips (n : Z) (a : account) : account :=
  mkAccount (enqueued a) (promoted a) (nextNonce a) (demotions a) n (maxEnqueued a).

Definition getNonce (a : account) : Z := nextNonce a.
Definition Demotions (a : account) : Z := demotions a.
Definition resetDemotions (a : account) : account := set_demotions 0 a.
Definition incrementDemotions (a : account) : account := set_demotions (demotions a +u 1) a.
Definition resetSkips (a : account) : account := set_skips 0 a.
Definition incrementSkips (a : account) : account := set_skips (skips a +u 1) a.

(** The account [initOnce] stores. *)
Definition new_account (maxEnqueuedLimit nonce : Z) : account :=
  mkAccount newAccountQueue newAccountQueue nonce 0 0 maxEnqueuedLimit.

(** What [account.reset] returns and signals. *)
Record reset_result := mkReset {
  r_account : account;
  r_prunedPromoted : list Transaction;
  r_prunedEnqueued : list Transaction;
  r_signal : option Address }.

Definition acc_reset (a : account) (nonce : Z) : reset_result :=
  let '(prunedPromoted, prom) := q_prune nonce (promoted a) in
  let a := set_promoted prom a in
  if nonce <=? getNonce a then mkReset a prunedPromoted [] None
  else
    let '(prunedEnqueued, enq) := q_prune nonce (enqueued a) in
    let a := setNonce nonce (set_enqueued enq a) in
    let signal := match q_peek enq with
                  | Some first => if Nonce first =? nonce then Some (From first) else None
                  | None => None
                  end in
    mkReset a prunedPromoted prunedEnqueued signal.

Inductive enqueue_error := ErrMaxEnqueuedLimitReached | ErrEnqueueNonceTooLow.

Definition acc_enqueue (a : account) (tx : Transaction) : result enqueue_error account :=
  if q_length (enqueued a) =? maxEnqueued a then Err ErrMaxEnqueuedLimitReached
  else if Nonce tx <? getNonce a then Err ErrEnqueueNonceTooLow
  else Ok (set_enqueued (q_push (enqueued a) tx) a).

(** The loop of [promote]; each iteration that continues pops a transaction
    from [enqueued], so [fuel = length enqueued] is enough. *)
Record promote_state := mkPromote {
  pr_enqueued : list Transaction;
  pr_promotedQ : list Transaction;
  pr_next : Z;
  pr_promoted : list Transaction;
  pr_pruned : list Transaction }.

Fixpoint promote_loop (fuel : nat) (s : promote_state) : promote_state :=
  match fuel with
  | O => s
  | S f =>
      match q_peek (pr_enqueued s) with
      | None => s
      | Some tx =>
          if negb (Nonce tx =? pr_next s) then s
          else
            match q_pop (pr_enqueued s) with
            | (Some tx, enq) =>
                let next := Nonce tx +u 1 in
                let '(pr, enq) := q_prune next enq in
                promote_loop f (mkPromote enq (q_push (pr_promotedQ s) tx) next
                                  (pr_promoted s ++ [tx]) (pr_pruned s ++ pr))
            | (None, _) => s
            end
      end
  end.

(** [promote]: the account, the promoted and the pruned transactions. *)
Definition acc_promote (a : account) : account * list Transaction * list Transaction :=
  let currentNonce := getNonce a in
  match q_peek (enqueued a) with
  | None => (a, [], [])
  | Some first =>
      if currentNonce <? Nonce first then (a, [], [])
      else
        let s := promote_loop (length (enqueued a))
                   (mkPromote (enqueued a) (promoted a) (Nonce first) [] []) in
        let a := set_promoted (pr_promotedQ s) (set_enqueued (pr_enqueued s) a) in
        let a := if currentNonce <? pr_next s then setNonce (pr_next s) a else a in
        (a, pr_promoted s, pr_pruned s)
  end.

Definition getLowestTx (a : account) : option Transaction :=
  match q_peek (promoted a) with
  | Some tx => Some tx
  | None => q_peek (enqueued a)
  end.

(** All transactions an account holds. *)
Definition acc_txs (a : account) : list Transaction := promoted a ++ enqueued a.

(** ** The account invariant *)

(** The nonces [l] are an interval that ends just below [nxt], each once. *)
Definition gap_free (l : list Z) (nxt : Z) : Prop :=
  NoDup l /\ exists lo, lo <= nxt /\ forall x, x ∈ l <-> lo <= x < nxt.

(** Nonces stay below the last [uint64], where [promote]'s increment wraps. *)
Definition tx_ok (t : Transaction) : Prop := 0 <= Nonce t < MaxUint64.

Record acc_ok (a : account) : Prop := {
  ok_enq_heap : mq (enqueued a);
  ok_prom_heap : mq (promoted a);
  ok_enq_above : Forall (fun t => nextNonce a <= Nonce t) (enqueued a);
  ok_prom_run : gap_free (Nonce <$> promoted a) (nextNonce a);
  ok_txs : Forall tx_ok (acc_txs a);
  ok_nonce : is_u64 (nextNonce a);
  ok_limit : q_length (enqueued a) <= maxEnqueued a }.

Lemma gap_free_nil n : gap_free [] n.
Proof. split; [constructor|]. exists n. split; [lia|]. intros x. rewrite elem_of_nil. lia. Qed.

#[global] Instance gap_free_perm : Proper ((≡ₚ) ==> (=) ==> iff) gap_free.
Proof.
  intros l k Hlk n ? <-. unfold gap_free. rewrite Hlk.
  split; intros [? (lo & ? & H)]; (split; [done|]); exists lo; (split; [done|]);
    intros x; [rewrite <- Hlk|rewrite Hlk]; apply H.
Qed.

Lemma gap_free_push l n : gap_free l n -> gap_free (n :: l) (n + 1).
Proof.
  intros [Hnd (lo & Hlo & H)]. split.
  - constructor; [|done]. rewrite H. lia.
  - exists lo. split; [lia|]. intros x. rewrite elem_of_cons, H. lia.
Qed.

(** Keeping the nonces from [c] on keeps the run. *)
Lemma gap_free_suffix l1 l2 n c :
  gap_free (l1 ++ l2) n -> Forall (fun x => x < c) l1 -> Forall (fun x => c <= x) l2 ->
  c <= n -> gap_free l2 n.
Proof.
  rewrite !Forall_forall. intros [Hnd (lo & Hlo & H)] H1 H2 Hc. split.
  - by apply NoDup_app in Hnd as (_ & _ & ?).
  - exists (Z.max lo c). split; [lia|]. intros x. split.
    + intros Hx. pose proof (H2 x Hx). assert (Hin : x ∈ l1 ++ l2) by (apply elem_of_app; by right). apply H in Hin. lia.
    + intros Hx. assert (Hin : x ∈ l1 ++ l2) by (apply H; lia).
      apply elem_of_app in Hin as [Hin|Hin]; [|done]. specialize (H1 x Hin). lia.
Qed.

(** Removing the least nonce keeps the run. *)
Lemma gap_free_pop x l n :
  gap_free (x :: l) n -> Forall (fun y => x <= y) l -> gap_free l n.
Proof.
  intros Hg Hmin. apply (gap_free_suffix [x] l n (x + 1)); [done|..].
  - constructor; [lia|constructor].
  - destruct Hg as [Hnd _]. apply NoDup_cons in Hnd as [Hx _]. rewrite Forall_forall in *.
    intros y Hy. specialize (Hmin y Hy). assert (x <> y) by (by intros ->). lia.
  - destruct Hg as [_ (lo & _ & H)]. assert (x ∈ x :: l) as Hx by (apply elem_of_cons; by left).
    apply H in Hx. lia.
Qed.

Lemma acc_txs_perm a a' :
  promoted a ≡ₚ promoted a' -> enqueued a ≡ₚ enqueued a' -> acc_txs a ≡ₚ acc_txs a'.
Proof. unfold acc_txs. by intros -> ->. Qed.

Lemma new_account_ok lim n : 0 <= lim -> is_u64 n -> acc_ok (new_account lim n).
Proof.
  intros. split; simpl; auto using gap_free_nil, is_heap_nil, minNonce_StrictWeak;
    unfold acc_txs; simpl; auto.
Qed.

Lemma acc_enqueue_ok a tx a' :
  acc_ok a -> tx_ok tx -> acc_enqueue a tx = Ok a' ->
  acc_ok a' /\ acc_txs a' ≡ₚ tx :: acc_txs a /\ nextNonce a <= Nonce tx.
Proof.
  intros [] Htx. unfold acc_enqueue, getNonce.
  destruct (_ =? _) eqn:E1; [done|]. destruct (_ <? _) eqn:E2; [done|].
  intros [= <-]. breflect.
  assert (Hp : acc_txs (set_enqueued (q_push (enqueued a) tx) a) ≡ₚ tx :: acc_txs a).
  { unfold acc_txs. simpl. rewrite q_push_perm. by rewrite Permutation_middle. }
  split_and!; [|done|lia]. split; simpl; auto with plg.
  - by rewrite q_push_perm, Forall_cons.
  - rewrite Hp. by constructor.
  - unfold q_length in *. rewrite (Permutation_length (q_push_perm _ _)). simpl. lia.
Qed.

(** ** [promote] *)

Record promote_inv (a : account) (s : promote_state) : Prop := {
  pi_enq_heap : mq (pr_enqueued s);
  pi_prom_heap : mq (pr_promotedQ s);
  pi_above : Forall (fun t => pr_next s <= Nonce t) (pr_enqueued s);
  pi_run : gap_free (Nonce <$> pr_promotedQ s) (pr_next s);
  pi_queue : pr_promotedQ s ≡ₚ promoted a ++ pr_promoted s;
  pi_txs : acc_txs a ≡ₚ pr_pruned s ++ pr_promotedQ s ++ pr_enqueued s;
  pi_next : nextNonce a <= pr_next s < two64;
  pi_count : pr_next s = nextNonce a + Z.of_nat (length (pr_promoted s));
  pi_best : forall t, t ∈ pr_pruned s ->
    exists t', t' ∈ pr_promoted s /\ Nonce t' = Nonce t /\ GasPrice t <= GasPrice t' }.

(** A popped transaction has the best price among those of its nonce. *)
Lemma q_pop_best q tx q' t :
  mq q -> q_pop q = (Some tx, q') -> t ∈ q' -> Nonce t = Nonce tx -> GasPrice t <= GasPrice tx.
Proof.
  unfold q_pop. intros Hh. destruct (heap_pop _ q) as [[x l]|] eqn:E; [|done].
  intros [= -> ->] Ht Hn. pose proof (heap_pop_min _ _ _ _ _ Hh E Ht) as Hl.
  unfold minNonce_Less in Hl. rewrite Hn, Z.eqb_refl in Hl. breflect. lia.
Qed.

Lemma promote_step a s tx enq pr enq' :
  acc_ok a -> promote_inv a s -> q_peek (pr_enqueued s) = Some tx -> Nonce tx = pr_next s ->
  q_pop (pr_enqueued s) = (Some tx, enq) -> q_prune (Nonce tx +u 1) enq = (pr, enq') ->
  promote_inv a (mkPromote enq' (q_push (pr_promotedQ s) tx) (Nonce tx +u 1)
                   (pr_promoted s ++ [tx]) (pr_pruned s ++ pr)).
Proof.
  intros Ha [] Hpeek Hn Hpop Hprune.
  destruct (q_pop_spec _ _ _ pi_enq_heap0 Hpop) as (_ & Hperm & Hh1).
  destruct (q_prune_spec _ _ _ _ Hh1 Hprune) as (Hperm2 & Hh2 & Hlt & Hge).
  assert (Htx : tx_ok tx).
  { eapply (Forall_forall tx_ok (acc_txs a)); [apply Ha|]. rewrite pi_txs0, Hperm, !elem_of_app, elem_of_cons. auto. }
  unfold tx_ok, MaxUint64 in Htx.
  assert (Hnext : Nonce tx +u 1 = pr_next s + 1) by (rewrite u64_small; lia).
  rewrite Hnext in *.
  split; simpl; auto with plg.
  - rewrite q_push_perm, fmap_cons, Hn. by apply gap_free_push.
  - rewrite q_push_perm, app_assoc, <- pi_queue0. apply Permutation_cons_append.
  - rewrite pi_txs0, Hperm, q_push_perm, Hperm2. rewrite <- !app_assoc. simpl.
    f_equiv. rewrite <- !Permutation_middle. f_equiv. apply Permutation_app_swap_app.
  - lia.
  - rewrite length_app. simpl. lia.
  - intros t Ht. apply elem_of_app in Ht as [Ht|Ht].
    + destruct (pi_best0 t Ht) as (t' & ? & ?). exists t'. split; [in_list|done].
    + exists tx. rewrite Forall_forall in Hlt, pi_above0. specialize (Hlt t Ht).
      assert (Hin : t ∈ enq) by (rewrite Hperm2; in_list).
      assert (Hin' : t ∈ pr_enqueued s) by (rewrite Hperm; in_list).
      specialize (pi_above0 t Hin'). cbn beta in *. split_and!; [in_list|lia|].
      apply (q_pop_best _ _ _ _ pi_enq_heap0 Hpop Hin). lia.
Qed.

Lemma promote_loop_ok a fuel s :
  acc_ok a -> promote_inv a s -> (length (pr_enqueued s) <= fuel)%nat ->
  promote_inv a (promote_loop fuel s) /\
  Forall (fun t => pr_next (promote_loop fuel s) < Nonce t) (pr_enqueued (promote_loop fuel s)).
Proof.
  intros Ha. revert s. induction fuel as [|f IH]; intros s Hi Hf; simpl.
  { split; [done|]. by destruct (pr_enqueued s); [|simpl in Hf; lia]. }
  destruct (q_peek (pr_enqueued s)) as [tx|] eqn:Hp.
  2: { split; [done|]. by apply q_peek_None in Hp as ->. }
  destruct (Nonce tx =? pr_next s) eqn:E; simpl; breflect.
  2: { split; [done|]. destruct Hi. rewrite Forall_forall in *. intros t Ht.
       pose proof (q_peek_min _ _ _ pi_enq_heap0 Hp Ht).
       pose proof (pi_above0 tx (q_peek_elem _ _ Hp)). lia. }
  destruct (q_pop_total (pr_enqueued s)) as (x & enq & Hpop); [by intros E0; rewrite E0 in Hp|].
  destruct (q_pop_spec _ _ _ (pi_enq_heap _ _ Hi) Hpop) as (Hx & Hperm & Hh1).
  rewrite Hp in Hx. injection Hx as <-. rewrite Hpop.
  destruct (q_prune (Nonce tx +u 1) enq) as [pr enq'] eqn:Hprune.
  destruct (q_prune_spec _ _ _ _ Hh1 Hprune) as (Hperm2 & _).
  apply IH; [by eapply promote_step|]. simpl.
  rewrite Hperm in Hf. simpl in Hf. rewrite Hperm2, length_app in Hf. lia.
Qed.

(** [promote] keeps the invariant, loses no transaction but the pruned ones,
    prunes only transactions replaced by a better or equally priced one of the
    same nonce, and leaves nothing promotable behind. *)
Record promote_spec (a a' : account) (prom pruned : list Transaction) : Prop := {
  ps_ok : acc_ok a';
  ps_txs : acc_txs a ≡ₚ pruned ++ acc_txs a';
  ps_prom : promoted a' ≡ₚ promoted a ++ prom;
  ps_next : nextNonce a' = nextNonce a + Z.of_nat (length prom);
  ps_done : Forall (fun t => nextNonce a' < Nonce t) (enqueued a');
  ps_best : forall t, t ∈ pruned ->
    exists t', t' ∈ prom /\ Nonce t' = Nonce t /\ GasPrice t <= GasPrice t' }.

Lemma promote_start a first :
  acc_ok a -> q_peek (enqueued a) = Some first -> Nonce first <= nextNonce a ->
  promote_inv a (mkPromote (enqueued a) (promoted a) (Nonce first) [] []).
Proof.
  intros [] Hp Hle. assert (Hn : Nonce first = nextNonce a).
  { rewrite Forall_forall in ok_enq_above0.
    specialize (ok_enq_above0 _ (q_peek_elem _ _ Hp)). cbn beta in *. lia. }
  rewrite Hn. unfold is_u64 in *. split; simpl; rewrite ?app_nil_r; try done; try lia.
  intros t Ht. by apply elem_of_nil in Ht.
Qed.

Lemma acc_promote_spec a a' prom pruned :
  acc_ok a -> acc_promote a = (a', prom, pruned) -> promote_spec a a' prom pruned.
Proof.
  intros Ha. unfold acc_promote, getNonce.
  destruct (q_peek (enqueued a)) as [first|] eqn:Hp.
  2: { apply q_peek_None in Hp. intros [= <- <- <-]. split; rewrite ?app_nil_r; try done.
       - simpl. lia.
       - by rewrite Hp.
       - intros t Ht. by apply elem_of_nil in Ht. }
  destruct (nextNonce a <? Nonce first) eqn:E; breflect.
  { intros [= <- <- <-]. split; rewrite ?app_nil_r; try done.
    - simpl. lia.
    - apply Forall_forall. intros t Ht.
      pose proof (q_peek_min _ _ _ (ok_enq_heap _ Ha) Hp Ht). lia.
    - intros t Ht. by apply elem_of_nil in Ht. }
  destruct (promote_loop_ok a (length (enqueued a)) _ Ha (promote_start a first Ha Hp E) ltac:(done))
    as [Hi Hdone].
  set (s := promote_loop _ _) in *. clearbody s.
  set (b := set_promoted (pr_promotedQ s) (set_enqueued (pr_enqueued s) a)).
  intros [= <- <- <-].
  assert (Hb : (if nextNonce a <? pr_next s then setNonce (pr_next s) b else b)
               = setNonce (pr_next s) b).
  { destruct (_ <? _) eqn:E2; [done|]. breflect. destruct Hi. 
    unfold b, setNonce, set_promoted. simpl. f_equal. lia. }
  rewrite Hb. clear Hb. destruct Hi, Ha.
  assert (Ht : acc_txs a ≡ₚ pr_pruned s ++ acc_txs (setNonce (pr_next s) b)) by done.
  split; try done. split; simpl; try done.
  - rewrite Ht in ok_txs0. apply Forall_app in ok_txs0 as [_ Hok]. exact Hok.
  - unfold is_u64 in *. lia.
  - unfold q_length in *.
    enough (length (pr_enqueued s) <= length (enqueued a))%nat by lia.
    pose proof (Permutation_length pi_txs0) as L1. pose proof (Permutation_length pi_queue0) as L2.
    unfold acc_txs in L1. rewrite !length_app in *. lia.
Qed.

(** ** [reset] *)

Record reset_spec (a : account) (nonce : Z) (r : reset_result) : Prop := {
  rs_ok : acc_ok (r_account r);
  rs_txs : acc_txs a ≡ₚ r_prunedPromoted r ++ r_prunedEnqueued r ++ acc_txs (r_account r);
  rs_prom : promoted a ≡ₚ r_prunedPromoted r ++ promoted (r_account r);
  rs_stale : Forall (fun t => Nonce t < nonce) (r_prunedPromoted r ++ r_prunedEnqueued r);
  rs_fresh : Forall (fun t => nonce <= Nonce t) (acc_txs (r_account r));
  rs_next : nextNonce (r_account r) = Z.max (nextNonce a) nonce }.

Lemma acc_reset_spec a nonce :
  acc_ok a -> is_u64 nonce -> reset_spec a nonce (acc_reset a nonce).
Proof.
  intros [] Hu. unfold acc_reset, getNonce.
  destruct (q_prune nonce (promoted a)) as [pp prom] eqn:Ep.
  destruct (q_prune_spec _ _ _ _ ok_prom_heap0 Ep) as (Hp & Hph & Hplt & Hpge). simpl.
  destruct (nonce <=? nextNonce a) eqn:E; breflect.
  - assert (Ht : acc_txs a ≡ₚ pp ++ acc_txs (set_promoted prom a)).
    { unfold acc_txs. simpl. by rewrite Hp, <- app_assoc. }
    split; simpl; rewrite ?app_nil_r; try done; try lia.
    + split; simpl; try done.
      * apply (gap_free_suffix (Nonce <$> pp) _ _ nonce); [|by apply Forall_fmap..|lia].
        by rewrite <- fmap_app, <- Hp.
      * rewrite Ht in ok_txs0. apply Forall_app in ok_txs0 as [_ Hok]. exact Hok.
    + apply Forall_app. split; [done|]. eapply Forall_impl; [done|]. simpl. lia.
  - destruct (q_prune nonce (enqueued a)) as [pe enq] eqn:Ee.
    destruct (q_prune_spec _ _ _ _ ok_enq_heap0 Ee) as (Hq & Hqh & Hqlt & Hqge).
    assert (Hnil : prom = []).
    { destruct prom as [|t l]; [done|]. exfalso.
      apply Forall_cons in Hpge as [Hge _]. destruct ok_prom_run0 as [_ (lo & _ & Hr)].
      assert (Hin : Nonce t ∈ Nonce <$> promoted a).
      { rewrite Hp. apply list_elem_of_fmap_2. in_list. }
      apply Hr in Hin. lia. }
    subst prom. rewrite app_nil_r in Hp.
    assert (Ht : acc_txs a ≡ₚ pp ++ pe ++ enq) by (unfold acc_txs; by rewrite Hp, Hq).
    split; simpl; rewrite ?app_nil_r; try done; try lia.
    + split; simpl; try done.
      * apply gap_free_nil.
      * unfold acc_txs. simpl. rewrite Ht in ok_txs0.
        apply Forall_app in ok_txs0 as [_ [_ Hok]%Forall_app]. exact Hok.
      * unfold q_length in *. rewrite Hq, length_app in ok_limit0. lia.
    + by apply Forall_app.
Qed.

(** ** Removing the first promoted transaction, and clearing the account *)

Lemma acc_pop_ok a tx q :
  acc_ok a -> q_pop (promoted a) = (Some tx, q) ->
  acc_ok (set_promoted q a) /\ acc_txs a ≡ₚ tx :: acc_txs (set_promoted q a).
Proof.
  intros [] Hpop. destruct (q_pop_spec _ _ _ ok_prom_heap0 Hpop) as (Hx & Hp & Hh).
  assert (Ht : acc_txs a ≡ₚ tx :: acc_txs (set_promoted q a)).
  { unfold acc_txs. simpl. by rewrite Hp. }
  split; [|done]. split; simpl; try done.
  - apply (gap_free_pop (Nonce tx)); [by rewrite <- fmap_cons, <- Hp|].
    apply Forall_fmap, Forall_forall. intros t Hin. simpl.
    apply (q_peek_min (promoted a)); [done..|]. rewrite Hp. in_list.
  - rewrite Ht in ok_txs0. apply Forall_cons in ok_txs0 as [_ Hok]. exact Hok.
Qed.

Lemma acc_clear_ok a nonce :
  acc_ok a -> is_u64 nonce -> acc_ok (set_enqueued [] (set_promoted [] (setNonce nonce a))).
Proof.
  intros [] Hn. split; simpl; auto using gap_free_nil, is_heap_nil, minNonce_StrictWeak;
    unfold acc_txs, q_length in *; simpl; auto; lia.
Qed.

(** The counters are not part of the invariant. *)
Lemma acc_ok_demotions a d : acc_ok a -> acc_ok (set_demotions d a).
Proof. by intros []. Qed.

Lemma acc_ok_skips a s : acc_ok a -> acc_ok (set_skips s a).
Proof. by intros []. Qed.

#[export] Hint Resolve acc_ok_demotions acc_ok_skips acc_clear_ok : plg.
