(* ===== verification/TxPool.v ===== *)
(** * The transaction pool ([txpool/txpool.go])

    [Pool] is the state of [TxPool]; one definition per method. The requests
    the pool sends to itself through [enqueueReqCh], [promoteReqCh] and
    [pruneCh] are kept in the state as the requests whose handler goroutine has
    not run yet. Handlers that dereference the result of [accounts.get] return
    [None] where the Go code would panic on a nil account. Logging, metrics and
    the gossip topic are left out; events are kept as a trace. *)

From S2P Require Import Prelude GoHeap ChainTypes TxAccount.
Local Open Scope go_scope.

Definition txSlotSize : Z := 32 * 1024.
Definition txMaxSize : Z := 128 * 1024.
Definition maxAccountDemotions : Z := 10.
Definition maxAccountSkips : Z := 10.
Definition highPressureMark : Z := 80.

Inductive TxErr :=
| ErrIntrinsicGas | ErrBlockLimitExceeded | ErrNegativeValue | ErrExtractSignature
| ErrInvalidSender | ErrTxPoolOverflow | ErrUnderpriced | ErrNonceTooLow
| ErrInsufficientFunds | ErrInvalidAccountState | ErrAlreadyKnown | ErrOversizedData
| ErrRejectFutureTx | ErrSmartContractRestricted | ErrInvalidTxType
| ErrMaxCodeSizeExceeded | ErrIntrinsicGasOverflow.

#[global] Instance TxErr_eq_dec : EqDecision TxErr.
Proof. solve_decision. Defined.

Inductive EventType :=
| ADDED | ENQUEUED | PROMOTED | DROPPED | DEMOTED | PRUNED_PROMOTED | PRUNED_ENQUEUED.

(** The [store] interface the pool is given. *)
Record store := {
  hdr_StateRoot : Hash;
  hdr_GasLimit : Z;
  GetNonce : Hash -> Address -> Z;
  GetBalance : Hash -> Address -> option Z;
  GetBlockByHash : Hash -> option (list Transaction) }.

(** [slotGauge] *)
Record slotGauge := { height : Z; max : Z }.

Definition gauge_increase (g : slotGauge) (slots : Z) : slotGauge :=
  {| height := height g +u slots; max := max g |}.

(** [atomic.AddUint64(&g.height, ^(slots - 1))] *)
Definition gauge_decrease (g : slotGauge) (slots : Z) : slotGauge :=
  {| height := height g +u (MaxUint64 - (slots -u 1)); max := max g |}.

Definition highPressure (g : slotGauge) : bool :=
  (highPressureMark *u max g) / 100 <? height g.

(** [lookupMap] *)
Definition index_add (m : gmap Hash Transaction) (tx : Transaction)
  : bool * gmap Hash Transaction :=
  match m !! TxHash tx with
  | Some _ => (false, m)
  | None => (true, <[TxHash tx := tx]> m)
  end.

Definition index_remove (m : gmap Hash Transaction) (txs : list Transaction)
  : gmap Hash Transaction := fold_left (fun m tx => delete (TxHash tx) m) txs m.

Definition index_get (m : gmap Hash Transaction) (h : Hash) : option Transaction := m !! h.

(** [deploymentWhitelist]: the Go map is keyed by the printed address. *)
Definition newDeploymentWhitelist (raw : list Address) : gset Address :=
  fold_left (fun w a => {[a]} ∪ w) raw ∅.

Definition whitelist_allowed (w : gset Address) (a : Address) : bool :=
  if (size w =? 0)%nat then true else bool_decide (a ∈ w).

Record Config := {
  PriceLimit : Z; MaxSlots : Z; MaxAccountEnqueued : Z; DeploymentWhitelist : list Address }.

Record Pool := mkPool {
  forks : ForksInTime;
  accounts : gmap Address account;
  acc_count : Z;
  maxEnqueuedLimit : Z;
  executables : list Transaction;
  index : gmap Hash Transaction;
  gauge : slotGauge;
  priceLimit : Z;
  whitelist : gset Address;
  sealing : bool;
  pending : Z;
  enqueueReqs : list Transaction;
  promoteReqs : list Address;
  pruneSignal : bool;
  events : list (EventType * list Hash) }.

Definition NewTxPool (fk : ForksInTime) (c : Config) : Pool :=
  mkPool fk ∅ 0 (MaxAccountEnqueued c) newPricedQueue ∅ {| height := 0; max := MaxSlots c |}
    (PriceLimit c) (newDeploymentWhitelist (DeploymentWhitelist c)) false 0 [] [] false [].

Definition set_accounts (m : gmap Address account) (p : Pool) : Pool :=
  mkPool (forks p) m (acc_count p) (maxEnqueuedLimit p) (executables p) (index p) (gauge p)
    (priceLimit p) (whitelist p) (sealing p) (pending p) (enqueueReqs p) (promoteReqs p)
    (pruneSignal p) (events p).
Definition set_count (n : Z) (p : Pool) : Pool :=
  mkPool (forks p) (accounts p) n (maxEnqueuedLimit p) (executables p) (index p) (gauge p)
    (priceLimit p) (whitelist p) (sealing p) (pending p) (enqueueReqs p) (promoteReqs p)
    (pruneSignal p) (events p).
Definition set_executables (q : list Transaction) (p : Pool) : Pool :=
  mkPool (forks p) (accounts p) (acc_count p) (maxEnqueuedLimit p) q (index p) (gauge p)
    (priceLimit p) (whitelist p) (sealing p) (pending p) (enqueueReqs p) (promoteReqs p)
    (pruneSignal p) (events p).
Definition set_index (m : gmap Hash Transaction) (p : Pool) : Pool :=
  mkPool (forks p) (accounts p) (acc_count p) (maxEnqueuedLimit p) (executables p) m (gauge p)
    (priceLimit p) (whitelist p) (sealing p) (pending p) (enqueueReqs p) (promoteReqs p)
    (pruneSignal p) (events p).
Definition set_gauge (g : slotGauge) (p : Pool) : Pool :=
  mkPool (forks p) (accounts p) (acc_count p) (maxEnqueuedLimit p) (executables p) (index p) g
    (priceLimit p) (whitelist p) (sealing p) (pending p) (enqueueReqs p) (promoteReqs p)
    (pruneSignal p) (events p).
Definition set_sealing (b : bool) (p : Pool) : Pool :=
  mkPool (forks p) (accounts p) (acc_count p) (maxEnqueuedLimit p) (executables p) (index p)
    (gauge p) (priceLimit p) (whitelist p) b (pending p) (enqueueReqs p) (promoteReqs p)
    (pruneSignal p) (events p).
Definition set_pending (n : Z) (p : Pool) : Pool :=
  mkPool (forks p) (accounts p) (acc_count p) (maxEnqueuedLimit p) (executables p) (index p)
    (gauge p) (priceLimit p) (whitelist p) (sealing p) n (enqueueReqs p) (promoteReqs p)
    (pruneSignal p) (events p).
Definition set_enqueueReqs (l : list Transaction) (p : Pool) : Pool :=
  mkPool (forks p) (accounts p) (acc_count p) (maxEnqueuedLimit p) (executables p) (index p)
    (gauge p) (priceLimit p) (whitelist p) (sealing p) (pending p) l (promoteReqs p)
    (pruneSignal p) (events p).
Definition set_promoteReqs (l : list Address) (p : Pool) : Pool :=
  mkPool (forks p) (accounts p) (acc_count p) (maxEnqueuedLimit p) (executables p) (index p)
    (gauge p) (priceLimit p) (whitelist p) (sealing p) (pending p) (enqueueReqs p) l
    (pruneSignal p) (events p).
Definition set_pruneSignal (b : bool) (p : Pool) : Pool :=
  mkPool (forks p) (accounts p) (acc_count p) (maxEnqueuedLimit p) (executables p) (index p)
    (gauge p) (priceLimit p) (whitelist p) (sealing p) (pending p) (enqueueReqs p)
    (promoteReqs p) b (events p).

(** [eventManager.signalEvent]; an event is pushed per hash, so none for []. *)
Definition signalEvent (e : EventType) (hs : list Hash) (p : Pool) : Pool :=
  mkPool (forks p) (accounts p) (acc_count p) (maxEnqueuedLimit p) (executables p) (index p)
    (gauge p) (priceLimit p) (whitelist p) (sealing p) (pending p) (enqueueReqs p)
    (promoteReqs p) (pruneSignal p) (events p ++ [(e, hs)]).

Definition toHash (txs : list Transaction) : list Hash := TxHash <$> txs.

(** [atomic.AddInt64(&p.pending, i)] *)
Definition updatePending (i : Z) (p : Pool) : Pool := set_pending (i64 (pending p + i)) p.

Definition SetSealing (b : bool) (p : Pool) : Pool := set_sealing b p.

(** Writing through the pointer [accounts.get] returned. *)
Definition put_account (k : Address) (a : account) (p : Pool) : Pool :=
  set_accounts (<[k := a]> (accounts p)) p.

Definition remove_from_index (txs : list Transaction) (p : Pool) : Pool :=
  set_index (index_remove (index p) txs) p.

Section Ops.
Context `{Codec} (Sender : Transaction -> option Address).

(** [slotsRequired(txs...)] *)
Definition tx_slots (tx : Transaction) : Z := (Size tx +u txSlotSize -u 1) / txSlotSize.

Definition slotsRequired (txs : list Transaction) : Z :=
  fold_left (fun slots tx => slots +u tx_slots tx) txs 0.

Definition decrease_gauge (txs : list Transaction) (p : Pool) : Pool :=
  set_gauge (gauge_decrease (gauge p) (slotsRequired txs)) p.

(** [validateTx]; on success the transaction with its sender set. *)
Definition validateTx (st : store) (p : Pool) (tx : Transaction) : result TxErr Transaction :=
  if TxType tx =? StateTx then Err ErrInvalidTxType
  else if txMaxSize <? Z.of_nat (length (tx_MarshalRLP tx)) then Err ErrOversizedData
  else if TxValue tx <? 0 then Err ErrNegativeValue
  else match Sender tx with
  | None => Err ErrExtractSignature
  | Some from =>
      if negb (From tx =? ZeroAddress) && negb (From tx =? from) then Err ErrInvalidSender
      else
        let tx := if From tx =? ZeroAddress then set_From from tx else tx in
        let? _ := (if IsContractCreation tx then
                     if negb (whitelist_allowed (whitelist p) (From tx))
                     then Err ErrSmartContractRestricted
                     else if EIP158 (forks p) &&
                             (TxPoolMaxInitCodeSize <? Z.of_nat (length (Input tx)))
                     then Err ErrMaxCodeSizeExceeded
                     else Ok tt
                   else Ok tt) in
        if IsUnderpriced tx (priceLimit p) then Err ErrUnderpriced
        else
          let stateRoot := hdr_StateRoot st in
          if Nonce tx <? GetNonce st stateRoot (From tx) then Err ErrNonceTooLow
          else match GetBalance st stateRoot (From tx) with
          | None => Err ErrInvalidAccountState
          | Some accountBalance =>
              if accountBalance <? Cost tx then Err ErrInsufficientFunds
              else match TransactionGasCost tx (Homestead (forks p)) (Istanbul (forks p)) with
              | None => Err ErrIntrinsicGasOverflow
              | Some intrinsicGas =>
                  if Gas tx <? intrinsicGas then Err ErrIntrinsicGas
                  else if hdr_GasLimit st <? Gas tx then Err ErrBlockLimitExceeded
                  else Ok tx
              end
          end
  end.

Definition signalPruning (p : Pool) : Pool := set_pruneSignal true p.

(** [accountsMap.initOnce] *)
Definition initOnce (addr : Address) (nonce : Z) (p : Pool) : Pool :=
  match accounts p !! addr with
  | Some _ => p
  | None => set_count (acc_count p +u 1)
              (put_account addr (new_account (maxEnqueuedLimit p) nonce) p)
  end.

Definition createAccountOnce (st : store) (addr : Address) (p : Pool) : Pool :=
  match accounts p !! addr with
  | Some _ => p
  | None => initOnce addr (GetNonce st (hdr_StateRoot st) addr) p
  end.

(** [addTx]: the pool and the error returned, if any. *)
Definition addTx (st : store) (p : Pool) (tx : Transaction) : Pool * option TxErr :=
  match validateTx st p tx with
  | Err e => (p, Some e)
  | Ok tx =>
      let pressure := highPressure (gauge p) in
      let p := if pressure then signalPruning p else p in
      if pressure && match accounts p !! From tx with
                     | Some a => getNonce a <? Nonce tx
                     | None => false
                     end
      then (p, Some ErrRejectFutureTx)
      else if (max (gauge p) -u height (gauge p)) <? slotsRequired [tx]
      then (p, Some ErrTxPoolOverflow)
      else
        let tx := ComputeHash tx in
        match index_add (index p) tx with
        | (false, _) => (p, Some ErrAlreadyKnown)
        | (true, idx) =>
            let p := set_index idx p in
            let p := createAccountOnce st (From tx) p in
            let p := set_enqueueReqs (enqueueReqs p ++ [tx]) p in
            (signalEvent ADDED [TxHash tx] p, None)
        end
  end.

(** [addGossipTx]: [None] is a message that is malformed or does not decode. *)
Definition addGossipTx (st : store) (p : Pool) (obj : option Transaction) : Pool :=
  if negb (sealing p) then p
  else match obj with
       | None => p
       | Some tx => fst (addTx st p tx)
       end.

Definition handleEnqueueRequest (p : Pool) (tx : Transaction) : option Pool :=
  let addr := From tx in
  match accounts p !! addr with
  | None => None
  | Some a =>
      match acc_enqueue a tx with
      | Err _ => Some (remove_from_index [tx] p)
      | Ok a =>
          let p := put_account addr a p in
          let p := set_gauge (gauge_increase (gauge p) (slotsRequired [tx])) p in
          let p := signalEvent ENQUEUED [TxHash tx] p in
          if getNonce a <? Nonce tx then Some p
          else Some (set_promoteReqs (promoteReqs p ++ [addr]) p)
      end
  end.

Definition handlePromoteRequest (p : Pool) (addr : Address) : option Pool :=
  match accounts p !! addr with
  | None => None
  | Some a =>
      let '(a, prom, pruned) := acc_promote a in
      let p := put_account addr a p in
      let p := remove_from_index pruned p in
      let p := decrease_gauge pruned p in
      let p := updatePending (Z.of_nat (length prom)) p in
      Some (signalEvent PROMOTED (toHash prom) p)
  end.

(** [getPrimaries]: the head of each promoted queue, in map order. *)
Definition getPrimaries (m : gmap Address account) : list Transaction :=
  omap (fun ka => q_peek (promoted (snd ka))) (map_to_list m).

Definition Prepare (p : Pool) : Pool :=
  let ex := if pq_length (executables p) =? 0 then executables p else pq_clear (executables p) in
  set_executables (fold_left pq_push (getPrimaries (accounts p)) ex) p.

Definition Peek (p : Pool) : option Transaction * Pool :=
  let '(tx, ex) := pq_pop (executables p) in (tx, set_executables ex p).

Definition Pop (p : Pool) (tx : Transaction) : option Pool :=
  match accounts p !! From tx with
  | None => None
  | Some a =>
      let '(_, prom) := q_pop (promoted a) in
      let a := resetDemotions (set_promoted prom a) in
      let p := put_account (From tx) a p in
      let p := decrease_gauge [tx] p in
      let p := updatePending (-1) p in
      match q_peek prom with
      | Some next => Some (set_executables (pq_push (executables p) next) p)
      | None => Some p
      end
  end.

Definition Drop (p : Pool) (tx : Transaction) : option Pool :=
  match accounts p !! From tx with
  | None => None
  | Some a =>
      let a := setNonce (Nonce tx) a in
      let '(dropped, prom) := q_clear (promoted a) in
      let p := decrease_gauge dropped (remove_from_index dropped p) in
      let p := updatePending (-1 * Z.of_nat (length dropped)) p in
      let '(dropped, enq) := q_clear (enqueued a) in
      let p := decrease_gauge dropped (remove_from_index dropped p) in
      let p := put_account (From tx) (set_enqueued enq (set_promoted prom a)) p in
      Some (signalEvent DROPPED [TxHash tx] p)
  end.

Definition Demote (p : Pool) (tx : Transaction) : option Pool :=
  match accounts p !! From tx with
  | None => None
  | Some a =>
      if maxAccountDemotions <=? Demotions a then
        match Drop p tx with
        | None => None
        | Some p =>
            match accounts p !! From tx with
            | Some a => Some (put_account (From tx) (resetDemotions a) p)
            | None => None
            end
        end
      else
        Some (signalEvent DEMOTED [TxHash tx]
                (put_account (From tx) (incrementDemotions a) p))
  end.

(** The nonces [processEvent] collects from one block. *)
Definition collect_nonces (st : store) (stateNonces : gmap Address Z) (txs : list Transaction)
  : gmap Address Z :=
  fold_left (fun acc tx =>
    match (if From tx =? ZeroAddress then Sender tx else Some (From tx)) with
    | None => acc
    | Some addr =>
        match acc !! addr with
        | Some _ => acc
        | None => <[addr := GetNonce st (hdr_StateRoot st) addr]> acc
        end
    end) txs stateNonces.

Record reset_acc := mkResetAcc {
  ra_pool : Pool; ra_prom : list Transaction; ra_enq : list Transaction }.

(** One iteration of the loop of [resetAccounts]. *)
Definition reset_one (s : reset_acc) (kn : Address * Z) : reset_acc :=
  match accounts (ra_pool s) !! kn.1 with
  | None => s
  | Some a =>
      let r := acc_reset a kn.2 in
      let p := put_account kn.1 (resetDemotions (r_account r)) (ra_pool s) in
      let p := match r_signal r with
               | Some addr => set_promoteReqs (promoteReqs p ++ [addr]) p
               | None => p
               end in
      mkResetAcc p (ra_prom s ++ r_prunedPromoted r) (ra_enq s ++ r_prunedEnqueued r)
  end.

Definition cleanup (stale : list Transaction) (p : Pool) : Pool :=
  decrease_gauge stale (remove_from_index stale p).

Definition resetAccounts (stateNonces : gmap Address Z) (p : Pool) : Pool :=
  if (size stateNonces =? 0)%nat then p
  else
    let s := fold_left reset_one (map_to_list stateNonces) (mkResetAcc p [] []) in
    let p := ra_pool s in
    let p := if (0 <? length (ra_prom s))%nat then
               updatePending (- Z.of_nat (length (ra_prom s)))
                 (signalEvent PRUNED_PROMOTED (toHash (ra_prom s)) (cleanup (ra_prom s) p))
             else p in
    if (0 <? length (ra_enq s))%nat then
      signalEvent PRUNED_ENQUEUED (toHash (ra_enq s)) (cleanup (ra_enq s) p)
    else p.

(** One iteration of the [Range] of [updateAccountSkipsCounts]. *)
Definition skips_one (active : gmap Address Z) (op : option Pool) (k : Address) : option Pool :=
  match op with
  | None => None
  | Some p =>
      match accounts p !! k with
      | None => Some p
      | Some a =>
          match active !! k with
          | Some _ => Some (put_account k (resetSkips a) p)
          | None =>
              match getLowestTx a with
              | None => Some p
              | Some firstTx =>
                  let a := incrementSkips a in
                  let p := put_account k a p in
                  if skips a <? maxAccountSkips then Some p
                  else match Drop p firstTx with
                       | None => None
                       | Some p =>
                           match accounts p !! k with
                           | Some a => Some (put_account k (resetSkips a) p)
                           | None => None
                           end
                       end
              end
          end
      end
  end.

Definition updateAccountSkipsCounts (active : gmap Address Z) (p : Pool) : option Pool :=
  fold_left (skips_one active) (fst <$> map_to_list (accounts p)) (Some p).

(** One header of [processEvent]'s first loop. *)
Definition process_header (st : store) (s : Pool * gmap Address Z) (hash : Hash)
  : Pool * gmap Address Z :=
  match GetBlockByHash st hash with
  | None => s
  | Some txs => (remove_from_index txs s.1, collect_nonces st s.2 txs)
  end.

(** [processEvent], given the hashes of the headers of the new chain. *)
Definition processEvent (st : store) (newChain : list Hash) (p : Pool) : option Pool :=
  let '(p, stateNonces) := fold_left (process_header st) newChain (p, ∅) in
  let p := resetAccounts stateNonces p in
  if negb (sealing p) then updateAccountSkipsCounts stateNonces p else Some p.

Definition ResetWithHeaders (st : store) (headers : list Hash) (p : Pool) : option Pool :=
  processEvent st headers p.

(** One account of [pruneAccountsWithNonceHoles]. *)
Definition prune_one (p : Pool) (k : Address) : Pool :=
  match accounts p !! k with
  | None => p
  | Some a =>
      match q_peek (enqueued a) with
      | None => p
      | Some firstTx =>
          if Nonce firstTx =? getNonce a then p
          else
            let '(removed, enq) := q_clear (enqueued a) in
            let p := put_account k (set_enqueued enq a) p in
            decrease_gauge removed (remove_from_index removed p)
      end
  end.

Definition pruneAccountsWithNonceHoles (p : Pool) : Pool :=
  fold_left prune_one (fst <$> map_to_list (accounts p)) p.

(** ** Queries *)

Definition pool_GetNonce (st : store) (p : Pool) (addr : Address) : Z :=
  match accounts p !! addr with
  | None => GetNonce st (hdr_StateRoot st) addr
  | Some a => getNonce a
  end.

Definition GetCapacity (p : Pool) : Z * Z := (height (gauge p), max (gauge p)).

Definition GetPendingTx (p : Pool) (h : Hash) : option Transaction := index_get (index p) h.

(** [accountsMap.promoted], also [TxPool.Length]. *)
Definition Length (p : Pool) : Z :=
  fold_left (fun total ka => total +u q_length (promoted (snd ka))) (map_to_list (accounts p)) 0.

End Ops.
