(* ===== verification/TxPoolInv.v ===== *)
(** * The pool as a state machine, and its invariant

    The methods and the request handlers of [TxPool] interleave freely; [step]
    is one of them running to completion. [pool_ok] is the invariant of the
    reachable states: every account is well formed and holds transactions of
    its own address, the slot gauge counts exactly the slots of the queued
    transactions, the [pending] counter the promoted ones, and every request in
    flight refers to an existing account. *)

From S2P Require Import Prelude GoHeap ChainTypes TxAccount TxPool.
Local Open Scope go_scope.
Set Default Proof Using "Type".

(** ** Sums over a map *)

Definition msum (f : account -> Z) (m : gmap Address account) : Z :=
  zsum ((fun ka => f (snd ka)) <$> map_to_list m).

Lemma msum_empty f : msum f ∅ = 0.
Proof. unfold msum. by rewrite map_to_list_empty. Qed.

Lemma msum_insert_None f m k a :
  m !! k = None -> msum f (<[k := a]> m) = f a + msum f m.
Proof. intros Hk. unfold msum. by rewrite map_to_list_insert. Qed.

Lemma msum_insert_Some f m k a b :
  m !! k = Some a -> msum f (<[k := b]> m) = msum f m - f a + f b.
Proof.
  intros Hk. rewrite <- insert_delete_eq, msum_insert_None by apply lookup_delete_eq.
  rewrite <- (insert_id m k a) at 2 by done.
  rewrite <- (insert_delete_eq m k a), msum_insert_None by apply lookup_delete_eq. lia.
Qed.

Section Inv.
Context `{Codec} (Sender : Transaction -> option Address).

(** The slots of a list of transactions, without wrap-around. *)
Definition slots_of (txs : list Transaction) : Z := zsum (tx_slots <$> txs).

Definition acc_slots (a : account) : Z := slots_of (acc_txs a).
Definition acc_pending (a : account) : Z := Z.of_nat (length (promoted a)).

Definition acct_ok (k : Address) (a : account) : Prop :=
  acc_ok a /\ Forall (fun t => From t = k) (acc_txs a).

(** The invariant up to what a method in progress still has to book: the gauge
    counts [ds] slots and [pending] counts [dp] transactions too many. *)
Record pool_inv (ds dp : Z) (p : Pool) : Prop := {
  po_accounts : map_Forall acct_ok (accounts p);
  po_gauge : height (gauge p) = u64 (msum acc_slots (accounts p) + ds);
  po_pending : pending p = i64 (msum acc_pending (accounts p) + dp);
  po_count : acc_count p = u64 (Z.of_nat (size (accounts p)));
  po_limit : 0 <= maxEnqueuedLimit p;
  po_enqueue : Forall (fun t => tx_ok t /\ is_Some (accounts p !! From t)) (enqueueReqs p);
  po_promote : Forall (fun k => is_Some (accounts p !! k)) (promoteReqs p) }.

Definition pool_ok : Pool -> Prop := pool_inv 0 0.

(** The store answers with [uint64] nonces. *)
Definition store_ok (st : store) : Prop := forall root addr, is_u64 (GetNonce st root addr).

Definition nonces_ok (m : gmap Address Z) : Prop := map_Forall (fun _ n => is_u64 n) m.

(** ** Slots *)

Lemma slotsRequired_spec txs : slotsRequired txs = u64 (slots_of txs).
Proof.
  unfold slotsRequired, slots_of.
  enough (Hg : forall acc, fold_left (fun s tx => s +u tx_slots tx) txs (u64 acc)
                 = u64 (acc + zsum (tx_slots <$> txs))).
  { specialize (Hg 0). change (u64 0) with 0 in Hg. by rewrite Hg. }
  induction txs as [|t l IH]; intros acc; cbn [fold_left].
  - by rewrite Z.add_0_r.
  - rewrite u64_add_l, IH, fmap_cons, zsum_cons. f_equal. lia.
Qed.

Lemma slots_of_app l k : slots_of (l ++ k) = slots_of l + slots_of k.
Proof. unfold slots_of. by rewrite fmap_app, zsum_app. Qed.

Lemma slots_of_perm l k : l ≡ₚ k -> slots_of l = slots_of k.
Proof. intros Hp. unfold slots_of. by rewrite Hp. Qed.

(** Subtraction written as [^(slots - 1)] is subtraction modulo 2^64. *)
Lemma gauge_decrease_spec g s :
  is_u64 s -> height (gauge_decrease g s) = u64 (height g - s).
Proof.
  intros Hs. unfold gauge_decrease, is_u64, MaxUint64, two64 in *. simpl.
  destruct (decide (s = 0)) as [->|Hs0].
  - change (u64 (0 - 1)) with 18446744073709551615.
    rewrite Z.sub_0_r. f_equal. lia.
  - rewrite (u64_small (s - 1)) by (unfold two64; lia). unfold u64, two64.
    rewrite <- (Z_mod_plus_full (height g - s) 1). f_equal. lia.
Qed.

Lemma decrease_gauge_height txs p :
  height (gauge (decrease_gauge txs p)) = u64 (height (gauge p) - slots_of txs).
Proof.
  transitivity (height (gauge_decrease (gauge p) (slotsRequired txs))); [done|].
  rewrite gauge_decrease_spec.
  - by rewrite slotsRequired_spec, u64_sub_r.
  - rewrite slotsRequired_spec. apply u64_range.
Qed.

Lemma i64_add_l a b : i64 (i64 a + b) = i64 (a + b).
Proof.
  unfold i64. f_equal.
  replace ((a + 9223372036854775808) mod two64 - 9223372036854775808 + b + 9223372036854775808)
    with ((a + 9223372036854775808) mod two64 + b) by lia.
  rewrite Zplus_mod_idemp_l. f_equal. lia.
Qed.

(** ** The primitive updates *)

Lemma pool_inv_conv ds dp ds' dp' p :
  pool_inv ds dp p -> ds = ds' -> dp = dp' -> pool_inv ds' dp' p.
Proof. by intros ? -> ->. Qed.

Lemma inv_put_account ds dp p k a b :
  pool_inv ds dp p -> accounts p !! k = Some a -> acct_ok k b ->
  pool_inv (ds + acc_slots a - acc_slots b) (dp + acc_pending a - acc_pending b)
    (put_account k b p).
Proof.
  intros [] Hk Hb.
  assert (Hdom : forall k', is_Some (accounts p !! k') -> is_Some (<[k:=b]> (accounts p) !! k')).
  { intros k' Hs. by apply lookup_insert_is_Some'; right. }
  split; simpl; try done.
  - by apply map_Forall_insert_2.
  - rewrite po_gauge0, (msum_insert_Some _ _ _ a) by done. f_equal. lia.
  - rewrite po_pending0, (msum_insert_Some _ _ _ a) by done. f_equal. lia.
  - by rewrite map_size_insert_Some.
  - eapply Forall_impl; [done|]. intros t [? ?]. eauto.
  - eapply Forall_impl; [done|]. eauto.
Qed.

Lemma inv_decrease_gauge ds dp p txs :
  pool_inv ds dp p -> pool_inv (ds - slots_of txs) dp (decrease_gauge txs p).
Proof.
  intros []. split; try done. rewrite decrease_gauge_height, po_gauge0, u64_sub_l.
  f_equal. simpl. lia.
Qed.

Lemma inv_increase_gauge ds dp p txs :
  pool_inv ds dp p ->
  pool_inv (ds + slots_of txs) dp
    (set_gauge (gauge_increase (gauge p) (slotsRequired txs)) p).
Proof.
  intros []. split; try done. simpl. rewrite slotsRequired_spec, po_gauge0, u64_add_r, u64_add_l.
  f_equal. lia.
Qed.

Lemma inv_updatePending ds dp p i :
  pool_inv ds dp p -> pool_inv ds (dp + i) (updatePending i p).
Proof. intros []. split; try done. simpl. rewrite po_pending0, i64_add_l. f_equal. lia. Qed.

Lemma inv_remove_from_index ds dp p txs :
  pool_inv ds dp p -> pool_inv ds dp (remove_from_index txs p).
Proof. by intros []. Qed.

Lemma inv_set_index ds dp p m : pool_inv ds dp p -> pool_inv ds dp (set_index m p).
Proof. by intros []. Qed.

Lemma inv_set_executables ds dp p q : pool_inv ds dp p -> pool_inv ds dp (set_executables q p).
Proof. by intros []. Qed.

Lemma inv_signalEvent ds dp p e hs : pool_inv ds dp p -> pool_inv ds dp (signalEvent e hs p).
Proof. by intros []. Qed.

Lemma inv_signalPruning ds dp p : pool_inv ds dp p -> pool_inv ds dp (signalPruning p).
Proof. by intros []. Qed.

Lemma inv_set_pruneSignal ds dp p b : pool_inv ds dp p -> pool_inv ds dp (set_pruneSignal b p).
Proof. by intros []. Qed.

Lemma inv_set_sealing ds dp p b : pool_inv ds dp p -> pool_inv ds dp (set_sealing b p).
Proof. by intros []. Qed.

Lemma inv_push_promote ds dp p k :
  pool_inv ds dp p -> is_Some (accounts p !! k) ->
  pool_inv ds dp (set_promoteReqs (promoteReqs p ++ [k]) p).
Proof. intros [] Hk. split; try done. simpl. by rewrite Forall_app, Forall_singleton. Qed.

Lemma inv_push_enqueue ds dp p t :
  pool_inv ds dp p -> tx_ok t -> is_Some (accounts p !! From t) ->
  pool_inv ds dp (set_enqueueReqs (enqueueReqs p ++ [t]) p).
Proof. intros [] Ht Hk. split; try done. simpl. by rewrite Forall_app, Forall_singleton. Qed.

Lemma inv_createAccountOnce ds dp p st k :
  store_ok st -> pool_inv ds dp p -> pool_inv ds dp (createAccountOnce st k p).
Proof.
  intros Hst Hp. unfold createAccountOnce, initOnce.
  destruct (accounts p !! k) as [a|] eqn:Hk; [done|]. destruct Hp.
  assert (Hdom : forall k' (b : account), is_Some (accounts p !! k') ->
    is_Some (<[k:=b]> (accounts p) !! k')).
  { intros k' b Hs. by apply lookup_insert_is_Some'; right. }
  split; simpl; try done.
  - apply map_Forall_insert_2; [|done]. split; [by apply new_account_ok|]. constructor.
  - rewrite msum_insert_None by done. by rewrite po_gauge0.
  - rewrite msum_insert_None by done. by rewrite po_pending0.
  - rewrite map_size_insert_None by done. rewrite po_count0, u64_add_l. f_equal. lia.
  - eapply Forall_impl; [done|]. intros t [? ?]. eauto.
  - eapply Forall_impl; [done|]. eauto.
Qed.

Lemma createAccountOnce_Some st k p : is_Some (accounts (createAccountOnce st k p) !! k).
Proof.
  unfold createAccountOnce, initOnce. destruct (accounts p !! k) as [a|] eqn:Hk.
  - by rewrite Hk.
  - simpl. by rewrite lookup_insert_eq.
Qed.

End Inv.

#[export] Hint Resolve inv_decrease_gauge inv_increase_gauge inv_updatePending
  inv_remove_from_index inv_set_index inv_set_executables inv_signalEvent
  inv_signalPruning inv_set_pruneSignal inv_set_sealing : plg.

Section Preserve.
Context `{Codec} (Sender : Transaction -> option Address).

Lemma acc_slots_perm a a' l :
  acc_txs a ≡ₚ l ++ acc_txs a' -> acc_slots a = slots_of l + acc_slots a'.
Proof. intros Hp. unfold acc_slots. by rewrite (slots_of_perm _ _ Hp), slots_of_app. Qed.

Lemma acct_ok_sub k a b l :
  acct_ok k a -> acc_ok b -> acc_txs a ≡ₚ l ++ acc_txs b -> acct_ok k b.
Proof.
  intros [_ Hf] Hb Hp. split; [done|]. rewrite Hp in Hf. by apply Forall_app in Hf as [_ ?].
Qed.

Lemma pool_acct ds dp p k a : pool_inv ds dp p -> accounts p !! k = Some a -> acct_ok k a.
Proof. intros [] Hk. by apply (po_accounts0 k a). Qed.

Lemma handleEnqueueRequest_inv p tx p' :
  pool_ok p -> tx_ok tx -> handleEnqueueRequest p tx = Some p' -> pool_ok p'.
Proof.
  intros Hp Ht. unfold handleEnqueueRequest.
  destruct (accounts p !! From tx) as [a|] eqn:Hk; [|done].
  pose proof (pool_acct _ _ _ _ _ Hp Hk) as [Ha Hf].
  destruct (acc_enqueue a tx) as [b|] eqn:Hb; [|intros [= <-]; by apply inv_remove_from_index].
  destruct (acc_enqueue_ok _ _ _ Ha Ht Hb) as (Hok & Hperm & _).
  assert (Hp' : pool_ok (signalEvent ENQUEUED [TxHash tx]
    (set_gauge (gauge_increase (gauge (put_account (From tx) b p)) (slotsRequired [tx]))
       (put_account (From tx) b p)))).
  { eapply pool_inv_conv.
    - apply inv_signalEvent, inv_increase_gauge. apply (inv_put_account 0 0 p _ a); [done..|].
      split; [done|]. rewrite Hperm. by constructor.
    - rewrite (acc_slots_perm b a [tx]) by done. lia.
    - unfold acc_pending. unfold acc_enqueue in Hb. repeat case_match; simplify_eq. simpl. lia. }
  destruct (getNonce b <? Nonce tx); intros [= <-]; [done|].
  apply (inv_push_promote _ _ _ (From tx) Hp'). simpl. by rewrite lookup_insert_eq.
Qed.

Lemma handlePromoteRequest_inv p k p' :
  pool_ok p -> handlePromoteRequest p k = Some p' -> pool_ok p'.
Proof.
  intros Hp. unfold handlePromoteRequest.
  destruct (accounts p !! k) as [a|] eqn:Hk; [|done].
  pose proof (pool_acct _ _ _ _ _ Hp Hk) as Hak. destruct (acc_promote a) as [[b prom] pruned] eqn:Hb.
  pose proof (acc_promote_spec _ _ _ _ (proj1 Hak) Hb) as Hs. intros [= <-].
  eapply pool_inv_conv.
  - apply inv_signalEvent, inv_updatePending, inv_decrease_gauge, inv_remove_from_index.
    apply (inv_put_account 0 0 p _ a); [done..|].
    apply (acct_ok_sub _ a _ pruned); [done|apply Hs|apply Hs].
  - rewrite (acc_slots_perm a b pruned) by apply Hs. lia.
  - unfold acc_pending. rewrite (ps_prom _ _ _ _ Hs), length_app. lia.
Qed.

(** [Pop] is called with the transaction [Peek] took from the executables,
    the head of its account's promoted queue. *)
Definition is_head (p : Pool) (tx : Transaction) : Prop :=
  exists a, accounts p !! From tx = Some a /\ q_peek (promoted a) = Some tx.

Lemma Pop_inv p tx p' : pool_ok p -> is_head p tx -> Pop p tx = Some p' -> pool_ok p'.
Proof.
  intros Hp (a & Hk & Hhead). unfold Pop. rewrite Hk.
  pose proof (pool_acct _ _ _ _ _ Hp Hk) as Hak.
  destruct (q_pop_total (promoted a)) as (x & q & Hpop); [by intros E; rewrite E in Hhead|].
  rewrite Hpop.
  destruct (q_pop_spec _ _ _ (ok_prom_heap _ (proj1 Hak)) Hpop) as (Hx & Hperm & _).
  rewrite Hhead in Hx. injection Hx as <-.
  destruct (acc_pop_ok _ _ _ (proj1 Hak) Hpop) as [Hok Htxs].
  set (b := resetDemotions (set_promoted q a)).
  assert (Hp' : pool_ok (updatePending (-1) (decrease_gauge [tx] (put_account (From tx) b p)))).
  { eapply pool_inv_conv.
    - apply inv_updatePending, inv_decrease_gauge, (inv_put_account 0 0 p _ a); [done..|].
      apply (acct_ok_sub _ a _ [tx]); [done| |done]. by apply acc_ok_demotions.
    - rewrite (acc_slots_perm a b [tx]) by done. lia.
    - unfold acc_pending. rewrite Hperm. simpl. lia. }
  destruct (q_peek q); intros [= <-]; auto with plg. by apply inv_set_executables.
Qed.

Lemma Drop_spec p tx p' :
  Drop p tx = Some p' ->
  exists a, accounts p !! From tx = Some a /\
    accounts p' = <[From tx := set_enqueued [] (set_promoted [] (setNonce (Nonce tx) a))]> (accounts p).
Proof. unfold Drop. case_match; [|done]. intros [= <-]. by eexists. Qed.

Lemma Drop_inv ds dp p tx p' :
  pool_inv ds dp p -> is_u64 (Nonce tx) -> Drop p tx = Some p' -> pool_inv ds dp p'.
Proof.
  intros Hp Hn. unfold Drop. destruct (accounts p !! From tx) as [a|] eqn:Hk; [|done].
  pose proof (pool_acct _ _ _ _ _ Hp Hk) as Hak. intros [= <-]. simpl.
  set (b := set_enqueued [] (set_promoted [] (setNonce (Nonce tx) a))).
  assert (Hb : acct_ok (From tx) b).
  { split; [by apply acc_clear_ok, Hn; apply Hak|]. constructor. }
  eapply pool_inv_conv.
  - apply inv_signalEvent. eapply (inv_put_account _ _ _ _ a); [|done|done].
    apply inv_decrease_gauge, inv_remove_from_index, inv_updatePending,
      inv_decrease_gauge, inv_remove_from_index. done.
  - unfold acc_slots, acc_txs. simpl. rewrite slots_of_app. unfold slots_of at 5. simpl. lia.
  - unfold acc_pending. simpl. lia.
Qed.

Lemma inv_counters ds dp p k a b :
  pool_inv ds dp p -> accounts p !! k = Some a ->
  enqueued b = enqueued a -> promoted b = promoted a -> nextNonce b = nextNonce a ->
  maxEnqueued b = maxEnqueued a -> pool_inv ds dp (put_account k b p).
Proof.
  intros Hp Hk He Hpr Hn Hm. pose proof (pool_acct _ _ _ _ _ Hp Hk) as [[] Hf].
  eapply pool_inv_conv; [apply (inv_put_account ds dp p k a b Hp Hk)| |].
  - split; [split|]; unfold acc_txs in *; rewrite ?He, ?Hpr, ?Hn, ?Hm; done.
  - unfold acc_slots, acc_txs. rewrite He, Hpr. lia.
  - unfold acc_pending. rewrite Hpr. lia.
Qed.

Lemma Demote_inv p tx p' :
  pool_ok p -> is_u64 (Nonce tx) -> Demote p tx = Some p' -> pool_ok p'.
Proof.
  intros Hp Hn. unfold Demote. destruct (accounts p !! From tx) as [a|] eqn:Hk; [|done].
  destruct (_ <=? _).
  - destruct (Drop p tx) as [p1|] eqn:Hd; [|done].
    pose proof (Drop_inv _ _ _ _ _ Hp Hn Hd) as Hp1.
    destruct (accounts p1 !! From tx) as [b|] eqn:Hb; [|done]. intros [= <-].
    by apply (inv_counters _ _ _ _ b).
  - intros [= <-]. by apply inv_signalEvent, (inv_counters _ _ _ _ a).
Qed.

(** ** [resetAccounts] *)

Definition reset_inv (s : reset_acc) : Prop :=
  pool_inv (slots_of (ra_prom s ++ ra_enq s)) (Z.of_nat (length (ra_prom s))) (ra_pool s).

Lemma acc_reset_signal a nonce k :
  acct_ok k a -> is_u64 nonce -> r_signal (acc_reset a nonce) = Some k \/
  r_signal (acc_reset a nonce) = None.
Proof.
  intros Ha Hn. pose proof (acc_reset_spec _ _ (proj1 Ha) Hn) as [_ Ht _ _ _ _].
  destruct Ha as [_ Hf]. revert Ht. unfold acc_reset.
  destruct (q_prune nonce (promoted a)) as [pp prom].
  destruct (nonce <=? _); [by right|].
  change (enqueued (set_promoted prom a)) with (enqueued a).
  destruct (q_prune nonce (enqueued a)) as [pe enq].
  cbn [r_signal r_prunedPromoted r_prunedEnqueued r_account]. intros Ht.
  destruct (q_peek enq) as [first|] eqn:E; [|by right].
  destruct (_ =? _); [left|by right]. f_equal.
  rewrite Forall_forall in Hf. apply Hf. rewrite Ht. apply q_peek_elem in E.
  unfold acc_txs. simpl. in_list.
Qed.

Lemma reset_one_inv s kn : reset_inv s -> is_u64 kn.2 -> reset_inv (reset_one s kn).
Proof.
  intros Hs Hn. unfold reset_one. destruct (accounts (ra_pool s) !! kn.1) as [a|] eqn:Hk; [|done].
  pose proof (pool_acct _ _ _ _ _ Hs Hk) as Ha.
  pose proof (acc_reset_spec _ _ (proj1 Ha) Hn) as Hr.
  pose proof (acc_reset_signal _ _ _ Ha Hn) as Hsig.
  set (r := acc_reset a kn.2) in *. set (b := resetDemotions (r_account r)).
  assert (Htx : acc_txs a ≡ₚ (r_prunedPromoted r ++ r_prunedEnqueued r) ++ acc_txs b).
  { rewrite <- app_assoc. apply Hr. }
  assert (Hb : acct_ok kn.1 b).
  { eapply acct_ok_sub; [exact Ha| |exact Htx]. apply acc_ok_demotions, Hr. }
  assert (Hlen : acc_pending a = Z.of_nat (length (r_prunedPromoted r)) + acc_pending b).
  { unfold acc_pending. rewrite (rs_prom _ _ _ Hr), length_app. simpl. lia. }
  assert (Hput : pool_inv
    (slots_of ((ra_prom s ++ r_prunedPromoted r) ++ (ra_enq s ++ r_prunedEnqueued r)))
    (Z.of_nat (length (ra_prom s ++ r_prunedPromoted r))) (put_account kn.1 b (ra_pool s))).
  { eapply pool_inv_conv; [apply (inv_put_account _ _ _ _ _ _ Hs Hk Hb)| |].
    - rewrite (acc_slots_perm _ _ _ Htx), !slots_of_app. lia.
    - rewrite length_app. lia. }
  unfold reset_inv. simpl.
  destruct Hsig as [-> | ->]; simpl; [|done].
  apply (inv_push_promote _ _ _ kn.1 Hput). simpl. by rewrite lookup_insert_eq.
Qed.

Lemma reset_fold_inv l s :
  reset_inv s -> Forall (fun kn : Address * Z => is_u64 kn.2) l ->
  reset_inv (fold_left reset_one l s).
Proof.
  revert s. induction l as [|kn l IH]; intros s Hs Hl; simpl; [done|].
  apply Forall_cons in Hl as [? ?]. apply IH; [by apply reset_one_inv|done].
Qed.

Lemma inv_cleanup ds dp p txs :
  pool_inv ds dp p -> pool_inv (ds - slots_of txs) dp (cleanup txs p).
Proof. intros. by apply inv_decrease_gauge, inv_remove_from_index. Qed.

Lemma slots_of_nil : slots_of [] = 0.
Proof. done. Qed.

Lemma resetAccounts_inv nonces p :
  pool_ok p -> nonces_ok nonces -> pool_ok (resetAccounts nonces p).
Proof.
  intros Hp Hn. unfold resetAccounts. destruct (size nonces =? 0)%nat; [done|].
  assert (Hs : reset_inv (fold_left reset_one (map_to_list nonces) (mkResetAcc p [] []))).
  { apply reset_fold_inv; [done|]. apply Forall_forall. intros [k n] Hin.
    apply elem_of_map_to_list in Hin. by apply (Hn k n). }
  set (s := fold_left _ _ _) in *. clearbody s. unfold reset_inv in Hs. rewrite slots_of_app in Hs.
  assert (H1 : pool_inv (slots_of (ra_enq s)) 0
    (if (0 <? length (ra_prom s))%nat then
       updatePending (- Z.of_nat (length (ra_prom s)))
         (signalEvent PRUNED_PROMOTED (toHash (ra_prom s)) (cleanup (ra_prom s) (ra_pool s)))
     else ra_pool s)).
  { destruct (0 <? length (ra_prom s))%nat eqn:E.
    - eapply pool_inv_conv; [by apply inv_updatePending, inv_signalEvent, inv_cleanup|lia|lia].
    - apply Nat.ltb_ge in E. destruct (ra_prom s); [|simpl in E; lia].
      by eapply pool_inv_conv; [apply Hs|..]. }
  destruct (0 <? length (ra_enq s))%nat eqn:E.
  - eapply pool_inv_conv; [by apply inv_signalEvent, inv_cleanup|lia|done].
  - apply Nat.ltb_ge in E. destruct (ra_enq s); [done|simpl in E; lia].
Qed.

(** ** [updateAccountSkipsCounts] and [pruneAccountsWithNonceHoles] *)

Lemma getLowestTx_elem a tx : getLowestTx a = Some tx -> tx ∈ acc_txs a.
Proof.
  unfold getLowestTx, acc_txs. destruct (q_peek (promoted a)) as [t|] eqn:E.
  - intros [= <-]. apply q_peek_elem in E. in_list.
  - intros E2. apply q_peek_elem in E2. in_list.
Qed.

(** It never dereferences a missing account. *)
Lemma skips_one_inv active p k :
  pool_ok p -> exists p', skips_one active (Some p) k = Some p' /\ pool_ok p'.
Proof.
  intros Hp. cbn [skips_one]. destruct (accounts p !! k) as [a|] eqn:Hk; [|eauto].
  destruct (active !! k). { eexists. split; [done|]. by apply (inv_counters _ _ _ _ a). }
  destruct (getLowestTx a) as [tx|] eqn:Hlow; [|eauto].
  pose proof (pool_acct _ _ _ _ _ Hp Hk) as [Ha Hf].
  apply getLowestTx_elem in Hlow.
  pose proof (proj1 (Forall_forall _ _) Hf _ Hlow) as Hfrom.
  pose proof (proj1 (Forall_forall _ _) (ok_txs _ Ha) _ Hlow) as Hok.
  set (b := incrementSkips a). assert (Hp1 : pool_ok (put_account k b p))
    by (by apply (inv_counters _ _ _ _ a)).
  destruct (skips b <? maxAccountSkips); [eauto|].
  assert (Hk1 : accounts (put_account k b p) !! From tx = Some b)
    by (simpl; by rewrite Hfrom, lookup_insert_eq).
  destruct (Drop (put_account k b p) tx) as [p2|] eqn:Hd.
  2: { unfold Drop in Hd. by rewrite Hk1 in Hd. }
  assert (Hp2 : pool_ok p2).
  { eapply Drop_inv; [done| |done]. unfold tx_ok, is_u64, MaxUint64 in *. lia. }
  destruct (Drop_spec _ _ _ Hd) as (c & _ & Hacc). cbn beta in Hfrom.
  destruct (accounts p2 !! k) as [d|] eqn:Hk2.
  - eexists. split; [done|]. by apply (inv_counters _ _ _ _ d).
  - rewrite Hacc, Hfrom, lookup_insert_eq in Hk2. done.
Qed.

Lemma skips_fold_inv active ks p :
  pool_ok p -> exists p', fold_left (skips_one active) ks (Some p) = Some p' /\ pool_ok p'.
Proof.
  revert p. induction ks as [|k ks IH]; intros p Hp; [by exists p|].
  cbn [fold_left]. destruct (skips_one_inv active p k Hp) as (p1 & -> & Hp1). by apply IH.
Qed.

Lemma prune_one_inv p k : pool_ok p -> pool_ok (prune_one p k).
Proof.
  intros Hp. unfold prune_one. destruct (accounts p !! k) as [a|] eqn:Hk; [|done].
  destruct (q_peek (enqueued a)) as [first|]; [|done]. destruct (_ =? _); [done|].
  pose proof (pool_acct _ _ _ _ _ Hp Hk) as Ha. simpl.
  assert (Htx : acc_txs a ≡ₚ enqueued a ++ acc_txs (set_enqueued [] a)).
  { unfold acc_txs. simpl. rewrite app_nil_r. apply Permutation_app_comm. }
  eapply pool_inv_conv; [apply inv_decrease_gauge, inv_remove_from_index,
    (inv_put_account 0 0 p k a); [done..|]| |].
  - eapply acct_ok_sub; [exact Ha| |exact Htx]. destruct Ha as [[] _].
    split; simpl; auto using is_heap_nil, minNonce_StrictWeak.
    + unfold acc_txs in *. simpl. rewrite app_nil_r. by apply Forall_app in ok_txs as [? _].
    + unfold q_length in *. simpl. lia.
  - rewrite (acc_slots_perm _ _ _ Htx). lia.
  - unfold acc_pending. simpl. lia.
Qed.

Lemma pruneAccountsWithNonceHoles_inv p :
  pool_ok p -> pool_ok (pruneAccountsWithNonceHoles p).
Proof.
  intros Hp. unfold pruneAccountsWithNonceHoles. revert p Hp.
  enough (Hg : forall ks p, pool_ok p -> pool_ok (fold_left prune_one ks p)) by eauto.
  induction ks as [|k ks IH]; intros p Hp; simpl; [done|]. apply IH. by apply prune_one_inv.
Qed.

(** ** [addTx] *)

Lemma validateTx_Nonce st p tx tx' :
  validateTx Sender st p tx = Ok tx' -> Nonce tx' = Nonce tx.
Proof.
  unfold validateTx.
  repeat (case_match; try done); intros [= <-]; by repeat case_match.
Qed.

Lemma addTx_inv st p tx :
  store_ok st -> pool_ok p -> tx_ok tx -> pool_ok (fst (addTx Sender st p tx)).
Proof.
  intros Hst Hp Ht. unfold addTx.
  destruct (validateTx Sender st p tx) as [tx'|] eqn:Hv; [|done].
  assert (Ht' : tx_ok tx') by (unfold tx_ok; by rewrite (validateTx_Nonce _ _ _ _ Hv)).
  set (p1 := if highPressure (gauge p) then signalPruning p else p).
  assert (Hp1 : pool_ok p1) by (unfold p1; case_match; [by apply inv_signalPruning|done]).
  clearbody p1. destruct (_ && _); [done|]. destruct (_ <? _); [done|].
  destruct (index_add (index p1) (ComputeHash tx')) as [[] idx]; [|done].
  set (p2 := createAccountOnce st (From (ComputeHash tx')) (set_index idx p1)).
  assert (Hp2 : pool_ok p2) by (by apply inv_createAccountOnce, inv_set_index).
  apply inv_signalEvent. apply (inv_push_enqueue _ _ p2 (ComputeHash tx') Hp2); [done|].
  apply createAccountOnce_Some.
Qed.

Lemma addGossipTx_inv st p obj :
  store_ok st -> pool_ok p -> (forall tx, obj = Some tx -> tx_ok tx) ->
  pool_ok (addGossipTx Sender st p obj).
Proof.
  intros ? ? Hobj. unfold addGossipTx. case_match; [done|].
  destruct obj as [tx|]; [|done]. apply addTx_inv; auto.
Qed.

(** ** [processEvent] *)

Lemma collect_nonces_u64 st m txs :
  store_ok st -> nonces_ok m ->
  nonces_ok (collect_nonces Sender st m txs).
Proof.
  intros Hst. unfold collect_nonces. revert m.
  induction txs as [|t l IH]; intros m Hm; simpl; [done|]. apply IH.
  destruct (if From t =? ZeroAddress then Sender t else Some (From t)) as [addr|]; [|done].
  case_match; [done|]. by apply map_Forall_insert_2.
Qed.

Lemma process_headers_inv st hs p m p' m' :
  store_ok st -> pool_ok p -> nonces_ok m ->
  fold_left (process_header Sender st) hs (p, m) = (p', m') ->
  pool_ok p' /\ nonces_ok m'.
Proof.
  intros Hst. revert p m. induction hs as [|h hs IH]; intros p m Hp Hm; simpl.
  - by intros [= <- <-].
  - unfold process_header at 2. destruct (GetBlockByHash st h); [|by apply IH]. simpl.
    apply IH; [by apply inv_remove_from_index|by apply collect_nonces_u64].
Qed.

Lemma processEvent_inv st hs p :
  store_ok st -> pool_ok p ->
  exists p', processEvent Sender st hs p = Some p' /\ pool_ok p'.
Proof.
  intros Hst Hp. unfold processEvent.
  destruct (fold_left _ hs (p, ∅)) as [p1 nonces] eqn:E.
  destruct (process_headers_inv _ _ _ _ _ _ Hst Hp (map_Forall_empty _) E) as [Hp1 Hn].
  pose proof (resetAccounts_inv _ _ Hp1 Hn) as Hp2.
  destruct (negb _); [|by eexists]. by apply skips_fold_inv.
Qed.
End Preserve.

(** ** The state machine *)

Section Machine.
Context `{Codec} (Sender : Transaction -> option Address).

(** A request is removed from the requests in flight when its handler runs. Two uses of
    the pool are left out: transactions of the nonce 2^64-1 ([tx_ok]), and a [Pop] of a
    transaction that is no longer the head of its queue. *)
Inductive step (p : Pool) : Pool -> Prop :=
| step_addTx st tx : store_ok st -> tx_ok tx -> step p (fst (addTx Sender st p tx))
| step_addGossipTx st obj :
    store_ok st -> (forall tx, obj = Some tx -> tx_ok tx) -> step p (addGossipTx Sender st p obj)
| step_enqueue l1 tx l2 p' :
    enqueueReqs p = l1 ++ tx :: l2 ->
    handleEnqueueRequest (set_enqueueReqs (l1 ++ l2) p) tx = Some p' -> step p p'
| step_promote l1 k l2 p' :
    promoteReqs p = l1 ++ k :: l2 ->
    handlePromoteRequest (set_promoteReqs (l1 ++ l2) p) k = Some p' -> step p p'
| step_prune :
    pruneSignal p = true -> step p (pruneAccountsWithNonceHoles (set_pruneSignal false p))
| step_Prepare : step p (Prepare p)
| step_Peek : step p (snd (Peek p))
| step_Pop tx p' : is_head p tx -> Pop p tx = Some p' -> step p p'
| step_Drop tx p' : is_u64 (Nonce tx) -> Drop p tx = Some p' -> step p p'
| step_Demote tx p' : is_u64 (Nonce tx) -> Demote p tx = Some p' -> step p p'
| step_Reset st headers p' :
    store_ok st -> ResetWithHeaders Sender st headers p = Some p' -> step p p'
| step_SetSealing b : step p (SetSealing b p).

Definition reachable (fk : ForksInTime) (c : Config) : Pool -> Prop :=
  rtc step (NewTxPool fk c).

Lemma take_enqueue p l1 tx l2 :
  pool_ok p -> enqueueReqs p = l1 ++ tx :: l2 ->
  pool_ok (set_enqueueReqs (l1 ++ l2) p) /\ tx_ok tx /\ is_Some (accounts p !! From tx).
Proof.
  intros [] Heq. rewrite Heq in po_enqueue0.
  apply Forall_app in po_enqueue0 as [? [[? ?] ?]%Forall_cons].
  split_and!; [split; try done; by apply Forall_app|done..].
Qed.

Lemma take_promote p l1 k l2 :
  pool_ok p -> promoteReqs p = l1 ++ k :: l2 ->
  pool_ok (set_promoteReqs (l1 ++ l2) p) /\ is_Some (accounts p !! k).
Proof.
  intros [] Heq. rewrite Heq in po_promote0.
  apply Forall_app in po_promote0 as [? [? ?]%Forall_cons].
  split; [split; try done; by apply Forall_app|done].
Qed.

Lemma step_ok p p' : pool_ok p -> step p p' -> pool_ok p'.
Proof.
  intros Hp [].
  - by apply addTx_inv.
  - by apply addGossipTx_inv.
  - destruct (take_enqueue _ _ _ _ Hp H0) as (? & ? & _).
    by eapply handleEnqueueRequest_inv.
  - destruct (take_promote _ _ _ _ Hp H0) as (? & _).
    by eapply handlePromoteRequest_inv.
  - by apply pruneAccountsWithNonceHoles_inv, inv_set_pruneSignal.
  - by apply inv_set_executables.
  - unfold Peek. destruct (pq_pop _). by apply inv_set_executables.
  - by eapply Pop_inv.
  - by eapply Drop_inv.
  - by eapply Demote_inv.
  - unfold ResetWithHeaders in *.
    destruct (processEvent_inv Sender st headers p) as (p1 & Hp1 & ?); [done..|]. by simplify_eq.
  - by apply inv_set_sealing.
Qed.

Lemma NewTxPool_ok fk c : 0 <= MaxAccountEnqueued c -> pool_ok (NewTxPool fk c).
Proof.
  intros. split; simpl; try done.
Qed.

Lemma reachable_ok fk c p : 0 <= MaxAccountEnqueued c -> reachable fk c p -> pool_ok p.
Proof.
  intros Hc Hr. pose proof (NewTxPool_ok fk c Hc) as H0. revert H0.
  induction Hr; eauto using step_ok.
Qed.
End Machine.
