(* ===== verification/TxPoolProps.v ===== *)
(** * Theorems about the transaction pool

    What the pool promises to block building and to the node: reachable states
    are consistent, handlers do not fail, the best-priced executable transaction
    is offered first, stale transactions go away, and only valid transactions
    enter. Two theorems record where the code falls short of its intent. *)

From S2P Require Import Prelude GoHeap ChainTypes TxAccount TxPool TxPoolInv.
Local Open Scope go_scope.
Set Default Proof Using "Type".

(** ** A small concrete pool, for witnesses *)

Definition sample_codec : Codec := {|
  fastrlp_MarshalTo := fun v =>
    match v with VArray (VUint n :: VBigInt g :: _) => be_bytes 32 (n * 2 ^ 128 + g) | _ => [] end;
  keccak256 := fun l => l |}.

Definition sample_tx (from nonce price : Z) : Transaction :=
  mkTx nonce price 100000 (Some 9) 0 [] 27 1 1 0 from LegacyTx.

Definition sample_sender (t : Transaction) : option Address := Some (From t).

Definition sample_store : store := {|
  hdr_StateRoot := 7; hdr_GasLimit := 30000000;
  GetNonce := fun _ _ => 0; GetBalance := fun _ _ => Some (2 ^ 100);
  GetBlockByHash := fun h => if h =? 5 then Some [sample_tx 1 0 10] else None |}.

Definition no_forks : ForksInTime :=
  Build_ForksInTime false false false false false false false false false.

Definition sample_config : Config := {|
  PriceLimit := 1; MaxSlots := 4; MaxAccountEnqueued := 128; DeploymentWhitelist := [] |}.

Definition sample_p0 : Pool := NewTxPool no_forks sample_config.

(** A transaction added, enqueued and promoted. *)
Definition sample_pa : Pool := Eval vm_compute in
  fst (addTx (H := sample_codec) sample_sender sample_store sample_p0 (sample_tx 1 0 10)).

Definition sample_pb : Pool := Eval vm_compute in
  default sample_p0 (handleEnqueueRequest (H := sample_codec) (set_enqueueReqs [] sample_pa)
    (ComputeHash (H := sample_codec) (sample_tx 1 0 10))).

Definition sample_p1 : Pool := Eval vm_compute in
  default sample_p0 (handlePromoteRequest (H := sample_codec) (set_promoteReqs [] sample_pb) 1).

(** The worker loop taking the oldest request of a channel. *)
Definition handle_next_enqueue (p : Pool) : Pool :=
  match enqueueReqs p with
  | tx :: rest =>
      default p (handleEnqueueRequest (H := sample_codec) (set_enqueueReqs rest p) tx)
  | [] => p
  end.

Definition handle_next_promote (p : Pool) : Pool :=
  match promoteReqs p with
  | k :: rest => default p (handlePromoteRequest (H := sample_codec) (set_promoteReqs rest p) k)
  | [] => p
  end.

(** Two accounts whose transactions arrive before either is enqueued. *)
Definition racing_config : Config := {|
  PriceLimit := 1; MaxSlots := 1; MaxAccountEnqueued := 128; DeploymentWhitelist := [] |}.

Definition sample_add (tx : Transaction) (p : Pool) : Pool :=
  fst (addTx (H := sample_codec) sample_sender sample_store p tx).

Definition racing (c : Config) (price1 price2 : Z) : Pool :=
  handle_next_enqueue (handle_next_enqueue
    (sample_add (sample_tx 2 0 price2) (sample_add (sample_tx 1 0 price1) (NewTxPool no_forks c)))).

Lemma sample_store_ok : store_ok sample_store.
Proof. intros root addr. unfold is_u64, two64. simpl. lia. Qed.

Ltac sample_tx_ok := unfold tx_ok, MaxUint64, two64; simpl; lia.

Lemma sample_pb_reachable :
  reachable (H := sample_codec) sample_sender no_forks sample_config sample_pb.
Proof.
  apply (rtc_l _ _ sample_pa).
  { replace sample_pa with
      (fst (addTx (H := sample_codec) sample_sender sample_store sample_p0 (sample_tx 1 0 10)))
      by (by vm_compute).
    apply step_addTx; [apply sample_store_ok|sample_tx_ok]. }
  apply (rtc_l _ _ sample_pb); [|apply rtc_refl].
  by apply (step_enqueue _ _ [] (ComputeHash (H := sample_codec) (sample_tx 1 0 10)) []);
    vm_compute.
Qed.

Lemma sample_p1_reachable :
  reachable (H := sample_codec) sample_sender no_forks sample_config sample_p1.
Proof.
  apply (rtc_r _ sample_pb); [apply sample_pb_reachable|].
  by apply (step_promote _ _ [] 1 []); vm_compute.
Qed.

Lemma sample_pb_acc_ok : acc_ok (default (new_account 0 0) (accounts sample_pb !! 1)).
Proof.
  apply (pool_acct (H := sample_codec) 0 0 sample_pb 1 _).
  - apply (reachable_ok sample_sender no_forks sample_config); [simpl; lia|].
    apply sample_pb_reachable.
  - by vm_compute.
Qed.

Section SampleRuns.
Context (c : Config).
Abbreviation sample_reachable := (reachable (H := sample_codec) sample_sender no_forks c).

Lemma handle_next_enqueue_reachable p :
  sample_reachable p -> sample_reachable (handle_next_enqueue p).
Proof.
  intros Hp. unfold handle_next_enqueue. destruct (enqueueReqs p) as [|tx rest] eqn:E; [done|].
  destruct (handleEnqueueRequest _ tx) as [p'|] eqn:E2; [|done].
  eapply rtc_r; [exact Hp|]. by eapply (step_enqueue _ _ [] tx rest).
Qed.

Lemma handle_next_promote_reachable p :
  sample_reachable p -> sample_reachable (handle_next_promote p).
Proof.
  intros Hp. unfold handle_next_promote. destruct (promoteReqs p) as [|k rest] eqn:E; [done|].
  destruct (handlePromoteRequest _ k) as [p'|] eqn:E2; [|done].
  eapply rtc_r; [exact Hp|]. by eapply (step_promote _ _ [] k rest).
Qed.

Lemma sample_add_reachable tx p :
  tx_ok tx -> sample_reachable p -> sample_reachable (sample_add tx p).
Proof.
  intros Ht Hp. eapply rtc_r; [exact Hp|]. apply step_addTx; [apply sample_store_ok|done].
Qed.

Lemma racing_reachable price1 price2 : sample_reachable (racing c price1 price2).
Proof.
  do 2 apply handle_next_enqueue_reachable.
  do 2 (apply sample_add_reachable; [sample_tx_ok|]). apply rtc_refl.
Qed.
End SampleRuns.

(** ** Lemmas: the executables queue *)

Lemma fold_push_spec l q :
  is_heap maxPrice_Less q ->
  is_heap maxPrice_Less (fold_left pq_push l q) /\ fold_left pq_push l q ≡ₚ l ++ q.
Proof.
  revert q. induction l as [|t l IH]; intros q Hq; simpl; [done|].
  destruct (IH (pq_push q t)) as [Hh Hp]; [by apply heap_push_heap, Hq; apply _|].
  split; [done|]. rewrite Hp. unfold pq_push. rewrite heap_push_perm.
  by rewrite Permutation_middle.
Qed.

Lemma getPrimaries_elem m t :
  t ∈ getPrimaries m <-> exists (k : Address) (a : account), m !! k = Some a /\ q_peek (promoted a) = Some t.
Proof.
  unfold getPrimaries. rewrite list_elem_of_omap. split.
  - intros ([k a] & Hin & Hp). apply elem_of_map_to_list in Hin. eauto.
  - intros (k & a & Hk & Hp). exists (k, a). by rewrite elem_of_map_to_list.
Qed.

Lemma Prepare_executables p :
  is_heap maxPrice_Less (executables (Prepare p)) /\
  executables (Prepare p) ≡ₚ getPrimaries (accounts p).
Proof.
  unfold Prepare. cbn [executables set_executables].
  replace (if pq_length (executables p) =? 0 then executables p
           else pq_clear (executables p)) with (@nil Transaction).
  - destruct (fold_push_spec (getPrimaries (accounts p)) []) as [Hh Hp]; [by apply is_heap_nil|].
    split; [done|]. by rewrite Hp, app_nil_r.
  - unfold pq_length, pq_clear. by destruct (executables p).
Qed.

(** ** Lemmas: the nonces a new chain brings *)

Section Reset.
Context `{Codec} (Sender : Transaction -> option Address) (st : store).

Let stn (addr : Address) : Z := GetNonce st (hdr_StateRoot st) addr.

(** The collected nonces are the state's. *)
Definition state_nonces (m : gmap Address Z) : Prop := map_Forall (fun addr n => n = stn addr) m.

Lemma collect_nonces_state m txs :
  state_nonces m ->
  state_nonces (collect_nonces Sender st m txs) /\
  (forall k : Address, is_Some (m !! k) -> is_Some (collect_nonces Sender st m txs !! k)) /\
  (forall t, t ∈ txs -> From t <> ZeroAddress ->
     is_Some (collect_nonces Sender st m txs !! From t)).
Proof.
  unfold collect_nonces. revert m. induction txs as [|t l IH]; intros m Hm; cbn [fold_left].
  { split_and!; [done|done|]. intros t Ht. by apply elem_of_nil in Ht. }
  set (m1 := match (if From t =? ZeroAddress then Sender t else Some (From t)) with
             | Some _ => _ | None => _ end).
  assert (Hm1 : state_nonces m1 /\ (forall k : Address, is_Some (m !! k) -> is_Some (m1 !! k)) /\
                (From t <> ZeroAddress -> is_Some (m1 !! From t))).
  { unfold m1. destruct (From t =? ZeroAddress) eqn:E; breflect.
    - split_and!; [..|done]; destruct (Sender t) as [addr|]; try done.
      + destruct (m !! addr); [done|]. by apply map_Forall_insert_2.
      + intros k Hk. destruct (m !! addr); [done|]. apply lookup_insert_is_Some'. by right.
    - destruct (m !! From t) eqn:Hk.
      + split_and!; [done..|]. intros _. rewrite Hk. by eexists.
      + split_and!.
        * by apply map_Forall_insert_2.
        * intros k Hs. apply lookup_insert_is_Some'. by right.
        * intros _. rewrite lookup_insert_eq. by eexists. }
  destruct Hm1 as (H1 & H2 & H3). destruct (IH m1 H1) as (G1 & G2 & G3).
  split_and!; [done|eauto|]. intros t' Ht' Hz. apply elem_of_cons in Ht' as [->|Ht']; eauto.
Qed.

Lemma process_headers_state hs p m p' m' :
  state_nonces m -> fold_left (process_header Sender st) hs (p, m) = (p', m') ->
  state_nonces m' /\ accounts p' = accounts p /\
  (forall k : Address, is_Some (m !! k) -> is_Some (m' !! k)) /\
  (forall h txs t, h ∈ hs -> GetBlockByHash st h = Some txs -> t ∈ txs ->
     From t <> ZeroAddress -> is_Some (m' !! From t)).
Proof.
  revert p m. induction hs as [|h hs IH]; intros p m Hm; cbn [fold_left].
  { intros [= <- <-]. split_and!; [done..|]. intros h txs t Hh. by apply elem_of_nil in Hh. }
  unfold process_header at 2. cbn [fst snd].
  destruct (GetBlockByHash st h) as [txs|] eqn:Hb; intros Hf.
  - destruct (collect_nonces_state m txs Hm) as (C1 & C2 & C3).
    destruct (IH _ _ C1 Hf) as (G1 & G2 & G3 & G4). split_and!; [done|done|eauto|].
    intros h' txs' t [->|Hh]%elem_of_cons Hb' Ht Hz; [|by eauto].
    rewrite Hb in Hb'. injection Hb' as <-. eauto.
  - destruct (IH _ _ Hm Hf) as (G1 & G2 & G3 & G4). split_and!; [done|done|eauto|].
    intros h' txs' t [->|Hh]%elem_of_cons Hb' Ht Hz; [congruence|by eauto].
Qed.
End Reset.

(** The account at [k] holds no transaction with a nonce below [n]. *)
Definition fresh_at (k : Address) (n : Z) (p : Pool) : Prop :=
  forall a, accounts p !! k = Some a -> Forall (fun t => n <= Nonce t) (acc_txs a).

Lemma fresh_put k n p k' a b :
  fresh_at k n p -> accounts p !! k' = Some a -> acc_txs b = acc_txs a ->
  fresh_at k n (put_account k' b p).
Proof.
  intros Hf Hk Hb c. simpl. rewrite lookup_insert. case_decide; [|apply Hf].
  intros [= <-]. subst k'. rewrite Hb. by apply Hf.
Qed.

Section Fresh.
Context `{Codec} (Sender : Transaction -> option Address).

Lemma reset_one_fresh s kn k n :
  reset_inv s -> is_u64 kn.2 -> fresh_at k n (ra_pool s) \/ kn = (k, n) ->
  fresh_at k n (ra_pool (reset_one s kn)).
Proof.
  intros Hs Hn Hf. unfold reset_one.
  destruct (accounts (ra_pool s) !! kn.1) as [a|] eqn:Hk.
  2: { destruct Hf as [Hf | ->]; [done|]. simpl in Hk. intros a. by rewrite Hk. }
  pose proof (acc_reset_spec _ _ (proj1 (pool_acct _ _ _ _ _ Hs Hk)) Hn) as Hr.
  enough (Hput : fresh_at k n (put_account kn.1 (resetDemotions (r_account (acc_reset a kn.2)))
    (ra_pool s))) by (by destruct (r_signal _)).
  intros c. simpl. rewrite lookup_insert. case_decide as Hkk.
  - intros [= <-]. change (acc_txs _) with (acc_txs (r_account (acc_reset a kn.2))).
    destruct Hf as [Hf | ->]; [|apply Hr].
    subst k. specialize (Hf a Hk). rewrite (rs_txs _ _ _ Hr) in Hf.
    by apply Forall_app in Hf as [_ [_ ?]%Forall_app].
  - destruct Hf as [Hf | ->]; [apply Hf|done].
Qed.

Lemma reset_fold_fresh l s k n :
  reset_inv s -> Forall (fun kn : Address * Z => is_u64 kn.2) l ->
  fresh_at k n (ra_pool s) \/ (k, n) ∈ l ->
  fresh_at k n (ra_pool (fold_left reset_one l s)).
Proof.
  revert s. induction l as [|kn l IH]; intros s Hs Hl Hf; cbn [fold_left].
  { destruct Hf as [|Hf]; [done|]. by apply elem_of_nil in Hf. }
  apply Forall_cons in Hl as [Hu Hl].
  apply IH; [by apply reset_one_inv|done|].
  destruct Hf as [Hf|Hf]; [left; by apply reset_one_fresh; auto|].
  apply elem_of_cons in Hf as [Hf|Hf]; [left|by right]. apply reset_one_fresh; auto.
Qed.

Lemma resetAccounts_fresh nonces p k n :
  pool_ok p -> nonces_ok nonces -> nonces !! k = Some n ->
  fresh_at k n (resetAccounts nonces p).
Proof.
  intros Hp Hn Hk. unfold resetAccounts.
  destruct (size nonces =? 0)%nat eqn:E.
  { apply Nat.eqb_eq, map_size_empty_inv in E. by rewrite E in Hk. }
  assert (Hf : fresh_at k n (ra_pool (fold_left reset_one (map_to_list nonces) (mkResetAcc p [] [])))).
  { apply reset_fold_fresh; [done| |right; by apply elem_of_map_to_list].
    apply Forall_forall. intros [k' n'] Hin. apply elem_of_map_to_list in Hin.
    by apply (Hn k' n'). }
  by repeat case_match.
Qed.

Lemma Drop_fresh p tx p' k n : fresh_at k n p -> Drop p tx = Some p' -> fresh_at k n p'.
Proof.
  intros Hf Hd. destruct (Drop_spec _ _ _ Hd) as (a & Hk & Hacc).
  intros c. rewrite Hacc, lookup_insert. case_decide; [|apply Hf].
  intros [= <-]. constructor.
Qed.

Lemma skips_one_fresh active p k' p' k n :
  fresh_at k n p -> skips_one active (Some p) k' = Some p' -> fresh_at k n p'.
Proof.
  intros Hf. cbn [skips_one]. destruct (accounts p !! k') as [a|] eqn:Hk; [|by intros [= <-]].
  destruct (active !! k'). { intros [= <-]. by eapply fresh_put. }
  destruct (getLowestTx a) as [tx|]; [|by intros [= <-]].
  set (b := incrementSkips a).
  assert (Hf1 : fresh_at k n (put_account k' b p)) by (by eapply fresh_put).
  destruct (_ <? _); [by intros [= <-]|].
  destruct (Drop (put_account k' b p) tx) as [p2|] eqn:Hd; [|done].
  pose proof (Drop_fresh _ _ _ _ _ Hf1 Hd).
  destruct (accounts p2 !! k') as [d|] eqn:Hk2; [|done]. intros [= <-]. by eapply fresh_put.
Qed.

Lemma skips_fold_fresh active ks p p' k n :
  fresh_at k n p -> fold_left (skips_one active) ks (Some p) = Some p' -> fresh_at k n p'.
Proof.
  revert p. induction ks as [|k' ks IH]; intros p Hf; cbn [fold_left]; [by intros [= <-]|].
  destruct (skips_one active (Some p) k') as [p1|] eqn:E.
  - apply IH. by eapply skips_one_fresh.
  - clear. intros Hx. exfalso. revert Hx. by induction ks.
Qed.
End Fresh.

Section Props.
Context `{Codec} (Sender : Transaction -> option Address).

(** C29. In every state the pool can reach without being given a transaction of the
    nonce 2^64-1 (which it accepts, and after which [nextNonce] wraps around to 0)
    and while the block builder pops only the head of a promoted queue, each
    account's promoted nonces form a gap-free run ending just below [nextNonce],
    its enqueued nonces are not below [nextNonce], all its transactions are its
    own, and the enqueued limit is respected. *)
Theorem reachable_accounts fk c p k a :
  0 <= MaxAccountEnqueued c -> reachable Sender fk c p -> accounts p !! k = Some a ->
  gap_free (Nonce <$> promoted a) (nextNonce a) /\
  Forall (fun t => nextNonce a <= Nonce t) (enqueued a) /\
  Forall (fun t => From t = k) (promoted a ++ enqueued a) /\
  q_length (enqueued a) <= maxEnqueued a.
Proof.
  intros Hc Hr Hk. pose proof (reachable_ok Sender _ _ _ Hc Hr) as Hp.
  destruct (pool_acct _ _ _ _ _ Hp Hk) as [[] Hf]. done.
Qed.

(** C30. In every state the pool can reach while the transactions that are popped are
    the heads of their promoted queues, and none has the nonce 2^64-1, the slot
    gauge holds exactly the slots of the queued transactions (as a [uint64]), the
    [pending] counter the number of promoted transactions (as an [int64]) and the
    account counter the number of accounts. When the header of a new block resets
    the pool between [Peek] and [Pop], [Pop] takes the slots of the transaction it
    is given off the gauge but removes whatever is the head then. *)
Theorem reachable_counters fk c p :
  0 <= MaxAccountEnqueued c -> reachable Sender fk c p ->
  height (gauge p) = u64 (msum (fun a => slots_of (promoted a ++ enqueued a)) (accounts p)) /\
  pending p = i64 (msum (fun a => Z.of_nat (length (promoted a))) (accounts p)) /\
  acc_count p = u64 (Z.of_nat (size (accounts p))).
Proof.
  intros Hc Hr. destruct (reachable_ok Sender _ _ _ Hc Hr).
  rewrite Z.add_0_r in *. done.
Qed.

(** C31. No handler dereferences a missing account: in a reachable state every
    enqueue and promote request in flight is handled, and a reset with any
    headers completes. *)
Theorem reachable_no_panic fk c p :
  0 <= MaxAccountEnqueued c -> reachable Sender fk c p ->
  (forall l1 tx l2, enqueueReqs p = l1 ++ tx :: l2 ->
     is_Some (handleEnqueueRequest (set_enqueueReqs (l1 ++ l2) p) tx)) /\
  (forall l1 k l2, promoteReqs p = l1 ++ k :: l2 ->
     is_Some (handlePromoteRequest (set_promoteReqs (l1 ++ l2) p) k)) /\
  (forall st headers, store_ok st -> is_Some (ResetWithHeaders Sender st headers p)).
Proof.
  intros Hc Hr. pose proof (reachable_ok Sender _ _ _ Hc Hr) as Hp. split_and!.
  - intros l1 tx l2 Heq. destruct (take_enqueue _ _ _ _ Hp Heq) as (_ & _ & [a Ha]).
    unfold handleEnqueueRequest. simpl. rewrite Ha. repeat case_match; by eexists.
  - intros l1 k l2 Heq. destruct (take_promote _ _ _ _ Hp Heq) as (_ & [a Ha]).
    unfold handlePromoteRequest. simpl. rewrite Ha. destruct (acc_promote a) as [[??]?]. by eexists.
  - intros st hs Hst. destruct (processEvent_inv Sender st hs p Hst Hp) as (p' & Hp' & _).
    by exists p'.
Qed.

(** After [Prepare], [Peek] offers the head of some account's promoted
    queue whose gas price (its low 64 bits) no other head exceeds, and offers
    nothing only if no account has a promoted transaction. *)
Theorem Prepare_Peek fk c p :
  0 <= MaxAccountEnqueued c -> reachable Sender fk c p ->
  match fst (Peek (Prepare p)) with
  | Some tx => is_head p tx /\
      forall k a t, accounts p !! k = Some a -> q_peek (promoted a) = Some t ->
        u64 (GasPrice t) <= u64 (GasPrice tx)
  | None => forall k a, accounts p !! k = Some a -> promoted a = []
  end.
Proof.
  intros Hc Hr. pose proof (reachable_ok Sender _ _ _ Hc Hr) as Hp.
  destruct (Prepare_executables p) as [Hh Hperm]. unfold Peek.
  destruct (pq_pop (executables (Prepare p))) as [[tx|] ex] eqn:E; cbn [fst].
  - assert (Hin : tx ∈ executables (Prepare p)).
    { revert E. unfold pq_pop. destruct (heap_pop _ _) as [[x l]|] eqn:E2; [|done].
      intros [= -> ->]. rewrite (heap_pop_perm _ _ _ _ E2). in_list. }
    split.
    + rewrite Hperm in Hin. apply getPrimaries_elem in Hin as (k & a & Hk & Ht).
      destruct (pool_acct _ _ _ _ _ Hp Hk) as [_ Hf]. rewrite Forall_forall in Hf.
      assert (Hfrom : From tx = k).
      { apply Hf. apply q_peek_elem in Ht. unfold acc_txs. in_list. }
      exists a. by rewrite Hfrom.
    + intros k a t Hk Ht. eapply pq_pop_max; [exact Hh|exact E|].
      rewrite Hperm. apply getPrimaries_elem. eauto.
  - intros k a Hk. destruct (q_peek (promoted a)) as [t|] eqn:Ht.
    + assert (Hin : t ∈ executables (Prepare p)) by (rewrite Hperm; apply getPrimaries_elem; eauto).
      revert E. unfold pq_pop.
      destruct (heap_pop_Some maxPrice_Less (executables (Prepare p))) as [[x l] ->]; [|done].
      intros E. rewrite E in Hin. by apply elem_of_nil in Hin.
    + by apply q_peek_None.
Qed.

(** After a reset with new headers, the account of every transaction of
    their blocks holds no transaction whose nonce the state has passed. *)
Theorem ResetWithHeaders_fresh fk c p st headers p' h txs t a :
  0 <= MaxAccountEnqueued c -> reachable Sender fk c p -> store_ok st ->
  ResetWithHeaders Sender st headers p = Some p' ->
  h ∈ headers -> GetBlockByHash st h = Some txs -> t ∈ txs -> From t <> ZeroAddress ->
  accounts p' !! From t = Some a ->
  Forall (fun t' => GetNonce st (hdr_StateRoot st) (From t) <= Nonce t') (promoted a ++ enqueued a).
Proof.
  intros Hc Hr Hst Hres Hh Hb Ht Hz. pose proof (reachable_ok Sender _ _ _ Hc Hr) as Hp.
  unfold ResetWithHeaders, processEvent in Hres.
  destruct (fold_left _ headers (p, ∅)) as [p1 m] eqn:E.
  destruct (process_headers_inv _ _ _ _ _ _ _ Hst Hp (map_Forall_empty _) E) as [Hp1 Hm].
  destruct (process_headers_state _ _ _ _ _ _ _ (map_Forall_empty _) E) as (Hs & _ & _ & Hin).
  destruct (Hin h txs t Hh Hb Ht Hz) as [n Hn]. pose proof (Hs _ _ Hn) as Hn'. cbn beta in Hn'.
  pose proof (resetAccounts_fresh m p1 _ n Hp1 Hm Hn) as Hf. rewrite <- Hn'.
  destruct (negb _); [|injection Hres as <-; apply Hf].
  by eapply skips_fold_fresh.
Qed.

(** [promote] on a well-formed account moves to [promoted] a run of
    transactions continuing at [nextNonce], advances [nextNonce] by their
    number, leaves no promotable transaction behind, and drops only
    transactions for which it promoted one of the same nonce and at least the
    same price. *)
Theorem promote_correct a a' prom pruned :
  acc_ok a -> acc_promote a = (a', prom, pruned) ->
  acc_ok a' /\
  promoted a' ≡ₚ promoted a ++ prom /\
  promoted a ++ enqueued a ≡ₚ pruned ++ promoted a' ++ enqueued a' /\
  nextNonce a' = nextNonce a + Z.of_nat (length prom) /\
  Forall (fun t => nextNonce a' < Nonce t) (enqueued a') /\
  (forall t, t ∈ pruned ->
     exists t', t' ∈ prom /\ Nonce t' = Nonce t /\ GasPrice t <= GasPrice t').
Proof. intros Ha Hp. by destruct (acc_promote_spec _ _ _ _ Ha Hp). Qed.

(** [validateTx] accepts exactly the transactions that meet every entry
    condition, and returns them with the recovered sender set. *)
Theorem validateTx_accepts st p tx tx' :
  validateTx Sender st p tx = Ok tx' <->
  exists from balance gas,
    tx' = set_From from tx /\
    TxType tx <> StateTx /\
    Z.of_nat (length (tx_MarshalRLP tx)) <= txMaxSize /\
    0 <= TxValue tx /\
    Sender tx = Some from /\
    (From tx = ZeroAddress \/ From tx = from) /\
    (To tx = None -> whitelist_allowed (whitelist p) from = true /\
       (EIP158 (forks p) = true -> Z.of_nat (length (Input tx)) <= TxPoolMaxInitCodeSize)) /\
    priceLimit p <= GasPrice tx /\
    GetNonce st (hdr_StateRoot st) from <= Nonce tx /\
    GetBalance st (hdr_StateRoot st) from = Some balance /\
    GasPrice tx * Gas tx + TxValue tx <= balance /\
    TransactionGasCost tx (Homestead (forks p)) (Istanbul (forks p)) = Some gas /\
    gas <= Gas tx <= hdr_GasLimit st.
Proof.
  assert (Hset : forall from, From tx = ZeroAddress \/ From tx = from ->
    (if From tx =? ZeroAddress then set_From from tx else tx) = set_From from tx).
  { intros from [Hz|Hz]; destruct (From tx =? ZeroAddress) eqn:E; breflect; try done.
    rewrite <- Hz. by destruct tx. }
  unfold validateTx. split.
  - destruct (TxType tx =? StateTx) eqn:E1; [done|].
    destruct (txMaxSize <? _) eqn:E2; [done|].
    destruct (TxValue tx <? 0) eqn:E3; [done|].
    destruct (Sender tx) as [from|] eqn:E4; [|done].
    destruct (negb _ && negb _) eqn:E5; [done|].
    assert (Hfrom : From tx = ZeroAddress \/ From tx = from).
    { apply andb_false_iff in E5 as [E5|E5]; breflect; auto. }
    rewrite (Hset _ Hfrom).
    destruct (if IsContractCreation _ then _ else _) as [[]|] eqn:E6; [|done].
    destruct (IsUnderpriced _ _) eqn:E7; [done|].
    destruct (Nonce _ <? _) eqn:E8; [done|].
    destruct (GetBalance _ _ _) as [bal|] eqn:E9; [|done].
    destruct (bal <? _) eqn:E10; [done|].
    destruct (TransactionGasCost _ _ _) as [g|] eqn:E11; [|done].
    destruct (_ <? g) eqn:E12; [done|]. destruct (hdr_GasLimit st <? _) eqn:E13; [done|].
    intros [= <-]. exists from, bal, g. unfold IsUnderpriced, Cost in *. breflect.
    split_and!; try done. intros Hto.
    unfold IsContractCreation in E6. simpl in E6. rewrite Hto in E6.
    destruct (whitelist_allowed _ _); [|done]. simpl in E6. split; [done|].
    intros Heip. rewrite Heip in E6. simpl in E6.
    destruct (_ <? _) eqn:E14; [done|]. by breflect.
  - intros (from & bal & g & -> & H1 & H2 & H3 & H4 & H5 & H6 & H7 & H8 & H9 & H10 & H11 & H12).
    rewrite (proj2 (Z.eqb_neq _ _) H1), (proj2 (Z.ltb_ge _ _) H2), (proj2 (Z.ltb_ge _ _) H3), H4.
    replace (negb (From tx =? ZeroAddress) && negb (From tx =? from)) with false.
    2: { symmetry. destruct H5 as [-> | ->]; rewrite Z.eqb_refl; [done|]. by rewrite andb_false_r. }
    rewrite (Hset _ H5).
    replace (if IsContractCreation _ then _ else _) with (@Ok TxErr unit tt).
    2: { unfold IsContractCreation. simpl. destruct (To tx); [done|].
         destruct H6 as [-> Hlen]; [done|]. simpl. destruct (EIP158 (forks p)); [|done]. simpl.
         by rewrite (proj2 (Z.ltb_ge _ _)) by auto. }
    unfold IsUnderpriced. simpl.
    rewrite (proj2 (Z.ltb_ge _ _) H7), (proj2 (Z.ltb_ge _ _) H8), H9.
    unfold Cost. simpl. rewrite (proj2 (Z.ltb_ge _ _) H10).
    change (TransactionGasCost (set_From from tx)) with (TransactionGasCost tx). rewrite H11.
    by rewrite (proj2 (Z.ltb_ge _ _)), (proj2 (Z.ltb_ge _ _)) by lia.
Qed.

(** Without other requests in flight the slot limit holds: if the gauge is
    within its limit, then a transaction that [addTx] accepts leaves it within
    its limit once its enqueue request has been handled. *)
Theorem sequential_capacity st p tx p1 tx' p2 :
  0 <= height (gauge p) <= max (gauge p) -> max (gauge p) < two64 ->
  enqueueReqs p = [] -> addTx Sender st p tx = (p1, None) ->
  enqueueReqs p1 = [tx'] ->
  handleEnqueueRequest (set_enqueueReqs [] p1) tx' = Some p2 ->
  0 <= height (gauge p2) <= max (gauge p2).
Proof.
  intros Hh Hm Hreq Hadd Hreq1 Hhandle. unfold addTx in Hadd.
  destruct (validateTx Sender st p tx) as [tx1|]; [|done]. cbv zeta in Hadd.
  set (q := if highPressure (gauge p) then signalPruning p else p) in *.
  assert (Hq : gauge q = gauge p /\ enqueueReqs q = [])
    by (unfold q; by destruct (highPressure (gauge p))).
  destruct Hq as [Hg Hq]. clearbody q.
  destruct (_ && _); [done|]. destruct (_ <? slotsRequired _) eqn:Hs; [done|].
  destruct (index_add _ _) as [[] idx]; [|done]. injection Hadd as <-.
  assert (Hacc : gauge (createAccountOnce st (From (ComputeHash tx1)) (set_index idx q)) = gauge p /\
    enqueueReqs (createAccountOnce st (From (ComputeHash tx1)) (set_index idx q)) = []).
  { unfold createAccountOnce, initOnce. repeat case_match; by rewrite ?Hg, ?Hq. }
  revert Hreq1 Hhandle. destruct Hacc as [Hg2 Hq2].
  set (q2 := createAccountOnce _ _ _) in *. clearbody q2.
  simpl. rewrite Hq2. simpl. intros [= <-].
  assert (Hslots : 0 <= slotsRequired [ComputeHash tx1] <= max (gauge p) - height (gauge p)).
  { split; [rewrite slotsRequired_spec; apply u64_range|].
    change (slotsRequired [ComputeHash tx1]) with (slotsRequired [tx1]).
    rewrite Hg, u64_small in Hs by lia. breflect. lia. }
  unfold handleEnqueueRequest. simpl.
  destruct (accounts q2 !! From tx1) as [a|]; [|done].
  destruct (acc_enqueue a (ComputeHash tx1)) as [b|].
  - set (n := slotsRequired [ComputeHash tx1]) in *. clearbody n.
    assert (Hres : 0 <= height (gauge q2) +u n <= max (gauge q2)).
    { rewrite Hg2, u64_small by lia. lia. }
    match goal with |- (if ?c then _ else _) = _ -> _ => destruct c end;
      intros [= <-]; exact Hres.
  - intros [= <-]. simpl. by rewrite Hg2.
Qed.
End Props.

(** The slot limit can be exceeded: the limit is checked when a transaction
    is added but the gauge grows only when its request is handled, so two
    additions may use the same free slot. From then on the difference of limit
    and gauge wraps around and the limit check admits everything. *)
Theorem slot_limit_exceeded :
  exists p tx,
    reachable (H := sample_codec) sample_sender no_forks racing_config p /\
    max (gauge p) < height (gauge p) /\
    snd (addTx (H := sample_codec) sample_sender sample_store p tx) = None.
Proof.
  exists (racing racing_config 10 11), (sample_tx 3 0 12).
  split; [apply racing_reachable|]. split; by vm_compute.
Qed.

(** Gas prices of 2^64 and above are ordered by their low 64 bits: in a
    reachable pool with promoted transactions priced 2^64 and 1, the one priced
    1 is offered first. *)
Theorem price_truncated :
  exists p,
    reachable (H := sample_codec) sample_sender no_forks sample_config p /\
    (exists a t, accounts p !! 1 = Some a /\ q_peek (promoted a) = Some t /\ GasPrice t = 2 ^ 64) /\
    exists t, fst (Peek (Prepare p)) = Some t /\ GasPrice t = 1.
Proof.
  exists (handle_next_promote (handle_next_promote (racing sample_config (2 ^ 64) 1))).
  split; [do 2 apply handle_next_promote_reachable; apply racing_reachable|]. split.
  - eexists _, _. split_and!; by vm_compute.
  - eexists. split; by vm_compute.
Qed.

(** ** Witnesses *)

Abbreviation sample_codec_tx := (ComputeHash (H := sample_codec) (sample_tx 1 0 10)).

Lemma reachable_accounts_witness :
  gap_free (Nonce <$> [sample_codec_tx]) 1 /\
  Forall (fun t => 1 <= Nonce t) (@nil Transaction) /\
  Forall (fun t => From t = 1) ([sample_codec_tx] ++ []) /\
  q_length [] <= 128.
Proof.
  refine (reachable_accounts (H := sample_codec) sample_sender no_forks sample_config sample_p1 1
    (default (new_account 0 0) (accounts sample_p1 !! 1)) _ sample_p1_reachable _).
  - simpl. lia.
  - by vm_compute.
Defined.

Lemma reachable_counters_witness :
  height (gauge sample_p1) =
    u64 (msum (fun a => slots_of (H := sample_codec) (promoted a ++ enqueued a)) (accounts sample_p1)) /\
  pending sample_p1 = i64 (msum (fun a => Z.of_nat (length (promoted a))) (accounts sample_p1)) /\
  acc_count sample_p1 = u64 (Z.of_nat (size (accounts sample_p1))).
Proof.
  apply (reachable_counters (H := sample_codec) sample_sender no_forks sample_config sample_p1);
    [simpl; lia|apply sample_p1_reachable].
Defined.

Lemma reachable_no_panic_witness :
  is_Some (ResetWithHeaders (H := sample_codec) sample_sender sample_store [5] sample_p1).
Proof.
  apply (reachable_no_panic (H := sample_codec) sample_sender no_forks sample_config sample_p1);
    [simpl; lia|apply sample_p1_reachable|apply sample_store_ok].
Defined.

Lemma Prepare_Peek_witness : is_head sample_p1 sample_codec_tx.
Proof.
  assert (Hpp := Prepare_Peek (H := sample_codec) sample_sender no_forks sample_config sample_p1
    ltac:(simpl; lia) sample_p1_reachable).
  vm_compute (fst _) in Hpp. destruct Hpp as [Hh _]. exact Hh.
Defined.

Lemma ResetWithHeaders_fresh_witness :
  Forall (fun t' => 0 <= Nonce t') ([sample_codec_tx] ++ []).
Proof.
  refine (ResetWithHeaders_fresh (H := sample_codec) sample_sender no_forks sample_config sample_p1
    sample_store [5]
    (default sample_p0 (ResetWithHeaders (H := sample_codec) sample_sender sample_store [5] sample_p1))
    5 [sample_tx 1 0 10] (sample_tx 1 0 10)
    (default (new_account 0 0) (accounts sample_p1 !! 1)) _ sample_p1_reachable sample_store_ok
    _ _ _ _ _ _);
    [simpl; lia|by vm_compute|apply list_elem_of_here|done|apply list_elem_of_here|done|by vm_compute].
Defined.

Lemma promote_correct_witness :
  acc_ok (default (new_account 0 0) (accounts sample_p1 !! 1)).
Proof.
  apply (promote_correct (default (new_account 0 0) (accounts sample_pb !! 1)) _
    [sample_codec_tx] []).
  - apply sample_pb_acc_ok.
  - by vm_compute.
Defined.

Lemma sequential_capacity_witness : 0 <= 1 <= 4.
Proof.
  refine (sequential_capacity (H := sample_codec) sample_sender sample_store sample_p0
    (sample_tx 1 0 10) sample_pa sample_codec_tx sample_pb _ _ _ _ _ _);
    by vm_compute.
Defined.
