(* ===== verification/BigInt.v ===== *)
(** * Go's [math/big] integers and byte strings

    The operations of [*big.Int] the sources use, on [Z]: an [*big.Int] is the
    integer it holds (the code never shares one between two live variables
    where this development uses it so; the proposer calculator, which does, has
    a store of its own). *)

From S2P Require Import Prelude ChainTypes.
Local Open Scope go_scope.

Definition byte_ok (b : Z) : Prop := 0 <= b < 256.

(** [BitLen]: the length of the absolute value. *)
Definition BitLen (x : Z) : Z := if x =? 0 then 0 else Z.log2 (Z.abs x) + 1.

(** [Uint64], [Int64]: the low 64 bits of the absolute value. *)
Definition Uint64 (x : Z) : Z := u64 (Z.abs x).
Definition Int64 (x : Z) : Z :=
  let v := i64 (Z.abs x) in if x <? 0 then i64 (- v) else v.

Definition IsUint64 (x : Z) : bool := (0 <=? x) && (x <? two64).
Definition IsInt64 (x : Z) : bool := (- 2 ^ 63 <=? x) && (x <? 2 ^ 63).

(** [Bits]: the 64-bit words of the absolute value, least significant first. *)
Definition Bits (x : Z) : list Z :=
  (fun i => u64 (Z.shiftr (Z.abs x) (64 * i))) <$> seqZ 0 ((BitLen x + 63) / 64).

(** [Bytes]: the big-endian bytes of the absolute value, without leading zeros. *)
Definition Bytes (x : Z) : list Z := be_bytes (Z.to_nat ((BitLen x + 7) / 8)) (Z.abs x).

(** [Rsh]: an arithmetic shift, for any shift count. *)
Definition Rsh (x n : Z) : Z :=
  if BitLen x <=? n then (if x <? 0 then -1 else 0) else Z.shiftr x n.

(** ** Lemmas *)

Lemma BitLen_nonneg x : 0 <= BitLen x.
Proof. unfold BitLen. case_bool; [done|]. pose proof (Z.log2_nonneg (Z.abs x)). lia. Qed.

Lemma BitLen_le x n : 0 <= n -> BitLen x <= n <-> Z.abs x < 2 ^ n.
Proof.
  intros Hn. unfold BitLen. destruct (x =? 0) eqn:E; breflect.
  - subst. simpl. split; [|done]. intros. apply Z.pow_pos_nonneg; lia.
  - rewrite (Z.log2_lt_pow2 (Z.abs x)) by lia. lia.
Qed.

Lemma BitLen_lt x n : 0 <= n -> n < BitLen x <-> 2 ^ n <= Z.abs x.
Proof. intros Hn. pose proof (BitLen_le x n Hn). lia. Qed.

Lemma be_bytes_length n z : length (be_bytes n z) = n.
Proof. revert z. induction n; intros z; simpl; [done|]. rewrite length_app, IHn. simpl. lia. Qed.

Lemma be_val_app a b : be_val (a ++ b) = be_val a * 256 ^ Z.of_nat (length b) + be_val b.
Proof.
  unfold be_val. rewrite fold_left_app. generalize (fold_left (fun acc x => acc * 256 + x) a 0).
  assert (Hgen : forall l acc, fold_left (fun acc x => acc * 256 + x) l acc =
    acc * 256 ^ Z.of_nat (length l) + fold_left (fun acc x => acc * 256 + x) l 0).
  { induction l as [|x l IH]; intros acc; cbn [fold_left length].
    - simpl. lia.
    - rewrite IH, (IH (0 * 256 + x)), Nat2Z.inj_succ, Z.pow_succ_r by lia. lia. }
  intros z. apply Hgen.
Qed.

Lemma be_val_snoc l x : be_val (l ++ [x]) = be_val l * 256 + x.
Proof. rewrite be_val_app. simpl. change (be_val [x]) with (0 * 256 + x). lia. Qed.

Lemma be_val_bytes n z : be_val (be_bytes n z) = z mod 256 ^ Z.of_nat n.
Proof.
  revert z. induction n as [|n IH]; intros z.
  - simpl. by rewrite Z.mod_1_r.
  - cbn [be_bytes]. rewrite be_val_snoc, IH, Nat2Z.inj_succ, Z.pow_succ_r by lia.
    rewrite (Z.rem_mul_r z 256) by lia. lia.
Qed.

Lemma be_bytes_ok n z : Forall byte_ok (be_bytes n z).
Proof.
  revert z. induction n; intros z; simpl; [constructor|]. apply Forall_app. split; [done|].
  constructor; [|constructor]. apply Z.mod_pos_bound. lia.
Qed.

Lemma be_val_range l : Forall byte_ok l -> 0 <= be_val l < 256 ^ Z.of_nat (length l).
Proof.
  induction l as [|x l IH] using rev_ind; intros Hl; [done|].
  apply Forall_app in Hl as [Hl Hx%Forall_inv]. specialize (IH Hl). unfold byte_ok in Hx.
  rewrite be_val_snoc, length_app, Nat2Z.inj_add, Z.pow_add_r by lia.
  change (Z.of_nat (length [x])) with 1. rewrite Z.pow_1_r. lia.
Qed.

Lemma be_bytes_val l : Forall byte_ok l -> be_bytes (length l) (be_val l) = l.
Proof.
  induction l as [|x l IH] using rev_ind; intros Hl; [done|].
  apply Forall_app in Hl as [Hl Hx%Forall_inv]. unfold byte_ok in Hx.
  rewrite length_app, Nat.add_1_r, be_val_snoc. cbn [be_bytes].
  rewrite Z.div_add_l, (Z.div_small x), Z.add_0_r, IH by (lia || done).
  rewrite Z.add_comm, Z.mod_add, Z.mod_small by lia. done.
Qed.

Lemma be_bytes_app m n z : be_bytes (m + n) z = be_bytes m (z / 256 ^ Z.of_nat n) ++ be_bytes n z.
Proof.
  revert z. induction n as [|n IH]; intros z.
  - simpl. by rewrite Nat.add_0_r, Z.div_1_r, app_nil_r.
  - rewrite Nat.add_succ_r. cbn [be_bytes]. rewrite IH, app_assoc, Z.div_div by lia.
    do 4 f_equal. rewrite Nat2Z.inj_succ, Z.pow_succ_r by lia. done.
Qed.

Lemma be_bytes_0 n : be_bytes n 0 = replicate n 0.
Proof.
  induction n as [|n IH]; [done|]. cbn [be_bytes]. rewrite Z.div_0_l, IH by done.
  by rewrite Z.mod_0_l, <- replicate_cons_app by done.
Qed.

Lemma be_bytes_mod n z : be_bytes n (z mod 256 ^ Z.of_nat n) = be_bytes n z.
Proof.
  rewrite <- be_val_bytes. rewrite <- (be_bytes_length n z) at 1.
  apply be_bytes_val, be_bytes_ok.
Qed.

(** Padding the minimal bytes of a value on the left. *)
Lemma be_bytes_pad n x :
  0 <= x < 256 ^ Z.of_nat n ->
  (length (Bytes x) <= n)%nat /\ be_bytes n x = replicate (n - length (Bytes x)) 0 ++ Bytes x.
Proof.
  intros Hx. unfold Bytes. rewrite be_bytes_length. pose proof (BitLen_nonneg x) as Hb.
  set (k := Z.to_nat ((BitLen x + 7) / 8)).
  assert (Hk : (k <= n)%nat).
  { assert (BitLen x <= 8 * Z.of_nat n).
    { apply BitLen_le; [lia|]. rewrite Z.pow_mul_r by lia. change (2 ^ 8) with 256. lia. }
    unfold k. assert ((BitLen x + 7) / 8 <= Z.of_nat n); [|lia].
    apply Z.lt_succ_r, Z.div_lt_upper_bound; lia. }
  assert (Hsmall : 0 <= x < 256 ^ Z.of_nat k).
  { split; [lia|]. unfold k. rewrite Z2Nat.id by (apply Z.div_pos; lia).
    change 256 with (2 ^ 8). rewrite <- Z.pow_mul_r by (lia || apply Z.div_pos; lia).
    pose proof (proj1 (BitLen_le x (8 * ((BitLen x + 7) / 8)) ltac:(pose proof (Z.div_pos (BitLen x + 7) 8); lia))
      ltac:(pose proof (Z.div_mod (BitLen x + 7) 8); pose proof (Z.mod_pos_bound (BitLen x + 7) 8); lia)).
    lia. }
  split; [done|]. rewrite (Z.abs_eq x) by lia.
  replace n with ((n - k) + k)%nat at 1 by lia. rewrite be_bytes_app, Z.div_small by done.
  by rewrite be_bytes_0.
Qed.

Lemma Bytes_ok x : Forall byte_ok (Bytes x).
Proof. apply be_bytes_ok. Qed.

(** The value of [b.SetBytes(x.Bytes())] *)
Lemma be_val_Bytes x : be_val (Bytes x) = Z.abs x.
Proof.
  unfold Bytes. rewrite be_val_bytes. pose proof (BitLen_nonneg x).
  rewrite Z2Nat.id by (apply Z.div_pos; lia). apply Z.mod_small. split; [lia|].
  change 256 with (2 ^ 8). rewrite <- Z.pow_mul_r by (try apply Z.div_pos; lia).
  apply BitLen_le; [|]; pose proof (Z.div_mod (BitLen x + 7) 8); 
    pose proof (Z.mod_pos_bound (BitLen x + 7) 8); lia.
Qed.

Lemma be_val_last_bytes n b :
  Forall byte_ok b -> be_val (last_bytes n b) = be_val b mod 256 ^ Z.of_nat n.
Proof.
  intros Hb. unfold last_bytes.
  replace (be_val b) with (be_val (take (length b - n) b ++ drop (length b - n) b))
    by (by rewrite take_drop).
  rewrite be_val_app.
  assert (Hd : Forall byte_ok (drop (length b - n) b)) by by apply Forall_drop.
  pose proof (be_val_range _ Hd) as Hr. rewrite length_drop in *.
  destruct (decide (n <= length b)%nat).
  - replace (length b - (length b - n))%nat with n in * by lia.
    rewrite Z.add_comm, Z.mod_add by (apply Z.pow_nonzero; lia). by rewrite Z.mod_small.
  - replace (length b - n)%nat with 0%nat in * by lia. rewrite take_0. simpl (be_val []).
    rewrite Z.mul_0_l, Z.add_0_l, Z.mod_small; [done|].
    split; [lia|]. eapply Z.lt_le_trans; [apply Hr|]. apply Z.pow_le_mono_r; lia.
Qed.

Lemma BytesToHash_Bytes x : BytesToHash (Bytes x) = Z.abs x mod 2 ^ 256.
Proof.
  unfold BytesToHash. rewrite be_val_last_bytes, be_val_Bytes by apply Bytes_ok. done.
Qed.

Lemma BytesToAddress_Bytes x : BytesToAddress (Bytes x) = Z.abs x mod 2 ^ 160.
Proof.
  unfold BytesToAddress. rewrite be_val_last_bytes, be_val_Bytes by apply Bytes_ok. done.
Qed.

Lemma Rsh_spec x n : 0 <= n -> Rsh x n = x / 2 ^ n.
Proof.
  intros Hn. unfold Rsh. destruct (BitLen x <=? n) eqn:E; breflect.
  - apply BitLen_le in E; [|done]. pose proof (Z.pow_pos_nonneg 2 n ltac:(lia) Hn).
    destruct (x <? 0) eqn:E2; breflect.
    + apply (Z.div_unique_pos x (2 ^ n) (-1) (x + 2 ^ n)); lia.
    + symmetry. apply Z.div_small. lia.
  - apply Z.shiftr_div_pow2. lia.
Qed.

Lemma Uint64_small x : is_u64 x -> Uint64 x = x.
Proof. unfold is_u64, Uint64. intros. rewrite Z.abs_eq by lia. by apply u64_small. Qed.

Lemma IsUint64_true x : IsUint64 x = true <-> is_u64 x.
Proof. unfold IsUint64, is_u64. rewrite andb_true_iff, Z.leb_le, Z.ltb_lt. done. Qed.

Lemma Uint64_range x : is_u64 (Uint64 x).
Proof. apply u64_range. Qed.

#[export] Hint Resolve BitLen_nonneg be_bytes_ok Bytes_ok Uint64_range : plg.
