(* ===== verification/Runtime.v ===== *)
(** * The runtime interface ([state/runtime/runtime.go], [crypto/crypto.go])

    What the executor, the precompiled contracts and the virtual machine share:
    contracts, execution results, errors and the [Host] interface. [Host] is a
    class over the type [W] of worlds (the state behind the Go interface value);
    a method that changes the host returns the new world. [HostLaws] states what
    the virtual machine relies on: the values a host hands out are of their Go
    types, and a nested call gives back at most the gas it was given. *)

From S2P Require Import Prelude ChainTypes BigInt.
Local Open Scope go_scope.

Record TxContext := {
  ctx_GasPrice : Hash; ctx_Origin : Address; ctx_Coinbase : Address; ctx_Number : Z;
  ctx_Timestamp : Z; ctx_GasLimit : Z; ctx_ChainID : Z; ctx_Difficulty : Hash }.

Inductive StorageStatus :=
| StorageUnchanged | StorageModified | StorageModifiedAgain | StorageAdded | StorageDeleted.

(** The errors of [runtime.go] and of [evm/state.go]; [ErrOther] stands for the
    errors created on the spot by other components. *)
Inductive VMErr :=
| ErrOutOfGas | ErrStackOverflow | ErrStackUnderflow | ErrNotEnoughFunds
| ErrInsufficientBalance | ErrRtMaxCodeSizeExceeded | ErrContractAddressCollision
| ErrDepth | ErrExecutionReverted | ErrCodeStoreOutOfGas | ErrUnauthorizedCaller
| ErrInvalidInputData | ErrNotAuth
| errGasUintOverflow | errWriteProtection | errInvalidJump | errOpCodeNotFound
| errReturnDataOutOfBounds | ErrOther (n : Z).

#[global] Instance VMErr_eq_dec : EqDecision VMErr.
Proof. solve_decision. Defined.

Record ExecutionResult := mkResult {
  ReturnValue : list Z; GasLeft : Z; GasUsed : Z; ResErr : option VMErr; ResAddress : Address }.

Definition Succeeded (r : ExecutionResult) : bool :=
  match ResErr r with None => true | Some _ => false end.
Definition Failed (r : ExecutionResult) : bool :=
  match ResErr r with None => false | Some _ => true end.
Definition Reverted (r : ExecutionResult) : bool :=
  bool_decide (ResErr r = Some ErrExecutionReverted).

(** [UpdateGasUsed]: the refund is capped at half of the gas used. *)
Definition UpdateGasUsed (gasLimit refund : Z) (r : ExecutionResult) : ExecutionResult :=
  let used := gasLimit -u GasLeft r in
  let refund := if used / 2 <? refund then used / 2 else refund in
  mkResult (ReturnValue r) (GasLeft r +u refund) (used -u refund) (ResErr r) (ResAddress r).

Inductive CallType := Call | CallCode | DelegateCall | StaticCall | Create | Create2.

Record Contract := mkContract {
  c_Code : list Z; c_Type : CallType; c_CodeAddress : Address; c_Address : Address;
  c_Origin : Address; c_Caller : Address; c_Depth : Z; c_Value : option Z;
  c_Input : list Z; c_Gas : Z; c_Static : bool }.

Definition NewContract (depth : Z) (origin from to : Address) (value : option Z) (gas : Z)
  (code : list Z) : Contract :=
  mkContract code Call to to origin from depth value [] gas false.

Definition NewContractCreation (depth : Z) (origin from to : Address) (value : option Z)
  (gas : Z) (code : list Z) : Contract := NewContract depth origin from to value gas code.

Definition NewContractCall (depth : Z) (origin from to : Address) (value : option Z) (gas : Z)
  (code input : list Z) : Contract :=
  let c := NewContract depth origin from to value gas code in
  mkContract (c_Code c) (c_Type c) (c_CodeAddress c) (c_Address c) (c_Origin c) (c_Caller c)
    (c_Depth c) (c_Value c) input (c_Gas c) (c_Static c).

Definition set_Type (t : CallType) (c : Contract) : Contract :=
  mkContract (c_Code c) t (c_CodeAddress c) (c_Address c) (c_Origin c) (c_Caller c)
    (c_Depth c) (c_Value c) (c_Input c) (c_Gas c) (c_Static c).
Definition set_Static (b : bool) (c : Contract) : Contract :=
  mkContract (c_Code c) (c_Type c) (c_CodeAddress c) (c_Address c) (c_Origin c) (c_Caller c)
    (c_Depth c) (c_Value c) (c_Input c) (c_Gas c) b.
Definition set_Address (a : Address) (c : Contract) : Contract :=
  mkContract (c_Code c) (c_Type c) (c_CodeAddress c) a (c_Origin c) (c_Caller c)
    (c_Depth c) (c_Value c) (c_Input c) (c_Gas c) (c_Static c).
Definition set_Caller_Value (a : Address) (v : option Z) (c : Contract) : Contract :=
  mkContract (c_Code c) (c_Type c) (c_CodeAddress c) (c_Address c) (c_Origin c) a
    (c_Depth c) v (c_Input c) (c_Gas c) (c_Static c).

(** The methods of [Host], except for the tracer's. [GetCode] and [GetCodeSize]
    return a world too: the host caches code. [Callx] may panic. *)
Class Host (W : Type) := {
  AccountExists : W -> Address -> bool;
  GetStorage : W -> Address -> Hash -> Hash;
  SetStorage : W -> Address -> Hash -> Hash -> ForksInTime -> StorageStatus * W;
  HSetState : W -> Address -> Hash -> Hash -> W;
  HGetBalance : W -> Address -> Z;
  GetCodeSize : W -> Address -> Z * W;
  GetCodeHash : W -> Address -> Hash;
  GetCode : W -> Address -> list Z * W;
  Selfdestruct : W -> Address -> Address -> W;
  GetTxContext : W -> TxContext;
  GetBlockHash : W -> Z -> Hash;
  EmitLog : W -> Address -> list Hash -> list Z -> W;
  Callx : W -> Contract -> option (ExecutionResult * W);
  Empty : W -> Address -> bool;
  HGetNonce : W -> Address -> Z;
  HTransfer : W -> Address -> Address -> option Z -> option VMErr * W;
  HGetRefund : W -> Z;
}.

(** [crypto.CreateAddress], [crypto.CreateAddress2] *)
Definition CreateAddress `{Codec} (addr : Address) (nonce : Z) : Address :=
  let dst := fastrlp_MarshalTo (VArray [VBytes (be_bytes 20 addr); VUint nonce]) in
  BytesToAddress (drop 12 (keccak256 dst)).

Definition CreateAddress2 `{Codec} (addr : Address) (salt : Hash) (inithash : list Z) : Address :=
  BytesToAddress (drop 12 (keccak256
    ([255] ++ be_bytes 20 addr ++ be_bytes 32 salt ++ keccak256 inithash))).

(** ** What the virtual machine relies on *)

Definition word (x : Z) : Prop := 0 <= x < 2 ^ 256.
Definition addr_ok (a : Address) : Prop := 0 <= a < 2 ^ 160.
Definition bytes_ok (l : list Z) : Prop := Forall byte_ok l.

(** Slices are far shorter than the range of [int]. *)
Definition slice_ok (l : list Z) : Prop := bytes_ok l /\ Z.of_nat (length l) < 2 ^ 62.

Lemma slice_ok_nil : slice_ok [].
Proof. split; [constructor|done]. Qed.

Record contract_ok (c : Contract) : Prop := {
  co_code : slice_ok (c_Code c);
  co_input : slice_ok (c_Input c);
  co_gas : is_u64 (c_Gas c);
  co_value : forall v, c_Value c = Some v -> word v;
  co_addr : addr_ok (c_Address c);
  co_caller : addr_ok (c_Caller c) }.

Record result_ok (c : Contract) (r : ExecutionResult) : Prop := {
  ro_ret : slice_ok (ReturnValue r);
  ro_gas : 0 <= GasLeft r <= c_Gas c }.

Record context_ok (x : TxContext) : Prop := {
  cx_price : word (ctx_GasPrice x);
  cx_origin : addr_ok (ctx_Origin x);
  cx_coinbase : addr_ok (ctx_Coinbase x);
  cx_number : 0 <= ctx_Number x < 2 ^ 63;
  cx_time : 0 <= ctx_Timestamp x < 2 ^ 63;
  cx_limit : 0 <= ctx_GasLimit x < 2 ^ 63;
  cx_diff : word (ctx_Difficulty x) }.

(** A contract whose frame must not write: it is static, and the call that
    started it neither created an account nor moved value. *)
Record read_only (c : Contract) : Prop := {
  rd_static : c_Static c = true;
  rd_create : c_Type c <> Create;
  rd_value : c_Type c = Call -> c_Value c = Some 0 }.

(** The values a host hands out are of their Go types, it stays well-formed, and
    a nested call it serves (by its depth and gas) does not panic and gives back
    at most the gas it was given. *)
Class HostLaws (W : Type) `{Host W} := {
  host_ok : W -> Prop;
  serves : Z -> Z -> Prop;
  law_serves d g g' : serves d g -> g' <= g -> serves d g';
  law_balance w a : host_ok w -> word (HGetBalance w a);
  law_storage w a k : host_ok w -> word (GetStorage w a k);
  law_set w a k v f : host_ok w -> word k -> word v -> host_ok (snd (SetStorage w a k v f));
  law_codesize w a : host_ok w -> is_u64 (fst (GetCodeSize w a)) /\ host_ok (snd (GetCodeSize w a));
  law_codehash w a : host_ok w -> word (GetCodeHash w a);
  law_code w a : host_ok w -> slice_ok (fst (GetCode w a)) /\ host_ok (snd (GetCode w a));
  law_selfdestruct w a b : host_ok w -> host_ok (Selfdestruct w a b);
  law_context w : host_ok w -> context_ok (GetTxContext w);
  law_blockhash w n : host_ok w -> word (GetBlockHash w n);
  law_log w a ts d : host_ok w -> host_ok (EmitLog w a ts d);
  law_call w c :
    host_ok w -> contract_ok c -> serves (c_Depth c) (c_Gas c) ->
    exists r w', Callx w c = Some (r, w') /\ host_ok w' /\ result_ok c r;
}.

(** A relation between worlds that looking up code and read-only calls respect. *)
Class ReadRel {W : Type} `{HostLaws W} (R : W -> W -> Prop) := {
  #[global] read_preorder :: PreOrder R;
  read_code w a : host_ok w -> R w (snd (GetCode w a));
  read_codesize w a : host_ok w -> R w (snd (GetCodeSize w a));
  read_call w c r w' :
    host_ok w -> contract_ok c -> serves (c_Depth c) (c_Gas c) -> read_only c ->
    Callx w c = Some (r, w') -> R w w';
}.

(** The gas a nested call of a frame may get: before EIP-150 the cost of a call
    can wrap around. *)
Definition call_allowance (cfg : ForksInTime) (g : Z) : Z := if EIP150 cfg then g else MaxUint64.

(** Keccak-256 yields 32 bytes. *)
Class CodecLaws `{Codec} := {
  keccak256_length b : length (keccak256 b) = 32%nat;
  keccak256_bytes b : bytes_ok (keccak256 b);
}.

Lemma keccak_word `{CodecLaws} b : word (be_val (keccak256 b)).
Proof.
  pose proof (be_val_range _ (keccak256_bytes b)) as Hr. rewrite keccak256_length in Hr.
  unfold word. by change (2 ^ 256) with (256 ^ Z.of_nat 32).
Qed.

Lemma addr_word a : addr_ok a -> word a.
Proof. unfold addr_ok, word. lia. Qed.

Lemma BytesToHash_word b : bytes_ok b -> word (BytesToHash b).
Proof.
  intros Hb. unfold BytesToHash, word. rewrite be_val_last_bytes by done.
  apply Z.mod_pos_bound. done.
Qed.

Lemma BytesToAddress_ok b : bytes_ok b -> addr_ok (BytesToAddress b).
Proof.
  intros Hb. unfold BytesToAddress, addr_ok. rewrite be_val_last_bytes by done.
  apply Z.mod_pos_bound. done.
Qed.

Lemma is_u64_word x : is_u64 x -> word x.
Proof. unfold is_u64, word, two64. lia. Qed.

#[export] Hint Resolve addr_word BytesToHash_word BytesToAddress_ok is_u64_word : plg.
