(* ===== verification/EvmState.v ===== *)
(** * The state of the virtual machine ([state/runtime/evm/state.go], [bitmap.go])

    [state] is the Go struct, with the stack as a list whose head is the top
    (the slots above [sp] hold no live value: every [push1] is followed by a
    store) and without the scratch buffer [tmp]. Code that reads and writes it
    is in the monad [M]: [None] is a Go panic (an index out of range or a nil
    dereference). Tracing is left out. *)

From S2P Require Import Prelude ChainTypes BigInt Runtime.
Local Open Scope go_scope.

(** ** [bitmap] *)

Definition JUMPDEST : Z := 91.

Definition isPushOp (i : Z) : bool := Z.shiftr i 5 =? 3.

Definition bitmap_isSet (buf : list Z) (i : Z) : option bool :=
  b ← buf !! Z.to_nat (i / 8);
  Some (negb (Z.land b (Z.shiftl 1 (i mod 8)) =? 0)).

Definition bitmap_set (buf : list Z) (i : Z) : list Z :=
  alter (fun b => Z.lor b (Z.shiftl 1 (i mod 8))) (Z.to_nat (i / 8)) buf.

(** The loop of [setCode], from index [i]; each round advances [i], so
    [length code] rounds reach the end. *)
Fixpoint setCode_loop (fuel : nat) (code : list Z) (i : Z) (buf : list Z) : list Z :=
  match fuel with
  | O => buf
  | S n =>
      match code !! Z.to_nat i with
      | None => buf
      | Some c =>
          if isPushOp c then setCode_loop n code (i + (c - 96 + 2)) buf
          else setCode_loop n code (i + 1) (if c =? JUMPDEST then bitmap_set buf i else buf)
      end
  end.

Definition setCode (code : list Z) : list Z :=
  setCode_loop (length code) code 0 (replicate (length code / 8 + 1) 0).

(** ** [state] *)

Definition stackSize : Z := 1024.

Section State.
Context {W : Type}.

Record state := mkState {
  ip : Z;
  code : list Z;
  host : W;
  msg : Contract;
  config : ForksInTime;
  memory : list Z;
  lastGasCost : Z;
  stack : list Z;
  err : option VMErr;
  stop : bool;
  gas : Z;
  currentConsumedGas : Z;
  bitmap : list Z;
  returnData : list Z;
  ret : list Z }.

Definition set_ip (x : Z) (s : state) : state :=
  mkState x (code s) (host s) (msg s) (config s) (memory s) (lastGasCost s) (stack s) (err s)
    (stop s) (gas s) (currentConsumedGas s) (bitmap s) (returnData s) (ret s).
Definition set_host (x : W) (s : state) : state :=
  mkState (ip s) (code s) x (msg s) (config s) (memory s) (lastGasCost s) (stack s) (err s)
    (stop s) (gas s) (currentConsumedGas s) (bitmap s) (returnData s) (ret s).
Definition set_memory (x : list Z) (s : state) : state :=
  mkState (ip s) (code s) (host s) (msg s) (config s) x (lastGasCost s) (stack s) (err s)
    (stop s) (gas s) (currentConsumedGas s) (bitmap s) (returnData s) (ret s).
Definition set_lastGasCost (x : Z) (s : state) : state :=
  mkState (ip s) (code s) (host s) (msg s) (config s) (memory s) x (stack s) (err s)
    (stop s) (gas s) (currentConsumedGas s) (bitmap s) (returnData s) (ret s).
Definition set_stack (x : list Z) (s : state) : state :=
  mkState (ip s) (code s) (host s) (msg s) (config s) (memory s) (lastGasCost s) x (err s)
    (stop s) (gas s) (currentConsumedGas s) (bitmap s) (returnData s) (ret s).
Definition set_err (x : option VMErr) (s : state) : state :=
  mkState (ip s) (code s) (host s) (msg s) (config s) (memory s) (lastGasCost s) (stack s) x
    (stop s) (gas s) (currentConsumedGas s) (bitmap s) (returnData s) (ret s).
Definition set_stop (x : bool) (s : state) : state :=
  mkState (ip s) (code s) (host s) (msg s) (config s) (memory s) (lastGasCost s) (stack s)
    (err s) x (gas s) (currentConsumedGas s) (bitmap s) (returnData s) (ret s).
Definition set_gas (x : Z) (s : state) : state :=
  mkState (ip s) (code s) (host s) (msg s) (config s) (memory s) (lastGasCost s) (stack s)
    (err s) (stop s) x (currentConsumedGas s) (bitmap s) (returnData s) (ret s).
Definition set_consumed (x : Z) (s : state) : state :=
  mkState (ip s) (code s) (host s) (msg s) (config s) (memory s) (lastGasCost s) (stack s)
    (err s) (stop s) (gas s) x (bitmap s) (returnData s) (ret s).
Definition set_returnData (x : list Z) (s : state) : state :=
  mkState (ip s) (code s) (host s) (msg s) (config s) (memory s) (lastGasCost s) (stack s)
    (err s) (stop s) (gas s) (currentConsumedGas s) (bitmap s) x (ret s).
Definition set_ret (x : list Z) (s : state) : state :=
  mkState (ip s) (code s) (host s) (msg s) (config s) (memory s) (lastGasCost s) (stack s)
    (err s) (stop s) (gas s) (currentConsumedGas s) (bitmap s) (returnData s) x.

(** ** The monad *)

Definition M (A : Type) : Type := state -> option (A * state).

#[global] Instance M_ret : MRet M := fun A a s => Some (a, s).
#[global] Instance M_bind : MBind M := fun A B k m s =>
  match m s with
  | Some (a, s') => k a s'
  | None => None
  end.

Definition panic {A} : M A := fun _ => None.
Definition get {A} (f : state -> A) : M A := fun s => Some (f s, s).
Definition modify (f : state -> state) : M unit := fun s => Some (tt, f s).

(** Dereferencing a pointer, or an index that must be in range. *)
Definition deref {A} (o : option A) : M A :=
  match o with Some a => mret a | None => panic end.

(** ** Methods of [state] *)

Definition Halt : M unit := modify (set_stop true).

Definition exit (e : VMErr) : M unit := modify (fun s => set_err (Some e) (set_stop true s)).

Definition validJumpdest (dest : Z) : M bool :=
  s ← get id;
  let udest := Uint64 dest in
  if (63 <=? BitLen dest) || (Z.of_nat (length (code s)) <=? udest) then mret false
  else deref (bitmap_isSet (bitmap s) udest).

(** [push1().Set(val)] *)
Definition push (val : Z) : M unit := modify (fun s => set_stack (val :: stack s) s).

Definition sp (s : state) : Z := Z.of_nat (length (stack s)).

Definition stackAtLeast (n : Z) : M bool := get (fun s => n <=? sp s).

(** [pop], [top]: [None] is a nil pointer. *)
Definition pop_ptr : M (option Z) := fun s =>
  match stack s with
  | [] => Some (None, s)
  | x :: st => Some (Some x, set_stack st s)
  end.
Definition top_ptr : M (option Z) := get (fun s => head (stack s)).

(** ... and with the dereference of the callers. *)
Definition pop : M Z := o ← pop_ptr; deref o.
Definition top : M Z := o ← top_ptr; deref o.

(** Storing through the pointer [top] returned. *)
Definition set_top (v : Z) : M unit := fun s =>
  match stack s with
  | [] => None
  | _ :: st => Some (tt, set_stack (v :: st) s)
  end.

Definition bigToHash (b : Z) : Hash := BytesToHash (Bytes b).

Definition popHash : M Hash := b ← pop; mret (bigToHash b).

Definition popAddr : M (Address * bool) :=
  o ← pop_ptr;
  match o with
  | None => mret (ZeroAddress, false)
  | Some b => mret (BytesToAddress (Bytes b), true)
  end.

Definition peekAt (n : Z) : M Z := o ← get (fun s => stack s !! Z.to_nat (n - 1)); deref o.

Definition swap (n : Z) : M unit := fun s =>
  match stack s !! 0%nat, stack s !! Z.to_nat n with
  | Some a, Some b => Some (tt, set_stack (<[0%nat := b]> (<[Z.to_nat n := a]> (stack s))) s)
  | _, _ => None
  end.

Definition consumeGas (g : Z) : M bool :=
  modify (fun s => set_consumed (currentConsumedGas s +u g) s);;
  available ← get gas;
  if available <? g then exit ErrOutOfGas;; mret false
  else modify (set_gas (available -u g));; mret true.

Definition resetReturnData : M unit := modify (set_returnData []).

Definition inStaticCall : M bool := get (fun s => c_Static (msg s)).

(** [common.ExtendByteSlice] on a slice whose spare capacity is zeroed. *)
Definition ExtendByteSlice (b : list Z) (needLength : nat) : list Z :=
  take needLength (b ++ replicate (needLength - length b) 0).

Definition memoryLimit : Z := 1099511627744.

Definition allocateMemory (offset size : Z) : M bool :=
  if negb (IsUint64 offset) || negb (IsUint64 size) then
    exit errReturnDataOutOfBounds;; mret false
  else if size =? 0 then mret true
  else
    let o := Uint64 offset in
    let s := Uint64 size in
    if (memoryLimit <? o) || (memoryLimit <? s) then
      exit errReturnDataOutOfBounds;; mret false
    else
      let newSize := o +u s in
      currentSize ← get (fun st => Z.of_nat (length (memory st)));
      if currentSize <? newSize then
        let w := (newSize +u 31) / 32 in
        let newCost := (3 *u w) +u ((w *u w) / 512) in
        lastCost ← get lastGasCost;
        let cost := newCost -u lastCost in
        modify (set_lastGasCost newCost);;
        ok ← consumeGas cost;
        if negb ok then exit ErrOutOfGas;; mret false
        else
          modify (fun st => set_memory (ExtendByteSlice (memory st) (Z.to_nat (w *u 32))) st);;
          mret true
      else mret true.

(** [c.memory[o:o+l]] read and overwritten. *)
Definition mem_slice (o l : Z) : M (list Z) :=
  m ← get memory;
  if (o <=? o +u l) && (o +u l <=? Z.of_nat (length m))
  then mret (take (Z.to_nat l) (drop (Z.to_nat o) m))
  else panic.

Definition mem_write (o : Z) (b : list Z) : M unit :=
  m ← get memory;
  if o + Z.of_nat (length b) <=? Z.of_nat (length m)
  then modify (set_memory (take (Z.to_nat o) m ++ b ++ drop (Z.to_nat o + length b) m))
  else panic.

(** [get2], appending to an empty slice. *)
Definition get2 (offset length : Z) : M (list Z * bool) :=
  if length =? 0 then mret ([], true)
  else
    ok ← allocateMemory offset length;
    if negb ok then mret ([], false)
    else b ← mem_slice (Uint64 offset) (Uint64 length); mret (b, true).

(** [None] where [CurrentOpCode] returns [(STOP, false)]. *)
Definition CurrentOpCode : M (option Z) :=
  s ← get id;
  if Z.of_nat (length (code s)) <=? ip s then mret None
  else if ip s <? 0 then panic
  else op ← deref (code s !! Z.to_nat (ip s)); mret (Some op).

End State.

Arguments state W : clear implicits.
Arguments M W A : clear implicits.
