(* ===== verification/EvmInstr.v ===== *)
(** * The instructions of the virtual machine ([evm/instructions.go])

    One definition per [op] function, in the order of the source. *)

From S2P Require Import Prelude ChainTypes BigInt Runtime EvmState.
Local Open Scope go_scope.

(** ** Words *)

Definition tt256 : Z := Z.shiftl 1 256.
Definition tt256m1 : Z := tt256 - 1.

Definition toU256 (x : Z) : Z :=
  if (x <? 0) || (256 <? BitLen x) then Z.land x tt256m1 else x.

Definition to256 (x : Z) : Z := if 255 <? BitLen x then x - tt256 else x.

Definition wordSize : Z := 32.

Definition bool_word (b : bool) : Z := if b then 1 else 0.

(** The double loop of [opExp]: the inner one over the bits of a word [d]. *)
Fixpoint exp_word (n : nat) (d z x : Z) : Z * Z :=
  match n with
  | O => (z, x)
  | S n =>
      let z := if Z.land d 1 =? 1 then toU256 (z * x) else z in
      exp_word n (Z.shiftr d 1) z (toU256 (x * x))
  end.

Definition exp_loop (x y : Z) : Z :=
  fst (fold_left (fun zx d => exp_word 64 d (fst zx) (snd zx)) (Bits y) (1, x)).

(** The loops of [opMStore] filling the 32-byte buffer [buf] downwards from
    index [i]: the bytes of the words, then zeros. *)
Fixpoint store_word (n : nat) (d : Z) (i : nat) (buf : list Z) : option (nat * list Z) :=
  match n with
  | O => Some (i, buf)
  | S n =>
      match i with
      | O => None
      | S i => store_word n (Z.shiftr d 8) i (<[i := d mod 256]> buf)
      end
  end.

Fixpoint store_words (ws : list Z) (i : nat) (buf : list Z) : option (nat * list Z) :=
  match ws with
  | [] => Some (i, buf)
  | d :: ws =>
      match store_word 8 d i buf with
      | Some (i, buf) => store_words ws i buf
      | None => None
      end
  end.

Fixpoint zero_fill (i : nat) (buf : list Z) : list Z :=
  match i with
  | O => buf
  | S i => zero_fill i (<[i := 0]> buf)
  end.

Definition store_buf (val : Z) (buf : list Z) : option (list Z) :=
  match store_words (Bits val) 32 buf with
  | Some (i, buf) => Some (zero_fill i buf)
  | None => None
  end.

(** [setBytes]: the [size] bytes it stores at the start of [dst]. *)
Definition setBytes (input : list Z) (size dataOffset : Z) : list Z :=
  if negb (IsUint64 dataOffset) then replicate (Z.to_nat size) 0
  else
    let inputSize := Z.of_nat (length input) in
    let begin := Z.min (Uint64 dataOffset) inputSize in
    let copySize := Z.min size (inputSize -u begin) in
    take (Z.to_nat copySize) (drop (Z.to_nat begin) input)
      ++ replicate (Z.to_nat (size -u copySize)) 0.

Definition equalOrOverflowsUint256 (b : Z) : bool := 8 <? BitLen b.

Definition sha3WordGas : Z := 6.
Definition copyGas : Z := 3.

(** [((size + 31) / 32) * gas] *)
Definition words_gas (size g : Z) : Z := ((size +u 31) / 32) *u g.

Definition CREATE : Z := 240.
Definition CALL : Z := 241.
Definition CALLCODE : Z := 242.
Definition RETURN : Z := 243.
Definition DELEGATECALL : Z := 244.
Definition CREATE2 : Z := 245.
Definition STATICCALL : Z := 250.
Definition REVERT : Z := 253.

Section Instr.
Context {W : Type} `{Host W} `{Codec}.

Abbreviation M := (M W).
Abbreviation instruction := (M unit).

(** ** Arithmetic, comparison and bit operations *)

Definition opAdd : instruction := a ← pop; b ← top; set_top (toU256 (a + b)).
Definition opMul : instruction := a ← pop; b ← top; set_top (toU256 (a * b)).
Definition opSub : instruction := a ← pop; b ← top; set_top (toU256 (a - b)).

Definition opDiv : instruction :=
  a ← pop; b ← top;
  if Z.sgn b =? 0 then set_top 0 else set_top (toU256 (a / b)).

Definition opSDiv : instruction :=
  a ← pop; b ← top;
  let a := to256 a in
  let b := to256 b in
  if Z.sgn b =? 0 then set_top 0
  else
    let neg := negb (Z.sgn a =? Z.sgn b) in
    let q := Z.abs a / Z.abs b in
    set_top (toU256 (if neg then - q else q)).

Definition opMod : instruction :=
  a ← pop; b ← top;
  if Z.sgn b =? 0 then set_top 0 else set_top (toU256 (a mod b)).

Definition opSMod : instruction :=
  a ← pop; b ← top;
  let a := to256 a in
  let b := to256 b in
  if Z.sgn b =? 0 then set_top 0
  else
    let neg := Z.sgn a <? 0 in
    let r := Z.abs a mod Z.abs b in
    set_top (toU256 (if neg then - r else r)).

Definition opExp : instruction :=
  x ← pop; y ← top;
  cfg ← get config;
  let g := if EIP158 cfg then 50 else 10 in
  let gasCost := ((BitLen y + 7) / 8) *u g in
  ok ← consumeGas gasCost;
  if negb ok then mret tt
  else set_top (exp_loop x y).

Definition opAddMod : instruction :=
  a ← pop; b ← pop; z ← top;
  if Z.sgn z =? 0 then set_top 0 else set_top (toU256 ((a + b) mod z)).

Definition opMulMod : instruction :=
  a ← pop; b ← pop; z ← top;
  if Z.sgn z =? 0 then set_top 0 else set_top (toU256 ((a * b) mod z)).

Definition opAnd : instruction := a ← pop; b ← top; set_top (Z.land a b).
Definition opOr : instruction := a ← pop; b ← top; set_top (Z.lor a b).
Definition opXor : instruction := a ← pop; b ← top; set_top (Z.lxor a b).

Definition opByte : instruction :=
  x ← pop; y ← top;
  let indx := Int64 x in
  if 31 <? indx then set_top 0
  else
    let sh := i64 (i64 (31 - indx) * 8) in
    set_top (Z.land (Rsh y (u64 sh)) 255).

Definition opNot : instruction := a ← top; set_top (toU256 (Z.lnot a)).

Definition opIsZero : instruction :=
  a ← top; if Z.sgn a =? 0 then set_top 1 else set_top 0.

Definition opEq : instruction := a ← pop; b ← top; set_top (bool_word (a =? b)).
Definition opLt : instruction := a ← pop; b ← top; set_top (bool_word (a <? b)).
Definition opGt : instruction := a ← pop; b ← top; set_top (bool_word (b <? a)).
Definition opSlt : instruction :=
  a ← pop; b ← top; set_top (bool_word (to256 a <? to256 b)).
Definition opSgt : instruction :=
  a ← pop; b ← top; set_top (bool_word (to256 b <? to256 a)).

Definition opSignExtension : instruction :=
  ext ← pop; x ← top_ptr;
  if wordSize <? ext then mret tt
  else match x with
  | None => mret tt
  | Some x =>
      let bit := (Uint64 ext *u 8) +u 7 in
      let mask := Z.shiftl 1 bit - 1 in
      if Z.testbit x bit then set_top (toU256 (Z.lor x (Z.lnot mask)))
      else set_top (toU256 (Z.land x mask))
  end.

Definition opShl : instruction :=
  cfg ← get config;
  if negb (Constantinople cfg) then exit errOpCodeNotFound
  else
    shift ← pop; value ← top;
    if equalOrOverflowsUint256 shift then set_top 0
    else set_top (toU256 (Z.shiftl value (Uint64 shift))).

Definition opShr : instruction :=
  cfg ← get config;
  if negb (Constantinople cfg) then exit errOpCodeNotFound
  else
    shift ← pop; value ← top;
    if equalOrOverflowsUint256 shift then set_top 0
    else set_top (toU256 (Rsh value (Uint64 shift))).

Definition opSar : instruction :=
  cfg ← get config;
  if negb (Constantinople cfg) then exit errOpCodeNotFound
  else
    shift ← pop; value ← top;
    let value := to256 value in
    if equalOrOverflowsUint256 shift then
      if 0 <=? Z.sgn value then set_top 0 else set_top tt256m1
    else set_top (toU256 (Rsh value (Uint64 shift))).

(** ** Memory *)

Definition opMload : instruction :=
  offset ← pop;
  r ← get2 offset wordSize;
  if negb (snd r) then mret tt else push (be_val (fst r)).

Definition opMStore : instruction :=
  offset ← pop; val ← pop;
  ok ← allocateMemory offset wordSize;
  if negb ok then mret tt
  else
    let o := Uint64 offset in
    buf ← mem_slice o 32;
    buf ← deref (store_buf val buf);
    mem_write o buf.

Definition opMStore8 : instruction :=
  offset ← pop; val ← pop;
  ok ← allocateMemory offset 1;
  if negb ok then mret tt
  else mem_write (Uint64 offset) [Z.land (Uint64 val) 255].

(** ** Storage *)

Definition opSload : instruction :=
  loc ← top;
  cfg ← get config;
  let g := if Istanbul cfg then 800 else if EIP150 cfg then 200 else 50 in
  ok ← consumeGas g;
  if negb ok then mret tt
  else
    s ← get id;
    set_top (GetStorage (host s) (c_Address (msg s)) (bigToHash loc)).

Definition sstore_cost (cfg : ForksInTime) (status : StorageStatus) : Z :=
  let legacyGasMetering :=
    negb (Istanbul cfg) && (Petersburg cfg || negb (Constantinople cfg)) in
  match status with
  | StorageUnchanged =>
      if Istanbul cfg then 800 else if legacyGasMetering then 5000 else 200
  | StorageModified => 5000
  | StorageModifiedAgain =>
      if Istanbul cfg then 800 else if legacyGasMetering then 5000 else 200
  | StorageAdded => 20000
  | StorageDeleted => 5000
  end.

Definition opSStore : instruction :=
  static ← inStaticCall;
  if (static : bool) then exit errWriteProtection
  else
    s ← get id;
    if Istanbul (config s) && (gas s <=? 2300) then exit ErrOutOfGas
    else
      key ← popHash; val ← popHash;
      let '(status, w) := SetStorage (host s) (c_Address (msg s)) key val (config s) in
      modify (set_host w);;
      _ ← consumeGas (sstore_cost (config s) status);
      mret tt.

Definition opSha3 : instruction :=
  offset ← pop; length ← pop;
  r ← get2 offset length;
  if negb (snd r) then mret tt
  else
    ok ← consumeGas (words_gas (Uint64 length) sha3WordGas);
    if negb ok then mret tt else push (be_val (keccak256 (fst r))).

Definition opPop : instruction := _ ← pop_ptr; mret tt.

(** ** Context *)

Definition opAddress : instruction := s ← get id; push (c_Address (msg s)).

Definition opBalance : instruction :=
  a ← popAddr;
  cfg ← get config;
  let g := if Istanbul cfg then 700 else if EIP150 cfg then 400 else 20 in
  ok ← consumeGas g;
  if negb ok then mret tt
  else w ← get host; push (HGetBalance w (fst a)).

Definition opSelfBalance : instruction :=
  s ← get id;
  if negb (Istanbul (config s)) then exit errOpCodeNotFound
  else push (HGetBalance (host s) (c_Address (msg s))).

Definition opChainID : instruction :=
  s ← get id;
  if negb (Istanbul (config s)) then exit errOpCodeNotFound
  else push (u64 (ctx_ChainID (GetTxContext (host s)))).

Definition opOrigin : instruction := w ← get host; push (ctx_Origin (GetTxContext w)).
Definition opCaller : instruction := s ← get id; push (c_Caller (msg s)).
Definition opCallValue : instruction :=
  s ← get id;
  match c_Value (msg s) with Some value => push value | None => push 0 end.

Definition opCallDataLoad : instruction :=
  offset ← top;
  s ← get id;
  set_top (be_val (setBytes (c_Input (msg s)) 32 offset)).

Definition opCallDataSize : instruction :=
  s ← get id; push (Z.of_nat (length (c_Input (msg s)))).
Definition opCodeSize : instruction := s ← get id; push (Z.of_nat (length (code s))).

(** [c.host.GetCode], [c.host.GetCodeSize] *)
Definition host_code (a : Address) : M (list Z) :=
  w ← get host; modify (set_host (snd (GetCode w a)));; mret (fst (GetCode w a)).
Definition host_codesize (a : Address) : M Z :=
  w ← get host; modify (set_host (snd (GetCodeSize w a)));; mret (fst (GetCodeSize w a)).

Definition opExtCodeSize : instruction :=
  a ← popAddr;
  cfg ← get config;
  ok ← consumeGas (if EIP150 cfg then 700 else 20);
  if negb ok then mret tt
  else
    size ← host_codesize (fst a); push (u64 size).

Definition opGasPrice : instruction := w ← get host; push (ctx_GasPrice (GetTxContext w)).

Definition opReturnDataSize : instruction :=
  s ← get id;
  if negb (Byzantium (config s)) then exit errOpCodeNotFound
  else push (Z.of_nat (length (returnData s))).

Definition opExtCodeHash : instruction :=
  cfg ← get config;
  if negb (Constantinople cfg) then exit errOpCodeNotFound
  else
    a ← popAddr;
    ok ← consumeGas (if Istanbul cfg then 700 else 400);
    if negb ok then mret tt
    else
      w ← get host;
      if Empty w (fst a) then push 0 else push (GetCodeHash w (fst a)).

Definition opPC : instruction := s ← get id; push (u64 (ip s)).
Definition opMSize : instruction := s ← get id; push (Z.of_nat (length (memory s))).
Definition opGas : instruction := s ← get id; push (gas s).

(** ** Copying to memory *)

(** The shared body of the copy instructions once the gas is paid. *)
Definition copy_to_memory (memOffset : Z) (data : list Z) (size dataOffset : Z) : instruction :=
  if size =? 0 then mret tt
  else mem_write (Uint64 memOffset) (setBytes data size dataOffset).

Definition opExtCodeCopy : instruction :=
  a ← popAddr; memOffset ← pop; codeOffset ← pop; length ← pop;
  ok ← allocateMemory memOffset length;
  if negb ok then mret tt
  else
    let size := Uint64 length in
    ok ← consumeGas (words_gas size copyGas);
    if negb ok then mret tt
    else
      cfg ← get config;
      ok ← consumeGas (if EIP150 cfg then 700 else 20);
      if negb ok then mret tt
      else
        code ← host_code (fst a);
        copy_to_memory memOffset code size codeOffset.

Definition opCallDataCopy : instruction :=
  memOffset ← pop; dataOffset ← pop; length ← pop;
  ok ← allocateMemory memOffset length;
  if negb ok then mret tt
  else
    let size := Uint64 length in
    ok ← consumeGas (words_gas size copyGas);
    if negb ok then mret tt
    else s ← get id; copy_to_memory memOffset (c_Input (msg s)) size dataOffset.

Definition opReturnDataCopy : instruction :=
  cfg ← get config;
  if negb (Byzantium cfg) then exit errOpCodeNotFound
  else
    memOffset ← pop; dataOffset ← pop; len ← pop;
    if negb (IsUint64 dataOffset) then exit errReturnDataOutOfBounds
    else if Z.sgn len =? 0 then mret tt
    else
      ok ← allocateMemory memOffset len;
      if negb ok then mret tt
      else
        let ulength := Uint64 len in
        ok ← consumeGas (words_gas ulength copyGas);
        if negb ok then mret tt
        else
          let dataEnd := dataOffset + len in
          if negb (IsUint64 dataEnd) then exit errReturnDataOutOfBounds
          else
            rd ← get returnData;
            if Z.of_nat (length rd) <? Uint64 dataEnd then exit errReturnDataOutOfBounds
            else
              let data := take (Z.to_nat (Uint64 dataEnd - Uint64 dataOffset))
                            (drop (Z.to_nat (Uint64 dataOffset)) rd) in
              mem_write (Uint64 memOffset) data.

Definition opCodeCopy : instruction :=
  memOffset ← pop; dataOffset ← pop; length ← pop;
  ok ← allocateMemory memOffset length;
  if negb ok then mret tt
  else
    let size := Uint64 length in
    ok ← consumeGas (words_gas size copyGas);
    if negb ok then mret tt
    else s ← get id; copy_to_memory memOffset (code s) size dataOffset.

(** ** Block information *)

Definition opBlockHash : instruction :=
  num ← top;
  if negb (IsInt64 num) then set_top 0
  else
    let n := Int64 num in
    w ← get host;
    let lastBlock := ctx_Number (GetTxContext w) in
    if (i64 (lastBlock - 257) <? n) && (n <? lastBlock) then set_top (GetBlockHash w n)
    else set_top 0.

Definition opCoinbase : instruction := w ← get host; push (ctx_Coinbase (GetTxContext w)).
Definition opTimestamp : instruction := w ← get host; push (ctx_Timestamp (GetTxContext w)).
Definition opNumber : instruction := w ← get host; push (ctx_Number (GetTxContext w)).
Definition opDifficulty : instruction := w ← get host; push (ctx_Difficulty (GetTxContext w)).
Definition opGasLimit : instruction := w ← get host; push (ctx_GasLimit (GetTxContext w)).

(** ** Control *)

Definition opSelfDestruct : instruction :=
  static ← inStaticCall;
  if (static : bool) then exit errWriteProtection
  else
    a ← popAddr;
    s ← get id;
    let cfg := config s in
    let g :=
      if EIP150 cfg then
        if EIP158 cfg then
          if Empty (host s) (fst a) && negb (Z.sgn (HGetBalance (host s) (c_Address (msg s))) =? 0)
          then 30000 else 5000
        else if negb (AccountExists (host s) (fst a)) then 30000 else 5000
      else 0 in
    ok ← consumeGas g;
    if negb ok then mret tt
    else modify (fun s => set_host (Selfdestruct (host s) (c_Address (msg s)) (fst a)) s);; Halt.

Definition jump_to (dest : Z) : instruction :=
  valid ← validJumpdest dest;
  if (valid : bool) then modify (set_ip (i64 (Uint64 dest -u 1)))
  else exit errInvalidJump.

Definition opJump : instruction := dest ← pop; jump_to dest.

Definition opJumpi : instruction :=
  dest ← pop; cond ← pop;
  if negb (Z.sgn cond =? 0) then jump_to dest else mret tt.

Definition opJumpDest : instruction := mret tt.

Definition opPush (n : Z) : instruction :=
  s ← get id;
  let ins := drop (Z.to_nat (ip s + 1)) (code s) in
  push (if Z.of_nat (length (code s)) <? ip s + 1 + n
        then be_val (ins ++ replicate (Z.to_nat n) 0)
        else be_val (take (Z.to_nat n) ins));;
  modify (fun s => set_ip (ip s + n) s).

Definition opDup (n : Z) : instruction :=
  ok ← stackAtLeast n;
  if negb ok then exit ErrStackUnderflow
  else val ← peekAt n; push val.

Definition opSwap (n : Z) : instruction :=
  ok ← stackAtLeast (n + 1);
  if negb ok then exit ErrStackUnderflow else swap n.

(** The topics of [opLog], popped in order. *)
Fixpoint pop_topics (n : nat) : M (list Hash) :=
  match n with
  | O => mret []
  | S n => b ← pop; ts ← pop_topics n; mret (bigToHash b :: ts)
  end.

(** [opLog(size)]; the factory is called with one more than the topic count. *)
Definition opLog (n : Z) : instruction :=
  let size := n - 1 in
  static ← inStaticCall;
  if (static : bool) then exit errWriteProtection
  else
    ok ← stackAtLeast (2 + size);
    if negb ok then exit ErrStackUnderflow
    else
      mStart ← pop; mSize ← pop;
      topics ← pop_topics (Z.to_nat size);
      r ← get2 mStart mSize;
      if negb (snd r) then mret tt
      else
        modify (fun s => set_host (EmitLog (host s) (c_Address (msg s)) topics (fst r)) s);;
        ok ← consumeGas (size *u 375);
        if negb ok then mret tt
        else _ ← consumeGas (Uint64 mSize *u 8); mret tt.

Definition opStop : instruction := Halt.

(** ** Creating and calling contracts *)

(** The results of [buildCreateContract] and [buildCallContract]: a contract,
    no contract and no error (the frame has failed), or the error ["bad"] with
    the contract built so far. *)
Inductive built :=
| Built (c : Contract) (offset size : Z)
| NotBuilt
| Bad (c : option Contract).

Definition buildCreateContract (op : Z) : M built :=
  value ← pop; offset ← pop; length ← pop;
  salt ← (if op =? CREATE2 then pop else mret 0);
  let hasTransfer := negb (Z.sgn value =? 0) in
  r ← get2 offset length;
  if negb (snd r) then mret NotBuilt
  else
    let input := fst r in
    ok ← consumeGas 0;
    if negb ok then mret NotBuilt
    else
      s ← get id;
      if hasTransfer && (HGetBalance (host s) (c_Address (msg s)) <? value) then mret (Bad None)
      else
        ok ← (if op =? CREATE2 then consumeGas (words_gas (Uint64 length) sha3WordGas)
              else mret true);
        if negb ok then mret NotBuilt
        else
          s ← get id;
          let g := if EIP150 (config s) || (op =? CREATE2) then gas s -u (gas s / 64) else gas s in
          ok ← consumeGas g;
          if negb ok then mret NotBuilt
          else
            let address :=
              if op =? CREATE then
                CreateAddress (c_Address (msg s)) (HGetNonce (host s) (c_Address (msg s)))
              else CreateAddress2 (c_Address (msg s)) (bigToHash salt) input in
            mret (Built (NewContractCreation (c_Depth (msg s) + 1) (c_Origin (msg s))
                           (c_Address (msg s)) address (Some value) g input) 0 0).

(** [c.host.Callx(contract, c.host)] *)
Definition callx (c : Contract) : M ExecutionResult :=
  w ← get host;
  rw ← deref (Callx w c);
  modify (set_host (snd rw));; mret (fst rw).

Definition add_gas (g : Z) : instruction := modify (fun s => set_gas (gas s +u g) s).

(** The failure branch shared by [opCreate] and [opCall]. *)
Definition push_bad (c : option Contract) : instruction :=
  push 0;;
  match c with Some c => add_gas (c_Gas c) | None => mret tt end.

Definition opCreate (op : Z) : instruction :=
  static ← inStaticCall;
  if (static : bool) then exit errWriteProtection
  else
    cfg ← get config;
    if (op =? CREATE2) && negb (Constantinople cfg) then exit errOpCodeNotFound
    else
      resetReturnData;;
      b ← buildCreateContract op;
      match b with
      | Bad c => push_bad c
      | NotBuilt => mret tt
      | Built contract _ _ =>
          let contract := set_Type Create contract in
          result ← callx contract;
          push (if (op =? CREATE) && Homestead cfg
                   && bool_decide (ResErr result = Some ErrCodeStoreOutOfGas) then 0
                else if Failed result && negb (bool_decide (ResErr result = Some ErrCodeStoreOutOfGas))
                then 0 else c_Address contract);;
          add_gas (GasLeft result);;
          if Reverted result then modify (set_returnData (ReturnValue result)) else mret tt
      end.

(** The pieces of [buildCallContract]: the cost of the call itself, ... *)
Definition call_cost (op : Z) (s : state W) (addr : Address) (transfersValue : bool) : Z :=
  let gasCost := if EIP150 (config s) then 700 else 40 in
  let gasCost :=
    if op =? CALL then
      if EIP158 (config s) then
        if transfersValue && Empty (host s) addr then gasCost +u 25000 else gasCost
      else if negb (AccountExists (host s) addr) then gasCost +u 25000 else gasCost
    else gasCost in
  if transfersValue then gasCost +u 9000 else gasCost.

(** ... the gas passed on, ... *)
Definition call_gas (s : state W) (gasCost initialGas : Z) : Z :=
  if EIP150 (config s) then
    let availableGas := gas s -u gasCost in
    let availableGas := availableGas -u (availableGas / 64) in
    if negb (IsUint64 initialGas) || (availableGas <? Uint64 initialGas) then availableGas
    else Uint64 initialGas
  else Uint64 initialGas.

(** ... and the contract called. *)
Definition call_contract (op : Z) (s : state W) (addr : Address) (value : option Z) (g : Z)
  (callee args : list Z) : Contract :=
  let parent := msg s in
  let contract := NewContractCall (c_Depth parent + 1) (c_Origin parent) (c_Address parent)
                    addr value g callee args in
  let contract := if (op =? STATICCALL) || c_Static parent
                  then set_Static true contract else contract in
  let contract := if (op =? CALLCODE) || (op =? DELEGATECALL)
                  then set_Address (c_Address parent) contract else contract in
  if op =? DELEGATECALL
  then set_Caller_Value (c_Caller parent) (c_Value parent) contract else contract.

Definition buildCallContract (op : Z) : M built :=
  initialGas ← pop;
  a ← popAddr;
  let addr := fst a in
  value ← (if (op =? CALL) || (op =? CALLCODE) then v ← pop; mret (Some v) else mret None);
  inOffset ← pop; inSize ← pop; retOffset ← pop; retSize ← pop;
  args ← get2 inOffset inSize;
  if negb (snd args) then mret NotBuilt
  else
    ok ← allocateMemory retOffset retSize;
    if negb ok then mret NotBuilt
    else
      s ← get id;
      let transfersValue := match value with Some v => negb (Z.sgn v =? 0) | None => false end in
      let gasCost := call_cost op s addr transfersValue in
      if negb (EIP150 (config s)) && negb (IsUint64 initialGas)
      then exit ErrOutOfGas;; mret NotBuilt
      else
        let g := call_gas s gasCost initialGas in
        ok ← consumeGas (gasCost +u g);
        if negb ok then mret NotBuilt
        else
          let g := if transfersValue then g +u 2300 else g in
          callee ← host_code addr;
          w ← get host;
          let contract := call_contract op s addr value g callee (fst args) in
          if transfersValue && (HGetBalance w (c_Address (msg s)) <? default 0 value)
          then mret (Bad (Some contract))
          else mret (Built contract (Uint64 retOffset) (Uint64 retSize)).

(** [callType] of [opCall] *)
Definition callType (op : Z) : option CallType :=
  if op =? CALL then Some Call else if op =? CALLCODE then Some CallCode
  else if op =? DELEGATECALL then Some DelegateCall
  else if op =? STATICCALL then Some StaticCall else None.

Definition opCall (op : Z) : instruction :=
  resetReturnData;;
  s ← get id;
  (* peekAt(3) is evaluated only behind the first two conditions *)
  writes ← (if (op =? CALL) && c_Static (msg s) then v ← peekAt 3; mret (0 <? BitLen v)
            else mret false);
  if (writes : bool) then exit errWriteProtection
  else if (op =? DELEGATECALL) && negb (Homestead (config s)) then exit errOpCodeNotFound
  else if (op =? STATICCALL) && negb (Byzantium (config s)) then exit errOpCodeNotFound
  else
    ct ← deref (callType op);
    b ← buildCallContract op;
    match b with
    | Bad c => push_bad c
    | NotBuilt => mret tt
    | Built contract offset size =>
        result ← callx (set_Type ct contract);
        push (bool_word (Succeeded result));;
        (if (Succeeded result || Reverted result)
            && ((0 <? length (ReturnValue result))%nat && (0 <? size))
         then (* copy to memory[offset:offset+size] *)
           dst ← mem_slice offset size;
           mem_write offset (take (length dst) (ReturnValue result))
         else mret tt);;
        add_gas (GasLeft result);;
        modify (set_returnData (ReturnValue result))
    end.

Definition opHalt (op : Z) : instruction :=
  cfg ← get config;
  if (op =? REVERT) && negb (Byzantium cfg) then exit errOpCodeNotFound
  else
    offset ← pop; size ← pop;
    r ← get2 offset size;
    modify (set_ret (fst r));;
    if negb (snd r) then mret tt
    else if op =? REVERT then exit ErrExecutionReverted else Halt.

End Instr.
