(* ===== verification/EvmRun.v ===== *)
(** * The interpreter loop ([evm/dispatch_table.go], [evm/state.go], [evm/evm.go]) *)

From S2P Require Import Prelude ChainTypes BigInt Runtime EvmState EvmInstr.
Local Open Scope go_scope.

Section Run.
Context {W : Type} `{Host W} `{Codec}.

Record handler := mkHandler { inst : M W unit; h_stack : Z; h_gas : Z }.

(** [registerRange]: the instructions [from .. to], the factory called with
    [1, 2, ...]. *)
Definition registerRange (from to : Z) (factory : Z -> M W unit) (g : Z) : list (Z * handler) :=
  (fun c => (from + c - 1, mkHandler (factory c) 0 g)) <$> seqZ 1 (to - from + 1).

(** The [register] calls of [init], in order. *)
Definition registrations : list (Z * handler) :=
  [(0, mkHandler opStop 0 0);
   (1, mkHandler opAdd 2 3);
   (3, mkHandler opSub 2 3);
   (2, mkHandler opMul 2 5);
   (4, mkHandler opDiv 2 5);
   (5, mkHandler opSDiv 2 5);
   (6, mkHandler opMod 2 5);
   (7, mkHandler opSMod 2 5);
   (10, mkHandler opExp 2 10)]
  ++ registerRange 96 127 opPush 3
  ++ registerRange 128 143 opDup 3
  ++ registerRange 144 159 opSwap 3
  ++ registerRange 160 164 opLog 375
  ++ [(8, mkHandler opAddMod 3 8);
   (9, mkHandler opMulMod 3 8);
   (22, mkHandler opAnd 2 3);
   (23, mkHandler opOr 2 3);
   (24, mkHandler opXor 2 3);
   (26, mkHandler opByte 2 3);
   (25, mkHandler opNot 1 3);
   (21, mkHandler opIsZero 1 3);
   (20, mkHandler opEq 2 3);
   (16, mkHandler opLt 2 3);
   (17, mkHandler opGt 2 3);
   (18, mkHandler opSlt 2 3);
   (19, mkHandler opSgt 2 3);
   (11, mkHandler opSignExtension 1 5);
   (27, mkHandler opShl 2 3);
   (28, mkHandler opShr 2 3);
   (29, mkHandler opSar 2 3);
   (CREATE, mkHandler (opCreate CREATE) 3 32000);
   (CREATE2, mkHandler (opCreate CREATE2) 4 32000);
   (CALL, mkHandler (opCall CALL) 7 0);
   (CALLCODE, mkHandler (opCall CALLCODE) 7 0);
   (DELEGATECALL, mkHandler (opCall DELEGATECALL) 6 0);
   (STATICCALL, mkHandler (opCall STATICCALL) 6 0);
   (REVERT, mkHandler (opHalt REVERT) 2 0);
   (RETURN, mkHandler (opHalt RETURN) 2 0);
   (81, mkHandler opMload 1 3);
   (82, mkHandler opMStore 2 3);
   (83, mkHandler opMStore8 2 3);
   (84, mkHandler opSload 1 0);
   (85, mkHandler opSStore 2 0);
   (32, mkHandler opSha3 2 30);
   (80, mkHandler opPop 1 2);
   (63, mkHandler opExtCodeHash 1 0);
   (48, mkHandler opAddress 0 2);
   (49, mkHandler opBalance 1 0);
   (71, mkHandler opSelfBalance 0 5);
   (50, mkHandler opOrigin 0 2);
   (51, mkHandler opCaller 0 2);
   (52, mkHandler opCallValue 0 2);
   (53, mkHandler opCallDataLoad 1 3);
   (54, mkHandler opCallDataSize 0 2);
   (56, mkHandler opCodeSize 0 2);
   (59, mkHandler opExtCodeSize 1 0);
   (58, mkHandler opGasPrice 0 2);
   (61, mkHandler opReturnDataSize 0 2);
   (70, mkHandler opChainID 0 2);
   (88, mkHandler opPC 0 2);
   (89, mkHandler opMSize 0 2);
   (90, mkHandler opGas 0 2);
   (60, mkHandler opExtCodeCopy 4 0);
   (55, mkHandler opCallDataCopy 3 3);
   (62, mkHandler opReturnDataCopy 3 3);
   (57, mkHandler opCodeCopy 3 3);
   (64, mkHandler opBlockHash 1 20);
   (65, mkHandler opCoinbase 0 2);
   (66, mkHandler opTimestamp 0 2);
   (67, mkHandler opNumber 0 2);
   (68, mkHandler opDifficulty 0 2);
   (69, mkHandler opGasLimit 0 2);
   (255, mkHandler opSelfDestruct 1 0);
   (86, mkHandler opJump 1 8);
   (87, mkHandler opJumpi 2 10);
   (JUMPDEST, mkHandler opJumpDest 0 1)].

(** [register]: a second registration of an opcode panics. *)
Definition register (t : option (gmap Z handler)) (r : Z * handler) : option (gmap Z handler) :=
  t ← t;
  match t !! fst r with
  | Some _ => None
  | None => Some (<[fst r := snd r]> t)
  end.

Definition init : option (gmap Z handler) := fold_left register registrations (Some ∅).

Definition dispatchTable (op : Z) : option handler :=
  snd <$> find (fun r => fst r =? op) registrations.

(** One round of the loop of [Run]. *)
Definition run_step : M W unit :=
  oop ← CurrentOpCode;
  match oop with
  | None => Halt
  | Some op =>
      match dispatchTable op with
      | None => exit errOpCodeNotFound
      | Some h =>
          depth ← get sp;
          if depth <? h_stack h then exit ErrStackUnderflow
          else
            ok ← consumeGas (h_gas h);
            if negb ok then exit ErrOutOfGas
            else
              inst h;;
              depth ← get sp;
              if stackSize <? depth then exit ErrStackOverflow
              else modify (fun s => set_ip (ip s + 1) s)
      end
  end.

(** [state.Run]: [None] is a panic. *)
Definition state_Run (fuel : positive) (s : state W) : option (state W) :=
  loop_until (fun o => match o with Some s => stop s | None => true end)
    (fun o => match o with Some s => snd <$> run_step s | None => None end) fuel (Some s).

(** The state [EVM.Run] sets up: a clean one from the pool. *)
Definition run_init (c : Contract) (w : W) (cfg : ForksInTime) : state W :=
  mkState 0 (c_Code c) w c cfg [] 0 [] None false (c_Gas c) 0 (setCode (c_Code c)) [] [].

(** [EVM.Run]: [None] is a panic or a loop longer than the fuel; every round
    that does not stop the loop costs gas, so [c_Gas c + 1] rounds suffice. *)
Definition EVM_Run (c : Contract) (w : W) (cfg : ForksInTime) : option (ExecutionResult * W) :=
  match state_Run (Z.to_pos (c_Gas c + 1)) (run_init c w cfg) with
  | Some s =>
      if stop s then
        let failed := match err s with
                      | Some e => negb (bool_decide (e = ErrExecutionReverted))
                      | None => false
                      end in
        let gasLeft := if failed then 0 else gas s in
        Some (mkResult (ret s) gasLeft (c_Gas c -u gasLeft) (err s) ZeroAddress, host s)
      else None
  | None => None
  end.

End Run.

Arguments handler W : clear implicits.
