(* ===== verification/EvmWord.v ===== *)
(** * Lemmas on words and buffers of the virtual machine

    The pure parts of the instructions against reference definitions: reduction
    to 256 bits, two's complement, square-and-multiply exponentiation, the
    byte-wise store of a word, and the copy with zero padding. *)

From S2P Require Import Prelude ChainTypes BigInt Runtime EvmState EvmInstr.
Local Open Scope go_scope.

Lemma tt256_eq : tt256 = 2 ^ 256.
Proof. done. Qed.

Lemma toU256_spec x : toU256 x = x mod 2 ^ 256.
Proof.
  unfold toU256. destruct ((x <? 0) || (256 <? BitLen x)) eqn:E.
  - change tt256m1 with (Z.ones 256). apply Z.land_ones. done.
  - breflect. apply (BitLen_le x 256) in H0; [|done].
    symmetry. apply Z.mod_small. lia.
Qed.

Lemma toU256_word x : word (toU256 x).
Proof. rewrite toU256_spec. apply Z.mod_pos_bound. done. Qed.

(** The two's complement reading of a word. *)
Definition signed (x : Z) : Z := if x <? 2 ^ 255 then x else x - 2 ^ 256.

Lemma to256_spec x : word x -> to256 x = signed x.
Proof.
  unfold word, to256, signed. intros Hx. rewrite tt256_eq. 
  pose proof (BitLen_lt x 255 ltac:(lia)) as Hb. rewrite Z.abs_eq in Hb by lia.
  destruct (255 <? BitLen x) eqn:E, (x <? 2 ^ 255) eqn:E2; breflect; try done; lia.
Qed.

Lemma signed_range x : word x -> - 2 ^ 255 <= signed x < 2 ^ 255.
Proof. unfold word, signed. intros Hx. case_bool; breflect; lia. Qed.

Lemma signed_mod x : word x -> signed x mod 2 ^ 256 = x.
Proof.
  unfold word, signed. intros Hx. case_bool; breflect; [by apply Z.mod_small|].
  rewrite <- (Z.mod_add _ 1) by lia. rewrite Z.mod_small; lia.
Qed.

Lemma land_word a b : word a -> word b -> word (Z.land a b).
Proof.
  unfold word. intros Ha Hb. split; [apply Z.land_nonneg; lia|].
  destruct (decide (Z.land a b = 0)) as [->|Hn]; [lia|].
  pose proof (proj2 (Z.land_nonneg a b) (or_introl (proj1 Ha))).
  apply Z.log2_lt_pow2; [lia|].
  pose proof (Z.log2_land a b (proj1 Ha) (proj1 Hb)).
  destruct (decide (a = 0)) as [->|]; [by rewrite Z.land_0_l in Hn|].
  pose proof (proj1 (Z.log2_lt_pow2 a 256 ltac:(lia)) (proj2 Ha)). lia.
Qed.

Lemma log2_word a : word a -> Z.log2 a < 256.
Proof.
  unfold word. intros Ha. destruct (decide (a = 0)) as [->|]; [done|].
  apply Z.log2_lt_pow2; lia.
Qed.

Lemma lor_word a b : word a -> word b -> word (Z.lor a b).
Proof.
  intros Ha Hb. pose proof (log2_word a Ha). pose proof (log2_word b Hb). unfold word in *.
  assert (0 <= Z.lor a b) by (apply Z.lor_nonneg; lia). split; [done|].
  destruct (decide (Z.lor a b = 0)) as [->|]; [lia|].
  apply Z.log2_lt_pow2; [lia|]. rewrite Z.log2_lor by lia. lia.
Qed.

Lemma lxor_word a b : word a -> word b -> word (Z.lxor a b).
Proof.
  intros Ha Hb. pose proof (log2_word a Ha). pose proof (log2_word b Hb). unfold word in *.
  assert (0 <= Z.lxor a b) by (apply Z.lxor_nonneg; lia). split; [done|].
  destruct (decide (Z.lxor a b = 0)) as [->|]; [lia|].
  apply Z.log2_lt_pow2; [lia|]. pose proof (Z.log2_lxor a b ltac:(lia) ltac:(lia)). lia.
Qed.

Lemma small_word x : 0 <= x < 256 -> word x.
Proof. unfold word. lia. Qed.

Lemma word_0 : word 0.
Proof. by apply small_word. Qed.

Lemma word_1 : word 1.
Proof. by apply small_word. Qed.

Lemma bool_word_word b : word (bool_word b).
Proof. destruct b; by apply small_word. Qed.

Lemma land_255 x : Z.land x 255 = x mod 256.
Proof. change 255 with (Z.ones 8). apply Z.land_ones. done. Qed.

Lemma land_255_word x : word (Z.land x 255).
Proof. rewrite land_255. apply small_word, Z.mod_pos_bound. lia. Qed.

#[export] Hint Resolve toU256_word land_word lor_word lxor_word bool_word_word land_255_word
  word_0 word_1 : plg.

(** ** Congruence modulo 2^256 *)

Definition eqm (a b : Z) : Prop := a mod 2 ^ 256 = b mod 2 ^ 256.
Infix "==w" := eqm (at level 70) : go_scope.

#[global] Instance eqm_equiv : Equivalence eqm.
Proof. unfold eqm. split; [by intros ?|by intros ?|]. intros x y z ? ?. congruence. Qed.

#[global] Instance eqm_mul : Proper (eqm ==> eqm ==> eqm) Z.mul.
Proof.
  unfold eqm. intros a a' Ha b b' Hb. by rewrite Z.mul_mod, Ha, Hb, <- Z.mul_mod by lia.
Qed.

Lemma eqm_pow x x' k : 0 <= k -> x ==w x' -> x ^ k ==w x' ^ k.
Proof.
  intros Hk Hx. revert k Hk. apply natlike_ind; [done|]. intros k Hk IH.
  rewrite !Z.pow_succ_r by done. by rewrite IH, Hx.
Qed.

Lemma toU256_eqm x : toU256 x ==w x.
Proof. unfold eqm. rewrite toU256_spec, Z.mod_mod; lia. Qed.

Lemma eqm_word x y : word x -> x ==w y -> x = y mod 2 ^ 256.
Proof. unfold eqm, word. intros Hx <-. symmetry. by apply Z.mod_small. Qed.

(** ** [opExp] *)

(** [n] rounds multiply [z] by the power of [x] to the low [n] bits of [d]. *)
Lemma exp_word_spec n d z x z' x' :
  0 <= d -> word z -> word x -> exp_word n d z x = (z', x') ->
  word z' /\ word x' /\ z' ==w z * x ^ (d mod 2 ^ Z.of_nat n) /\ x' ==w x ^ (2 ^ Z.of_nat n).
Proof.
  revert d z x. induction n as [|n IH]; intros d z x Hd Hz Hx; cbn [exp_word].
  - intros [= <- <-]. split_and!; [done|done| |].
    + change (2 ^ Z.of_nat 0) with 1. by rewrite Z.mod_1_r, Z.pow_0_r, Z.mul_1_r.
    + change (2 ^ Z.of_nat 0) with 1. by rewrite Z.pow_1_r.
  - change (Z.land d 1) with (Z.land d (Z.ones 1)).
    rewrite Z.land_ones, Z.shiftr_div_pow2, Z.pow_1_r by lia. intros Hw.
    assert (Hm : d mod 2 ^ Z.of_nat (S n) = d mod 2 + 2 * ((d / 2) mod 2 ^ Z.of_nat n)).
    { rewrite Nat2Z.inj_succ, Z.pow_succ_r by lia. apply Z.rem_mul_r; lia. }
    pose proof (Z.mod_pos_bound (d / 2) (2 ^ Z.of_nat n) ltac:(lia)) as Hb.
    apply IH in Hw as (Hz' & Hx' & Ez & Ex); [|by apply Z.div_pos|case_bool; auto with plg|auto with plg].
    split_and!; [done|done| |].
    + rewrite Ez, Hm, Z.pow_add_r, Z.pow_mul_r by (try apply Z.mod_pos_bound; lia).
      rewrite (eqm_pow (toU256 (x * x)) (x ^ 2));
        [|lia|rewrite toU256_eqm; by replace (x ^ 2) with (x * x) by lia].
      destruct (d mod 2 =? 1) eqn:E; breflect.
      * rewrite E, Z.pow_1_r, toU256_eqm. by rewrite Z.mul_assoc.
      * replace (d mod 2) with 0 by (pose proof (Z.mod_pos_bound d 2); lia).
        by rewrite Z.pow_0_r, Z.mul_1_l.
    + rewrite Ex, Nat2Z.inj_succ, Z.pow_succ_r, Z.pow_mul_r by lia.
      apply eqm_pow; [lia|]. rewrite toU256_eqm. by replace (x ^ 2) with (x * x) by lia.
Qed.

(** The value of little-endian words in base [b]. *)
Definition le_val (b : Z) (ws : list Z) : Z := foldr (fun d acc => d + b * acc) 0 ws.

Lemma le_val_nonneg b ws : Forall (fun d => 0 <= d < b) ws -> 0 <= le_val b ws.
Proof. induction 1; simpl; nia. Qed.

Lemma exp_words_spec n ws z x :
  Forall (fun d => 0 <= d < 2 ^ Z.of_nat n) ws -> word z -> word x ->
  let r := fold_left (fun zx d => exp_word n d (fst zx) (snd zx)) ws (z, x) in
  word (fst r) /\ fst r ==w z * x ^ le_val (2 ^ Z.of_nat n) ws.
Proof.
  intros Hws. revert z x. induction Hws as [|d ws Hd Hws IH]; intros z x Hz Hx.
  - simpl. split; [done|]. by rewrite Z.mul_1_r.
  - cbn [fold_left fst snd]. destruct (exp_word n d z x) as [z1 x1] eqn:E.
    apply exp_word_spec in E as (Hz1 & Hx1 & Ez & Ex); [|lia|done|done].
    destruct (IH z1 x1 Hz1 Hx1) as [Hw Hr]. split; [done|]. rewrite Hr, Ez.
    pose proof (le_val_nonneg _ ws Hws) as Hle.
    rewrite (eqm_pow _ _ _ Hle Ex), Z.mod_small by done.
    change (le_val (2 ^ Z.of_nat n) (d :: ws))
      with (d + 2 ^ Z.of_nat n * le_val (2 ^ Z.of_nat n) ws).
    rewrite Z.pow_add_r, (Z.pow_mul_r x) by lia. by rewrite Z.mul_assoc.
Qed.

Lemma le_val_seq v n k :
  0 <= v -> 0 <= k ->
  le_val two64 ((fun i => u64 (Z.shiftr v (64 * i))) <$> seqZ k (Z.of_nat n)) =
    Z.shiftr v (64 * k) mod two64 ^ Z.of_nat n.
Proof.
  intros Hv. revert k. induction n as [|n IH]; intros k Hk.
  - simpl. by rewrite Z.mod_1_r.
  - rewrite seqZ_cons by lia. cbn [fmap list_fmap le_val foldr].
    replace (Z.pred (Z.of_nat (S n))) with (Z.of_nat n) by lia.
    change (foldr _ 0 ?l) with (le_val two64 l). rewrite IH by lia.
    rewrite Nat2Z.inj_succ, Z.pow_succ_r by lia.
    rewrite Z.rem_mul_r by (unfold two64; lia). unfold u64. do 3 f_equal.
    rewrite !Z.shiftr_div_pow2 by lia. unfold two64.
    change 18446744073709551616 with (2 ^ 64). rewrite Z.div_div, <- Z.pow_add_r by lia.
    do 2 f_equal. lia.
Qed.

Lemma Bits_val y : le_val two64 (Bits y) = Z.abs y.
Proof.
  unfold Bits. pose proof (BitLen_nonneg y) as Hb.
  assert (Hn : 0 <= (BitLen y + 63) / 64) by (apply Z.div_pos; lia).
  rewrite <- (Z2Nat.id _ Hn), le_val_seq, Z2Nat.id by lia.
  rewrite Z.mul_0_r, Z.shiftr_0_r. apply Z.mod_small. split; [lia|].
  change two64 with (2 ^ 64). rewrite <- Z.pow_mul_r by lia.
  apply BitLen_le; pose proof (Z.div_mod (BitLen y + 63) 64);
    pose proof (Z.mod_pos_bound (BitLen y + 63) 64); lia.
Qed.

Lemma Bits_u64 y : Forall is_u64 (Bits y).
Proof. apply Forall_fmap, Forall_forall. intros i _. apply u64_range. Qed.

Lemma exp_loop_spec x y : word x -> 0 <= y -> exp_loop x y = x ^ y mod 2 ^ 256.
Proof.
  intros Hx Hy. unfold exp_loop.
  destruct (exp_words_spec 64 (Bits y) 1 x (Bits_u64 y) ltac:(by apply small_word) Hx) as [Hw Hr].
  change (2 ^ Z.of_nat 64) with two64 in Hr. rewrite Bits_val, Z.mul_1_l, Z.abs_eq in Hr by done. by apply eqm_word.
Qed.

(** ** [opMStore] *)

Lemma store_word_spec n d k buf :
  (n + k <= length buf)%nat ->
  store_word n d (n + k) buf = Some (k, take k buf ++ be_bytes n d ++ drop (n + k) buf).
Proof.
  revert d buf. induction n as [|n IH]; intros d buf Hlen.
  - simpl. by rewrite take_drop.
  - cbn [store_word Nat.add]. rewrite IH by (rewrite length_insert; lia).
    rewrite take_insert_ge by lia. cbn [be_bytes]. rewrite Z.shiftr_div_pow2 by lia.
    change (2 ^ 8) with 256.
    rewrite (drop_S _ (d mod 256)) by (apply list_lookup_insert_eq; lia).
    rewrite drop_insert_lt by lia. by rewrite <- !app_assoc.
Qed.

Lemma store_words_spec ws k buf :
  (8 * length ws + k <= length buf)%nat -> Forall is_u64 ws ->
  store_words ws (8 * length ws + k) buf =
    Some (k, take k buf ++ be_bytes (8 * length ws) (le_val two64 ws)
               ++ drop (8 * length ws + k) buf).
Proof.
  intros Hlen Hws. revert buf Hlen. induction Hws as [|d ws Hd Hws IH]; intros buf Hlen.
  - simpl. by rewrite take_drop.
  - replace (8 * length (d :: ws) + k)%nat with (8 + (8 * length ws + k))%nat in * by (simpl; lia).
    cbn [store_words]. rewrite store_word_spec by done.
    set (buf' := take _ buf ++ _). assert (Hl : length buf' = length buf).
    { unfold buf'. rewrite !length_app, length_take, length_drop, be_bytes_length. lia. }
    rewrite IH by lia. unfold buf'.
    rewrite take_app_le, take_take, Nat.min_l by (rewrite ?length_take; lia).
    rewrite drop_app_length' by (rewrite length_take; lia).
    replace (8 * length (d :: ws))%nat with (8 * length ws + 8)%nat by (simpl; lia).
    rewrite (be_bytes_app (8 * length ws) 8), <- !app_assoc.
    change (256 ^ Z.of_nat 8) with two64. cbn [le_val foldr].
    change (foldr _ 0 ws) with (le_val two64 ws). unfold is_u64 in Hd.
    rewrite Z.add_comm, (Z.mul_comm two64), Z.div_add_l, (Z.div_small d), Z.add_0_r by lia.
    do 4 f_equal. rewrite <- (be_bytes_mod 8 (_ + d)). change (256 ^ Z.of_nat 8) with two64.
    by rewrite Z.add_comm, Z.mod_add, Z.mod_small by lia.
Qed.

Lemma zero_fill_spec i buf : (i <= length buf)%nat -> zero_fill i buf = replicate i 0 ++ drop i buf.
Proof.
  revert buf. induction i as [|i IH]; intros buf Hlen; [done|].
  cbn [zero_fill]. rewrite IH by (rewrite length_insert; lia).
  rewrite (drop_S _ 0) by (apply list_lookup_insert_eq; lia).
  rewrite drop_insert_lt by lia. rewrite cons_middle, app_assoc. f_equal.
  by rewrite <- replicate_cons_app.
Qed.

Lemma store_buf_spec val buf :
  word val -> length buf = 32%nat -> store_buf val buf = Some (be_bytes 32 val).
Proof.
  intros Hv Hbuf. unfold store_buf. pose proof (Bits_val val) as Hval.
  assert (Hm : (length (Bits val) <= 4)%nat).
  { unfold Bits. rewrite length_fmap, length_seqZ.
    pose proof (proj2 (BitLen_le val 256 ltac:(lia))) as Hb. unfold word in Hv.
    rewrite Z.abs_eq in Hb by lia. specialize (Hb (proj2 Hv)).
    pose proof (Z.div_le_mono (BitLen val + 63) 319 64 ltac:(lia) ltac:(lia)) as Hd.
    change (319 / 64) with 4 in Hd. lia. }
  set (m := length (Bits val)) in *. set (k := (32 - 8 * m)%nat).
  replace 32%nat with (8 * m + k)%nat at 1 by lia.
  rewrite store_words_spec by (try apply Bits_u64; lia). fold m.
  unfold word in Hv. rewrite Hval, Z.abs_eq by lia.
  rewrite (drop_ge buf), app_nil_r by lia.
  rewrite zero_fill_spec by (rewrite length_app, length_take; lia).
  rewrite drop_app_length' by (rewrite length_take; lia).
  f_equal. replace 32%nat with (k + 8 * m)%nat by lia. rewrite be_bytes_app. f_equal.
  rewrite Z.div_small; [by rewrite be_bytes_0|].
  rewrite <- (Z.abs_eq val), <- Hval by lia. pose proof (Bits_u64 val) as Hb.
  unfold m. clear - Hb. induction Hb as [|d ws Hd Hws IH]; [done|].
  cbn [le_val foldr length]. change (foldr _ 0 ws) with (le_val two64 ws).
  replace (Z.of_nat (8 * S (length ws))) with (8 + Z.of_nat (8 * length ws)) by lia.
  rewrite Z.pow_add_r by lia. change (256 ^ 8) with two64. unfold is_u64 in Hd.
  assert (0 < two64) by done. nia.
Qed.


(** ** [setBytes] *)

(** [size] bytes of [input] from [off] on, zero beyond its end. *)
Definition padded (input : list Z) (size off : Z) : list Z :=
  take (Z.to_nat size) (drop (Z.to_nat off) input ++ replicate (Z.to_nat size) 0).

Lemma padded_length input size off : length (padded input size off) = Z.to_nat size.
Proof.
  unfold padded. rewrite length_take, length_app, length_drop, length_replicate. lia.
Qed.

Lemma padded_ok input size off : bytes_ok input -> bytes_ok (padded input size off).
Proof.
  intros Hi. apply Forall_take, Forall_app. split; [by apply Forall_drop|].
  apply Forall_replicate. done.
Qed.

Lemma setBytes_spec input size off :
  slice_ok input -> 0 <= off -> is_u64 size -> setBytes input size off = padded input size off.
Proof.
  intros [_ Hi] Hoff Hs. unfold setBytes, padded, is_u64, two64 in *.
  destruct (IsUint64 off) eqn:E; cbn [negb].
  - apply IsUint64_true in E. rewrite Uint64_small by done. unfold is_u64, two64 in E.
    set (n := Z.of_nat (length input)) in *.
    rewrite (u64_small (n - _)) by (unfold two64; lia).
    rewrite u64_small by (unfold two64; lia). rewrite take_app, length_drop. f_equal.
    + destruct (decide (off <= n)).
      * rewrite (Z.min_l off) by lia. destruct (decide (size <= n - off)).
        -- by rewrite Z.min_l by lia.
        -- rewrite Z.min_r by lia. rewrite !take_ge by (rewrite length_drop; lia). done.
      * rewrite (Z.min_r off) by lia.
        by rewrite (drop_ge input (Z.to_nat n)), (drop_ge input), !take_nil by lia.
    + rewrite take_replicate. f_equal. lia.
  - rewrite drop_ge; [|apply not_true_iff_false in E; rewrite IsUint64_true in E;
      unfold is_u64, two64 in E; lia].
    by rewrite app_nil_l, take_replicate, Nat.min_id.
Qed.

(** ** Jump destinations *)

(** The instruction after the one at offset [i]. *)
Definition next_instr (code : list Z) (i : nat) : option nat :=
  c ← code !! i; Some (i + (if isPushOp c then Z.to_nat (c - 96 + 2) else 1))%nat.

(** The code offsets at which an instruction starts. *)
Definition instr_start (code : list Z) : nat -> Prop :=
  rtc (fun i j => next_instr code i = Some j) 0%nat.

Lemma land_shiftl_1 b k : 0 <= k -> (Z.land b (Z.shiftl 1 k) =? 0) = negb (Z.testbit b k).
Proof.
  intros Hk. rewrite Z.shiftl_1_l. destruct (Z.testbit b k) eqn:E; cbn [negb].
  - apply Z.eqb_neq. intros H0. apply (f_equal (fun x => Z.testbit x k)) in H0.
    rewrite Z.land_spec, E, Z.pow2_bits_true, Z.bits_0 in H0 by done. done.
  - apply Z.eqb_eq, Z.bits_inj'. intros n Hn. rewrite Z.land_spec, Z.bits_0.
    destruct (decide (n = k)) as [->|]; [by rewrite E|].
    rewrite Z.pow2_bits_false by done. apply andb_false_r.
Qed.

Lemma bitmap_isSet_testbit buf i b :
  0 <= i -> buf !! Z.to_nat (i / 8) = Some b -> bitmap_isSet buf i = Some (Z.testbit b (i mod 8)).
Proof.
  intros Hi Hb. unfold bitmap_isSet. rewrite Hb. simpl.
  rewrite land_shiftl_1 by (apply Z.mod_pos_bound; lia). by rewrite negb_involutive.
Qed.

Lemma bitmap_set_spec buf i j :
  0 <= i -> 0 <= j -> i / 8 < Z.of_nat (length buf) ->
  bitmap_isSet (bitmap_set buf i) j = if j =? i then Some true else bitmap_isSet buf j.
Proof.
  intros Hi Hj Hl. pose proof (Z.div_pos i 8 Hi ltac:(lia)). pose proof (Z.div_pos j 8 Hj ltac:(lia)).
  pose proof (Z.mod_pos_bound i 8 ltac:(lia)). pose proof (Z.mod_pos_bound j 8 ltac:(lia)).
  destruct (lookup_lt_is_Some_2 buf (Z.to_nat (i / 8)) ltac:(lia)) as [b Hb].
  destruct (decide (j / 8 = i / 8)) as [Hd|Hd].
  - rewrite (bitmap_isSet_testbit _ j (Z.lor b (Z.shiftl 1 (i mod 8)))).
    2: done. 2: { unfold bitmap_set. rewrite Hd, list_lookup_alter_eq, Hb. done. }
    rewrite (bitmap_isSet_testbit buf j b) by (rewrite ?Hd; done).
    rewrite Z.lor_spec, Z.shiftl_1_l. destruct (j =? i) eqn:E; breflect.
    + subst. by rewrite Z.pow2_bits_true, orb_true_r by lia.
    + rewrite Z.pow2_bits_false, orb_false_r; [done|].
      pose proof (Z.div_mod i 8). pose proof (Z.div_mod j 8). lia.
  - unfold bitmap_isSet, bitmap_set. rewrite list_lookup_alter_ne by lia.
    destruct (j =? i) eqn:E; [|done]. breflect. by subst.
Qed.

Lemma bitmap_set_length buf i : length (bitmap_set buf i) = length buf.
Proof. apply length_alter. Qed.

Lemma isPushOp_range c : isPushOp c = true <-> 96 <= c < 128.
Proof.
  unfold isPushOp. rewrite Z.eqb_eq, Z.shiftr_div_pow2 by lia. change (2 ^ 5) with 32.
  pose proof (Z.div_mod c 32). pose proof (Z.mod_pos_bound c 32). lia.
Qed.

Lemma setCode_loop_length fuel code i buf : length (setCode_loop fuel code i buf) = length buf.
Proof.
  revert i buf. induction fuel as [|n IH]; intros i buf; simpl; [done|].
  destruct (code !! _); [|done]. destruct (isPushOp z); rewrite IH; [done|].
  destruct (z =? JUMPDEST); [apply bitmap_set_length|done].
Qed.

Lemma setCode_loop_spec fuel code i buf j :
  (length code <= fuel + i)%nat -> (length code / 8 < length buf)%nat ->
  bitmap_isSet (setCode_loop fuel code (Z.of_nat i) buf) (Z.of_nat j) = Some true <->
  bitmap_isSet buf (Z.of_nat j) = Some true \/
  rtc (fun i j => next_instr code i = Some j) i j /\ code !! j = Some JUMPDEST.
Proof.
  revert i buf. induction fuel as [|n IH]; intros i buf Hf Hb; cbn [setCode_loop].
  - split; [by left|]. intros [?|[Hr Hj]]; [done|]. exfalso.
    assert (code !! i = None) by (apply lookup_ge_None; lia).
    apply rtc_inv in Hr as [->|(k & Hk & _)]; [congruence|].
    unfold next_instr in Hk. by rewrite H in Hk.
  - rewrite Nat2Z.id. destruct (code !! i) as [c|] eqn:Hc.
    2: { split; [by left|]. intros [?|[Hr Hj]]; [done|].
         apply rtc_inv in Hr as [->|(k & Hk & _)]; [congruence|].
         unfold next_instr in Hk. by rewrite Hc in Hk. }
    assert (Hn : next_instr code i = Some (i + (if isPushOp c then Z.to_nat (c - 96 + 2) else 1))%nat).
    { unfold next_instr. by rewrite Hc. }
    assert (Hstep : rtc (fun i j => next_instr code i = Some j) i j <-> i = j \/
      rtc (fun i j => next_instr code i = Some j)
        (i + (if isPushOp c then Z.to_nat (c - 96 + 2) else 1))%nat j).
    { split.
      - intros [?|(k & Hk & Hr)]%rtc_inv; [by left|]. right. congruence.
      - intros [->|Hr]; [done|]. by eapply rtc_l. }
    rewrite Hstep. pose proof (lookup_lt_Some _ _ _ Hc) as Hi.
    destruct (isPushOp c) eqn:Hp.
    + apply isPushOp_range in Hp.
      replace (Z.of_nat i + (c - 96 + 2)) with (Z.of_nat (i + Z.to_nat (c - 96 + 2))) by lia.
      rewrite IH by lia. clear IH Hstep. split; [naive_solver|]. intros [?|[[->|?] ?]]; [by left| |naive_solver].
      exfalso. assert (c = JUMPDEST) by congruence. unfold JUMPDEST in *. lia.
    + replace (Z.of_nat i + 1) with (Z.of_nat (i + 1)) by lia.
      assert (Hdiv : Z.of_nat i / 8 < Z.of_nat (length buf)).
      { pose proof (Nat.Div0.div_le_mono i (length code) 8 ltac:(lia)).
        pose proof (Nat2Z.inj_div i 8) as Hz. change (Z.of_nat 8) with 8 in Hz. lia. }
      rewrite IH by (try destruct (c =? JUMPDEST); rewrite ?bitmap_set_length; lia).
      clear IH Hstep Hf Hb Hn.
      destruct (c =? JUMPDEST) eqn:Hjd; breflect.
      * rewrite bitmap_set_spec by lia. destruct (Z.of_nat j =? Z.of_nat i) eqn:E; breflect.
        -- assert (j = i) as -> by lia. subst. clear E Hdiv. naive_solver.
        -- assert (i <> j) by lia. clear Hdiv E. naive_solver.
      * split; [naive_solver|]. intros [?|[[->|?] ?]]; [by left|congruence|naive_solver].
Qed.

Lemma bitmap_zero n j : bitmap_isSet (replicate n 0) j <> Some true.
Proof.
  unfold bitmap_isSet. destruct (replicate n 0 !! Z.to_nat (j / 8)) as [b|] eqn:E; [|done].
  apply lookup_replicate in E as [-> _]. done.
Qed.

Lemma setCode_length code : length (setCode code) = (length code / 8 + 1)%nat.
Proof. unfold setCode. by rewrite setCode_loop_length, length_replicate. Qed.

Lemma setCode_spec code j :
  bitmap_isSet (setCode code) (Z.of_nat j) = Some true <->
  instr_start code j /\ code !! j = Some JUMPDEST.
Proof.
  unfold setCode, instr_start. change 0 with (Z.of_nat 0) at 1.
  rewrite setCode_loop_spec by (rewrite ?length_replicate; lia).
  pose proof (bitmap_zero (length code / 8 + 1) (Z.of_nat j)). naive_solver.
Qed.

Lemma setCode_in_range code i :
  0 <= i < Z.of_nat (length code) -> is_Some (bitmap_isSet (setCode code) i).
Proof.
  intros Hi. destruct (lookup_lt_is_Some_2 (setCode code) (Z.to_nat (i / 8))) as [b Hb].
  - rewrite setCode_length. pose proof (Z.div_pos i 8). 
    assert (i / 8 <= Z.of_nat (length code) / 8) by (apply Z.div_le_mono; lia).
    pose proof (Nat2Z.inj_div (length code) 8) as Hz. change (Z.of_nat 8) with 8 in Hz. lia.
  - unfold bitmap_isSet. rewrite Hb. by eexists.
Qed.

(** ** Words from bytes *)

Lemma exp_loop_word x y : word x -> word y -> word (exp_loop x y).
Proof.
  intros Hx Hy. rewrite exp_loop_spec by (done || apply Hy). apply Z.mod_pos_bound. done.
Qed.

Lemma tt256m1_word : word tt256m1.
Proof. done. Qed.

Lemma be_val_word b : bytes_ok b -> (length b <= 32)%nat -> word (be_val b).
Proof.
  intros Hb Hl. pose proof (be_val_range b Hb) as Hr. unfold word. split; [lia|].
  eapply Z.lt_le_trans; [apply Hr|]. change (2 ^ 256) with (256 ^ 32).
  apply Z.pow_le_mono_r; lia.
Qed.

Lemma bigToHash_word b : word (bigToHash b).
Proof. apply BytesToHash_word, Bytes_ok. Qed.

Lemma slice_length_word l : slice_ok l -> word (Z.of_nat (length l)).
Proof. intros [_ Hl]. unfold word. lia. Qed.

Lemma u64_word x : word (u64 x).
Proof. apply is_u64_word, u64_range. Qed.

Lemma int64_word x : 0 <= x < 2 ^ 63 -> word x.
Proof. unfold word. lia. Qed.

#[export] Hint Resolve exp_loop_word tt256m1_word bigToHash_word slice_length_word u64_word : plg.
