(* ===== verification/EvmPool.v ===== *)
(** * Recycled buffers ([helper/common/common.go], [evm/state.go])

    The memory and the jump bitmap of a machine are slices that [releaseState]
    returns to a pool with their capacity. A slice here is a backing array with
    a length; [ExtendByteSlice] on it uncovers whatever the array holds. The
    list model of [EvmState] (memory grows by zeros) is right because the spare
    part of the array is always zero. *)

From S2P Require Import Prelude ChainTypes BigInt Runtime EvmState.
Local Open Scope go_scope.

Record slice := mkSlice { backing : list Z; slen : nat }.

(** What the slice shows. *)
Definition view (b : slice) : list Z := take (slen b) (backing b).

(** [ExtendByteSlice]: appending beyond the capacity copies to a larger, zeroed
    array; [spare] is the room the runtime adds. *)
Definition slice_ExtendByteSlice (spare : nat) (b : slice) (needLength : nat) : slice :=
  let full := backing b in
  let arr := if (length full <? needLength)%nat
             then full ++ replicate (needLength - length full) 0 ++ replicate spare 0
             else full in
  mkSlice arr needLength.

(** The loops of [state.reset] and [bitmap.reset], and the re-slicing to [:0]. *)
Definition slice_reset (b : slice) : slice :=
  mkSlice (replicate (slen b) 0 ++ drop (slen b) (backing b)) 0.

(** Writing to index [i] of the slice. *)
Definition slice_write (b : slice) (i : nat) (x : Z) : slice :=
  if (i <? slen b)%nat then mkSlice (<[i := x]> (backing b)) (slen b) else b.

(** The part beyond the length is zero. *)
Definition clean (b : slice) : Prop :=
  (slen b <= length (backing b))%nat /\
  drop (slen b) (backing b) = replicate (length (backing b) - slen b) 0.

(** Every state of a pooled slice. *)
Inductive pooled : slice -> Prop :=
| pooled_new : pooled (mkSlice [] 0)
| pooled_extend spare b n :
    pooled b -> (slen b <= n)%nat -> pooled (slice_ExtendByteSlice spare b n)
| pooled_write b i x : pooled b -> pooled (slice_write b i x)
| pooled_reset b : pooled b -> pooled (slice_reset b).

Lemma view_length b : clean b -> length (view b) = slen b.
Proof. intros [Hl _]. unfold view. rewrite length_take. lia. Qed.

Lemma clean_backing b :
  clean b -> backing b = view b ++ replicate (length (backing b) - slen b) 0.
Proof. intros [_ Hd]. unfold view. by rewrite <- Hd, take_drop. Qed.

Lemma extend_clean spare b n :
  clean b -> (slen b <= n)%nat ->
  clean (slice_ExtendByteSlice spare b n) /\
  view (slice_ExtendByteSlice spare b n) = ExtendByteSlice (view b) n.
Proof.
  intros Hc Hn. pose proof (view_length b Hc) as Hv. pose proof (clean_backing b Hc) as Hb.
  destruct Hc as [Hl _]. unfold slice_ExtendByteSlice, ExtendByteSlice.
  assert (Harr : exists k, (n <= length (view b) + k)%nat /\
    (if (length (backing b) <? n)%nat
     then backing b ++ replicate (n - length (backing b)) 0 ++ replicate spare 0
     else backing b) = view b ++ replicate k 0).
  { destruct (length (backing b) <? n)%nat eqn:E.
    - apply Nat.ltb_lt in E.
      exists ((length (backing b) - slen b) + (n - length (backing b)) + spare)%nat.
      split; [lia|]. rewrite Hb at 1. rewrite <- app_assoc, !replicate_add, <- app_assoc. done.
    - apply Nat.ltb_ge in E. exists (length (backing b) - slen b)%nat. split; [lia|done]. }
  destruct Harr as (k & Hk & ->). unfold clean, view at 3. cbn [backing slen]. split.
  - split; [rewrite length_app, length_replicate; lia|].
    rewrite drop_app_ge, drop_replicate, length_app, length_replicate by lia. f_equal. lia.
  - unfold view at 1. cbn. rewrite !take_app, !take_replicate. do 2 f_equal. lia.
Qed.

Lemma write_clean b i x : clean b -> clean (slice_write b i x).
Proof.
  intros [Hl Hd]. unfold slice_write. destruct (i <? slen b)%nat eqn:E; [|done].
  apply Nat.ltb_lt in E. split; cbn; rewrite length_insert; [done|].
  by rewrite drop_insert_lt by done.
Qed.

Lemma reset_clean b : clean b -> clean (slice_reset b) /\ view (slice_reset b) = [].
Proof.
  intros [Hl Hd]. split; [|done]. split; cbn; [lia|].
  rewrite Hd, drop_0, <- replicate_add, length_replicate. f_equal. lia.
Qed.

Lemma pooled_clean b : pooled b -> clean b.
Proof.
  induction 1 as [|spare b n Hb IH Hn|b i x Hb IH|b Hb IH].
  - split; cbn; [lia|done].
  - by apply extend_clean.
  - by apply write_clean.
  - by apply reset_clean.
Qed.

(** Whatever a pooled buffer was used for before, growing it shows its
    current contents followed by zeros; in particular a buffer reset for the
    next frame and grown to [n] bytes shows [n] zeros. *)
Theorem pooled_buffer_zeroed spare b n :
  pooled b -> (slen b <= n)%nat ->
  view (slice_ExtendByteSlice spare b n) = view b ++ replicate (n - slen b) 0 /\
  view (slice_ExtendByteSlice spare (slice_reset b) n) = replicate n 0.
Proof.
  intros Hp Hn. pose proof (pooled_clean b Hp) as Hc. pose proof (view_length b Hc) as Hv.
  destruct (reset_clean b Hc) as [Hrc Hrv]. split.
  - destruct (extend_clean spare b n Hc Hn) as [_ ->]. unfold ExtendByteSlice.
    rewrite take_ge by (rewrite length_app, length_replicate; lia). by rewrite Hv.
  - destruct (extend_clean spare (slice_reset b) n Hrc ltac:(cbn; lia)) as [_ ->].
    rewrite Hrv. unfold ExtendByteSlice. cbn. rewrite take_ge by (rewrite length_replicate; lia).
    f_equal. lia.
Qed.

Lemma pooled_buffer_zeroed_witness :
  view (slice_ExtendByteSlice 3 (slice_reset
    (slice_write (slice_ExtendByteSlice 3 (mkSlice [] 0) 2) 1 42)) 4) = [0; 0; 0; 0].
Proof.
  apply (pooled_buffer_zeroed 3 (slice_write (slice_ExtendByteSlice 3 (mkSlice [] 0) 2) 1 42) 4);
    [|cbn; lia].
  apply pooled_write, pooled_extend; [apply pooled_new|cbn; lia].
Defined.
