(* ===== verification/EvmWp.v ===== *)
(** * Reasoning about the monad of the virtual machine

    [wp m Q s]: run from [s], [m] does not panic and ends in a result and state
    satisfying [Q]; one rule per primitive. [evm_ok] is the invariant of the
    machine between instructions, and [instr_ok] what every instruction has to
    guarantee. *)

From S2P Require Import Prelude ChainTypes BigInt Runtime EvmState EvmInstr EvmWord.
Local Open Scope go_scope.

Section Wp.
Context {W : Type} `{HostLaws W}.

Implicit Types s : state W.

Definition wp {A} (m : M W A) (Q : A -> state W -> Prop) (s : state W) : Prop :=
  match m s with Some (a, s') => Q a s' | None => False end.

Lemma wp_ret {A} (a : A) Q s : Q a s -> wp (mret a) Q s.
Proof. done. Qed.

Lemma wp_bind {A B} (m : M W A) (k : A -> M W B) Q s :
  wp m (fun a => wp (k a) Q) s -> wp (m ≫= k) Q s.
Proof. unfold wp, mbind, M_bind. by destruct (m s) as [[a s']|]. Qed.

Lemma wp_mono {A} (m : M W A) (P Q : A -> state W -> Prop) s :
  wp m P s -> (forall a s', P a s' -> Q a s') -> wp m Q s.
Proof. unfold wp. destruct (m s) as [[a s']|]; auto. Qed.

Lemma wp_get {A} (f : state W -> A) Q s : Q (f s) s -> wp (get f) Q s.
Proof. done. Qed.

Lemma wp_modify f Q s : Q tt (f s) -> wp (modify f) Q s.
Proof. done. Qed.

Lemma wp_deref {A} (a : A) Q s : Q a s -> wp (deref (Some a)) Q s.
Proof. done. Qed.

Lemma wp_pop_ptr x st Q s :
  stack s = x :: st -> Q (Some x) (set_stack st s) -> wp pop_ptr Q s.
Proof. intros Hs HQ. unfold wp, pop_ptr. by rewrite Hs. Qed.

Lemma wp_pop x st Q s : stack s = x :: st -> Q x (set_stack st s) -> wp pop Q s.
Proof. intros Hs HQ. apply wp_bind, (wp_pop_ptr x st); done. Qed.

Lemma wp_top x st Q s : stack s = x :: st -> Q x s -> wp top Q s.
Proof. intros Hs HQ. apply wp_bind, wp_get. by rewrite Hs. Qed.

Lemma wp_set_top v x st Q s :
  stack s = x :: st -> Q tt (set_stack (v :: st) s) -> wp (set_top v) Q s.
Proof. intros Hs HQ. unfold wp, set_top. by rewrite Hs. Qed.

Lemma wp_popHash x st Q s :
  stack s = x :: st -> Q (bigToHash x) (set_stack st s) -> wp popHash Q s.
Proof. intros Hs HQ. by apply wp_bind, (wp_pop x st), wp_ret. Qed.

Lemma wp_popAddr x st Q s :
  stack s = x :: st -> Q (BytesToAddress (Bytes x), true) (set_stack st s) -> wp popAddr Q s.
Proof. intros Hs HQ. by apply wp_bind, (wp_pop_ptr x st). Qed.

Lemma wp_peekAt n x Q s : stack s !! Z.to_nat (n - 1) = Some x -> Q x s -> wp (peekAt n) Q s.
Proof. intros Hs HQ. apply wp_bind, wp_get. by rewrite Hs. Qed.

(** ** The invariant *)

Record evm_ok (s : state W) : Prop := {
  ok_gas : is_u64 (gas s);
  ok_mem : bytes_ok (memory s);
  ok_memlen : Z.of_nat (length (memory s)) < 2 ^ 62;
  ok_rd : slice_ok (returnData s);
  ok_ret : slice_ok (ret s);
  ok_code : slice_ok (code s);
  ok_msg : contract_ok (msg s);
  ok_bitmap : bitmap s = setCode (code s);
  ok_host : host_ok (host s);
  ok_err : err s <> None -> stop s = true }.

Lemma evm_ok_stack st s : evm_ok s -> evm_ok (set_stack st s).
Proof. by intros []. Qed.
Lemma evm_ok_ip i s : evm_ok s -> evm_ok (set_ip i s).
Proof. by intros []. Qed.
Lemma evm_ok_consumed x s : evm_ok s -> evm_ok (set_consumed x s).
Proof. by intros []. Qed.
Lemma evm_ok_lastGasCost x s : evm_ok s -> evm_ok (set_lastGasCost x s).
Proof. by intros []. Qed.
Lemma evm_ok_gas x s : is_u64 x -> evm_ok s -> evm_ok (set_gas x s).
Proof. by intros ? []. Qed.
Lemma evm_ok_stop s : evm_ok s -> evm_ok (set_stop true s).
Proof. by intros []. Qed.
Lemma evm_ok_exit e s : evm_ok s -> evm_ok (set_err e (set_stop true s)).
Proof. by intros []. Qed.
Lemma evm_ok_host w s : host_ok w -> evm_ok s -> evm_ok (set_host w s).
Proof. by intros ? []. Qed.
Lemma evm_ok_log a ts d s : evm_ok s -> evm_ok (set_host (EmitLog (host s) a ts d) s).
Proof. intros Hs. apply evm_ok_host; [|done]. apply law_log, ok_host, Hs. Qed.
Lemma evm_ok_selfdestruct a b s : evm_ok s -> evm_ok (set_host (Selfdestruct (host s) a b) s).
Proof. intros Hs. apply evm_ok_host; [|done]. apply law_selfdestruct, ok_host, Hs. Qed.
Lemma evm_ok_memory m s :
  bytes_ok m -> Z.of_nat (length m) < 2 ^ 62 -> evm_ok s -> evm_ok (set_memory m s).
Proof. by intros ? ? []. Qed.
Lemma evm_ok_returnData x s : slice_ok x -> evm_ok s -> evm_ok (set_returnData x s).
Proof. by intros ? []. Qed.
Lemma evm_ok_ret x s : slice_ok x -> evm_ok s -> evm_ok (set_ret x s).
Proof. by intros ? []. Qed.

(** ** Primitives that touch gas and memory *)

(** What [consumeGas] and [allocateMemory] leave alone. *)
Record keeps (s s' : state W) : Prop := {
  k_ok : evm_ok s';
  k_ip : ip s' = ip s;
  k_code : code s' = code s;
  k_host : host s' = host s;
  k_msg : msg s' = msg s;
  k_config : config s' = config s;
  k_stack : stack s' = stack s;
  k_rd : returnData s' = returnData s;
  k_gas : gas s' <= gas s }.

Lemma keeps_refl s : evm_ok s -> keeps s s.
Proof. intros. split; done. Qed.

Lemma wp_exit e Q s : Q tt (set_err (Some e) (set_stop true s)) -> wp (exit e) Q s.
Proof. done. Qed.

Lemma wp_Halt Q s : Q tt (set_stop true s) -> wp Halt Q s.
Proof. done. Qed.

Lemma wp_consumeGas g Q s :
  evm_ok s -> is_u64 g ->
  (forall s', keeps s s' -> stop s' = true -> memory s' = memory s -> Q false s') ->
  (forall s', keeps s s' -> stop s' = stop s -> err s' = err s -> memory s' = memory s ->
     g <= gas s -> gas s' = gas s - g -> Q true s') ->
  wp (consumeGas g) Q s.
Proof.
  intros Hok Hg Hfail Hdone. pose proof (ok_gas _ Hok). unfold is_u64 in *.
  unfold consumeGas. apply wp_bind, wp_modify, wp_bind, wp_get. cbn [gas set_consumed].
  destruct (gas s <? g) eqn:E; breflect.
  - apply wp_bind, wp_exit, wp_ret, Hfail; [|done|done].
    split; cbn; try done. by apply evm_ok_exit, evm_ok_consumed.
  - rewrite u64_small by lia. apply wp_bind, wp_modify, wp_ret, Hdone; try done.
    split; cbn; try done; [|lia]. apply evm_ok_gas; [split; cbn; lia|by apply evm_ok_consumed].
Qed.

(** The word count of [allocateMemory] stays far below the range of [uint64]. *)
Lemma words_bound o n :
  0 <= o <= memoryLimit -> 0 <= n <= memoryLimit ->
  o +u n = o + n /\ (o + n) +u 31 = o + n + 31 /\
  ((o + n + 31) / 32) *u 32 = 32 * ((o + n + 31) / 32) /\
  o + n <= 32 * ((o + n + 31) / 32) < 2 ^ 62.
Proof.
  unfold memoryLimit. intros Ho Hn.
  pose proof (Z.div_mod (o + n + 31) 32). pose proof (Z.mod_pos_bound (o + n + 31) 32).
  rewrite !u64_small by (unfold two64; lia). lia.
Qed.

Lemma ExtendByteSlice_longer b n :
  (length b <= n)%nat -> ExtendByteSlice b n = b ++ replicate (n - length b) 0.
Proof.
  intros Hn. unfold ExtendByteSlice. apply take_ge. rewrite length_app, length_replicate. lia.
Qed.

Definition extends (m m' : list Z) : Prop := exists n, m' = m ++ replicate n 0.

Lemma extends_refl m : extends m m.
Proof. exists 0%nat. by rewrite app_nil_r. Qed.

Lemma wp_allocateMemory offset size Q s :
  evm_ok s -> 0 <= size ->
  (forall s', keeps s s' -> stop s' = true -> Q false s') ->
  (forall s', keeps s s' -> stop s' = stop s -> err s' = err s ->
     is_u64 offset -> is_u64 size -> extends (memory s) (memory s') ->
     (size <> 0 -> offset + size <= Z.of_nat (length (memory s'))) -> Q true s') ->
  wp (allocateMemory offset size) Q s.
Proof.
  intros Hok Hsize Hfail Hdone. unfold allocateMemory.
  assert (Hexit : forall e, keeps s (set_err (Some e) (set_stop true s))).
  { intros e. split; try done. by apply evm_ok_exit. }
  destruct (negb (IsUint64 offset) || negb (IsUint64 size)) eqn:E.
  { apply wp_bind, wp_exit, wp_ret. by apply Hfail. }
  breflect. apply IsUint64_true in H1, H2.
  pose proof (keeps_refl s Hok) as Hkeep.
  destruct (size =? 0) eqn:E0; breflect.
  { apply wp_ret, Hdone; try done. apply extends_refl. }
  rewrite !Uint64_small by done. unfold is_u64 in *.
  destruct ((memoryLimit <? offset) || (memoryLimit <? size)) eqn:E.
  { apply wp_bind, wp_exit, wp_ret. by apply Hfail. }
  breflect. destruct (words_bound offset size) as (-> & -> & -> & Hw1 & Hw2); [lia..|].
  apply wp_bind, wp_get. cbn beta.
  destruct (Z.of_nat (length (memory s)) <? offset + size) eqn:El; breflect.
  2: { apply wp_ret, Hdone; try done. apply extends_refl. }
  set (w := (offset + size + 31) / 32) in *. apply wp_bind, wp_get, wp_bind, wp_modify, wp_bind.
  set (s1 := set_lastGasCost _ s).
  apply wp_consumeGas; [by apply evm_ok_lastGasCost|apply u64_range| |].
  - intros s' Hk Hs _. apply wp_bind, wp_exit, wp_ret, Hfail; [|done].
    destruct Hk. split; try done. by apply evm_ok_exit.
  - intros s' [] Hs He Hm Hg Hg'. apply wp_bind, wp_modify, wp_ret. subst s1. cbn in *.
    rewrite Hm, ExtendByteSlice_longer by lia.
    apply Hdone; try done; [split; cbn; try done|cbn; by eexists|].
    + pose proof (ok_mem _ Hok). apply evm_ok_memory; [|rewrite length_app, length_replicate; lia|done].
      apply Forall_app. split; [done|]. by apply Forall_replicate.
    + intros _. cbn. rewrite length_app, length_replicate. lia.
Qed.

Lemma wp_mem_slice o l Q s :
  0 <= o -> 0 <= l -> o + l <= Z.of_nat (length (memory s)) ->
  Z.of_nat (length (memory s)) < 2 ^ 62 ->
  Q (take (Z.to_nat l) (drop (Z.to_nat o) (memory s))) s -> wp (mem_slice o l) Q s.
Proof.
  intros Ho Hl Hlen Hb HQ. unfold mem_slice. apply wp_bind, wp_get.
  rewrite u64_small by (unfold two64; lia).
  by rewrite (proj2 (Z.leb_le _ _)), (proj2 (Z.leb_le _ _)) by lia.
Qed.

(** The memory after [mem_write o b]. *)
Definition write (m : list Z) (o : Z) (b : list Z) : list Z :=
  take (Z.to_nat o) m ++ b ++ drop (Z.to_nat o + length b) m.

Lemma write_length m o b :
  0 <= o -> o + Z.of_nat (length b) <= Z.of_nat (length m) -> length (write m o b) = length m.
Proof. intros. unfold write. rewrite !length_app, length_take, length_drop. lia. Qed.

Lemma write_ok m o b : bytes_ok m -> bytes_ok b -> bytes_ok (write m o b).
Proof.
  intros Hm Hb. unfold write. repeat (apply Forall_app; split); auto using Forall_take, Forall_drop.
Qed.

Lemma wp_mem_write o b Q s :
  0 <= o -> o + Z.of_nat (length b) <= Z.of_nat (length (memory s)) ->
  Q tt (set_memory (write (memory s) o b) s) -> wp (mem_write o b) Q s.
Proof.
  intros Ho Hlen HQ. unfold mem_write. apply wp_bind, wp_get.
  by rewrite (proj2 (Z.leb_le _ _)) by lia.
Qed.

Lemma wp_get2 offset size Q s :
  evm_ok s -> 0 <= offset -> 0 <= size ->
  (forall s', keeps s s' -> stop s' = true -> Q ([], false) s') ->
  (forall s' b, keeps s s' -> stop s' = stop s -> err s' = err s -> slice_ok b ->
     extends (memory s) (memory s') ->
     b = take (Z.to_nat size) (drop (Z.to_nat offset) (memory s')) -> 
     length b = Z.to_nat size -> (size <> 0 -> is_u64 offset /\ is_u64 size) ->
     Q (b, true) s') ->
  wp (get2 offset size) Q s.
Proof.
  intros Hok Ho Hsize Hfail Hdone. unfold get2. destruct (size =? 0) eqn:E; breflect.
  - subst. apply wp_ret, Hdone; auto using keeps_refl, slice_ok_nil, extends_refl; done.
  - apply wp_bind, wp_allocateMemory; [done|done| |].
    + intros s' Hk Hs. by apply wp_ret, Hfail.
    + intros s' Hk Hs He Hu1 Hu2 Hext Hlen. cbn [negb]. specialize (Hlen E).
      rewrite !Uint64_small by done. pose proof (ok_memlen _ (k_ok _ _ Hk)).
      apply wp_bind, wp_mem_slice; [done..|]. apply wp_ret, Hdone; try done.
      * split; [|rewrite length_take, length_drop; lia].
        apply Forall_take, Forall_drop, (ok_mem _ (k_ok _ _ Hk)).
      * rewrite length_take, length_drop. lia.
Qed.

(** ** Jumps *)

Lemma jump_to_run s dest :
  evm_ok s -> 0 <= dest ->
  (0 <= dest < Z.of_nat (length (code s)) /\ bitmap_isSet (setCode (code s)) dest = Some true /\
   jump_to dest s = Some (tt, set_ip (dest - 1) s)) \/
  ((Z.of_nat (length (code s)) <= dest \/ bitmap_isSet (setCode (code s)) dest = Some false) /\
   jump_to dest s = Some (tt, set_err (Some errInvalidJump) (set_stop true s))).
Proof.
  intros Hok Hd. pose proof (proj2 (ok_code _ Hok)) as Hlen.
  unfold jump_to, validJumpdest, mbind, M_bind, get, id.
  destruct (decide (dest < Z.of_nat (length (code s)))) as [Hin|Hout].
  - assert (Hb : BitLen dest <= 62) by (apply BitLen_le; lia).
    assert (Hu : is_u64 dest) by (unfold is_u64, two64; lia).
    rewrite (Uint64_small dest), (proj2 (Z.leb_gt _ _)), (proj2 (Z.leb_gt _ _)) by (done || lia).
    cbn [orb]. rewrite (ok_bitmap _ Hok).
    destruct (setCode_in_range (code s) dest ltac:(lia)) as [[] Hbit]; rewrite Hbit; cbn.
    + left. split; [lia|]. split; [done|].
      replace (i64 (dest -u 1)) with (dest - 1); [done|].
      destruct (decide (dest = 0)) as [->|]; [done|].
      unfold is_u64 in Hu. rewrite u64_small by lia.
      unfold i64. rewrite Z.mod_small by (unfold two64; lia). lia.
    + right. by split; [right|].
  - right. split; [left; lia|].
    assert (Hbad : (63 <=? BitLen dest) || (Z.of_nat (length (code s)) <=? Uint64 dest) = true).
    { apply orb_true_iff. rewrite !Z.leb_le. destruct (decide (BitLen dest <= 62)) as [Hb|]; [|lia].
      apply BitLen_le in Hb; [|lia]. rewrite Uint64_small by (unfold is_u64, two64; lia). lia. }
    by rewrite Hbad.
Qed.

(** ** Values the host and the frame provide *)

Lemma host_balance_word s a : evm_ok s -> word (HGetBalance (host s) a).
Proof. intros Hs. by apply law_balance, ok_host. Qed.

Lemma host_context_ok s : evm_ok s -> context_ok (GetTxContext (host s)).
Proof. intros Hs. by apply law_context, ok_host. Qed.

Lemma msg_address_word s : evm_ok s -> word (c_Address (msg s)).
Proof. intros Hs. apply addr_word, co_addr, ok_msg, Hs. Qed.
Lemma msg_caller_word s : evm_ok s -> word (c_Caller (msg s)).
Proof. intros Hs. apply addr_word, co_caller, ok_msg, Hs. Qed.
Lemma msg_input_ok s : evm_ok s -> slice_ok (c_Input (msg s)).
Proof. intros Hs. apply co_input, ok_msg, Hs. Qed.
Lemma code_slice s : evm_ok s -> slice_ok (code s).
Proof. apply ok_code. Qed.
Lemma rd_slice s : evm_ok s -> slice_ok (returnData s).
Proof. apply ok_rd. Qed.
Lemma gas_word s : evm_ok s -> word (gas s).
Proof. intros Hs. apply is_u64_word, ok_gas, Hs. Qed.
Lemma memlen_word s : evm_ok s -> word (Z.of_nat (length (memory s))).
Proof. intros Hs. pose proof (ok_memlen _ Hs). unfold word. lia. Qed.
Lemma origin_word s : evm_ok s -> word (ctx_Origin (GetTxContext (host s))).
Proof. intros Hs. apply addr_word, cx_origin, host_context_ok, Hs. Qed.
Lemma coinbase_word s : evm_ok s -> word (ctx_Coinbase (GetTxContext (host s))).
Proof. intros Hs. apply addr_word, cx_coinbase, host_context_ok, Hs. Qed.
Lemma price_word s : evm_ok s -> word (ctx_GasPrice (GetTxContext (host s))).
Proof. intros Hs. apply cx_price, host_context_ok, Hs. Qed.
Lemma difficulty_word s : evm_ok s -> word (ctx_Difficulty (GetTxContext (host s))).
Proof. intros Hs. apply cx_diff, host_context_ok, Hs. Qed.
Lemma time_word s : evm_ok s -> word (ctx_Timestamp (GetTxContext (host s))).
Proof. intros Hs. apply int64_word, cx_time, host_context_ok, Hs. Qed.
Lemma number_word s : evm_ok s -> word (ctx_Number (GetTxContext (host s))).
Proof. intros Hs. apply int64_word, cx_number, host_context_ok, Hs. Qed.
Lemma limit_word s : evm_ok s -> word (ctx_GasLimit (GetTxContext (host s))).
Proof. intros Hs. apply int64_word, cx_limit, host_context_ok, Hs. Qed.
Lemma codehash_word s a : evm_ok s -> word (GetCodeHash (host s) a).
Proof. intros Hs. apply law_codehash, ok_host, Hs. Qed.
Lemma blockhash_word s n : evm_ok s -> word (GetBlockHash (host s) n).
Proof. intros Hs. apply law_blockhash, ok_host, Hs. Qed.
Lemma calldata_word s off : evm_ok s -> word off -> word (be_val (setBytes (c_Input (msg s)) 32 off)).
Proof.
  intros Hs Ho. pose proof (msg_input_ok s Hs) as Hi.
  rewrite setBytes_spec by (done || apply Ho). apply be_val_word.
  - apply padded_ok, Hi.
  - by rewrite padded_length.
Qed.

(** The state after a write that stays inside the memory. *)
Lemma write_evm_ok s o b :
  evm_ok s -> 0 <= o -> o + Z.of_nat (length b) <= Z.of_nat (length (memory s)) -> bytes_ok b ->
  evm_ok (set_memory (write (memory s) o b) s).
Proof.
  intros Hs Ho Hl Hb. pose proof (ok_mem _ Hs). pose proof (ok_memlen _ Hs).
  apply evm_ok_memory; [by apply write_ok|by rewrite write_length|done].
Qed.

End Wp.

#[export] Hint Resolve evm_ok_stack evm_ok_ip evm_ok_consumed evm_ok_lastGasCost evm_ok_gas
  evm_ok_stop evm_ok_exit evm_ok_log evm_ok_selfdestruct evm_ok_host evm_ok_memory evm_ok_returnData evm_ok_ret : plg.
#[export] Hint Resolve host_balance_word msg_address_word msg_caller_word msg_input_ok gas_word
  memlen_word origin_word coinbase_word price_word difficulty_word time_word number_word
  limit_word codehash_word blockhash_word calldata_word code_slice rd_slice
  write_evm_ok : plg.
