(* ===== verification/EvmOk.v ===== *)
(** * Every instruction keeps the machine well-formed

    [instr_ok k c m]: from a well-formed state with [k] words on the stack, [m]
    does not panic and leaves a well-formed state; under EIP-150 it costs at
    least [c] gas unless it stops the machine; in a static frame it changes the
    world only by static calls. The last point is stated for any preorder [R]
    that static nested calls respect. *)

From S2P Require Import Prelude ChainTypes BigInt Runtime EvmState EvmInstr EvmWord EvmWp.
Local Open Scope go_scope.
Set Default Proof Using "All".

(** ** Tactics: symbolic execution, then the fields of [instr_post] *)

Ltac stk :=
  repeat match goal with
  | Hk : keeps ?a ?b |- stack ?b = _ => rewrite (k_stack a b Hk)
  end;
  first [ eassumption | reflexivity ].

(** Bring the well-formedness of the intermediate states into the context. *)
Ltac pose_ok :=
  repeat match goal with
  | Hk : keeps _ ?s |- _ =>
      lazymatch goal with
      | _ : evm_ok s |- _ => fail
      | _ => pose proof (k_ok _ _ Hk)
      end
  end.

Ltac ok_solve := lazymatch goal with |- evm_ok _ => pose_ok; solve [ auto 8 with plg ] end.

Ltac u64_solve :=
  first [ apply u64_range | apply Uint64_range
        | repeat case_match; first [ apply u64_range | unfold is_u64, two64; lia
                                   | eapply ok_gas; ok_solve ] ].

(** Introduce an instruction's precondition and name [n] operands. *)
Tactic Notation "open_instr" integer(n) :=
  intros s Hok Hw Hk Hip Hsv; unfold sp in Hk; remember (stack s) as st eqn:Hst in *;
  symmetry in Hst;
  do n (destruct st as [|? st]; [exfalso; simpl in Hk; lia|apply Forall_cons in Hw as [? Hw]]).

Ltac wp_step :=
  lazymatch goal with
  | |- wp (_ ≫= _) _ _ => apply wp_bind
  | |- wp (mret _) _ _ => apply wp_ret
  | |- wp (get _) _ _ => apply wp_get
  | |- wp (modify _) _ _ => apply wp_modify
  | |- wp (exit _) _ _ => apply wp_exit
  | |- wp Halt _ _ => apply wp_Halt
  | |- wp pop _ _ => eapply wp_pop; [stk|]
  | |- wp pop_ptr _ _ => eapply wp_pop_ptr; [stk|]
  | |- wp top _ _ => eapply wp_top; [stk|]
  | |- wp popHash _ _ => eapply wp_popHash; [stk|]
  | |- wp popAddr _ _ => eapply wp_popAddr; [stk|]
  | |- wp (set_top _) _ _ => eapply wp_set_top; [stk|]
  | |- wp (push _) _ _ => apply wp_modify
  | |- wp inStaticCall _ _ => apply wp_get
  | |- wp top_ptr _ _ => apply wp_get
  | |- wp (stackAtLeast _) _ _ => apply wp_get
  | |- wp resetReturnData _ _ => apply wp_modify
  | |- wp (consumeGas _) _ _ =>
      apply wp_consumeGas; [ok_solve|u64_solve|intros ? ? ? ?|intros ? ? ? ? ? ? ?]
  | |- wp (if ?b then _ else _) _ _ => let E := fresh "E" in destruct b eqn:E
  end; cbn beta iota delta [id negb fst snd].

Ltac keeps_open :=
  repeat match goal with
  | Hk : keeps _ _ |- _ => destruct Hk
  end; cbn [ip code host msg config memory stack err stop gas returnData ret set_ip set_host
    set_memory set_lastGasCost set_stack set_err set_stop set_gas set_consumed set_returnData
    set_ret] in *.

Ltac words :=
  lazymatch goal with |- _ -> Forall word _ => idtac end; intros _; repeat match goal with
  | Hs : stack ?s = _ |- context [stack ?s] => rewrite Hs
  end; repeat match goal with
  | Hf : Forall word (_ :: _) |- _ => apply Forall_cons in Hf as [? Hf]
  end; repeat (apply Forall_cons; split); eauto 4 with plg.

Ltac static :=
  lazymatch goal with |- c_Static _ = true -> _ => idtac end; intros _; repeat match goal with
  | Hh : host ?s = _ |- context [host ?s] => rewrite Hh
  | Hh : host ?s = _, Hr : context [host ?s] |- _ => rewrite Hh in Hr
  end; first [ reflexivity | assumption ].

Ltac gas_bound :=
  lazymatch goal with |- _ -> _ <= _ /\ _ => idtac end;
  intros _; split; [lia|];
  first [ left; first [ assumption | reflexivity | congruence ] | right; lia
        | right; repeat match goal with
          | _ : context [if ?b then _ else _] |- _ => destruct b
          end; lia ].

Ltac finish :=
  split; keeps_open; repeat match goal with |- context [if ?b then _ else _] => destruct b end;
  first [ ok_solve | static | words | gas_bound | congruence | lia | idtac ].

Tactic Notation "instr" reference(m) := unfold m; repeat wp_step; finish.

Ltac arith := unfold word, wordSize in *; lia.

Ltac alloc_step :=
  apply wp_allocateMemory; [ok_solve|arith| |];
  [ intros s1 Hk1 Hstop1 | intros s1 Hk1 Hstop1 Herr1 Hoff1 Hsize1 Hext1 Hlen1 ];
  match goal with Hk : keeps _ _ |- _ => pose proof (ok_memlen _ (k_ok _ _ Hk)) as Hml1 end;
  cbn beta iota delta [negb].

Ltac get2_step :=
  apply wp_get2; [ok_solve|arith|arith| |];
  [ intros s1 Hk1 Hstop1 | intros s1 b Hk1 Hstop1 Herr1 Hb Hext1 Hbval Hblen Hu1 ];
  cbn beta iota delta [negb fst snd].

Section Ok.
Context {W : Type} `{HostLaws W} `{CodecLaws}.
Context (R : W -> W -> Prop) `{!ReadRel R}.

Implicit Types s : state W.

Record instr_post (c : Z) (s s' : state W) : Prop := {
  p_ok : evm_ok s';
  p_code : code s' = code s;
  p_msg : msg s' = msg s;
  p_config : config s' = config s;
  p_ip : -1 <= ip s';
  p_words : ip s' + 1 < Z.of_nat (length (code s)) -> Forall word (stack s');
  p_gas : EIP150 (config s) = true ->
    gas s' <= gas s /\ (stop s' = true \/ gas s' + c <= gas s);
  p_static : c_Static (msg s) = true -> R (host s) (host s') }.

Definition instr_ok (k c : Z) (m : M W unit) : Prop :=
  forall s, evm_ok s -> Forall word (stack s) -> k <= sp s ->
    0 <= ip s < Z.of_nat (length (code s)) ->
    serves (c_Depth (msg s) + 1) (call_allowance (config s) (gas s)) ->
    wp m (fun _ => instr_post c s) s.

(** Looking up code leaves a related world. *)
Lemma wp_host_code a s Q :
  evm_ok s ->
  (forall b w, slice_ok b -> host_ok w -> R (host s) w -> Q b (set_host w s)) ->
  wp (host_code a) Q s.
Proof.
  intros Hok HQ. unfold host_code. apply wp_bind, wp_get. apply wp_bind, wp_modify, wp_ret.
  pose proof (ok_host _ Hok) as Hh. destruct (law_code _ a Hh). apply HQ; [done..|].
  by apply read_code.
Qed.

Lemma wp_host_codesize a s Q :
  evm_ok s ->
  (forall n w, is_u64 n -> host_ok w -> R (host s) w -> Q n (set_host w s)) ->
  wp (host_codesize a) Q s.
Proof.
  intros Hok HQ. unfold host_codesize. apply wp_bind, wp_get. apply wp_bind, wp_modify, wp_ret.
  pose proof (ok_host _ Hok) as Hh. destruct (law_codesize _ a Hh). apply HQ; [done..|].
  by apply read_codesize.
Qed.

(** ** Arithmetic, comparison and bit operations *)

Lemma opAdd_ok : instr_ok 2 0 opAdd.
Proof. open_instr 2. instr opAdd. Qed.
Lemma opMul_ok : instr_ok 2 0 opMul.
Proof. open_instr 2. instr opMul. Qed.
Lemma opSub_ok : instr_ok 2 0 opSub.
Proof. open_instr 2. instr opSub. Qed.
Lemma opDiv_ok : instr_ok 2 0 opDiv.
Proof. open_instr 2. instr opDiv. Qed.
Lemma opSDiv_ok : instr_ok 2 0 opSDiv.
Proof. open_instr 2. instr opSDiv. Qed.
Lemma opMod_ok : instr_ok 2 0 opMod.
Proof. open_instr 2. instr opMod. Qed.
Lemma opSMod_ok : instr_ok 2 0 opSMod.
Proof. open_instr 2. instr opSMod. Qed.

Lemma opExp_ok : instr_ok 2 0 opExp.
Proof. open_instr 2. instr opExp. Qed.
Lemma opAddMod_ok : instr_ok 3 0 opAddMod.
Proof. open_instr 3. instr opAddMod. Qed.
Lemma opMulMod_ok : instr_ok 3 0 opMulMod.
Proof. open_instr 3. instr opMulMod. Qed.
Lemma opAnd_ok : instr_ok 2 0 opAnd.
Proof. open_instr 2. instr opAnd. Qed.
Lemma opOr_ok : instr_ok 2 0 opOr.
Proof. open_instr 2. instr opOr. Qed.
Lemma opXor_ok : instr_ok 2 0 opXor.
Proof. open_instr 2. instr opXor. Qed.
Lemma opByte_ok : instr_ok 2 0 opByte.
Proof. open_instr 2. instr opByte. Qed.
Lemma opNot_ok : instr_ok 1 0 opNot.
Proof. open_instr 1. instr opNot. Qed.
Lemma opIsZero_ok : instr_ok 1 0 opIsZero.
Proof. open_instr 1. instr opIsZero. Qed.
Lemma opEq_ok : instr_ok 2 0 opEq.
Proof. open_instr 2. instr opEq. Qed.
Lemma opLt_ok : instr_ok 2 0 opLt.
Proof. open_instr 2. instr opLt. Qed.
Lemma opGt_ok : instr_ok 2 0 opGt.
Proof. open_instr 2. instr opGt. Qed.
Lemma opSlt_ok : instr_ok 2 0 opSlt.
Proof. open_instr 2. instr opSlt. Qed.
Lemma opSgt_ok : instr_ok 2 0 opSgt.
Proof. open_instr 2. instr opSgt. Qed.
Lemma opSignExtension_ok : instr_ok 1 0 opSignExtension.
Proof.
  open_instr 1. unfold opSignExtension. repeat wp_step; [finish|].
  cbn [stack set_stack head]. destruct st as [|x st]; cbn [head]; repeat wp_step; finish.
Qed.
Lemma opShl_ok : instr_ok 2 0 opShl.
Proof. open_instr 2. instr opShl. Qed.
Lemma opShr_ok : instr_ok 2 0 opShr.
Proof. open_instr 2. instr opShr. Qed.

Lemma opSar_ok : instr_ok 2 0 opSar.
Proof. open_instr 2. instr opSar. Qed.

(** ** Memory and storage *)

Lemma opMload_ok : instr_ok 1 0 opMload.
Proof.
  open_instr 1. unfold opMload. repeat wp_step. get2_step; repeat wp_step; finish.
  apply be_val_word; [apply Hb|]. rewrite Hblen. done.
Qed.

Lemma opMStore_ok : instr_ok 2 0 opMStore.
Proof.
  open_instr 2. unfold opMStore. repeat wp_step. alloc_step; repeat wp_step; [finish|].
  unfold is_u64, wordSize in *. rewrite Uint64_small by done. specialize (Hlen1 ltac:(done)).
  apply wp_mem_slice; [lia..|]. rewrite store_buf_spec;
    [|done|rewrite length_take, length_drop; lia].
  apply wp_bind, wp_deref. cbn beta. apply wp_mem_write; [lia|rewrite be_bytes_length; lia|].
  pose proof (write_evm_ok s1 z (be_bytes 32 z0) (k_ok _ _ Hk1) ltac:(lia)
    ltac:(rewrite be_bytes_length; lia) (be_bytes_ok _ _)).
  finish.
Qed.

Lemma opMStore8_ok : instr_ok 2 0 opMStore8.
Proof.
  open_instr 2. unfold opMStore8. repeat wp_step. alloc_step; repeat wp_step; [finish|].
  unfold is_u64 in *. rewrite Uint64_small by done. specialize (Hlen1 ltac:(done)).
  apply wp_mem_write; [lia|simpl; lia|].
  pose proof (write_evm_ok s1 z [Z.land (Uint64 z0) 255] (k_ok _ _ Hk1) ltac:(lia)
    ltac:(simpl; lia) ltac:(constructor; [rewrite land_255; by apply Z.mod_pos_bound|constructor])).
  finish.
Qed.

Lemma opSload_ok : instr_ok 1 1 opSload.
Proof.
  open_instr 1. unfold opSload. repeat wp_step; finish.
  all: try (by apply law_storage, ok_host).
Qed.

Lemma sstore_cost_range cfg st : 1 <= sstore_cost cfg st <= 20000.
Proof. unfold sstore_cost. destruct st; repeat case_match; lia. Qed.

Lemma opSStore_ok : instr_ok 2 1 opSStore.
Proof.
  open_instr 2. unfold opSStore. repeat wp_step; [finish|finish|].
  all: cbn [host msg config id set_stack].
  destruct (SetStorage _ _ _ _ _) as [status w] eqn:Es.
  assert (Hw' : host_ok w).
  { replace w with (snd (SetStorage (host s) (c_Address (msg s)) (bigToHash z) (bigToHash z0) (config s)))
      by (by rewrite Es). apply law_set; auto using ok_host with plg. }
  pose proof (sstore_cost_range (config s) status).
  repeat wp_step. 
  all: finish. all: try (intros Hs; cbn in E; congruence).
Qed.

Hint Resolve keccak_word : plg.

Lemma opSha3_ok : instr_ok 2 0 opSha3.
Proof. open_instr 2. unfold opSha3. repeat wp_step. get2_step; repeat wp_step; finish. Qed.

Lemma opPop_ok : instr_ok 1 0 opPop.
Proof. open_instr 1. instr opPop. Qed.

(** ** Context *)

Lemma opAddress_ok : instr_ok 0 0 opAddress.
Proof. open_instr 0. instr opAddress. Qed.
Lemma opBalance_ok : instr_ok 1 1 opBalance.
Proof. open_instr 1. instr opBalance. Qed.
Lemma opSelfBalance_ok : instr_ok 0 0 opSelfBalance.
Proof. open_instr 0. instr opSelfBalance. Qed.
Lemma opChainID_ok : instr_ok 0 0 opChainID.
Proof. open_instr 0. instr opChainID. Qed.
Lemma opOrigin_ok : instr_ok 0 0 opOrigin.
Proof. open_instr 0. instr opOrigin. Qed.
Lemma opCaller_ok : instr_ok 0 0 opCaller.
Proof. open_instr 0. instr opCaller. Qed.
Lemma opCallValue_ok : instr_ok 0 0 opCallValue.
Proof.
  open_instr 0. unfold opCallValue. repeat wp_step.
  destruct (c_Value (msg s)) as [v|] eqn:Hv; repeat wp_step; finish.
  apply (co_value _ (ok_msg _ Hok) _ Hv).
Qed.
Lemma opCallDataLoad_ok : instr_ok 1 0 opCallDataLoad.
Proof. open_instr 1. instr opCallDataLoad. Qed.
Lemma opCallDataSize_ok : instr_ok 0 0 opCallDataSize.
Proof. open_instr 0. instr opCallDataSize. Qed.
Lemma opCodeSize_ok : instr_ok 0 0 opCodeSize.
Proof. open_instr 0. instr opCodeSize. Qed.
Lemma opExtCodeSize_ok : instr_ok 1 1 opExtCodeSize.
Proof.
  open_instr 1. unfold opExtCodeSize. repeat wp_step; [finish|].
  apply wp_host_codesize; [ok_solve|]. intros n w Hn Hhw HR. repeat wp_step. finish.
Qed.
Lemma opGasPrice_ok : instr_ok 0 0 opGasPrice.
Proof. open_instr 0. instr opGasPrice. Qed.
Lemma opReturnDataSize_ok : instr_ok 0 0 opReturnDataSize.
Proof. open_instr 0. instr opReturnDataSize. Qed.
Lemma opExtCodeHash_ok : instr_ok 1 1 opExtCodeHash.
Proof. open_instr 1. instr opExtCodeHash. Qed.
Lemma opPC_ok : instr_ok 0 0 opPC.
Proof. open_instr 0. instr opPC. Qed.
Lemma opMSize_ok : instr_ok 0 0 opMSize.
Proof. open_instr 0. instr opMSize. Qed.
Lemma opGas_ok : instr_ok 0 0 opGas.
Proof. open_instr 0. instr opGas. Qed.
Lemma opBlockHash_ok : instr_ok 1 0 opBlockHash.
Proof. open_instr 1. instr opBlockHash. Qed.
Lemma opCoinbase_ok : instr_ok 0 0 opCoinbase.
Proof. open_instr 0. instr opCoinbase. Qed.
Lemma opTimestamp_ok : instr_ok 0 0 opTimestamp.
Proof. open_instr 0. instr opTimestamp. Qed.
Lemma opNumber_ok : instr_ok 0 0 opNumber.
Proof. open_instr 0. instr opNumber. Qed.
Lemma opDifficulty_ok : instr_ok 0 0 opDifficulty.
Proof. open_instr 0. instr opDifficulty. Qed.
Lemma opGasLimit_ok : instr_ok 0 0 opGasLimit.
Proof. open_instr 0. instr opGasLimit. Qed.

(** ** Copies to memory *)

Lemma copy_ok c s s1 memOffset size data off :
  evm_ok s1 -> slice_ok data -> 0 <= off -> is_u64 memOffset -> is_u64 size ->
  (size <> 0 -> memOffset + size <= Z.of_nat (length (memory s1))) ->
  (forall m, evm_ok (set_memory m s1) -> instr_post c s (set_memory m s1)) ->
  instr_post c s s1 ->
  wp (copy_to_memory memOffset data (Uint64 size) off) (fun _ => instr_post c s) s1.
Proof.
  intros Hok Hd Hoff Hm Hs Hlen Hpost Hpost1. unfold copy_to_memory. rewrite !Uint64_small by done.
  destruct (size =? 0) eqn:E; breflect; [done|]. rewrite setBytes_spec by done.
  specialize (Hlen E). unfold is_u64 in *.
  apply wp_mem_write; [lia|rewrite padded_length; lia|]. apply Hpost.
  apply write_evm_ok; [done|lia|rewrite padded_length; lia|]. apply padded_ok, Hd.
Qed.

Ltac copy_done :=
  apply copy_ok; [ok_solve|pose_ok; eauto 4 with plg|arith|done|done| | |];
  [ keeps_open; intros; repeat match goal with Hm : memory ?s = _ |- context [memory ?s] =>
      rewrite Hm end; eauto
  | intros m Hm; finish | finish ].

Lemma opExtCodeCopy_ok : instr_ok 4 1 opExtCodeCopy.
Proof.
  open_instr 4. unfold opExtCodeCopy. repeat wp_step.
  alloc_step; repeat wp_step; [finish..|].
  apply wp_host_code; [ok_solve|]. intros data w Hdata Hhw HR. copy_done.
Qed.

Lemma opCallDataCopy_ok : instr_ok 3 0 opCallDataCopy.
Proof.
  open_instr 3. unfold opCallDataCopy. repeat wp_step.
  alloc_step; repeat wp_step; [finish..|]. copy_done.
Qed.

Lemma opCodeCopy_ok : instr_ok 3 0 opCodeCopy.
Proof.
  open_instr 3. unfold opCodeCopy. repeat wp_step.
  alloc_step; repeat wp_step; [finish..|]. copy_done.
Qed.

Lemma opReturnDataCopy_ok : instr_ok 3 0 opReturnDataCopy.
Proof.
  open_instr 3. unfold opReturnDataCopy. repeat wp_step; [finish..|].
  alloc_step; repeat wp_step; [finish..|]. breflect.
  apply IsUint64_true in E0, E2. pose_ok. rewrite (Uint64_small z) by done.
  rewrite !Uint64_small in * by done. unfold is_u64 in *.
  assert (Hz : z1 <> 0) by (destruct (decide (z1 = 0)) as [->|]; done).
  specialize (Hlen1 Hz). set (data := take _ _).
  assert (Hd : length data = Z.to_nat z1).
  { unfold data. rewrite length_take, length_drop. lia. }
  assert (Hm : memory s' = memory s1) by done.
  apply wp_mem_write; [lia|rewrite Hm, Hd; lia|].
  pose proof (write_evm_ok s' z data ltac:(done) ltac:(lia) ltac:(rewrite Hm, Hd; lia)
    ltac:(apply Forall_take, Forall_drop, rd_slice; done)).
  finish.
Qed.

(** ** Control *)

Lemma opSelfDestruct_ok : instr_ok 1 1 opSelfDestruct.
Proof.
  open_instr 1. unfold opSelfDestruct. repeat wp_step; finish.
Qed.

Lemma opJump_ok : instr_ok 1 0 opJump.
Proof.
  open_instr 1. unfold opJump. repeat wp_step. unfold wp.
  edestruct jump_to_run as [(? & _ & ->)|(_ & ->)]; [ok_solve|arith|finish..].
Qed.

Lemma opJumpi_ok : instr_ok 2 0 opJumpi.
Proof.
  open_instr 2. unfold opJumpi. repeat wp_step; [|finish]. unfold wp.
  edestruct jump_to_run as [(? & _ & ->)|(_ & ->)]; [ok_solve|arith|finish..].
Qed.

Lemma opJumpDest_ok : instr_ok 0 0 opJumpDest.
Proof. open_instr 0. instr opJumpDest. Qed.

Lemma opPush_ok n : 1 <= n <= 32 -> instr_ok 0 0 (opPush n).
Proof.
  intros Hn. open_instr 0. unfold opPush. repeat wp_step.
  pose proof (ok_code _ Hok) as Hc. cbn [ip set_stack]. split; cbn.
  all: first [ok_solve | static | done | lia | idtac].
  intros Hlt. rewrite (proj2 (Z.ltb_ge _ _)) by lia.
  apply Forall_cons. split; [|by rewrite Hst]. apply be_val_word.
  - apply Forall_take, Forall_drop, Hc.
  - rewrite length_take. lia.
Qed.

Lemma opDup_ok n : 1 <= n <= 16 -> instr_ok 0 0 (opDup n).
Proof.
  intros Hn. open_instr 0. unfold opDup. repeat wp_step; breflect; [finish|].
  unfold sp in E. rewrite Hst in E.
  destruct (lookup_lt_is_Some_2 st (Z.to_nat (n - 1)) ltac:(lia)) as [v Hv].
  eapply wp_peekAt; [by rewrite Hst|]. repeat wp_step. finish.
  by apply (Forall_lookup_1 _ _ _ _ Hw Hv).
Qed.

Lemma opSwap_ok n : 1 <= n <= 16 -> instr_ok 0 0 (opSwap n).
Proof.
  intros Hn. open_instr 0. unfold opSwap. repeat wp_step; breflect; [finish|].
  unfold sp in E. rewrite Hst in E. unfold wp, swap. rewrite Hst.
  destruct (lookup_lt_is_Some_2 st 0%nat ltac:(lia)) as [a Ha].
  destruct (lookup_lt_is_Some_2 st (Z.to_nat n) ltac:(lia)) as [b Hb].
  rewrite Ha, Hb. finish. 
  pose proof (Forall_lookup_1 _ _ _ _ Hw Ha). pose proof (Forall_lookup_1 _ _ _ _ Hw Hb).
  apply Forall_insert; [by apply Forall_insert|done].
Qed.

Lemma opStop_ok : instr_ok 0 1 opStop.
Proof. open_instr 0. instr opStop. Qed.

Lemma opHalt_ok op : instr_ok 2 1 (opHalt op).
Proof.
  open_instr 2. unfold opHalt. repeat wp_step; [finish|].
  get2_step; repeat wp_step; pose proof slice_ok_nil; pose_ok; finish.
Qed.

End Ok.
