(* ===== verification/EvmOkCall.v ===== *)
(** * Logs, contract creation and calls keep the machine well-formed *)

From S2P Require Import Prelude ChainTypes BigInt Runtime EvmState EvmInstr EvmWord EvmWp EvmOk.
Local Open Scope go_scope.
Set Default Proof Using "All".

Section OkCall.
Context {W : Type} `{HostLaws W} `{CodecLaws}.
Context (R : W -> W -> Prop) `{!ReadRel R}.

Abbreviation instr_ok := (instr_ok R).
Abbreviation instr_post := (instr_post R).
Implicit Types s : state W.

Lemma wp_pop_topics n s Q :
  (n <= length (stack s))%nat ->
  (forall ts, Q ts (set_stack (drop n (stack s)) s)) -> wp (pop_topics n) Q s.
Proof using Type.
  revert s Q. induction n as [|n IH]; intros s Q Hn HQ; cbn [pop_topics].
  - apply wp_ret. specialize (HQ []). rewrite drop_0 in HQ. by destruct s.
  - destruct (stack s) as [|x st] eqn:Hst; [simpl in Hn; lia|].
    apply wp_bind. eapply wp_pop; [done|]. cbn beta. apply wp_bind, IH; [simpl in *; lia|].
    intros ts. apply wp_ret. apply HQ.
Qed.

Lemma opLog_ok n : 1 <= n <= 5 -> instr_ok 0 0 (opLog n).
Proof.
  intros Hn. open_instr 0. unfold opLog. repeat wp_step; breflect; [finish|finish|].
  unfold sp in E0. rewrite Hst in E0.
  destruct st as [|x [|y st]]; [simpl in E0; lia..|].
  apply Forall_cons in Hw as [Hx Hw]. apply Forall_cons in Hw as [Hy Hw].
  eapply wp_pop; [stk|]. repeat wp_step. apply wp_pop_topics; [cbn in *; lia|]. intros ts.
  repeat wp_step. pose proof (Forall_drop _ (Z.to_nat (n - 1)) _ Hw) as Hwd.
  get2_step; repeat wp_step; finish.
Qed.

(** What building a contract from the operands guarantees: [P] holds of the
    contract, [st] is the stack left over and [c] the least cost of the operation. *)
Record built_ok (P : Contract -> Prop) (c : Z) (s : state W) (st : list Z) (b : built)
  (s' : state W) : Prop := {
  b_ok : evm_ok s';
  b_ip : ip s' = ip s;
  b_code : code s' = code s;
  b_host : R (host s) (host s');
  b_msg : msg s' = msg s;
  b_config : config s' = config s;
  b_stack : stack s' = st;
  b_gas : gas s' <= gas s;
  b_built : match b with
    | NotBuilt => stop s' = true
    | Bad None => gas s' + c <= gas s
    | Bad (Some k) | Built k _ _ =>
        contract_ok k /\ (EIP150 (config s) = true -> gas s' + c_Gas k + c <= gas s) /\
        (c_Static (msg s) = true -> c_Static k = true) /\
        c_Depth k = c_Depth (msg s) + 1 /\ P k
    end;
  b_range : match b with
    | Built _ o n => 0 <= o /\ 0 <= n /\ (n <> 0 -> o + n <= Z.of_nat (length (memory s')))
    | _ => True
    end }.

Ltac host_rel :=
  repeat match goal with Hh : host ?s = _ |- context [host ?s] => rewrite Hh end; reflexivity.

Lemma create_address_ok s nonce : addr_ok (CreateAddress (c_Address (msg s)) nonce).
Proof using Type*. apply BytesToAddress_ok, Forall_drop, keccak256_bytes. Qed.

Lemma create2_address_ok s salt input : addr_ok (CreateAddress2 (c_Address (msg s)) salt input).
Proof using Type*. apply BytesToAddress_ok, Forall_drop, keccak256_bytes. Qed.

Lemma creation_ok depth origin s address value g input :
  evm_ok s -> addr_ok address -> word value -> is_u64 g -> slice_ok input ->
  contract_ok (NewContractCreation depth origin (c_Address (msg s)) address (Some value) g input).
Proof using Type.
  intros Hs Ha Hv Hg Hi. split; cbn; try done.
  - apply slice_ok_nil.
  - by intros v [= <-].
  - apply co_addr, ok_msg, Hs.
Qed.

(** All but one 64th of the available gas. *)
Lemma all_but_64th g : is_u64 g -> 0 <= g -u (g / 64) <= g.
Proof using Type.
  unfold is_u64. intros Hg. pose proof (Z.div_pos g 64). pose proof (Z.div_le_upper_bound g 64 g).
  rewrite u64_small by lia. lia.
Qed.

Lemma buildCreateContract_ok op s value offset size salt st :
  evm_ok s -> c_Static (msg s) = false ->
  word value -> word offset -> word size -> word salt ->
  stack s = value :: offset :: size :: (if op =? CREATE2 then salt :: st else st) ->
  wp (buildCreateContract op) (built_ok (fun _ => True) 0 s st) s.
Proof.
  intros Hok Hstatic Hv Ho Hl Hsalt Hst. unfold buildCreateContract.
  destruct (op =? CREATE2); repeat wp_step; get2_step; repeat wp_step;
    split; keeps_open; first [ok_solve | done | congruence | lia | host_rel | idtac].
  all: split_and!; [apply creation_ok; try done; [destruct (op =? CREATE)|u64_solve]|
    cbn; lia|congruence|cbn; congruence|done].
  all: first [apply create_address_ok | apply create2_address_ok].
Qed.

(** ** [opCreate] *)

(** The nested call: the world and the result it leaves. *)
Lemma wp_callx c s Q :
  evm_ok s -> contract_ok c -> serves (c_Depth c) (c_Gas c) ->
  (forall r w, host_ok w -> result_ok c r -> (read_only c -> R (host s) w) ->
     Q r (set_host w s)) ->
  wp (callx c) Q s.
Proof.
  intros Hok Hc Hsv HQ. unfold callx. apply wp_bind, wp_get, wp_bind.
  pose proof (ok_host _ Hok) as Hh. destruct (law_call _ _ Hh Hc Hsv) as (r & w & E & Hw & Hr).
  rewrite E. apply wp_deref. apply wp_bind, wp_modify, wp_ret. cbn.
  apply HQ; [done|done|]. intros Hro. by eapply read_call.
Qed.

(** What the frame may pass on covers the contract it built. *)
Lemma built_serves c s k s' :
  serves (c_Depth (msg s) + 1) (call_allowance (config s) (gas s)) ->
  0 <= c -> evm_ok s' -> contract_ok k -> c_Depth k = c_Depth (msg s) + 1 ->
  (EIP150 (config s) = true -> gas s' + c_Gas k + c <= gas s) ->
  serves (c_Depth k) (c_Gas k).
Proof using Type.
  intros Hsv Hc0 Hok Hk Hd Hg. rewrite Hd. eapply law_serves; [exact Hsv|].
  pose proof (co_gas _ Hk) as Hgk. pose proof (ok_gas _ Hok) as Hgs. unfold is_u64 in *.
  unfold call_allowance. destruct (EIP150 _); [specialize (Hg eq_refl)|unfold MaxUint64]; lia.
Qed.

Lemma contract_ok_Type t c : contract_ok c -> contract_ok (set_Type t c).
Proof using Type. by intros []. Qed.

Lemma result_word_ok c r : contract_ok c -> result_ok c r -> is_u64 (GasLeft r).
Proof using Type. intros Hc Hr. destruct (ro_gas _ _ Hr). pose proof (co_gas _ Hc). unfold is_u64 in *. lia. Qed.

(** The operands of [opCreate]. *)
Lemma create_operands op s :
  Forall word (stack s) -> (if op =? CREATE2 then 4 else 3) <= sp s ->
  exists value offset size salt st,
    stack s = value :: offset :: size :: (if op =? CREATE2 then salt :: st else st) /\
    word value /\ word offset /\ word size /\ word salt /\ Forall word st.
Proof using Type.
  unfold sp. intros Hw Hk.
  destruct (stack s) as [|a [|b [|c st]]]; [destruct (op =? CREATE2); simpl in Hk; lia..|].
  apply Forall_cons in Hw as [? Hw]. apply Forall_cons in Hw as [? Hw].
  apply Forall_cons in Hw as [? Hw]. exists a, b, c.
  destruct (op =? CREATE2); [|exists 0, st; pose proof word_0; done].
  destruct st as [|d st]; [simpl in Hk; lia|]. apply Forall_cons in Hw as [? Hw]. by exists d, st.
Qed.

Ltac built_open Hb :=
  destruct Hb; cbn [ip code host msg config memory stack err stop gas returnData ret set_ip
    set_host set_memory set_lastGasCost set_stack set_err set_stop set_gas set_consumed
    set_returnData set_ret] in *.

Lemma opCreate_ok op : instr_ok (if op =? CREATE2 then 4 else 3) 0 (opCreate op).
Proof.
  intros s Hok Hw Hk Hip Hsv. unfold opCreate. do 2 wp_step. destruct (c_Static (msg s)) eqn:Hs.
  { repeat wp_step. finish. }
  repeat wp_step; [finish|]. pose proof slice_ok_nil.
  destruct (create_operands op s Hw Hk) as (value & offset & size & salt & st & Hst & Hv & Ho & Hl & Hsa & Hws).
  eapply wp_mono;
    [apply (buildCreateContract_ok op _ value offset size salt st); [ok_solve|done..]|].
  intros b s1 Hb. cbn beta. destruct b as [c o n| |[c|]].
  - destruct (b_built _ _ _ _ _ _ Hb) as (Hc & Hg & _ & Hd & _). apply wp_bind, wp_callx;
      [apply (b_ok _ _ _ _ _ _ Hb)|by apply contract_ok_Type|
       exact (built_serves 0 s c s1 Hsv ltac:(lia) (b_ok _ _ _ _ _ _ Hb) Hc Hd Hg)|].
    intros r w Hhw Hr _. cbn beta. pose proof (result_word_ok _ _ (contract_ok_Type Create _ Hc) Hr).
    destruct Hr as [Hret Hleft]. unfold add_gas. repeat wp_step.
    all: pose proof (ok_gas _ Hok) as Hg0; pose proof (ok_gas _ (b_ok _ _ _ _ _ _ Hb)) as Hg1;
      unfold is_u64 in Hg0, Hg1; built_open Hb; finish.
    all: first [ by apply addr_word, (co_addr _ Hc)
               | intros He; specialize (Hg He); cbn in Hleft; rewrite !u64_small by lia; lia ].
  - repeat wp_step. built_open Hb. finish.
  - destruct (b_built _ _ _ _ _ _ Hb) as (Hc & Hg & _). unfold push_bad, add_gas. repeat wp_step.
    pose proof (ok_gas _ Hok) as Hg0. pose proof (ok_gas _ (b_ok _ _ _ _ _ _ Hb)) as Hg1.
    unfold is_u64 in Hg0, Hg1. pose proof (co_gas _ Hc) as Hcg.
    unfold is_u64 in Hcg. built_open Hb. finish.
    intros He. specialize (Hg He). rewrite !u64_small by lia. lia.
  - unfold push_bad. repeat wp_step. built_open Hb. finish.
Qed.
(** ** [opCall] *)

(** Under EIP-150 the gas passed on and the cost of the call never wrap: what a
    frame pays covers what the callee can give back. *)
Lemma call_gas_bound G cost g tv :
  is_u64 G -> 40 <= cost <= 40000 -> (tv = true -> 9000 <= cost) ->
  (let a := G -u cost in 0 <= g <= a -u (a / 64)) ->
  cost +u g <= G ->
  G - (cost +u g) + (if tv then g +u 2300 else g) + 1 <= G.
Proof using Type.
  unfold is_u64. cbv zeta. intros HG Hc Htv Hg Hle.
  assert (Hcase : cost <= G \/ G < cost) by lia.
  destruct Hcase as [Hcase|Hcase].
  - rewrite (u64_small (G - cost)) in Hg by lia.
    pose proof (Z.div_pos (G - cost) 64 ltac:(lia) ltac:(lia)).
    rewrite (u64_small (G - cost - (G - cost) / 64)) in Hg
      by (pose proof (Z.div_le_upper_bound (G - cost) 64 (G - cost)); lia).
    rewrite (u64_small (cost + g)) by lia. destruct tv; [|lia].
    specialize (Htv eq_refl). rewrite u64_small by lia. lia.
  - exfalso. assert (Ha : G -u cost = G - cost + two64).
    { unfold u64. symmetry. apply (Z.mod_unique_pos _ _ (-1)); unfold two64 in *; lia. }
    rewrite Ha in Hg. set (a := G - cost + two64) in *.
    assert (Hd : two64 / 64 - 1000 <= a / 64 <= a).
    { split; [apply Z.div_le_lower_bound|apply Z.div_le_upper_bound]; unfold two64 in *; 
        vm_compute (_ / 64); lia. }
    rewrite (u64_small (a - a / 64)) in Hg by (pose proof (Z.div_pos a 64); unfold two64 in *; lia).
    assert (two64 / 64 = 288230376151711744) by done.
    rewrite u64_small in Hle by (unfold two64 in *; lia). lia.
Qed.

Definition has_value (op : Z) : bool := (op =? CALL) || (op =? CALLCODE).

(** The contract of a call, before the adjustments for static and delegate calls. *)
Lemma new_call_ok s depth origin to value g callee input :
  evm_ok s -> addr_ok to -> (forall v, value = Some v -> word v) -> is_u64 g ->
  slice_ok callee -> slice_ok input ->
  contract_ok (NewContractCall depth origin (c_Address (msg s)) to value g callee input).
Proof using Type. intros Hs Ht Hv Hg Hi. split; cbn; try done. apply co_addr, ok_msg, Hs. Qed.

Lemma call_contract_ok s op addr value g callee args :
  evm_ok s -> addr_ok addr -> (forall v, value = Some v -> word v) -> is_u64 g ->
  slice_ok callee -> slice_ok args ->
  let k := call_contract op s addr value g callee args in
  contract_ok k /\ c_Gas k = g /\ (c_Static (msg s) = true -> c_Static k = true) /\
  c_Depth k = c_Depth (msg s) + 1 /\ (op = CALL -> c_Value k = value).
Proof using Type.
  intros Hs Ha Hv Hg Hcl Hi. unfold call_contract. pose proof (ok_msg _ Hs) as Hm.
  pose proof (new_call_ok s (c_Depth (msg s) + 1) (c_Origin (msg s)) addr value g callee args) as Hk.
  destruct Hk; try done. destruct Hm.
  destruct ((op =? STATICCALL) || c_Static (msg s)) eqn:E1,
    ((op =? CALLCODE) || (op =? DELEGATECALL)), (op =? DELEGATECALL) eqn:E2; cbn in *;
  split_and!; try (split; cbn; done); try done.
  all: intros Hst; first [rewrite Hst, orb_true_r in E1; done | by rewrite Hst in E2].
Qed.

Lemma call_cost_range op s addr tv :
  40 <= call_cost op s addr tv <= 40000 /\ (tv = true -> 9000 <= call_cost op s addr tv).
Proof using Type.
  unfold call_cost. destruct (EIP150 (config s)), (op =? CALL), (EIP158 (config s)), tv,
    (Empty (host s) addr), (AccountExists (host s) addr); split; done || vm_compute; done.
Qed.

Lemma call_gas_range s cost ig :
  is_u64 (gas s) -> is_u64 (call_gas s cost ig) /\
  (EIP150 (config s) = true -> 0 <= call_gas s cost ig <=
     (gas s -u cost) -u ((gas s -u cost) / 64)).
Proof using Type.
  intros Hg. unfold call_gas. destruct (EIP150 (config s)); [|split; [apply Uint64_range|done]].
  destruct (negb (IsUint64 ig) || _) eqn:E.
  - split; [apply u64_range|]. intros _. split; [apply u64_range|lia].
  - breflect. pose proof (Uint64_range ig) as Hu. unfold is_u64 in *. split; [done|]. lia.
Qed.

Lemma call_built op s s1 s' addr value ig callee args tv :
  evm_ok s1 -> config s1 = config s -> msg s1 = msg s -> gas s1 <= gas s ->
  addr_ok addr -> (forall v, value = Some v -> word v) -> slice_ok callee -> slice_ok args ->
  let cost := call_cost op s1 addr tv in
  let g := call_gas s1 cost ig in
  cost +u g <= gas s1 -> gas s' = gas s1 - (cost +u g) ->
  let k := call_contract op s1 addr value (if tv then g +u 2300 else g) callee args in
  contract_ok k /\ (EIP150 (config s) = true -> gas s' + c_Gas k + 1 <= gas s) /\
  (c_Static (msg s) = true -> c_Static k = true) /\
  c_Depth k = c_Depth (msg s) + 1 /\ (op = CALL -> c_Value k = value).
Proof using Type.
  intros Hs1 Hcfg Hmsg Hle Ha Hv Hcl Hargs cost g Hcost Hg' k.
  destruct (call_cost_range op s1 addr tv) as [Hc Htv].
  destruct (call_gas_range s1 cost ig (ok_gas _ Hs1)) as [Hg Hav].
  assert (Hgu : is_u64 (if tv then g +u 2300 else g)) by (destruct tv; [apply u64_range|done]).
  destruct (call_contract_ok s1 op addr value _ callee args Hs1 Ha Hv Hgu Hcl Hargs)
    as (Hk & Hkg & Hks & Hkd & Hkv).
  fold k in Hk, Hkg, Hks, Hkd, Hkv. split_and!; [done| |by rewrite <- Hmsg..|done].
  rewrite <- Hcfg. intros He. rewrite Hkg, Hg'.
  pose proof (call_gas_bound (gas s1) cost g tv (ok_gas _ Hs1) Hc Htv (Hav He) Hcost). lia.
Qed.

Lemma buildCallContract_ok op s ig addr v io isz ro rsz st :
  evm_ok s -> word ig -> word v -> word io -> word isz -> word ro -> word rsz ->
  stack s = ig :: addr :: (if has_value op then [v] else []) ++ io :: isz :: ro :: rsz :: st ->
  wp (buildCallContract op) (built_ok (fun k => op = CALL -> c_Value k = Some v) 1 s st) s.
Proof.
  intros Hok Hig Hv Hio His Hro Hrs Hst. unfold buildCallContract. unfold has_value in Hst.
  assert (Haddr : addr_ok (BytesToAddress (Bytes addr))) by apply BytesToAddress_ok, Bytes_ok.
  destruct ((op =? CALL) || (op =? CALLCODE)) eqn:Eval; cbn [app] in Hst; repeat wp_step;
    (get2_step; [repeat wp_step; split; keeps_open; first [ok_solve|done|congruence|lia|host_rel] |]);
    repeat wp_step.
  all: rename s1 into s2, Hk1 into Hk2, Hstop1 into Hstop2, Herr1 into Herr2, Hext1 into Hext2.
  all: alloc_step; repeat wp_step.
  all: try (split; keeps_open; first [ok_solve|done|congruence|lia|host_rel]).
  all: apply (wp_host_code R); [ok_solve|]; intros callee w Hcl Hhw HR; repeat wp_step.
  all: pose_ok; split; keeps_open; rewrite ?Uint64_small by done;
    first [ok_solve|done|congruence|lia|unfold is_u64 in *; lia|idtac].
  all: try (lazymatch goal with |- R _ _ => idtac end; repeat match goal with
    | Hh : host ?s = _, Hr : context [host ?s] |- _ => rewrite Hh in Hr end; assumption).
  all: lazymatch goal with
    | |- _ /\ _ /\ (_ <> 0 -> _) =>
        split_and!; [apply Hoff1|apply Hsize1|]; intros Hz; specialize (Hlen1 Hz); congruence
    | |- contract_ok (call_contract _ _ _ (Some _) _ _ _) /\ _ =>
        apply (call_built op s s1 s' _ (Some v) ig callee b (negb (Z.sgn v =? 0)));
        first [done|congruence|lia|by intros ? [= <-]]
    | |- contract_ok (call_contract _ _ _ None _ _ _) /\ _ =>
        destruct (call_built op s s1 s' (BytesToAddress (Bytes addr)) None ig callee b false)
          as (? & ? & ? & ? & _); first [done|congruence|lia|idtac];
        split_and!; try done; intros ->; done
    end.
Qed.
Lemma call_operands op s :
  Forall word (stack s) -> (if has_value op then 7 else 6) <= sp s ->
  exists ig addr v io isz ro rsz st,
    stack s = ig :: addr :: (if has_value op then [v] else []) ++ io :: isz :: ro :: rsz :: st /\
    word ig /\ word v /\ word io /\ word isz /\ word ro /\ word rsz /\ Forall word st.
Proof using Type.
  unfold sp. intros Hw Hk. destruct (stack s) as [|a [|b [|c [|d [|e [|f st]]]]]];
    [destruct (has_value op); simpl in Hk; lia..|].
  do 6 (apply Forall_cons in Hw as [? Hw]). exists a, b.
  destruct (has_value op).
  - destruct st as [|g st]; [simpl in Hk; lia|]. apply Forall_cons in Hw as [? Hw].
    by exists c, d, e, f, g, st.
  - exists 0, c, d, e, f, st. pose proof word_0. done.
Qed.

(** Copying the return value into the range reserved for it. *)
Lemma wp_copy_return o n r s (Q : unit -> state W -> Prop) :
  evm_ok s -> 0 <= o -> 0 <= n -> (n <> 0 -> o + n <= Z.of_nat (length (memory s))) ->
  slice_ok (ReturnValue r) ->
  Q tt s -> (forall m, evm_ok (set_memory m s) -> Q tt (set_memory m s)) ->
  wp (if (Succeeded r || Reverted r) && ((0 <? length (ReturnValue r))%nat && (0 <? n))
      then dst ← mem_slice o n; mem_write o (take (length dst) (ReturnValue r))
      else mret tt) Q s.
Proof using Type.
  intros Hok Ho Hn Hlen [Hr _] Hs Hm. pose proof (ok_memlen _ Hok).
  destruct (_ && _) eqn:E; [|by apply wp_ret]. apply andb_prop in E as [_ E].
  apply andb_prop in E as [_ E]. breflect. specialize (Hlen ltac:(lia)).
  apply wp_bind, wp_mem_slice; [lia..|].
  set (d := take _ (drop _ _)). assert (Hd : length d = Z.to_nat n).
  { unfold d. rewrite length_take, length_drop. lia. }
  rewrite Hd. apply wp_mem_write; [lia|rewrite length_take; lia|].
  apply Hm, write_evm_ok; [done|lia|rewrite length_take; lia|by apply Forall_take].
Qed.

(** The write check of [CALL]: in a static frame it lets only value 0 through. *)
Lemma wp_write_check op v s (Q : bool -> state W -> Prop) :
  (op = CALL -> stack s !! 2%nat = Some v) -> word v ->
  (forall b, (b = false -> op = CALL -> c_Static (msg s) = true -> v = 0) -> Q b s) ->
  wp (if (op =? CALL) && c_Static (msg s) then v0 ← peekAt 3; mret (0 <? BitLen v0)
      else mret false) Q s.
Proof using Type.
  intros Hv Hw HQ. destruct (op =? CALL) eqn:Eop; cbn [andb]; breflect.
  2: { apply wp_ret, HQ. congruence. }
  destruct (c_Static (msg s)) eqn:Es; [|apply wp_ret, HQ; congruence].
  apply wp_bind, (wp_peekAt 3 v), wp_ret, HQ; [by apply Hv|].
  intros Hb _ _. breflect. pose proof (proj1 (BitLen_le v 0 ltac:(lia)) ltac:(lia)) as Hle.
  simpl in Hle. lia.
Qed.

Lemma callType_Call op ct : callType op = Some ct -> ct <> Create /\ (ct = Call -> op = CALL).
Proof using Type.
  unfold callType. repeat case_match; breflect; intros [= <-]; split; try done; congruence.
Qed.

Lemma opCall_ok op : is_Some (callType op) -> instr_ok (if has_value op then 7 else 6) 1 (opCall op).
Proof.
  intros [ct Hct] s Hok Hw Hk Hip Hsv. pose proof slice_ok_nil as Hnil. unfold opCall. do 4 wp_step.
  destruct (call_operands op s Hw Hk) as
    (ig & addr & v & io & isz & ro & rsz & st & Hst & Hig & Hv & Hio & His & Hro & Hrs & Hws).
  apply wp_bind, (wp_write_check op v); [|done|].
  { intros ->. cbn in Hst |- *. by rewrite Hst. }
  intros writes Hwr. repeat wp_step; [clear Hst; finish..|].
  rewrite Hct. apply wp_deref. repeat wp_step.
  eapply wp_mono; [apply (buildCallContract_ok op _ ig addr v io isz ro rsz st); [ok_solve|done..]|].
  intros b s1 Hb. cbn beta.
  assert (Hg1 := ok_gas _ (b_ok _ _ _ _ _ _ Hb)). assert (Hg0 := ok_gas _ Hok). unfold is_u64 in Hg0, Hg1.
  destruct b as [c o n| |[c|]].
  - destruct (b_built _ _ _ _ _ _ Hb) as (Hc & Hg & Hcs & Hd & Hval).
    destruct (b_range _ _ _ _ _ _ Hb) as (Ho & Hn & Hrange).
    apply wp_bind, wp_callx; [apply (b_ok _ _ _ _ _ _ Hb)|by apply contract_ok_Type|
      exact (built_serves 1 s c s1 Hsv ltac:(lia) (b_ok _ _ _ _ _ _ Hb) Hc Hd Hg)|].
    intros r w Hhw Hr HR. cbn beta. pose proof (result_word_ok _ _ (contract_ok_Type ct _ Hc) Hr).
    destruct Hr as [Hret Hleft]. cbn in Hleft, HR. do 3 wp_step.
    pose proof (b_ok _ _ _ _ _ _ Hb) as Hok1.
    apply wp_copy_return; [ok_solve|done|done|exact Hrange|done|..]; unfold add_gas;
      [|intros m Hm]; repeat wp_step; built_open Hb; finish.
    all: try (intros He; specialize (Hg He); rewrite !u64_small by lia; lia).
    all: intros Hs; etrans; [exact b_host0|]; apply HR; split; [by apply Hcs|apply (callType_Call _ _ Hct)|].
    all: intros Ht; apply (callType_Call _ _ Hct) in Ht; cbn; rewrite Hval by done; f_equal; by apply Hwr.
  - repeat wp_step. built_open Hb. finish.
  - destruct (b_built _ _ _ _ _ _ Hb) as (Hc & Hg & _). unfold push_bad, add_gas. repeat wp_step.
    pose proof (co_gas _ Hc) as Hcg. unfold is_u64 in Hcg. built_open Hb. finish.
    intros He. specialize (Hg He). rewrite !u64_small by lia. lia.
  - unfold push_bad. repeat wp_step. built_open Hb. finish.
Qed.

End OkCall.
