(* ===== verification/EvmProps.v ===== *)
(** * Theorems about the interpreter, and a small host for witnesses

    A world is the storage of its contracts; nested calls fail with [ErrDepth].
    The codec "hashes" by keeping the last 32 bytes. *)

From S2P Require Import Prelude ChainTypes BigInt Runtime EvmState EvmInstr EvmRun EvmWord EvmWp EvmOk EvmOkCall.
Local Open Scope go_scope.

Definition demo_codec : Codec := {|
  fastrlp_MarshalTo := fun _ => [];
  keccak256 := fun l => be_bytes 32 (be_val l) |}.

Definition demo_codec_laws : @CodecLaws demo_codec.
Proof. split; intros b; [apply (be_bytes_length 32)|apply (be_bytes_ok 32)]. Defined.

Definition demo_world : Type := gmap (Address * Hash) Hash.

Definition demo_context : TxContext := {|
  ctx_GasPrice := 1; ctx_Origin := 7; ctx_Coinbase := 8; ctx_Number := 100; ctx_Timestamp := 5;
  ctx_GasLimit := 30000000; ctx_ChainID := 100; ctx_Difficulty := 1 |}.

#[global] Instance demo_host : Host demo_world := {|
  AccountExists := fun _ _ => true;
  GetStorage := fun w a k => default 0 (w !! (a, k));
  SetStorage := fun w a k v _ => (StorageModified, <[(a, k) := v]> w);
  HGetBalance := fun _ _ => 1000;
  HSetState := fun w a k v => <[(a, k) := v]> w;
  GetCodeSize := fun w _ => (0, w);
  GetCodeHash := fun _ _ => 0;
  GetCode := fun w _ => ([], w);
  Selfdestruct := fun w _ _ => w;
  GetTxContext := fun _ => demo_context;
  GetBlockHash := fun _ _ => 0;
  EmitLog := fun w _ _ _ => w;
  Callx := fun w c => Some (mkResult [] 0 (c_Gas c) (Some ErrDepth) 0, w);
  Empty := fun _ _ => false;
  HGetNonce := fun _ _ => 0;
  HTransfer := fun w _ _ _ => (Some ErrNotEnoughFunds, w);
  HGetRefund := fun _ => 0 |}.

Lemma demo_context_ok : context_ok demo_context.
Proof. split; unfold word, addr_ok; cbn; lia. Qed.

#[global] Instance demo_laws : HostLaws demo_world.
Proof.
  refine {| host_ok := fun w => map_Forall (fun _ v => word v) w; serves := fun _ _ => True |}; cbn.
  - done.
  - intros. unfold word. lia.
  - intros w a k Hw. destruct (w !! (a, k)) as [v|] eqn:E; [apply (Hw _ _ E)|apply word_0].
  - intros w a k v f Hw _ Hv. by apply map_Forall_insert_2.
  - intros. split; [unfold is_u64, two64; lia|done].
  - intros. apply word_0.
  - intros. split; [apply slice_ok_nil|done].
  - done.
  - intros. apply demo_context_ok.
  - intros. apply word_0.
  - done.
  - intros w c Hw Hc _. eexists _, _. split; [done|]. split; [done|].
    split; cbn; [apply slice_ok_nil|].
    pose proof (co_gas _ Hc) as Hg. unfold is_u64 in Hg. lia.
Defined.

Lemma demo_read : ReadRel (@eq demo_world).
Proof. split; [apply _|done|done|]. by intros w c r w' _ _ _ _ [= _ <-]. Qed.

Definition demo_forks : ForksInTime := Build_ForksInTime true true true true true true true true true.
Definition old_forks : ForksInTime :=
  Build_ForksInTime false false false false false false false false false.

(** [PUSH1 3; PUSH1 2; EXP; PUSH1 0; SSTORE], which needs 5078 gas. *)
Definition demo_contract (static : bool) : Contract :=
  mkContract [96; 3; 96; 2; 10; 96; 0; 85] Call 5 5 7 7 1 (Some 0) [] 30000 static.

Lemma demo_contract_ok static : contract_ok (demo_contract static).
Proof.
  split; cbn; try (unfold addr_ok, is_u64, two64; lia).
  - split; [|cbn; lia]. repeat constructor; unfold byte_ok; lia.
  - apply slice_ok_nil.
  - intros v [= <-]. apply word_0.
Qed.

Lemma demo_world_ok : host_ok (∅ : demo_world).
Proof. apply map_Forall_empty. Qed.

(** A machine in the middle of a frame. *)
Definition demo_state (cfg : ForksInTime) (g : Z) (st : list Z) : state demo_world :=
  set_gas g (set_stack st (run_init (demo_contract false) ∅ cfg)).

Lemma demo_state_ok cfg g st : is_u64 g -> evm_ok (demo_state cfg g st).
Proof.
  intros Hg. pose proof (demo_contract_ok false) as Hc. pose proof slice_ok_nil.
  split; try done; first [apply (co_code _ Hc) | apply map_Forall_empty | apply Forall_nil_2].
Qed.

(** * Theorems about the virtual machine

    The interpreter as a whole (it does not panic, terminates within its gas,
    keeps its invariant, and leaves the world alone in a static frame), and the
    functional correctness of the instructions whose code is not a direct
    transcription of their meaning. *)
Local Open Scope go_scope.
Set Default Proof Using "Type".

(** ** The dispatch table *)

Section Table.
Context {W : Type} `{HostLaws W} `{CodecLaws}.
Context (R : W -> W -> Prop) `{!ReadRel R}.

(** A handler checks the stack its instruction needs, and handler and
    instruction together cost something. *)
Definition handler_ok (h : handler W) : Prop :=
  exists c, instr_ok R (h_stack h) c (inst h) /\ is_u64 (h_gas h) /\ 0 <= c /\ 1 <= h_gas h + c.

Lemma handler_ok_intro m k g c :
  instr_ok R k c m -> is_u64 g -> 0 <= c -> 1 <= g + c -> handler_ok (mkHandler m k g).
Proof. intros. by exists c. Qed.

Lemma registerRange_ok from to factory g :
  (forall n, 1 <= n <= to - from + 1 -> instr_ok R 0 0 (factory n)) -> is_u64 g -> 1 <= g ->
  Forall (fun r => handler_ok (snd r)) (registerRange from to factory g).
Proof.
  intros Hf Hg Hg1. apply Forall_fmap, Forall_forall. intros n Hn%elem_of_seqZ. cbn.
  apply (handler_ok_intro _ _ _ 0); [apply Hf; lia|done|lia|lia].
Qed.

Ltac entry lem c :=
  apply Forall_cons; split; [apply (handler_ok_intro _ _ _ c);
    [by eapply lem|unfold is_u64, two64; lia|lia|lia]|].

Ltac entry_with pf c :=
  apply Forall_cons; split; [apply (handler_ok_intro _ _ _ c);
    [exact pf|unfold is_u64, two64; lia|lia|lia]|].

Lemma registrations_ok : Forall (fun r => handler_ok (snd r)) registrations.
Proof using All.
  unfold registrations. repeat (apply Forall_app; split).
  - entry @opStop_ok 1. entry @opAdd_ok 0. entry @opSub_ok 0. entry @opMul_ok 0. entry @opDiv_ok 0.
    entry @opSDiv_ok 0. entry @opMod_ok 0. entry @opSMod_ok 0. entry @opExp_ok 0. constructor.
  - apply registerRange_ok; [|unfold is_u64, two64; lia..]. intros. apply opPush_ok; done || lia.
  - apply registerRange_ok; [|unfold is_u64, two64; lia..]. intros. apply opDup_ok; done || lia.
  - apply registerRange_ok; [|unfold is_u64, two64; lia..]. intros. apply opSwap_ok; done || lia.
  - apply registerRange_ok; [|unfold is_u64, two64; lia..]. intros. apply opLog_ok; done || lia.
  - entry @opAddMod_ok 0. entry @opMulMod_ok 0. entry @opAnd_ok 0. entry @opOr_ok 0. entry @opXor_ok 0.
    entry @opByte_ok 0. entry @opNot_ok 0. entry @opIsZero_ok 0. entry @opEq_ok 0. entry @opLt_ok 0.
    entry @opGt_ok 0. entry @opSlt_ok 0. entry @opSgt_ok 0. entry @opSignExtension_ok 0.
    entry @opShl_ok 0. entry @opShr_ok 0. entry @opSar_ok 0.
    entry_with (opCreate_ok R CREATE) 0. entry_with (opCreate_ok R CREATE2) 0.
    entry_with (opCall_ok R CALL (ltac:(by eexists))) 1.
    entry_with (opCall_ok R CALLCODE (ltac:(by eexists))) 1.
    entry_with (opCall_ok R DELEGATECALL (ltac:(by eexists))) 1.
    entry_with (opCall_ok R STATICCALL (ltac:(by eexists))) 1.
    entry @opHalt_ok 1. entry @opHalt_ok 1. entry @opMload_ok 0. entry @opMStore_ok 0.
    entry @opMStore8_ok 0. entry @opSload_ok 1. entry @opSStore_ok 1. entry @opSha3_ok 0.
    entry @opPop_ok 0. entry @opExtCodeHash_ok 1. entry @opAddress_ok 0. entry @opBalance_ok 1.
    entry @opSelfBalance_ok 0. entry @opOrigin_ok 0. entry @opCaller_ok 0. entry @opCallValue_ok 0.
    entry @opCallDataLoad_ok 0. entry @opCallDataSize_ok 0. entry @opCodeSize_ok 0.
    entry @opExtCodeSize_ok 1. entry @opGasPrice_ok 0. entry @opReturnDataSize_ok 0.
    entry @opChainID_ok 0. entry @opPC_ok 0. entry @opMSize_ok 0. entry @opGas_ok 0.
    entry @opExtCodeCopy_ok 1. entry @opCallDataCopy_ok 0. entry @opReturnDataCopy_ok 0.
    entry @opCodeCopy_ok 0. entry @opBlockHash_ok 0. entry @opCoinbase_ok 0. entry @opTimestamp_ok 0.
    entry @opNumber_ok 0. entry @opDifficulty_ok 0. entry @opGasLimit_ok 0.
    entry @opSelfDestruct_ok 1. entry @opJump_ok 0. entry @opJumpi_ok 0. entry @opJumpDest_ok 0.
    constructor.
Qed.

Lemma dispatchTable_ok op h : dispatchTable op = Some h -> handler_ok h.
Proof using All.
  unfold dispatchTable. intros Hd.
  destruct (find _ registrations) as [[o h']|] eqn:E; [|done]. injection Hd as ->.
  apply find_some in E as [Hin _]. apply list_elem_of_In in Hin.
  pose proof registrations_ok as Hr. rewrite Forall_forall in Hr. by apply (Hr _ Hin).
Qed.

(** ** One round of the loop *)

Record loop_inv (c : Contract) (w : W) (cfg : ForksInTime) (s : state W) : Prop := {
  l_ok : evm_ok s;
  l_ip : 0 <= ip s \/ stop s = true;
  l_words : ip s < Z.of_nat (length (code s)) -> stop s = false -> Forall word (stack s);
  l_sp : stop s = false -> sp s <= stackSize;
  l_code : code s = c_Code c;
  l_msg : msg s = c;
  l_config : config s = cfg;
  l_gas : EIP150 cfg = true -> gas s <= c_Gas c;
  l_static : c_Static c = true -> R w (host s);
  l_serves : serves (c_Depth c + 1) (call_allowance cfg (c_Gas c)) }.

(** A stopped machine keeps the invariant. *)
Lemma loop_inv_stop c w cfg s s' :
  loop_inv c w cfg s -> evm_ok s' -> stop s' = true -> code s' = code s -> msg s' = msg s ->
  config s' = config s -> host s' = host s -> gas s' <= gas s -> loop_inv c w cfg s'.
Proof using All.
  intros [] Hok Hs Hc Hm Hf Hh Hg. split; try congruence; [by right| |].
  - intros He. specialize (l_gas0 He). lia.
  - rewrite Hh. done.
Qed.

Lemma run_step_ok c w cfg s :
  loop_inv c w cfg s -> stop s = false ->
  wp run_step (fun _ s' => loop_inv c w cfg s' /\
    (EIP150 cfg = true -> stop s' = true \/ gas s' < gas s)) s.
Proof using All.
  intros Hi Hstop. pose proof Hi as [Hok Hip Hw Hsp Hc Hm Hcfg Hg Hst Hsv]. specialize (Hsp Hstop).
  destruct Hip as [Hip|Hip]; [|congruence].
  unfold run_step, CurrentOpCode. do 2 apply wp_bind. apply wp_get. cbn [id].
  destruct (Z.of_nat (length (code s)) <=? ip s) eqn:El; breflect.
  { apply wp_ret, wp_Halt. split; [split; cbn; try done; try (by left); auto with plg|by left]. }
  specialize (Hw El Hstop). rewrite (proj2 (Z.ltb_ge _ _)) by lia.
  destruct (lookup_lt_is_Some_2 (code s) (Z.to_nat (ip s)) ltac:(lia)) as [op Hop]. rewrite Hop.
  apply wp_bind, wp_deref, wp_ret. 
  destruct (dispatchTable op) as [h|] eqn:Hd.
  2: { apply wp_exit. split; [apply (loop_inv_stop c w cfg s); auto with plg; done|by left]. }
  destruct (dispatchTable_ok _ _ Hd) as (cost & Hinst & Hhg & Hcost0 & Hcost).
  apply wp_bind, wp_get. cbn beta. destruct (sp s <? h_stack h) eqn:Eh; breflect.
  { apply wp_exit. split; [apply (loop_inv_stop c w cfg s); auto with plg; done|by left]. }
  apply wp_bind, wp_consumeGas; [done|done| |].
  { intros s1 Hk1 Hs1 Hm1. cbn [negb]. apply wp_exit. destruct Hk1.
    split; [apply (loop_inv_stop c w cfg s); auto with plg|by left]. }
  intros s1 Hk1 Hs1 He1 Hm1 Hle1 Hg1. cbn [negb]. destruct Hk1.
  apply wp_bind. eapply wp_mono.
  { apply Hinst; [done|by rewrite k_stack|unfold sp in *; by rewrite k_stack| |].
    - rewrite k_ip, k_code. lia.
    - replace (msg s1) with c by congruence. replace (config s1) with cfg by congruence.
      eapply law_serves; [exact Hsv|]. unfold call_allowance.
      destruct (EIP150 cfg); [specialize (Hg eq_refl)|]; lia. }
  intros [] s2 []. cbn beta. apply wp_bind, wp_get. cbn beta.
  assert (Hgas : EIP150 cfg = true -> gas s2 <= gas s1 /\ (stop s2 = true \/ gas s2 < gas s)).
  { intros He. destruct p_gas as [Hgle Hglt]; [congruence|]. split; [done|].
    destruct Hglt; [by left|right; lia]. }
  assert (Hcode : code s2 = c_Code c) by congruence.
  assert (Hmsg : msg s2 = c) by congruence. assert (Hconf : config s2 = cfg) by congruence.
  assert (Hstat : c_Static c = true -> R w (host s2)).
  { intros Hs. transitivity (host s1); [rewrite k_host; auto|apply p_static; congruence]. }
  destruct (stackSize <? sp s2) eqn:Esp; breflect.
  - apply wp_exit. split; [split; cbn; try done; auto with plg|by left].
    intros He. specialize (Hg He). destruct (Hgas He). lia.
  - apply wp_modify. split; [split; cbn; try done|].
    + auto with plg.
    + left. lia.
    + intros Hlt _. apply p_words. rewrite p_code in Hlt. done.
    + intros He. specialize (Hg He). destruct (Hgas He). lia.
    + intros He. cbn. apply (Hgas He).
Qed.

(** ** The whole run *)

Lemma run_init_inv c w cfg :
  contract_ok c -> host_ok w -> serves (c_Depth c + 1) (call_allowance cfg (c_Gas c)) ->
  loop_inv c w cfg (run_init c w cfg).
Proof using All.
  intros Hc Hw Hsv. pose proof slice_ok_nil as Hnil. split; cbn; try done.
  - split; cbn; try done; [apply co_gas, Hc|constructor|apply co_code, Hc].
  - by left.
Qed.

Definition loop_stop (o : option (state W)) : bool :=
  match o with Some s => stop s | None => true end.
Definition loop_body (o : option (state W)) : option (state W) :=
  match o with Some s => snd <$> run_step s | None => None end.

Lemma loop_body_ok c w cfg s :
  loop_inv c w cfg s -> stop s = false ->
  exists s', loop_body (Some s) = Some s' /\ loop_inv c w cfg s' /\
    (EIP150 cfg = true -> stop s' = true \/ gas s' < gas s).
Proof using All.
  intros Hi Hs. pose proof (run_step_ok c w cfg s Hi Hs) as Hwp. unfold wp in Hwp. cbn.
  destruct (run_step s) as [[[] s']|]; [|done]. by exists s'.
Qed.

Lemma state_Run_ok c w cfg :
  contract_ok c -> host_ok w -> serves (c_Depth c + 1) (c_Gas c) -> EIP150 cfg = true ->
  exists s, state_Run (Z.to_pos (c_Gas c + 1)) (run_init c w cfg) = Some s /\
    stop s = true /\ loop_inv c w cfg s.
Proof using All.
  intros Hc Hw Hsv He. pose proof (co_gas _ Hc) as Hg. unfold is_u64 in Hg.
  destruct (loop_until_ends loop_stop loop_body
    (fun o => exists s, o = Some s /\ loop_inv c w cfg s)
    (fun o => match o with Some s => gas s | None => 0 end)
    (Z.to_pos (c_Gas c + 1)) (Some (run_init c w cfg))) as [(s & Hs & Hi) Hstop].
  - intros o (s & -> & Hi) Hstop. destruct (loop_body_ok c w cfg s Hi Hstop) as (s' & -> & Hi' & Hg').
    split; [by exists s'|]. cbn. destruct (Hg' He); [by left|right].
    pose proof (ok_gas _ (l_ok _ _ _ _ Hi')) as Hu. unfold is_u64 in Hu. lia.
  - exists (run_init c w cfg). split; [done|]. apply run_init_inv; [done..|].
    unfold call_allowance. by rewrite He.
  - cbn. rewrite Z2Pos.id by lia. lia.
  - exists s. rewrite Hs in Hstop. by split.
Qed.

Lemma EVM_Run_ok c w cfg :
  contract_ok c -> host_ok w -> serves (c_Depth c + 1) (c_Gas c) -> EIP150 cfg = true ->
  exists r w', EVM_Run c w cfg = Some (r, w') /\ result_ok c r /\ host_ok w' /\
    GasUsed r = c_Gas c - GasLeft r /\
    (ResErr r <> None -> ResErr r <> Some ErrExecutionReverted -> GasLeft r = 0) /\
    (c_Static c = true -> R w w').
Proof using All.
  intros Hc Hw Hsv He. destruct (state_Run_ok c w cfg Hc Hw Hsv He) as (s & Hrun & Hstop & Hi).
  unfold EVM_Run. rewrite Hrun, Hstop. destruct Hi as [Hok _ _ _ _ _ _ Hg Hs _].
  pose proof (ok_gas _ Hok) as Hu. pose proof (co_gas _ Hc) as Hcg. specialize (Hg He).
  unfold is_u64 in *. eexists _, _. split; [done|]. cbn.
  match goal with |- context [if ?b then 0 else gas s] => set (failed := b) end.
  assert (Hleft : 0 <= (if failed then 0 else gas s) <= c_Gas c) by (destruct failed; lia).
  split_and!; try done.
  - split; [apply ok_ret, Hok|done].
  - apply ok_host, Hok.
  - apply u64_small. lia.
  - intros Hn Hr. unfold failed. destruct (err s) as [e|]; [|done].
    rewrite bool_decide_false by congruence. done.
Qed.
End Table.

(** ** The interpreter *)

Section Interpreter.
Context {W : Type} `{HostLaws W} `{CodecLaws}.

(** The states of a frame between rounds of the loop. *)
Definition round (s s' : state W) : Prop := stop s = false /\ run_step s = Some (tt, s').

Definition frame_reachable (c : Contract) (w : W) (cfg : ForksInTime) : state W -> Prop :=
  rtc round (run_init c w cfg).

#[local] Instance any_rel : ReadRel (fun _ _ : W => True).
Proof. by repeat split. Qed.

Lemma frame_reachable_inv c w cfg s :
  contract_ok c -> host_ok w -> serves (c_Depth c + 1) (call_allowance cfg (c_Gas c)) ->
  frame_reachable c w cfg s -> loop_inv (fun _ _ => True) c w cfg s.
Proof using All.
  intros Hc Hw Hsv Hr. pose proof (run_init_inv (fun _ _ => True) c w cfg Hc Hw Hsv) as Hi.
  unfold frame_reachable in Hr. induction Hr as [|s1 s2 s3 [Hs Hstep] Hr IH]; [done|]. apply IH.
  pose proof (run_step_ok (fun _ _ => True) c w cfg s1 Hi Hs) as Hwp.
  unfold wp in Hwp. rewrite Hstep in Hwp. apply Hwp.
Qed.

(** C27. In every state a frame reaches and in which it has not stopped (on an
    overflow it stops with 1025 values), the stack holds at most 1024 values, all
    of them are 256-bit words as long as there is code left to execute (a
    truncated PUSH at the end of the code pushes a larger value), and the next
    round does not panic. *)
Theorem frame_safe c w cfg s :
  contract_ok c -> host_ok w -> serves (c_Depth c + 1) (call_allowance cfg (c_Gas c)) ->
  frame_reachable c w cfg s -> stop s = false ->
  sp s <= 1024 /\
  (ip s < Z.of_nat (length (code s)) -> Forall word (stack s)) /\
  exists s', run_step s = Some (tt, s').
Proof using All.
  intros Hc Hw Hsv Hr Hs. pose proof (frame_reachable_inv c w cfg s Hc Hw Hsv Hr) as Hi.
  pose proof (run_step_ok (fun _ _ => True) c w cfg s Hi Hs) as Hwp.
  unfold wp in Hwp. destruct (run_step s) as [[[] s']|]; [|done].
  split_and!; [apply (l_sp _ _ _ _ _ Hi Hs)| |by eexists].
  intros Hip. by apply (l_words _ _ _ _ _ Hi).
Qed.

(** C26. From EIP-150 on, [EVM.Run] returns for every contract on a host that
    serves its nested calls: the loop ends within [Gas + 1] rounds and does not
    panic. The gas left and the gas
    used add up to the gas given, and an error other than a revert consumes all
    of it. *)
Theorem EVM_Run_terminates c w cfg :
  contract_ok c -> host_ok w -> serves (c_Depth c + 1) (c_Gas c) -> EIP150 cfg = true ->
  exists r w', EVM_Run c w cfg = Some (r, w') /\ host_ok w' /\ slice_ok (ReturnValue r) /\
    0 <= GasLeft r /\ GasLeft r + GasUsed r = c_Gas c /\
    (ResErr r <> None -> ResErr r <> Some ErrExecutionReverted -> GasLeft r = 0).
Proof using All.
  intros Hc Hw Hsv He.
  destruct (EVM_Run_ok (fun _ _ => True) c w cfg Hc Hw Hsv He)
    as (r & w' & Hrun & [Hret Hleft] & Hw' & Hused & Herr & _).
  exists r, w'. split_and!; try done; [apply Hret..|lia|lia].
Qed.

(** C28. A static frame does not write: any relation to the initial world that
    read-only calls and code look-ups preserve (as a preorder) is preserved by
    the run of a static contract, whatever its code. *)
Theorem EVM_Run_static (R : W -> W -> Prop) c w cfg r w' :
  ReadRel R -> contract_ok c -> host_ok w -> serves (c_Depth c + 1) (c_Gas c) ->
  EIP150 cfg = true -> c_Static c = true -> EVM_Run c w cfg = Some (r, w') -> R w w'.
Proof using All.
  intros HR Hc Hw Hsv He Hs Hrun.
  destruct (EVM_Run_ok R c w cfg Hc Hw Hsv He) as (r1 & w1 & Hrun1 & _ & _ & _ & _ & Hst).
  rewrite Hrun in Hrun1. injection Hrun1 as -> ->. by apply Hst.
Qed.

(** ** The dispatch table *)

Lemma register_fold (l : list (Z * handler W)) t :
  NoDup (fst <$> l) -> (forall op, op ∈ fst <$> l -> t !! op = None) ->
  exists t', fold_left register l (Some t) = Some t' /\
    forall op, t' !! op = match find (fun r => fst r =? op) l with
                          | Some r => Some (snd r) | None => t !! op end.
Proof using Type.
  revert t. induction l as [|[op h] l IH]; intros t Hnd Ht; [by exists t|].
  cbn in Hnd. apply NoDup_cons in Hnd as [Hop Hnd]. cbn [fold_left register].
  unfold register at 2. cbn [mbind option_bind fst snd].
  rewrite (Ht op) by (cbn; in_list).
  destruct (IH (<[op := h]> t) Hnd) as (t' & Hf & Ht').
  - intros o Ho. rewrite lookup_insert_ne by (intros ->; done). apply Ht. cbn. in_list.
  - exists t'. split; [done|]. intros o. rewrite Ht'. cbn [find fst snd].
    destruct (op =? o) eqn:E; breflect.
    + subst. destruct (find _ l) as [r|] eqn:Ef; [|by rewrite lookup_insert_eq].
      apply find_some in Ef as [Hin He]. breflect. exfalso. apply Hop. subst.
      apply list_elem_of_fmap. exists r. split; [done|]. by apply list_elem_of_In.
    + destruct (find _ l); [done|]. by rewrite lookup_insert_ne.
Qed.

(** [init] registers no opcode twice, so building the table does not panic,
    and the table holds for each opcode the handler registered for it. *)
Theorem init_table :
  exists t : gmap Z (handler W), init = Some t /\ forall op, t !! op = dispatchTable op.
Proof using Type.
  destruct (register_fold registrations ∅) as (t & Hf & Ht).
  - apply (bool_decide_unpack _). by vm_compute.
  - intros. apply lookup_empty.
  - exists t. split; [exact Hf|]. intros op. rewrite Ht. unfold dispatchTable.
    destruct (find _ _); [done|]. apply lookup_empty.
Qed.
End Interpreter.

(** ** Witnesses *)

Lemma frame_safe_witness : exists s', run_step (H0 := demo_codec) (run_init (demo_contract false) ∅ demo_forks) = Some (tt, s').
Proof.
  apply (frame_safe (H2 := demo_codec_laws) (demo_contract false) ∅ demo_forks);
    [apply demo_contract_ok|apply demo_world_ok|exact I|apply rtc_refl|reflexivity].
Defined.

Lemma EVM_Run_terminates_witness :
  exists r w', EVM_Run (H0 := demo_codec) (demo_contract false) ∅ demo_forks = Some (r, w') /\
    GasLeft r + GasUsed r = 30000.
Proof.
  destruct (EVM_Run_terminates (H2 := demo_codec_laws) (demo_contract false) ∅ demo_forks)
    as (r & w' & Hrun & _ & _ & _ & Hgas & _);
    [apply demo_contract_ok|apply demo_world_ok|exact I|reflexivity|].
  exists r, w'. split; [exact Hrun|exact Hgas].
Defined.

Lemma EVM_Run_static_witness :
  option_map snd (EVM_Run (H0 := demo_codec) (demo_contract true) ∅ demo_forks) = Some ∅.
Proof.
  destruct (EVM_Run (H0 := demo_codec) (demo_contract true) ∅ demo_forks) as [[r w']|] eqn:E;
    [|by vm_compute in E]. cbn. f_equal. symmetry.
  apply (EVM_Run_static (H2 := demo_codec_laws) eq (demo_contract true) ∅ demo_forks r w');
    [apply demo_read|apply demo_contract_ok|apply demo_world_ok|exact I|reflexivity|reflexivity|exact E].
Defined.
