(* ===== verification/EvmFunc.v ===== *)
(** * Functional correctness of instructions

    Instructions against their meaning on 256-bit words, the memory against its
    gas schedule, and the jump analysis against the instruction boundaries of
    the code. *)

From S2P Require Import Prelude ChainTypes BigInt Runtime EvmState EvmInstr EvmRun EvmWord.
From S2P Require Import EvmWp EvmProps.
Local Open Scope go_scope.
Set Default Proof Using "Type".

(** ** Reference definitions *)

(** Sign extension of the low [n] bits. *)
Definition sext (n x : Z) : Z :=
  let m := x mod 2 ^ n in if m <? 2 ^ (n - 1) then m else m - 2 ^ n.

(** The memory cost of the gas schedule, for [w] words. *)
Definition mem_cost (w : Z) : Z := 3 * w + w * w / 512.

(** ** Lemmas *)

Lemma sgn_eqb_0 b : (Z.sgn b =? 0) = (b =? 0).
Proof. destruct b; done. Qed.

Lemma quot_abs_spec a b :
  b <> 0 -> (if negb (Z.sgn a =? Z.sgn b) then - (Z.abs a / Z.abs b) else Z.abs a / Z.abs b) = Z.quot a b.
Proof.
  intros Hb. rewrite Z.quot_div by done. destruct (decide (a = 0)) as [->|Ha].
  { rewrite Z.abs_0, Z.div_0_l by lia. by destruct b. }
  generalize (Z.abs a / Z.abs b). intros q. destruct a, b; try done; simpl; lia.
Qed.

Lemma rem_abs_spec a b :
  b <> 0 -> (if Z.sgn a <? 0 then - (Z.abs a mod Z.abs b) else Z.abs a mod Z.abs b) = Z.rem a b.
Proof.
  intros Hb. rewrite Z.rem_mod by done. destruct (decide (a = 0)) as [->|Ha].
  { by rewrite Z.abs_0, Z.mod_0_l by lia. }
  generalize (Z.abs a mod Z.abs b). intros r. destruct a; try done; simpl; lia.
Qed.

Lemma signed_eqb_0 x : word x -> (signed x =? 0) = (x =? 0).
Proof.
  unfold word, signed. intros Hx. destruct (x <? 2 ^ 255) eqn:E; [done|]. breflect.
  rewrite !(proj2 (Z.eqb_neq _ _)) by lia. done.
Qed.

Lemma lor_lnot_ones x n : 0 <= n -> Z.lor x (Z.lnot (Z.ones n)) = x mod 2 ^ n - 2 ^ n.
Proof.
  intros Hn. pose proof (Z.add_lor_land x (Z.lnot (Z.ones n))) as Ha.
  rewrite <- Z.ldiff_land, Z.ldiff_ones_r in Ha by done.
  rewrite Z.shiftl_mul_pow2, Z.shiftr_div_pow2 in Ha by done.
  pose proof (Z.div_mod x (2 ^ n) ltac:(lia)). unfold Z.lnot in *. rewrite Z.ones_equiv in *. lia.
Qed.

(** The mask of [opSignExtension] with the sign bit at [bit]. *)
Lemma sext_mask x bit :
  0 <= bit ->
  (if Z.testbit x bit then Z.lor x (Z.lnot (Z.shiftl 1 bit - 1)) else Z.land x (Z.shiftl 1 bit - 1)) =
  sext (bit + 1) x.
Proof.
  intros Hb. replace (Z.shiftl 1 bit - 1) with (Z.ones bit) by done.
  rewrite lor_lnot_ones, Z.land_ones by done. unfold sext.
  replace (bit + 1 - 1) with bit by lia.
  assert (Hm : x mod 2 ^ (bit + 1) = x mod 2 ^ bit + 2 ^ bit * Z.b2z (Z.testbit x bit)).
  { rewrite Z.pow_add_r, Z.pow_1_r by lia. rewrite Z.rem_mul_r by lia.
    rewrite <- Z.testbit_spec' by done. done. }
  pose proof (Z.mod_pos_bound x (2 ^ bit) ltac:(lia)).
  rewrite Hm, Z.pow_add_r, Z.pow_1_r by lia.
  destruct (Z.testbit x bit); cbn [Z.b2z]; case_bool; breflect; lia.
Qed.

Section Func.
Context {W : Type} `{HostLaws W} `{Codec}.
Implicit Types s : state W.

Lemma get_run {A B} (f : state W -> A) (k : A -> M W B) s : (x ← get f; k x) s = k (f s) s.
Proof. done. Qed.

Lemma pop_run {A} x st s (k : Z -> M W A) :
  stack s = x :: st -> (y ← pop; k y) s = k x (set_stack st s).
Proof.
  intros Hs. unfold pop, mbind, M_bind, pop_ptr. by rewrite Hs.
Qed.

Lemma top_run {A} x st s (k : Z -> M W A) :
  stack s = x :: st -> (y ← top; k y) s = k x s.
Proof.
  intros Hs. unfold top, mbind, M_bind, top_ptr, get. by rewrite Hs.
Qed.

Lemma pop_top_run {A} a b st s (k : Z -> Z -> M W A) :
  stack s = a :: b :: st ->
  (x ← pop; y ← top; k x y) s = k a b (set_stack (b :: st) s).
Proof. intros Hs. rewrite (pop_run a (b :: st)) by done. by rewrite (top_run b st). Qed.

Lemma opSDiv_run s a b st :
  stack s = a :: b :: st -> word a -> word b ->
  opSDiv s = Some (tt, set_stack ((if b =? 0 then 0 else
    Z.quot (signed a) (signed b) mod 2 ^ 256) :: st) s).
Proof.
  intros Hst Ha Hb. unfold opSDiv. rewrite (pop_top_run a b st) by done.
  rewrite !to256_spec, sgn_eqb_0 by done. rewrite (signed_eqb_0 b Hb).
  destruct (b =? 0) eqn:E; breflect; [done|]. rewrite quot_abs_spec, toU256_spec; [done|].
  intros Hs. apply E. apply Z.eqb_eq. rewrite <- signed_eqb_0 by done. by apply Z.eqb_eq.
Qed.

Lemma opSMod_run s a b st :
  stack s = a :: b :: st -> word a -> word b ->
  opSMod s = Some (tt, set_stack ((if b =? 0 then 0 else
    Z.rem (signed a) (signed b) mod 2 ^ 256) :: st) s).
Proof.
  intros Hst Ha Hb. unfold opSMod. rewrite (pop_top_run a b st) by done.
  rewrite !to256_spec, sgn_eqb_0 by done. rewrite (signed_eqb_0 b Hb).
  destruct (b =? 0) eqn:E; breflect; [done|]. rewrite rem_abs_spec, toU256_spec; [done|].
  intros Hs. apply E. apply Z.eqb_eq. rewrite <- signed_eqb_0 by done. by apply Z.eqb_eq.
Qed.

Lemma opSar_run s a b st :
  stack s = a :: b :: st -> word a -> word b -> Constantinople (config s) = true ->
  opSar s = Some (tt, set_stack ((signed b / 2 ^ a) mod 2 ^ 256 :: st) s).
Proof.
  intros Hst Ha Hb Hc. unfold opSar.
  rewrite get_run, Hc. cbn [negb].
  rewrite (pop_top_run a b st) by done. rewrite to256_spec by done. cbv zeta.
  unfold equalOrOverflowsUint256. pose proof (signed_range b Hb) as Hr. unfold word in Ha.
  destruct (8 <? BitLen a) eqn:E; breflect.
  - apply (BitLen_lt a 8) in E; [|done]. rewrite Z.abs_eq in E by lia.
    assert (Hp : 2 ^ 256 <= 2 ^ a) by (apply Z.pow_le_mono_r; lia).
    destruct (0 <=? Z.sgn (signed b)) eqn:Es; breflect.
    + apply Z.sgn_nonneg in Es. by rewrite Z.div_small by lia.
    + replace (signed b / 2 ^ a) with (-1); [done|].
      apply (Z.div_unique_pos _ _ _ (signed b + 2 ^ a)); destruct (signed b); simpl in *; lia.
  - apply (BitLen_le a 8) in E; [|done]. rewrite Z.abs_eq in E by lia.
    by rewrite Uint64_small, Rsh_spec, toU256_spec by (unfold is_u64, two64; lia).
Qed.

Lemma opSignExtension_run s a b st :
  stack s = a :: b :: st -> word a -> word b ->
  opSignExtension s = Some (tt, set_stack ((if a <? 32 then
    sext (8 * a + 8) b mod 2 ^ 256 else b) :: st) s).
Proof.
  intros Hst Ha Hb. unfold opSignExtension. rewrite (pop_run a (b :: st)) by done.
  unfold top_ptr. rewrite get_run. cbn [stack set_stack head]. unfold wordSize, word in *. destruct (32 <? a) eqn:E; breflect.
  { by rewrite (proj2 (Z.ltb_ge _ _)) by lia. }
  rewrite Uint64_small by (unfold is_u64, two64; lia).
  rewrite (u64_small (a * 8)), u64_small by (unfold two64; lia).
  pose proof (sext_mask b (a * 8 + 7) ltac:(lia)) as Hm.
  replace (a * 8 + 7 + 1) with (8 * a + 8) in Hm by lia.
  destruct (a <? 32) eqn:E2; breflect.
  - rewrite !toU256_spec. rewrite <- Hm. by destruct (Z.testbit b (a * 8 + 7)).
  - assert (a = 32) as -> by lia. assert (Hbit : Z.testbit b (32 * 8 + 7) = false).
    { apply Z.testbit_false; [lia|]. by rewrite Z.div_small by lia. }
    rewrite Hbit in *. rewrite toU256_spec. change (Z.shiftl 1 (32 * 8 + 7) - 1) with (Z.ones 263).
    rewrite Z.land_ones, (Z.mod_small b (2 ^ 263)), Z.mod_small by lia. done.
Qed.

(** The signed instructions compute on the two's complement reading of their
    operands: [SDIV] truncates, [SMOD] takes the sign of the dividend (both
    yield 0 for a zero divisor), [SAR] rounds down for every shift count, and
    [SIGNEXTEND] extends byte [k] for [k < 32] and leaves the word otherwise. *)
Theorem signed_instructions s a b st :
  stack s = a :: b :: st -> word a -> word b -> Constantinople (config s) = true ->
  opSDiv s = Some (tt, set_stack ((if b =? 0 then 0 else
    Z.quot (signed a) (signed b) mod 2 ^ 256) :: st) s) /\
  opSMod s = Some (tt, set_stack ((if b =? 0 then 0 else
    Z.rem (signed a) (signed b) mod 2 ^ 256) :: st) s) /\
  opSar s = Some (tt, set_stack ((signed b / 2 ^ a) mod 2 ^ 256 :: st) s) /\
  opSignExtension s = Some (tt, set_stack ((if a <? 32 then
    sext (8 * a + 8) b mod 2 ^ 256 else b) :: st) s).
Proof.
  intros Hst Ha Hb Hc. split_and!.
  - by apply opSDiv_run.
  - by apply opSMod_run.
  - by apply opSar_run.
  - by apply opSignExtension_run.
Qed.

Lemma consumeGas_run {A} g s (k : bool -> M W A) :
  0 <= g <= gas s -> gas s < two64 ->
  (ok ← consumeGas g; k ok) s =
    k true (set_gas (gas s - g) (set_consumed (currentConsumedGas s +u g) s)).
Proof.
  intros Hg Hu. unfold consumeGas, mbind, M_bind, modify, get. cbn [gas set_consumed].
  rewrite (proj2 (Z.ltb_ge _ _)) by lia. cbn. by rewrite u64_small by lia.
Qed.

(** [EXP] charges 10 (50 from EIP-158 on) per byte of the exponent and leaves
    the power modulo 2^256. *)
Theorem opExp_power s x y st :
  let cost := (if EIP158 (config s) then 50 else 10) * ((BitLen y + 7) / 8) in
  is_u64 (gas s) -> stack s = x :: y :: st -> word x -> word y -> cost <= gas s ->
  exists s', opExp s = Some (tt, s') /\ stack s' = x ^ y mod 2 ^ 256 :: st /\
    gas s' = gas s - cost /\ stop s' = stop s /\ err s' = err s /\ memory s' = memory s.
Proof.
  intros cost Hgas Hst Hx Hy Hcost. unfold word in Hy.
  assert (Hb : 0 <= (BitLen y + 7) / 8 <= 32).
  { pose proof (proj2 (BitLen_le y 256 ltac:(lia)) ltac:(lia)).
    pose proof (BitLen_nonneg y). split; [apply Z.div_pos; lia|].
    apply Z.lt_succ_r, Z.div_lt_upper_bound; lia. }
  assert (Hu : ((BitLen y + 7) / 8) *u (if EIP158 (config s) then 50 else 10) = cost).
  { unfold cost. rewrite u64_small by (destruct (EIP158 (config s)); unfold two64; lia). lia. }
  assert (0 <= cost) by (unfold cost; destruct (EIP158 (config s)); lia). unfold is_u64 in Hgas.
  unfold opExp. rewrite (pop_top_run x y st), get_run by done.
  change (config (set_stack (y :: st) s)) with (config s). cbv zeta. rewrite Hu.
  rewrite consumeGas_run by (cbn [gas set_stack]; lia). cbn [negb]. rewrite exp_loop_spec by (done || lia).
  by eexists.
Qed.

(** ** Memory *)

Lemma allocateMemory_limit offset size s b s' :
  allocateMemory offset size s = Some (b, s') -> b = true -> size <> 0 ->
  0 <= offset <= memoryLimit /\ 0 <= size <= memoryLimit.
Proof.
  unfold allocateMemory. intros Ha -> Hz.
  destruct (negb (IsUint64 offset) || negb (IsUint64 size)) eqn:E; [done|].
  apply orb_false_iff in E as [E1%negb_false_iff%IsUint64_true E2%negb_false_iff%IsUint64_true].
  rewrite !Uint64_small in Ha by done.
  rewrite (proj2 (Z.eqb_neq _ _) Hz) in Ha. unfold is_u64 in *.
  destruct ((memoryLimit <? offset) || (memoryLimit <? size)) eqn:E; [done|]. breflect. lia.
Qed.

(** Inside the memory an allocation does nothing. *)
Lemma allocateMemory_noop offset size s :
  0 <= offset <= memoryLimit -> 0 <= size <= memoryLimit ->
  offset + size <= Z.of_nat (length (memory s)) -> allocateMemory offset size s = Some (true, s).
Proof.
  intros Ho Hs Hlen. unfold allocateMemory, memoryLimit in *.
  assert (Hu : is_u64 offset /\ is_u64 size) by (unfold is_u64, two64; lia). destruct Hu as [Hu1 Hu2].
  rewrite (proj2 (IsUint64_true _) Hu1), (proj2 (IsUint64_true _) Hu2), !Uint64_small by done.
  cbn [negb orb]. destruct (size =? 0); [done|].
  rewrite !(proj2 (Z.ltb_ge _ _)) by lia. cbn [orb]. rewrite get_run.
  rewrite (u64_small (offset + size)) by (unfold two64; lia).
  by rewrite (proj2 (Z.ltb_ge _ _)) by lia.
Qed.

(** A store either stops the machine or writes the 32 bytes of the word. *)
Lemma opMStore_spec s offset v st s1 :
  evm_ok s -> stack s = offset :: v :: st -> word offset -> word v ->
  opMStore s = Some (tt, s1) ->
  stop s1 = true \/ exists s2, evm_ok s2 /\ 0 <= offset <= memoryLimit /\
    offset + 32 <= Z.of_nat (length (memory s2)) /\
    s1 = set_memory (write (memory s2) offset (be_bytes 32 v)) s2.
Proof.
  intros Hok Hst Ho Hv Hstore. unfold opMStore in Hstore.
  rewrite (pop_run offset (v :: st)), (pop_run v st) in Hstore by done.
  set (s0 := set_stack st _) in Hstore.
  assert (Hwp : wp (allocateMemory offset wordSize) (fun b s' => b = false /\ stop s' = true \/
    b = true /\ evm_ok s' /\ offset + 32 <= Z.of_nat (length (memory s'))) s0).
  { apply wp_allocateMemory; [by repeat apply evm_ok_stack|done| |].
    - intros s' _ Hs. by left.
    - intros s' Hk Hs He Hu1 Hu2 Hext Hlen. right. split_and!; [done|apply Hk|by apply Hlen]. }
  unfold wp in Hwp. unfold mbind at 1, M_bind at 1 in Hstore.
  destruct (allocateMemory offset wordSize s0) as [[b s2]|] eqn:Ea; [|done].
  destruct Hwp as [[-> Hs2]|(-> & Hok2 & Hlen2)].
  { cbn in Hstore. injection Hstore as <-. by left. }
  destruct (allocateMemory_limit _ _ _ _ _ Ea eq_refl ltac:(done)) as [Hl _].
  right. exists s2. split_and!; try done; [lia..|].
  assert (Hu : is_u64 offset) by (unfold is_u64, memoryLimit, two64 in *; lia).
  assert (Hs1 : wp (buf ← mem_slice (Uint64 offset) 32; buf ← deref (store_buf v buf);
      mem_write (Uint64 offset) buf) (fun _ s' =>
      s' = set_memory (write (memory s2) offset (be_bytes 32 v)) s2) s2).
  { rewrite Uint64_small by done. pose proof (ok_memlen _ Hok2).
    apply wp_bind, wp_mem_slice; [lia..|].
    rewrite store_buf_spec; [|done|rewrite length_take, length_drop; lia].
    apply wp_bind, wp_deref, wp_mem_write; [lia|rewrite be_bytes_length; lia|done]. }
  unfold wp in Hs1. cbn [negb] in Hstore. cbv zeta in Hstore. by rewrite Hstore in Hs1.
Qed.

(** A load inside the memory reads the 32 bytes and costs nothing. *)
Lemma opMload_run s offset st :
  stack s = offset :: st -> 0 <= offset <= memoryLimit ->
  offset + 32 <= Z.of_nat (length (memory s)) -> Z.of_nat (length (memory s)) < 2 ^ 62 ->
  opMload s = Some (tt, set_stack (be_val (take 32 (drop (Z.to_nat offset) (memory s))) :: st) s).
Proof.
  intros Hst Ho Hlen Hb.
  assert (Hu : is_u64 offset) by (unfold is_u64, memoryLimit, two64 in *; lia).
  assert (Hget : get2 offset wordSize (set_stack st s) =
    Some ((take 32 (drop (Z.to_nat offset) (memory s)), true), set_stack st s)).
  { unfold get2, wordSize. change (32 =? 0) with false. unfold mbind, M_bind.
    rewrite allocateMemory_noop by (done || unfold memoryLimit in *; lia). cbn [negb].
    rewrite (Uint64_small offset), (Uint64_small 32) by done.
    unfold mem_slice, mbind, M_bind, get. cbn [memory set_stack].
    rewrite u64_small by (unfold two64; lia).
    by rewrite (proj2 (Z.leb_le _ _)), (proj2 (Z.leb_le _ _)) by lia. }
  unfold opMload. rewrite (pop_run offset st) by done. unfold mbind, M_bind. by rewrite Hget.
Qed.

Lemma write_read m o b :
  0 <= o -> o + Z.of_nat (length b) <= Z.of_nat (length m) ->
  take (length b) (drop (Z.to_nat o) (write m o b)) = b.
Proof.
  intros Ho Hl. unfold write. rewrite drop_app_length' by (rewrite length_take; lia).
  by rewrite take_app_length.
Qed.

(** [MSTORE] then [MLOAD] at the same offset gives back the word, at no
    further cost, whatever was in memory before. *)
Theorem mstore_mload s offset v st s1 st' :
  evm_ok s -> stack s = offset :: v :: st -> word offset -> word v ->
  opMStore s = Some (tt, s1) -> stop s1 = false ->
  opMload (set_stack (offset :: st') s1) = Some (tt, set_stack (v :: st') s1).
Proof.
  intros Hok Hst Ho Hv Hstore Hstop.
  destruct (opMStore_spec _ _ _ _ _ Hok Hst Ho Hv Hstore) as [?|(s2 & Hok2 & Hl & Hlen & ->)];
    [congruence|]. pose proof (ok_memlen _ Hok2) as Hml.
  assert (Hw : length (write (memory s2) offset (be_bytes 32 v)) = length (memory s2)).
  { apply write_length; rewrite ?be_bytes_length; lia. }
  rewrite (opMload_run _ offset st'); cbn [stack memory set_stack set_memory];
    [|done|done|rewrite Hw; done..].
  pose proof (write_read (memory s2) offset (be_bytes 32 v)) as Hr. rewrite be_bytes_length in Hr.
  rewrite Hr by lia. rewrite be_val_bytes. rewrite Z.mod_small by exact Hv. done.
Qed.

Lemma consumeGas_true g s s' :
  consumeGas g s = Some (true, s') ->
  g <= gas s /\ s' = set_gas (gas s -u g) (set_consumed (currentConsumedGas s +u g) s).
Proof.
  unfold consumeGas, mbind, M_bind, modify, get. cbn [gas set_consumed].
  destruct (gas s <? g) eqn:E; breflect; cbn; [done|]. by intros [= <-].
Qed.

Lemma mem_cost_mono v w : 0 <= v <= w -> mem_cost v <= mem_cost w.
Proof.
  intros Hv. unfold mem_cost. assert (v * v <= w * w) by nia.
  pose proof (Z.div_le_mono (v * v) (w * w) 512 ltac:(lia) ltac:(lia)). lia.
Qed.

Lemma mem_cost_u64 w :
  0 <= w < 2 ^ 32 -> (3 *u w) +u ((w *u w) / 512) = mem_cost w /\ 0 <= mem_cost w < two64.
Proof.
  intros Hw. unfold mem_cost. assert (Hsq : 0 <= w * w < two64) by (unfold two64; nia).
  rewrite (u64_small (w * w)), (u64_small (3 * w)) by (unfold two64 in *; lia).
  pose proof (Z.div_pos (w * w) 512 ltac:(lia) ltac:(lia)).
  assert (w * w / 512 < 2 ^ 55) by (apply Z.div_lt_upper_bound; unfold two64 in *; lia).
  rewrite u64_small by (unfold two64; lia). unfold two64. lia.
Qed.

(** A successful allocation that grows the memory, step by step. *)
Lemma allocateMemory_grow s offset size s' :
  allocateMemory offset size s = Some (true, s') -> size <> 0 ->
  Z.of_nat (length (memory s)) < offset + size ->
  let w := (offset + size + 31) / 32 in
  let newCost := (3 *u w) +u ((w *u w) / 512) in
  newCost -u lastGasCost s <= gas s /\ gas s' = gas s -u (newCost -u lastGasCost s) /\
  lastGasCost s' = newCost /\ memory s' = ExtendByteSlice (memory s) (Z.to_nat (32 * w)).
Proof.
  intros Ha Hz Hgrow. destruct (allocateMemory_limit _ _ _ _ _ Ha eq_refl Hz) as [Ho Hs].
  destruct (words_bound offset size Ho Hs) as (E1 & E2 & E3 & _).
  assert (Hu1 : is_u64 offset) by (unfold is_u64, memoryLimit, two64 in *; lia).
  assert (Hu2 : is_u64 size) by (unfold is_u64, memoryLimit, two64 in *; lia).
  unfold allocateMemory in Ha.
  rewrite (proj2 (IsUint64_true _) Hu1), (proj2 (IsUint64_true _) Hu2), !Uint64_small in Ha by done.
  cbn [negb orb] in Ha. rewrite (proj2 (Z.eqb_neq _ _) Hz) in Ha.
  rewrite !(proj2 (Z.ltb_ge _ _)) in Ha by lia. cbn [orb] in Ha. rewrite get_run, E1, E2, E3 in Ha.
  rewrite (proj2 (Z.ltb_lt _ _)) in Ha by lia. rewrite get_run in Ha. intros w newCost.
  fold w in Ha. fold newCost in Ha. unfold mbind, M_bind, modify in Ha.
  destruct (consumeGas _ _) as [[[] s2]|] eqn:Ec; [|done|done].
  apply consumeGas_true in Ec as [Hle ->]. cbn in Ha. injection Ha as <-. done.
Qed.

(** Growing the memory costs the difference of the quadratic schedule, and
    the cost already paid is kept with it, as long as the memory stays below
    2^32 words. *)
Theorem allocateMemory_cost s offset size s' :
  evm_ok s -> 0 <= size -> offset + size <= 32 * (2 ^ 32 - 1) ->
  lastGasCost s = mem_cost (Z.of_nat (length (memory s)) / 32) ->
  allocateMemory offset size s = Some (true, s') ->
  gas s' = gas s - (mem_cost (Z.of_nat (length (memory s')) / 32)
                    - mem_cost (Z.of_nat (length (memory s)) / 32)) /\
  lastGasCost s' = mem_cost (Z.of_nat (length (memory s')) / 32).
Proof.
  intros Hok Hsize Hbound Hlast Ha. pose proof (ok_gas _ Hok) as Hg. unfold is_u64 in Hg.
  assert (Hsame : s' = s -> gas s' = gas s - (mem_cost (Z.of_nat (length (memory s')) / 32)
    - mem_cost (Z.of_nat (length (memory s)) / 32)) /\
    lastGasCost s' = mem_cost (Z.of_nat (length (memory s')) / 32)) by (intros ->; split; [lia|done]).
  destruct (decide (size = 0)) as [->|Hz].
  { apply Hsame. unfold allocateMemory in Ha. destruct (negb _ || _) eqn:E; [done|]. by injection Ha. }
  destruct (allocateMemory_limit _ _ _ _ _ Ha eq_refl Hz) as [Ho Hs].
  destruct (decide (offset + size <= Z.of_nat (length (memory s)))) as [Hin|Hgrow].
  { apply Hsame. rewrite allocateMemory_noop in Ha by done. by injection Ha. }
  destruct (allocateMemory_grow _ _ _ _ Ha Hz ltac:(lia)) as (Hle & Hgas & Hl & Hmem).
  set (w := (offset + size + 31) / 32) in *.
  pose proof (Z.div_mod (offset + size + 31) 32). pose proof (Z.mod_pos_bound (offset + size + 31) 32).
  assert (Hw : 0 <= w < 2 ^ 32) by (unfold w; lia).
  assert (Hold : 0 <= Z.of_nat (length (memory s)) / 32 <= w).
  { split; [apply Z.div_pos; lia|apply Z.div_le_mono; lia]. }
  assert (Hlen : Z.of_nat (length (memory s')) / 32 = w).
  { rewrite Hmem, ExtendByteSlice_longer, length_app, length_replicate by lia.
    replace (Z.of_nat _) with (w * 32) by lia. by apply Z.div_mul. }
  destruct (mem_cost_u64 w Hw) as [Hc Hcb]. rewrite Hc, Hlast in *. rewrite Hlen.
  pose proof (mem_cost_mono _ _ Hold).
  assert (0 <= mem_cost (Z.of_nat (length (memory s)) / 32)) by (apply (mem_cost_mono 0); lia).
  rewrite (u64_small (mem_cost w - _)) in * by lia.
  rewrite u64_small in Hgas by lia. split; [lia|done].
Qed.

(** ** Jumps *)

(** [JUMP] continues at its operand exactly if that is the offset of an
    instruction of the code (not a byte of a [PUSH] operand) and the
    instruction is [JUMPDEST]; otherwise it stops with [errInvalidJump]. *)
Theorem jump_destinations s dest st :
  evm_ok s -> stack s = dest :: st -> word dest ->
  (instr_start (code s) (Z.to_nat dest) /\ code s !! Z.to_nat dest = Some JUMPDEST /\
   opJump s = Some (tt, set_ip (dest - 1) (set_stack st s))) \/
  (~ (instr_start (code s) (Z.to_nat dest) /\ code s !! Z.to_nat dest = Some JUMPDEST) /\
   opJump s = Some (tt, set_err (Some errInvalidJump) (set_stop true (set_stack st s)))).
Proof.
  intros Hok Hst Hd. unfold word in Hd. unfold opJump. rewrite (pop_run dest st) by done.
  pose proof (setCode_spec (code s) (Z.to_nat dest)) as Hbit. rewrite Z2Nat.id in Hbit by lia.
  destruct (jump_to_run (set_stack st s) dest) as [(Hr & Hb & ->)|(Hb & ->)];
    [by apply evm_ok_stack|lia| |]; cbn [code set_stack] in *.
  - left. apply Hbit in Hb as [??]. done.
  - right. split; [|done]. intros [Hs Hc]. destruct Hb as [Hb|Hb].
    + apply lookup_lt_Some in Hc. lia.
    + rewrite (proj2 Hbit) in Hb by done. done.
Qed.

(** ** Deviations *)

Lemma i64_of_small x : - 2 ^ 63 <= x < 2 ^ 63 -> i64 x = x.
Proof. intros Hx. unfold i64, two64. rewrite Z.mod_small; lia. Qed.

Lemma Int64_low x : word x -> x mod 2 ^ 64 < 32 -> Int64 x = x mod 2 ^ 64.
Proof.
  intros Hx Hm. unfold Int64, word in *. rewrite Z.abs_eq, (proj2 (Z.ltb_ge _ _)) by lia. unfold i64.
  change two64 with (2 ^ 64). rewrite <- Zplus_mod_idemp_l, Z.mod_small by (split; [|lia]; pose proof (Z.mod_pos_bound x (2 ^ 64)); lia).
  lia.
Qed.

Lemma opByte_run s x y st :
  stack s = x :: y :: st -> word x -> x mod 2 ^ 64 < 32 ->
  opByte s = Some (tt, set_stack (y / 2 ^ (8 * (31 - x mod 2 ^ 64)) mod 256 :: st) s).
Proof.
  intros Hs Hx Hm. pose proof (Z.mod_pos_bound x (2 ^ 64) ltac:(lia)) as Hb.
  unfold opByte. rewrite (pop_top_run x y st) by done. rewrite Int64_low by done. cbv zeta.
  rewrite (proj2 (Z.ltb_ge _ _)) by lia. rewrite !i64_of_small, u64_small by (unfold two64; rewrite ?i64_of_small; lia).
  rewrite Rsh_spec, land_255 by lia. cbn. by replace ((31 - x mod 2 ^ 64) * 8) with (8 * (31 - x mod 2 ^ 64)) by lia.
Qed.

(** A round of the loop that finds the opcode and has the gas for it. *)
Lemma run_step_at s op h :
  0 <= ip s -> code s !! Z.to_nat (ip s) = Some op -> dispatchTable op = Some h -> h_stack h <= sp s ->
  0 <= h_gas h <= gas s -> gas s < two64 ->
  run_step s = (inst h;; depth ← get sp;
                if stackSize <? depth then exit ErrStackOverflow else modify (fun s => set_ip (ip s + 1) s))
    (set_gas (gas s - h_gas h) (set_consumed (currentConsumedGas s +u h_gas h) s)).
Proof.
  intros Hip Hop Hd Hsp Hg Hu. pose proof (lookup_lt_Some _ _ _ Hop) as Hlt.
  assert (Hc : CurrentOpCode s = Some (Some op, s)).
  { unfold CurrentOpCode. rewrite get_run. cbn [id]. rewrite (proj2 (Z.leb_gt _ _)), (proj2 (Z.ltb_ge _ _)) by lia. by rewrite Hop. }
  unfold run_step. unfold mbind at 1, M_bind at 1. rewrite Hc, Hd, get_run, (proj2 (Z.ltb_ge _ _)) by done.
  by rewrite consumeGas_run by done.
Qed.

Lemma SIGNEXTEND_step s x :
  0 <= ip s -> code s !! Z.to_nat (ip s) = Some 11 -> stack s = [x] -> 5 <= gas s < two64 ->
  exists s', run_step s = Some (tt, s') /\ stack s' = [] /\ stop s' = stop s /\ err s' = err s /\ ip s' = ip s + 1.
Proof.
  intros Hip Hop Hs Hg. rewrite (run_step_at s 11 (mkHandler opSignExtension 1 5));
    [|done|done|reflexivity|unfold sp; rewrite Hs; done|cbn; lia|lia].
  set (s0 := set_gas _ _). assert (Hs0 : stack s0 = [x]) by done.
  assert (He : opSignExtension s0 = Some (tt, set_stack [] s0)).
  { unfold opSignExtension. rewrite (pop_run x []) by done. unfold top_ptr. rewrite get_run. by destruct (wordSize <? x). }
  unfold mbind at 1, M_bind at 1. cbn [inst]. rewrite He. by eexists.
Qed.

Lemma be_val_zeros l n : be_val (l ++ replicate n 0) = be_val l * 256 ^ Z.of_nat n.
Proof.
  rewrite be_val_app, length_replicate. assert (Hz : be_val (replicate n 0) = 0) by (induction n as [|n IH]; [done|exact IH]). lia.
Qed.

Lemma opPush_cut s n :
  0 <= n -> Z.of_nat (length (code s)) < ip s + 1 + n ->
  opPush n s = Some (tt, set_ip (ip s + n) (set_stack (be_val (drop (Z.to_nat (ip s + 1)) (code s)) * 256 ^ n :: stack s) s)).
Proof.
  intros Hn Hl. unfold opPush. rewrite get_run. cbn [id]. rewrite (proj2 (Z.ltb_lt _ _)) by done.
  unfold push. rewrite be_val_zeros, Z2Nat.id by done. done.
Qed.

(** The first allocation of [w] words. *)
Lemma memory_charge s w :
  memory s = [] -> lastGasCost s = 0 -> 0 < w -> 32 * w <= memoryLimit -> 3 * w + (w * w) mod 2 ^ 64 / 512 <= gas s -> gas s < two64 ->
  exists s', allocateMemory 0 (32 * w) s = Some (true, s') /\ gas s' = gas s - (3 * w + (w * w) mod 2 ^ 64 / 512).
Proof.
  unfold memoryLimit. intros Hm Hl Hw Hlim Hg Hu. unfold allocateMemory.
  assert (Hu1 : is_u64 (32 * w)) by (unfold is_u64, two64; lia). rewrite (proj2 (IsUint64_true _) Hu1), !Uint64_small by done.
  cbn [negb orb IsUint64]. change (IsUint64 0) with true. cbn [negb orb]. rewrite (proj2 (Z.eqb_neq _ _)) by lia.
  unfold memoryLimit. rewrite !(proj2 (Z.ltb_ge _ _)) by lia. cbn [orb]. rewrite get_run, Hm. cbn [length].
  rewrite (u64_small (0 + 32 * w)), (u64_small (0 + 32 * w + 31)) by (unfold two64; lia). rewrite (proj2 (Z.ltb_lt _ _)) by lia.
  replace ((0 + 32 * w + 31) / 32) with w by (apply (Z.div_unique_pos _ _ _ 31); lia). rewrite get_run, Hl.
  pose proof (Z.mod_pos_bound (w * w) (2 ^ 64) ltac:(lia)) as Hb.
  assert (Hd : 0 <= (w * w) mod 2 ^ 64 / 512 < 2 ^ 55) by (split; [apply Z.div_pos|apply Z.div_lt_upper_bound]; lia).
  unfold two64 in Hu. assert (Hc : ((3 *u w) +u ((w *u w) / 512) -u 0) = 3 * w + (w * w) mod 2 ^ 64 / 512).
  { rewrite (u64_small (3 * w)) by (unfold two64; lia). change (w *u w) with ((w * w) mod 2 ^ 64).
    rewrite (u64_small (3 * w + _)) by (unfold two64; lia). rewrite u64_small by (unfold two64; lia). lia. }
  rewrite Hc. unfold mbind at 1, M_bind at 1, modify at 1.
  rewrite consumeGas_run by (cbn [gas set_lastGasCost]; unfold two64; lia). cbn [negb]. eexists. split; [reflexivity|]. done.
Qed.

Lemma popAddr_run {A} x st s (k : Address * bool -> M W A) :
  stack s = x :: st -> (a ← popAddr; k a) s = k (BytesToAddress (Bytes x), true) (set_stack st s).
Proof. intros Hs. unfold popAddr, mbind, M_bind, pop_ptr. by rewrite Hs. Qed.

(** A call without data before EIP-150, whose cost and gas exceed 2^64 together. *)
Lemma call_gas_wraps s g a st :
  let addr := BytesToAddress (Bytes a) in
  let cost := call_cost CALL s addr false in
  EIP150 (config s) = false -> stack s = g :: a :: 0 :: 0 :: 0 :: 0 :: 0 :: st -> is_u64 g -> is_u64 (gas s) ->
  0 <= cost + g - two64 <= gas s -> cost <= two64 ->
  exists k s', buildCallContract CALL s = Some (Built k 0 0, s') /\ c_Gas k = g /\ gas s' = gas s - (cost + g - two64).
Proof.
  intros addr cost He Hs Hg Hgs Hc Hc'. unfold buildCallContract.
  rewrite (pop_run g _ s _ Hs), (popAddr_run a (0 :: 0 :: 0 :: 0 :: 0 :: st)) by done. cbn [fst]. fold addr.
  change ((CALL =? CALL) || (CALL =? CALLCODE)) with true. cbn iota. unfold mbind at 1, M_bind at 1.
  rewrite (pop_run 0 (0 :: 0 :: 0 :: 0 :: st)) by done. unfold mret at 1, M_ret at 1. cbv beta iota.
  rewrite (pop_run 0 (0 :: 0 :: 0 :: st)), (pop_run 0 (0 :: 0 :: st)), (pop_run 0 (0 :: st)), (pop_run 0 st) by done.
  change (get2 0 0) with (mret (M := M W) ([] : list Z, true)). unfold mbind at 1, M_bind at 1, mret at 1, M_ret at 1. cbn [snd negb].
  change (allocateMemory 0 0) with (mret (M := M W) true). unfold mbind at 1, M_bind at 1, mret at 1, M_ret at 1. cbn [negb].
  rewrite get_run. cbn [id config set_stack Z.sgn Z.eqb negb]. rewrite He. cbn [negb andb]. rewrite (proj2 (IsUint64_true _) Hg). cbn [negb].
  change (call_cost CALL (set_stack st _) addr false) with cost. unfold call_gas at 1 2. cbn [config set_stack]. rewrite He, Uint64_small by done.
  assert (Hw : cost +u g = cost + g - two64).
  { unfold u64, is_u64 in *. replace (cost + g) with (cost + g - two64 + 1 * two64) by lia. rewrite Z_mod_plus_full, Z.mod_small by lia. lia. }
  rewrite Hw, consumeGas_run by (cbn [gas set_stack]; unfold is_u64 in Hgs; lia). cbn [negb].
  eexists _, _. split; [reflexivity|]. split; [|reflexivity]. unfold call_contract. cbn.
  by destruct (c_Static (msg s)).
Qed.

End Func.

(** ** Witnesses *)

#[local] Existing Instance demo_codec.


Lemma signed_instructions_witness :
  opSDiv (demo_state demo_forks 0 [2 ^ 256 - 7; 2]) =
    Some (tt, demo_state demo_forks 0 [2 ^ 256 - 3]).
Proof.
  destruct (signed_instructions (demo_state demo_forks 0 [2 ^ 256 - 7; 2]) (2 ^ 256 - 7) 2 [])
    as [Hdiv _]; [reflexivity|unfold word; lia|unfold word; lia|reflexivity|exact Hdiv].
Defined.

Lemma opExp_power_witness :
  exists s', opExp (demo_state demo_forks 100 [3; 5]) = Some (tt, s') /\ stack s' = [243] /\
    gas s' = 50 /\ stop s' = false /\ err s' = None /\ memory s' = [].
Proof.
  apply (opExp_power (demo_state demo_forks 100 [3; 5]) 3 5 []);
    [unfold is_u64, two64; cbn; lia|reflexivity|unfold word; lia|unfold word; lia|by vm_compute].
Defined.

Definition demo_stored : state demo_world := Eval vm_compute in
  default (demo_state demo_forks 100 []) (snd <$> opMStore (demo_state demo_forks 100 [4; 77])).

Lemma mstore_mload_witness :
  opMload (set_stack [4] demo_stored) = Some (tt, set_stack [77] demo_stored).
Proof.
  apply (mstore_mload (demo_state demo_forks 100 [4; 77]) 4 77 [] demo_stored []);
    [apply demo_state_ok; unfold is_u64, two64; lia|reflexivity|unfold word; lia|unfold word; lia
    |vm_compute; reflexivity|reflexivity].
Defined.

Definition demo_grown : state demo_world := Eval vm_compute in
  default (demo_state demo_forks 100 [])
    (snd <$> allocateMemory 4 32 (demo_state demo_forks 100 [])).

Lemma allocateMemory_cost_witness :
  gas demo_grown = 100 - (mem_cost 2 - mem_cost 0) /\ lastGasCost demo_grown = mem_cost 2.
Proof.
  apply (allocateMemory_cost (demo_state demo_forks 100 []) 4 32 demo_grown);
    [apply demo_state_ok; unfold is_u64, two64; lia|lia|lia|reflexivity|vm_compute; reflexivity].
Defined.

Lemma jump_destinations_witness :
  ~ (instr_start [96; 3; 96; 2; 10; 96; 0; 85] 1 /\ [96; 3; 96; 2; 10; 96; 0; 85] !! 1%nat = Some JUMPDEST).
Proof.
  destruct (jump_destinations (demo_state demo_forks 100 [1]) 1 []) as [(_ & Hc & _)|[Hn _]];
    [apply demo_state_ok; unfold is_u64, two64; lia|reflexivity|unfold word; lia|discriminate Hc|exact Hn].
Defined.
