(* ===== verification/EvmRelation.v ===== *)
(** * The interpreter and relations between worlds

    A relation of worlds that every method of the host respects is respected by the
    interpreter: instructions read and change the world through the host only. The executor
    uses it for transitions that differ in snapshots no frame can revert to, and for what no
    frame changes. *)

From S2P Require Import Prelude ChainTypes BigInt Runtime EvmState EvmInstr EvmRun.
Local Open Scope go_scope.
Set Default Proof Using "Type".

(** Two loops in step. *)
Lemma loop_until_related {S : Type} (stop : S -> bool) (f : S -> S) (Rel : S -> S -> Prop) :
  (forall x y, Rel x y -> stop y = stop x) -> (forall x y, Rel x y -> Rel (f x) (f y)) ->
  forall n x y, Rel x y -> Rel (loop_until stop f n x) (loop_until stop f n y).
Proof.
  intros Hs Hf. induction n as [n IH|n IH|]; intros x y Hxy; cbn; rewrite (Hs x y Hxy); destruct (stop x); auto.
Qed.

(** Outcomes with the same value and related worlds. *)
Definition outcomes {A W} (R : W -> W -> Prop) (o o' : option (A * W)) : Prop :=
  match o, o' with
  | Some (a, w), Some (a', w') => a' = a /\ R w w'
  | None, None => True
  | _, _ => False
  end.

(** What [R] has to be respected by. *)
Class HostRelation {W : Type} `{Host W} (R : W -> W -> Prop) : Prop := {
  hr_AccountExists w w' a : R w w' -> AccountExists w' a = AccountExists w a;
  hr_GetStorage w w' a k : R w w' -> GetStorage w' a k = GetStorage w a k;
  hr_SetStorage w w' a k v cfg : R w w' -> outcomes R (Some (SetStorage w a k v cfg)) (Some (SetStorage w' a k v cfg));
  hr_GetBalance w w' a : R w w' -> HGetBalance w' a = HGetBalance w a;
  hr_GetCodeSize w w' a : R w w' -> outcomes R (Some (GetCodeSize w a)) (Some (GetCodeSize w' a));
  hr_GetCodeHash w w' a : R w w' -> GetCodeHash w' a = GetCodeHash w a;
  hr_GetCode w w' a : R w w' -> outcomes R (Some (GetCode w a)) (Some (GetCode w' a));
  hr_Selfdestruct w w' a b : R w w' -> R (Selfdestruct w a b) (Selfdestruct w' a b);
  hr_GetTxContext w w' : R w w' -> GetTxContext w' = GetTxContext w;
  hr_GetBlockHash w w' n : R w w' -> GetBlockHash w' n = GetBlockHash w n;
  hr_EmitLog w w' a ts d : R w w' -> R (EmitLog w a ts d) (EmitLog w' a ts d);
  hr_Callx w w' c : R w w' -> outcomes R (Callx w c) (Callx w' c);
  hr_Empty w w' a : R w w' -> Empty w' a = Empty w a;
  hr_GetNonce w w' a : R w w' -> HGetNonce w' a = HGetNonce w a;
}.

Create HintDb natural.

Section Relation.
Context {W : Type} `{Host W} `{Codec} (R : W -> W -> Prop).
Implicit Types s : state W.

(** Two states that differ in related worlds. *)
Definition sim s s' : Prop := exists w', R (host s) w' /\ s' = set_host w' s.

(** Two programs do the same on a state and on it with a related world. *)
Definition related {A} (m m' : M W A) s (w' : W) : Prop := R (host s) w' -> outcomes sim (m s) (m' (set_host w' s)).

Definition natural {A} (m : M W A) : Prop := forall s w', related m m s w'.

Lemma related_bind {A B} (m : M W A) (k k' : A -> M W B) s w' :
  natural m -> (forall a s1 w1, related (k a) (k' a) s1 w1) -> related (m ≫= k) (m ≫= k') s w'.
Proof.
  intros Hm Hk HR. specialize (Hm s w' HR). unfold mbind, M_bind, outcomes in *.
  destruct (m s) as [[a s1]|], (m (set_host w' s)) as [[a' s1']|]; [|done..]. destruct Hm as (-> & w1 & HR1 & ->). exact (Hk a s1 w1 HR1).
Qed.

Lemma related_get {A B} (f : state W -> A) (k k' : A -> M W B) s w' :
  (R (host s) w' -> related (k (f s)) (k' (f (set_host w' s))) s w') -> related (get f ≫= k) (get f ≫= k') s w'.
Proof. intros Hk HR. exact (Hk HR HR). Qed.

Lemma related_modify (f f' : state W -> state W) s w' w1 :
  (R (host s) w' -> f' (set_host w' s) = set_host w1 (f s) /\ R (host (f s)) w1) -> related (modify f) (modify f') s w'.
Proof. intros Hf HR. destruct (Hf HR) as [He H1]. split; [done|]. by exists w1. Qed.

Lemma related_modify_bind {B} (f f' : state W -> state W) (k k' : unit -> M W B) s w' w1 :
  (R (host s) w' -> f' (set_host w' s) = set_host w1 (f s) /\ R (host (f s)) w1) -> related (k tt) (k' tt) (f s) w1 ->
  related (modify f ≫= k) (modify f' ≫= k') s w'.
Proof. intros Hf Hk HR. destruct (Hf HR) as [He H1]. unfold mbind, M_bind, modify. rewrite He. exact (Hk H1). Qed.

Lemma related_ret {A} (a : A) s w' : related (mret a) (mret a) s w'.
Proof. intros HR. split; [done|]. by exists w'. Qed.

Lemma natural_deref {A} (o : option A) : natural (deref o).
Proof. intros s w'. destruct o; [apply related_ret|done]. Qed.

Lemma natural_panic {A} : natural (panic (A := A)).
Proof. done. Qed.

End Relation.

#[export] Hint Resolve natural_deref natural_panic : natural.

(** Fields of a state with another world, and answers of that world. *)
Ltac host_simpl :=
  repeat match goal with |- context [sp (set_host ?w ?s)] => change (sp (set_host w s)) with (sp s) end;
  cbn [set_host ip code host msg config memory lastGasCost stack err stop gas currentConsumedGas bitmap returnData ret id];
  repeat match goal with
  | HR : ?R ?w ?w' |- context [AccountExists ?w' ?a] => rewrite (hr_AccountExists w w' a HR)
  | HR : ?R ?w ?w' |- context [GetStorage ?w' ?a ?k] => rewrite (hr_GetStorage w w' a k HR)
  | HR : ?R ?w ?w' |- context [HGetBalance ?w' ?a] => rewrite (hr_GetBalance w w' a HR)
  | HR : ?R ?w ?w' |- context [GetCodeHash ?w' ?a] => rewrite (hr_GetCodeHash w w' a HR)
  | HR : ?R ?w ?w' |- context [GetTxContext ?w'] => rewrite (hr_GetTxContext w w' HR)
  | HR : ?R ?w ?w' |- context [GetBlockHash ?w' ?n] => rewrite (hr_GetBlockHash w w' n HR)
  | HR : ?R ?w ?w' |- context [Empty ?w' ?a] => rewrite (hr_Empty w w' a HR)
  | HR : ?R ?w ?w' |- context [HGetNonce ?w' ?a] => rewrite (hr_GetNonce w w' a HR)
  end.

(** A change of the state that leaves the world, or changes it through the host. *)
Ltac host_change :=
  let HR := fresh "HR" in intros HR; split; [host_simpl; reflexivity|cbn [host set_host set_ip set_memory set_lastGasCost set_stack set_err set_stop set_gas
    set_consumed set_returnData set_ret];
    first [exact HR | by apply hr_Selfdestruct | by apply hr_EmitLog | assumption]].

Ltac nat_step :=
  lazymatch goal with
  | |- natural _ _ => first [solve [eauto with natural] | intros ? ?]
  | |- related _ (mret _) (mret _) _ _ => apply related_ret
  | |- related _ (get _ ≫= _) _ _ _ => apply related_get; let HR := fresh "HR" in intros HR; host_simpl
  | |- related _ (modify _ ≫= _) _ _ _ => eapply related_modify_bind; [host_change|]
  | |- related _ (_ ≫= _) (_ ≫= _) _ _ => apply related_bind; [|intros ? ? ?]
  | |- related _ (modify _) _ _ _ => eapply related_modify; host_change
  | |- related _ (if ?b then _ else _) _ _ _ => destruct b
  | |- related _ (match ?x with _ => _ end) _ _ _ => destruct x
  | |- related _ (let x := _ in _) _ _ _ => cbv zeta
  | |- related ?f ?m ?m ?s ?w => let Hm := fresh in assert (Hm : natural f m) by (eauto with natural); exact (Hm s w)
  end.

Set Default Proof Using "All".

Section Instructions.
Context {W : Type} `{Host W} `{Codec} (R : W -> W -> Prop) `{!HostRelation R}.

Lemma natural_get {A} (f : state W -> A) : (forall s w', f (set_host w' s) = f s) -> natural R (get f).
Proof. intros Hf s w' HR. split; [apply Hf|]. by exists w'. Qed.

Lemma natural_modify (f : state W -> state W) : (forall s w', f (set_host w' s) = set_host w' (f s)) -> (forall s, host (f s) = host s) -> natural R (modify f).
Proof. intros Hf Hh s w' HR. split; [done|]. exists w'. split; [by rewrite Hh|apply Hf]. Qed.

Lemma natural_exit e : natural R (exit e).
Proof. by apply natural_modify. Qed.
Lemma natural_Halt : natural R Halt.
Proof. by apply natural_modify. Qed.
Lemma natural_push v : natural R (push v).
Proof. by apply natural_modify. Qed.
Lemma natural_pop_ptr : natural R pop_ptr.
Proof. intros s w' HR. unfold pop_ptr. cbn. destruct (stack s); split; try done; by exists w'. Qed.
Lemma natural_top_ptr : natural R top_ptr.
Proof. by apply natural_get. Qed.
Lemma natural_set_top v : natural R (set_top v).
Proof. intros s w' HR. unfold set_top. cbn. destruct (stack s); [done|]. split; [done|]. by exists w'. Qed.
Lemma natural_stackAtLeast n : natural R (stackAtLeast n).
Proof. by apply natural_get. Qed.
Lemma natural_swap n : natural R (swap n).
Proof.
  intros s w' HR. unfold swap. cbn. destruct (stack s !! 0%nat), (stack s !! Z.to_nat n); try done. split; [done|]. by exists w'.
Qed.
#[local] Hint Resolve natural_exit natural_Halt natural_push natural_pop_ptr natural_top_ptr natural_set_top natural_stackAtLeast natural_swap : natural.

Ltac natural_by d := unfold d; repeat nat_step.

Lemma natural_pop : natural R pop.
Proof. natural_by @pop. Qed.
Lemma natural_top : natural R top.
Proof. natural_by @top. Qed.
#[local] Hint Resolve natural_pop natural_top : natural.

Lemma natural_popHash : natural R popHash.
Proof. natural_by @popHash. Qed.
Lemma natural_popAddr : natural R popAddr.
Proof. natural_by @popAddr. Qed.
Lemma natural_peekAt n : natural R (peekAt n).
Proof. natural_by @peekAt. Qed.
Lemma natural_consumeGas g : natural R (consumeGas g).
Proof. natural_by @consumeGas. Qed.
Lemma natural_resetReturnData : natural R resetReturnData.
Proof. by apply natural_modify. Qed.
Lemma natural_inStaticCall : natural R inStaticCall.
Proof. by apply natural_get. Qed.
Lemma natural_validJumpdest d : natural R (validJumpdest d).
Proof. natural_by @validJumpdest. Qed.
Lemma natural_mem_slice o l : natural R (mem_slice o l).
Proof. natural_by @mem_slice. Qed.
Lemma natural_mem_write o b : natural R (mem_write o b).
Proof. natural_by @mem_write. Qed.
#[local] Hint Resolve natural_popHash natural_popAddr natural_peekAt natural_consumeGas natural_resetReturnData natural_inStaticCall
  natural_validJumpdest natural_mem_slice natural_mem_write : natural.

Lemma natural_allocateMemory o n : natural R (allocateMemory o n).
Proof. natural_by @allocateMemory. Qed.
#[local] Hint Resolve natural_allocateMemory : natural.
Lemma natural_get2 o n : natural R (get2 o n).
Proof. natural_by @get2. Qed.
Lemma natural_CurrentOpCode : natural R CurrentOpCode.
Proof. natural_by @CurrentOpCode. Qed.
Lemma natural_pop_topics n : natural R (pop_topics n).
Proof. induction n as [|n IH]; cbn [pop_topics]; repeat nat_step. Qed.
Lemma natural_host_code a : natural R (host_code a).
Proof.
  intros s w' HR. pose proof (hr_GetCode (host s) w' a HR) as Hc. unfold host_code, mbind, M_bind, get, modify. cbn.
  destruct (GetCode (host s) a), (GetCode w' a). destruct Hc as [-> Hc]. split; [done|]. by eexists.
Qed.
Lemma natural_host_codesize a : natural R (host_codesize a).
Proof.
  intros s w' HR. pose proof (hr_GetCodeSize (host s) w' a HR) as Hc. unfold host_codesize, mbind, M_bind, get, modify. cbn.
  destruct (GetCodeSize (host s) a), (GetCodeSize w' a). destruct Hc as [-> Hc]. split; [done|]. by eexists.
Qed.
Lemma natural_add_gas g : natural R (add_gas g).
Proof. by apply natural_modify. Qed.
#[local] Hint Resolve natural_get2 natural_CurrentOpCode natural_pop_topics natural_host_code natural_host_codesize natural_add_gas : natural.

Lemma natural_callx c : natural R (callx c).
Proof.
  intros s w' HR. pose proof (hr_Callx (host s) w' c HR) as Hc. unfold callx, mbind, M_bind, get, modify. cbn.
  destruct (Callx (host s) c) as [[r w]|], (Callx w' c) as [[r1 w1]|]; try done. destruct Hc as [-> Hc]. split; [done|]. by eexists.
Qed.
Lemma natural_push_bad c : natural R (push_bad c).
Proof. natural_by @push_bad. Qed.
Lemma natural_copy o d n k : natural R (copy_to_memory o d n k).
Proof. natural_by @copy_to_memory. Qed.
Lemma natural_jump_to d : natural R (jump_to d).
Proof. natural_by @jump_to. Qed.
#[local] Hint Resolve natural_callx natural_push_bad natural_copy natural_jump_to : natural.

Lemma natural_buildCreate op : natural R (buildCreateContract op).
Proof. natural_by @buildCreateContract. Qed.

Lemma call_cost_related op s w' a b : R (host s) w' -> call_cost op (set_host w' s) a b = call_cost op s a b.
Proof. intros HR. unfold call_cost. host_simpl. done. Qed.

Lemma natural_buildCall op : natural R (buildCallContract op).
Proof.
  unfold buildCallContract. repeat nat_step.
  match goal with |- related _ _ _ ?s ?w => rewrite !(call_cost_related _ s w) by done;
    change (call_gas (set_host w s)) with (call_gas s); change (call_contract op (set_host w s)) with (call_contract op s) end.
  repeat nat_step.
Qed.
#[local] Hint Resolve natural_buildCreate natural_buildCall : natural.

Lemma natural_opCreate op : natural R (opCreate op).
Proof. natural_by @opCreate. Qed.
Lemma natural_opCall op : natural R (opCall op).
Proof. natural_by @opCall. Qed.
Lemma natural_opSStore : natural R opSStore.
Proof.
  unfold opSStore. do 6 nat_step; [eauto with natural|]. nat_step; [eauto with natural|].
  match goal with |- related _ (let '(_, _) := SetStorage ?w ?a ?k ?v ?c in _) (let '(_, _) := SetStorage ?w' _ _ _ _ in _) _ _ =>
    pose proof (hr_SetStorage w w' a k v c ltac:(done)) as Hset;
    destruct (SetStorage w a k v c) as [status x], (SetStorage w' a k v c) as [status' x']; destruct Hset as [-> Hset] end.
  repeat nat_step.
Qed.
#[local] Hint Resolve natural_opCreate natural_opCall natural_opSStore : natural.

(** Every instruction of the table. *)
Lemma natural_range from to factory g :
  (forall n, natural R (factory n)) -> Forall (fun r => natural R (inst (snd r))) (registerRange from to factory g).
Proof. intros Hf. apply Forall_fmap, Forall_true. intros n. apply Hf. Qed.

Lemma natural_opPush n : natural R (opPush n).
Proof. natural_by @opPush. Qed.
Lemma natural_opDup n : natural R (opDup n).
Proof. natural_by @opDup. Qed.
Lemma natural_opSwap n : natural R (opSwap n).
Proof. natural_by @opSwap. Qed.
Lemma natural_opLog n : natural R (opLog n).
Proof. natural_by @opLog. Qed.
Lemma natural_opHalt op : natural R (opHalt op).
Proof. natural_by @opHalt. Qed.

Ltac head_of t := lazymatch t with ?f _ => head_of f | _ => t end.
Ltac table := repeat (apply List.Forall_cons; [cbn [inst snd]|]); [..|apply List.Forall_nil].

Lemma natural_registered : Forall (fun r => natural R (inst (snd r))) registrations.
Proof.
  unfold registrations. rewrite !Forall_app.
  split; [table|split; [apply natural_range, natural_opPush|split; [apply natural_range, natural_opDup|split;
    [apply natural_range, natural_opSwap|split; [apply natural_range, natural_opLog|table]]]]].
  all: first [apply natural_Halt | apply natural_opCreate | apply natural_opCall | apply natural_opSStore | apply natural_opHalt
    | match goal with |- natural _ ?m => let h := head_of m in unfold h end; repeat nat_step].
Qed.

Lemma natural_run_step : natural R run_step.
Proof.
  unfold run_step. nat_step. nat_step; [apply natural_CurrentOpCode|]. destruct a as [op|]; [|apply natural_Halt].
  destruct (dispatchTable op) as [h|] eqn:Ed; [|apply natural_exit].
  assert (Hh : natural R (inst h)).
  { unfold dispatchTable in Ed. destruct (find _ registrations) as [r|] eqn:Ef; [|done]. injection Ed as <-.
    apply find_some in Ef as [Hr%list_elem_of_In _]. exact (proj1 (Forall_forall _ _) natural_registered r Hr). }
  repeat nat_step.
Qed.


Lemma state_Run_related n s w' : R (host s) w' ->
  match state_Run n s, state_Run n (set_host w' s) with
  | Some s1, Some s1' => sim R s1 s1'
  | None, None => True
  | _, _ => False
  end.
Proof.
  intros HR. unfold state_Run.
  set (Rel := fun o o' : option (state W) => match o, o' with Some s1, Some s1' => sim R s1 s1' | None, None => True | _, _ => False end).
  change (Rel (loop_until (fun o => match o with Some s => stop s | None => true end) (fun o => match o with Some s => snd <$> run_step s | None => None end) n (Some s))
    (loop_until (fun o => match o with Some s => stop s | None => true end) (fun o => match o with Some s => snd <$> run_step s | None => None end) n (Some (set_host w' s)))).
  apply loop_until_related; [| |by exists w'].
  - intros [x|] [x'|] Hx; try done. by destruct Hx as (w1 & _ & ->).
  - intros [x|] [x'|] Hx; try done. destruct Hx as (w1 & HR1 & ->). pose proof (natural_run_step x w1 HR1) as Hstep.
    destruct (run_step x) as [[u1 s1]|], (run_step (set_host w1 x)) as [[u2 s2]|]; try done. by destruct Hstep.
Qed.

(** The interpreter respects the relation. *)
Lemma EVM_Run_related c w w' cfg : R w w' -> outcomes R (EVM_Run c w cfg) (EVM_Run c w' cfg).
Proof.
  intros HR. unfold EVM_Run. change (run_init c w' cfg) with (set_host w' (run_init c w cfg)).
  pose proof (state_Run_related (Z.to_pos (c_Gas c + 1)) (run_init c w cfg) w' HR) as Hrun.
  destruct (state_Run _ (run_init c w cfg)) as [s|], (state_Run _ (set_host w' _)) as [s'|]; try done.
  destruct Hrun as (w1 & HR1 & ->). cbn [stop set_host]. destruct (stop s); [|done]. by split.
Qed.
End Instructions.
