(* ===== verification/Receipts.v ===== *)
(** * Logs, receipts and the bloom filter ([types/receipt.go])

    A [Bloom] is its 256 bytes. [CreateBloom] sets, for the address and every
    topic of every log, three bits given by the Keccak hash; [IsLogInBloom] is
    the test for it. *)

From S2P Require Import Prelude ChainTypes BigInt Runtime.
Local Open Scope go_scope.

Abbreviation ReceiptStatus := Z (only parsing).
Definition ReceiptFailed : ReceiptStatus := 0.
Definition ReceiptSuccess : ReceiptStatus := 1.

Record Log := mkLog { l_Address : Address; l_Topics : list Hash; l_Data : list Z }.

Abbreviation Bloom := (list Z).
Definition BloomByteLength : nat := 256.

Record Receipt := mkReceipt {
  r_Root : Hash; CumulativeGasUsed : Z; LogsBloom : Bloom; Logs : list Log; Status : option ReceiptStatus;
  r_GasUsed : Z; ContractAddress : option Address; r_TxHash : Hash; TransactionType : Z }.

Section Bloom.
Context `{Codec}.

(** The bit position spelled by bytes [i] and [i + 1] of the hash. *)
Definition bloom_position (buf : list Z) (i : nat) : Z :=
  Z.land (nth (i + 1) buf 0 + Z.shiftl (nth i buf 0) 8) 2047.

(** One round of the loop of [setEncode]. *)
Definition set_position (b : Bloom) (bit : Z) : Bloom :=
  let byteLocation := Z.to_nat (256 - 1 - bit / 8) in
  let bitLocation := bit mod 8 in
  <[byteLocation := Z.lor (nth byteLocation b 0) (Z.shiftl 1 bitLocation mod 256)]> b.

Definition setEncode (b : Bloom) (h : list Z) : Bloom :=
  let buf := keccak256 h in
  fold_left (fun b i => set_position b (bloom_position buf i)) [0; 2; 4]%nat b.

(** The byte strings of a log that go into the filter. *)
Definition log_keys (log : Log) : list (list Z) :=
  be_bytes 20 (l_Address log) :: (be_bytes 32 <$> l_Topics log).

Definition CreateBloom (receipts : list Receipt) : Bloom :=
  fold_left (fun b receipt =>
      fold_left (fun b log => fold_left setEncode (log_keys log) b) (Logs receipt) b)
    receipts (replicate BloomByteLength 0).

(** One round of the loop of [isByteArrPresent]: [bitLocation - 1] is a [uint],
    and a byte shifted by 8 or more is 0. *)
Definition isSet (b : Bloom) (bit : Z) : bool :=
  let referenceByte := nth (Z.to_nat (256 - 1 - bit / 8)) b 0 in
  let count := bit mod 8 -u 1 in
  let mask := if count <? 8 then Z.shiftl 1 count mod 256 else 0 in
  negb (Z.land referenceByte mask =? 0).

Definition isByteArrPresent (b : Bloom) (data : list Z) : bool :=
  let buf := keccak256 data in
  forallb (fun i => isSet b (bloom_position buf i)) [0; 2; 4]%nat.

Definition IsLogInBloom (b : Bloom) (log : Log) : bool :=
  isByteArrPresent b (be_bytes 20 (l_Address log)) &&
  forallb (fun topic => isByteArrPresent b (be_bytes 32 topic)) (l_Topics log).

(** ** Reference: the set of positions *)

Definition bloom_has (b : Bloom) (bit : Z) : bool :=
  Z.testbit (nth (Z.to_nat (256 - 1 - bit / 8)) b 0) (bit mod 8).

Definition positions (h : list Z) : list Z := bloom_position (keccak256 h) <$> [0; 2; 4]%nat.

Definition bloom_ok (b : Bloom) : Prop := length b = BloomByteLength.

Lemma bloom_position_range buf i : 0 <= bloom_position buf i < 2048.
Proof.
  unfold bloom_position. change 2047 with (Z.ones 11). rewrite Z.land_ones by lia.
  apply Z.mod_pos_bound. done.
Qed.

Lemma set_position_ok b bit : bloom_ok b -> bloom_ok (set_position b bit).
Proof. intros Hb. unfold bloom_ok, set_position. by rewrite length_insert. Qed.

Lemma set_position_has b p bit :
  bloom_ok b -> 0 <= p < 2048 -> 0 <= bit < 2048 ->
  bloom_has (set_position b p) bit = (bit =? p) || bloom_has b bit.
Proof.
  intros Hb Hp Hbit. unfold bloom_ok, BloomByteLength in Hb. unfold bloom_has, set_position.
  pose proof (Z.mod_pos_bound p 8 ltac:(lia)) as Hpm. pose proof (Z.mod_pos_bound bit 8 ltac:(lia)) as Hbm.
  pose proof (Z.div_mod p 8 ltac:(lia)) as Hpd. pose proof (Z.div_mod bit 8 ltac:(lia)) as Hbd.
  assert (Hp8 : 0 <= p / 8 < 256) by (split; [apply Z.div_pos|apply Z.div_lt_upper_bound]; lia).
  assert (Hb8 : 0 <= bit / 8 < 256) by (split; [apply Z.div_pos|apply Z.div_lt_upper_bound]; lia).
  set (x := Z.lor _ _). destruct (decide (bit / 8 = p / 8)) as [He|He].
  - rewrite He at 1. rewrite (nth_lookup (<[_ := x]> b)), list_lookup_insert_eq by lia. cbn.
    unfold x. rewrite Z.lor_spec, He, orb_comm. f_equal.
    rewrite Z.mod_small by (rewrite Z.shiftl_1_l; split; [apply Z.pow_nonneg; lia|];
      change 256 with (2 ^ 8); apply Z.pow_lt_mono_r; lia).
    rewrite Z.shiftl_1_l, Z.pow2_bits_eqb by lia. apply eq_bool_prop_intro.
    rewrite !Is_true_true, !Z.eqb_eq. lia.
  - rewrite !(nth_lookup _ _ 0), list_lookup_insert_ne by lia.
    rewrite (proj2 (Z.eqb_neq bit p)) by (intros ->; done). done.
Qed.

Lemma fold_left_bind {A B S} (f : S -> B -> S) (g : A -> list B) (l : list A) s :
  fold_left f (l ≫= g) s = fold_left (fun s x => fold_left f (g x) s) l s.
Proof. revert s. induction l as [|x l IH]; intros s; [done|]. cbn. by rewrite fold_left_app, IH. Qed.

Definition bloom_positions (receipts : list Receipt) : list Z :=
  receipts ≫= fun r => Logs r ≫= fun l => log_keys l ≫= positions.

Lemma CreateBloom_fold receipts :
  CreateBloom receipts =
  fold_left set_position (bloom_positions receipts) (replicate BloomByteLength 0).
Proof.
  unfold CreateBloom, bloom_positions. rewrite fold_left_bind. generalize (replicate BloomByteLength 0).
  induction receipts as [|r rs IH]; intros b; [done|]. cbn [fold_left]. rewrite IH. f_equal.
  rewrite fold_left_bind. clear. revert b. induction (Logs r) as [|l ls IH]; intros b; [done|].
  cbn [fold_left]. rewrite IH. f_equal. rewrite fold_left_bind. done.
Qed.

Lemma fold_set_has ps b bit :
  bloom_ok b -> Forall (fun p => 0 <= p < 2048) ps -> 0 <= bit < 2048 ->
  bloom_has (fold_left set_position ps b) bit = bool_decide (bit ∈ ps) || bloom_has b bit.
Proof.
  intros Hb Hps Hbit. revert b Hb. induction Hps as [|p ps Hp Hps IH]; intros b Hb; [done|].
  cbn [fold_left]. rewrite IH, set_position_has by auto using set_position_ok.
  rewrite orb_assoc. f_equal. apply eq_bool_prop_intro.
  rewrite !Is_true_true, orb_true_iff, !bool_decide_eq_true, Z.eqb_eq, elem_of_cons. tauto.
Qed.

Lemma positions_range h : Forall (fun p => 0 <= p < 2048) (positions h).
Proof. repeat constructor; apply bloom_position_range. Qed.

(** The bits of the filter [CreateBloom] builds are exactly the three hash
    positions of the address and of each topic of each log. *)
Theorem CreateBloom_bits receipts bit :
  0 <= bit < 2048 ->
  bloom_has (CreateBloom receipts) bit = true <->
  exists r l k, r ∈ receipts /\ l ∈ Logs r /\ k ∈ log_keys l /\ bit ∈ positions k.
Proof.
  intros Hbit. rewrite CreateBloom_fold, fold_set_has; [|done| |done].
  - replace (bloom_has (replicate BloomByteLength 0) bit) with false.
    + rewrite orb_false_r, bool_decide_eq_true. unfold bloom_positions.
      setoid_rewrite list_elem_of_bind. setoid_rewrite list_elem_of_bind.
      setoid_rewrite list_elem_of_bind. naive_solver.
    + unfold bloom_has. rewrite nth_lookup, lookup_replicate_2; [by rewrite Z.bits_0|].
      unfold BloomByteLength. pose proof (Z.div_pos bit 8). lia.
  - unfold bloom_positions. apply Forall_forall. intros p Hp.
    apply list_elem_of_bind in Hp as (r & Hp & _). apply list_elem_of_bind in Hp as (l & Hp & _).
    apply list_elem_of_bind in Hp as (k & Hp & _).
    pose proof (positions_range k) as Hk. rewrite Forall_forall in Hk. by apply Hk.
Qed.

Lemma isSet_0 b bit : 0 <= bit -> bit mod 8 = 0 -> isSet b bit = false.
Proof.
  intros Hb Hm. unfold isSet. rewrite Hm. replace (0 -u 1 <? 8) with false by done.
  by rewrite Z.land_0_r.
Qed.

(** [IsLogInBloom] does not recognise logs that are in the filter: it tests
    the bit below each position, so whenever a position of the address is a
    multiple of 8 it answers no, for every filter. *)
Theorem IsLogInBloom_misses b log bit :
  bit ∈ positions (be_bytes 20 (l_Address log)) -> bit mod 8 = 0 ->
  IsLogInBloom b log = false.
Proof.
  intros Hbit Hm. pose proof (positions_range (be_bytes 20 (l_Address log))) as Hr.
  rewrite Forall_forall in Hr. specialize (Hr _ Hbit).
  unfold IsLogInBloom. apply andb_false_iff. left. unfold isByteArrPresent.
  apply not_true_is_false. rewrite forallb_forall. intros Hall.
  unfold positions in Hbit. apply list_elem_of_fmap in Hbit as (i & -> & Hi).
  apply list_elem_of_In in Hi. specialize (Hall i Hi).
  by rewrite isSet_0 in Hall by (done || lia).
Qed.

End Bloom.

(** ** Witnesses *)

(** A "hash" that keeps the last 32 bytes; the address below has position 8. *)
Definition bloom_codec : Codec := {|
  fastrlp_MarshalTo := fun _ => [];
  keccak256 := fun l => be_bytes 32 (be_val l * 2 ^ 96) |}.

Definition bloom_log : Log := mkLog (8 * 2 ^ 144) [3] [].

Lemma CreateBloom_bits_witness :
  bloom_has (CreateBloom (H := bloom_codec) [mkReceipt 0 0 [] [bloom_log] None 0 None 0 0]) 8 = true.
Proof.
  apply (CreateBloom_bits (H := bloom_codec)); [lia|].
  exists (mkReceipt 0 0 [] [bloom_log] None 0 None 0 0), bloom_log, (be_bytes 20 (l_Address bloom_log)).
  split; [by apply elem_of_cons; left|]. split; [by apply elem_of_cons; left|].
  split; [by apply elem_of_cons; left|]. apply elem_of_cons. left. by vm_compute.
Defined.

Lemma IsLogInBloom_misses_witness :
  IsLogInBloom (H := bloom_codec)
    (CreateBloom (H := bloom_codec) [mkReceipt 0 0 [] [bloom_log] None 0 None 0 0]) bloom_log = false.
Proof.
  apply (IsLogInBloom_misses (H := bloom_codec) _ bloom_log 8); [|reflexivity].
  apply elem_of_cons. left. by vm_compute.
Defined.

(** * Headers, bodies and blocks ([types/header.go], [types/header_hash.go])

    A [Nonce] is the integer its eight bytes spell, a [Bloom] its bytes. The
    cached size of a block is not modelled: it is a function of the block. *)
Local Open Scope go_scope.

Definition EmptyRootHash : Hash :=
  0x56e81f171bcc55a6ff8345e692c0f86e5b48e01b996cadc001622fb5e363b421.
Definition EmptyUncleHash : Hash :=
  0x1dcc4de8dec75d7aab85b567b6ccd41ad312451b948a7413f0a142fd40d49347.

Record Header := mkHeader {
  h_ParentHash : Hash; h_Sha3Uncles : Hash; h_Miner : list Z; h_StateRoot : Hash; h_TxRoot : Hash;
  h_ReceiptsRoot : Hash; h_LogsBloom : Bloom; h_Difficulty : Z; h_Number : Z; h_GasLimit : Z;
  h_GasUsed : Z; h_Timestamp : Z; h_ExtraData : list Z; h_MixHash : Hash; h_Nonce : Z; h_Hash : Hash }.

Record Body := mkBody { body_Transactions : list Transaction; body_Uncles : list Header }.

Record Block := mkBlock { b_Header : Header; b_Transactions : list Transaction; b_Uncles : list Header }.

Record FullBlock := mkFullBlock { fb_Block : Block; fb_Receipts : list Receipt }.

#[global] Instance Header_eq_dec : EqDecision Header.
Proof. solve_decision. Defined.

Definition set_hHash (hash : Hash) (h : Header) : Header :=
  mkHeader (h_ParentHash h) (h_Sha3Uncles h) (h_Miner h) (h_StateRoot h) (h_TxRoot h) (h_ReceiptsRoot h)
    (h_LogsBloom h) (h_Difficulty h) (h_Number h) (h_GasLimit h) (h_GasUsed h) (h_Timestamp h)
    (h_ExtraData h) (h_MixHash h) (h_Nonce h) hash.

Definition HasBody (h : Header) : bool :=
  negb (h_TxRoot h =? EmptyRootHash) || negb (h_Sha3Uncles h =? EmptyUncleHash).

Definition HasReceipts (h : Header) : bool := negb (h_ReceiptsRoot h =? EmptyRootHash).

Definition IsGenesis (h : Header) : bool := negb (h_Hash h =? ZeroHash) && (h_Number h =? 0).

Definition b_Hash (b : Block) : Hash := h_Hash (b_Header b).
Definition b_Number (b : Block) : Z := h_Number (b_Header b).
Definition b_ParentHash (b : Block) : Hash := h_ParentHash (b_Header b).
Definition b_Body (b : Block) : Body := mkBody (b_Transactions b) (b_Uncles b).
Definition WithSeal (b : Block) (header : Header) : Block := mkBlock header (b_Transactions b) (b_Uncles b).

Definition IsLegacyTx (r : Receipt) : bool := TransactionType r =? LegacyTx.

(** [types.HeaderHash] is a variable: the default hash of the header, replaced by
    the consensus engines with one that leaves the seals out. None of them reads
    the cached hash. *)
Class HeaderHasher := {
  HeaderHash : Header -> Hash;
  HeaderHash_hash h x : HeaderHash (set_hHash x h) = HeaderHash h;
  HeaderHash_word h : word (HeaderHash h);
}.

Definition h_ComputeHash `{HeaderHasher} (h : Header) : Header := set_hHash (HeaderHash h) h.
