(* ===== verification/StateTxn.v ===== *)
(** * The state of a block in progress ([state/txn.go], [state/state.go])

    [Txn] layers the changes of a block over a read-only snapshot of the trie.
    The changes live in an immutable radix tree (go-immutable-radix), which is a
    parameter here: [Radix] states its interface and [RadixLaws] the finite-map
    behaviour the code relies on; [Lru] does the same for the code cache
    (golang-lru). The tree's entries are of three kinds with keys of different
    lengths or values: state objects under addresses, the logs under [logIndex]
    and the refund under [refundIndex]; [tree] keeps them apart. *)

From S2P Require Import Prelude ChainTypes BigInt Runtime Receipts.
Local Open Scope go_scope.

(** ** Third-party containers *)

(** Keys are addresses or storage keys; [Walk] lists the entries. *)
Class Radix (T : Type -> Type) := {
  rx_New {V} : T V;
  rx_Get {V} : T V -> Z -> option V;
  rx_Insert {V} : T V -> Z -> V -> T V;
  rx_Walk {V} : T V -> list (Z * V);
}.

Class RadixLaws (T : Type -> Type) `{Radix T} := {
  rx_Get_New V k : rx_Get (rx_New (V := V)) k = None;
  rx_Get_Insert V (t : T V) k v k' :
    rx_Get (rx_Insert t k v) k' = if decide (k = k') then Some v else rx_Get t k';
  rx_Walk_keys V (t : T V) : NoDup (fst <$> rx_Walk t);
  rx_Walk_Get V (t : T V) k v : (k, v) ∈ rx_Walk t <-> rx_Get t k = Some v;
}.

(** A bounded cache: an entry added is found until it is evicted. [lru_Get]
    changes the order of eviction. *)
Class Lru (K V C : Type) := {
  lru_New : Z -> C;
  lru_Get : C -> K -> option V * C;
  lru_Add : C -> K -> V -> C;
}.

Class LruLaws (K V C : Type) `{Lru K V C} := {
  lru_peek : C -> K -> option V;
  lru_peek_New n a : lru_peek (lru_New n) a = None;
  lru_Get_peek c a : fst (lru_Get c a) = lru_peek c a;
  lru_peek_Get c a a' : lru_peek (snd (lru_Get c a)) a' = lru_peek c a';
  lru_peek_Add c a v a' v' :
    lru_peek (lru_Add c a v) a' = Some v' ->
    a' = a /\ v' = v \/ lru_peek c a' = Some v';
}.

(** ** Accounts and state objects ([state.go]) *)

Record Account := mkAccount {
  a_Nonce : Z; a_Balance : Z; a_Root : Hash; a_CodeHash : list Z }.

(** The balance is copied through its bytes, which drop the sign. *)
Definition Account_Copy (a : Account) : Account :=
  mkAccount (a_Nonce a) (Z.abs (a_Balance a)) (a_Root a) (a_CodeHash a).

Definition emptyStateHash : Hash :=
  0x56e81f171bcc55a6ff8345e692c0f86e5b48e01b996cadc001622fb5e363b421.
Definition zeroHash : Hash := 0.

Record StateObject (T : Type -> Type) := mkObject {
  o_Account : Account; o_Code : list Z; o_Suicide : bool; o_Deleted : bool; o_DirtyCode : bool;
  o_Txn : option (T (option Hash)) }.
Arguments mkObject {T}. Arguments o_Account {T}. Arguments o_Code {T}. Arguments o_Suicide {T}.
Arguments o_Deleted {T}. Arguments o_DirtyCode {T}. Arguments o_Txn {T}.

Record StorageObject := mkStorageObject { so_Deleted : bool; so_Key : Hash; so_Val : Hash }.

Record Object := mkCommitted {
  ob_Address : Address; ob_CodeHash : Hash; ob_Balance : Z; ob_Root : Hash; ob_Nonce : Z;
  ob_Deleted : bool; ob_DirtyCode : bool; ob_Code : list Z; ob_Storage : list StorageObject }.

(** [readSnapshot]: [GetAccount] fails, finds nothing, or finds an account. *)
Record readSnapshot := mkSnapshot {
  sn_GetStorage : Address -> Hash -> Hash -> Hash;
  sn_GetAccount : Address -> result Z (option Account);
  sn_GetCode : Hash -> option (list Z) }.

(** ** [Txn] *)

Record tree (T : Type -> Type) := mkTree {
  objects : T (StateObject T); tr_logs : option (list Log); tr_refund : option Z }.
Arguments mkTree {T}. Arguments objects {T}. Arguments tr_logs {T}. Arguments tr_refund {T}.

Record Txn (T : Type -> Type) (C : Type) := mkTxn {
  snapshot : readSnapshot; snapshots : list (tree T); txn : tree T; codeCache : C }.
Arguments mkTxn {T C}. Arguments snapshot {T C}. Arguments snapshots {T C}. Arguments txn {T C}.
Arguments codeCache {T C}.

Section Txn.
Context {T : Type -> Type} `{Radix T} {C : Type} `{Lru Address (list Z) C} `{Codec}.
Implicit Types (t : Txn T C) (o : StateObject T).

Definition emptyCodeHash : list Z := keccak256 [].

Definition set_Account (a : Account) o : StateObject T :=
  mkObject a (o_Code o) (o_Suicide o) (o_Deleted o) (o_DirtyCode o) (o_Txn o).
Definition set_Deleted (b : bool) o : StateObject T :=
  mkObject (o_Account o) (o_Code o) (o_Suicide o) b (o_DirtyCode o) (o_Txn o).
Definition set_Balance (b : Z) o : StateObject T :=
  let a := o_Account o in set_Account (mkAccount (a_Nonce a) b (a_Root a) (a_CodeHash a)) o.
Definition set_Nonce (n : Z) o : StateObject T :=
  let a := o_Account o in set_Account (mkAccount n (a_Balance a) (a_Root a) (a_CodeHash a)) o.

Definition StateObject_Empty o : bool :=
  let a := o_Account o in
  (a_Nonce a =? 0) && (Z.sgn (a_Balance a) =? 0) && bool_decide (a_CodeHash a = emptyCodeHash).

Definition StateObject_Copy o : StateObject T := set_Account (Account_Copy (o_Account o)) o.

Definition newStateObject : StateObject T :=
  mkObject (mkAccount 0 0 emptyStateHash emptyCodeHash) [] false false false None.

Definition set_txn (x : tree T) t : Txn T C := mkTxn (snapshot t) (snapshots t) x (codeCache t).
Definition set_cache (c : C) t : Txn T C := mkTxn (snapshot t) (snapshots t) (txn t) c.
Definition insert_object (addr : Address) o t : Txn T C :=
  set_txn (mkTree (rx_Insert (objects (txn t)) addr o) (tr_logs (txn t)) (tr_refund (txn t))) t.
Definition set_logs (l : option (list Log)) t : Txn T C :=
  set_txn (mkTree (objects (txn t)) l (tr_refund (txn t))) t.
Definition set_refund (r : option Z) t : Txn T C :=
  set_txn (mkTree (objects (txn t)) (tr_logs (txn t)) r) t.

Definition newTxn (s : readSnapshot) : Txn T C :=
  mkTxn s [] (mkTree rx_New None None) (lru_New 20).

Definition txn_Snapshot t : Z * Txn T C :=
  (Z.of_nat (length (snapshots t)),
   mkTxn (snapshot t) (snapshots t ++ [txn t]) (txn t) (codeCache t)).

(** [None] is the panic, explicit or of the index. *)
Definition RevertToSnapshot (id : Z) t : option (Txn T C) :=
  if Z.of_nat (length (snapshots t)) <? id then None
  else
    match snapshots t !! Z.to_nat id with
    | Some x => Some (set_txn x t)
    | None => None
    end.

Definition getStateObject t (addr : Address) : option (StateObject T) :=
  match rx_Get (objects (txn t)) addr with
  | Some obj => if o_Deleted obj then None else Some (StateObject_Copy obj)
  | None =>
      match sn_GetAccount (snapshot t) addr with
      | Err _ => None
      | Ok None => None
      | Ok (Some account) => Some (mkObject (Account_Copy account) [] false false false None)
      end
  end.

Definition txn_GetAccount t (addr : Address) : option Account := o_Account <$> getStateObject t addr.

(** [f] is the callback; on a nil object it does nothing. *)
Definition upsertAccount t (addr : Address) (create : bool)
  (f : StateObject T -> StateObject T) : Txn T C :=
  let object :=
    match getStateObject t addr with
    | Some o => Some o
    | None => if create then Some newStateObject else None
    end in
  match object with
  | Some o => insert_object addr (f o) t
  | None => t
  end.

Definition AddSealingReward t (addr : Address) (balance : Z) : Txn T C :=
  upsertAccount t addr true (fun o =>
    if o_Suicide o then set_Balance (Z.abs balance) newStateObject
    else set_Balance (a_Balance (o_Account o) + balance) o).

Definition txn_AddBalance t (addr : Address) (balance : Z) : Txn T C :=
  upsertAccount t addr true (fun o => set_Balance (a_Balance (o_Account o) + balance) o).

Definition txn_GetBalance t (addr : Address) : Z :=
  match getStateObject t addr with Some o => a_Balance (o_Account o) | None => 0 end.

Definition txn_SubBalance t (addr : Address) (amount : Z) : option VMErr * Txn T C :=
  if Z.sgn amount =? 0 then (None, t)
  else if txn_GetBalance t addr <? amount then (Some ErrNotEnoughFunds, t)
  else (None, upsertAccount t addr true
                (fun o => set_Balance (a_Balance (o_Account o) - amount) o)).

Definition txn_SetBalance t (addr : Address) (balance : Z) : Txn T C :=
  upsertAccount t addr true (set_Balance (Z.abs balance)).

Definition AddLog t (log : Log) : Txn T C :=
  set_logs (Some (default [] (tr_logs (txn t)) ++ [log])) t.

Definition txn_EmitLog t (addr : Address) (topics : list Hash) (data : list Z) : Txn T C :=
  AddLog t (mkLog addr topics data).

Definition txn_GetRefund t : Z := default 0 (tr_refund (txn t)).
Definition AddRefund t (gas : Z) : Txn T C := set_refund (Some (txn_GetRefund t +u gas)) t.
Definition SubRefund t (gas : Z) : Txn T C := set_refund (Some (txn_GetRefund t -u gas)) t.

Definition txn_SetState t (addr : Address) (key value : Hash) : Txn T C :=
  upsertAccount t addr true (fun o =>
    let tx := default rx_New (o_Txn o) in
    let tx := rx_Insert tx key (if value =? zeroHash then None else Some value) in
    mkObject (o_Account o) (o_Code o) (o_Suicide o) (o_Deleted o) (o_DirtyCode o) (Some tx)).

Definition txn_GetState t (addr : Address) (key : Hash) : Hash :=
  match getStateObject t addr with
  | None => 0
  | Some o =>
      let cached := match o_Txn o with Some tx => rx_Get tx key | None => None end in
      match cached with
      | Some val => default 0 val
      | None => sn_GetStorage (snapshot t) addr (a_Root (o_Account o)) key
      end
  end.

Definition GetCommittedState t (addr : Address) (key : Hash) : Hash :=
  match getStateObject t addr with
  | None => 0
  | Some o => sn_GetStorage (snapshot t) addr (a_Root (o_Account o)) key
  end.

Definition txn_SetStorage t (addr : Address) (key value : Hash) (config : ForksInTime) :
  StorageStatus * Txn T C :=
  let oldValue := txn_GetState t addr key in
  if oldValue =? value then (StorageUnchanged, t)
  else
    let current := oldValue in
    let original := GetCommittedState t addr key in
    let t := txn_SetState t addr key value in
    let legacyGasMetering :=
      negb (Istanbul config) && (Petersburg config || negb (Constantinople config)) in
    if legacyGasMetering then
      if oldValue =? zeroHash then (StorageAdded, t)
      else if value =? zeroHash then (StorageDeleted, AddRefund t 15000)
      else (StorageModified, t)
    else if original =? current then
      if original =? zeroHash then (StorageAdded, t)
      else if value =? zeroHash then (StorageDeleted, AddRefund t 15000)
      else (StorageModified, t)
    else
      let t :=
        if negb (original =? zeroHash) then
          if current =? zeroHash then SubRefund t 15000
          else if value =? zeroHash then AddRefund t 15000 else t
        else t in
      let t :=
        if original =? value then
          if original =? zeroHash
          then AddRefund t (if Istanbul config then 19200 else 19800)
          else AddRefund t (if Istanbul config then 4200 else 4800)
        else t in
      (StorageModifiedAgain, t).

Definition IncrNonce t (addr : Address) : Txn T C :=
  upsertAccount t addr true (fun o => set_Nonce (a_Nonce (o_Account o) +u 1) o).

Definition txn_SetNonce t (addr : Address) (nonce : Z) : Txn T C :=
  upsertAccount t addr true (set_Nonce nonce).

Definition txn_GetNonce t (addr : Address) : Z :=
  match getStateObject t addr with Some o => a_Nonce (o_Account o) | None => 0 end.

Definition txn_SetCode t (addr : Address) (code : list Z) : Txn T C :=
  upsertAccount t addr true (fun o =>
    let a := o_Account o in
    mkObject (mkAccount (a_Nonce a) (a_Balance a) (a_Root a) (keccak256 code)) code
      (o_Suicide o) (o_Deleted o) true (o_Txn o)).

Definition txn_GetCode t (addr : Address) : list Z * Txn T C :=
  match getStateObject t addr with
  | None => ([], t)
  | Some o =>
      if o_DirtyCode o then (o_Code o, t)
      else
        match lru_Get (codeCache t) addr with
        | (Some v, c) => (v, set_cache c t)
        | (None, c) =>
            let code := default [] (sn_GetCode (snapshot t) (BytesToHash (a_CodeHash (o_Account o)))) in
            (code, set_cache (lru_Add c addr code) t)
        end
  end.

Definition txn_GetCodeSize t (addr : Address) : Z * Txn T C :=
  let '(code, t) := txn_GetCode t addr in (Z.of_nat (length code), t).

Definition txn_GetCodeHash t (addr : Address) : Hash :=
  match getStateObject t addr with
  | Some o => BytesToHash (a_CodeHash (o_Account o))
  | None => 0
  end.

Definition Suicide t (addr : Address) : bool * Txn T C :=
  (match getStateObject t addr with Some o => negb (o_Suicide o) | None => false end,
   upsertAccount t addr false (fun o =>
     let o := set_Balance 0 o in
     mkObject (o_Account o) (o_Code o) true (o_Deleted o) (o_DirtyCode o) (o_Txn o))).

Definition HasSuicided t (addr : Address) : bool :=
  match getStateObject t addr with Some o => o_Suicide o | None => false end.

(** [Logs] hands out the logs and removes them from the tree. *)
Definition txn_Logs t : list Log * Txn T C :=
  match tr_logs (txn t) with
  | None => ([], t)
  | Some l => (l, set_logs None t)
  end.

Definition TouchAccount t (addr : Address) : Txn T C := upsertAccount t addr true id.

Definition Exist t (addr : Address) : bool :=
  match getStateObject t addr with Some _ => true | None => false end.

Definition txn_Empty t (addr : Address) : bool :=
  match getStateObject t addr with Some o => StateObject_Empty o | None => true end.

Definition CreateAccount t (addr : Address) : Txn T C :=
  insert_object addr
    (match getStateObject t addr with
     | Some prev => set_Balance (Z.abs (a_Balance (o_Account prev))) newStateObject
     | None => newStateObject
     end) t.

(** Is the object removed at the end of a transaction? *)
Definition removable (deleteEmptyObjects : bool) o : bool :=
  o_Suicide o || StateObject_Empty o && deleteEmptyObjects.

(** [None] is the panic on a key that [Walk] saw and [Get] does not find. *)
Definition mark_deleted (ot : option (Txn T C)) (k : Address) : option (Txn T C) :=
  match ot with
  | None => None
  | Some t =>
      match rx_Get (objects (txn t)) k with
      | None => None
      | Some obj => Some (insert_object k (set_Deleted true (StateObject_Copy obj)) t)
      end
  end.

Definition CleanDeleteObjects t (deleteEmptyObjects : bool) : option (Txn T C) :=
  let remove := fst <$> filter (fun kv => removable deleteEmptyObjects (snd kv) = true)
                               (rx_Walk (objects (txn t))) in
  match fold_left mark_deleted remove (Some t) with
  | None => None
  | Some t => Some (set_refund None t)
  end.

(** The entry of [Commit] for one state object. *)
Definition committed (kv : Address * StateObject T) : Object :=
  let '(k, a) := kv in
  let acc := o_Account a in
  mkCommitted k (BytesToHash (a_CodeHash acc)) (a_Balance acc) (a_Root acc) (a_Nonce acc)
    (o_Deleted a) (o_DirtyCode a) (o_Code a)
    (if o_Deleted a then []
     else match o_Txn a with
          | None => []
          | Some tx => (fun kv : Hash * option Hash =>
                          match snd kv with
                          | None => mkStorageObject true (fst kv) 0
                          | Some v => mkStorageObject false (fst kv) v
                          end) <$> rx_Walk tx
          end).

Definition txn_Commit t (deleteEmptyObjects : bool) : option (list Object * Txn T C) :=
  match CleanDeleteObjects t deleteEmptyObjects with
  | None => None
  | Some t => Some (committed <$> rx_Walk (objects (txn t)), t)
  end.

End Txn.
