(* ===== verification/StateLemmas.v ===== *)
(** * What the operations of [Txn] do to the accounts

    Everything an observer of [Txn] sees of an account is a function of
    [getStateObject]; this file computes it after each operation, proves that the
    operations keep the values well-formed, and bounds the sum of all balances. *)

From S2P Require Import Prelude ChainTypes BigInt Runtime Receipts StateTxn.
Local Open Scope go_scope.

(** ** Sums of balances

    [sup f B]: over any set of addresses the balances [f] sum up to at most [B]. *)

Definition sup (f : Z -> Z) (B : Z) : Prop := forall l, NoDup l -> zsum (f <$> l) <= B.

Lemma zsum_ext (f g : Z -> Z) l : (forall a, a ∈ l -> f a = g a) -> zsum (f <$> l) = zsum (g <$> l).
Proof.
  induction l as [|x l IH]; intros Hfg; [done|]. rewrite !fmap_cons, !zsum_cons.
  rewrite (Hfg x) by in_list. rewrite IH; [done|]. intros a Ha. apply Hfg. in_list.
Qed.

(** A list without duplicates that holds [a] is [a] and a rest without it. *)
Lemma zsum_split (f g : Z -> Z) a l :
  NoDup l -> a ∈ l -> (forall b, b <> a -> g b = f b) ->
  zsum (g <$> l) = zsum (f <$> l) - f a + g a.
Proof.
  intros Hnd Ha Hfg. apply elem_of_Permutation in Ha as [l' Hl]. rewrite Hl in Hnd |- *.
  apply NoDup_cons in Hnd as [Ha _]. rewrite !fmap_cons, !zsum_cons.
  rewrite (zsum_ext g f l'); [lia|]. intros b Hb. apply Hfg. by intros ->.
Qed.

Lemma sup_sub (f g : Z -> Z) a v B :
  (forall b, b <> a -> g b = f b) -> g a = f a - v -> v <= f a -> sup f B -> sup g (B - v).
Proof.
  intros Hfg Hga Hv Hs l Hnd. destruct (decide (a ∈ l)) as [Ha|Ha].
  - rewrite (zsum_split f g a) by done. specialize (Hs l Hnd). lia.
  - rewrite (zsum_ext g f) by (intros b Hb; apply Hfg; by intros ->).
    specialize (Hs (a :: l) ltac:(by constructor)). rewrite fmap_cons, zsum_cons in Hs. lia.
Qed.

Lemma sup_add (f g : Z -> Z) a v B :
  (forall b, b <> a -> g b = f b) -> g a = f a + v -> 0 <= v -> sup f B -> sup g (B + v).
Proof.
  intros Hfg Hga Hv Hs l Hnd. specialize (Hs l Hnd). destruct (decide (a ∈ l)) as [Ha|Ha].
  - rewrite (zsum_split f g a) by done. lia.
  - rewrite (zsum_ext g f) by (intros b Hb; apply Hfg; by intros ->). lia.
Qed.

Lemma sup_eq (f g : Z -> Z) B : (forall b, g b = f b) -> sup f B -> sup g B.
Proof. intros Hfg Hs l Hnd. rewrite (zsum_ext g f); [by apply Hs|]. intros. apply Hfg. Qed.

Lemma sup_le (f g : Z -> Z) B : (forall b, g b <= f b) -> sup f B -> sup g B.
Proof.
  intros Hfg Hs l Hnd. etrans; [|exact (Hs l Hnd)]. clear Hnd Hs.
  induction l as [|a l IH]; [done|]. rewrite !fmap_cons, !zsum_cons. specialize (Hfg a). lia.
Qed.

Lemma sup_mono f B B' : B <= B' -> sup f B -> sup f B'.
Proof. intros HB Hs l Hnd. specialize (Hs l Hnd). lia. Qed.

Lemma sup_single f B a : sup f B -> f a <= B.
Proof. intros Hs. specialize (Hs [a] ltac:(apply NoDup_singleton)). cbn in Hs. lia. Qed.

(** ** Accounts after an operation *)

Section Lemmas.
Context {T : Type -> Type} `{RadixLaws T} {C : Type} `{LruLaws Address (list Z) C} `{CodecLaws}.
Implicit Types (s : Txn T C) (o : StateObject T) (x : tree T).

Lemma Copy_Copy o : StateObject_Copy (StateObject_Copy o) = StateObject_Copy o.
Proof.
  destruct o as [[n b r h] c su d dc t]. unfold StateObject_Copy, Account_Copy. cbn.
  by rewrite Z.abs_idemp.
Qed.

Lemma getStateObject_eq s s' :
  txn s' = txn s -> snapshot s' = snapshot s -> forall a, getStateObject s' a = getStateObject s a.
Proof. intros Ht Hs a. unfold getStateObject. by rewrite Ht, Hs. Qed.

(** What [getStateObject] returns is a copy of a live object. *)
Lemma getStateObject_live s a o :
  getStateObject s a = Some o -> o_Deleted o = false /\ StateObject_Copy o = o.
Proof.
  unfold getStateObject. destruct (rx_Get _ a) as [obj|].
  - destruct (o_Deleted obj) eqn:E; [done|]. intros [= <-]. split; [done|]. apply Copy_Copy.
  - destruct (sn_GetAccount _ _) as [[acc|]|]; intros [= <-]. split; [done|].
    destruct acc. unfold StateObject_Copy, Account_Copy. cbn. by rewrite Z.abs_idemp.
Qed.

Lemma getStateObject_insert s a o b :
  getStateObject (insert_object a o s) b =
  if decide (a = b) then (if o_Deleted o then None else Some (StateObject_Copy o))
  else getStateObject s b.
Proof.
  unfold getStateObject, insert_object. cbn. rewrite rx_Get_Insert. repeat case_decide; done.
Qed.

(** The object a callback works on. *)
Definition object_at s (a : Address) : StateObject T := default newStateObject (getStateObject s a).

Lemma object_at_live s a : o_Deleted (object_at s a) = false.
Proof.
  unfold object_at. destruct (getStateObject s a) as [o|] eqn:E; [|done].
  by apply getStateObject_live in E as [? _].
Qed.

Lemma upsert_true s a f :
  upsertAccount s a true f = insert_object a (f (object_at s a)) s.
Proof. unfold upsertAccount, object_at. by destruct (getStateObject s a). Qed.

Lemma getStateObject_upsert s a f b :
  o_Deleted (f (object_at s a)) = false ->
  getStateObject (upsertAccount s a true f) b =
  if decide (a = b) then Some (StateObject_Copy (f (object_at s a))) else getStateObject s b.
Proof. intros Hd. rewrite upsert_true, getStateObject_insert. by rewrite Hd. Qed.

(** ** Balances *)

Lemma GetBalance_object s a : txn_GetBalance s a = a_Balance (o_Account (object_at s a)).
Proof. unfold txn_GetBalance, object_at. by destruct (getStateObject s a). Qed.

Lemma GetBalance_nonneg s a : 0 <= txn_GetBalance s a.
Proof.
  unfold txn_GetBalance. destruct (getStateObject s a) as [o|] eqn:E; [|done].
  apply getStateObject_live in E as [_ <-]. cbn. lia.
Qed.

(** An update of account [a] alone. *)
Lemma GetBalance_upsert s a f b :
  o_Deleted (f (object_at s a)) = false ->
  txn_GetBalance (upsertAccount s a true f) b =
  if decide (a = b) then Z.abs (a_Balance (o_Account (f (object_at s a)))) else txn_GetBalance s b.
Proof.
  intros Hd. unfold txn_GetBalance. rewrite getStateObject_upsert by done. by destruct (decide _).
Qed.

(** Updates that leave the balance alone. *)
Lemma GetBalance_keep s a f :
  o_Deleted (f (object_at s a)) = false ->
  a_Balance (o_Account (f (object_at s a))) = a_Balance (o_Account (object_at s a)) ->
  forall b, txn_GetBalance (upsertAccount s a true f) b = txn_GetBalance s b.
Proof.
  intros Hd Hb b. rewrite GetBalance_upsert by done. destruct (decide (a = b)) as [<-|]; [|done].
  rewrite Hb, <- GetBalance_object. apply Z.abs_eq, GetBalance_nonneg.
Qed.

Lemma GetBalance_Add s a v b :
  0 <= v -> txn_GetBalance (txn_AddBalance s a v) b = txn_GetBalance s b + (if decide (a = b) then v else 0).
Proof.
  intros Hv. unfold txn_AddBalance. rewrite GetBalance_upsert by apply object_at_live.
  destruct (decide (a = b)) as [<-|]; [|lia]. cbn. rewrite <- GetBalance_object.
  pose proof (GetBalance_nonneg s a). lia.
Qed.

Lemma Sub_spec s a v :
  0 <= v ->
  (exists e, txn_SubBalance s a v = (Some e, s) /\ e = ErrNotEnoughFunds /\ txn_GetBalance s a < v) \/
  (exists s', txn_SubBalance s a v = (None, s') /\ v <= txn_GetBalance s a /\
     (s' = s /\ v = 0 \/
      s' = upsertAccount s a true (fun o => set_Balance (a_Balance (o_Account o) - v) o)) /\
     forall b, txn_GetBalance s' b = txn_GetBalance s b - (if decide (a = b) then v else 0)).
Proof.
  intros Hv. unfold txn_SubBalance. pose proof (GetBalance_nonneg s a).
  destruct (Z.sgn v =? 0) eqn:E0; breflect.
  { right. exists s. assert (v = 0) by lia. split; [done|]. split; [lia|]. split; [by left|].
    intros b. destruct (decide _); lia. }
  destruct (txn_GetBalance s a <? v) eqn:E1; breflect; [left; eauto|right].
  eexists. split; [done|]. split; [lia|]. split; [by right|]. intros b.
  rewrite GetBalance_upsert by apply object_at_live. destruct (decide (a = b)) as [<-|]; [|lia].
  cbn. rewrite <- GetBalance_object. lia.
Qed.

(** Moving [v] from [a] to [b] creates no money. *)
Lemma sup_transfer s a b v B s1 :
  0 <= v -> txn_SubBalance s a v = (None, s1) ->
  sup (txn_GetBalance s) B -> sup (txn_GetBalance (txn_AddBalance s1 b v)) B.
Proof.
  intros Hv Hsub Hs. destruct (Sub_spec s a v Hv) as [(e & He & _)|(s' & He & Hle & _ & Hbal)];
    rewrite Hsub in He; [done|]. injection He as <-.
  replace B with (B - v + v) by lia.
  apply (sup_add (txn_GetBalance s1) _ b); [|rewrite GetBalance_Add by done; by rewrite decide_True|done|].
  { intros x Hx. rewrite GetBalance_Add by done. rewrite decide_False by congruence. lia. }
  apply (sup_sub (txn_GetBalance s) _ a); [|rewrite Hbal; by rewrite decide_True|done|done].
  intros x Hx. rewrite Hbal, decide_False by congruence. lia.
Qed.

Lemma GetBalance_Suicide s a b :
  txn_GetBalance (snd (Suicide s a)) b = if decide (a = b) then 0 else txn_GetBalance s b.
Proof.
  unfold Suicide, upsertAccount. cbn. destruct (getStateObject s a) as [o|] eqn:E.
  - unfold txn_GetBalance. rewrite getStateObject_insert. cbn.
    apply getStateObject_live in E as [-> _]. by destruct (decide (a = b)).
  - destruct (decide (a = b)) as [<-|]; [|done]. unfold txn_GetBalance. by rewrite E.
Qed.

(** Crediting the balance of [a] to [b] and closing [a]. *)
Lemma sup_suicide s a b B :
  sup (txn_GetBalance s) B ->
  sup (txn_GetBalance (snd (Suicide (txn_AddBalance s b (txn_GetBalance s a)) a))) B.
Proof.
  intros Hs. set (v := txn_GetBalance s a). pose proof (GetBalance_nonneg s a) as Hv. fold v in Hv.
  set (s1 := txn_AddBalance s b v).
  assert (H1s : sup (txn_GetBalance s1) (B + v)).
  { apply (sup_add (txn_GetBalance s) _ b); [| |done|done].
    - intros x Hx. unfold s1. rewrite GetBalance_Add by done. rewrite decide_False by congruence. lia.
    - unfold s1. rewrite GetBalance_Add by done. by rewrite decide_True. }
  assert (Hva : v <= txn_GetBalance s1 a).
  { unfold s1. rewrite GetBalance_Add by done. fold v. case_decide; lia. }
  apply (sup_mono _ (B + v - txn_GetBalance s1 a)); [lia|].
  apply (sup_sub (txn_GetBalance s1) _ a); [| |lia|done].
  - intros x Hx. rewrite GetBalance_Suicide. by rewrite decide_False by congruence.
  - rewrite GetBalance_Suicide, decide_True by done. lia.
Qed.

(** Operations that keep every balance. *)
Lemma GetBalance_IncrNonce s a b : txn_GetBalance (IncrNonce s a) b = txn_GetBalance s b.
Proof. apply GetBalance_keep; [apply object_at_live|done]. Qed.

Lemma GetBalance_Touch s a b : txn_GetBalance (TouchAccount s a) b = txn_GetBalance s b.
Proof. apply GetBalance_keep; [apply object_at_live|done]. Qed.

Lemma GetBalance_SetState s a k v b : txn_GetBalance (txn_SetState s a k v) b = txn_GetBalance s b.
Proof. apply GetBalance_keep; [apply object_at_live|done]. Qed.

Lemma GetBalance_SetCode s a c b : txn_GetBalance (txn_SetCode s a c) b = txn_GetBalance s b.
Proof. apply GetBalance_keep; [apply object_at_live|done]. Qed.

Lemma GetBalance_Create s a b : txn_GetBalance (CreateAccount s a) b = txn_GetBalance s b.
Proof.
  unfold CreateAccount, txn_GetBalance. rewrite getStateObject_insert.
  destruct (decide (a = b)) as [<-|]; [|done]. destruct (getStateObject s a) as [o|] eqn:E; [|done].
  apply getStateObject_live in E as [_ <-]. cbn. lia.
Qed.

Lemma SetStorage_shape s a k v cfg :
  exists r, snd (txn_SetStorage s a k v cfg) =
    set_refund r (if txn_GetState s a k =? v then s else txn_SetState s a k v) /\
    (is_u64 (txn_GetRefund s) -> is_u64 (default 0 r)).
Proof.
  assert (Hid : forall s0 : Txn T C, s0 = set_refund (tr_refund (txn s0)) s0).
  { by intros [? ? [] ?]. }
  assert (Hre : tr_refund (txn (txn_SetState s a k v)) = tr_refund (txn s)).
  { unfold txn_SetState. by rewrite upsert_true. }
  unfold txn_SetStorage, AddRefund, SubRefund. destruct (txn_GetState s a k =? v).
  { exists (tr_refund (txn s)). split; [apply Hid|done]. }
  repeat case_match; cbn [snd];
    first [ eexists; split; [reflexivity|intros _; apply u64_range]
          | eexists; split; [apply Hid|by rewrite Hre] ].
Qed.

(** ** Well-formedness *)

Record obj_ok o : Prop := {
  ook_hash : bytes_ok (a_CodeHash (o_Account o));
  ook_code : slice_ok (o_Code o);
  ook_storage : forall tx k v, o_Txn o = Some tx -> rx_Get tx k = Some (Some v) -> word v }.

(** Accounts, storage and code of the trie; storage under the empty root is empty. *)
Record snap_ok (sn : readSnapshot) : Prop := {
  sk_account : forall a acc, sn_GetAccount sn a = Ok (Some acc) -> bytes_ok (a_CodeHash acc);
  sk_storage : forall a r k, word (sn_GetStorage sn a r k);
  sk_empty : forall a k, sn_GetStorage sn a emptyStateHash k = 0;
  sk_code : forall h c, sn_GetCode sn h = Some c -> slice_ok c }.

Definition tree_ok x : Prop := forall a o, rx_Get (objects x) a = Some o -> obj_ok o.
Definition cache_ok (c : C) : Prop := forall a b, lru_peek c a = Some b -> slice_ok b.

Record txn_ok s : Prop := {
  tk_snap : snap_ok (snapshot s);
  tk_tree : tree_ok (txn s);
  tk_cache : cache_ok (codeCache s);
  tk_refund : is_u64 (txn_GetRefund s) }.

Lemma new_ok : obj_ok newStateObject.
Proof. split; cbn; [apply keccak256_bytes|apply slice_ok_nil|done]. Qed.

Lemma Copy_ok o : obj_ok o -> obj_ok (StateObject_Copy o).
Proof. by intros []. Qed.

Lemma getStateObject_ok s a o : txn_ok s -> getStateObject s a = Some o -> obj_ok o.
Proof.
  intros Hs. unfold getStateObject. destruct (rx_Get _ a) as [obj|] eqn:E.
  - destruct (o_Deleted obj); [done|]. intros [= <-]. apply Copy_ok, (tk_tree _ Hs _ _ E).
  - destruct (sn_GetAccount _ a) as [[acc|]|] eqn:Ea; intros [= <-].
    split; cbn; [apply (sk_account _ (tk_snap _ Hs) _ _ Ea)|apply slice_ok_nil|done].
Qed.

Lemma object_at_ok s a : txn_ok s -> obj_ok (object_at s a).
Proof.
  intros Hs. unfold object_at. destruct (getStateObject s a) eqn:E; [|apply new_ok].
  by eapply getStateObject_ok.
Qed.

Lemma insert_ok s a o : txn_ok s -> obj_ok o -> txn_ok (insert_object a o s).
Proof.
  intros [Hn Ht Hc Hr] Ho. split; [done| |done|done]. intros b o'. cbn. rewrite rx_Get_Insert.
  case_decide; [by intros [= <-]|apply Ht].
Qed.

Lemma upsert_ok s a create f :
  txn_ok s -> (forall o, obj_ok o -> obj_ok (f o)) -> txn_ok (upsertAccount s a create f).
Proof.
  intros Hs Hf. unfold upsertAccount.
  destruct (getStateObject s a) as [o|] eqn:E.
  - apply insert_ok, Hf; [done|]. by eapply getStateObject_ok.
  - destruct create; [|done]. apply insert_ok, Hf, new_ok. done.
Qed.

Lemma set_refund_ok r s : is_u64 (default 0 r) -> txn_ok s -> txn_ok (set_refund r s).
Proof. intros Hr []. by split. Qed.
Lemma set_logs_ok l s : txn_ok s -> txn_ok (set_logs l s).
Proof. by intros []. Qed.
Lemma snapshot_ok s : txn_ok s -> txn_ok (snd (txn_Snapshot s)).
Proof. by intros []. Qed.

Lemma set_Balance_ok b o : obj_ok o -> obj_ok (set_Balance b o).
Proof. by intros []. Qed.
Lemma set_Nonce_ok b o : obj_ok o -> obj_ok (set_Nonce b o).
Proof. by intros []. Qed.

Lemma AddBalance_ok s a v : txn_ok s -> txn_ok (txn_AddBalance s a v).
Proof. intros Hs. apply upsert_ok; [done|]. intros. by apply set_Balance_ok. Qed.

Lemma SubBalance_ok s a v : txn_ok s -> txn_ok (snd (txn_SubBalance s a v)).
Proof.
  intros Hs. unfold txn_SubBalance. repeat case_match; try done. cbn.
  apply upsert_ok; [done|]. intros. by apply set_Balance_ok.
Qed.

Lemma IncrNonce_ok s a : txn_ok s -> txn_ok (IncrNonce s a).
Proof. intros Hs. apply upsert_ok; [done|]. intros. by apply set_Nonce_ok. Qed.

Lemma Touch_ok s a : txn_ok s -> txn_ok (TouchAccount s a).
Proof. intros Hs. by apply upsert_ok. Qed.

Lemma CreateAccount_ok s a : txn_ok s -> txn_ok (CreateAccount s a).
Proof. intros Hs. apply insert_ok; [done|]. case_match; [apply set_Balance_ok|]; apply new_ok. Qed.

Lemma Suicide_ok s a : txn_ok s -> txn_ok (snd (Suicide s a)).
Proof. intros Hs. apply upsert_ok; [done|]. by intros o []. Qed.

Lemma SetCode_ok s a c : txn_ok s -> slice_ok c -> txn_ok (txn_SetCode s a c).
Proof. intros Hs Hc. apply upsert_ok; [done|]. intros o []. split; cbn; [apply keccak256_bytes|done|done]. Qed.

Lemma SetState_ok s a k v : txn_ok s -> word v -> txn_ok (txn_SetState s a k v).
Proof.
  intros Hs Hv. apply upsert_ok; [done|]. intros o []. split; cbn; [done|done|].
  intros tx k' v' [= <-]. rewrite rx_Get_Insert. case_decide; [destruct (v =? zeroHash); by intros [= <-]|].
  destruct (o_Txn o) as [tx|] eqn:E; cbn; [by apply ook_storage0|]. by rewrite rx_Get_New.
Qed.

Lemma SetStorage_ok s a k v cfg : txn_ok s -> word v -> txn_ok (snd (txn_SetStorage s a k v cfg)).
Proof.
  intros Hs Hv. destruct (SetStorage_shape s a k v cfg) as (r & -> & Hr).
  apply set_refund_ok; [apply Hr, Hs|]. case_match; [done|]. by apply SetState_ok.
Qed.

Lemma GetState_word s a k : txn_ok s -> word (txn_GetState s a k).
Proof.
  intros Hs. unfold txn_GetState. assert (H0w : word 0) by (unfold word; lia).
  destruct (getStateObject s a) as [o|] eqn:E; [|done]. apply getStateObject_ok in E as []; [|done].
  cbv zeta. destruct (o_Txn o) as [tx|] eqn:Et; [|apply sk_storage, Hs].
  destruct (rx_Get tx k) as [[v|]|] eqn:Eg; [exact (ook_storage0 tx k v eq_refl Eg)|done|apply sk_storage, Hs].
Qed.

Lemma GetCodeHash_word s a : txn_ok s -> word (txn_GetCodeHash s a).
Proof.
  intros Hs. unfold txn_GetCodeHash. destruct (getStateObject s a) as [o|] eqn:E; [|unfold word; lia].
  apply getStateObject_ok in E as []; [|done]. by apply BytesToHash_word.
Qed.

(** Looking up code changes the cache only. *)
Lemma GetCode_spec s a :
  txn_ok s -> slice_ok (fst (txn_GetCode s a)) /\ txn_ok (snd (txn_GetCode s a)) /\
  exists c, snd (txn_GetCode s a) = set_cache c s.
Proof.
  intros Hs. pose proof slice_ok_nil. unfold txn_GetCode.
  destruct (getStateObject s a) as [o|] eqn:E.
  2: { cbn. split_and!; [done|done|]. exists (codeCache s). by destruct s. }
  pose proof (getStateObject_ok _ _ _ Hs E) as [_ Hcode _].
  destruct (o_DirtyCode o). { cbn. split_and!; [done|done|]. exists (codeCache s). by destruct s. }
  pose proof (lru_Get_peek (codeCache s) a) as Hg. pose proof (lru_peek_Get (codeCache s) a) as Hp.
  destruct (lru_Get (codeCache s) a) as [[v|] c]; cbn [fst snd] in *.
  - split_and!; [apply (tk_cache _ Hs a); congruence| |by exists c].
    destruct Hs as [Hn Ht Hc Hr]. split; [done|done| |done]. intros b v'. cbn. rewrite Hp. apply Hc.
  - set (code := default [] _).
    assert (Hco : slice_ok code).
    { unfold code. destruct (sn_GetCode _ _) eqn:Ec; [|done]. apply (sk_code _ (tk_snap _ Hs) _ _ Ec). }
    split_and!; [done| |by eexists]. destruct Hs as [Hn Ht Hc Hr]. split; [done|done| |done].
    intros b v' Hb. cbn in Hb. apply lru_peek_Add in Hb as [[_ ->]|Hb]; [done|].
    rewrite Hp in Hb. by eapply Hc.
Qed.

(** ** The end of a transaction *)

(** The same [Txn] up to its state objects. *)
Definition same_rest s s' : Prop :=
  snapshot s' = snapshot s /\ snapshots s' = snapshots s /\ codeCache s' = codeCache s /\
  tr_logs (txn s') = tr_logs (txn s) /\ tr_refund (txn s') = tr_refund (txn s).

Lemma mark_deleted_spec ks s :
  NoDup ks -> (forall k, k ∈ ks -> is_Some (rx_Get (objects (txn s)) k)) ->
  exists s', fold_left mark_deleted ks (Some s) = Some s' /\ same_rest s s' /\
    forall a, rx_Get (objects (txn s')) a =
      if decide (a ∈ ks) then set_Deleted true ∘ StateObject_Copy <$> rx_Get (objects (txn s)) a
      else rx_Get (objects (txn s)) a.
Proof.
  revert s. induction ks as [|k ks IH]; intros s Hnd Hks.
  { exists s. split; [done|]. split; [done|]. intros a. by rewrite decide_False by in_list. }
  apply NoDup_cons in Hnd as [Hk Hnd]. cbn [fold_left].
  destruct (Hks k ltac:(in_list)) as [o Ho]. cbn [mark_deleted]. rewrite Ho.
  set (s1 := insert_object k _ s).
  assert (Hg : forall a, rx_Get (objects (txn s1)) a =
    if decide (k = a) then Some (set_Deleted true (StateObject_Copy o)) else rx_Get (objects (txn s)) a).
  { intros a. unfold s1. cbn. by rewrite rx_Get_Insert. }
  destruct (IH s1 Hnd) as (s' & Hf & Hr & Hs').
  { intros a Ha. rewrite Hg. rewrite decide_False by (by intros ->). apply Hks. in_list. }
  exists s'. split; [done|]. split; [done|]. intros a. rewrite Hs', Hg.
  destruct (decide (k = a)) as [<-|Hne].
  - rewrite decide_False by done. rewrite decide_True by in_list. by rewrite Ho.
  - destruct (decide (a ∈ ks)); [rewrite decide_True by in_list; done|].
    rewrite decide_False; [done|]. intros [->|?]%elem_of_cons; done.
Qed.

(** [CleanDeleteObjects] does not panic; it marks the removable objects and resets
    the refund. *)
Lemma CleanDeleteObjects_spec s b :
  exists s', CleanDeleteObjects s b = Some s' /\
    snapshot s' = snapshot s /\ snapshots s' = snapshots s /\ codeCache s' = codeCache s /\
    tr_logs (txn s') = tr_logs (txn s) /\ tr_refund (txn s') = None /\
    forall a, rx_Get (objects (txn s')) a =
      match rx_Get (objects (txn s)) a with
      | Some o => Some (if removable b o then set_Deleted true (StateObject_Copy o) else o)
      | None => None
      end.
Proof.
  unfold CleanDeleteObjects. set (remove := fst <$> filter _ _).
  assert (Hin : forall a, a ∈ remove <->
    exists o, rx_Get (objects (txn s)) a = Some o /\ removable b o = true).
  { intros a. unfold remove. rewrite list_elem_of_fmap. split.
    - intros ([k o] & -> & Hf). apply list_elem_of_filter in Hf as [Hr Hw].
      exists o. by apply rx_Walk_Get in Hw.
    - intros (o & Hg & Hr). exists (a, o). split; [done|]. apply list_elem_of_filter.
      by rewrite rx_Walk_Get. }
  destruct (mark_deleted_spec remove s) as (s' & -> & (?&?&?&?&?) & Hs').
  { unfold remove. eapply sublist_NoDup; [apply rx_Walk_keys|].
    apply fmap_sublist, sublist_filter. }
  { intros k Hk. apply Hin in Hk as (o & -> & _). by eexists. }
  eexists. split; [done|]. split_and!; try done. intros a. cbn. rewrite Hs'.
  destruct (rx_Get (objects (txn s)) a) as [o|] eqn:Eg; [|by case_decide].
  case_decide as Hd; cbn.
  - apply Hin in Hd as (o' & Ho' & Hr'). rewrite Eg in Ho'. injection Ho' as <-. by rewrite Hr'.
  - destruct (removable b o) eqn:Er; [|done]. exfalso. apply Hd, Hin. by exists o.
Qed.

(** What is left of an account: nothing if it was removable, else all of it. *)
Lemma CleanDeleteObjects_view s b s' a :
  CleanDeleteObjects s b = Some s' ->
  getStateObject s' a = getStateObject s a \/ getStateObject s' a = None.
Proof.
  destruct (CleanDeleteObjects_spec s b) as (s1 & -> & Hsn & _ & _ & _ & _ & Hg). intros [= <-].
  unfold getStateObject. rewrite Hg, Hsn. destruct (rx_Get (objects (txn s)) a) as [o|]; [|by left].
  destruct (removable b o); [by right|by left].
Qed.

Lemma Clean_ok s b s' B :
  CleanDeleteObjects s b = Some s' -> txn_ok s -> sup (txn_GetBalance s) B ->
  txn_ok s' /\ sup (txn_GetBalance s') B.
Proof.
  intros He Hs Hsup. pose proof (fun a => CleanDeleteObjects_view s b s' a He) as Hv.
  destruct (CleanDeleteObjects_spec s b) as (s1 & He1 & Hsn & Hss & Hc & Hl & Hr & Hg).
  rewrite He in He1. injection He1 as <-. destruct Hs as [Hn Ht Hca Hre]. split.
  - split; [by rewrite Hsn| |by rewrite Hc|unfold txn_GetRefund; rewrite Hr; done].
    intros a o. rewrite Hg. destruct (rx_Get (objects (txn s)) a) as [o'|] eqn:E; [|done].
    intros [= <-]. pose proof (Ht _ _ E) as Ho. case_match; [|done].
    destruct (Copy_ok _ Ho). by split.
  - eapply sup_le; [|exact Hsup]. intros a. pose proof (GetBalance_nonneg s a).
    unfold txn_GetBalance in *. destruct (Hv a) as [-> | ->]; lia.
Qed.

End Lemmas.

(** * Association lists as containers

    They satisfy the laws of the radix tree and of a cache that never evicts. *)
Local Open Scope go_scope.

(** The first entry of a key counts. *)
Definition al_get {V} (t : list (Z * V)) (k : Z) : option V := snd <$> find (fun p => fst p =? k) t.

Fixpoint al_walk {V} (t : list (Z * V)) : list (Z * V) :=
  match t with
  | [] => []
  | (k, v) :: t => (k, v) :: filter (fun p => fst p ≠ k) (al_walk t)
  end.

Lemma al_get_cons {V} (t : list (Z * V)) k v k' :
  al_get ((k, v) :: t) k' = if decide (k = k') then Some v else al_get t k'.
Proof.
  unfold al_get. cbn [find fst]. destruct (decide (k = k')) as [->|Hne].
  - by rewrite Z.eqb_refl.
  - by rewrite (proj2 (Z.eqb_neq _ _) Hne).
Qed.

Lemma al_walk_keys {V} (t : list (Z * V)) : NoDup (fst <$> al_walk t).
Proof.
  induction t as [|[k v] t IH]; cbn; [constructor|]. apply NoDup_cons. split.
  - intros ([x y] & -> & Hf)%list_elem_of_fmap. by apply list_elem_of_filter in Hf as [Hf _].
  - eapply sublist_NoDup; [exact IH|]. apply fmap_sublist, sublist_filter.
Qed.

Lemma al_walk_get {V} (t : list (Z * V)) k v : (k, v) ∈ al_walk t <-> al_get t k = Some v.
Proof.
  induction t as [|[x y] t IH]; cbn [al_walk]; [split; [by intros ?%elem_of_nil|done]|].
  rewrite al_get_cons, elem_of_cons, list_elem_of_filter, IH. cbn. case_decide as Hd.
  - subst. split; [by intros [[= ->]|[? _]]|intros [= ->]; by left].
  - split; [by intros [[= -> ->]|[_ ?]]|intros ?; right; split; [congruence|done]].
Qed.

Definition alist (V : Type) : Type := list (Z * V).

#[global] Instance alist_radix : Radix alist := {|
  rx_New := fun _ => []; rx_Get := fun _ => al_get; rx_Insert := fun _ t k v => (k, v) :: t;
  rx_Walk := fun _ => al_walk |}.

#[global] Instance alist_radix_laws : RadixLaws alist.
Proof.
  split; cbn; [done|intros; apply al_get_cons|intros; apply al_walk_keys|intros; apply al_walk_get].
Qed.

#[global] Instance alist_lru {V} : Lru Z V (alist V) := {|
  lru_New := fun _ => []; lru_Get := fun c a => (al_get c a, c); lru_Add := fun c a v => (a, v) :: c |}.

#[global] Instance alist_lru_laws {V} : LruLaws Z V (alist V).
Proof.
  refine {| lru_peek := al_get |}; try done.
  intros c a v a' v'. cbn [lru_Add alist_lru]. rewrite al_get_cons. case_decide; [|by right]. intros [= <-]. by left.
Defined.
