(* ===== verification/Blake2f.v ===== *)
(** * The BLAKE2b compression function ([precompiled/blake2f.go])

    [F] is the unrolled loop of the source on a working vector of 16 words. The
    reference [compress] is written as in RFC 7693, with the mixing function [G]
    applied to columns and diagonals and the message schedule [SIGMA]; the source
    interleaves the halves of four [G]s and permutes the schedule accordingly. *)

From S2P Require Import Prelude ChainTypes BigInt Runtime.
Local Open Scope go_scope.

Definition IV : list Z :=
  [0x6a09e667f3bcc908; 0xbb67ae8584caa73b; 0x3c6ef372fe94f82b; 0xa54ff53a5f1d36f1;
   0x510e527fade682d1; 0x9b05688c2b3e6c1f; 0x1f83d9abfb41bd6b; 0x5be0cd19137e2179].

Definition precomputed : list (list nat) :=
  [[0; 2; 4; 6; 1; 3; 5; 7; 8; 10; 12; 14; 9; 11; 13; 15];
   [14; 4; 9; 13; 10; 8; 15; 6; 1; 0; 11; 5; 12; 2; 7; 3];
   [11; 12; 5; 15; 8; 0; 2; 13; 10; 3; 7; 9; 14; 6; 1; 4];
   [7; 3; 13; 11; 9; 1; 12; 14; 2; 5; 4; 15; 6; 10; 0; 8];
   [9; 5; 2; 10; 0; 7; 4; 15; 14; 11; 6; 3; 1; 12; 8; 13];
   [2; 6; 0; 8; 12; 10; 11; 3; 4; 7; 15; 1; 13; 5; 14; 9];
   [12; 1; 14; 4; 5; 15; 13; 10; 0; 6; 9; 8; 7; 3; 2; 11];
   [13; 7; 12; 3; 11; 14; 1; 9; 5; 15; 8; 2; 0; 4; 6; 10];
   [6; 14; 11; 0; 15; 9; 3; 8; 12; 13; 1; 10; 2; 7; 4; 5];
   [10; 8; 7; 1; 2; 4; 6; 5; 15; 9; 3; 13; 11; 14; 12; 0]]%nat.

(** [bits.RotateLeft64(x, -k)] *)
Definition RotateRight64 (x k : Z) : Z :=
  let s := (- k) mod 64 in Z.lor (u64 (Z.shiftl x s)) (Z.shiftr x (64 - s)).

(** Seven lines of the loop body: [va += x; va += vb; vd ^= va; vd rotated by r1;
    vc += vd; vb ^= vc; vb rotated by r2]. *)
Definition mix (a b c d : nat) (r1 r2 : Z) (x : Z) (v : list Z) : list Z :=
  let at_ i v := nth i v 0 in
  let v := <[a := at_ a v +u x]> v in
  let v := <[a := at_ a v +u at_ b v]> v in
  let v := <[d := Z.lxor (at_ d v) (at_ a v)]> v in
  let v := <[d := RotateRight64 (at_ d v) r1]> v in
  let v := <[c := at_ c v +u at_ d v]> v in
  let v := <[b := Z.lxor (at_ b v) (at_ c v)]> v in
  <[b := RotateRight64 (at_ b v) r2]> v.

Definition F_round (m : list Z) (s : list nat) (v : list Z) : list Z :=
  let x i := nth (nth i s 0%nat) m 0 in
  let v := mix 0 4 8 12 32 24 (x 0%nat) v in
  let v := mix 1 5 9 13 32 24 (x 1%nat) v in
  let v := mix 2 6 10 14 32 24 (x 2%nat) v in
  let v := mix 3 7 11 15 32 24 (x 3%nat) v in
  let v := mix 0 4 8 12 16 63 (x 4%nat) v in
  let v := mix 1 5 9 13 16 63 (x 5%nat) v in
  let v := mix 2 6 10 14 16 63 (x 6%nat) v in
  let v := mix 3 7 11 15 16 63 (x 7%nat) v in
  let v := mix 0 5 10 15 32 24 (x 8%nat) v in
  let v := mix 1 6 11 12 32 24 (x 9%nat) v in
  let v := mix 2 7 8 13 32 24 (x 10%nat) v in
  let v := mix 3 4 9 14 32 24 (x 11%nat) v in
  let v := mix 0 5 10 15 16 63 (x 12%nat) v in
  let v := mix 1 6 11 12 16 63 (x 13%nat) v in
  let v := mix 2 7 8 13 16 63 (x 14%nat) v in
  mix 3 4 9 14 16 63 (x 15%nat) v.

(** The working vector before the first round. *)
Definition F_init (h : list Z) (c0 c1 : Z) (f : bool) : list Z :=
  let v := h ++ IV in
  let v := <[12%nat := Z.lxor (nth 12 v 0) c0]> v in
  let v := <[13%nat := Z.lxor (nth 13 v 0) c1]> v in
  if f then <[14%nat := Z.lxor (nth 14 v 0) 0xffffffffffffffff]> v else v.

Definition F (h m : list Z) (c0 c1 : Z) (f : bool) (rounds : Z) : list Z :=
  let v := fold_left (fun v j => F_round m (nth (Z.to_nat (j mod 10)) precomputed []) v)
             (seqZ 0 rounds) (F_init h c0 c1 f) in
  (fun i => Z.lxor (nth i h 0) (Z.lxor (nth i v 0) (nth (i + 8) v 0))) <$> seq 0 8.

(** ** RFC 7693 *)

Definition SIGMA : list (list nat) :=
  [[0; 1; 2; 3; 4; 5; 6; 7; 8; 9; 10; 11; 12; 13; 14; 15];
   [14; 10; 4; 8; 9; 15; 13; 6; 1; 12; 0; 2; 11; 7; 5; 3];
   [11; 8; 12; 0; 5; 2; 15; 13; 10; 14; 3; 6; 7; 1; 9; 4];
   [7; 9; 3; 1; 13; 12; 11; 14; 2; 6; 5; 10; 4; 0; 15; 8];
   [9; 0; 5; 7; 2; 4; 10; 15; 14; 1; 11; 12; 6; 8; 3; 13];
   [2; 12; 6; 10; 0; 11; 8; 3; 4; 13; 7; 5; 15; 14; 1; 9];
   [12; 5; 1; 15; 14; 13; 4; 10; 0; 7; 6; 3; 9; 2; 8; 11];
   [13; 11; 7; 14; 12; 1; 3; 9; 5; 0; 15; 4; 8; 6; 2; 10];
   [6; 15; 14; 9; 11; 3; 0; 8; 12; 2; 13; 7; 1; 4; 10; 5];
   [10; 2; 8; 4; 7; 6; 1; 5; 15; 11; 9; 14; 3; 12; 13; 0]]%nat.

Definition G (a b c d : nat) (x y : Z) (v : list Z) : list Z :=
  let at_ i v := nth i v 0 in
  let v := <[a := u64 (at_ a v + at_ b v + x)]> v in
  let v := <[d := RotateRight64 (Z.lxor (at_ d v) (at_ a v)) 32]> v in
  let v := <[c := u64 (at_ c v + at_ d v)]> v in
  let v := <[b := RotateRight64 (Z.lxor (at_ b v) (at_ c v)) 24]> v in
  let v := <[a := u64 (at_ a v + at_ b v + y)]> v in
  let v := <[d := RotateRight64 (Z.lxor (at_ d v) (at_ a v)) 16]> v in
  let v := <[c := u64 (at_ c v + at_ d v)]> v in
  <[b := RotateRight64 (Z.lxor (at_ b v) (at_ c v)) 63]> v.

Definition columns (m : list Z) (s : list nat) (v : list Z) : list Z :=
  let x i := nth (nth i s 0%nat) m 0 in
  let v := G 0 4 8 12 (x 0%nat) (x 1%nat) v in
  let v := G 1 5 9 13 (x 2%nat) (x 3%nat) v in
  let v := G 2 6 10 14 (x 4%nat) (x 5%nat) v in
  G 3 7 11 15 (x 6%nat) (x 7%nat) v.

Definition diagonals (m : list Z) (s : list nat) (v : list Z) : list Z :=
  let x i := nth (nth i s 0%nat) m 0 in
  let v := G 0 5 10 15 (x 8%nat) (x 9%nat) v in
  let v := G 1 6 11 12 (x 10%nat) (x 11%nat) v in
  let v := G 2 7 8 13 (x 12%nat) (x 13%nat) v in
  G 3 4 9 14 (x 14%nat) (x 15%nat) v.

Definition G_round (m : list Z) (s : list nat) (v : list Z) : list Z :=
  diagonals m s (columns m s v).

Definition compress (h m : list Z) (c0 c1 : Z) (f : bool) (rounds : Z) : list Z :=
  let v := fold_left (fun v j => G_round m (nth (Z.to_nat (j mod 10)) SIGMA []) v)
             (seqZ 0 rounds) (F_init h c0 c1 f) in
  (fun i => Z.lxor (nth i h 0) (Z.lxor (nth i v 0) (nth (i + 8) v 0))) <$> seq 0 8.

(** ** Equivalence *)

Lemma mix_add a b x : (a +u x) +u b = u64 (a + b + x).
Proof. rewrite u64_add_l. f_equal. lia. Qed.

(** The halves of the [G]s on four disjoint quadruples may be interleaved. *)
Lemma columns_interleaved x0 x1 x2 x3 y0 y1 y2 y3 v :
  length v = 16%nat ->
  mix 3 7 11 15 16 63 y3 (mix 2 6 10 14 16 63 y2 (mix 1 5 9 13 16 63 y1 (mix 0 4 8 12 16 63 y0
    (mix 3 7 11 15 32 24 x3 (mix 2 6 10 14 32 24 x2 (mix 1 5 9 13 32 24 x1
      (mix 0 4 8 12 32 24 x0 v))))))) =
  G 3 7 11 15 x3 y3 (G 2 6 10 14 x2 y2 (G 1 5 9 13 x1 y1 (G 0 4 8 12 x0 y0 v))).
Proof.
  intros Hv. do 16 (destruct v as [|? v]; [discriminate Hv|]). destruct v; [|discriminate Hv]. clear Hv.
  cbv beta iota zeta delta [mix G nth insert list_insert]. rewrite !mix_add. reflexivity.
Qed.

Lemma diagonals_interleaved x0 x1 x2 x3 y0 y1 y2 y3 v :
  length v = 16%nat ->
  mix 3 4 9 14 16 63 y3 (mix 2 7 8 13 16 63 y2 (mix 1 6 11 12 16 63 y1 (mix 0 5 10 15 16 63 y0
    (mix 3 4 9 14 32 24 x3 (mix 2 7 8 13 32 24 x2 (mix 1 6 11 12 32 24 x1
      (mix 0 5 10 15 32 24 x0 v))))))) =
  G 3 4 9 14 x3 y3 (G 2 7 8 13 x2 y2 (G 1 6 11 12 x1 y1 (G 0 5 10 15 x0 y0 v))).
Proof.
  intros Hv. do 16 (destruct v as [|? v]; [discriminate Hv|]). destruct v; [|discriminate Hv]. clear Hv.
  cbv beta iota zeta delta [mix G nth insert list_insert]. rewrite !mix_add. reflexivity.
Qed.

Lemma G_length a b c d x y v : length (G a b c d x y v) = length v.
Proof. unfold G. by rewrite !length_insert. Qed.

(** The schedule of the source is that of the RFC in the order of the halves. *)
Lemma schedule j i :
  (j < 10)%nat -> (i < 16)%nat ->
  nth i (nth j precomputed []) 0%nat =
  nth (nth i [0; 2; 4; 6; 1; 3; 5; 7; 8; 10; 12; 14; 9; 11; 13; 15]%nat 0%nat) (nth j SIGMA []) 0%nat.
Proof. intros Hj Hi. do 10 (destruct j as [|j]; [by do 16 (destruct i as [|i]; [done|]); lia|]). lia. Qed.

Lemma F_round_spec m j v :
  length v = 16%nat -> (j < 10)%nat ->
  F_round m (nth j precomputed []) v = G_round m (nth j SIGMA []) v.
Proof.
  intros Hv Hj. unfold F_round, G_round, diagonals, columns. cbv beta zeta. rewrite !schedule by lia.
  cbn [nth]. rewrite columns_interleaved by done. rewrite diagonals_interleaved by (by rewrite !G_length).
  reflexivity.
Qed.

Lemma G_round_length m s v : length (G_round m s v) = length v.
Proof. unfold G_round, diagonals, columns. by rewrite !G_length. Qed.

Lemma fold_left_ext {A B} (P : A -> Prop) (f g : A -> B -> A) l a :
  (forall a b, P a -> f a b = g a b /\ P (g a b)) -> P a -> fold_left f l a = fold_left g l a.
Proof.
  intros Hfg. revert a. induction l as [|b l IH]; intros a Ha; [reflexivity|]. cbn.
  destruct (Hfg a b Ha) as [-> Hg]. by apply IH.
Qed.


(** The first test vector of EIP-152: 12 rounds on the block "abc". *)
Definition blake2_h : list Z :=
  [0x6a09e667f2bdc948; 0xbb67ae8584caa73b; 0x3c6ef372fe94f82b; 0xa54ff53a5f1d36f1;
   0x510e527fade682d1; 0x9b05688c2b3e6c1f; 0x1f83d9abfb41bd6b; 0x5be0cd19137e2179].

