(* ===== verification/Precompiled.v ===== *)
(** * Precompiled contracts ([state/runtime/precompiled]), after the
      address allow lists ([state/runtime/allowlist/allowlist.go])

    An allow list keeps the role of each address in a storage slot of the list's
    own address. The identifiers of its four methods come from the ABI library
    and are a parameter. *)

From S2P Require Import Prelude ChainTypes BigInt Runtime Blake2f.
Local Open Scope go_scope.

(** The method identifiers, [SetAdminFunc.ID()] and so on. *)
Class AllowListABI := {
  SetAdminFunc_ID : list Z;
  SetEnabledSignatureFunc_ID : list Z;
  SetNoneFunc_ID : list Z;
  ReadAllowListFunc_ID : list Z;
}.

Definition writeAllowListCost : Z := 20000.
Definition readAllowListCost : Z := 5000.

Abbreviation Role := Z (only parsing).
Definition NoRole : Role := 0.
Definition EnabledRole : Role := 1.
Definition AdminRole : Role := 2.

Definition Enabled (r : Role) : bool := (r =? AdminRole) || (r =? EnabledRole).

Definition errNoFunctionSignature : VMErr := ErrOther 1.
Definition errInputTooShort : VMErr := ErrOther 2.
Definition errFunctionNotFound : VMErr := ErrOther 3.
Definition allowlist_errWriteProtection : VMErr := ErrOther 4.

Section AllowList.
Context {W : Type} `{Host W} `{AllowListABI}.
(** The address of the list; its [stateRef] is the host. *)
Context (addr : Address).

Definition SetRole (w : W) (a : Address) (role : Role) : W :=
  HSetState w addr (BytesToHash (be_bytes 20 a)) role.

Definition GetRole (w : W) (a : Address) : Role := GetStorage w addr (BytesToHash (be_bytes 20 a)).

(** The role a write method sets. *)
Definition updateRole (sig : list Z) : option Role :=
  if bool_decide (sig = SetAdminFunc_ID) then Some AdminRole
  else if bool_decide (sig = SetEnabledSignatureFunc_ID) then Some EnabledRole
  else if bool_decide (sig = SetNoneFunc_ID) then Some NoRole
  else None.

Definition runInputCall (w : W) (caller : Address) (input : list Z) (gas : Z) (isStatic : bool) :
  list Z * Z * option VMErr * W :=
  if (length input <? 4)%nat then ([], 0, Some errNoFunctionSignature, w)
  else
    let sig := take 4 input in
    let inputBytes := drop 4 input in
    if negb (length inputBytes =? 32)%nat then ([], 0, Some errInputTooShort, w)
    else
      let inputAddr := BytesToAddress inputBytes in
      if bool_decide (sig = ReadAllowListFunc_ID) then
        if gas <? readAllowListCost then ([], 0, Some ErrOutOfGas, w)
        else (be_bytes 32 (GetRole w inputAddr), readAllowListCost, None, w)
      else
        match updateRole sig with
        | None => ([], 0, Some errFunctionNotFound, w)
        | Some role =>
            if gas <? writeAllowListCost then ([], 0, Some ErrOutOfGas, w)
            else if isStatic then ([], writeAllowListCost, Some allowlist_errWriteProtection, w)
            else if negb (GetRole w caller =? AdminRole)
            then ([], writeAllowListCost, Some ErrNotAuth, w)
            else ([], writeAllowListCost, None, SetRole w inputAddr role)
        end.

Definition allowlist_Run (c : Contract) (w : W) : ExecutionResult * W :=
  let '(ret, gasUsed, err, w) := runInputCall w (c_Caller c) (c_Input c) (c_Gas c) (c_Static c) in
  (mkResult ret (c_Gas c -u gasUsed) gasUsed err ZeroAddress, w).

(** The only way a run changes the world: an admin, outside of static calls, with
    enough gas, sets the role named by the method. *)
Lemma allowlist_Run_write c w r w' :
  allowlist_Run c w = (r, w') ->
  w' = w \/
  exists role, c_Static c = false /\ GetRole w (c_Caller c) = AdminRole /\ ResErr r = None /\
    writeAllowListCost <= c_Gas c /\ updateRole (take 4 (c_Input c)) = Some role /\
    w' = SetRole w (BytesToAddress (drop 4 (c_Input c))) role.
Proof.
  unfold allowlist_Run, runInputCall. repeat case_match; intros [= <- <-]; simplify_eq; try (by left).
  all: right; breflect; naive_solver.
Qed.

Lemma allowlist_Run_gas c w r w' :
  is_u64 (c_Gas c) -> allowlist_Run c w = (r, w') -> 0 <= GasLeft r <= c_Gas c.
Proof.
  unfold allowlist_Run, runInputCall, is_u64, writeAllowListCost, readAllowListCost. intros Hg.
  repeat case_match; intros [= <- <-]; simplify_eq; breflect; cbn; rewrite u64_small by lia; lia.
Qed.

Lemma allowlist_Run_ret c w r w' :
  allowlist_Run c w = (r, w') -> slice_ok (ReturnValue r).
Proof.
  unfold allowlist_Run, runInputCall.
  repeat case_match; intros [= <- <-]; simplify_eq; cbn [ReturnValue]; split;
    first [ apply (be_bytes_ok 32) | constructor | rewrite be_bytes_length; lia | done ].
Qed.

End AllowList.

(** * The precompiled contracts ([state/runtime/precompiled])

    Dispatch, gas and input handling of the eleven precompiled contracts. The
    cryptographic and ABI libraries they call are a parameter ([CryptoLib]); the
    shared scratch buffer of [get] is not visible, since every caller copies or
    consumes what [get] returns before the next call. *)
Local Open Scope go_scope.

(** Third-party functions: hashes, key recovery (to the uncompressed key), the
    bn256 curve, the ABI coder, and aggregated BLS signatures. *)
Class CryptoLib := {
  sha256_Sum : list Z -> list Z;
  ripemd160_Sum : list Z -> list Z;
  btcec_RecoverCompact : list Z -> list Z -> option (list Z);
  G1 : Type;
  G2 : Type;
  G1_Unmarshal : list Z -> option G1;
  G1_Marshal : G1 -> list Z;
  G1_Add : G1 -> G1 -> G1;
  G1_ScalarMult : G1 -> Z -> G1;
  G2_Unmarshal : list Z -> option G2;
  PairingCheck : list G1 -> list G2 -> bool;
  abi_EncodeBool : bool -> list Z;
  BlsSignature : Type;
  BlsPublicKey : Type;
  abi_DecodeInput : list Z -> option (Hash * list Z * list Z);
  abi_DecodeKeys : list Z -> option (list (list Z));
  UnmarshalSignature : list Z -> option BlsSignature;
  UnmarshalPublicKey : list Z -> option BlsPublicKey;
  VerifyAggregated : BlsSignature -> list BlsPublicKey -> list Z -> bool;
}.

(** The libraries return byte strings of their documented sizes. *)
Class CryptoLaws `{CryptoLib} := {
  sha256_size b : bytes_ok (sha256_Sum b) /\ length (sha256_Sum b) = 32%nat;
  ripemd160_size b : bytes_ok (ripemd160_Sum b) /\ length (ripemd160_Sum b) = 20%nat;
  G1_size g : bytes_ok (G1_Marshal g) /\ length (G1_Marshal g) = 64%nat;
  abi_bool_size b : bytes_ok (abi_EncodeBool b) /\ length (abi_EncodeBool b) = 32%nat;
}.

Definition NativeERC20TokenContract : Address := 0x1010.
Definition NativeTransferPrecompile : Address := 0x2020.
Definition BLSAggSigsVerificationPrecompile : Address := 0x2030.

Definition secp256k1N : Z := 0xfffffffffffffffffffffffffffffffebaaedce6af48a03bbfd25e8cd0364141.

Definition ValidateSignatureValues (v r s : Z) (isHomestead : bool) : bool :=
  if (r <? 1) || (s <? 1) then false
  else if (v <? 0) || (1 <? v) then false
  else if isHomestead then (r <? secp256k1N) && (s <=? secp256k1N / 2)
  else (r <? secp256k1N) && (s <? secp256k1N).

(** ** Input handling *)

(** [leftPad] *)
Definition leftPad (buf : list Z) (n : nat) : list Z :=
  if (n <? length buf)%nat then buf else replicate (n - length buf) 0 ++ buf.

(** [get]: the first [size] bytes of the input, padded with zeros, and the rest;
    a size beyond the range of [int] panics when the buffer is sliced. *)
Definition get (input : list Z) (size : Z) : option (list Z * list Z) :=
  if i64 size <? 0 then None
  else
    let n := Nat.min (Z.to_nat size) (length input) in
    Some (take n input ++ replicate (Z.to_nat size - n) 0, drop n input).

Definition getUint64 (input : list Z) : option (Z * list Z) :=
  match get input 32 with
  | Some (buf, rest) => Some (be_val (drop 24 buf), rest)
  | None => None
  end.

(** ** Gas *)

Definition baseGasCalc (input : list Z) (base word : Z) : Z :=
  base +u (u64 (Z.of_nat (length input) + 31) / 32 *u word).

Definition adjustedExponentLength (expLen head : Z) : Z :=
  let bitlength := if negb (Z.sgn head =? 0) then u64 (BitLen head - 1) else 0 in
  if expLen <=? 32 then bitlength else (expLen - 32) * 8 + bitlength.

Definition subMul (x a b c : Z) : Z := x * b - c + x * x / a.

Definition multComplexity (x : Z) : Z :=
  if x <=? 64 then x * x
  else if x <=? 1024 then subMul x 4 96 3072
  else subMul x 16 480 199680.

Section Precompiled.
Context `{Codec} `{CryptoLib} {W : Type} `{Host W}.

Definition modExp_gas (input : list Z) : option Z :=
  match get input 32 with None => None | Some (val, tail) =>
  let baseLen := be_val val in
  match get tail 32 with None => None | Some (val, tail) =>
  let expLen := be_val val in
  match get tail 32 with None => None | Some (val, _) =>
  let modLen := be_val val in
  let input := if (96 <? length input)%nat then drop 96 input else [] in
  let expHeadLen := if expLen <? 32 then Uint64 expLen else 32 in
  let bLen := Uint64 baseLen in
  let head := if bLen <? Z.of_nat (length input)
              then match get (drop (Z.to_nat bLen) input) expHeadLen with
                   | Some (val, _) => Some (be_val val)
                   | None => None
                   end
              else Some 0 in
  match head with None => None | Some expHead =>
  let gasCost := multComplexity (Z.max modLen baseLen) in
  let adjExpLen := adjustedExponentLength expLen expHead in
  let gasCost := if 1 <=? adjExpLen then gasCost * adjExpLen else gasCost * 1 in
  let gasCost := gasCost / 20 in
  Some (if IsUint64 gasCost then Uint64 gasCost else MaxUint64)
  end end end end.

(** [base.Exp(base, exponent, modulus)] is the power reduced by the modulus. *)
Definition modExp_run (input : list Z) : option (list Z) :=
  match getUint64 input with None => None | Some (baseLen, input) =>
  match getUint64 input with None => None | Some (exponentLen, input) =>
  match getUint64 input with None => None | Some (modulusLen, input) =>
  if (baseLen =? 0) && (modulusLen =? 0) then Some []
  else
    match get input baseLen with None => None | Some (val, input) =>
    let base := be_val val in
    match get input exponentLen with None => None | Some (val, input) =>
    let exponent := be_val val in
    match get input modulusLen with None => None | Some (val, _) =>
    let modulus := be_val val in
    let res := if negb (Z.sgn modulus =? 0) then Bytes (base ^ exponent mod modulus) else [] in
    Some (leftPad res (Z.to_nat modulusLen))
    end end end
  end end end.

(** ** The contracts *)

Inductive precompile :=
| ecrecover | sha256h | ripemd160h | identity | modExp | bn256Add | bn256Mul | bn256Pairing
| blake2f | nativeTransfer | blsAggSignsVerification.

(** [setupContracts] and [register] *)
Definition contracts : list (Address * precompile) :=
  [(1, ecrecover); (2, sha256h); (3, ripemd160h); (4, identity); (5, modExp); (6, bn256Add);
   (7, bn256Mul); (8, bn256Pairing); (9, blake2f);
   (NativeTransferPrecompile, nativeTransfer);
   (BLSAggSigsVerificationPrecompile, blsAggSignsVerification)].

Definition find_contract (a : Address) : option precompile :=
  snd <$> find (fun p => fst p =? a) contracts.

Definition blake2f_gas (input : list Z) : Z :=
  if negb (length input =? 213)%nat then 0 else be_val (take 4 input).

Definition bn256Pairing_gas (input : list Z) (config : ForksInTime) : Z :=
  let num := Z.of_nat (length input) / 192 in
  if Istanbul config then 45000 +u (34000 *u num) else 100000 +u (80000 *u num).

Definition p_gas (p : precompile) (input : list Z) (config : ForksInTime) : option Z :=
  match p with
  | ecrecover => Some 3000
  | sha256h => Some (baseGasCalc input 60 12)
  | ripemd160h => Some (baseGasCalc input 600 120)
  | identity => Some (baseGasCalc input 15 3)
  | modExp => modExp_gas input
  | bn256Add => Some (if Istanbul config then 150 else 500)
  | bn256Mul => Some (if Istanbul config then 6000 else 40000)
  | bn256Pairing => Some (bn256Pairing_gas input config)
  | blake2f => Some (blake2f_gas input)
  | nativeTransfer => Some 21000
  | blsAggSignsVerification => Some 150000
  end.

(** [crypto.Ecrecover] on a 32-byte hash and a signature that ends in [v]. *)
Definition Ecrecover (hash sig : list Z) : option (list Z) :=
  if negb (length hash =? 32)%nat then None
  else if BytesToHash hash =? 0 then None
  else if (length sig <? 1)%nat then None
  else
    let size := length sig in
    let term := if nth (size - 1) sig 0 =? 1 then 28 else 27 in
    btcec_RecoverCompact (term :: take (size - 1) sig) hash.

(** Invalid signatures are answered by an empty output, not by an error. *)
Definition ecrecover_run (input : list Z) : option (list Z) :=
  match get input 128 with
  | None => None
  | Some (input, _) =>
      if negb (forallb (fun b => b =? 0) (take 31 (drop 32 input))) then Some []
      else
        let v := (nth 63 input 0 - 27) mod 256 in
        let r := be_val (take 32 (drop 64 input)) in
        let s := be_val (drop 96 input) in
        if negb (ValidateSignatureValues v r s false) then Some []
        else
          match Ecrecover (take 32 input) (drop 64 input ++ [v]) with
          | None => Some []
          | Some pubKey => Some (leftPad (drop 12 (keccak256 (drop 1 pubKey))) 32)
          end
  end.

Definition bn256Add_run (input : list Z) : option (result VMErr (list Z)) :=
  match get input 64 with None => None | Some (val, input) =>
  match G1_Unmarshal val with None => Some (Err (ErrOther 20)) | Some b1 =>
  match get input 64 with None => None | Some (val, _) =>
  match G1_Unmarshal val with None => Some (Err (ErrOther 20)) | Some b2 =>
  Some (Ok (G1_Marshal (G1_Add b1 b2)))
  end end end end.

Definition bn256Mul_run (input : list Z) : option (result VMErr (list Z)) :=
  match get input 64 with None => None | Some (v, input) =>
  match G1_Unmarshal v with None => Some (Err (ErrOther 20)) | Some b0 =>
  match get input 32 with None => None | Some (v, _) =>
  Some (Ok (G1_Marshal (G1_ScalarMult b0 (be_val v))))
  end end end.

(** The loop over the pairs of points. *)
Fixpoint pairing_points (num : nat) (input : list Z) :
  option (result VMErr (list G1 * list G2)) :=
  match num with
  | O => Some (Ok ([], []))
  | S num =>
      match get input 64 with None => None | Some (buf, input) =>
      match G1_Unmarshal buf with None => Some (Err (ErrOther 20)) | Some a0 =>
      match get input 128 with None => None | Some (buf, input) =>
      match G2_Unmarshal buf with None => Some (Err (ErrOther 20)) | Some b0 =>
      match pairing_points num input with
      | Some (Ok (ar, br)) => Some (Ok (a0 :: ar, b0 :: br))
      | r => r
      end end end end end
  end.

Definition bn256Pairing_run (input : list Z) : option (result VMErr (list Z)) :=
  if (length input =? 0)%nat then Some (Ok (abi_EncodeBool true))
  else if negb (length input mod 192 =? 0)%nat then Some (Err (ErrOther 21))
  else
    match pairing_points (length input / 192) input with
    | None => None
    | Some (Err e) => Some (Err e)
    | Some (Ok (ar, br)) => Some (Ok (abi_EncodeBool (PairingCheck ar br)))
    end.

(** Little-endian words. *)
Definition le_word (b : list Z) : Z := be_val (rev b).
Definition le_words (n : nat) (b : list Z) : list Z :=
  (fun i => le_word (take 8 (drop (8 * i) b))) <$> seq 0 n.

Definition blake2f_run (input : list Z) : result VMErr (list Z) :=
  if negb (length input =? 213)%nat then Err (ErrOther 22)
  else
    let flag := nth 212 input 0 in
    if negb (flag =? 0) && negb (flag =? 1) then Err (ErrOther 23)
    else
      let rounds := be_val (take 4 input) in
      let h := le_words 8 (drop 4 input) in
      let m := le_words 16 (drop 68 input) in
      let c0 := le_word (take 8 (drop 196 input)) in
      let c1 := le_word (take 8 (drop 204 input)) in
      Ok (F h m c0 c1 (flag =? 1) rounds ≫= fun x => rev (be_bytes 8 x)).

Definition nativeTransfer_run (input : list Z) (caller : Address) (w : W) :
  list Z * option VMErr * W :=
  if (length input <? 96)%nat then (abi_EncodeBool false, Some ErrInvalidInputData, w)
  else if negb (caller =? NativeERC20TokenContract)
  then (abi_EncodeBool false, Some ErrUnauthorizedCaller, w)
  else
    let from := BytesToAddress (take 32 input) in
    let to := BytesToAddress (take 32 (drop 32 input)) in
    let amount := be_val (take 32 (drop 64 input)) in
    match HTransfer w from to (Some amount) with
    | (Some e, w) => (abi_EncodeBool false, Some e, w)
    | (None, w) => (abi_EncodeBool true, None, w)
    end.

(** Unmarshalling every key, or none. *)
Fixpoint public_keys (l : list (list Z)) : option (list BlsPublicKey) :=
  match l with
  | [] => Some []
  | pk :: l =>
      match UnmarshalPublicKey pk, public_keys l with
      | Some k, Some ks => Some (k :: ks)
      | _, _ => None
      end
  end.

Definition bls_run (input : list Z) : result VMErr (list Z) :=
  match abi_DecodeInput input with None => Err (ErrOther 24) | Some (msg, aggSig, blsVerification) =>
  match UnmarshalSignature aggSig with None => Err (ErrOther 25) | Some sig =>
  match abi_DecodeKeys blsVerification with None => Err (ErrOther 26) | Some publicKeys =>
  match public_keys publicKeys with None => Err (ErrOther 27) | Some blsPubKeys =>
  Ok (abi_EncodeBool (VerifyAggregated sig blsPubKeys (be_bytes 32 msg)))
  end end end end.

(** [([]byte, error)] of a contract that leaves the host alone. *)
Definition pure_run (o : option (result VMErr (list Z))) (w : W) :
  option (list Z * option VMErr * W) :=
  match o with
  | None => None
  | Some (Ok b) => Some (b, None, w)
  | Some (Err e) => Some ([], Some e, w)
  end.

Definition p_run (p : precompile) (input : list Z) (caller : Address) (w : W) :
  option (list Z * option VMErr * W) :=
  match p with
  | ecrecover => pure_run (Ok <$> ecrecover_run input) w
  | sha256h => Some (sha256_Sum input, None, w)
  | ripemd160h => Some (leftPad (ripemd160_Sum input) 32, None, w)
  | identity => Some (input, None, w)
  | modExp => pure_run (Ok <$> modExp_run input) w
  | bn256Add => pure_run (bn256Add_run input) w
  | bn256Mul => pure_run (bn256Mul_run input) w
  | bn256Pairing => pure_run (bn256Pairing_run input) w
  | blake2f => pure_run (Some (blake2f_run input)) w
  | nativeTransfer => Some (nativeTransfer_run input caller w)
  | blsAggSignsVerification => pure_run (Some (bls_run input)) w
  end.

(** ** The runtime *)

Definition precompiled_CanRun (c : Contract) (config : ForksInTime) : bool :=
  let a := c_CodeAddress c in
  match find_contract a with
  | None => false
  | Some _ =>
      if (a =? 5) || (a =? 6) || (a =? 7) || (a =? 8) then Byzantium config
      else if a =? 9 then Istanbul config
      else true
  end.

Definition precompiled_Run (c : Contract) (w : W) (config : ForksInTime) :
  option (ExecutionResult * W) :=
  match find_contract (c_CodeAddress c) with
  | None => None
  | Some p =>
      match p_gas p (c_Input c) config with
      | None => None
      | Some gasCost =>
          if c_Gas c <? gasCost
          then Some (mkResult [] 0 0 (Some ErrOutOfGas) ZeroAddress, w)
          else
            let gas := c_Gas c -u gasCost in
            match p_run p (c_Input c) (c_Caller c) w with
            | None => None
            | Some (_, Some e, w) => Some (mkResult [] 0 0 (Some e) ZeroAddress, w)
            | Some (returnValue, None, w) => Some (mkResult returnValue gas 0 None ZeroAddress, w)
            end
      end
  end.

End Precompiled.
