(* ===== verification/PrecompiledProps.v ===== *)
(** * Theorems about the precompiled contracts

    No contract panics on a call with less than 2^60 gas; the only one that
    changes the host is the native transfer; [modExp] computes modular powers. *)

From S2P Require Import Prelude ChainTypes BigInt Runtime Blake2f Precompiled.
Local Open Scope go_scope.

Lemma i64_nonneg x : 0 <= x < 2 ^ 63 -> (i64 x <? 0) = false.
Proof.
  intros Hx. apply Z.ltb_ge. unfold i64. rewrite Z.mod_small; [lia|]. unfold two64. lia.
Qed.

Lemma get_app a b : Z.of_nat (length a) < 2 ^ 63 -> get (a ++ b) (Z.of_nat (length a)) = Some (a, b).
Proof.
  intros Ha. unfold get. rewrite i64_nonneg by lia. rewrite Nat2Z.id, length_app.
  rewrite Nat.min_l by lia. rewrite Nat.sub_diag. cbn [replicate].
  by rewrite app_nil_r, take_app_length, drop_app_length.
Qed.

Lemma get_total input size :
  0 <= size < 2 ^ 63 ->
  exists buf rest, get input size = Some (buf, rest) /\ length buf = Z.to_nat size /\
    (bytes_ok input -> bytes_ok buf /\ bytes_ok rest).
Proof.
  intros Hs. unfold get. rewrite i64_nonneg by done. eexists _, _. split; [done|]. split.
  - rewrite length_app, length_take, length_replicate. lia.
  - intros Hi. split; [apply Forall_app; split|].
    + by apply Forall_take.
    + apply Forall_replicate. unfold byte_ok. lia.
    + by apply Forall_drop.
Qed.

Lemma getUint64_total input :
  bytes_ok input -> exists n rest,
    getUint64 input = Some (n, rest) /\ bytes_ok rest /\
    exists buf, get input 32 = Some (buf, rest) /\ 0 <= n <= be_val buf /\ n < two64.
Proof.
  intros Hi. unfold getUint64. destruct (get_total input 32 ltac:(lia)) as (buf & rest & -> & Hl & Hb).
  destruct (Hb Hi) as [Hbuf Hrest]. eexists _, rest. split; [done|]. split; [done|].
  exists buf. split; [done|].
  pose proof (be_val_app (take 24 buf) (drop 24 buf)) as Hv. rewrite take_drop in Hv.
  pose proof (be_val_range _ (Forall_take _ 24 _ Hbuf)) as H1.
  pose proof (be_val_range _ (Forall_drop _ 24 _ Hbuf)) as H2.
  rewrite length_drop, Hl in *. change (256 ^ Z.of_nat _) with two64 in H2 at 1.
  split; [|apply H2]. split; [apply H2|]. nia.
Qed.

(** ** Gas and safety of [modExp] *)

Lemma multComplexity_bound x :
  0 <= x -> x <= multComplexity x /\ (1024 < x -> x * x / 16 <= multComplexity x).
Proof.
  intros Hx. unfold multComplexity, subMul. pose proof (Z.div_pos (x * x) 4). pose proof (Z.div_pos (x * x) 16).
  destruct (x <=? 64) eqn:E1; breflect; [nia|].
  destruct (x <=? 1024) eqn:E2; breflect; [|split; intros; nia].
  split; [|lia]. pose proof (Z.div_le_lower_bound (x * x) 4 (16 * x) ltac:(lia) ltac:(nia)). nia.
Qed.

(** What a price below 2^60 says about the sizes. *)
Lemma modExp_sizes X adj :
  0 <= X -> 0 <= adj ->
  multComplexity X * (if 1 <=? adj then adj else 1) / 20 < 2 ^ 60 ->
  X < 2 ^ 35 /\ (X <> 0 -> adj < 2 ^ 65).
Proof.
  intros HX Hadj Hg. destruct (multComplexity_bound X HX) as [Hlin Hquad].
  set (k := if 1 <=? adj then adj else 1) in *.
  assert (Hk : adj <= k /\ 1 <= k) by (unfold k; destruct (1 <=? adj) eqn:E; breflect; lia).
  assert (Hm : multComplexity X * k < 2 ^ 65).
  { pose proof (Z.mul_succ_div_gt (multComplexity X * k) 20 ltac:(lia)). nia. }
  split; [|intros; nia]. destruct (Z.lt_ge_cases X (2 ^ 35)) as [|Hge]; [done|exfalso].
  specialize (Hquad ltac:(lia)).
  assert (2 ^ 66 <= X * X / 16) by (apply Z.div_le_lower_bound; nia). nia.
Qed.

Lemma adj_nonneg expLen head :
  0 <= head -> 0 <= adjustedExponentLength expLen head /\
    (32 < expLen -> (expLen - 32) * 8 <= adjustedExponentLength expLen head).
Proof.
  intros Hh. unfold adjustedExponentLength.
  match goal with |- context [if negb ?b then u64 ?x else 0] =>
    set (bl := if negb b then u64 x else 0) end.
  assert (0 <= bl) by (unfold bl; case_match; [apply u64_range|lia]).
  destruct (expLen <=? 32) eqn:E; breflect; lia.
Qed.

(** The sizes as [modExp_gas] and [modExp_run] read them. *)
Lemma modExp_gas_spec input :
  bytes_ok input ->
  exists B E M t1 t2 t3 v1 v2 v3 adj,
    get input 32 = Some (v1, t1) /\ get t1 32 = Some (v2, t2) /\ get t2 32 = Some (v3, t3) /\
    be_val v1 = B /\ be_val v2 = E /\ be_val v3 = M /\ 0 <= B /\ 0 <= E /\ 0 <= M /\
    0 <= adj /\ (32 < E -> (E - 32) * 8 <= adj) /\
    modExp_gas input =
      let g := multComplexity (Z.max M B) * (if 1 <=? adj then adj else 1) / 20 in
      Some (if IsUint64 g then Uint64 g else MaxUint64).
Proof.
  intros Hi. unfold modExp_gas.
  destruct (get_total input 32 ltac:(lia)) as (v1 & t1 & Hg1 & Hl1 & Hb1). rewrite Hg1.
  destruct (Hb1 Hi) as [Hv1 Ht1].
  destruct (get_total t1 32 ltac:(lia)) as (v2 & t2 & Hg2 & Hl2 & Hb2). rewrite Hg2.
  destruct (Hb2 Ht1) as [Hv2 Ht2].
  destruct (get_total t2 32 ltac:(lia)) as (v3 & t3 & Hg3 & Hl3 & Hb3). rewrite Hg3.
  destruct (Hb3 Ht2) as [Hv3 Ht3].
  pose proof (be_val_range _ Hv1). pose proof (be_val_range _ Hv2). pose proof (be_val_range _ Hv3).
  set (rest := if (96 <? length input)%nat then drop 96 input else []).
  assert (Hrest : bytes_ok rest) by (unfold rest; case_match; [by apply Forall_drop|constructor]).
  set (n := if be_val v2 <? 32 then Uint64 (be_val v2) else 32).
  assert (Hn : 0 <= n < 2 ^ 63).
  { unfold n. destruct (be_val v2 <? 32) eqn:E; breflect; [|lia].
    rewrite Uint64_small by (unfold is_u64, two64; lia). lia. }
  match goal with |- context [match ?x with Some expHead => _ | None => None end = _] =>
    set (head := x) end.
  assert (Hhead : exists h, head = Some h /\ 0 <= h).
  { unfold head. destruct (_ <? Z.of_nat (length rest)); [|by exists 0].
    destruct (get_total (drop (Z.to_nat (Uint64 (be_val v1))) rest) n Hn) as (b & r & -> & _ & Hb).
    eexists. split; [done|]. apply be_val_range, Hb. by apply Forall_drop. }
  destruct Hhead as (h & -> & Hh). destruct (adj_nonneg (be_val v2) h Hh) as [Ha1 Ha2].
  exists (be_val v1), (be_val v2), (be_val v3), t1, t2, t3, v1, v2, v3, (adjustedExponentLength (be_val v2) h).
  split_and!; try done; try lia.
  destruct (1 <=? adjustedExponentLength (be_val v2) h); reflexivity.
Qed.

Lemma leftPad_length buf n : length (leftPad buf n) = Nat.max (length buf) n.
Proof.
  unfold leftPad. destruct (Nat.ltb_spec n (length buf)); [lia|].
  rewrite length_app, length_replicate. lia.
Qed.

Lemma leftPad_ok buf n : bytes_ok buf -> bytes_ok (leftPad buf n).
Proof.
  intros Hb. unfold leftPad. destruct (_ <? _)%nat; [done|]. apply Forall_app. split; [|done].
  apply Forall_replicate. unfold byte_ok. lia.
Qed.

Lemma leftPad_Bytes n x : 0 <= x < 256 ^ Z.of_nat n -> leftPad (Bytes x) n = be_bytes n x.
Proof.
  intros Hx. destruct (be_bytes_pad n x Hx) as [Hl He]. unfold leftPad.
  rewrite (proj2 (Nat.ltb_ge _ _)) by lia. by rewrite He.
Qed.

(** The output for a modulus read from [l] bytes. *)
Lemma modExp_output base exponent val :
  bytes_ok val ->
  let modulus := be_val val in
  let res := if negb (Z.sgn modulus =? 0) then Bytes (base ^ exponent mod modulus) else [] in
  leftPad res (length val) = be_bytes (length val) (if modulus =? 0 then 0 else base ^ exponent mod modulus).
Proof.
  intros Hv modulus res. pose proof (be_val_range _ Hv) as Hr. fold modulus in Hr. unfold res.
  destruct (modulus =? 0) eqn:E; breflect.
  - rewrite E. cbn [Z.sgn Z.eqb negb]. rewrite be_bytes_0. unfold leftPad. cbn.
    by rewrite app_nil_r, Nat.sub_0_r.
  - rewrite (proj2 (Z.eqb_neq (Z.sgn modulus) 0)) by lia. cbn [negb]. apply leftPad_Bytes.
    pose proof (Z.mod_pos_bound (base ^ exponent) modulus ltac:(lia)). lia.
Qed.

Lemma modExp_safe input g :
  bytes_ok input -> modExp_gas input = Some g -> g < 2 ^ 60 ->
  exists out, modExp_run input = Some out /\ slice_ok out.
Proof.
  intros Hi Hg Hlt.
  destruct (modExp_gas_spec input Hi) as (B & E & M & t1 & t2 & t3 & v1 & v2 & v3 & adj &
    G1 & G2 & G3 & HB & HE & HM & HB0 & HE0 & HM0 & Ha & HaE & Hgas).
  rewrite Hgas in Hg. injection Hg as Hg. cbv zeta in Hg.
  set (x := multComplexity _ * _ / 20) in *.
  assert (Hx : x < 2 ^ 60).
  { destruct (IsUint64 x) eqn:Eu; [|unfold MaxUint64, two64 in Hg; lia].
    apply IsUint64_true in Eu. rewrite Uint64_small in Hg by done. lia. }
  destruct (modExp_sizes (Z.max M B) adj ltac:(lia) Ha Hx) as [HX Hadj].
  unfold modExp_run.
  destruct (getUint64_total input Hi) as (b & r1 & -> & Hr1 & u1 & G1' & Hb & _).
  rewrite G1 in G1'. injection G1' as <- <-. rewrite HB in Hb.
  destruct (getUint64_total t1 Hr1) as (e & r2 & -> & Hr2 & u2 & G2' & He & _).
  rewrite G2 in G2'. injection G2' as <- <-. rewrite HE in He.
  destruct (getUint64_total t2 Hr2) as (m & r3 & -> & Hr3 & u3 & G3' & Hm & _).
  rewrite G3 in G3'. injection G3' as <- <-. rewrite HM in Hm.
  destruct ((b =? 0) && (m =? 0)) eqn:Ez.
  { exists []. split; [done|]. split; [constructor|cbn; lia]. }
  assert (HX0 : Z.max M B <> 0).
  { intros H0. apply andb_false_iff in Ez as [Ez|Ez]; breflect; lia. }
  specialize (Hadj HX0).
  assert (HeE : e < 2 ^ 63) by (destruct (Z.lt_ge_cases 32 E) as [Hlt32|]; [specialize (HaE Hlt32)|]; lia).
  destruct (get_total t3 b ltac:(lia)) as (w1 & s1 & -> & _ & Hw1).
  destruct (get_total s1 e ltac:(lia)) as (w2 & s2 & -> & _ & Hw2).
  destruct (get_total s2 m ltac:(lia)) as (w3 & s3 & -> & Hl3 & Hw3).
  destruct (Hw1 Hr3) as [_ Hs1]. destruct (Hw2 Hs1) as [_ Hs2]. destruct (Hw3 Hs2) as [Hb3 _].
  eexists. split; [done|]. rewrite <- Hl3, modExp_output by done. split.
  - apply be_bytes_ok.
  - rewrite be_bytes_length, Hl3. lia.
Qed.

(** ** Every contract *)

Lemma modExp_gas_total input : bytes_ok input -> exists g, modExp_gas input = Some g /\ is_u64 g.
Proof.
  intros Hi. destruct (modExp_gas_spec input Hi) as (B & E & M & ? & ? & ? & ? & ? & ? & adj & Hg).
  eexists. split; [apply Hg|]. cbv zeta. destruct (IsUint64 _).
  - apply Uint64_range.
  - unfold is_u64, MaxUint64, two64. lia.
Qed.

Lemma slice_ok_short b : bytes_ok b -> (length b <= 64)%nat -> slice_ok b.
Proof. intros. split; [done|lia]. Qed.

Section Contracts.
Context `{Codec} `{!CodecLaws} `{CryptoLib} `{!CryptoLaws} {W : Type} `{Host W}.

Lemma p_gas_total p input cfg : slice_ok input -> exists g, p_gas p input cfg = Some g /\ is_u64 g.
Proof.
  intros [Hi _]. destruct p; cbn [p_gas]; try (by apply modExp_gas_total);
    eexists; (split; [done|]); try apply u64_range; try (repeat case_match; done).
  - unfold bn256Pairing_gas. case_match; apply u64_range.
  - unfold blake2f_gas. case_match; [done|].
    pose proof (be_val_range _ (Forall_take _ 4 _ Hi)) as Hr. rewrite length_take in Hr.
    pose proof (Z.pow_le_mono_r 256 (Z.of_nat (Nat.min 4 (length input))) 4 ltac:(lia) ltac:(lia)).
    unfold is_u64, two64. lia.
Qed.

Lemma ecrecover_run_ok input :
  exists out, ecrecover_run input = Some out /\ slice_ok out.
Proof.
  unfold ecrecover_run. destruct (get_total input 128 ltac:(lia)) as (b & r & -> & _ & _).
  assert (Hnil : slice_ok []) by (split; [constructor|cbn; lia]).
  destruct (negb _); [by eexists|]. destruct (negb _); [by eexists|].
  destruct (Ecrecover _ _); [|by eexists]. eexists. split; [done|]. apply slice_ok_short.
  - apply leftPad_ok, Forall_drop, keccak256_bytes.
  - rewrite leftPad_length, length_drop, keccak256_length. lia.
Qed.

(** The result of a contract without effect on the host. *)
Definition pure_ok (o : option (result VMErr (list Z))) : Prop :=
  exists r, o = Some r /\ match r with Ok b => slice_ok b | Err _ => True end.

Lemma G1_slice g : slice_ok (G1_Marshal g).
Proof. destruct (G1_size g). apply slice_ok_short; [done|lia]. Qed.

Lemma abi_bool_slice b : slice_ok (abi_EncodeBool b).
Proof. destruct (abi_bool_size b). apply slice_ok_short; [done|lia]. Qed.

Lemma bn256Add_run_ok input : pure_ok (bn256Add_run input).
Proof.
  unfold bn256Add_run. destruct (get_total input 64 ltac:(lia)) as (b & r & -> & _ & _).
  destruct (G1_Unmarshal b); [|by eexists].
  destruct (get_total r 64 ltac:(lia)) as (b' & r' & -> & _ & _).
  destruct (G1_Unmarshal b'); [|by eexists]. eexists. split; [done|]. apply G1_slice.
Qed.

Lemma bn256Mul_run_ok input : pure_ok (bn256Mul_run input).
Proof.
  unfold bn256Mul_run. destruct (get_total input 64 ltac:(lia)) as (b & r & -> & _ & _).
  destruct (G1_Unmarshal b); [|by eexists].
  destruct (get_total r 32 ltac:(lia)) as (b' & r' & -> & _ & _).
  eexists. split; [done|]. apply G1_slice.
Qed.

Lemma pairing_points_total n input : is_Some (pairing_points n input).
Proof.
  revert input. induction n as [|n IH]; intros input; cbn [pairing_points]; [by eexists|].
  destruct (get_total input 64 ltac:(lia)) as (b & r & -> & _ & _).
  destruct (G1_Unmarshal b); [|by eexists].
  destruct (get_total r 128 ltac:(lia)) as (b' & r' & -> & _ & _).
  destruct (G2_Unmarshal b'); [|by eexists].
  destruct (IH r') as [[[ar br]|e] ->]; by eexists.
Qed.

Lemma bn256Pairing_run_ok input : pure_ok (bn256Pairing_run input).
Proof.
  unfold bn256Pairing_run. destruct (_ =? 0)%nat; [eexists; split; [done|apply abi_bool_slice]|].
  destruct (negb _); [by eexists|].
  destruct (pairing_points_total (length input / 192) input) as [[[ar br]|e] ->]; eexists;
    (split; [done|]); [apply abi_bool_slice|done].
Qed.

Lemma blake2f_run_ok input : pure_ok (Some (blake2f_run input)).
Proof.
  eexists. split; [done|]. unfold blake2f_run. destruct (negb _); [done|]. destruct (_ && _); [done|].
  apply slice_ok_short.
  - apply Forall_bind, Forall_forall. intros x _. apply Forall_rev, be_bytes_ok.
  - unfold F. cbn [seq fmap list_fmap]. cbn [mbind list_bind].
    rewrite !length_app, !length_rev, !be_bytes_length. cbn. lia.
Qed.

Lemma bls_run_ok input : pure_ok (Some (bls_run input)).
Proof.
  eexists. split; [done|]. unfold bls_run. repeat case_match; simplify_eq; try done.
  apply abi_bool_slice.
Qed.

(** The effect of a contract: none, or a transfer for the native token. *)
Definition p_effect (p : precompile) (caller : Address) (w w' : W) : Prop :=
  w' = w \/
  p = nativeTransfer /\ caller = NativeERC20TokenContract /\
  exists from to amount e, word amount /\ HTransfer w from to (Some amount) = (e, w').

Lemma nativeTransfer_run_ok input caller w :
  bytes_ok input -> let '(out, _, w') := nativeTransfer_run input caller w in
  slice_ok out /\ p_effect nativeTransfer caller w w'.
Proof.
  intros Hi. unfold nativeTransfer_run. destruct (_ <? _)%nat; [split; [apply abi_bool_slice|by left]|].
  destruct (caller =? _) eqn:E; breflect; cbn [negb]; [|split; [apply abi_bool_slice|by left]].
  destruct (HTransfer w _ _ _) as [[e|] w'] eqn:Et; (split; [apply abi_bool_slice|]); right;
    (split; [done|]); (split; [done|]); eexists _, _, _, _; (split; [|exact Et]).
  all: pose proof (be_val_range _ (Forall_take _ 32 _ (Forall_drop _ 64 _ Hi))) as Hr;
    rewrite length_take, length_drop in Hr; unfold word;
    pose proof (Z.pow_le_mono_r 256 (Z.of_nat (Nat.min 32 (length input - 64))) 32 ltac:(lia) ltac:(lia));
    change (2 ^ 256) with (256 ^ 32); lia.
Qed.

Lemma p_run_ok p input caller w cfg g :
  slice_ok input -> p_gas p input cfg = Some g -> g < 2 ^ 60 ->
  exists out e w', p_run p input caller w = Some (out, e, w') /\ slice_ok out /\
    p_effect p caller w w'.
Proof.
  intros Hi Hg Hlt. pose proof Hi as [Hb _].
  assert (Hpure : forall o, pure_ok o -> exists out e w', pure_run o w = Some (out, e, w') /\
    slice_ok out /\ p_effect p caller w w').
  { intros o ([b|e] & -> & Hr); eexists _, _, w; (split; [done|]); (split; [|by left]);
      [done|]. by split; [constructor|cbn; lia]. }
  destruct p; cbn [p_run]; try (apply Hpure).
  - destruct (ecrecover_run_ok input) as (out & -> & Ho). by exists (Ok out).
  - eexists _, _, w. split; [done|]. split; [|by left]. destruct (sha256_size input).
    apply slice_ok_short; [done|lia].
  - eexists _, _, w. split; [done|]. split; [|by left]. destruct (ripemd160_size input).
    apply slice_ok_short; [by apply leftPad_ok|rewrite leftPad_length; lia].
  - eexists _, _, w. split; [done|]. split; [done|by left].
  - destruct (modExp_safe input g Hb Hg Hlt) as (out & -> & Ho). by exists (Ok out).
  - apply bn256Add_run_ok.
  - apply bn256Mul_run_ok.
  - apply bn256Pairing_run_ok.
  - apply blake2f_run_ok.
  - pose proof (nativeTransfer_run_ok input caller w Hb) as Hn.
    destruct (nativeTransfer_run input caller w) as [[out e] w']. by exists out, e, w'.
  - apply bls_run_ok.
Qed.

Lemma precompiled_Run_ok c w cfg :
  contract_ok c -> c_Gas c < 2 ^ 60 -> precompiled_CanRun c cfg = true ->
  exists p r w', find_contract (c_CodeAddress c) = Some p /\
    precompiled_Run c w cfg = Some (r, w') /\ result_ok c r /\ p_effect p (c_Caller c) w w'.
Proof.
  intros Hc Hg Hrun. unfold precompiled_CanRun in Hrun. unfold precompiled_Run.
  destruct (find_contract _) as [p|] eqn:Ef; [|done]. exists p.
  destruct (p_gas_total p (c_Input c) cfg (co_input _ Hc)) as (g & Hpg & Hgu). rewrite Hpg.
  pose proof (co_gas _ Hc) as Hcg. unfold is_u64 in *.
  assert (Hnil : slice_ok []) by (split; [constructor|cbn; lia]).
  destruct (c_Gas c <? g) eqn:E; breflect.
  { eexists _, w. split; [done|]. split; [done|]. split; [split; cbn; [done|lia]|by left]. }
  destruct (p_run_ok p (c_Input c) (c_Caller c) w cfg g (co_input _ Hc) Hpg ltac:(lia))
    as (out & e & w' & -> & Ho & He).
  destruct e as [e|]; eexists _, w'; (split; [done|]); (split; [done|]); (split; [|done]);
    split; cbn; try done; [lia|]. rewrite u64_small; lia.
Qed.

End Contracts.

(** ** [modExp] computes modular powers *)

Lemma getUint64_app n rest :
  0 <= n < two64 -> getUint64 (be_bytes 32 n ++ rest) = Some (n, rest).
Proof.
  intros Hn. unfold getUint64. pose proof (get_app (be_bytes 32 n) rest) as Hg.
  rewrite be_bytes_length in Hg. change (Z.of_nat 32) with 32 in Hg. rewrite (Hg ltac:(lia)).
  do 2 f_equal. change 32%nat with (24 + 8)%nat. rewrite be_bytes_app.
  rewrite drop_app_length' by (by rewrite be_bytes_length). rewrite be_val_bytes.
  apply Z.mod_small. exact Hn.
Qed.

(** On an input that announces the sizes of its three operands, [modExp]
    returns the modular power as a byte string of the size of the modulus (zero
    if the modulus is), whatever follows the operands. *)
Theorem modExp_correct base exponent modulus rest :
  bytes_ok modulus ->
  Z.of_nat (length base) < 2 ^ 63 -> Z.of_nat (length exponent) < 2 ^ 63 ->
  Z.of_nat (length modulus) < 2 ^ 63 ->
  modExp_run (be_bytes 32 (Z.of_nat (length base)) ++ be_bytes 32 (Z.of_nat (length exponent)) ++
              be_bytes 32 (Z.of_nat (length modulus)) ++ base ++ exponent ++ modulus ++ rest) =
  Some (be_bytes (length modulus)
    (if be_val modulus =? 0 then 0 else be_val base ^ be_val exponent mod be_val modulus)).
Proof.
  intros Hm Hlb Hle Hlm. unfold modExp_run.
  rewrite !getUint64_app by (unfold two64; lia).
  destruct (_ && _) eqn:Ez; breflect.
  - replace (length modulus) with 0%nat by lia. done.
  - rewrite !get_app by done. rewrite Nat2Z.id. by rewrite modExp_output.
Qed.

Lemma modExp_correct_witness :
  modExp_run (be_bytes 32 1 ++ be_bytes 32 1 ++ be_bytes 32 2 ++ [3] ++ [200] ++ [1; 244] ++ []) =
  Some [0; 1].
Proof.
  assert (Hm : bytes_ok [1; 244]) by (repeat constructor; unfold byte_ok; lia).
  exact (modExp_correct [3] [200] [1; 244] [] Hm ltac:(cbn; lia) ltac:(cbn; lia) ltac:(cbn; lia)).
Defined.
