(* ===== verification/Executor.v ===== *)
(** * The state transition ([state/executor.go])

    [Transition] applies transactions to the state of a block. It is the host of
    the runtimes: a call runs a precompiled contract, an allow list or the
    virtual machine, which call back through [Callx]. The nesting is bounded by
    the depth check, so [callx] recurses on a fuel; running out of fuel is a
    panic ([None]), which [ExecutorInv] excludes for [callFuel].

    Not modelled: the tracer callbacks, [WriteGenesis] and the direct setters for
    tests. The state root is produced by the trie behind the snapshot and is not
    part of this file. *)

From S2P Require Import Prelude ChainTypes BigInt Runtime Receipts EvmState EvmInstr EvmRun.
From S2P Require Import StateTxn Precompiled.
Local Open Scope go_scope.

Definition SpuriousDragonMaxCodeSize : Z := 24576.

Definition SystemCaller : Address := 0xfffffffffffffffffffffffffffffffffffffffe.
Definition AllowListContractsAddr : Address := 0x0200000000000000000000000000000000000000.
Definition AllowListTransactionsAddr : Address := 0x0200000000000000000000000000000000000002.

Inductive ApplyErr :=
| ErrNonceIncorrect | ErrNotEnoughFundsForGas | ErrBlockLimitReached | ErrIntrinsicGasOverflow
| ErrNotEnoughIntrinsicGas | ErrStateTxGasPrice | ErrStateTxGas | ErrStateTxSender | ErrStateTxTo
| ErrTxSender.

(** [GasLimitReachedTransitionApplicationError] is the case [gasLimitReached]. *)
Record TransitionApplicationError := mkAppErr {
  ae_Err : ApplyErr; IsRecoverable : bool; gasLimitReached : bool }.

Definition NewTransitionApplicationError (e : ApplyErr) (isRecoverable : bool) :=
  mkAppErr e isRecoverable false.
Definition NewGasLimitReachedTransitionApplicationError (e : ApplyErr) := mkAppErr e true true.

(** The parts of the chain parameters the executor reads. *)
Record Params := mkParams {
  p_Forks : Forks; p_ChainID : Z; ContractDeployerAllowList : bool; TransactionsAllowList : bool }.

Record Transition (T : Type -> Type) (C : Type) := mkTransition {
  t_config : ForksInTime; t_state : Txn T C; t_getHash : Z -> Hash; t_ctx : TxContext;
  t_gasPool : Z; t_receipts : list Receipt; t_totalGas : Z;
  t_deploymentAllowlist : option Address; t_txnAllowList : option Address }.
Arguments mkTransition {T C}. Arguments t_config {T C}. Arguments t_state {T C}.
Arguments t_getHash {T C}. Arguments t_ctx {T C}. Arguments t_gasPool {T C}.
Arguments t_receipts {T C}. Arguments t_totalGas {T C}. Arguments t_deploymentAllowlist {T C}.
Arguments t_txnAllowList {T C}.

Section Executor.
Context {T : Type -> Type} `{Radix T} {C : Type} `{Lru Address (list Z) C}.
Context `{Codec} `{CryptoLib} `{AllowListABI}.

Abbreviation Txn := (Txn T C).
Abbreviation Transition := (Transition T C).
Implicit Types t : Transition.

Definition set_state (s : Txn) t : Transition :=
  mkTransition (t_config t) s (t_getHash t) (t_ctx t) (t_gasPool t) (t_receipts t) (t_totalGas t)
    (t_deploymentAllowlist t) (t_txnAllowList t).
Definition set_ctx (x : TxContext) t : Transition :=
  mkTransition (t_config t) (t_state t) (t_getHash t) x (t_gasPool t) (t_receipts t) (t_totalGas t)
    (t_deploymentAllowlist t) (t_txnAllowList t).
Definition set_gasPool (g : Z) t : Transition :=
  mkTransition (t_config t) (t_state t) (t_getHash t) (t_ctx t) g (t_receipts t) (t_totalGas t)
    (t_deploymentAllowlist t) (t_txnAllowList t).
Definition set_totals (rs : list Receipt) (g : Z) t : Transition :=
  mkTransition (t_config t) (t_state t) (t_getHash t) (t_ctx t) (t_gasPool t) rs g
    (t_deploymentAllowlist t) (t_txnAllowList t).

(** ** The host *)

Definition Transfer t (from to : Address) (amount : option Z) : option VMErr * Transition :=
  match amount with
  | None => (None, t)
  | Some amount =>
      match txn_SubBalance (t_state t) from amount with
      | (Some e, s) =>
          (Some (if bool_decide (e = ErrNotEnoughFunds) then ErrInsufficientBalance else e),
           set_state s t)
      | (None, s) => (None, set_state (txn_AddBalance s to amount) t)
      end
  end.

Definition t_Selfdestruct t (addr beneficiary : Address) : Transition :=
  let s := t_state t in
  let s := if negb (HasSuicided s addr) then AddRefund s 24000 else s in
  let s := txn_AddBalance s beneficiary (txn_GetBalance s addr) in
  set_state (snd (Suicide s addr)) t.

(** The methods of [Transition] behind [runtime.Host], with [cx] for [Callx]. *)
Definition transition_host (cx : Transition -> Contract -> option (ExecutionResult * Transition)) :
  Host Transition := {|
  AccountExists := fun t a => Exist (t_state t) a;
  GetStorage := fun t a k => txn_GetState (t_state t) a k;
  SetStorage := fun t a k v cfg =>
    let '(st, s) := txn_SetStorage (t_state t) a k v cfg in (st, set_state s t);
  HSetState := fun t a k v => set_state (txn_SetState (t_state t) a k v) t;
  HGetBalance := fun t a => txn_GetBalance (t_state t) a;
  GetCodeSize := fun t a => let '(n, s) := txn_GetCodeSize (t_state t) a in (n, set_state s t);
  GetCodeHash := fun t a => txn_GetCodeHash (t_state t) a;
  GetCode := fun t a => let '(c, s) := txn_GetCode (t_state t) a in (c, set_state s t);
  Selfdestruct := t_Selfdestruct;
  GetTxContext := fun t => t_ctx t;
  GetBlockHash := fun t n => t_getHash t (u64 n);
  EmitLog := fun t a ts d => set_state (txn_EmitLog (t_state t) a ts d) t;
  Callx := cx;
  Empty := fun t a => txn_Empty (t_state t) a;
  HGetNonce := fun t a => txn_GetNonce (t_state t) a;
  HTransfer := Transfer;
  HGetRefund := fun t => txn_GetRefund (t_state t) |}.

(** ** Calls *)

Section Calls.
Context (cx : Transition -> Contract -> option (ExecutionResult * Transition)).

(** The last part of [run]; [evm.CanRun] is always true. *)
Definition run_contract t (c : Contract) : option (ExecutionResult * Transition) :=
  if precompiled_CanRun c (t_config t)
  then precompiled_Run (H1 := transition_host cx) c t (t_config t)
  else EVM_Run (H := transition_host cx) c t (t_config t).

Definition failure (gasLeft : Z) (e : VMErr) : ExecutionResult :=
  mkResult [] gasLeft 0 (Some e) ZeroAddress.

Definition run t (c : Contract) : option (ExecutionResult * Transition) :=
  if bool_decide (t_deploymentAllowlist t = Some (c_CodeAddress c))
  then Some (allowlist_Run (H := transition_host cx) (c_CodeAddress c) c t)
  else
    match t_txnAllowList t with
    | None => run_contract t c
    | Some a =>
        if a =? c_CodeAddress c then Some (allowlist_Run (H := transition_host cx) a c t)
        else if negb (c_Caller c =? SystemCaller)
                && negb (Enabled (GetRole (H := transition_host cx) a t (c_Caller c)))
        then Some (failure 0 (ErrOther 5), t)
        else run_contract t c
    end.

(** [t.state.RevertToSnapshot(id)] *)
Definition revert (id : Z) t : option Transition :=
  match RevertToSnapshot id (t_state t) with
  | Some s => Some (set_state s t)
  | None => None
  end.

Definition applyCall t (c : Contract) (callType : CallType) :
  option (ExecutionResult * Transition) :=
  if 1024 + 1 <? c_Depth c then Some (failure (c_Gas c) ErrDepth, t)
  else
    let '(snapshot, s) := txn_Snapshot (t_state t) in
    let t := set_state (TouchAccount s (c_Address c)) t in
    let '(err, t) :=
      match callType with
      | Call => Transfer t (c_Caller c) (c_Address c) (c_Value c)
      | _ => (None, t)
      end in
    match err with
    | Some e => Some (failure (c_Gas c) e, t)
    | None =>
        match run t c with
        | None => None
        | Some (result, t) =>
            if Failed result
            then match revert snapshot t with Some t => Some (result, t) | None => None end
            else Some (result, t)
        end
    end.

Definition hasCodeOrNonce t (addr : Address) : bool :=
  if negb (txn_GetNonce (t_state t) addr =? 0) then true
  else
    let codeHash := txn_GetCodeHash (t_state t) addr in
    negb (codeHash =? BytesToHash (keccak256 [])) && negb (codeHash =? 0).

(** [applyCreate] after the contract has run. *)
Definition store_code t (c : Contract) (snapshot : Z) (result : ExecutionResult) :
  option (ExecutionResult * Transition) :=
  let len := Z.of_nat (length (ReturnValue result)) in
  if EIP158 (t_config t) && (SpuriousDragonMaxCodeSize <? len) then
    match revert snapshot t with
    | Some t => Some (failure 0 ErrRtMaxCodeSizeExceeded, t)
    | None => None
    end
  else
    let gasCost := u64 len *u 200 in
    if GasLeft result <? gasCost then
      if Homestead (t_config t) then
        match revert snapshot t with
        | Some t => Some (mkResult [] 0 (GasUsed result) (Some ErrCodeStoreOutOfGas) (ResAddress result), t)
        | None => None
        end
      else Some (mkResult [] (GasLeft result) (GasUsed result) (Some ErrCodeStoreOutOfGas)
                   (ResAddress result), t)
    else
      Some (mkResult (ReturnValue result) (GasLeft result -u gasCost) (GasUsed result) (ResErr result)
              (c_Address c),
            set_state (txn_SetCode (t_state t) (c_Address c) (ReturnValue result)) t).

Definition applyCreate t (c : Contract) : option (ExecutionResult * Transition) :=
  if 1024 + 1 <? c_Depth c then Some (failure (c_Gas c) ErrDepth, t)
  else
    let t := set_state (IncrNonce (t_state t) (c_Caller c)) t in
    if hasCodeOrNonce t (c_Address c) then Some (failure 0 ErrContractAddressCollision, t)
    else
      let '(snapshot, s) := txn_Snapshot (t_state t) in
      let s := if EIP158 (t_config t) then IncrNonce (CreateAccount s (c_Address c)) (c_Address c)
               else s in
      let t := set_state s t in
      match Transfer t (c_Caller c) (c_Address c) (c_Value c) with
      | (Some e, t) => Some (failure (c_Gas c) e, t)
      | (None, t) =>
          let allowed :=
            match t_deploymentAllowlist t with
            | Some a => Enabled (GetRole (H := transition_host cx) a t (c_Caller c))
            | None => true
            end in
          if negb allowed then Some (failure 0 ErrNotAuth, t)
          else
            match run t c with
            | None => None
            | Some (result, t) =>
                if Failed result
                then match revert snapshot t with Some t => Some (result, t) | None => None end
                else store_code t c snapshot result
            end
      end.

Definition t_Callx t (c : Contract) : option (ExecutionResult * Transition) :=
  match c_Type c with
  | Create => applyCreate t c
  | ty => applyCall t c ty
  end.
End Calls.

(** Calls of calls, to depth [n]. *)
Fixpoint callx (n : nat) t (c : Contract) : option (ExecutionResult * Transition) :=
  match n with
  | O => None
  | S n => t_Callx (callx n) t c
  end.

(** Frames have depth 1 to 1025; at depth 1026 the check answers. *)
Definition callFuel : nat := 1026.

(** ** Transactions *)

(** [Callx] with enough fuel for every depth. *)
Definition nested : Transition -> Contract -> option (ExecutionResult * Transition) :=
  callx callFuel.

Definition t_Create2 t (caller : Address) (code : list Z) (value gas : Z) :
  option (ExecutionResult * Transition) :=
  let address := CreateAddress caller (txn_GetNonce (t_state t) caller) in
  applyCreate nested t (NewContractCreation 1 caller caller address (Some value) gas code).

Definition t_Call2 t (caller to : Address) (input : list Z) (value gas : Z) :
  option (ExecutionResult * Transition) :=
  let '(code, s) := txn_GetCode (t_state t) to in
  let t := set_state s t in
  applyCall nested t (NewContractCall 1 caller caller to (Some value) gas code input) Call.

Definition subGasPool t (amount : Z) : option Transition :=
  if t_gasPool t <? amount then None else Some (set_gasPool (t_gasPool t -u amount) t).

Definition addGasPool t (amount : Z) : Transition := set_gasPool (t_gasPool t +u amount) t.

Definition subGasLimitPrice t (msg : Transaction) : option ApplyErr * Transition :=
  let upfrontGasCost := GasPrice msg * Gas msg in
  match txn_SubBalance (t_state t) (From msg) upfrontGasCost with
  | (Some _, s) => (Some ErrNotEnoughFundsForGas, set_state s t)
  | (None, s) => (None, set_state s t)
  end.

Definition nonceCheck t (msg : Transaction) : option ApplyErr :=
  if negb (txn_GetNonce (t_state t) (From msg) =? Nonce msg) then Some ErrNonceIncorrect else None.

Definition checkAndProcessLegacyTx (msg : Transaction) t :
  option TransitionApplicationError * Transition :=
  match nonceCheck t msg with
  | Some e => (Some (NewTransitionApplicationError e true), t)
  | None =>
      match subGasLimitPrice t msg with
      | (Some e, t) => (Some (NewTransitionApplicationError e true), t)
      | (None, t) => (None, t)
      end
  end.

Definition checkAndProcessStateTx (msg : Transaction) : option TransitionApplicationError :=
  if negb (GasPrice msg =? 0) then Some (NewTransitionApplicationError ErrStateTxGasPrice true)
  else if negb (Gas msg =? StateTransactionGasLimit)
  then Some (NewTransitionApplicationError ErrStateTxGas true)
  else if negb (From msg =? SystemCaller)
  then Some (NewTransitionApplicationError ErrStateTxSender true)
  else
    match To msg with
    | None => Some (NewTransitionApplicationError ErrStateTxTo true)
    | Some a => if a =? ZeroAddress then Some (NewTransitionApplicationError ErrStateTxTo true)
                else None
    end.

Definition set_tx_context t (gasPrice : Hash) (origin : Address) : Transition :=
  let x := t_ctx t in
  set_ctx {| ctx_GasPrice := gasPrice; ctx_Origin := origin; ctx_Coinbase := ctx_Coinbase x;
             ctx_Number := ctx_Number x; ctx_Timestamp := ctx_Timestamp x;
             ctx_GasLimit := ctx_GasLimit x; ctx_ChainID := ctx_ChainID x;
             ctx_Difficulty := ctx_Difficulty x |} t.

(** [apply] once the gas left after the intrinsic cost is known. *)
Definition execute t (msg : Transaction) (gasLeft : Z) : option (ExecutionResult * Transition) :=
  let t := set_tx_context t (BytesToHash (Bytes (GasPrice msg))) (From msg) in
  match To msg with
  | None => t_Create2 t (From msg) (Input msg) (TxValue msg) gasLeft
  | Some to =>
      let t := set_state (IncrNonce (t_state t) (From msg)) t in
      t_Call2 t (From msg) to (Input msg) (TxValue msg) gasLeft
  end.

(** The end of [apply]: refund, fees, gas pool. *)
Definition settle t (msg : Transaction) (result : ExecutionResult) :
  ExecutionResult * Transition :=
  let result := UpdateGasUsed (Gas msg) (txn_GetRefund (t_state t)) result in
  let s := txn_AddBalance (t_state t) (From msg) (GasLeft result * GasPrice msg) in
  let s := txn_AddBalance s (ctx_Coinbase (t_ctx t)) (GasUsed result * GasPrice msg) in
  (result, addGasPool (set_state s t) (GasLeft result)).

Abbreviation Outcome := (option (result TransitionApplicationError ExecutionResult * Transition)).

Definition apply t (msg : Transaction) : Outcome :=
  let '(err, t) := if TxType msg =? StateTx then (checkAndProcessStateTx msg, t)
                   else checkAndProcessLegacyTx msg t in
  match err with
  | Some e => Some (Err e, t)
  | None =>
      match subGasPool t (Gas msg) with
      | None => Some (Err (NewGasLimitReachedTransitionApplicationError ErrBlockLimitReached), t)
      | Some t =>
          match TransactionGasCost msg (Homestead (t_config t)) (Istanbul (t_config t)) with
          | None => Some (Err (NewTransitionApplicationError ErrIntrinsicGasOverflow false), t)
          | Some intrinsicGasCost =>
              let gasLeft := Gas msg -u intrinsicGasCost in
              if Gas msg <? gasLeft
              then Some (Err (NewTransitionApplicationError ErrNotEnoughIntrinsicGas false), t)
              else
                match execute t msg gasLeft with
                | None => None
                | Some (result, t) => let '(result, t) := settle t msg result in Some (Ok result, t)
                end
          end
      end
  end.

Section Block.
(** The hook of the consensus engine and the signer. *)
Context (PostHook : option (Transition -> Transition)) (Sender : Transaction -> option Address).

Definition Apply t (msg : Transaction) : Outcome :=
  let '(s, st) := txn_Snapshot (t_state t) in
  match apply (set_state st t) msg with
  | None => None
  | Some (r, t) =>
      let reverted := match r with Err _ => revert s t | Ok _ => Some t end in
      match reverted with
      | None => None
      | Some t => Some (r, match PostHook with Some f => f t | None => t end)
      end
  end.

(** The sender, recovered if the transaction does not carry it. *)
Definition recover_from (txn : Transaction) : option Transaction :=
  if (From txn =? ZeroAddress) && (TxType txn =? LegacyTx) then
    match Sender txn with
    | None => None
    | Some a => Some (set_From a txn)
    end
  else Some txn.

Abbreviation Written := (option (option TransitionApplicationError * Transition)).

Definition sender_error : TransitionApplicationError := NewTransitionApplicationError ErrTxSender false.

Definition WriteFailedReceipt t (txn : Transaction) : Written :=
  match recover_from txn with
  | None => Some (Some sender_error, t)
  | Some txn =>
      let '(logs, s) := txn_Logs (t_state t) in
      let receipt := mkReceipt ZeroHash (t_totalGas t) [] logs None 0 None (TxHash txn) (TxType txn) in
      let bloom := CreateBloom [receipt] in
      let address := match To txn with None => Some (CreateAddress (From txn) (Nonce txn)) | Some _ => None end in
      let receipt := mkReceipt ZeroHash (t_totalGas t) bloom logs (Some ReceiptFailed) 0 address
                       (TxHash txn) (TxType txn) in
      Some (None, set_totals (t_receipts t ++ [receipt]) (t_totalGas t) (set_state s t))
  end.

(** [Write] after the transaction has been applied. *)
Definition write_receipt t (txn : Transaction) (result : ExecutionResult) : Written :=
  let totalGas := t_totalGas t +u GasUsed result in
  let '(logs, s) := txn_Logs (t_state t) in
  match CleanDeleteObjects s true with
  | None => None
  | Some s =>
      let status := if Failed result then ReceiptFailed else ReceiptSuccess in
      let address := match To txn with None => Some (CreateAddress (From txn) (Nonce txn)) | Some _ => None end in
      let receipt bloom := mkReceipt ZeroHash totalGas bloom logs (Some status) (GasUsed result) address
                             (TxHash txn) (TxType txn) in
      let receipt := receipt (CreateBloom [receipt []]) in
      Some (None, set_totals (t_receipts t ++ [receipt]) totalGas (set_state s t))
  end.

Definition Write t (txn : Transaction) : Written :=
  match recover_from txn with
  | None => Some (Some sender_error, t)
  | Some txn =>
      match Apply t txn with
      | None => None
      | Some (Err e, t) => Some (Some e, t)
      | Some (Ok result, t) => write_receipt t txn result
      end
  end.

(** ** Blocks *)

(** One transaction of [ProcessBlock]; after an error nothing more is done. *)
Definition process_tx (gasLimit : Z) (acc : Written) (tx : Transaction) : Written :=
  match acc with
  | None => None
  | Some (Some e, t) => Some (Some e, t)
  | Some (None, t) => if ExceedsBlockGasLimit tx gasLimit then WriteFailedReceipt t tx else Write t tx
  end.

Definition BeginTxn (config : Params) (snap : readSnapshot) (getHash : Z -> Hash)
  (header : Header) (coinbaseReceiver : Address) : Transition :=
  let txCtx := {|
    ctx_GasPrice := 0; ctx_Origin := 0; ctx_Coinbase := coinbaseReceiver;
    ctx_Number := i64 (h_Number header); ctx_Timestamp := i64 (h_Timestamp header);
    ctx_GasLimit := i64 (h_GasLimit header); ctx_ChainID := p_ChainID config;
    ctx_Difficulty := BytesToHash (Bytes (h_Difficulty header)) |} in
  mkTransition (Forks_At (p_Forks config) (h_Number header)) (newTxn snap) getHash txCtx
    (u64 (ctx_GasLimit txCtx)) [] 0
    (if ContractDeployerAllowList config then Some AllowListContractsAddr else None)
    (if TransactionsAllowList config then Some AllowListTransactionsAddr else None).

(** [ProcessBlock] on the snapshot of the parent. *)
Definition ProcessBlock (config : Params) (snap : readSnapshot) (getHash : Z -> Hash)
  (header : Header) (txs : list Transaction) (blockCreator : Address) : Written :=
  fold_left (process_tx (h_GasLimit header)) txs
    (Some (None, BeginTxn config snap getHash header blockCreator)).

(** [Commit]: the objects handed to the trie. *)
Definition t_Commit t : option (list Object * Txn) := txn_Commit (t_state t) (EIP155 (t_config t)).

End Block.
End Executor.
