(* ===== verification/ExecutorInv.v ===== *)
(** * The invariant of the state transition

    [inv t0 base B t]: [t] differs from [t0] only in its state; the state is
    well-formed over the same trie, still holds the snapshots [base], and all
    balances together are at most [B]. Every call keeps it, so [Transition] is a
    lawful host of the virtual machine: [transition_laws] discharges [HostLaws],
    and [callx_ok] ties the knot by induction on the fuel. The same induction
    shows that read-only calls leave nonces, storage, logs and refunds alone. *)

From S2P Require Import Prelude ChainTypes BigInt Runtime Receipts EvmState EvmInstr EvmRun.
From S2P Require Import EvmWp EvmOk EvmProps StateTxn StateLemmas Precompiled.
From S2P Require Import PrecompiledProps Executor.
Local Open Scope go_scope.
Set Default Proof Using "Type*".

Section Inv.
Context {T : Type -> Type} `{RadixLaws T} {C : Type} `{LruLaws Address (list Z) C}.
Context `{CodecLaws} `{CryptoLaws} `{AllowListABI}.
Abbreviation Txn := (Txn T C).
Abbreviation Transition := (Transition T C).
Implicit Types (s : Txn) (t : Transition).

(** ** What a read-only call leaves alone *)

Definition obj_state (sn : readSnapshot) (a : Address) (o : StateObject T) (k : Hash) : Hash :=
  match o_Txn o with
  | Some tx => match rx_Get tx k with
               | Some v => default 0 v
               | None => sn_GetStorage sn a (a_Root (o_Account o)) k
               end
  | None => sn_GetStorage sn a (a_Root (o_Account o)) k
  end.

Lemma GetState_object s a k :
  snap_ok (snapshot s) -> txn_GetState s a k = obj_state (snapshot s) a (object_at s a) k.
Proof.
  intros Hs. unfold txn_GetState, obj_state, object_at. destruct (getStateObject s a) as [o|].
  - cbn. by destruct (o_Txn o).
  - cbn. symmetry. by apply sk_empty.
Qed.

Lemma GetNonce_object s a : txn_GetNonce s a = a_Nonce (o_Account (object_at s a)).
Proof. unfold txn_GetNonce, object_at. by destruct (getStateObject s a). Qed.

Record contents s s' : Prop := {
  ct_nonce : forall a, txn_GetNonce s' a = txn_GetNonce s a;
  ct_state : forall a k, txn_GetState s' a k = txn_GetState s a k;
  ct_logs : tr_logs (txn s') = tr_logs (txn s);
  ct_refund : tr_refund (txn s') = tr_refund (txn s) }.

#[global] Instance contents_preorder : PreOrder contents.
Proof.
  split; [by split|]. intros s1 s2 s3 [] []. split; [|intros a k|..]; try intros a; congruence.
Qed.

(** The same tree over the same snapshot. *)
Lemma contents_eq s s' : txn s' = txn s -> snapshot s' = snapshot s -> contents s s'.
Proof.
  intros Ht Hs. pose proof (getStateObject_eq s s' Ht Hs) as Hg.
  split; [intros a; unfold txn_GetNonce|intros a k; unfold txn_GetState|..];
    rewrite ?Hg, ?Hs, ?Ht; done.
Qed.

Lemma object_at_upsert s a f b :
  o_Deleted (f (object_at s a)) = false ->
  object_at (upsertAccount s a true f) b =
  if decide (a = b) then StateObject_Copy (f (object_at s a)) else object_at s b.
Proof. intros Hd. unfold object_at at 1. rewrite getStateObject_upsert by done. by case_decide. Qed.

Lemma GetNonce_keep s a f :
  o_Deleted (f (object_at s a)) = false ->
  a_Nonce (o_Account (f (object_at s a))) = a_Nonce (o_Account (object_at s a)) ->
  forall b, txn_GetNonce (upsertAccount s a true f) b = txn_GetNonce s b.
Proof. intros Hd Hn b. rewrite !GetNonce_object, object_at_upsert by done. by case_decide; subst. Qed.

(** An update that changes neither nonce nor storage. *)
Lemma contents_upsert s a f :
  snap_ok (snapshot s) -> o_Deleted (f (object_at s a)) = false ->
  a_Nonce (o_Account (f (object_at s a))) = a_Nonce (o_Account (object_at s a)) ->
  a_Root (o_Account (f (object_at s a))) = a_Root (o_Account (object_at s a)) ->
  o_Txn (f (object_at s a)) = o_Txn (object_at s a) ->
  contents s (upsertAccount s a true f).
Proof.
  intros Hs Hd Hn Hr Ht. pose proof (object_at_upsert s a f) as Ho.
  assert (Hsn : snapshot (upsertAccount s a true f) = snapshot s) by (by rewrite upsert_true).
  split; [intros b|intros b k|..]; try (by rewrite upsert_true).
  - by apply GetNonce_keep.
  - rewrite !GetState_object, Hsn by (done || by rewrite Hsn). rewrite Ho by done.
    case_decide; [subst|done]. unfold obj_state. cbn. by rewrite Ht, Hr.
Qed.

(** ** The invariant *)

Record inv (t0 : Transition) (base : list (tree T)) (B : Z) t : Prop := {
  i_frame : t = set_state (t_state t) t0;
  i_txn : txn_ok (t_state t);
  i_snap : snapshot (t_state t) = snapshot (t_state t0);
  i_base : base `prefix_of` snapshots (t_state t);
  i_sup : sup (txn_GetBalance (t_state t)) B }.

(** What the induction assumes of the block. *)
Record block_ok (t0 : Transition) (B : Z) : Prop := {
  bk_ctx : context_ok (t_ctx t0);
  bk_hash : forall n, word (t_getHash t0 n);
  bk_eip150 : EIP150 (t_config t0) = true;
  bk_supply : B < 2 ^ 256 }.

(** A change of the state that keeps its parts. *)
Lemma inv_state t0 base B t s' :
  inv t0 base B t -> txn_ok s' -> snapshot s' = snapshot (t_state t) ->
  snapshots s' = snapshots (t_state t) -> sup (txn_GetBalance s') B ->
  inv t0 base B (set_state s' t).
Proof.
  intros [Hf _ Hn Hb _] Hs Hsn Hss Hsup. split; cbn; try done.
  - by rewrite Hf.
  - by rewrite Hsn.
  - by rewrite Hss.
Qed.

Lemma upsert_snapshot s a cr f : snapshot (upsertAccount s a cr f) = snapshot s.
Proof. unfold upsertAccount. by repeat case_match. Qed.
Lemma upsert_snapshots s a cr f : snapshots (upsertAccount s a cr f) = snapshots s.
Proof. unfold upsertAccount. by repeat case_match. Qed.

Lemma inv_upsert t0 base B t a cr f :
  inv t0 base B t -> txn_ok (upsertAccount (t_state t) a cr f) ->
  sup (txn_GetBalance (upsertAccount (t_state t) a cr f)) B ->
  inv t0 base B (set_state (upsertAccount (t_state t) a cr f) t).
Proof. intros Hi Ho Hs. apply inv_state; auto using upsert_snapshot, upsert_snapshots. Qed.

(** An update that keeps the balances. *)
Lemma inv_keep t0 base B t s' :
  inv t0 base B t -> txn_ok s' -> snapshot s' = snapshot (t_state t) ->
  snapshots s' = snapshots (t_state t) ->
  (forall b, txn_GetBalance s' b = txn_GetBalance (t_state t) b) -> inv t0 base B (set_state s' t).
Proof. intros Hi ? ? ? Hb. apply inv_state; [done..|]. eapply sup_eq; [exact Hb|apply Hi]. Qed.

Lemma balance_word t0 base B t a :
  block_ok t0 B -> inv t0 base B t -> word (txn_GetBalance (t_state t) a).
Proof.
  intros Hk Hi. pose proof (sup_single _ _ a (i_sup _ _ _ _ Hi)).
  pose proof (GetBalance_nonneg (t_state t) a). pose proof (bk_supply _ _ Hk). unfold word. lia.
Qed.

Lemma Transfer_ok t0 base B t a b amount :
  inv t0 base B t -> (forall v, amount = Some v -> 0 <= v) ->
  inv t0 base B (snd (Transfer t a b amount)) /\
  contents (t_state t) (t_state (snd (Transfer t a b amount))).
Proof.
  intros Hi Hv. unfold Transfer. destruct amount as [v|]; [|done]. specialize (Hv v eq_refl).
  pose proof (SubBalance_ok (t_state t) a v (i_txn _ _ _ _ Hi)) as Hok.
  assert (Hsn : snap_ok (snapshot (t_state t))) by apply Hi.
  destruct (Sub_spec (t_state t) a v Hv) as [(e & He & -> & _)|(s1 & He & _ & Hsh & _)];
    rewrite He in *; cbn [snd] in *.
  { split; [|done]. apply inv_keep; [done..|]. done. }
  assert (Hs1 : snapshot s1 = snapshot (t_state t) /\ snapshots s1 = snapshots (t_state t) /\
                contents (t_state t) s1).
  { destruct Hsh as [[-> _]| ->]; [done|]. split_and!; [apply upsert_snapshot|apply upsert_snapshots|].
    by apply contents_upsert; [|apply object_at_live|..]. }
  destruct Hs1 as (Hs1 & Hs2 & Hs3). split.
  - apply inv_state; [done|by apply AddBalance_ok|..].
    + unfold txn_AddBalance. by rewrite upsert_snapshot.
    + unfold txn_AddBalance. by rewrite upsert_snapshots.
    + eapply sup_transfer; [done|exact He|apply Hi].
  - etrans; [exact Hs3|]. cbn. apply contents_upsert; [by rewrite Hs1|apply object_at_live|done..].
Qed.

(** ** [Transition] as a lawful host *)

Lemma inv_cache t0 base B t c :
  inv t0 base B t -> cache_ok c -> inv t0 base B (set_state (set_cache c (t_state t)) t).
Proof.
  intros Hi Hc. pose proof (i_txn _ _ _ _ Hi) as [Hn Ht _ Hr].
  apply inv_keep; [done|by split|done|done|]. intros b. unfold txn_GetBalance.
  by rewrite (getStateObject_eq (t_state t)).
Qed.

Lemma GetCode_inv t0 base B t a :
  inv t0 base B t ->
  slice_ok (fst (txn_GetCode (t_state t) a)) /\
  inv t0 base B (set_state (snd (txn_GetCode (t_state t) a)) t) /\
  contents (t_state t) (snd (txn_GetCode (t_state t) a)).
Proof.
  intros Hi. destruct (GetCode_spec (t_state t) a (i_txn _ _ _ _ Hi)) as (Hc & Hok & c & He).
  split_and!; [done| |].
  - rewrite He in Hok |- *. apply inv_cache; [done|apply Hok].
  - rewrite He. by apply contents_eq.
Qed.

Lemma SetState_inv t0 base B t a k v :
  inv t0 base B t -> word v -> inv t0 base B (set_state (txn_SetState (t_state t) a k v) t).
Proof.
  intros Hi Hv. apply inv_keep; [done|apply SetState_ok; [apply Hi|done]|apply upsert_snapshot|
    apply upsert_snapshots|]. intros b. apply GetBalance_SetState.
Qed.

Lemma SetStorage_inv t0 base B t a k v cfg :
  inv t0 base B t -> word v ->
  inv t0 base B (set_state (snd (txn_SetStorage (t_state t) a k v cfg)) t).
Proof.
  intros Hi Hv. pose proof (SetStorage_ok (t_state t) a k v cfg (i_txn _ _ _ _ Hi) Hv) as Hok.
  destruct (SetStorage_shape (t_state t) a k v cfg) as (r & He & _). rewrite He in Hok |- *.
  apply inv_keep; [done|done|..]; cbn.
  - case_match; [done|apply upsert_snapshot].
  - case_match; [done|apply upsert_snapshots].
  - intros b. transitivity (txn_GetBalance (if txn_GetState (t_state t) a k =? v then t_state t
      else txn_SetState (t_state t) a k v) b); [done|]. case_match; [done|apply GetBalance_SetState].
Qed.

Lemma Selfdestruct_inv t0 base B t a b : inv t0 base B t -> inv t0 base B (t_Selfdestruct t a b).
Proof.
  intros Hi. unfold t_Selfdestruct.
  set (s := if negb _ then AddRefund (t_state t) 24000 else t_state t).
  assert (Hs : txn_ok s /\ snapshot s = snapshot (t_state t) /\ snapshots s = snapshots (t_state t) /\
               sup (txn_GetBalance s) B).
  { pose proof (i_txn _ _ _ _ Hi). pose proof (i_sup _ _ _ _ Hi).
    unfold s. destruct (negb _); split_and!; try done. apply set_refund_ok; [apply u64_range|done]. }
  destruct Hs as (Hok & Hn & Hss & Hsup). apply inv_state; [done|..].
  - by apply Suicide_ok, AddBalance_ok.
  - cbn. unfold txn_AddBalance. by rewrite !upsert_snapshot.
  - cbn. unfold txn_AddBalance. by rewrite !upsert_snapshots.
  - by apply sup_suicide.
Qed.

Definition transition_laws (cx : Transition -> Contract -> option (ExecutionResult * Transition))
  (d0 : Z) (t0 : Transition) (base : list (tree T)) (B : Z) :
  block_ok t0 B ->
  (forall t c, inv t0 base B t -> contract_ok c -> d0 <= c_Depth c -> c_Gas c < 2 ^ 60 ->
     exists r t', cx t c = Some (r, t') /\ inv t0 base B t' /\ result_ok c r) ->
  @HostLaws Transition (transition_host cx).
Proof.
  intros Hk Hcx. refine (@Build_HostLaws Transition (transition_host cx) (inv t0 base B)
    (fun d g => d0 <= d /\ g < 2 ^ 60) _ _ _ _ _ _ _ _ _ _ _ _); cbn.
  - intros d g g' [] ?. lia.
  - intros t a. by apply balance_word.
  - intros t a k Hi. apply GetState_word, Hi.
  - intros t a k v f Hi _ Hv. pose proof (SetStorage_inv t0 base B t a k v f Hi Hv).
    by destruct (txn_SetStorage _ _ _ _ _).
  - intros t a Hi. destruct (GetCode_inv t0 base B t a Hi) as ([_ Hc] & Hi' & _).
    unfold txn_GetCodeSize. destruct (txn_GetCode _ _) as [c s']. cbn in *.
    split; [unfold is_u64, two64; lia|done].
  - intros t a Hi. apply GetCodeHash_word, Hi.
  - intros t a Hi. destruct (GetCode_inv t0 base B t a Hi) as (Hc & Hi' & _).
    by destruct (txn_GetCode _ _) as [c s'].
  - intros t a b. apply Selfdestruct_inv.
  - intros t Hi. rewrite (i_frame _ _ _ _ Hi). apply Hk.
  - intros t n Hi. rewrite (i_frame _ _ _ _ Hi). apply Hk.
  - intros t a ts d Hi. apply inv_keep; [done|apply set_logs_ok, Hi|done..].
  - intros t c Hi Hc [Hd Hg]. by apply Hcx.
Defined.

Lemma IncrNonce_inv t0 base B t a :
  inv t0 base B t -> inv t0 base B (set_state (IncrNonce (t_state t) a) t).
Proof.
  intros Hi. apply inv_keep; [done|apply IncrNonce_ok, Hi|apply upsert_snapshot|apply upsert_snapshots|].
  intros b. apply GetBalance_IncrNonce.
Qed.

Lemma CreateAccount_inv t0 base B t a :
  inv t0 base B t -> inv t0 base B (set_state (CreateAccount (t_state t) a) t).
Proof.
  intros Hi. apply inv_keep; [done|apply CreateAccount_ok, Hi|done|done|]. intros b. apply GetBalance_Create.
Qed.

(** Worlds related by [contents]. *)
Definition same_contents t t' : Prop := contents (t_state t) (t_state t').

#[global] Instance same_contents_preorder : PreOrder same_contents.
Proof. split; [intros t|intros t1 t2 t3]; unfold same_contents; [done|apply transitivity]. Qed.

(** What the induction provides about nested calls. *)
Definition calls_ok (cx : Transition -> Contract -> option (ExecutionResult * Transition))
  (d0 : Z) : Prop :=
  forall t0 base B t c, block_ok t0 B -> inv t0 base B t -> contract_ok c ->
    d0 <= c_Depth c -> c_Gas c < 2 ^ 60 ->
    exists r t', cx t c = Some (r, t') /\ inv t0 base B t' /\ result_ok c r /\
      (read_only c -> same_contents t t').

Lemma EVM_Run_inv cx d0 t0 base B t c :
  calls_ok cx d0 -> block_ok t0 B -> inv t0 base B t -> contract_ok c ->
  d0 <= c_Depth c + 1 -> c_Gas c < 2 ^ 60 ->
  exists r t', EVM_Run (H := transition_host cx) c t (t_config t) = Some (r, t') /\
    inv t0 base B t' /\ result_ok c r /\ (c_Static c = true -> same_contents t t').
Proof.
  intros Hcx Hk Hi Hc Hd Hg.
  assert (Hcx' : forall t c, inv t0 base B t -> contract_ok c -> d0 <= c_Depth c -> c_Gas c < 2 ^ 60 ->
     exists r t', cx t c = Some (r, t') /\ inv t0 base B t' /\ result_ok c r).
  { intros t1 c1 ? ? ? ?. destruct (Hcx t0 base B t1 c1) as (r & t' & ? & ? & ? & _); eauto. }
  set (laws := transition_laws cx d0 t0 base B Hk Hcx').
  assert (HR : @ReadRel Transition (transition_host cx) laws same_contents).
  { split; [apply _|..]; cbn.
    - intros t1 a Hi1. destruct (GetCode_inv t0 base B t1 a Hi1) as (_ & _ & Hct).
      by destruct (txn_GetCode _ _).
    - intros t1 a Hi1. destruct (GetCode_inv t0 base B t1 a Hi1) as (_ & _ & Hct).
      unfold txn_GetCodeSize. by destruct (txn_GetCode _ _).
    - intros t1 c1 r1 t2 Hi1 Hc1 [Hd1 Hg1] Hro He.
      destruct (Hcx t0 base B t1 c1) as (r & t' & He' & _ & _ & Hr); [done..|].
      rewrite He in He'. injection He' as -> ->. by apply Hr. }
  destruct (EVM_Run_ok (H := transition_host cx) (H0 := laws) same_contents c t (t_config t))
    as (r & t' & Hrun & Hr & Hi' & _ & _ & Hst); [done|done|done| |].
  - rewrite (i_frame _ _ _ _ Hi). apply Hk.
  - by exists r, t'.
Qed.

(** ** Runs and calls *)

Section Step.
Context (cx : Transition -> Contract -> option (ExecutionResult * Transition)) (d0 : Z).
Context (Hcx : calls_ok cx d0).

(** What a run or call from [t] ends in. *)
Definition done_ok (t0 : Transition) (base : list (tree T)) (B : Z) t (c : Contract) (P : Prop)
  (o : option (ExecutionResult * Transition)) : Prop :=
  exists r t', o = Some (r, t') /\ inv t0 base B t' /\ result_ok c r /\ (P -> same_contents t t').

Lemma failure_ok t0 base B t t' c P g e :
  inv t0 base B t' -> (P -> same_contents t t') -> 0 <= g <= c_Gas c ->
  done_ok t0 base B t c P (Some (failure g e, t')).
Proof using Type. intros Hi Hs Hg. eexists _, _. split_and!; [done|done|split; [apply slice_ok_nil|done]|done]. Qed.

Lemma allowlist_inv a t0 base B t c :
  inv t0 base B t -> contract_ok c ->
  done_ok t0 base B t c (c_Static c = true)
    (Some (allowlist_Run (H := transition_host cx) a c t)).
Proof using Type*.
  intros Hi Hc. destruct (allowlist_Run (H := transition_host cx) a c t) as [r t'] eqn:E.
  exists r, t'. split; [done|].
  pose proof (allowlist_Run_gas (H := transition_host cx) a c t r t' (co_gas _ Hc) E).
  pose proof (allowlist_Run_ret (H := transition_host cx) a c t r t' E).
  apply allowlist_Run_write in E as [-> |(role & Hst & _ & _ & _ & Hrole & ->)]; (split; [|split; [done|]]);
    try done; [|congruence].
  apply SetState_inv; [done|]. unfold updateRole in Hrole. unfold AdminRole, EnabledRole, NoRole in *.
  repeat case_match; simplify_eq; unfold word; lia.
Qed.

Lemma precompiled_inv t0 base B t c :
  inv t0 base B t -> contract_ok c -> c_Gas c < 2 ^ 60 ->
  precompiled_CanRun c (t_config t) = true ->
  done_ok t0 base B t c (c_Static c = true)
    (precompiled_Run (H1 := transition_host cx) c t (t_config t)).
Proof using Type*.
  intros Hi Hc Hg Hrun.
  destruct (precompiled_Run_ok (H3 := transition_host cx) c t (t_config t) Hc Hg Hrun)
    as (p & r & t' & _ & He & Hr & Heff).
  exists r, t'. split; [done|].
  destruct Heff as [-> |(_ & _ & from & to & v & e & Hv & Ht)]; [done|].
  change (Transfer t from to (Some v) = (e, t')) in Ht.
  destruct (Transfer_ok t0 base B t from to (Some v) Hi) as [Hi' Hct].
  { intros ? [= <-]. apply Hv. }
  rewrite Ht in Hi', Hct. done.
Qed.

Lemma run_ok t0 base B t c :
  block_ok t0 B -> inv t0 base B t -> contract_ok c -> d0 <= c_Depth c + 1 -> c_Gas c < 2 ^ 60 ->
  done_ok t0 base B t c (c_Static c = true) (run cx t c).
Proof using Type*.
  intros Hk Hi Hc Hd Hg.
  assert (Hrc : done_ok t0 base B t c (c_Static c = true) (run_contract cx t c)).
  { unfold run_contract. destruct (precompiled_CanRun c (t_config t)) eqn:E.
    - by apply precompiled_inv.
    - by apply (EVM_Run_inv cx d0). }
  unfold run. destruct (bool_decide _); [by apply allowlist_inv|].
  destruct (t_txnAllowList t) as [a|]; [|done].
  destruct (a =? _); [by apply allowlist_inv|]. destruct (_ && _); [|done].
  apply failure_ok; [done|done|]. pose proof (co_gas _ Hc) as [? _]. lia.
Qed.

(** ** Snapshots *)

(** [t1] is [t] with the snapshot of its state taken. *)
Lemma snapshot_inv t0 base B t :
  inv t0 base B t ->
  inv t0 (snapshots (t_state t) ++ [txn (t_state t)]) B (set_state (snd (txn_Snapshot (t_state t))) t).
Proof using Type.
  intros [Hf Ho Hn Hb Hs]. split; cbn; [by rewrite Hf|by apply snapshot_ok|done|done|].
  eapply sup_eq; [|exact Hs]. done.
Qed.

Lemma base_weaken t0 base B t t' :
  inv t0 base B t -> inv t0 (snapshots (t_state t) ++ [txn (t_state t)]) B t' -> inv t0 base B t'.
Proof using Type.
  intros Hi [Hf Ho Hn Hb Hs]. split; try done. etrans; [apply Hi|]. etrans; [|exact Hb].
  by apply prefix_app_r.
Qed.

Lemma revert_inv t0 base B t t' :
  inv t0 base B t -> inv t0 (snapshots (t_state t) ++ [txn (t_state t)]) B t' ->
  exists t2, revert (Z.of_nat (length (snapshots (t_state t)))) t' = Some t2 /\
    inv t0 base B t2 /\ txn (t_state t2) = txn (t_state t) /\
    snapshot (t_state t2) = snapshot (t_state t).
Proof using Type.
  intros Hi Hi'. pose proof (base_weaken _ _ _ _ _ Hi Hi') as [Hf Ho Hn Hb Hs].
  destruct (i_base _ _ _ _ Hi') as [rest Hrest].
  unfold revert, RevertToSnapshot. rewrite (proj2 (Z.ltb_ge _ _))
    by (rewrite Hrest, !length_app; lia).
  rewrite Nat2Z.id, Hrest, <- app_assoc, lookup_app_r, Nat.sub_diag by lia. cbn [app lookup list_lookup].
  eexists. split; [done|]. cbn.
  assert (Hsn : snapshot (t_state t') = snapshot (t_state t)) by (rewrite Hn; symmetry; apply Hi).
  split_and!; [|done|done]. split; cbn; [by rewrite Hf| |done|exact Hb|].
  - destruct Ho as [? _ ? _]. split; [done|apply Hi|done|].
    pose proof (tk_refund _ (i_txn _ _ _ _ Hi)) as Hr. exact Hr.
  - eapply sup_eq; [|apply Hi]. intros b. unfold txn_GetBalance.
    by rewrite (getStateObject_eq (t_state t)).
Qed.

Lemma Touch_inv t0 base B t a :
  inv t0 base B t -> inv t0 base B (set_state (TouchAccount (t_state t) a) t) /\
  contents (t_state t) (TouchAccount (t_state t) a).
Proof using Type*.
  intros Hi. split.
  - apply inv_keep; [done|apply Touch_ok, Hi|apply upsert_snapshot|apply upsert_snapshots|].
    intros b. apply GetBalance_Touch.
  - apply contents_upsert; [apply Hi|apply object_at_live|done..].
Qed.

(** A call whose value is moved, if there is one, leaves related contents. *)
Lemma value_inv t0 base B t c ty :
  inv t0 base B t -> contract_ok c ->
  let '(err, t') := match ty with
                    | Call => Transfer t (c_Caller c) (c_Address c) (c_Value c)
                    | _ => (None, t)
                    end in
  inv t0 base B t' /\ contents (t_state t) (t_state t').
Proof using Type*.
  intros Hi Hc. destruct (Transfer_ok t0 base B t (c_Caller c) (c_Address c) (c_Value c) Hi) as [H1' H2'].
  { intros v Hv. apply (co_value _ Hc v Hv). }
  destruct ty; try done. by destruct (Transfer _ _ _ _).
Qed.

Lemma applyCall_ok t0 base B t c ty :
  block_ok t0 B -> inv t0 base B t -> contract_ok c -> d0 <= c_Depth c + 1 -> c_Gas c < 2 ^ 60 ->
  done_ok t0 base B t c (c_Static c = true) (applyCall cx t c ty).
Proof using Type*.
  intros Hk Hi Hc Hd Hg. pose proof (co_gas _ Hc) as [Hg0 _]. unfold applyCall.
  destruct (1024 + 1 <? c_Depth c); [apply failure_ok; [done|done|lia]|].
  cbn [txn_Snapshot]. set (s1 := mkTxn _ _ _ _).
  pose proof (snapshot_inv t0 base B t Hi) as Hi1. fold s1 in Hi1.
  assert (Hc1 : contents (t_state t) s1) by (by apply contents_eq).
  destruct (Touch_inv _ _ _ _ (c_Address c) Hi1) as [Hi2 Hc2]. cbn [t_state set_state] in Hi2, Hc2.
  change (set_state (TouchAccount s1 (c_Address c)) (set_state s1 t))
    with (set_state (TouchAccount s1 (c_Address c)) t) in Hi2.
  set (t2 := set_state (TouchAccount s1 (c_Address c)) t) in *.
  pose proof (value_inv _ _ _ t2 c ty Hi2 Hc) as Hval.
  destruct (match ty with Call => _ | _ => _ end) as [err t3]. destruct Hval as [Hi3 Hc3].
  assert (Hrel : same_contents t t3) by (unfold same_contents; by etrans; [|etrans]).
  destruct err as [e|].
  { apply failure_ok; [by eapply base_weaken|done|lia]. }
  destruct (run_ok _ _ _ t3 c Hk Hi3 Hc Hd Hg) as (r & t4 & -> & Hi4 & Hr & Hrel4).
  destruct (Failed r).
  - destruct (revert_inv _ _ _ _ _ Hi Hi4) as (t5 & -> & Hi5 & Ht5 & Hn5).
    exists r, t5. split_and!; [done..|]. intros _. by apply contents_eq.
  - exists r, t4. split_and!; [done|by eapply base_weaken|done|].
    intros Hst. etrans; [exact Hrel|by apply Hrel4].
Qed.

Lemma store_code_ok t0 base B t1 t c r :
  inv t0 base B t1 -> inv t0 (snapshots (t_state t1) ++ [txn (t_state t1)]) B t ->
  contract_ok c -> result_ok c r ->
  done_ok t0 base B t c False (store_code t c (Z.of_nat (length (snapshots (t_state t1)))) r).
Proof using Type*.
  intros Hi1 Hi Hc [Hret Hgas]. pose proof (base_weaken _ _ _ _ _ Hi1 Hi) as Hib.
  destruct (revert_inv _ _ _ _ _ Hi1 Hi) as (t5 & Hrev & Hi5 & _ & _).
  pose proof (co_gas _ Hc) as [Hg0 Hg1]. pose proof slice_ok_nil as Hnil. unfold store_code. rewrite Hrev.
  destruct (_ && _). { apply failure_ok; [done|done|lia]. }
  destruct (GasLeft r <? _) eqn:E; breflect.
  { destruct (Homestead _); eexists _, _; (split; [done|]); (split; [done|]); (split; [|done]);
      split; cbn; try done; lia. }
  eexists _, _. split; [done|]. split; [|split; [split; cbn; [done|]|done]].
  - apply inv_keep; [done|apply SetCode_ok; [apply Hib|done]|apply upsert_snapshot|
      apply upsert_snapshots|]. intros b. apply GetBalance_SetCode.
  - pose proof (u64_range (u64 (Z.of_nat (length (ReturnValue r))) * 200)) as [? _].
    rewrite u64_small by lia. lia.
Qed.

Lemma applyCreate_ok t0 base B t c :
  block_ok t0 B -> inv t0 base B t -> contract_ok c -> d0 <= c_Depth c + 1 -> c_Gas c < 2 ^ 60 ->
  done_ok t0 base B t c False (applyCreate cx t c).
Proof using Type*.
  intros Hk Hi Hc Hd Hg. pose proof (co_gas _ Hc) as [Hg0 _]. unfold applyCreate.
  destruct (1024 + 1 <? c_Depth c); [apply failure_ok; [done|done|lia]|].
  pose proof (IncrNonce_inv _ _ _ _ (c_Caller c) Hi) as Hi1.
  set (t1 := set_state (IncrNonce (t_state t) (c_Caller c)) t) in *.
  destruct (hasCodeOrNonce t1 (c_Address c)); [apply failure_ok; [done|done|lia]|].
  pose proof (snapshot_inv _ _ _ _ Hi1) as Hi2. unfold txn_Snapshot at 1. cbv zeta.
  set (s2 := snd (txn_Snapshot (t_state t1))) in *. change (mkTxn _ _ _ _) with s2.
  set (s3 := if EIP158 (t_config t1) then _ else s2).
  assert (Hi3 : inv t0 (snapshots (t_state t1) ++ [txn (t_state t1)]) B (set_state s3 t1)).
  { unfold s3. destruct (EIP158 _); [|done].
    apply (IncrNonce_inv _ _ _ (set_state (CreateAccount s2 (c_Address c)) (set_state s2 t1))).
    by apply (CreateAccount_inv _ _ _ (set_state s2 t1)). }
  destruct (Transfer_ok _ _ _ _ (c_Caller c) (c_Address c) (c_Value c) Hi3) as [Hi4 _].
  { intros v Hv. apply (co_value _ Hc v Hv). }
  destruct (Transfer _ _ _ _) as [[e|] t4]; cbn [snd] in Hi4.
  { apply failure_ok; [by eapply base_weaken|done|lia]. }
  destruct (negb _). { apply failure_ok; [by eapply base_weaken|done|lia]. }
  destruct (run_ok _ _ _ t4 c Hk Hi4 Hc Hd Hg) as (r & t5 & -> & Hi5 & Hr & _).
  destruct (Failed r).
  - destruct (revert_inv _ _ _ _ _ Hi1 Hi5) as (t6 & Hrev & Hi6 & _ & _). rewrite Hrev. by exists r, t6.
  - destruct (store_code_ok _ _ _ _ _ c r Hi1 Hi5 Hc Hr) as (r' & t' & -> & ? & ? & _).
    by exists r', t'.
Qed.

Lemma Callx_ok t0 base B t c :
  block_ok t0 B -> inv t0 base B t -> contract_ok c -> d0 <= c_Depth c + 1 -> c_Gas c < 2 ^ 60 ->
  done_ok t0 base B t c (read_only c) (t_Callx cx t c).
Proof using Type*.
  intros Hk Hi Hc Hd Hg. unfold t_Callx.
  assert (Hcall : forall ty, done_ok t0 base B t c (read_only c) (applyCall cx t c ty)).
  { intros ty. destruct (applyCall_ok t0 base B t c ty Hk Hi Hc Hd Hg) as (r & t' & He & ? & ? & Hs).
    exists r, t'. split_and!; try done. intros Hro. apply Hs, Hro. }
  destruct (c_Type c) eqn:Et; try apply Hcall.
  destruct (applyCreate_ok t0 base B t c Hk Hi Hc Hd Hg) as (r & t' & He & ? & ? & _).
  exists r, t'. split_and!; try done. intros [_ Hcr _]. done.
Qed.

(** Beyond the depth limit nothing runs. *)
Lemma Callx_deep t0 base B t c :
  inv t0 base B t -> contract_ok c -> 1025 < c_Depth c ->
  done_ok t0 base B t c (read_only c) (t_Callx cx t c).
Proof using All - (Hcx d0).
  intros Hi Hc Hd. pose proof (co_gas _ Hc) as [Hg0 _].
  unfold t_Callx, applyCreate, applyCall. rewrite (proj2 (Z.ltb_lt _ _)) by lia.
  destruct (c_Type c); apply failure_ok; done || lia.
Qed.
End Step.

(** ** Tying the knot *)

Lemma callx_ok n : calls_ok (callx (S n)) (1026 - Z.of_nat n).
Proof.
  induction n as [|n IH]; intros t0 base B t c Hk Hi Hc Hd Hg.
  - apply (Callx_deep (callx 0)); [done..|lia].
  - apply (Callx_ok (callx (S n)) _ IH); [done..|lia|done].
Qed.

Lemma nested_ok : calls_ok nested 1.
Proof. exact (callx_ok 1025). Qed.
End Inv.
