(* ===== verification/ExecutorReplay.v ===== *)
(** * Transitions that differ in old snapshots and receipts

    A transaction that cannot be applied is reverted to the snapshot taken before it, which
    stays in the list of snapshots; one above the gas limit of the block leaves a receipt.
    Nothing that follows reverts to an old snapshot or reads a receipt: every operation of a
    transition commutes with putting snapshots and receipts in front of its own. So a block
    builder that has met failing transactions and a validator that replays only the ones in
    the block compute the same state. *)

From S2P Require Import Prelude ChainTypes BigInt Runtime Receipts EvmState EvmInstr EvmRun EvmRelation.
From S2P Require Import StateTxn Precompiled Executor.
Local Open Scope go_scope.
Set Default Proof Using "Type*".

Section Pad.
Context {T : Type -> Type} `{Radix T} {C : Type} `{Lru Address (list Z) C} `{Codec} `{CryptoLib} `{AllowListABI}.
Abbreviation Txn := (Txn T C).
Abbreviation Transition := (Transition T C).
Context (pre : list (tree T)) (rs : list Receipt).
Implicit Types (s : Txn) (t : Transition).

Definition pad s : Txn := mkTxn (snapshot s) (pre ++ snapshots s) (txn s) (codeCache s).
Definition tpad t : Transition := set_totals (rs ++ t_receipts t) (t_totalGas t) (set_state (pad (t_state t)) t).

(** ** The state *)

Lemma pad_upsert s a create f : upsertAccount (pad s) a create f = pad (upsertAccount s a create f).
Proof. unfold upsertAccount. change (getStateObject (pad s) a) with (getStateObject s a). by destruct (getStateObject s a), create. Qed.

Lemma pad_SubBalance s a v : txn_SubBalance (pad s) a v = (fst (txn_SubBalance s a v), pad (snd (txn_SubBalance s a v))).
Proof.
  unfold txn_SubBalance. change (txn_GetBalance (pad s) a) with (txn_GetBalance s a). rewrite pad_upsert.
  by destruct (Z.sgn v =? 0), (txn_GetBalance s a <? v).
Qed.

Lemma pad_SetState s a k v : txn_SetState (pad s) a k v = pad (txn_SetState s a k v).
Proof. apply pad_upsert. Qed.

Lemma pad_SetStorage s a k v cfg : txn_SetStorage (pad s) a k v cfg = (fst (txn_SetStorage s a k v cfg), pad (snd (txn_SetStorage s a k v cfg))).
Proof.
  unfold txn_SetStorage. change (txn_GetState (pad s) a k) with (txn_GetState s a k).
  change (GetCommittedState (pad s) a k) with (GetCommittedState s a k). rewrite pad_SetState.
  repeat (case_match || done).
Qed.

Lemma pad_GetCode s a : txn_GetCode (pad s) a = (fst (txn_GetCode s a), pad (snd (txn_GetCode s a))).
Proof.
  unfold txn_GetCode. change (getStateObject (pad s) a) with (getStateObject s a). destruct (getStateObject s a) as [o|]; [|done].
  destruct (o_DirtyCode o); [done|]. change (codeCache (pad s)) with (codeCache s). by destruct (lru_Get (codeCache s) a) as [[v|] c].
Qed.

Lemma pad_GetCodeSize s a : txn_GetCodeSize (pad s) a = (fst (txn_GetCodeSize s a), pad (snd (txn_GetCodeSize s a))).
Proof. unfold txn_GetCodeSize. rewrite pad_GetCode. by destruct (txn_GetCode s a). Qed.

Lemma pad_Suicide s a : snd (Suicide (pad s) a) = pad (snd (Suicide s a)).
Proof. apply pad_upsert. Qed.

Lemma pad_Logs s : txn_Logs (pad s) = (fst (txn_Logs s), pad (snd (txn_Logs s))).
Proof. unfold txn_Logs. cbn. by destruct (tr_logs (txn s)). Qed.

Lemma pad_mark ks o : fold_left mark_deleted ks (pad <$> o) = pad <$> fold_left mark_deleted ks o.
Proof.
  revert o. induction ks as [|k ks IH]; intros o; [done|]. cbn [fold_left]. rewrite <- IH. f_equal.
  destruct o as [s|]; [|done]. cbn. by destruct (rx_Get (objects (txn s)) k).
Qed.

Lemma pad_Clean s b : CleanDeleteObjects (pad s) b = pad <$> CleanDeleteObjects s b.
Proof.
  unfold CleanDeleteObjects. change (Some (pad s)) with (pad <$> Some s). rewrite pad_mark. change (txn (pad s)) with (txn s).
  by destruct (fold_left mark_deleted _ (Some s)).
Qed.

Lemma pad_Snapshot s : txn_Snapshot (pad s) = (Z.of_nat (length pre) + fst (txn_Snapshot s), pad (snd (txn_Snapshot s))).
Proof. unfold txn_Snapshot, pad. cbn. by rewrite length_app, Nat2Z.inj_add, app_assoc. Qed.

Lemma pad_Revert s id : 0 <= id -> RevertToSnapshot (Z.of_nat (length pre) + id) (pad s) = pad <$> RevertToSnapshot id s.
Proof.
  intros Hid. unfold RevertToSnapshot. cbn [snapshots pad]. rewrite length_app, Nat2Z.inj_add.
  replace (_ <? _) with (Z.of_nat (length (snapshots s)) <? id) by (destruct (Z.ltb_spec (Z.of_nat (length (snapshots s))) id); symmetry; [apply Z.ltb_lt|apply Z.ltb_ge]; lia).
  destruct (_ <? id); [done|]. rewrite Z2Nat.inj_add, Nat2Z.id, lookup_app_r by lia.
  replace (length pre + Z.to_nat id - length pre)%nat with (Z.to_nat id) by lia. by destruct (snapshots s !! _).
Qed.

(** ** Calls *)

Abbreviation mapped o := ((fun rt => (fst rt, tpad (snd rt))) <$> o).

Lemma pad_Transfer t a b v : Transfer (tpad t) a b v = (fst (Transfer t a b v), tpad (snd (Transfer t a b v))).
Proof.
  unfold Transfer. destruct v as [v|]; [|done]. change (t_state (tpad t)) with (pad (t_state t)). rewrite pad_SubBalance.
  destruct (txn_SubBalance (t_state t) a v) as [[e|] s]; [done|]. cbn [fst snd]. unfold txn_AddBalance. by rewrite pad_upsert.
Qed.

Lemma pad_set_state s t : set_state (pad s) (tpad t) = tpad (set_state s t).
Proof. done. Qed.

Lemma pad_IncrNonce s a : IncrNonce (pad s) a = pad (IncrNonce s a).
Proof. apply pad_upsert. Qed.

Lemma pad_revert t id : 0 <= id -> revert (Z.of_nat (length pre) + id) (tpad t) = tpad <$> revert id t.
Proof.
  intros Hid. unfold revert. change (t_state (tpad t)) with (pad (t_state t)). rewrite pad_Revert by done. by destruct (RevertToSnapshot id (t_state t)).
Qed.

Lemma pad_store_code t c id r : 0 <= id -> store_code (tpad t) c (Z.of_nat (length pre) + id) r = mapped (store_code t c id r).
Proof.
  intros Hid. unfold store_code. rewrite !pad_revert by done. change (t_config (tpad t)) with (t_config t).
  change (t_state (tpad t)) with (pad (t_state t)). unfold txn_SetCode. rewrite pad_upsert.
  destruct (EIP158 (t_config t) && _); [by destruct (revert id t)|]. destruct (GasLeft r <? _); [|done].
  destruct (Homestead (t_config t)); [by destruct (revert id t)|done].
Qed.

Section Host.
Context (cx : Transition -> Contract -> option (ExecutionResult * Transition)).
Hypothesis Hcx : forall t c, cx (tpad t) c = mapped (cx t c).

Lemma pad_host : HostRelation (H := transition_host cx) (fun t t' => t' = tpad t).
Proof.
  split; try (intros; subst; done); intros w w' *; intros ->; cbn [transition_host SetStorage GetCodeSize GetCode Selfdestruct EmitLog Callx];
    change (t_state (tpad w)) with (pad (t_state w)).
  - rewrite pad_SetStorage. by destruct (txn_SetStorage (t_state w) a k v cfg).
  - rewrite pad_GetCodeSize. by destruct (txn_GetCodeSize (t_state w) a).
  - rewrite pad_GetCode. by destruct (txn_GetCode (t_state w) a).
  - unfold t_Selfdestruct. change (t_state (tpad w)) with (pad (t_state w)). change (HasSuicided (pad (t_state w)) a) with (HasSuicided (t_state w) a).
    destruct (HasSuicided (t_state w) a); cbn [negb].
    + unfold txn_AddBalance. rewrite pad_upsert, pad_Suicide. done.
    + change (AddRefund (pad (t_state w)) 24000) with (pad (AddRefund (t_state w) 24000)).
      unfold txn_AddBalance. rewrite pad_upsert, pad_Suicide. done.
  - rewrite Hcx. by destruct (cx w c) as [[r t]|].
Qed.

Lemma pad_EVM c t cfg : EVM_Run (H := transition_host cx) c (tpad t) cfg = mapped (EVM_Run (H := transition_host cx) c t cfg).
Proof.
  pose proof (EVM_Run_related (H := transition_host cx) (fun t t' => t' = tpad t) (HostRelation0 := pad_host) c t (tpad t) cfg eq_refl) as He.
  destruct (EVM_Run c t cfg) as [[r t1]|], (EVM_Run c (tpad t) cfg) as [[r' t1']|]; try done. by destruct He as [-> ->].
Qed.

Lemma pad_precompiled c t cfg :
  precompiled_Run (H1 := transition_host cx) c (tpad t) cfg = mapped (precompiled_Run (H1 := transition_host cx) c t cfg).
Proof.
  unfold precompiled_Run. destruct (find_contract (c_CodeAddress c)) as [p|]; [|done]. destruct (p_gas p (c_Input c) cfg) as [g|]; [|done].
  destruct (c_Gas c <? g); [done|].
  assert (Hrun : p_run (H1 := transition_host cx) p (c_Input c) (c_Caller c) (tpad t) =
    (fun r => (fst r, tpad (snd r))) <$> p_run (H1 := transition_host cx) p (c_Input c) (c_Caller c) t).
  { assert (Hpure : forall o, pure_run o (tpad t) = (fun r => (fst r, tpad (snd r))) <$> pure_run o t) by (by intros [[?|?]|]).
    destruct p; unfold p_run; try apply Hpure; try done. unfold nativeTransfer_run.
    destruct (_ <? _)%nat; [done|]. destruct (negb _); [done|]. cbn [HTransfer transition_host]. rewrite pad_Transfer.
    by destruct (Transfer t _ _ _) as [[e|] w]. }
  rewrite Hrun. by destruct (p_run _ _ _ t) as [[[b [e|]] w]|].
Qed.

Lemma pad_allowlist a c t :
  allowlist_Run (H := transition_host cx) a c (tpad t) =
    (fst (allowlist_Run (H := transition_host cx) a c t), tpad (snd (allowlist_Run (H := transition_host cx) a c t))).
Proof.
  unfold allowlist_Run, runInputCall.
  assert (Hrole : forall b, GetRole (H := transition_host cx) a (tpad t) b = GetRole (H := transition_host cx) a t b) by done.
  assert (Hset : forall b r, SetRole (H := transition_host cx) a (tpad t) b r = tpad (SetRole (H := transition_host cx) a t b r)).
  { intros b r. unfold SetRole. cbn [HSetState transition_host]. change (t_state (tpad t)) with (pad (t_state t)). by rewrite pad_SetState. }
  rewrite !Hrole. destruct (_ <? 4)%nat; [done|]. destruct (negb (_ =? 32)%nat); [done|]. destruct (bool_decide _).
  { by destruct (c_Gas c <? _). }
  destruct (updateRole _) as [role|]; [|done]. destruct (c_Gas c <? _); [done|]. destruct (c_Static c); [done|].
  destruct (negb _); [done|]. by rewrite Hset.
Qed.

Lemma pad_run t c : run cx (tpad t) c = mapped (run cx t c).
Proof.
  assert (Hc : run_contract cx (tpad t) c = mapped (run_contract cx t c)).
  { unfold run_contract. change (t_config (tpad t)) with (t_config t). destruct (precompiled_CanRun c (t_config t)); [apply pad_precompiled|].
    apply pad_EVM. }
  unfold run. change (t_deploymentAllowlist (tpad t)) with (t_deploymentAllowlist t). change (t_txnAllowList (tpad t)) with (t_txnAllowList t).
  case_bool_decide; [by rewrite pad_allowlist|]. destruct (t_txnAllowList t) as [a|]; [|done].
  destruct (a =? c_CodeAddress c); [by rewrite pad_allowlist|].
  change (GetRole (H := transition_host cx) a (tpad t)) with (GetRole (H := transition_host cx) a t).
  by destruct (negb _ && negb _).
Qed.

Lemma pad_applyCall t c ty : applyCall cx (tpad t) c ty = mapped (applyCall cx t c ty).
Proof.
  unfold applyCall. destruct (_ <? c_Depth c); [done|]. change (t_state (tpad t)) with (pad (t_state t)). rewrite pad_Snapshot.
  destruct (txn_Snapshot (t_state t)) as [id s] eqn:Es. cbn [fst snd].
  assert (Hid : 0 <= id) by (injection Es as <- _; lia). unfold TouchAccount. rewrite pad_upsert, pad_set_state.
  set (t1 := set_state _ t).
  assert (Ht : match ty with Call => Transfer (tpad t1) (c_Caller c) (c_Address c) (c_Value c) | _ => (None, tpad t1) end =
    let x := match ty with Call => Transfer t1 (c_Caller c) (c_Address c) (c_Value c) | _ => (None, t1) end in (fst x, tpad (snd x)))
    by (destruct ty; first [apply pad_Transfer|done]).
  rewrite Ht. cbv zeta. generalize (match ty with Call => Transfer t1 (c_Caller c) (c_Address c) (c_Value c) | _ => (None, t1) end).
  intros [[e|] t2]; [done|]. cbn [fst snd]. rewrite pad_run.
  destruct (run cx t2 c) as [[r t3]|]; [|done]. cbn [fst snd fmap option_fmap option_map]. destruct (Failed r); [|done].
  rewrite pad_revert by done. by destruct (revert id t3).
Qed.

Lemma pad_applyCreate t c : applyCreate cx (tpad t) c = mapped (applyCreate cx t c).
Proof.
  unfold applyCreate. destruct (_ <? c_Depth c); [done|]. change (t_state (tpad t)) with (pad (t_state t)).
  rewrite pad_IncrNonce, pad_set_state. set (t1 := set_state _ t). change (hasCodeOrNonce (tpad t1)) with (hasCodeOrNonce t1).
  destruct (hasCodeOrNonce t1 (c_Address c)); [done|]. change (t_state (tpad t1)) with (pad (t_state t1)). rewrite pad_Snapshot.
  destruct (txn_Snapshot (t_state t1)) as [id s] eqn:Es. cbn [fst snd]. assert (Hid : 0 <= id) by (injection Es as <- _; lia).
  change (t_config (tpad t1)) with (t_config t1). change (CreateAccount (pad s) (c_Address c)) with (pad (CreateAccount s (c_Address c))).
  rewrite pad_IncrNonce.
  assert (Hs : (if EIP158 (t_config t1) then pad (IncrNonce (CreateAccount s (c_Address c)) (c_Address c)) else pad s) =
    pad (if EIP158 (t_config t1) then IncrNonce (CreateAccount s (c_Address c)) (c_Address c) else s)) by (by destruct (EIP158 _)).
  rewrite Hs, pad_set_state, pad_Transfer. destruct (Transfer _ _ _ _) as [[e|] t2]; [done|]. cbn [fst snd].
  change (t_deploymentAllowlist (tpad t2)) with (t_deploymentAllowlist t2).
  assert (Ha : match t_deploymentAllowlist t2 with Some a => Enabled (GetRole (H := transition_host cx) a (tpad t2) (c_Caller c)) | None => true end =
    match t_deploymentAllowlist t2 with Some a => Enabled (GetRole (H := transition_host cx) a t2 (c_Caller c)) | None => true end) by done.
  rewrite Ha. destruct (negb _); [done|]. rewrite pad_run. destruct (run cx t2 c) as [[r t3]|]; [|done]. cbn [fst snd fmap option_fmap option_map].
  destruct (Failed r); [|by apply pad_store_code]. rewrite pad_revert by done. by destruct (revert id t3).
Qed.

Lemma pad_t_Callx t c : t_Callx cx (tpad t) c = mapped (t_Callx cx t c).
Proof. unfold t_Callx. destruct (c_Type c); first [apply pad_applyCreate|apply pad_applyCall]. Qed.
End Host.

Lemma pad_callx n t c : callx n (tpad t) c = mapped (callx n t c).
Proof. revert t c. induction n as [|n IH]; intros t c; [done|]. by apply pad_t_Callx. Qed.

(** ** Transactions *)

Lemma pad_Create2 t a code v g : t_Create2 (tpad t) a code v g = mapped (t_Create2 t a code v g).
Proof. apply pad_applyCreate, pad_callx. Qed.

Lemma pad_Call2 t a b x v g : t_Call2 (tpad t) a b x v g = mapped (t_Call2 t a b x v g).
Proof.
  unfold t_Call2. change (t_state (tpad t)) with (pad (t_state t)). rewrite pad_GetCode. destruct (txn_GetCode (t_state t) b) as [code s].
  cbn [fst snd]. rewrite pad_set_state. apply pad_applyCall, pad_callx.
Qed.

Lemma pad_execute t msg g : execute (tpad t) msg g = mapped (execute t msg g).
Proof.
  unfold execute. change (set_tx_context (tpad t)) with (fun x y => tpad (set_tx_context t x y)). cbv beta.
  destruct (To msg) as [a|]; [|apply pad_Create2]. set (t1 := set_tx_context t _ _). change (t_state (tpad t1)) with (pad (t_state t1)).
  unfold IncrNonce. rewrite pad_upsert, pad_set_state. apply pad_Call2.
Qed.

Lemma pad_settle t msg r : settle (tpad t) msg r = (fst (settle t msg r), tpad (snd (settle t msg r))).
Proof.
  unfold settle. change (t_state (tpad t)) with (pad (t_state t)). change (txn_GetRefund (pad (t_state t))) with (txn_GetRefund (t_state t)).
  change (t_ctx (tpad t)) with (t_ctx t). unfold txn_AddBalance. rewrite !pad_upsert. done.
Qed.

Lemma pad_legacy msg t : checkAndProcessLegacyTx msg (tpad t) = (fst (checkAndProcessLegacyTx msg t), tpad (snd (checkAndProcessLegacyTx msg t))).
Proof.
  unfold checkAndProcessLegacyTx, subGasLimitPrice. change (nonceCheck (tpad t) msg) with (nonceCheck t msg). destruct (nonceCheck t msg); [done|].
  change (t_state (tpad t)) with (pad (t_state t)). rewrite pad_SubBalance. by destruct (txn_SubBalance (t_state t) _ _) as [[e|] s].
Qed.

Lemma pad_apply t msg : apply (tpad t) msg = mapped (apply t msg).
Proof.
  unfold apply. assert (Hchk : (if TxType msg =? StateTx then (checkAndProcessStateTx msg, tpad t) else checkAndProcessLegacyTx msg (tpad t)) =
    let r := if TxType msg =? StateTx then (checkAndProcessStateTx msg, t) else checkAndProcessLegacyTx msg t in (fst r, tpad (snd r)))
    by (destruct (TxType msg =? StateTx); [done|apply pad_legacy]).
  rewrite Hchk. cbv zeta. generalize (if TxType msg =? StateTx then (checkAndProcessStateTx msg, t) else checkAndProcessLegacyTx msg t).
  intros [[e|] t1]; [done|]. cbn [fst snd]. unfold subGasPool.
  change (t_gasPool (tpad t1)) with (t_gasPool t1). destruct (t_gasPool t1 <? Gas msg); [done|].
  change (set_gasPool ?g (tpad t1)) with (tpad (set_gasPool g t1)). set (t2 := set_gasPool _ t1). change (t_config (tpad t2)) with (t_config t2).
  destruct (TransactionGasCost _ _ _) as [cost|]; [|done]. destruct (Gas msg <? _); [done|]. rewrite pad_execute.
  destruct (execute t2 msg _) as [[r t3]|]; [|done]. cbn [fst snd fmap option_fmap option_map]. rewrite pad_settle. by destruct (settle t3 msg r).
Qed.

Lemma pad_Apply t msg : Apply None (tpad t) msg = mapped (Apply None t msg).
Proof.
  unfold Apply. change (t_state (tpad t)) with (pad (t_state t)). rewrite pad_Snapshot. destruct (txn_Snapshot (t_state t)) as [id s] eqn:Es.
  cbn [fst snd]. assert (Hid : 0 <= id) by (injection Es as <- _; lia). rewrite pad_set_state, pad_apply.
  destruct (apply _ msg) as [[[r|e] t1]|]; [done| |done]. cbn [fst snd fmap option_fmap option_map]. rewrite pad_revert by done. by destruct (revert id t1).
Qed.

Lemma pad_Write Sender t tx : Write None Sender (tpad t) tx = mapped (Write None Sender t tx).
Proof.
  unfold Write. destruct (recover_from Sender tx) as [tx'|]; [|done]. rewrite pad_Apply. destruct (Apply None t tx') as [[[r|e] t1]|]; [|done..].
  cbn [fst snd fmap option_fmap option_map]. unfold write_receipt. change (t_state (tpad t1)) with (pad (t_state t1)). rewrite pad_Logs.
  destruct (txn_Logs (t_state t1)) as [logs s]. cbn [fst snd]. rewrite pad_Clean. destruct (CleanDeleteObjects s true) as [s'|]; [|done].
  cbn. unfold tpad, set_totals, set_state. cbn. by rewrite app_assoc.
Qed.
End Pad.

(** ** The rules of the block stay *)

Section Config.
Context {T : Type -> Type} `{Radix T} {C : Type} `{Lru Address (list Z) C} `{Codec} `{CryptoLib} `{AllowListABI}.
Abbreviation Transition := (Transition T C).
Context (cfg : ForksInTime).
Implicit Types t : Transition.

(** The transition of an outcome has the rules [cfg]. *)
Definition ruled {A} (o : option (A * Transition)) : Prop := forall a t, o = Some (a, t) -> t_config t = cfg.

Lemma Transfer_config t a b v : t_config (snd (Transfer t a b v)) = t_config t.
Proof. unfold Transfer. destruct v as [v|]; [|done]. by destruct (txn_SubBalance (t_state t) a v) as [[e|] s]. Qed.

Lemma revert_config t id t' : revert id t = Some t' -> t_config t' = t_config t.
Proof. unfold revert. destruct (RevertToSnapshot id (t_state t)); [|done]. by intros [= <-]. Qed.

Section Host.
Context (cx : Transition -> Contract -> option (ExecutionResult * Transition)).
Hypothesis Hcx : forall t c, t_config t = cfg -> ruled (cx t c).

Lemma config_host : HostRelation (H := transition_host cx) (fun t t' => t' = t /\ t_config t = cfg).
Proof.
  split; try (by intros w w' * [-> ?]); intros w w' *; intros [-> Hw]; cbn [transition_host SetStorage GetCodeSize GetCode Callx].
  - by destruct (txn_SetStorage (t_state w) a k v cfg0).
  - by destruct (txn_GetCodeSize (t_state w) a).
  - by destruct (txn_GetCode (t_state w) a).
  - destruct (cx w c) as [[r t]|] eqn:E; [|done]. split; [done|]. split; [done|]. by eapply Hcx.
Qed.

Lemma run_config t c : t_config t = cfg -> ruled (run cx t c).
Proof.
  intros Ht. assert (Hc : ruled (run_contract cx t c)).
  { unfold run_contract. intros r t' Hr. destruct (precompiled_CanRun c (t_config t)).
    - unfold precompiled_Run in Hr. destruct (find_contract (c_CodeAddress c)) as [p|]; [|done]. destruct (p_gas p _ _); [|done].
      destruct (_ <? _); [by injection Hr as _ <-|].
      assert (Hp : forall x w, p_run (H1 := transition_host cx) p (c_Input c) (c_Caller c) t = Some (x, w) -> t_config w = cfg).
      { assert (Hpure : forall o x w, pure_run o t = Some (x, w) -> t_config w = cfg) by (intros [[?|?]|] x w; [by intros [= _ <-]..|done]).
        intros x w. destruct p; unfold p_run; try apply Hpure; try (by intros [= _ <-]). unfold nativeTransfer_run.
        destruct (_ <? _)%nat; [by intros [= _ <-]|]. destruct (negb _); [by intros [= _ <-]|]. cbn [HTransfer transition_host].
        match goal with |- context [Transfer t ?a ?b ?v] => pose proof (Transfer_config t a b v) as Hx; destruct (Transfer t a b v) as [[e|] w'] end;
          intros [= _ <-]; cbn in Hx; congruence. }
      destruct (p_run p (c_Input c) (c_Caller c) t) as [[[b [e|]] w]|] eqn:Er; [| |done]; injection Hr as _ <-; by eapply Hp.
    - pose proof (EVM_Run_related (H := transition_host cx) _ (HostRelation0 := config_host) c t t (t_config t) (conj eq_refl Ht)) as He.
      rewrite Hr in He. by destruct He as (_ & _ & ->). }
  unfold run. assert (Hl : forall a, t_config (snd (allowlist_Run (H := transition_host cx) a c t)) = cfg).
  { intros a. destruct (allowlist_Run (H := transition_host cx) a c t) as [r w] eqn:Er. cbn.
    apply allowlist_Run_write in Er as [->|(role & _ & _ & _ & _ & _ & ->)]; [done|]. done. }
  case_bool_decide; [intros r t' [= E]; pose proof (Hl (c_CodeAddress c)) as Hx; by rewrite E in Hx|].
  destruct (t_txnAllowList t) as [a|]; [|done]. destruct (a =? c_CodeAddress c); [intros r t' [= E]; pose proof (Hl a) as Hx; by rewrite E in Hx|].
  destruct (negb _ && negb _); [|done]. by intros r t' [= _ <-].
Qed.

Lemma reverted_config {A} (x : A) t id : t_config t = cfg -> ruled (match revert id t with Some t => Some (x, t) | None => None end).
Proof. intros Ht r t'. destruct (revert id t) as [t1|] eqn:E; [|done]. intros [= _ <-]. by rewrite (revert_config _ _ _ E). Qed.

Lemma applyCall_config t c ty : t_config t = cfg -> ruled (applyCall cx t c ty).
Proof.
  intros Ht. unfold applyCall. destruct (_ <? c_Depth c); [by intros r t' [= _ <-]|]. destruct (txn_Snapshot (t_state t)) as [id s].
  set (t1 := set_state _ t). set (x := match ty with Call => _ | _ => _ end).
  assert (Hx : t_config (snd x) = cfg) by (unfold x; destruct ty; rewrite ?Transfer_config; done).
  destruct x as [[e|] t2]; [by intros r t' [= _ <-]|]. cbn in Hx. pose proof (run_config t2 c Hx) as Hr.
  destruct (run cx t2 c) as [[r t3]|]; [|done]. specialize (Hr r t3 eq_refl). destruct (Failed r); [by apply reverted_config|by intros ? ? [= _ <-]].
Qed.

Lemma applyCreate_config t c : t_config t = cfg -> ruled (applyCreate cx t c).
Proof.
  intros Ht. unfold applyCreate. destruct (_ <? c_Depth c); [by intros r t' [= _ <-]|]. set (t1 := set_state _ t).
  destruct (hasCodeOrNonce t1 (c_Address c)); [by intros r t' [= _ <-]|]. destruct (txn_Snapshot (t_state t1)) as [id s].
  set (s1 := if EIP158 _ then _ else _). pose proof (Transfer_config (set_state s1 t1) (c_Caller c) (c_Address c) (c_Value c)) as Hx.
  destruct (Transfer _ _ _ _) as [[e|] t2]; [intros r t' [= _ <-]; cbn in Hx; congruence|]. cbn in Hx. rewrite Ht in Hx.
  destruct (negb _); [by intros r t' [= _ <-]|]. pose proof (run_config t2 c Hx) as Hr. destruct (run cx t2 c) as [[r t3]|]; [|done].
  specialize (Hr r t3 eq_refl). destruct (Failed r); [by apply reverted_config|]. unfold store_code.
  destruct (_ && _); [by apply reverted_config|]. destruct (_ <? _); [|by intros ? ? [= _ <-]].
  destruct (Homestead _); [by apply reverted_config|by intros ? ? [= _ <-]].
Qed.
End Host.

Lemma callx_config n t c : t_config t = cfg -> ruled (callx n t c).
Proof.
  revert t c. induction n as [|n IH]; intros t c Ht; [done|]. cbn. unfold t_Callx.
  destruct (c_Type c); first [by apply applyCreate_config|by apply applyCall_config].
Qed.

Lemma apply_config t msg : t_config t = cfg -> ruled (apply t msg).
Proof.
  intros Ht. unfold apply. set (x := if TxType msg =? StateTx then _ else _).
  assert (Hx : t_config (snd x) = cfg).
  { unfold x, checkAndProcessLegacyTx, subGasLimitPrice. destruct (TxType msg =? StateTx); [done|]. destruct (nonceCheck t msg); [done|].
    by destruct (txn_SubBalance _ _ _) as [[e|] s]. }
  destruct x as [[e|] t1]; [by intros r t' [= _ <-]|]. cbn in Hx. unfold subGasPool. destruct (_ <? Gas msg); [by intros r t' [= _ <-]|].
  set (t2 := set_gasPool _ t1). assert (Ht2 : t_config t2 = cfg) by done. destruct (TransactionGasCost _ _ _); [|by intros r t' [= _ <-]].
  destruct (Gas msg <? _); [by intros r t' [= _ <-]|].
  assert (He : ruled (execute t2 msg (Gas msg -u z))).
  { unfold execute, t_Create2, t_Call2. destruct (To msg) as [a|].
    - destruct (txn_GetCode _ a) as [code s]. apply applyCall_config; [intros; by apply callx_config|done].
    - apply applyCreate_config; [intros; by apply callx_config|done]. }
  destruct (execute t2 msg _) as [[r t3]|]; [|done]. specialize (He r t3 eq_refl). by intros ? ? [= _ <-].
Qed.

Lemma Write_config Sender t tx : t_config t = cfg -> ruled (Write None Sender t tx).
Proof.
  intros Ht. unfold Write. destruct (recover_from Sender tx) as [tx'|]; [|by intros r t' [= _ <-]]. unfold Apply.
  destruct (txn_Snapshot (t_state t)) as [id s]. pose proof (apply_config (set_state s t) tx' Ht) as Ha.
  destruct (apply _ tx') as [[[r|e] t1]|]; [| |done]; specialize (Ha _ t1 eq_refl).
  - unfold write_receipt. destruct (txn_Logs (t_state t1)) as [logs s']. destruct (CleanDeleteObjects s' true); [|done]. by intros ? ? [= _ <-].
  - destruct (revert id t1) as [t2|] eqn:E; [|done]. intros ? ? [= _ <-]. by rewrite (revert_config _ _ _ E).
Qed.
End Config.

(** ** Transactions that are not applied *)

Section Replay.
Context {T : Type -> Type} `{Radix T} {C : Type} `{Lru Address (list Z) C} `{Codec} `{CryptoLib} `{AllowListABI}.
Abbreviation Transition := (Transition T C).
Implicit Types (t r : Transition).

(** A transition without its old snapshots and receipts. *)
Definition tbare t : Transition :=
  set_totals [] (t_totalGas t) (set_state (mkTxn (snapshot (t_state t)) [] (txn (t_state t)) (codeCache (t_state t))) t).

Lemma tbare_pad t : t = tpad (snapshots (t_state t)) (t_receipts t) (tbare t).
Proof. destruct t as [? [] ? ? ? ? ? ? ?]. unfold tpad, tbare, set_totals, set_state, pad. cbn. by rewrite !app_nil_r. Qed.

Lemma pad_tbare pre rs t : tbare (tpad pre rs t) = tbare t.
Proof. done. Qed.

(** The gas of a transaction covers its intrinsic cost. *)
Definition paid_at (cfg : ForksInTime) (tx : Transaction) : Prop :=
  exists cost, TransactionGasCost tx (Homestead cfg) (Istanbul cfg) = Some cost /\ 0 <= cost <= Gas tx /\ Gas tx < two64.

Lemma legacy_failed msg t e t1 : checkAndProcessLegacyTx msg t = (e, t1) -> exists tr, t1 = set_state (set_txn tr (t_state t)) t.
Proof.
  assert (Hsame : exists tr, t = set_state (set_txn tr (t_state t)) t) by (exists (txn (t_state t)); by destruct t as [? [] ? ? ? ? ? ? ?]).
  unfold checkAndProcessLegacyTx, subGasLimitPrice, txn_SubBalance. destruct (nonceCheck t msg); [by intros [= _ <-]|].
  assert (Hsame' : exists tr, set_state (t_state t) t = set_state (set_txn tr (t_state t)) t) by (exists (txn (t_state t)); by destruct (t_state t)).
  destruct (Z.sgn _ =? 0); [by intros [= _ <-]|]. destruct (_ <? _); [by intros [= _ <-]|]. intros [= _ <-].
  unfold upsertAccount. destruct (getStateObject _ _); [|]; eexists; reflexivity.
Qed.

(** An error leaves all but the tree, which is reverted. *)
Lemma apply_failed t msg e t1 :
  paid_at (t_config t) msg -> apply t msg = Some (Err e, t1) -> exists tr, t1 = set_state (set_txn tr (t_state t)) t.
Proof.
  intros (cost & Hcost & Hc & Hg). unfold apply.
  destruct (if TxType msg =? StateTx then (checkAndProcessStateTx msg, t) else checkAndProcessLegacyTx msg t) as [err t0] eqn:E.
  assert (Ht0 : exists tr, t0 = set_state (set_txn tr (t_state t)) t).
  { destruct (TxType msg =? StateTx); [|by eapply legacy_failed]. injection E as _ <-. exists (txn (t_state t)). by destruct t as [? [] ? ? ? ? ? ? ?]. }
  destruct err as [e0|]; [by intros [= _ <-]|]. unfold subGasPool. destruct (t_gasPool t0 <? Gas msg); [by intros [= _ <-]|].
  destruct Ht0 as (tr & ->). cbn [t_config set_gasPool set_state]. rewrite Hcost, u64_small, (proj2 (Z.ltb_ge _ _)) by lia.
  destruct (execute _ msg _) as [[r t2]|]; [|done]. by destruct (settle t2 msg r).
Qed.

Lemma Apply_failed t msg e t1 :
  paid_at (t_config t) msg -> Apply None t msg = Some (Err e, t1) -> tbare t1 = tbare t /\ t_receipts t1 = t_receipts t.
Proof.
  intros Hp. unfold Apply. destruct (txn_Snapshot (t_state t)) as [id s] eqn:Es. injection Es as <- <-.
  destruct (apply _ msg) as [[[r|e0] t2]|] eqn:Ea; [done| |done]. apply apply_failed in Ea as (tr & ->); [|done].
  unfold revert, RevertToSnapshot. cbn [t_state set_state set_txn snapshots]. rewrite length_app. cbn [length].
  rewrite (proj2 (Z.ltb_ge _ _)), Nat2Z.id, list_lookup_middle by lia. intros [= _ <-]. by destruct t as [? [] ? ? ? ? ? ? ?].
Qed.
End Replay.
