(* ===== verification/ExecutorSample.v ===== *)
(** * A small chain, for witnesses and counterexamples

    The codec and the cryptographic library are toys with the documented sizes,
    radix tree and cache are association lists. [toy_snapshot] is a trie of a few accounts given as a list. *)

From S2P Require Import Prelude ChainTypes BigInt Runtime Receipts EvmState EvmInstr EvmRun.
From S2P Require Import StateTxn StateLemmas Precompiled Executor.
Local Open Scope go_scope.

(** ** Libraries *)

#[global] Instance toy_codec : Codec := {|
  fastrlp_MarshalTo := fun v =>
    match v with VArray [VBytes a; VUint n] => a ++ [n mod 256] | _ => [] end;
  keccak256 := fun l => be_bytes 32 (be_val l * 3 + 7) |}.

#[global] Instance toy_codec_laws : CodecLaws.
Proof. split; intros b; [apply (be_bytes_length 32)|apply (be_bytes_ok 32)]. Qed.

#[global] Instance toy_crypto : CryptoLib := {|
  sha256_Sum := fun l => be_bytes 32 (be_val l); ripemd160_Sum := fun l => be_bytes 20 (be_val l);
  btcec_RecoverCompact := fun _ _ => None;
  G1 := unit; G2 := unit; G1_Unmarshal := fun _ => None; G1_Marshal := fun _ => be_bytes 64 0;
  G1_Add := fun _ _ => tt; G1_ScalarMult := fun _ _ => tt; G2_Unmarshal := fun _ => None;
  PairingCheck := fun _ _ => true; abi_EncodeBool := fun b => be_bytes 32 (if b then 1 else 0);
  BlsSignature := unit; BlsPublicKey := unit; abi_DecodeInput := fun _ => None;
  abi_DecodeKeys := fun _ => None; UnmarshalSignature := fun _ => None;
  UnmarshalPublicKey := fun _ => None; VerifyAggregated := fun _ _ _ => false |}.

#[global] Instance toy_crypto_laws : CryptoLaws.
Proof.
  split; intros x; (split; [apply (be_bytes_ok _)|apply (be_bytes_length _)]).
Qed.

#[global] Instance toy_abi : AllowListABI := {|
  SetAdminFunc_ID := [1; 1; 1; 1]; SetEnabledSignatureFunc_ID := [2; 2; 2; 2];
  SetNoneFunc_ID := [3; 3; 3; 3]; ReadAllowListFunc_ID := [4; 4; 4; 4] |}.

(** ** Chains *)

Abbreviation toy_txn := (Txn alist (list (Z * list Z))).
Abbreviation toy_transition := (Transition alist (list (Z * list Z))).

(** Accounts with a code and the value of storage slot 0. *)
Record toy_account := mkToy { y_address : Address; y_account : Account; y_code : list Z; y_slot : Hash }.

Definition toy_snapshot (l : list toy_account) : readSnapshot := {|
  sn_GetStorage := fun a r k =>
    if (r =? emptyStateHash) || negb (k =? 0) then 0
    else match find (fun x => y_address x =? a) l with Some x => y_slot x mod 2 ^ 256 | None => 0 end;
  sn_GetAccount := fun a => Ok (y_account <$> find (fun x => y_address x =? a) l);
  sn_GetCode := fun h =>
    y_code <$> find (fun x => BytesToHash (a_CodeHash (y_account x)) =? h) l |}.

(** An account without code, and a contract. *)
Definition toy_user (a : Address) (balance : Z) : toy_account :=
  mkToy a (mkAccount 0 balance emptyStateHash emptyCodeHash) [] 0.
Definition toy_contract (a : Address) (balance : Z) (code : list Z) (slot : Hash) : toy_account :=
  mkToy a (mkAccount 1 balance 1 (keccak256 code)) code slot.

Definition toy_ok (x : toy_account) : Prop :=
  bytes_ok (a_CodeHash (y_account x)) /\ slice_ok (y_code x) /\ 0 <= a_Balance (y_account x).

Lemma toy_find l f x : Forall toy_ok l -> find f l = Some x -> toy_ok x.
Proof. intros Hl [Hx _]%find_some. rewrite Forall_forall in Hl. by apply Hl, list_elem_of_In. Qed.

Lemma toy_snapshot_ok l : Forall toy_ok l -> snap_ok (toy_snapshot l).
Proof.
  intros Hl. split; cbn.
  - intros a acc. destruct (find _ l) as [x|] eqn:E; intros [= <-]. by apply toy_find in E as [? _].
  - intros a r k. unfold word. destruct (_ || _); [lia|].
    destruct (find _ l); [|lia]. by apply Z.mod_pos_bound.
  - done.
  - intros h c. destruct (find _ l) as [x|] eqn:E; intros [= <-]. by apply toy_find in E as (_ & ? & _).
Qed.

(** The money of a toy chain is the sum of the balances. *)
Lemma toy_supply l :
  Forall toy_ok l ->
  sup (fun a => match find (fun x => y_address x =? a) l with
                | Some x => Z.abs (a_Balance (y_account x))
                | None => 0
                end) (zsum ((fun x => a_Balance (y_account x)) <$> l)).
Proof.
  induction 1 as [|x l Hx Hl IH].
  - intros k _. cbn. induction k; [done|]. rewrite fmap_cons, zsum_cons. lia.
  - rewrite fmap_cons, zsum_cons, Z.add_comm. destruct Hx as (_ & _ & Hb).
    set (g := fun a => match find (fun x => y_address x =? a) l with
                | Some x => Z.abs (a_Balance (y_account x)) | None => 0 end) in *.
    assert (Hg : forall a, 0 <= g a) by (intros a; unfold g; destruct (find _ l); lia).
    set (h := fun a => g a + if decide (y_address x = a) then a_Balance (y_account x) else 0).
    apply (sup_le h).
    + intros b. specialize (Hg b). unfold h. cbn [find]. case_decide as Hd.
      * rewrite Hd, Z.eqb_refl. lia.
      * rewrite (proj2 (Z.eqb_neq _ _) Hd). fold (g b). lia.
    + apply (sup_add g _ (y_address x)); [| |done|done]; unfold h.
      * intros b Hne. rewrite decide_False by congruence. lia.
      * by rewrite decide_True.
Qed.

(** ** A block *)

Definition toy_forks : Forks :=
  Build_Forks (Some 0) (Some 0) (Some 0) (Some 0) (Some 0) (Some 0) (Some 0) (Some 0) (Some 0).
Definition toy_params (deployers : bool) : Params := mkParams toy_forks 100 deployers false.
Definition toy_header : Header :=
  mkHeader 0 EmptyUncleHash [] 0 0 0 [] 1 1 10000000 0 5 [] 0 0 0.

(** The block creator is account 300. *)
Definition toy_begin (l : list toy_account) : toy_transition :=
  BeginTxn (toy_params false) (toy_snapshot l) (fun _ => 0) toy_header 300.
Definition toy_block (deployers : bool) (l : list toy_account) (txs : list Transaction) :
  option (option TransitionApplicationError * toy_transition) :=
  ProcessBlock None (fun _ => None) (toy_params deployers) (toy_snapshot l) (fun _ => 0) toy_header txs 300.

(** A transaction of [from] at gas price 2. *)
Definition toy_tx (from nonce : Z) (to : option Address) (value gas : Z) (input : list Z) : Transaction :=
  mkTx nonce 2 gas to value input 0 0 0 1 from 0.

(** Observations of the final state of a block without error. *)
Definition observe {A} (f : toy_transition -> A)
  (o : option (option TransitionApplicationError * toy_transition)) : option A :=
  match o with Some (None, t) => Some (f t) | _ => None end.
