(* ===== verification/ExecutorProps.v ===== *)
(** * Theorems about the state transition

    What a well-formed transaction is, and the lemmas that carry the invariant of
    ExecutorInv through the transition: gas purchase, execution, settlement,
    receipts and the loop over the transactions of a block. BlockProps states the
    theorems. *)

From S2P Require Import Prelude ChainTypes BigInt Runtime Receipts EvmState EvmInstr EvmRun.
From S2P Require Import StateTxn StateLemmas Precompiled PrecompiledProps Executor ExecutorInv.
Local Open Scope go_scope.
Set Default Proof Using "Type*".

Record tx_ok (msg : Transaction) : Prop := {
  tx_gas : is_u64 (Gas msg);
  tx_price : 0 <= GasPrice msg;
  tx_value : word (TxValue msg);
  tx_input : slice_ok (Input msg);
  tx_from : addr_ok (From msg);
  tx_to : forall a, To msg = Some a -> addr_ok a }.

Section Props.
Context {T : Type -> Type} `{RadixLaws T} {C : Type} `{LruLaws Address (list Z) C}.
Context `{CodecLaws} `{CryptoLaws} `{AllowListABI}.
Abbreviation Txn := (Txn T C).
Abbreviation Transition := (Transition T C).
Implicit Types (s : Txn) (t : Transition).

(** A block in progress: well-formed, with at most [B] money and less than 2^60 gas. *)
Record trans_ok (B : Z) t : Prop := {
  tr_txn : txn_ok (t_state t);
  tr_sup : sup (txn_GetBalance (t_state t)) B;
  tr_block : block_ok t B;
  tr_pool : 0 <= t_gasPool t < 2 ^ 60 }.

Lemma inv_self base B t :
  txn_ok (t_state t) -> sup (txn_GetBalance (t_state t)) B ->
  base `prefix_of` snapshots (t_state t) -> inv t base B t.
Proof using Type. intros Ho Hs Hb. split; try done. by destruct t. Qed.

(** ** Execution of a transaction *)

Lemma block_ok_context B t price origin :
  block_ok t B -> word price -> addr_ok origin -> block_ok (set_tx_context t price origin) B.
Proof using Type. intros [[] Hh He Hb] Hp Ho. by split. Qed.

Lemma gas_price_word p : word (BytesToHash (Bytes p)).
Proof using Type. apply BytesToHash_word, Bytes_ok. Qed.

Lemma creation_contract_ok caller address value g code :
  addr_ok caller -> addr_ok address -> word value -> is_u64 g -> slice_ok code ->
  contract_ok (NewContractCreation 1 caller caller address (Some value) g code).
Proof using Type. intros. split; cbn; try done; [apply slice_ok_nil|by intros v [= <-]]. Qed.

Lemma message_contract_ok caller to value g code input :
  addr_ok caller -> addr_ok to -> word value -> is_u64 g -> slice_ok code -> slice_ok input ->
  contract_ok (NewContractCall 1 caller caller to (Some value) g code input).
Proof using Type. intros. split; cbn; try done. by intros v [= <-]. Qed.

Lemma execute_ok base B t msg g :
  trans_ok B t -> base `prefix_of` snapshots (t_state t) -> tx_ok msg -> 0 <= g < 2 ^ 60 ->
  exists r t', execute t msg g = Some (r, t') /\
    inv (set_tx_context t (BytesToHash (Bytes (GasPrice msg))) (From msg)) base B t' /\
    0 <= GasLeft r <= g.
Proof.
  intros [Ho Hs Hk Hp] Hb [Hgas Hprice Hval Hin Hfrom Hto] Hg. unfold execute.
  pose proof (block_ok_context _ _ _ _ Hk (gas_price_word (GasPrice msg)) Hfrom) as Hk1.
  set (t1 := set_tx_context t _ _) in *.
  assert (Hi : inv t1 base B t1) by (by apply inv_self).
  assert (Hgu : is_u64 g) by (unfold is_u64, two64; lia).
  destruct (To msg) as [to|].
  - unfold t_Call2. pose proof (IncrNonce_inv t1 base B t1 (From msg) Hi) as Hi2.
    set (t2 := set_state _ t1) in *.
    destruct (GetCode_inv _ _ _ _ to Hi2) as (Hc & Hi3 & _).
    destruct (txn_GetCode (t_state t2) to) as [code s3]. cbn [fst snd] in *.
    destruct (applyCall_ok nested 1 nested_ok _ _ _ (set_state s3 t2)
      (NewContractCall 1 (From msg) (From msg) to (Some (TxValue msg)) g code (Input msg)) Call Hk1 Hi3)
      as (r & t' & He & Hi' & [_ Hr] & _); [|cbn; lia|cbn; lia|].
    { apply message_contract_ok; auto. }
    by exists r, t'.
  - unfold t_Create2. set (address := CreateAddress _ _).
    destruct (applyCreate_ok nested 1 nested_ok _ _ _ t1
      (NewContractCreation 1 (From msg) (From msg) address (Some (TxValue msg)) g (Input msg)) Hk1 Hi)
      as (r & t' & He & Hi' & [_ Hr] & _); [|cbn; lia|cbn; lia|].
    { apply creation_contract_ok; auto. apply BytesToAddress_ok, Forall_drop, keccak256_bytes. }
    by exists r, t'.
Qed.

(** Gas left and gas used after the refund. *)
Lemma UpdateGasUsed_spec limit refund r :
  is_u64 limit -> 0 <= refund -> 0 <= GasLeft r <= limit ->
  let r' := UpdateGasUsed limit refund r in
  GasLeft r' + GasUsed r' = limit /\ GasLeft r <= GasLeft r' /\ (limit - GasLeft r) / 2 <= GasUsed r'.
Proof using Type.
  unfold is_u64. intros Hl Hr Hg. unfold UpdateGasUsed. cbn. rewrite (u64_small (limit - GasLeft r)) by lia.
  set (used := limit - GasLeft r). set (x := if used / 2 <? refund then used / 2 else refund).
  pose proof (Z.div_pos used 2 ltac:(lia) ltac:(lia)).
  pose proof (Z.mul_div_le used 2 ltac:(lia)).
  assert (0 <= x <= used / 2) by (unfold x; destruct (_ <? refund) eqn:E; breflect; lia).
  rewrite !u64_small by lia. lia.
Qed.

Lemma settle_ok t0 base B cost t msg r :
  inv t0 base (B - cost) t -> cost = GasPrice msg * Gas msg -> tx_ok msg ->
  0 <= GasLeft r <= Gas msg -> 0 <= t_gasPool t -> t_gasPool t + Gas msg < two64 ->
  let '(r', t') := settle t msg r in
  inv (set_gasPool (t_gasPool t + GasLeft r') t0) base B t' /\
  GasLeft r' + GasUsed r' = Gas msg /\ 0 <= GasLeft r' /\ 0 <= GasUsed r'.
Proof.
  intros Hi Hcost [Hgas Hprice Hval Hin Hfrom Hto] Hr Hp0 Hp. unfold settle. unfold is_u64 in Hgas.
  pose proof (tk_refund _ (i_txn _ _ _ _ Hi)) as [Href _].
  destruct (UpdateGasUsed_spec (Gas msg) (txn_GetRefund (t_state t)) r Hgas Href Hr) as (Hsum & Hle & Hu).
  set (r' := UpdateGasUsed _ _ r) in *.
  pose proof (Z.div_pos (Gas msg - GasLeft r) 2 ltac:(lia) ltac:(lia)).
  set (s1 := txn_AddBalance (t_state t) (From msg) (GasLeft r' * GasPrice msg)).
  set (s2 := txn_AddBalance s1 (ctx_Coinbase (t_ctx t)) (GasUsed r' * GasPrice msg)).
  assert (Hs1 : sup (txn_GetBalance s1) (B - cost + GasLeft r' * GasPrice msg)).
  { apply (sup_add (txn_GetBalance (t_state t)) _ (From msg)); [| |nia|apply Hi].
    - intros b Hb. unfold s1. rewrite GetBalance_Add by nia. rewrite decide_False by congruence. lia.
    - unfold s1. rewrite GetBalance_Add by nia. by rewrite decide_True. }
  assert (Hs2 : sup (txn_GetBalance s2) B).
  { replace B with (B - cost + GasLeft r' * GasPrice msg + GasUsed r' * GasPrice msg) by nia.
    apply (sup_add (txn_GetBalance s1) _ (ctx_Coinbase (t_ctx t))); [| |nia|done].
    - intros b Hb. unfold s2. rewrite GetBalance_Add by nia. rewrite decide_False by congruence. lia.
    - unfold s2. rewrite GetBalance_Add by nia. by rewrite decide_True. }
  destruct Hi as [Hf Ho Hn Hb _]. split; [|lia]. unfold addGasPool. cbn [t_gasPool set_state].
  rewrite u64_small by lia. split; cbn [t_state set_gasPool set_state].
  - rewrite Hf. done.
  - by apply AddBalance_ok, AddBalance_ok.
  - unfold s2, s1, txn_AddBalance. by rewrite !upsert_snapshot.
  - unfold s2, s1, txn_AddBalance. by rewrite !upsert_snapshots.
  - done.
Qed.

(** ** A transaction *)

(** [t'] is [t] with another state, context and gas pool, still well-formed. *)
Record carried (base : list (tree T)) (B : Z) t t' : Prop := {
  ca_ok : trans_ok B t';
  ca_snap : snapshot (t_state t') = snapshot (t_state t);
  ca_base : base `prefix_of` snapshots (t_state t');
  ca_frame : t' = set_state (t_state t') (set_ctx (t_ctx t') (set_gasPool (t_gasPool t') t)) }.

Lemma set_state_id t : set_state (t_state t) t = t.
Proof using Type. by destruct t. Qed.

Lemma carried_refl base B t : trans_ok B t -> base `prefix_of` snapshots (t_state t) -> carried base B t t.
Proof using Type. intros Ht Hb. split; try done. by destruct t. Qed.

Lemma trans_ok_mono B B' t : B <= B' -> B' < 2 ^ 256 -> trans_ok B t -> trans_ok B' t.
Proof using Type.
  intros HB HB' [Ho Hs [? ? ? _] Hp]. split; try done. by eapply sup_mono.
Qed.

Lemma trans_ok_pool B t g : trans_ok B t -> 0 <= g < 2 ^ 60 -> trans_ok B (set_gasPool g t).
Proof using Type. intros [Ho Hs [] Hp] Hg. by split. Qed.

(** The checks before execution take the price of all gas, or change nothing. *)
Lemma check_ok B t msg err t1 :
  trans_ok B t -> tx_ok msg ->
  (if TxType msg =? StateTx then (checkAndProcessStateTx msg, t)
   else checkAndProcessLegacyTx msg t) = (err, t1) ->
  match err with
  | Some _ => t1 = t
  | None => t1 = set_state (t_state t1) t /\ trans_ok (B - GasPrice msg * Gas msg) t1 /\
      snapshot (t_state t1) = snapshot (t_state t) /\ snapshots (t_state t1) = snapshots (t_state t)
  end.
Proof.
  intros [Ho Hs Hk Hp] Hm. pose proof (tx_price _ Hm) as Hprice. pose proof (tx_gas _ Hm) as [Hgas _].
  set (cost := GasPrice msg * Gas msg). assert (Hcost : 0 <= cost) by (unfold cost; nia).
  assert (Hk' : block_ok t (B - cost)) by (destruct Hk; split; try done; lia).
  destruct (TxType msg =? StateTx).
  - intros [= <- <-]. unfold checkAndProcessStateTx.
    destruct (GasPrice msg =? 0) eqn:E0; cbn; [|done]. repeat case_match; try done. breflect.
    replace (B - cost) with B by (unfold cost; nia). rewrite set_state_id. done.
  - unfold checkAndProcessLegacyTx, subGasLimitPrice. destruct (nonceCheck t msg); [by intros [= <- <-]|].
    pose proof (SubBalance_ok (t_state t) (From msg) cost Ho) as Hok. fold cost.
    destruct (Sub_spec (t_state t) (From msg) cost Hcost) as [(e & He & _ & _)|(s1 & He & Hle & Hsh & Hbal)];
      rewrite He in Hok |- *; intros [= <- <-]; [apply set_state_id|]. cbn [t_state set_state] in *.
    split; [done|]. split; [|destruct Hsh as [[-> _]| ->]; split;
      by rewrite ?upsert_snapshot, ?upsert_snapshots].
    destruct Hk'. split; try done. apply (sup_sub (txn_GetBalance (t_state t)) _ (From msg)); cbn; try done.
    + intros b Hb. rewrite Hbal, decide_False by congruence. lia.
    + rewrite Hbal, decide_True by done. done.
Qed.

Lemma intrinsic_pos msg h i : 0 < intrinsic_gas msg h i.
Proof using Type.
  unfold intrinsic_gas, TxGas, TxGasContractCreation.
  pose proof (length_filter (fun b => b = 0) (Input msg)). repeat case_match; lia.
Qed.

Lemma intrinsic_range msg h i c : TransactionGasCost msg h i = Some c -> Z.of_nat (length (Input msg)) < two64 -> is_u64 c.
Proof using Type.
  intros Hc Hl. rewrite TransactionGasCost_eq in Hc by done. destruct (_ <=? _) eqn:E; [|done].
  injection Hc as <-. breflect. pose proof (intrinsic_pos msg h i). unfold is_u64, MaxUint64 in *. lia.
Qed.

(** What the pool of gas and the gas of the result are after a transaction. *)
Definition gas_settled t (msg : Transaction) (r : result TransitionApplicationError ExecutionResult) t' : Prop :=
  match r with
  | Ok r => t_gasPool t' = t_gasPool t - GasUsed r /\ GasLeft r + GasUsed r = Gas msg /\
      0 <= GasLeft r /\ 0 <= GasUsed r
  | Err _ => t_gasPool t' <= t_gasPool t
  end.

(** From the state after the checks: execution and settlement. *)
Lemma execute_settle_ok base B t msg g :
  trans_ok (B - GasPrice msg * Gas msg) t -> B < 2 ^ 256 -> base `prefix_of` snapshots (t_state t) ->
  tx_ok msg -> 0 <= g <= Gas msg -> t_gasPool t + Gas msg < 2 ^ 60 ->
  exists r t1, execute t msg g = Some (r, t1) /\
    let '(r', t') := settle t1 msg r in
    carried base B t t' /\ t_gasPool t' = t_gasPool t + GasLeft r' /\
    GasLeft r' + GasUsed r' = Gas msg /\ 0 <= GasLeft r' /\ 0 <= GasUsed r'.
Proof.
  intros Ht HB Hb Hm Hg Hpool. pose proof (tr_pool _ _ Ht) as [Hp0 Hp].
  destruct (execute_ok base _ t msg g Ht Hb Hm) as (r & t1 & He & Hi & Hr); [lia|].
  exists r, t1. split; [done|].
  set (t0 := set_tx_context _ _ _) in Hi.
  assert (Hpt : t_gasPool t1 = t_gasPool t) by (by rewrite (i_frame _ _ _ _ Hi)).
  pose proof (settle_ok t0 base B _ t1 msg r Hi eq_refl Hm) as Hs. unfold two64 in Hs.
  destruct (settle t1 msg r) as [r' t'].
  destruct Hs as (Hi' & Hsum & Hl & Hu); [lia..|]. rewrite Hpt in Hi'.
  assert (Hpt' : t_gasPool t' = t_gasPool t + GasLeft r') by (by rewrite (i_frame _ _ _ _ Hi')).
  split; [|by rewrite Hpt']. destruct Hi' as [Hf Ho Hn Hbs Hsup]. split; try done.
  - split; [done|done| |lia]. rewrite Hf.
    destruct (block_ok_context _ _ _ _ (tr_block _ _ Ht) (gas_price_word (GasPrice msg)) (tx_from _ Hm)).
    by split.
  - rewrite Hf. by destruct t.
Qed.

Lemma apply_ok base B t msg :
  trans_ok B t -> base `prefix_of` snapshots (t_state t) -> tx_ok msg ->
  exists r t', apply t msg = Some (r, t') /\ carried base B t t' /\ gas_settled t msg r t'.
Proof.
  intros Ht Hb Hm. pose proof (tr_pool _ _ Ht) as Hpool. pose proof (tx_gas _ Hm) as [Hg0 Hg1].
  pose proof (bk_supply _ _ (tr_block _ _ Ht)) as HB. pose proof (tx_price _ Hm) as Hprice.
  unfold apply. destruct (if TxType msg =? StateTx then _ else _) as [err t1] eqn:Ec.
  pose proof (check_ok B t msg err t1 Ht Hm Ec) as Hc. destruct err as [e|].
  { subst. eexists _, _. split; [done|]. split; [by apply carried_refl|]. cbn. lia. }
  destruct Hc as (Hf & Ht1 & Hn & Hss). set (cost := GasPrice msg * Gas msg) in *.
  assert (Hcost : 0 <= cost) by (unfold cost; nia).
  assert (Hp1 : t_gasPool t1 = t_gasPool t) by (by rewrite Hf).
  assert (Hcar : carried base B t t1).
  { split; [by apply (trans_ok_mono (B - cost)); [lia|..]|done|by rewrite Hss|]. rewrite Hf. by destruct t. }
  unfold subGasPool. rewrite Hp1. destruct (t_gasPool t <? Gas msg) eqn:E; breflect.
  { eexists _, _. split; [done|]. split; [done|]. cbn. lia. }
  rewrite u64_small by (unfold two64; lia). set (t2 := set_gasPool (t_gasPool t - Gas msg) t1).
  assert (Ht2 : trans_ok (B - cost) t2) by (apply trans_ok_pool; [done|lia]).
  assert (Hf2 : t2 = set_state (t_state t2) (set_gasPool (t_gasPool t - Gas msg) t)).
  { unfold t2. by rewrite Hf. }
  assert (Herr : forall e, exists r t', Some (Err e, t2) = Some (r, t') /\ carried base B t t' /\ gas_settled t msg r t').
  { intros e. eexists _, _. split; [done|]. split; [|cbn; lia].
    split; [by apply (trans_ok_mono (B - cost)); [lia|..]|done|cbn; by rewrite Hss|]. rewrite Hf2. by destruct t. }
  change (t_config t1) with (t_config t2). destruct (TransactionGasCost _ _ _) as [c|] eqn:Eg; [|apply Herr].
  apply intrinsic_range in Eg as [Hc0 Hc1]; [|destruct (tx_input _ Hm); unfold two64; lia].
  destruct (Gas msg <? Gas msg -u c) eqn:E2; [apply Herr|]. breflect.
  destruct (execute_settle_ok base B t2 msg (Gas msg -u c) Ht2 HB) as (r & t3 & -> & Hs);
    [cbn; by rewrite Hss|done|pose proof (u64_range (Gas msg - c)); lia|cbn; lia|].
  destruct (settle t3 msg r) as [r' t']. destruct Hs as ([Hk Hkn Hkb Hkf] & Hp' & Hs). cbn in Hp', Hkn.
  eexists _, _. split; [done|]. split; [|cbn; lia]. split; try done; [by rewrite Hkn|].
  rewrite Hkf. rewrite Hf2. by destruct t.
Qed.

(** [Apply] with no hook: an error gives the old tree back. *)
Lemma Apply_ok B t msg :
  trans_ok B t -> tx_ok msg ->
  exists r t', Apply None t msg = Some (r, t') /\ carried (snapshots (t_state t)) B t t' /\
    gas_settled t msg r t' /\ (forall e, r = Err e -> txn (t_state t') = txn (t_state t)).
Proof.
  intros Ht Hm. unfold Apply. cbn [txn_Snapshot]. set (s1 := mkTxn _ _ _ _).
  assert (Ht1 : trans_ok B (set_state s1 t)).
  { destruct Ht as [Ho Hs [] Hp]. split; try done. by apply (snapshot_ok (t_state t)). }
  destruct (apply_ok (snapshots (t_state t) ++ [txn (t_state t)]) B _ msg Ht1) as (r & t' & -> & Hc & Hg);
    [done|done|]. destruct Hc as [Hok Hn [rest Hb] Hf]. cbn [t_state set_state snapshot s1] in Hn.
  destruct r as [r|e].
  - exists (Ok r), t'. split; [done|]. split; [|by split]. split; try done.
    rewrite Hb, <- app_assoc. by apply prefix_app_r.
  - unfold revert, RevertToSnapshot. rewrite (proj2 (Z.ltb_ge _ _)) by (rewrite Hb, !length_app; lia).
    rewrite Nat2Z.id, Hb, <- app_assoc, lookup_app_r, Nat.sub_diag by lia. cbn [app lookup list_lookup].
    eexists _, _. split; [done|]. split; [|split; [done|]].
    2: { by intros. }
    destruct Hok as [[Hsn Htr Hca Hre] Hs [] Hp]. split; cbn [t_state set_state set_txn snapshot snapshots]; [|done| |].
    + destruct Ht as [[Hsn0 Htr0 _ Hre0] Hs0 _ _]. split; try done.
      eapply sup_eq; [|exact Hs0]. intros b. unfold txn_GetBalance. by rewrite (getStateObject_eq (t_state t)).
    + rewrite Hb, <- app_assoc. by apply prefix_app_r.
    + rewrite Hf. by destruct t.
Qed.

(** ** Blocks *)

Section Block.
Context (Sender : Transaction -> option Address).
Context (Hsender : forall tx a, Sender tx = Some a -> addr_ok a).

(** The cumulative gas of the receipts is the running sum of their gas. *)
Fixpoint running (acc : Z) (l : list Z) : list Z :=
  match l with [] => [] | x :: l => (acc + x) :: running (acc + x) l end.

Record progress (B limit : Z) t : Prop := {
  pg_trans : trans_ok B t;
  pg_gas : t_totalGas t + t_gasPool t <= limit;
  pg_sum : t_totalGas t = zsum (r_GasUsed <$> t_receipts t);
  pg_nonneg : Forall (fun r => 0 <= r_GasUsed r) (t_receipts t);
  pg_running : CumulativeGasUsed <$> t_receipts t = running 0 (r_GasUsed <$> t_receipts t) }.

Lemma running_app acc l x : running acc (l ++ [x]) = running acc l ++ [acc + zsum l + x].
Proof using Type.
  revert acc. induction l as [|y l IH]; intros acc; cbn [app running].
  - f_equal. cbn. lia.
  - rewrite IH, zsum_cons. cbn. do 3 f_equal. lia.
Qed.

Lemma progress_total B limit t : progress B limit t -> 0 <= t_totalGas t.
Proof using Type.
  intros [_ _ -> Hn _]. apply zsum_nonneg, Forall_fmap. eapply Forall_impl; [exact Hn|]. done.
Qed.

(** A receipt for [g] gas taken out of the pool. *)
Lemma progress_receipt B limit t t1 r g :
  progress B limit t -> trans_ok B t1 -> t_receipts t1 = t_receipts t -> 0 <= g ->
  t_gasPool t1 <= t_gasPool t - g -> r_GasUsed r = g -> CumulativeGasUsed r = t_totalGas t + g ->
  progress B limit (set_totals (t_receipts t ++ [r]) (t_totalGas t + g) t1).
Proof using Type.
  intros [Ht Hg Hs Hn Hr] [Ho Hsup [] Hp] Hrec Hg0 Hpool Hrg Hcu. split; cbn.
  - by split.
  - lia.
  - rewrite fmap_app, zsum_app, Hs. cbn. lia.
  - apply Forall_app. split; [done|]. constructor; [lia|done].
  - rewrite !fmap_app. cbn [fmap list_fmap]. rewrite running_app, Hr, Hcu, Hrg, Hs. done.
Qed.

Lemma trans_ok_logs B t l :
  trans_ok B t -> trans_ok B (set_state (set_logs l (t_state t)) t).
Proof using Type. intros [Ho Hs [] Hp]. split; try done. by apply set_logs_ok. Qed.

Lemma Logs_ok B t : trans_ok B t -> trans_ok B (set_state (snd (txn_Logs (t_state t))) t).
Proof using Type.
  intros Ht. unfold txn_Logs. destruct (tr_logs _); [by apply trans_ok_logs|]. by destruct t.
Qed.

(** What one step of [ProcessBlock] ends in. *)
Definition stepped (B limit : Z) t (o : option (option TransitionApplicationError * Transition)) : Prop :=
  exists e t', o = Some (e, t') /\ progress B limit t' /\
    (e = None -> length (t_receipts t') = S (length (t_receipts t))).

Lemma recover_ok tx tx' : tx_ok tx -> recover_from Sender tx = Some tx' -> tx_ok tx'.
Proof using Hsender.
  intros [] Hr. unfold recover_from in Hr. destruct (_ && _); [|by injection Hr as <-].
  destruct (Sender tx) as [a|] eqn:E; [|done]. injection Hr as <-. split; try done. by apply (Hsender tx).
Qed.

Lemma WriteFailedReceipt_ok B limit t tx :
  progress B limit t -> stepped B limit t (WriteFailedReceipt Sender t tx).
Proof using Type.
  intros Hp. unfold WriteFailedReceipt. destruct (recover_from Sender tx) as [tx'|].
  2: { eexists _, _. split; [done|]. split; [done|]. done. }
  pose proof (Logs_ok B t (pg_trans _ _ _ Hp)) as Hl.
  destruct (txn_Logs (t_state t)) as [logs s] eqn:El. cbn [snd] in Hl.
  eexists _, _. split; [done|]. split.
  - pose proof (progress_receipt B limit t (set_state s t)
      (mkReceipt ZeroHash (t_totalGas t) (CreateBloom [mkReceipt ZeroHash (t_totalGas t) [] logs None 0 None (TxHash tx') (TxType tx')])
         logs (Some ReceiptFailed) 0 match To tx' with Some _ => None | None => Some (CreateAddress (From tx') (Nonce tx')) end
         (TxHash tx') (TxType tx')) 0 Hp Hl eq_refl) as Hq.
    rewrite Z.add_0_r in Hq. apply Hq; try done. cbn. lia.
  - intros _. cbn. rewrite length_app. cbn. lia.
Qed.

Lemma write_receipt_ok B limit t t1 tx result :
  progress B limit t -> limit < 2 ^ 60 -> trans_ok B t1 ->
  t_receipts t1 = t_receipts t -> t_totalGas t1 = t_totalGas t ->
  0 <= GasUsed result -> t_gasPool t1 = t_gasPool t - GasUsed result ->
  stepped B limit t (write_receipt t1 tx result).
Proof using Type*.
  intros Hp Hlim Ht1 Hrec Htot Hu Hpool. unfold write_receipt.
  pose proof (progress_total _ _ _ Hp) as Ht0. pose proof (pg_gas _ _ _ Hp) as Hpg.
  pose proof (tr_pool _ _ Ht1) as [Hp0 _].
  pose proof (Logs_ok B t1 Ht1) as Hl. destruct (txn_Logs (t_state t1)) as [logs s]. cbn [snd] in Hl.
  destruct (CleanDeleteObjects_spec s true) as (s' & He & _). rewrite He.
  destruct (Clean_ok s true s' B He (tr_txn _ _ Hl) (tr_sup _ _ Hl)) as [Hok Hsup].
  rewrite Htot, u64_small by (unfold two64; lia). rewrite Hrec.
  eexists _, _. split; [done|]. split.
  - apply (progress_receipt B limit t (set_state s' t1)); try done; [|cbn; lia].
    destruct Hl as [_ _ [] Hpp]. by split.
  - intros _. cbn. rewrite length_app. cbn. lia.
Qed.

Lemma Write_ok B limit t tx :
  progress B limit t -> limit < 2 ^ 60 -> tx_ok tx -> stepped B limit t (Write None Sender t tx).
Proof using Type*.
  intros Hp Hlim Htx. unfold Write. destruct (recover_from Sender tx) as [tx'|] eqn:Er.
  2: { eexists _, _. split; [done|]. split; [done|]. done. }
  apply recover_ok in Er as Htx'; [|done].
  destruct (Apply_ok B t tx' (pg_trans _ _ _ Hp) Htx') as (r & t1 & -> & [Hok Hn Hb Hf] & Hg & _).
  assert (Hrec : t_receipts t1 = t_receipts t) by (by rewrite Hf).
  assert (Htot : t_totalGas t1 = t_totalGas t) by (by rewrite Hf).
  destruct r as [r|e]; cbn in Hg.
  - by apply (write_receipt_ok B limit t); [..|lia|lia].
  - eexists _, _. split; [done|]. split; [|done]. destruct Hp as [Ht Hgas Hs Hnn Hr].
    split; rewrite ?Hrec, ?Htot; try done. lia.
Qed.

Lemma ProcessBlock_ok B limit txs t :
  progress B limit t -> limit < 2 ^ 60 -> Forall tx_ok txs ->
  exists e t', fold_left (process_tx None Sender limit) txs (Some (None, t)) = Some (e, t') /\
    progress B limit t' /\ (e = None -> length (t_receipts t') = (length (t_receipts t) + length txs)%nat).
Proof using Type*.
  intros Hp Hlim Htxs. revert t Hp. induction Htxs as [|tx txs Htx Htxs IH]; intros t Hp.
  { exists None, t. split; [done|]. split; [done|]. cbn. lia. }
  cbn [fold_left]. assert (Hst : stepped B limit t (process_tx None Sender limit (Some (None, t)) tx)).
  { cbn. destruct (ExceedsBlockGasLimit tx limit); [by apply WriteFailedReceipt_ok|by apply Write_ok]. }
  destruct Hst as (e & t1 & -> & Hp1 & Hl). destruct e as [e|].
  - exists (Some e), t1. split; [|done]. clear. induction txs; [done|by cbn].
  - destruct (IH t1 Hp1) as (e & t' & -> & Hp' & Hl'). exists e, t'. split; [done|]. split; [done|].
    intros He. rewrite Hl', Hl by done. cbn. lia.
Qed.

(** The balance of an account in the trie. *)
Definition snap_balance (sn : readSnapshot) (a : Address) : Z :=
  match sn_GetAccount sn a with Ok (Some acc) => Z.abs (a_Balance acc) | _ => 0 end.

(** A block to process: over a well-formed trie with at most [B] money, from EIP-150 on. *)
Record block_input (config : Params) (snap : readSnapshot) (getHash : Z -> Hash) (header : Header)
  (creator : Address) (B : Z) : Prop := {
  bi_snap : snap_ok snap;
  bi_supply : sup (snap_balance snap) B;
  bi_bound : B < 2 ^ 256;
  bi_hash : forall n, word (getHash n);
  bi_fork : EIP150 (Forks_At (p_Forks config) (h_Number header)) = true;
  bi_number : 0 <= h_Number header < 2 ^ 63;
  bi_time : 0 <= h_Timestamp header < 2 ^ 63;
  bi_limit : 0 <= h_GasLimit header < 2 ^ 60;
  bi_creator : addr_ok creator }.

Lemma newTxn_ok snap : snap_ok snap -> txn_ok (newTxn (T := T) (C := C) snap).
Proof using All - (Hsender Sender).
  intros Hs. split; cbn; try done.
  - intros a o. cbn. by rewrite rx_Get_New.
  - intros a b. by rewrite lru_peek_New.
Qed.

Lemma newTxn_balance snap a : txn_GetBalance (newTxn (T := T) (C := C) snap) a = snap_balance snap a.
Proof using All - (Hsender Sender).
  unfold txn_GetBalance, getStateObject, snap_balance. cbn. rewrite rx_Get_New.
  by destruct (sn_GetAccount snap a) as [[acc|]|].
Qed.

Lemma BeginTxn_ok config snap getHash header creator B :
  block_input config snap getHash header creator B ->
  progress B (h_GasLimit header) (BeginTxn (T := T) (C := C) config snap getHash header creator).
Proof using All - (Hsender Sender).
  intros [Hs Hsup HB Hh Hf Hn Hti Hl Hc]. unfold BeginTxn.
  assert (Hi : forall x, 0 <= x < 2 ^ 63 -> i64 x = x) by (intros x Hx; unfold i64, two64; rewrite Z.mod_small; lia).
  rewrite !Hi by lia. split; cbn; rewrite ?u64_small by (unfold two64; lia); try done; try lia.
  split; cbn; rewrite ?u64_small by (unfold two64; lia); [by apply newTxn_ok| | |done].
  - eapply sup_eq; [|exact Hsup]. intros b. apply newTxn_balance.
  - split; cbn; try done. split; cbn; first [done|lia|apply gas_price_word].
Qed.
End Block.
End Props.
