(* ===== verification/BlockProps.v ===== *)
(** * Theorems about transactions and blocks

    A block of well-formed transactions is processed without a panic, within its
    gas limit and without creating money; failed transactions and calls leave the
    state as it was; read-only calls do not write. *)

From S2P Require Import Prelude ChainTypes BigInt Runtime Receipts EvmState EvmInstr EvmRun.
From S2P Require Import StateTxn StateLemmas Precompiled PrecompiledProps.
From S2P Require Import Executor ExecutorInv ExecutorSample ExecutorProps.
Local Open Scope go_scope.
Set Default Proof Using "Type*".

Section Claims.
Context {T : Type -> Type} `{RadixLaws T} {C : Type} `{LruLaws Address (list Z) C}.
Context `{CodecLaws} `{CryptoLaws} `{AllowListABI}.
Abbreviation Txn := (Txn T C).
Abbreviation Transition := (Transition T C).
Implicit Types (s : Txn) (t : Transition).

(** C1. Processing a block of well-formed transactions does not panic, whatever the
    contracts called do: every call chain ends within the depth limit. The gas of
    the block is the sum of the gas of its receipts and at most the gas limit, the
    cumulative gas of the receipts is the running sum, and unless an error stops
    the block there is one receipt per transaction. *)
Theorem ProcessBlock_safe config snap getHash header creator B Sender txs :
  block_input config snap getHash header creator B ->
  (forall tx a, Sender tx = Some a -> addr_ok a) -> Forall tx_ok txs ->
  exists err t', ProcessBlock (T := T) (C := C) None Sender config snap getHash header txs creator = Some (err, t') /\
    t_totalGas t' = zsum (r_GasUsed <$> t_receipts t') /\ t_totalGas t' <= h_GasLimit header /\
    CumulativeGasUsed <$> t_receipts t' = running 0 (r_GasUsed <$> t_receipts t') /\
    (err = None -> length (t_receipts t') = length txs).
Proof.
  intros Hin Hsend Htxs. unfold ProcessBlock. pose proof (bi_limit _ _ _ _ _ _ Hin) as [_ Hl].
  destruct (ProcessBlock_ok Sender Hsend B _ txs _ (BeginTxn_ok _ _ _ _ _ _ Hin) Hl Htxs)
    as (err & t' & He & [Ht Hg Hs _ Hr] & Hlen).
  exists err, t'. pose proof (tr_pool _ _ Ht). split_and!; try done. lia.
Qed.

(** C2. Processing a block creates no money: if the balances in the trie sum up to
    at most [B], so do the balances after the block, over any set of accounts, with
    fees, refunds, calls, creations, selfdestructs and native transfers included. *)
Theorem ProcessBlock_supply config snap getHash header creator B Sender txs err t' l :
  block_input config snap getHash header creator B ->
  (forall tx a, Sender tx = Some a -> addr_ok a) -> Forall tx_ok txs ->
  ProcessBlock (T := T) (C := C) None Sender config snap getHash header txs creator = Some (err, t') ->
  NoDup l -> zsum (txn_GetBalance (t_state t') <$> l) <= B.
Proof.
  intros Hin Hsend Htxs Hpb Hnd. unfold ProcessBlock in Hpb. pose proof (bi_limit _ _ _ _ _ _ Hin) as [_ Hl].
  destruct (ProcessBlock_ok Sender Hsend B _ txs _ (BeginTxn_ok _ _ _ _ _ _ Hin) Hl Htxs)
    as (err' & t1 & He & Hp & _).
  rewrite Hpb in He. injection He as <- <-. by apply (tr_sup _ _ (pg_trans _ _ _ Hp)).
Qed.

(** ** Errors of a transaction *)

(** The first condition a transaction violates, over unbounded integers. *)
Definition tx_error t (msg : Transaction) : option TransitionApplicationError :=
  let need := intrinsic_gas msg (Homestead (t_config t)) (Istanbul (t_config t)) in
  if decide (txn_GetNonce (t_state t) (From msg) = Nonce msg) then
    if decide (GasPrice msg * Gas msg <= txn_GetBalance (t_state t) (From msg)) then
      if decide (Gas msg <= t_gasPool t) then
        if decide (need < 2 ^ 64) then
          if decide (need <= Gas msg) then None
          else Some (NewTransitionApplicationError ErrNotEnoughIntrinsicGas false)
        else Some (NewTransitionApplicationError ErrIntrinsicGasOverflow false)
      else Some (NewGasLimitReachedTransitionApplicationError ErrBlockLimitReached)
    else Some (NewTransitionApplicationError ErrNotEnoughFundsForGas true)
  else Some (NewTransitionApplicationError ErrNonceIncorrect true).

Lemma legacy_error t msg :
  0 <= GasPrice msg * Gas msg ->
  checkAndProcessLegacyTx msg t =
  if decide (txn_GetNonce (t_state t) (From msg) = Nonce msg) then
    if decide (GasPrice msg * Gas msg <= txn_GetBalance (t_state t) (From msg))
    then (None, set_state (snd (txn_SubBalance (t_state t) (From msg) (GasPrice msg * Gas msg))) t)
    else (Some (NewTransitionApplicationError ErrNotEnoughFundsForGas true), t)
  else (Some (NewTransitionApplicationError ErrNonceIncorrect true), t).
Proof.
  intros Hc. unfold checkAndProcessLegacyTx, nonceCheck, subGasLimitPrice.
  case_decide as Hd; [rewrite Hd, Z.eqb_refl|by rewrite (proj2 (Z.eqb_neq _ _) Hd)]. cbn [negb].
  destruct (Sub_spec (t_state t) (From msg) _ Hc) as [(e & -> & _ & Hl)|(s1 & -> & Hl & _)]; cbn [snd].
  - rewrite decide_False by lia. by rewrite set_state_id.
  - by rewrite decide_True by lia.
Qed.

(** The state in which a transaction that passes the checks is executed. *)
Definition charged t (msg : Transaction) : Transition :=
  set_gasPool (t_gasPool t - Gas msg)
    (set_state (snd (txn_SubBalance (t_state t) (From msg) (GasPrice msg * Gas msg))) t).

Lemma apply_cases t msg :
  tx_ok msg -> TxType msg <> StateTx -> is_u64 (t_gasPool t) ->
  (exists e t', tx_error t msg = Some e /\ apply t msg = Some (Err e, t')) \/
  tx_error t msg = None /\
  let need := intrinsic_gas msg (Homestead (t_config t)) (Istanbul (t_config t)) in
  need <= Gas msg /\ GasPrice msg * Gas msg <= txn_GetBalance (t_state t) (From msg) /\
  apply t msg = match execute (charged t msg) msg (Gas msg - need) with
                | None => None
                | Some (r, t) => let '(r, t) := settle t msg r in Some (Ok r, t)
                end.
Proof.
  intros Hm Hty [Hp0 Hp1]. pose proof (tx_gas _ Hm) as [Hg0 Hg1]. pose proof (tx_price _ Hm) as Hpr.
  unfold apply, tx_error. rewrite (proj2 (Z.eqb_neq _ _) Hty), legacy_error by nia.
  destruct (decide (txn_GetNonce _ _ = _)); [|left; by eexists _, _].
  destruct (decide (GasPrice msg * Gas msg <= _)); [|left; by eexists _, _].
  set (t1 := set_state _ t). unfold subGasPool. change (t_gasPool t1) with (t_gasPool t).
  destruct (t_gasPool t <? Gas msg) eqn:E; breflect; [rewrite decide_False by lia; left; by eexists _, _|].
  rewrite decide_True by lia. rewrite u64_small by lia. change (set_gasPool _ t1) with (charged t msg).
  change (t_config (charged t msg)) with (t_config t).
  rewrite TransactionGasCost_eq by (destruct (tx_input _ Hm); unfold two64; lia).
  pose proof (intrinsic_pos msg (Homestead (t_config t)) (Istanbul (t_config t))) as Hi.
  set (need := intrinsic_gas _ _ _) in *. unfold MaxUint64, two64 in *. cbv zeta.
  destruct (need <=? _) eqn:E1; breflect; [rewrite decide_True by lia|rewrite decide_False by lia; left; by eexists _, _].
  case_decide as Hd.
  - right. split_and!; [done..|]. by rewrite u64_small, (proj2 (Z.ltb_ge _ _)) by (unfold two64; lia).
  - left. replace (Gas msg -u need) with (Gas msg - need + 2 ^ 64).
    + rewrite (proj2 (Z.ltb_lt _ _)) by lia. by eexists _, _.
    + unfold u64, two64. symmetry. rewrite <- (Z_mod_plus_full _ 1). apply Z.mod_small. lia.
Qed.

Lemma apply_error t msg r t' :
  tx_ok msg -> TxType msg <> StateTx -> is_u64 (t_gasPool t) -> apply t msg = Some (r, t') ->
  match r with Err e => tx_error t msg = Some e | Ok _ => tx_error t msg = None end.
Proof.
  intros Hm Hty Hp Ha. destruct (apply_cases t msg Hm Hty Hp) as [(e & t1 & He & Hap)|(He & _ & _ & Hap)];
    rewrite Ha in Hap; [by injection Hap as -> ->|].
  destruct (execute _ _ _) as [[r1 t1]|]; [|done]. destruct (settle t1 msg r1). by injection Hap as -> ->.
Qed.

Lemma tx_error_snapshot t msg :
  tx_error (set_state (snd (txn_Snapshot (t_state t))) t) msg = tx_error t msg.
Proof. done. Qed.

(** A transaction that is not a state transaction is rejected exactly if it
    violates a condition of [tx_error], with the error of the first condition it
    violates: nonce, funds for all its gas, gas left in the block, intrinsic gas. A
    rejected transaction leaves the state as it was. *)
Theorem Apply_errors B t msg :
  trans_ok B t -> tx_ok msg -> TxType msg <> StateTx ->
  exists r t', Apply None t msg = Some (r, t') /\
    match r with
    | Err e => tx_error t msg = Some e /\ txn (t_state t') = txn (t_state t)
    | Ok _ => tx_error t msg = None
    end.
Proof.
  intros Ht Hm Hty. destruct (Apply_ok B t msg Ht Hm) as (r & t' & He & Hc & Hg & Hrev).
  exists r, t'. split; [done|]. pose proof (tr_pool _ _ Ht). unfold Apply in He.
  destruct (txn_Snapshot (t_state t)) as [id s1] eqn:Es.
  destruct (apply (set_state s1 t) msg) as [[r1 t1]|] eqn:Ea; [|done].
  apply apply_error in Ea; [|done|done|unfold is_u64, two64; cbn; lia].
  replace s1 with (snd (txn_Snapshot (t_state t))) in Ea by (by rewrite Es).
  rewrite tx_error_snapshot in Ea.
  assert (r1 = r) as -> by (repeat case_match; congruence). destruct r; [done|]. split; [done|eauto].
Qed.

(** ** Calls *)

(** C34. A read-only call (static, no creation, no value), with everything it calls
    in turn, returns and leaves nonces, storage, logs and refund of all accounts as
    they were. *)
Theorem static_call_reads B t c :
  trans_ok B t -> contract_ok c -> 1 <= c_Depth c -> c_Gas c < 2 ^ 60 -> read_only c ->
  exists r t', nested t c = Some (r, t') /\ 0 <= GasLeft r <= c_Gas c /\
    (forall a, txn_GetNonce (t_state t') a = txn_GetNonce (t_state t) a) /\
    (forall a k, txn_GetState (t_state t') a k = txn_GetState (t_state t) a k) /\
    tr_logs (txn (t_state t')) = tr_logs (txn (t_state t)) /\
    txn_GetRefund (t_state t') = txn_GetRefund (t_state t).
Proof.
  intros [Ho Hs Hk Hp] Hc Hd Hg Hro.
  destruct (nested_ok t (snapshots (t_state t)) B t c Hk) as (r & t' & He & Hi & [_ Hgas] & Hct); [by apply inv_self|done..|].
  destruct (Hct Hro) as [Hn Hst Hl Hr]. exists r, t'. split_and!; try done; try apply Hgas.
  unfold txn_GetRefund. by rewrite Hr.
Qed.

Lemma Transfer_error t a b v e t' :
  (forall x, v = Some x -> 0 <= x) -> Transfer t a b v = (Some e, t') ->
  e = ErrInsufficientBalance /\ t' = t.
Proof.
  intros Hv. unfold Transfer. destruct v as [v|]; [|done].
  destruct (Sub_spec (t_state t) a v (Hv v eq_refl)) as [(e' & -> & -> & _)|(s' & -> & _)]; [|done].
  intros [= <- <-]. split; [done|apply set_state_id].
Qed.

(** C33. A failed call restores all accounts, storage, logs and refunds, as deep as
    the calls below it went. The one exception is a call whose value the caller
    cannot pay: it leaves the callee touched (which the end of the transaction
    removes again when it is empty). *)
Theorem failed_call_reverts B t c ty r t' :
  trans_ok B t -> contract_ok c -> 1 <= c_Depth c + 1 -> c_Gas c < 2 ^ 60 ->
  applyCall nested t c ty = Some (r, t') -> Failed r = true ->
  txn (t_state t') = txn (t_state t) \/
  ty = Call /\ ResErr r = Some ErrInsufficientBalance /\
    txn (t_state t') = txn (TouchAccount (t_state t) (c_Address c)).
Proof.
  intros [Ho Hs Hk Hp] Hc Hd Hg. assert (Hi : inv t (snapshots (t_state t)) B t) by (by apply inv_self).
  unfold applyCall. destruct (1024 + 1 <? c_Depth c); [intros [= <- <-]; by left|].
  cbn [txn_Snapshot]. set (s1 := mkTxn _ _ _ _).
  pose proof (snapshot_inv _ _ _ _ Hi) as Hi1. fold s1 in Hi1.
  destruct (Touch_inv nested 1 nested_ok _ _ _ _ (c_Address c) Hi1) as [Hi2 _]. cbn [t_state set_state] in Hi2.
  change (set_state (TouchAccount s1 (c_Address c)) (set_state s1 t))
    with (set_state (TouchAccount s1 (c_Address c)) t) in Hi2.
  set (t2 := set_state (TouchAccount s1 (c_Address c)) t) in *.
  pose proof (value_inv nested 1 nested_ok _ _ _ t2 c ty Hi2 Hc) as Hval.
  destruct (match ty with Call => _ | _ => _ end) as [err t3] eqn:Ev. destruct Hval as [Hi3 _].
  destruct err as [e|].
  - intros [= <- <-] _. right. destruct ty; try done.
    apply Transfer_error in Ev as [-> ->]; [|intros x Hx; apply (co_value _ Hc x Hx)].
    split_and!; [done|done|]. unfold t2, TouchAccount. cbn [t_state set_state]. by rewrite !upsert_true.
  - destruct (run_ok nested 1 nested_ok _ _ _ t3 c Hk Hi3 Hc Hd Hg) as (r1 & t4 & -> & Hi4 & Hr & _).
    destruct (Failed r1) eqn:Ef; [|intros [= <- <-]; congruence].
    destruct (revert_inv _ _ _ _ _ Hi Hi4) as (t5 & -> & _ & Ht5 & _). intros [= <- <-] _. by left.
Qed.

(** ** A plain transfer *)

Lemma EVM_Run_empty cx c t cfg :
  c_Code c = [] ->
  EVM_Run (H := transition_host cx) c t cfg = Some (mkResult [] (c_Gas c) (c_Gas c -u c_Gas c) None ZeroAddress, t).
Proof.
  intros Hc. unfold EVM_Run, state_Run. rewrite loop_until_iter.
  destruct (Pos.to_nat (Z.to_pos (c_Gas c + 1))) as [|n] eqn:En; [lia|].
  replace (S n) with (n + 1)%nat by lia. rewrite Nat.iter_add.
  set (s1 := Nat.iter 1 _ _).
  assert (Hs1 : s1 = Some (set_stop true (run_init c t cfg))).
  { unfold s1. cbn. unfold run_step, CurrentOpCode, run_init. by rewrite Hc. }
  by rewrite Hs1, loop_stopped by done.
Qed.

Lemma GetCode_same s s' a :
  getStateObject s' a = getStateObject s a -> codeCache s' = codeCache s -> snapshot s' = snapshot s ->
  fst (txn_GetCode s' a) = fst (txn_GetCode s a).
Proof.
  intros Hg Hc Hs. unfold txn_GetCode. rewrite Hg, Hc, Hs. repeat case_match; done.
Qed.

(** A call of an account without code that the caller can pay moves the value. *)
Lemma applyCall_plain t c v :
  c_Depth c = 1 -> c_Code c = [] -> c_Value c = Some v -> 0 <= v ->
  find_contract (c_CodeAddress c) = None -> t_deploymentAllowlist t = None -> t_txnAllowList t = None ->
  v <= txn_GetBalance (t_state t) (c_Caller c) ->
  exists t', applyCall nested t c Call = Some (mkResult [] (c_Gas c) (c_Gas c -u c_Gas c) None ZeroAddress, t') /\
    t_ctx t' = t_ctx t /\ tr_refund (txn (t_state t')) = tr_refund (txn (t_state t)) /\
    (forall a, txn_GetBalance (t_state t') a = txn_GetBalance (t_state t) a
       - (if decide (c_Caller c = a) then v else 0) + (if decide (c_Address c = a) then v else 0)) /\
    (forall a, txn_GetNonce (t_state t') a = txn_GetNonce (t_state t) a).
Proof.
  intros Hd Hcode Hv Hv0 Hfc Hda Hta Hle. unfold applyCall. rewrite Hd. cbn [Z.ltb Z.compare].
  replace (1024 + 1 <? 1) with false by done. cbn [txn_Snapshot]. set (s1 := mkTxn _ _ _ _).
  set (t2 := set_state _ t). rewrite Hv. unfold Transfer.
  assert (Hb2 : forall a, txn_GetBalance (t_state t2) a = txn_GetBalance (t_state t) a).
  { intros a. unfold t2. cbn. rewrite GetBalance_Touch. done. }
  assert (Hn2 : forall a, txn_GetNonce (t_state t2) a = txn_GetNonce (t_state t) a).
  { intros a. unfold t2. apply (GetNonce_keep s1); [apply object_at_live|done]. }
  destruct (Sub_spec (t_state t2) (c_Caller c) v Hv0) as [(e & _ & _ & Hlt)|(s3 & He & _ & Hsh & Hb3)];
    [rewrite Hb2 in Hlt; lia|]. rewrite He.
  set (t4 := set_state (txn_AddBalance s3 (c_Address c) v) t2).
  assert (Hrun : run nested t4 c = Some (mkResult [] (c_Gas c) (c_Gas c -u c_Gas c) None ZeroAddress, t4)).
  { unfold run. rewrite bool_decide_false by (cbn; rewrite Hda; done). cbn. rewrite Hta. unfold run_contract, precompiled_CanRun.
    rewrite Hfc. by rewrite EVM_Run_empty. }
  rewrite Hrun. cbn [Failed ResErr]. eexists. split; [done|]. split; [done|].
  assert (Hn3 : forall a, txn_GetNonce s3 a = txn_GetNonce (t_state t2) a).
  { intros a. destruct Hsh as [[-> _]| ->]; [done|]. apply GetNonce_keep; [apply object_at_live|done]. }
  split_and!.
  - unfold t4. cbn. unfold txn_AddBalance. rewrite upsert_true. cbn.
    destruct Hsh as [[-> _]| ->]; rewrite ?upsert_true; cbn; unfold TouchAccount; by rewrite upsert_true.
  - intros a. unfold t4. cbn. rewrite GetBalance_Add, Hb3, Hb2 by done. done.
  - intros a. unfold t4. cbn. rewrite <- Hn2, <- Hn3. apply GetNonce_keep; [apply object_at_live|done].
Qed.

Lemma Apply_success t msg r t' :
  apply (set_state (snd (txn_Snapshot (t_state t))) t) msg = Some (Ok r, t') ->
  Apply None t msg = Some (Ok r, t').
Proof. intros Ha. unfold Apply. cbn in *. by rewrite Ha. Qed.

(** The execution of a plain transfer, from the state with the gas charged. *)
Lemma execute_plain t msg to g :
  0 <= GasPrice msg * Gas msg -> 0 <= TxValue msg ->
  To msg = Some to -> to <> From msg -> fst (txn_GetCode (t_state t) to) = [] ->
  find_contract to = None -> t_deploymentAllowlist t = None -> t_txnAllowList t = None ->
  TxValue msg + GasPrice msg * Gas msg <= txn_GetBalance (t_state t) (From msg) ->
  exists t', execute (charged t msg) msg g = Some (mkResult [] g (g -u g) None ZeroAddress, t') /\
    ctx_Coinbase (t_ctx t') = ctx_Coinbase (t_ctx t) /\ txn_GetRefund (t_state t') = txn_GetRefund (t_state t) /\
    (forall a, txn_GetBalance (t_state t') a = txn_GetBalance (t_state t) a
       - (if decide (From msg = a) then TxValue msg + GasPrice msg * Gas msg else 0)
       + (if decide (to = a) then TxValue msg else 0)) /\
    (forall a, txn_GetNonce (t_state t') a =
       if decide (From msg = a) then txn_GetNonce (t_state t) a +u 1 else txn_GetNonce (t_state t) a).
Proof.
  intros Hc0 Hv0 Hto Hne Hcode Hfc Hda Hta Hbal. set (cost := GasPrice msg * Gas msg) in *.
  unfold execute. rewrite Hto. unfold t_Call2, charged. fold cost.
  destruct (Sub_spec (t_state t) (From msg) cost Hc0) as [(e & _ & _ & Hlt)|(s1 & -> & _ & Hsh & Hb1)]; [lia|].
  cbn [snd]. set (t1 := set_gasPool _ _). set (t2 := set_tx_context t1 _ _).
  change (t_state t2) with s1. set (s3 := IncrNonce s1 (From msg)). cbn [t_state set_state].
  assert (Hn1 : forall a, txn_GetNonce s1 a = txn_GetNonce (t_state t) a).
  { intros a. destruct Hsh as [[-> _]| ->]; [done|]. apply GetNonce_keep; [apply object_at_live|done]. }
  assert (Hr1 : tr_refund (txn s1) = tr_refund (txn (t_state t))).
  { destruct Hsh as [[-> _]| ->]; [done|]. by rewrite upsert_true. }
  assert (Hco : fst (txn_GetCode s3 to) = []).
  { rewrite <- Hcode. unfold s3, IncrNonce. apply GetCode_same.
    - rewrite getStateObject_upsert by apply object_at_live. rewrite decide_False by congruence.
      destruct Hsh as [[-> _]| ->]; [done|]. rewrite getStateObject_upsert by apply object_at_live.
      by rewrite decide_False by congruence.
    - destruct Hsh as [[-> _]| ->]; by rewrite !upsert_true.
    - destruct Hsh as [[-> _]| ->]; by rewrite !upsert_true. }
  assert (Hse : exists c, snd (txn_GetCode s3 to) = set_cache c s3).
  { unfold txn_GetCode. repeat case_match; cbn; eauto; by exists (codeCache s3); destruct s3 as [? ? [] ?]. }
  destruct (txn_GetCode s3 to) as [code s4]. cbn in Hco, Hse. destruct Hse as [cache ->]. subst code.
  set (t4 := set_state (set_cache cache s3) _).
  assert (Hb4 : forall a, txn_GetBalance (t_state t4) a = txn_GetBalance s1 a).
  { intros a. unfold t4. cbn. change (txn_GetBalance (set_cache cache s3) a) with (txn_GetBalance s3 a).
    apply GetBalance_IncrNonce. }
  destruct (applyCall_plain t4 (NewContractCall 1 (From msg) (From msg) to (Some (TxValue msg)) g [] (Input msg))
    (TxValue msg)) as (t' & He & Hx & Hr & Hb & Hn); try done.
  { cbn. rewrite Hb4, Hb1, decide_True by done. lia. }
  exists t'. split; [exact He|]. split_and!.
  - by rewrite Hx.
  - unfold txn_GetRefund. rewrite Hr, <- Hr1. unfold t4. cbn. unfold s3, IncrNonce. by rewrite upsert_true.
  - intros a. rewrite Hb, Hb4, Hb1. cbn. repeat case_decide; lia.
  - intros a. rewrite Hn. unfold t4. cbn. change (txn_GetNonce (set_cache cache s3) a) with (txn_GetNonce s3 a).
    unfold s3, IncrNonce. rewrite GetNonce_object, object_at_upsert by apply object_at_live.
    rewrite <- Hn1, !GetNonce_object. by case_decide; subst.
Qed.

(** A transfer between two accounts, to one without code: the transaction
    succeeds and uses exactly the intrinsic gas; the sender pays the value and the
    price of that gas, the receiver gets the value, the block creator the fee, and
    only the nonce of the sender moves, by one. *)
Theorem plain_transfer B t msg to :
  trans_ok B t -> tx_ok msg -> TxType msg <> StateTx -> tx_error t msg = None ->
  To msg = Some to -> to <> From msg -> fst (txn_GetCode (t_state t) to) = [] ->
  find_contract to = None -> t_deploymentAllowlist t = None -> t_txnAllowList t = None ->
  txn_GetRefund (t_state t) = 0 -> 0 <= txn_GetNonce (t_state t) (From msg) < 2 ^ 64 - 1 ->
  TxValue msg + GasPrice msg * Gas msg <= txn_GetBalance (t_state t) (From msg) ->
  let used := intrinsic_gas msg (Homestead (t_config t)) (Istanbul (t_config t)) in
  let fee := GasPrice msg * used in
  exists r t', Apply None t msg = Some (Ok r, t') /\ Failed r = false /\ GasUsed r = used /\
    (forall a, txn_GetBalance (t_state t') a = txn_GetBalance (t_state t) a
       - (if decide (From msg = a) then TxValue msg + fee else 0)
       + (if decide (to = a) then TxValue msg else 0)
       + (if decide (ctx_Coinbase (t_ctx t) = a) then fee else 0)) /\
    (forall a, txn_GetNonce (t_state t') a =
       txn_GetNonce (t_state t) a + (if decide (From msg = a) then 1 else 0)).
Proof.
  intros Ht Hm Hty Herr Hto Hne Hcode Hfc Hda Hta Href Hnon Hbal used fee.
  pose proof (tr_pool _ _ Ht). pose proof (tx_gas _ Hm) as [Hg0 Hg1]. pose proof (tx_price _ Hm) as Hpr.
  set (t1 := set_state (snd (txn_Snapshot (t_state t))) t).
  destruct (apply_cases t1 msg Hm Hty) as [(e & ? & He & _)|(_ & Hle & _ & Hap)].
  { unfold is_u64, two64. cbn. lia. }
  { unfold t1 in He. rewrite tx_error_snapshot in He. congruence. }
  fold used in Hap. change (t_config t1) with (t_config t) in Hap, Hle. fold used in Hap, Hle.
  destruct (execute_plain t1 msg to (Gas msg - used)) as (t2 & Hex & Hcb & Hr2 & Hb2 & Hn2); try done.
  { nia. } { apply (tx_value _ Hm). } { rewrite <- Hcode. by apply GetCode_same. }
  rewrite Hex in Hap. unfold settle in Hap. rewrite Hr2 in Hap.
  assert (Hre : txn_GetRefund (t_state t1) = 0) by exact Href. rewrite Hre in Hap.
  pose proof (intrinsic_pos msg (Homestead (t_config t)) (Istanbul (t_config t))) as Hi. fold used in Hi.
  set (r := UpdateGasUsed _ _ _) in Hap.
  assert (Hr : GasLeft r = Gas msg - used /\ GasUsed r = used /\ Failed r = false).
  { unfold r, UpdateGasUsed. cbn [GasLeft GasUsed ReturnValue ResErr ResAddress].
    rewrite (u64_small (Gas msg - (Gas msg - used))) by (unfold two64 in *; lia).
    rewrite (proj2 (Z.ltb_ge _ 0)) by (apply Z.div_pos; lia).
    rewrite !u64_small by (unfold two64 in *; lia). split_and!; [lia|lia|done]. }
  destruct Hr as (Hrl & Hru & Hrf). exists r. eexists. split; [by apply Apply_success|].
  split; [done|]. split; [done|].
  assert (Hbal1 : forall a, txn_GetBalance (t_state t1) a = txn_GetBalance (t_state t) a) by done.
  assert (Hnon1 : forall a, txn_GetNonce (t_state t1) a = txn_GetNonce (t_state t) a) by done.
  split; intros a; cbn [t_state addGasPool set_gasPool set_state].
  - rewrite !GetBalance_Add, Hb2, Hbal1, Hcb, Hrl, Hru by nia. unfold fee. cbn [t_ctx t1 set_state].
    repeat case_decide; nia.
  - transitivity (txn_GetNonce (t_state t2) a).
    + unfold txn_AddBalance. rewrite !GetNonce_keep by (apply object_at_live || done). done.
    + rewrite Hn2, Hnon1. case_decide as Hd; [|lia]. subst a. apply u64_small.
      unfold two64. lia.
Qed.
End Claims.

(** ** Witnesses: account 100 pays account 200 on a toy chain *)

Definition toy_chain : list toy_account := [toy_user 100 1000000000].
Definition toy_payment : Transaction := toy_tx 100 0 (Some 200) 55 50000 [].

Lemma toy_chain_ok : Forall toy_ok toy_chain.
Proof.
  constructor; [|constructor]. split; [apply (be_bytes_ok 32)|]. split; [apply slice_ok_nil|done].
Qed.

Lemma toy_payment_ok : tx_ok toy_payment.
Proof.
  split; cbn; unfold is_u64, two64, word, addr_ok; try lia; [apply slice_ok_nil|]. intros a [= <-]. lia.
Qed.

Lemma toy_input : block_input (toy_params false) (toy_snapshot toy_chain) (fun _ => 0) toy_header 300 1000000000.
Proof.
  split; try done; try (cbn; lia).
  - apply toy_snapshot_ok, toy_chain_ok.
  - pose proof (toy_supply toy_chain toy_chain_ok) as Hs. eapply sup_eq; [|exact Hs].
    intros b. unfold snap_balance, toy_snapshot. cbn [sn_GetAccount]. by destruct (find _ toy_chain).
Qed.

Lemma toy_trans_ok : trans_ok 1000000000 (toy_begin toy_chain).
Proof. exact (pg_trans _ _ _ (BeginTxn_ok _ _ _ _ _ _ toy_input)). Qed.

Lemma ProcessBlock_safe_witness :
  exists err t', toy_block false toy_chain [toy_payment] = Some (err, t') /\
    t_totalGas t' = zsum (r_GasUsed <$> t_receipts t') /\ t_totalGas t' <= 10000000 /\
    CumulativeGasUsed <$> t_receipts t' = running 0 (r_GasUsed <$> t_receipts t') /\
    (err = None -> length (t_receipts t') = 1%nat).
Proof.
  apply (ProcessBlock_safe (toy_params false) (toy_snapshot toy_chain) (fun _ => 0) toy_header 300 1000000000
    (fun _ => None) [toy_payment]); [exact toy_input|done|].
  constructor; [exact toy_payment_ok|constructor].
Defined.

Lemma toy_sender (tx : Transaction) a : (fun _ : Transaction => @None Address) tx = Some a -> addr_ok a.
Proof. discriminate. Qed.

Lemma toy_accounts : NoDup [100; 200; 300].
Proof. by apply (bool_decide_unpack _). Qed.

Lemma ProcessBlock_supply_witness :
  match ProcessBlock (T := alist) (C := list (Z * list Z)) None (fun _ => None) (toy_params false)
    (toy_snapshot toy_chain) (fun _ => 0) toy_header [toy_payment] 300 with
  | Some (_, t') => zsum (txn_GetBalance (t_state t') <$> [100; 200; 300]) <= 1000000000
  | None => False
  end.
Proof.
  match goal with |- match ?o with _ => _ end =>
    assert (Hs : observe (fun _ => tt) o = Some tt) by (vm_compute; reflexivity) end.
  destruct (ProcessBlock _ _ _ _ _ _ _ _) as [[err t']|] eqn:E; [|discriminate Hs].
  assert (Htx : Forall tx_ok [toy_payment]) by (constructor; [exact toy_payment_ok|constructor]).
  exact (ProcessBlock_supply (toy_params false) (toy_snapshot toy_chain) (fun _ => 0) toy_header 300
    1000000000 (fun _ => None) [toy_payment] err t' [100; 200; 300] toy_input
    toy_sender Htx E toy_accounts).
Defined.

Lemma Apply_errors_witness :
  exists r t', Apply None (toy_begin toy_chain) toy_payment = Some (r, t') /\
    match r with
    | Err e => tx_error (toy_begin toy_chain) toy_payment = Some e /\
        txn (t_state t') = txn (t_state (toy_begin toy_chain))
    | Ok _ => tx_error (toy_begin toy_chain) toy_payment = None
    end.
Proof.
  apply (Apply_errors 1000000000 (toy_begin toy_chain) toy_payment toy_trans_ok toy_payment_ok). discriminate.
Defined.

(** A static call of account 200 by account 100. *)
Definition toy_static : Contract := mkContract [] StaticCall 200 200 100 100 1 (Some 0) [] 30000 true.

Lemma toy_static_ok : contract_ok toy_static.
Proof.
  split; cbn; try (unfold addr_ok, is_u64, two64; lia); try apply slice_ok_nil. intros v [= <-]. unfold word. lia.
Qed.

Lemma static_call_reads_witness :
  exists r t', nested (toy_begin toy_chain) toy_static = Some (r, t') /\ 0 <= GasLeft r <= 30000 /\
    (forall a, txn_GetNonce (t_state t') a = txn_GetNonce (t_state (toy_begin toy_chain)) a) /\
    (forall a k, txn_GetState (t_state t') a k = txn_GetState (t_state (toy_begin toy_chain)) a k) /\
    tr_logs (txn (t_state t')) = tr_logs (txn (t_state (toy_begin toy_chain))) /\
    txn_GetRefund (t_state t') = txn_GetRefund (t_state (toy_begin toy_chain)).
Proof.
  apply (static_call_reads 1000000000 (toy_begin toy_chain) toy_static toy_trans_ok toy_static_ok);
    [cbn; lia|cbn; lia|]. split; [reflexivity|discriminate|discriminate].
Defined.

(** A call with value 7 whose code is an invalid instruction. *)
Definition toy_failing : Contract := mkContract [254] Call 200 200 100 100 1 (Some 7) [] 30000 false.

Lemma toy_failing_ok : contract_ok toy_failing.
Proof.
  split; cbn; try (unfold addr_ok, is_u64, two64; lia).
  - split; [|cbn; lia]. repeat constructor; unfold byte_ok; lia.
  - apply slice_ok_nil.
  - intros v [= <-]. unfold word. lia.
Qed.

Lemma failed_call_reverts_witness :
  match applyCall nested (toy_begin toy_chain) toy_failing Call with
  | Some (r, t') => txn (t_state t') = txn (t_state (toy_begin toy_chain)) \/
      Call = Call /\ ResErr r = Some ErrInsufficientBalance /\
      txn (t_state t') = txn (TouchAccount (t_state (toy_begin toy_chain)) 200)
  | None => False
  end.
Proof.
  match goal with |- match ?o with _ => _ end =>
    assert (Hf : match o with Some (r, _) => Failed r | None => false end = true)
      by (vm_compute; reflexivity) end.
  destruct (applyCall _ _ _ _) as [[r t']|] eqn:E; [|discriminate Hf].
  exact (failed_call_reverts 1000000000 (toy_begin toy_chain) toy_failing Call r t' toy_trans_ok
    toy_failing_ok ltac:(cbn; lia) ltac:(cbn; lia) E Hf).
Defined.

Lemma plain_transfer_witness :
  exists r t', Apply None (toy_begin toy_chain) toy_payment = Some (Ok r, t') /\ Failed r = false /\
    GasUsed r = 21000 /\
    (forall a, txn_GetBalance (t_state t') a = txn_GetBalance (t_state (toy_begin toy_chain)) a
       - (if decide (100 = a) then 55 + 2 * 21000 else 0) + (if decide (200 = a) then 55 else 0)
       + (if decide (300 = a) then 2 * 21000 else 0)) /\
    (forall a, txn_GetNonce (t_state t') a =
       txn_GetNonce (t_state (toy_begin toy_chain)) a + (if decide (100 = a) then 1 else 0)).
Proof.
  apply (plain_transfer 1000000000 (toy_begin toy_chain) toy_payment 200 toy_trans_ok toy_payment_ok);
    first [reflexivity | discriminate | vm_compute; reflexivity | vm_compute; split; [discriminate|reflexivity] | vm_compute; discriminate].
Defined.
