(* ===== verification/Rlp.v ===== *)
(** * The RLP library

    [fastrlp] is third-party code. Values are built with an arena ([Value] in
    [ChainTypes]) and marshalled; parsing gives a tree of byte strings and lists,
    from which typed accessors read. [FastrlpLaws] states the round trip the code
    relies on. *)

From S2P Require Import Prelude ChainTypes BigInt Runtime.
Local Open Scope go_scope.

Inductive rlp :=
| RBytes (b : list Z)
| RArray (l : list rlp).

(** The parsed form of a built value. *)
Fixpoint norm (v : Value) : rlp :=
  match v with
  | VUint n => RBytes (Bytes n)
  | VBigInt z => RBytes (Bytes z)
  | VBytes b => RBytes b
  | VNull => RBytes []
  | VBool b => RBytes (if b then [1] else [])
  | VArray l => RArray (map norm l)
  | VNullArray => RArray []
  end.

(** Values that fit their Go types. *)
Fixpoint value_ok (v : Value) : Prop :=
  match v with
  | VUint n => is_u64 n
  | VBigInt z => 0 <= z
  | VBytes b => bytes_ok b
  | VArray l => (fix all l := match l with [] => True | x :: l => value_ok x /\ all l end) l
  | _ => True
  end.

Lemma value_ok_array l : value_ok (VArray l) <-> Forall value_ok l.
Proof.
  cbn. induction l as [|x l IH]; [split; [constructor|done]|].
  rewrite Forall_cons, IH. done.
Qed.

Class Fastrlp `{Codec} := {
  fastrlp_Parse : list Z -> option rlp;
  fastrlp_Len : Value -> Z;
  rlp_GetUint64 : rlp -> option Z;
  rlp_GetBigInt : rlp -> option Z;
  rlp_GetHash : rlp -> option Hash;
  rlp_GetAddr : rlp -> option Address;
  rlp_GetBytes : rlp -> option (list Z);
  rlp_GetBytesN : nat -> rlp -> option (list Z);
  rlp_Bytes : rlp -> option (list Z);
  parser_Hash : list Z -> rlp -> Hash;
}.

Class FastrlpLaws `{Fastrlp} := {
  Parse_MarshalTo v : value_ok v -> fastrlp_Parse (fastrlp_MarshalTo v) = Some (norm v);
  MarshalTo_bytes v : value_ok v -> bytes_ok (fastrlp_MarshalTo v);
  MarshalTo_nonempty v : fastrlp_MarshalTo v <> [];
  MarshalTo_array l : exists c d, fastrlp_MarshalTo (VArray l) = c :: d /\ 192 <= c;
  GetUint64_bytes b : bytes_ok b -> (length b <= 8)%nat -> rlp_GetUint64 (RBytes b) = Some (be_val b);
  GetBigInt_norm z : 0 <= z -> rlp_GetBigInt (RBytes (Bytes z)) = Some z;
  GetHash_norm h : word h -> rlp_GetHash (RBytes (be_bytes 32 h)) = Some h;
  GetAddr_norm a : addr_ok a -> rlp_GetAddr (RBytes (be_bytes 20 a)) = Some a;
  GetBytes_norm b : rlp_GetBytes (RBytes b) = Some b;
  GetBytesN_norm b : rlp_GetBytesN (length b) (RBytes b) = Some b;
  Bytes_norm b : rlp_Bytes (RBytes b) = Some b;
  parser_Hash_norm v : value_ok v ->
    parser_Hash (fastrlp_MarshalTo v) (norm v) = be_val (keccak256 (fastrlp_MarshalTo v));
}.

Lemma GetUint64_norm `{FastrlpLaws} n : is_u64 n -> rlp_GetUint64 (RBytes (Bytes n)) = Some n.
Proof.
  intros Hn. rewrite GetUint64_bytes; [|apply Bytes_ok|].
  - f_equal. rewrite be_val_Bytes. unfold is_u64 in Hn. lia.
  - unfold Bytes. rewrite be_bytes_length. unfold is_u64, two64 in Hn.
    pose proof (BitLen_nonneg n). pose proof (proj2 (BitLen_le n 64 ltac:(lia)) ltac:(lia)) as Hb.
    apply Nat2Z.inj_le. rewrite Z2Nat.id by (apply Z.div_pos; lia).
    etrans; [apply Z.div_le_mono; [lia|apply Z.add_le_mono_r, Hb]|done].
Qed.

(** ** The format

    Recursive length prefix encoding as specified for Ethereum. Only code that
    writes RLP by hand depends on it. *)

Definition rlp_prefix (short long n : Z) : list Z :=
  if n <? 56 then [short + n] else (long + Z.of_nat (length (Bytes n))) :: Bytes n.

Definition rlp_string (b : list Z) : list Z :=
  match b with
  | [x] => if x <? 128 then [x] else [129; x]
  | _ => rlp_prefix 128 183 (Z.of_nat (length b)) ++ b
  end.

Fixpoint rlp_encode (r : rlp) : list Z :=
  match r with
  | RBytes b => rlp_string b
  | RArray l =>
      let body := concat (map rlp_encode l) in
      rlp_prefix 192 247 (Z.of_nat (length body)) ++ body
  end.

(** Encodings have fewer than 2^64 bytes. [Len] is not the length of the encoding: for a
    byte string it is the number of its bytes, and for a list the prefix is counted in its
    own way. The code only compares the [Len] of lists with 32. *)
Class RlpFormat `{Fastrlp} := {
  MarshalTo_format v :
    Z.of_nat (length (rlp_encode (norm v))) < two64 -> fastrlp_MarshalTo v = rlp_encode (norm v);
  Len_array l :
    Z.of_nat (length (rlp_encode (norm (VArray l)))) < two64 ->
    fastrlp_Len (VArray l) < 32 <-> Z.of_nat (length (rlp_encode (norm (VArray l)))) < 32;
}.
