(* ===== verification/Trie.v ===== *)
(** * The Merkle-Patricia trie ([state/immutable-trie]: trie.go, encoding.go,
      hasher.go, storage.go)

    A trie is a tree of value, short and full nodes over keys of nibbles that end
    with the terminator 16. Subtrees may be in the database only: a value node
    with its [hash] mark stands for the node stored under its bytes. [ShortNode]
    and [FullNode] carry their cached hash (empty if unknown), a full node also
    the epoch of the transaction that made it.

    The model is functional: an operation returns the new tree. The code updates
    in place the full nodes of its own epoch, which no other trie holds, and the
    caches (hashes, loaded subtrees) of shared nodes. Recursion that follows a
    stored node or consumes part of a key is by fuel; [None] is a panic or the
    end of the fuel, and [trieFuel] is enough for every operation ([TrieRefine]).
    The arenas and pools of the hasher hold no state between calls. *)

From S2P Require Import Prelude ChainTypes BigInt Runtime Rlp.
Local Open Scope go_scope.

Inductive Node :=
| ValueNode (hash : bool) (buf : list Z)
| ShortNode (hash : list Z) (key : list Z) (child : option Node)
| FullNode (hash : list Z) (epoch : Z) (value : option Node) (children : list (option Node)).

(** ** Keys ([encoding.go]) *)

Definition hasTerminator (hex : list Z) : bool :=
  match last hex with None => false | Some x => x =? 16 end.

(** [result[i] = hex[2*i]<<4 | hex[2*i+1]], on bytes. *)
Fixpoint pack (hex : list Z) : list Z :=
  match hex with
  | a :: b :: hex => Z.lor (Z.shiftl a 4 mod 256) b :: pack hex
  | _ => []
  end.

Definition encodeCompact (hex : list Z) : list Z :=
  let '(hex, terminator) :=
    if hasTerminator hex then (take (length hex - 1) hex, 1) else (hex, 0) in
  let oddLen := Z.of_nat (length hex) mod 2 in
  let flag := 2 * terminator + oddLen in
  pack (if oddLen =? 1 then [flag] ++ hex else [flag; 0] ++ hex).

Definition bytesToHexNibbles (bytes : list Z) : list Z :=
  (b ← bytes; [b / 16; b mod 16]) ++ [16].

(** [base[0]] panics for no input byte at all only if there is no terminator, which
    there always is; [base[2:]] panics on the terminator alone. *)
Definition decodeCompact (compact : list Z) : option (list Z) :=
  let base := bytesToHexNibbles compact in
  let base0 := nth 0 base 0 in
  let base := if base0 <? 2 then take (length base - 1) base else base in
  if Z.land base0 1 =? 1 then Some (drop 1 base)
  else if (length base <? 2)%nat then None else Some (drop 2 base).

Fixpoint prefixLen (k1 k2 : list Z) : nat :=
  match k1, k2 with
  | x :: k1, y :: k2 => if x =? y then S (prefixLen k1 k2) else O
  | _, _ => O
  end.

(** ** Edges of a full node *)

(** An index other than 0 to 16 panics. *)
Definition getEdge (value : option Node) (children : list (option Node)) (idx : Z) :
  option (option Node) :=
  if idx =? 16 then Some value
  else if (0 <=? idx) then children !! Z.to_nat idx else None.

Definition setEdge (value : option Node) (children : list (option Node)) (idx : Z) (e : option Node) :
  option (option Node * list (option Node)) :=
  if idx =? 16 then Some (e, children)
  else if (0 <=? idx) && (idx <? Z.of_nat (length children))
  then Some (value, <[Z.to_nat idx := e]> children) else None.

Definition noChildren : list (option Node) := replicate 16 None.

(** ** Stored nodes ([storage.go]) *)

Section Trie.
Context `{Fastrlp}.

(** [None]: a panic. The errors carry no data. *)
Fixpoint decodeNode (v : rlp) : option (result unit Node) :=
  match v with
  | RBytes b => Some (Ok (ValueNode true b))
  | RArray l =>
      let nodes := map decodeNode l in
      match l, nodes with
      | [RBytes key; x], [_; d] =>
          match decodeCompact key with
          | None => None
          | Some k =>
              if hasTerminator k then
                match x with
                | RBytes b => Some (Ok (ShortNode [] k (Some (ValueNode false b))))
                | RArray _ => Some (Err tt)
                end
              else
                match d with
                | Some (Ok n) => Some (Ok (ShortNode [] k (Some n)))
                | Some (Err e) => Some (Err e)
                | None => None
                end
          end
      | _, _ =>
          if negb (length l =? 17)%nat then Some (Err tt)
          else
            let children :=
              foldr (fun xd acc =>
                match xd, acc with
                | (RBytes [], _), Some (Ok cs) => Some (Ok (None :: cs))
                | (RBytes [], _), acc => acc
                | (_, Some (Ok n)), Some (Ok cs) => Some (Ok (Some n :: cs))
                | (_, Some (Ok n)), acc => acc
                | (_, Some (Err e)), _ => Some (Err e)
                | (_, None), _ => None
                end) (Some (Ok [])) (zip (take 16 l) (take 16 nodes)) in
            match children with
            | Some (Ok cs) =>
                match l !! 16%nat with
                | Some (RBytes []) => Some (Ok (FullNode [] 0 None cs))
                | Some (RBytes b) => Some (Ok (FullNode [] 0 (Some (ValueNode false b)) cs))
                | _ => Some (Err tt)
                end
            | Some (Err e) => Some (Err e)
            | None => None
            end
      end
  end.

(** The database: a map from keys to entries, written to directly or in a batch. *)
Definition st_Put (db : list Z -> option (list Z)) (k v : list Z) : list Z -> option (list Z) :=
  fun k' => if decide (k = k') then Some v else db k'.

Definition batch_Write (puts : list (list Z * list Z)) (db : list Z -> option (list Z)) :
  list Z -> option (list Z) :=
  foldl (fun db kv => st_Put db (fst kv) (snd kv)) db puts.

(** Reading an entry. *)
Context (db : list Z -> option (list Z)).

(** [Ok None]: not found. *)
Definition GetNode (root : list Z) : option (result unit (option Node)) :=
  match db root with
  | None => Some (Ok None)
  | Some [] => Some (Ok None)
  | Some data =>
      match fastrlp_Parse data with
      | None => Some (Err tt)
      | Some (RBytes _) => Some (Err tt)
      | Some v =>
          match decodeNode v with
          | None => None
          | Some (Ok n) => Some (Ok (Some n))
          | Some (Err e) => Some (Err e)
          end
      end
  end.

(** ** Transactions on a trie ([trie.go]) *)

(** [lookup] returns the loaded node that replaces [node] in its parent, the value
    found, and [node] itself with the subtrees loaded on the way. *)
Fixpoint lookup (fuel : nat) (node : option Node) (key : list Z) :
  option (option Node * option (list Z) * option Node) :=
  match fuel with
  | O => None
  | S fuel =>
      match node with
      | None => Some (None, None, None)
      | Some (ValueNode true buf) =>
          match GetNode buf with
          | Some (Ok (Some nc)) =>
              match lookup fuel (Some nc) key with
              | Some (_, res, nc) => Some (nc, res, node)
              | None => None
              end
          | Some (Ok None) => Some (None, None, node)
          | Some (Err _) | None => None
          end
      | Some (ValueNode false buf) =>
          match key with
          | [] => Some (None, Some buf, node)
          | _ => Some (None, None, node)
          end
      | Some (ShortNode h k child) =>
          let plen := length k in
          if (length key <? plen)%nat || negb (bool_decide (take plen key = k))
          then Some (None, None, node)
          else
            match lookup fuel child (drop plen key) with
            | Some (c, res, child) =>
                Some (None, res, Some (ShortNode h k (match c with Some _ => c | None => child end)))
            | None => None
            end
      | Some (FullNode h e value children) =>
          match key with
          | [] =>
              match lookup fuel value key with
              | Some (c, res, value) => Some (c, res, Some (FullNode h e value children))
              | None => None
              end
          | x :: key =>
              match getEdge value children x with
              | None => None
              | Some edge =>
                  match lookup fuel edge key with
                  | None => None
                  | Some (Some c, res, _) =>
                      if x =? 16 then None
                      else Some (None, res, Some (FullNode h e value (<[Z.to_nat x := Some c]> children)))
                  | Some (None, res, edge) =>
                      match setEdge value children x edge with
                      | Some (value, children) => Some (None, res, Some (FullNode h e value children))
                      | None => None
                      end
                  end
              end
          end
      end
  end.

(** [writeNode]: the hash is kept only for a node of the transaction's own epoch. *)
Definition writeNode (epoch : Z) (h : list Z) (e : Z) : list Z := if epoch =? e then h else [].

Fixpoint insert (fuel : nat) (epoch : Z) (node : option Node) (search value : list Z) :
  option (option Node) :=
  match fuel with
  | O => None
  | S fuel =>
      match node with
      | None =>
          match search with
          | [] => Some (Some (ValueNode false value))
          | _ =>
              match insert fuel epoch None [] value with
              | Some c => Some (Some (ShortNode [] search c))
              | None => None
              end
          end
      | Some (ValueNode true buf) =>
          match GetNode buf with
          | Some (Ok (Some nc)) => insert fuel epoch (Some nc) search value
          | Some (Ok None) => Some None
          | Some (Err _) | None => None
          end
      | Some (ValueNode false buf) =>
          match search with
          | [] => Some (Some (ValueNode false value))
          | _ => insert fuel epoch (Some (FullNode [] epoch node noChildren)) search value
          end
      | Some (ShortNode h k child) =>
          let plen := prefixLen search k in
          if (plen =? length k)%nat then
            match insert fuel epoch child (drop plen search) value with
            | Some c => Some (Some (ShortNode [] k c))
            | None => None
            end
          else
            let edge := if (plen + 1 <? length k)%nat
                        then Some (ShortNode [] (drop (plen + 1) k) child) else child in
            match setEdge None noChildren (nth plen k 0) edge with
            | None => None
            | Some (v, cs) =>
                match insert fuel epoch (Some (FullNode [] epoch v cs)) (drop plen search) value with
                | None => None
                | Some c => if (plen =? 0)%nat then Some c
                            else Some (Some (ShortNode [] (take plen search) c))
                end
            end
      | Some (FullNode h e v children) =>
          let h := writeNode epoch h e in
          match search with
          | [] =>
              match insert fuel epoch v [] value with
              | Some v => Some (Some (FullNode h epoch v children))
              | None => None
              end
          | k :: search =>
              match getEdge v children k with
              | None => None
              | Some child =>
                  match insert fuel epoch child search value with
                  | None => None
                  | Some c =>
                      match setEdge v children k c with
                      | Some (v, children) => Some (Some (FullNode h epoch v children))
                      | None => None
                      end
                  end
              end
          end
      end
  end.

(** The children that are there, with their indices. *)
Fixpoint live_from {A : Type} (i : nat) (children : list (option A)) : list (nat * A) :=
  match children with
  | [] => []
  | Some n :: children => (i, n) :: live_from (S i) children
  | None :: children => live_from (S i) children
  end.

Definition live (children : list (option Node)) : list (nat * Node) := live_from 0 children.

(** A single child [nc] at [indx] becomes a short node; one in the database is loaded
    first. *)
Definition only_child (indx : nat) (nc : Node) : option (option Node * bool) :=
  let short (n : Node) : option Node * bool :=
    match n with
    | ShortNode _ k c => (Some (ShortNode [] (Z.of_nat indx :: k) c), true)
    | _ => (Some (ShortNode [] [Z.of_nat indx] (Some n)), true)
    end in
  match nc with
  | ValueNode true buf =>
      match GetNode buf with
      | Some (Ok (Some aux)) => Some (short aux)
      | Some (Ok None) => Some (None, false)
      | Some (Err _) | None => None
      end
  | _ => Some (short nc)
  end.

(** A full node after the removal of an entry. *)
Definition collapse (value : option Node) (children : list (option Node)) : option (option Node * bool) :=
  match live children with
  | [] =>
      match value with
      | None => Some (None, true)
      | Some v => Some (Some (ShortNode [] [16] (Some v)), true)
      end
  | [(indx, nc)] =>
      match value with
      | Some _ => Some (Some (FullNode [] 0 value children), true)
      | None => only_child indx nc
      end
  | _ => Some (Some (FullNode [] 0 value children), true)
  end.

Fixpoint delete (fuel : nat) (node : option Node) (search : list Z) : option (option Node * bool) :=
  match fuel with
  | O => None
  | S fuel =>
      match node with
      | None => Some (None, false)
      | Some (ShortNode h k child) =>
          let plen := prefixLen search k in
          if (plen =? length search)%nat then Some (None, true)
          else if (plen =? 0)%nat then Some (None, false)
          else
            match delete fuel child (drop plen search) with
            | None => None
            | Some (_, false) => Some (None, false)
            | Some (None, true) => Some (None, true)
            | Some (Some (ShortNode _ k' c'), true) => Some (Some (ShortNode [] (k ++ k') c'), true)
            | Some (Some c, true) => Some (Some (ShortNode [] k (Some c)), true)
            end
      | Some (ValueNode true buf) =>
          match GetNode buf with
          | Some (Ok (Some nc)) => delete fuel (Some nc) search
          | Some (Ok None) => Some (None, false)
          | Some (Err _) | None => None
          end
      | Some (ValueNode false buf) =>
          match search with
          | [] => Some (None, true)
          | _ => Some (None, false)
          end
      | Some (FullNode h e value children) =>
          match search with
          | [] => None
          | key :: search =>
              match getEdge value children key with
              | None => None
              | Some edge =>
                  match delete fuel edge search with
                  | None => None
                  | Some (_, false) => Some (None, false)
                  | Some (newChild, true) =>
                      match setEdge value children key newChild with
                      | Some (value, children) => collapse value children
                      | None => None
                      end
                  end
              end
          end
      end
  end.

(** Enough for keys of this length. *)
Definition trieFuel (key : list Z) : nat := 3 * length key + 4.

Record TrieTxn := mkTrieTxn { x_root : option Node; x_epoch : Z }.

Definition trie_Lookup (t : TrieTxn) (key : list Z) : option (option (list Z) * TrieTxn) :=
  let k := bytesToHexNibbles key in
  match lookup (trieFuel k) (x_root t) k with
  | Some (_, res, root) => Some (res, mkTrieTxn root (x_epoch t))
  | None => None
  end.

Definition trie_Insert (t : TrieTxn) (key value : list Z) : option TrieTxn :=
  let k := bytesToHexNibbles key in
  match insert (trieFuel k) (x_epoch t) (x_root t) k value with
  | Some (Some root) => Some (mkTrieTxn (Some root) (x_epoch t))
  | Some None => Some t
  | None => None
  end.

Definition trie_Delete (t : TrieTxn) (key : list Z) : option TrieTxn :=
  let k := bytesToHexNibbles key in
  match delete (trieFuel k) (x_root t) k with
  | Some (root, true) => Some (mkTrieTxn root (x_epoch t))
  | Some (_, false) => Some t
  | None => None
  end.

(** [Trie]: a root and the epoch of the transaction that made it. *)
Record Trie := mkTrie { t_root : option Node; t_epoch : Z }.

Definition NewTrie : Trie := mkTrie None 0.

Definition Trie_Txn (t : Trie) : TrieTxn := mkTrieTxn (t_root t) ((t_epoch t + 1) mod 2 ^ 32).

Definition trie_Commit (t : TrieTxn) : Trie := mkTrie (x_root t) (x_epoch t).

(** Subtrees loaded by the lookup stay in the nodes of the trie. *)
Definition Trie_Get (t : Trie) (k : list Z) : option (option (list Z) * Trie) :=
  match trie_Lookup (Trie_Txn t) k with
  | Some (res, txn) => Some (res, mkTrie (x_root txn) (t_epoch t))
  | None => None
  end.

(** [newTrieAt] for a root that is not in the cache. *)
Definition emptyRoot : list Z :=
  be_bytes 32 0x56e81f171bcc55a6ff8345e692c0f86e5b48e01b996cadc001622fb5e363b421.

Definition openTrie (root : list Z) : option (result unit Trie) :=
  if decide (root = emptyRoot) then Some (Ok NewTrie)
  else
    match GetNode root with
    | None => None
    | Some (Err e) => Some (Err e)
    | Some (Ok None) => Some (Err tt)
    | Some (Ok (Some n)) => Some (Ok (mkTrie (Some n) 0))
    end.

(** ** Hashing ([hasher.go]) *)

(** [val], the entries put into the batch, and the node with its cached hash. The
    cached hash of a new node is the copy [SetHash] makes. *)
Definition finish (val : Value) (puts : list (list Z * list Z)) (set_hash : list Z -> Node) (n : Node) :
  Value * list (list Z * list Z) * Node :=
  if fastrlp_Len val <? 32 then (val, puts, n)
  else
    let buf := fastrlp_MarshalTo val in
    let tmp := keccak256 buf in
    (VBytes tmp, puts ++ [(tmp, buf)], set_hash tmp).

Fixpoint hash (node : Node) : option (Value * list (list Z * list Z) * Node) :=
  match node with
  | ValueNode _ buf => Some (VBytes buf, [], node)
  | ShortNode ((_ :: _) as h) _ _ => Some (VBytes h, [], node)
  | FullNode ((_ :: _) as h) _ _ _ => Some (VBytes h, [], node)
  | ShortNode [] key (Some child) =>
      match hash child with
      | None => None
      | Some (c, puts, child) =>
          Some (finish (VArray [VBytes (encodeCompact key); c]) puts
                  (fun h => ShortNode h key (Some child)) (ShortNode [] key (Some child)))
      end
  | ShortNode [] key None => None
  | FullNode [] e value children =>
      let hashed :=
        (fix all (cs : list (option Node)) :=
           match cs with
           | [] => Some ([], [], [])
           | None :: cs =>
               match all cs with
               | Some (vs, ps, ns) => Some (VNull :: vs, ps, None :: ns)
               | None => None
               end
           | Some n :: cs =>
               match hash n, all cs with
               | Some (v, p, n), Some (vs, ps, ns) => Some (v :: vs, p ++ ps, Some n :: ns)
               | _, _ => None
               end
           end) children in
      match hashed, value with
      | None, _ => None
      | Some (vs, ps, ns), None =>
          Some (finish (VArray (vs ++ [VNull])) ps (fun h => FullNode h e None ns) (FullNode [] e None ns))
      | Some (vs, ps, ns), Some n =>
          match hash n with
          | None => None
          | Some (v, p, n) =>
              Some (finish (VArray (vs ++ [v])) (ps ++ p)
                      (fun h => FullNode h e (Some n) ns) (FullNode [] e (Some n) ns))
          end
      end
  end.

(** [Txn.Hash]: the root, the batch, and the transaction with its hashes cached. *)
Definition trie_Hash (t : TrieTxn) : option (list Z * list (list Z * list Z) * TrieTxn) :=
  match x_root t with
  | None => Some (emptyRoot, [], t)
  | Some n =>
      match hash n with
      | None => None
      | Some (val, puts, n) =>
          let t := mkTrieTxn (Some n) (x_epoch t) in
          match val with
          | VBytes raw =>
              if negb (length raw =? 32)%nat
              then Some (keccak256 raw, puts ++ [(keccak256 raw, raw)], t)
              else Some (raw, puts, t)
          | _ =>
              let tmp := fastrlp_MarshalTo val in
              Some (keccak256 tmp, puts ++ [(keccak256 tmp, tmp)], t)
          end
      end
  end.
End Trie.
