(* ===== verification/TriePure.v ===== *)
(** * Tries without storage

    The trie a node stands for once everything is loaded: values, extensions and
    branches with 17 slots (the last one for the value). Insertion and deletion
    here are those of the code without caches, epochs and the database. Keys are
    nibbles followed by the terminator 16. [wf] is the canonical form: it is kept
    by both operations, and two canonical tries with the same entries are equal. *)

From S2P Require Import Prelude ChainTypes BigInt Runtime Rlp Trie.
Local Open Scope go_scope.

Inductive trie :=
| Val (v : list Z)
| Ext (p : list Z) (t : trie)
| Br (slots : list (option trie)).

Fixpoint plookup (t : trie) (k : list Z) : option (list Z) :=
  match t with
  | Val v => match k with [] => Some v | _ => None end
  | Ext p t => if decide (take (length p) k = p) then plookup t (drop (length p) k) else None
  | Br slots =>
      match k with
      | [] => None
      | x :: k =>
          (fix at_slot (slots : list (option trie)) (i : nat) : option (list Z) :=
             match slots, i with
             | Some t :: _, O => plookup t k
             | _ :: slots, S i => at_slot slots i
             | _, _ => None
             end) slots (Z.to_nat x)
      end
  end.

(** A key with nothing stored below its prefix. *)
Definition pnew (k v : list Z) : trie := match k with [] => Val v | _ => Ext k (Val v) end.

Definition slots_of (x : Z) (t : trie) (y : Z) (u : trie) : list (option trie) :=
  <[Z.to_nat y := Some u]> (<[Z.to_nat x := Some t]> (replicate 17 None)).

Fixpoint pinsert (t : trie) (k v : list Z) : trie :=
  match t with
  | Val w => Val v
  | Ext p c =>
      let n := prefixLen k p in
      if (n =? length p)%nat then Ext p (pinsert c (drop n k) v)
      else
        let old := if (n + 1 <? length p)%nat then Ext (drop (n + 1) p) c else c in
        let b := Br (slots_of (nth n p 0) old (nth n k 0) (pnew (drop (n + 1) k) v)) in
        if (n =? 0)%nat then b else Ext (take n k) b
  | Br slots =>
      match k with
      | [] => t
      | x :: k =>
          Br ((fix at_slot (slots : list (option trie)) (i : nat) : list (option trie) :=
                 match slots, i with
                 | Some t :: slots, O => Some (pinsert t k v) :: slots
                 | None :: slots, O => Some (pnew k v) :: slots
                 | o :: slots, S i => o :: at_slot slots i
                 | [], _ => []
                 end) slots (Z.to_nat x))
      end
  end.

Definition pinsert_at (o : option trie) (k v : list Z) : trie :=
  match o with Some t => pinsert t k v | None => pnew k v end.

(** The slots in use. *)
Definition used (slots : list (option trie)) : list (nat * trie) := live_from 0 slots.

Definition prepend (x : Z) (t : trie) : trie :=
  match t with Ext p t => Ext (x :: p) t | _ => Ext [x] t end.

Definition pcollapse (slots : list (option trie)) : option trie :=
  match used slots with
  | [] => None
  | [(i, t)] => Some (prepend (Z.of_nat i) t)
  | _ => Some (Br slots)
  end.

(** [None]: not found; [Some None]: nothing is left. *)
Fixpoint pdelete (t : trie) (k : list Z) : option (option trie) :=
  match t with
  | Val _ => match k with [] => Some None | _ => None end
  | Ext p c =>
      let n := prefixLen k p in
      if (n =? length k)%nat then Some None
      else if (n =? 0)%nat then None
      else
        match pdelete c (drop n k) with
        | None => None
        | Some None => Some None
        | Some (Some (Ext q c)) => Some (Some (Ext (p ++ q) c))
        | Some (Some c) => Some (Some (Ext p c))
        end
  | Br slots =>
      match k with
      | [] => None
      | x :: k =>
          let removed :=
            (fix at_slot (slots : list (option trie)) (i : nat) : option (option trie) :=
               match slots, i with
               | Some t :: _, O => pdelete t k
               | _ :: slots, S i => at_slot slots i
               | _, _ => None
               end) slots (Z.to_nat x) in
          match removed with
          | None => None
          | Some r => Some (pcollapse (<[Z.to_nat x := r]> slots))
          end
      end
  end.

(** ** Equations *)

Lemma plookup_br slots x k :
  plookup (Br slots) (x :: k) =
  match slots !! Z.to_nat x with Some (Some t) => plookup t k | _ => None end.
Proof.
  cbn. generalize (Z.to_nat x) as i. induction slots as [|[t|] slots IH]; intros [|i]; cbn; try done; apply IH.
Qed.

Lemma pinsert_br slots x k v :
  pinsert (Br slots) (x :: k) v = Br (alter (fun o => Some (pinsert_at o k v)) (Z.to_nat x) slots).
Proof.
  cbn. f_equal. generalize (Z.to_nat x) as i.
  induction slots as [|[t|] slots IH]; intros [|i]; cbn; try done; f_equal; apply IH.
Qed.

Lemma pdelete_br slots x k :
  pdelete (Br slots) (x :: k) =
  match slots !! Z.to_nat x with
  | Some (Some t) => match pdelete t k with
                     | None => None
                     | Some r => Some (pcollapse (<[Z.to_nat x := r]> slots))
                     end
  | _ => None
  end.
Proof.
  cbn [pdelete]. cbv zeta.
  match goal with |- match ?f slots _ with _ => _ end = _ =>
    assert (Hf : forall ss i, f ss i = match ss !! i with Some (Some t) => pdelete t k | _ => None end) end.
  { clear. induction ss as [|[t|] ss IH]; intros [|i]; cbn; try done; apply IH. }
  rewrite Hf. destruct (slots !! Z.to_nat x) as [[t|]|]; done.
Qed.

(** ** Keys *)

Definition nibble (x : Z) : Prop := 0 <= x < 16.

(** Nibbles followed by the terminator. *)
Inductive key_ok : list Z -> Prop :=
| key_end : key_ok [16]
| key_cons x k : nibble x -> key_ok k -> key_ok (x :: k).

Lemma key_ok_nil : ~ key_ok [].
Proof. by inversion 1. Qed.

Lemma key_ok_slot x k : key_ok (x :: k) -> 0 <= x <= 16.
Proof. inversion 1; subst; unfold nibble in *; lia. Qed.

Lemma key_ok_tail x k : key_ok (x :: k) -> x = 16 /\ k = [] \/ nibble x /\ key_ok k.
Proof. inversion 1; subst; eauto. Qed.

Lemma key_ok_slot_tail x k : (Z.to_nat x < 16)%nat -> key_ok (x :: k) -> key_ok k.
Proof. intros Hx [[-> _]|[_ ?]]%key_ok_tail; [cbn in Hx; lia|done]. Qed.

Lemma key_ok_drop p k : Forall nibble p -> key_ok (p ++ k) <-> key_ok k.
Proof.
  induction 1 as [|x p Hx Hp IH]; [done|]. cbn. split.
  - intros [[-> _]|[_ Hk]]%key_ok_tail; [unfold nibble in Hx; lia|by apply IH].
  - intros Hk. constructor; [done|]. by apply IH.
Qed.

(** No key is a proper prefix of another. *)
Lemma key_ok_prefix k l : key_ok k -> key_ok (k ++ l) -> l = [].
Proof.
  induction 1 as [|x k Hx Hk IH]; cbn.
  - intros [[_ ->]|[Hn _]]%key_ok_tail; [done|]. unfold nibble in Hn. lia.
  - intros [[-> _]|[_ Hl]]%key_ok_tail; [unfold nibble in Hx; lia|auto].
Qed.

Lemma nibbles_key b : bytes_ok b -> key_ok (bytesToHexNibbles b).
Proof.
  unfold bytesToHexNibbles. induction 1 as [|x b Hx Hb IH]; [constructor|]. cbn.
  unfold byte_ok in Hx. constructor; [|constructor; [|done]]; unfold nibble.
  - split; [apply Z.div_pos; lia|apply Z.div_lt_upper_bound; lia].
  - apply Z.mod_pos_bound. lia.
Qed.

Lemma nibbles_inj a b : bytesToHexNibbles a = bytesToHexNibbles b -> a = b.
Proof.
  unfold bytesToHexNibbles. intros Hab. apply app_inj_2 in Hab as [Hab _]; [|done].
  revert b Hab. induction a as [|x a IH]; intros [|y b]; cbn; try done.
  intros [= H1 H2 Hab]. f_equal; [|by apply IH]. rewrite (Z.div_mod x 16), (Z.div_mod y 16) by lia. lia.
Qed.

Lemma nibbles_length b : length (bytesToHexNibbles b) = (2 * length b + 1)%nat.
Proof.
  unfold bytesToHexNibbles. rewrite length_app. cbn.
  induction b as [|x b IH]; [done|]. cbn in *. lia.
Qed.

(** The common prefix. *)
Lemma prefixLen_spec k p :
  take (prefixLen k p) k = take (prefixLen k p) p /\
  (prefixLen k p <= length k)%nat /\ (prefixLen k p <= length p)%nat /\
  ((prefixLen k p < length k)%nat -> (prefixLen k p < length p)%nat ->
     nth (prefixLen k p) k 0 <> nth (prefixLen k p) p 0).
Proof.
  revert p. induction k as [|x k IH]; intros [|y p]; cbn; try (split_and!; [done|lia|lia|lia]).
  destruct (x =? y) eqn:E; breflect; [|cbn; split_and!; [done|lia|lia|done]].
  subst. destruct (IH p) as (Ht & H1 & H2 & Hn). cbn. split_and!; [by f_equal|lia|lia|].
  intros. apply Hn; lia.
Qed.

(** Where two keys part. *)
Lemma prefixLen_split k p :
  (prefixLen k p < length k)%nat -> (prefixLen k p < length p)%nat ->
  exists q a p' b k', p = q ++ a :: p' /\ k = q ++ b :: k' /\ a <> b /\ prefixLen k p = length q.
Proof.
  revert p. induction k as [|x k IH]; intros [|y p]; cbn; try lia.
  destruct (x =? y) eqn:E; breflect.
  - subst. intros H1 H2. destruct (IH p) as (q & a & p' & b & k' & -> & -> & Hab & ->); [lia|lia|].
    by exists (y :: q), a, p', b, k'.
  - intros _ _. by exists [], y, p, x, k.
Qed.

Lemma prefixLen_full k p : prefixLen k p = length p -> exists r, k = p ++ r.
Proof.
  intros Hn. destruct (prefixLen_spec k p) as (Ht & _ & _ & _). rewrite Hn, (take_ge p) in Ht by lia.
  exists (drop (length p) k). by rewrite <- Ht at 1; rewrite take_drop.
Qed.

Lemma prefixLen_app p r : prefixLen (p ++ r) p = length p.
Proof. induction p as [|x p IH]; cbn; [by destruct r|]. by rewrite Z.eqb_refl, IH. Qed.

(** A key that runs out within [p] is [p]. *)
Lemma prefixLen_short k p :
  key_ok k -> prefixLen k p = length k -> exists r, p = k ++ r.
Proof.
  intros Hk Hn. destruct (prefixLen_spec k p) as (Ht & _ & _ & _). rewrite Hn, (take_ge k) in Ht by lia.
  exists (drop (length k) p). by rewrite Ht at 1; rewrite take_drop.
Qed.

Lemma key_ok_init q b k : key_ok (q ++ b :: k) -> Forall nibble q /\ key_ok (b :: k).
Proof.
  induction q as [|x q IH]; cbn; [done|]. intros [[_ Hq]|[Hx Hq]]%key_ok_tail; [by destruct q|].
  apply IH in Hq as [? ?]. auto.
Qed.

Lemma key_not_nibbles k r : key_ok k -> ~ Forall nibble (k ++ r).
Proof.
  induction 1 as [|x k Hx Hk IH]; cbn; rewrite Forall_cons; [|tauto]. unfold nibble. lia.
Qed.

(** ** Canonical tries *)

Inductive wf : trie -> Prop :=
| wf_leaf k v : key_ok k -> wf (Ext k (Val v))
| wf_ext p slots : p <> [] -> Forall nibble p -> wf (Br slots) -> wf (Ext p (Br slots))
| wf_br slots i j t u :
    length slots = 17%nat -> i <> j -> slots !! i = Some (Some t) -> slots !! j = Some (Some u) ->
    (forall i t, (i < 16)%nat -> slots !! i = Some (Some t) -> wf t) ->
    (forall t, slots !! 16%nat = Some (Some t) -> exists v, t = Val v) ->
    wf (Br slots).

(** What a slot may hold, with the keys below it. *)
Definition slot_wf (i : nat) (t : trie) : Prop :=
  (i < 16)%nat /\ wf t \/ i = 16%nat /\ exists v, t = Val v.

Lemma wf_slots slots :
  wf (Br slots) <->
  length slots = 17%nat /\
  (exists i j t u, i <> j /\ slots !! i = Some (Some t) /\ slots !! j = Some (Some u)) /\
  forall i t, slots !! i = Some (Some t) -> slot_wf i t.
Proof.
  split.
  - inversion 1 as [| |? i j t u Hl Hij Hi Hj Hw Hv]; subst. split; [done|]. split; [by exists i, j, t, u|].
    intros k s Hs. pose proof (lookup_lt_Some _ _ _ Hs) as Hk. rewrite Hl in Hk.
    destruct (decide (k = 16%nat)) as [->|]; [right; eauto|]. left. split; [lia|]. apply (Hw k); [lia|done].
  - intros (Hl & (i & j & t & u & Hij & Hi & Hj) & Hs). apply (wf_br slots i j t u); try done.
    + intros k s Hk Hks. destruct (Hs k s Hks) as [[_ ?]|[? _]]; [done|lia].
    + intros s Hks. destruct (Hs _ s Hks) as [[? _]|[_ ?]]; [lia|done].
Qed.

Lemma plookup_ext p t k : plookup (Ext p t) (p ++ k) = plookup t k.
Proof. cbn. rewrite take_app_length, drop_app_length. by rewrite decide_True. Qed.

Lemma plookup_leaf k v : plookup (Ext k (Val v)) k = Some v.
Proof. rewrite <- (app_nil_r k) at 2. by rewrite plookup_ext. Qed.

Lemma plookup_ext_Some p t k v :
  plookup (Ext p t) k = Some v -> exists r, k = p ++ r /\ plookup t r = Some v.
Proof.
  cbn. case_decide as Hd; [|done]. intros Hl. exists (drop (length p) k). split; [|done].
  by rewrite <- Hd at 1; rewrite take_drop.
Qed.

Lemma plookup_br_Some slots k v :
  plookup (Br slots) k = Some v ->
  exists x r t, k = x :: r /\ slots !! Z.to_nat x = Some (Some t) /\ plookup t r = Some v.
Proof.
  destruct k as [|x r]; [done|]. rewrite plookup_br. destruct (slots !! Z.to_nat x) as [[t|]|] eqn:E; try done.
  intros Hl. by exists x, r, t.
Qed.

Lemma plookup_val_Some w k v : plookup (Val w) k = Some v -> k = [] /\ v = w.
Proof. destruct k; [|done]. by intros [= <-]. Qed.

(** Every canonical trie has an entry, and only entries with proper keys under
    non-negative nibbles. *)
Lemma wf_entry t : wf t -> exists k v, key_ok k /\ plookup t k = Some v.
Proof.
  induction 1 as [k v Hk|p slots Hp Hnp Hw (k & v & Hk & Hl)|slots i j t u Hlen Hij Hi Hj Hw IH Hv].
  - exists k, v. split; [done|apply plookup_leaf].
  - exists (p ++ k), v. split; [by apply key_ok_drop|]. by rewrite plookup_ext.
  - pose proof (lookup_lt_Some _ _ _ Hi) as Hil. destruct (decide (i = 16%nat)) as [->|].
    + destruct (Hv _ Hi) as [v ->]. exists [16], v. split; [constructor|]. rewrite plookup_br.
      change (Z.to_nat 16) with 16%nat. by rewrite Hi.
    + destruct (IH i t) as (k & v & Hk & Hl); [lia|done|]. exists (Z.of_nat i :: k), v.
      split; [constructor; [unfold nibble; lia|done]|]. by rewrite plookup_br, Nat2Z.id, Hi.
Qed.

Lemma slot_entry i t : slot_wf i t -> exists k v, key_ok (Z.of_nat i :: k) /\ plookup t k = Some v.
Proof.
  intros [[Hi Hw]|[-> [v ->]]].
  - destruct (wf_entry t Hw) as (k & v & Hk & Hl). exists k, v. split; [|done].
    constructor; [unfold nibble; lia|done].
  - exists [], v. split; [constructor|done].
Qed.

(** Two entries that part after [q]. *)
Definition forks (t : trie) (q : list Z) : Prop :=
  exists x r y s v w, x <> y /\ key_ok (q ++ x :: r) /\ key_ok (q ++ y :: s) /\
    plookup t (q ++ x :: r) = Some v /\ plookup t (q ++ y :: s) = Some w.

Lemma br_forks slots : wf (Br slots) -> forks (Br slots) [].
Proof.
  intros (Hl & (i & j & t & u & Hij & Hi & Hj) & Hs)%wf_slots.
  destruct (slot_entry i t (Hs _ _ Hi)) as (r & v & Hr & Hv).
  destruct (slot_entry j u (Hs _ _ Hj)) as (s & w & Hs' & Hw).
  exists (Z.of_nat i), r, (Z.of_nat j), s, v, w. cbn [app]. rewrite !plookup_br, !Nat2Z.id, Hi, Hj.
  split_and!; try done. lia.
Qed.

Lemma ext_forks p slots : Forall nibble p -> wf (Br slots) -> forks (Ext p (Br slots)) p.
Proof.
  intros Hp (x & r & y & s & v & w & Hxy & Hx & Hy & Hv & Hw)%br_forks. cbn [app] in *.
  exists x, r, y, s, v, w. rewrite !plookup_ext, !key_ok_drop by done. done.
Qed.

(** All entries of [t] have the prefix [p]. *)
Definition under (t : trie) (p : list Z) : Prop := forall k v, plookup t k = Some v -> p `prefix_of` k.

Lemma ext_under p t : under (Ext p t) p.
Proof. intros k v (r & -> & _)%plookup_ext_Some. by exists r. Qed.

Lemma fork_prefix (p q : list Z) x r y s :
  x <> y -> p `prefix_of` q ++ x :: r -> p `prefix_of` q ++ y :: s -> p `prefix_of` q.
Proof.
  revert p. induction q as [|z q IH]; intros [|a p] Hxy Hx Hy; try apply prefix_nil.
  - apply prefix_cons_inv_1 in Hx. apply prefix_cons_inv_1 in Hy. congruence.
  - cbn in *. pose proof (prefix_cons_inv_1 _ _ _ _ Hx) as ->.
    apply prefix_cons, IH; eauto using prefix_cons_inv_2.
Qed.

(** Same entries. *)
Definition agree (t u : trie) : Prop := forall k, key_ok k -> plookup t k = plookup u k.

Lemma agree_sym t u : agree t u -> agree u t.
Proof. intros Ha k Hk. symmetry. by apply Ha. Qed.

Lemma fork_under t u p q : agree t u -> forks t q -> under u p -> p `prefix_of` q.
Proof.
  intros Ha (x & r & y & s & v & w & Hxy & Hx & Hy & Hv & Hw) Hu.
  rewrite (Ha _ Hx) in Hv. rewrite (Ha _ Hy) in Hw. eapply fork_prefix; eauto.
Qed.

(** A leaf has one key. *)
Lemma leaf_no_fork k v u q : agree (Ext k (Val v)) u -> ~ forks u q.
Proof.
  intros Ha (x & r & y & s & v' & w & Hxy & Hx & Hy & Hv & Hw).
  rewrite <- (Ha _ Hx) in Hv. rewrite <- (Ha _ Hy) in Hw.
  apply plookup_ext_Some in Hv as (r1 & Hk1 & [-> _]%plookup_val_Some).
  apply plookup_ext_Some in Hw as (r2 & Hk2 & [-> _]%plookup_val_Some).
  rewrite <- Hk2 in Hk1. apply app_inv_head in Hk1. congruence.
Qed.

Lemma agree_ext p t u : Forall nibble p -> agree (Ext p t) (Ext p u) -> agree t u.
Proof.
  intros Hp Ha k Hk. rewrite <- (plookup_ext p t), <- (plookup_ext p u). apply Ha. by apply key_ok_drop.
Qed.

(** Canonical tries with the same entries are equal. *)
Lemma wf_unique t : wf t -> forall u, wf u -> agree t u -> t = u.
Proof.
  induction 1 as [k v Hk|p slots Hp Hnp Hw IH|slots i j t1 t2 Hlen Hij Hi Hj Hw IH Hv]; intros u Hu Ha.
  - inversion Hu as [l w Hl|q us Hq Hnq Hwu|us ? ? ? ? _ _ _ _ _ _]; subst.
    + pose proof (Ha k Hk) as Hkk. rewrite plookup_leaf in Hkk.
      symmetry in Hkk. apply plookup_ext_Some in Hkk as (r & Hr & [-> ->]%plookup_val_Some).
      rewrite app_nil_r in Hr. by subst.
    + exfalso. eapply leaf_no_fork; [exact Ha|by apply ext_forks].
    + exfalso. eapply leaf_no_fork; [exact Ha|by apply br_forks].
  - inversion Hu as [l w Hl|q us Hq Hnq Hwu|us ? ? ? ? _ _ _ _ _ _]; subst.
    + exfalso. eapply leaf_no_fork; [by apply agree_sym|by apply ext_forks].
    + assert (p = q) as <-.
      { apply (anti_symm prefix).
        - eapply fork_under; [by apply agree_sym|by apply ext_forks|apply ext_under].
        - eapply fork_under; [exact Ha|by apply ext_forks|apply ext_under]. }
      f_equal. apply IH; [done|]. by eapply agree_ext.
    + exfalso. apply Hp. apply prefix_nil_inv.
      eapply fork_under; [by apply agree_sym|by apply br_forks|apply ext_under].
  - assert (Hwt : wf (Br slots)) by (by eapply wf_br).
    inversion Hu as [l w Hl|q us Hq Hnq Hwu|us ? ? ? ? _ _ _ _ _ _]; subst.
    + exfalso. eapply leaf_no_fork; [by apply agree_sym|by apply br_forks].
    + exfalso. apply Hq. apply prefix_nil_inv.
      eapply fork_under; [exact Ha|by apply br_forks|apply ext_under].
    + f_equal. apply wf_slots in Hu as (Hlu & _ & Hsu). apply wf_slots in Hwt as (_ & _ & Hst).
      apply list_eq. intros n. destruct (decide (n < 17)%nat) as [Hn|]; [|rewrite !lookup_ge_None_2 by lia; done].
      destruct (lookup_lt_is_Some_2 slots n) as [o Ho]; [lia|].
      destruct (lookup_lt_is_Some_2 us n) as [o' Ho']; [lia|]. rewrite Ho, Ho'. f_equal.
      assert (Hat : forall k, key_ok (Z.of_nat n :: k) ->
        match o with Some t => plookup t k | None => None end =
        match o' with Some t => plookup t k | None => None end).
      { intros k Hk. specialize (Ha _ Hk). by rewrite !plookup_br, !Nat2Z.id, Ho, Ho' in Ha. }
      destruct o as [c|], o' as [c'|]; [|exfalso..|done].
      * f_equal. destruct (Hst _ _ Ho) as [[Hn16 Hwt]|[-> [w ->]]].
        -- destruct (Hsu _ _ Ho') as [[_ Hwt']|[? _]]; [|lia]. apply (IH n); [done|done|done|].
           intros k Hk. apply Hat. constructor; [unfold nibble; lia|done].
        -- destruct (Hsu _ _ Ho') as [[? _]|[_ [w' ->]]]; [lia|]. specialize (Hat [] key_end). cbn in Hat. congruence.
      * destruct (slot_entry n c (Hst _ _ Ho)) as (k & w & Hk & Hl). specialize (Hat k Hk). congruence.
      * destruct (slot_entry n c' (Hsu _ _ Ho')) as (k & w & Hk & Hl). specialize (Hat k Hk). congruence.
Qed.

(** ** Insertion *)

Lemma plookup_leaf_eq k v r : plookup (Ext k (Val v)) r = if decide (k = r) then Some v else None.
Proof.
  case_decide as Hd; [subst; apply plookup_leaf|]. destruct (plookup (Ext k (Val v)) r) eqn:E; [|done].
  apply plookup_ext_Some in E as (r' & -> & [-> _]%plookup_val_Some). by rewrite app_nil_r in Hd.
Qed.

Lemma plookup_pnew k v r : plookup (pnew k v) r = if decide (k = r) then Some v else None.
Proof. destruct k as [|x k]; [|apply plookup_leaf_eq]. by destruct r. Qed.

Lemma slot_pnew x k v : key_ok (x :: k) -> slot_wf (Z.to_nat x) (pnew k v).
Proof.
  intros [[-> ->]|[Hx Hk]]%key_ok_tail; [right; split; [done|by exists v]|].
  left. unfold nibble in Hx. split; [lia|]. destruct k; [by apply key_ok_nil in Hk|]. by constructor.
Qed.

Lemma slots_of_lookup x t y u n :
  0 <= x <= 16 -> 0 <= y <= 16 -> x <> y ->
  slots_of x t y u !! n =
  if decide (n = Z.to_nat y) then Some (Some u)
  else if decide (n = Z.to_nat x) then Some (Some t)
  else if decide (n < 17)%nat then Some None else None.
Proof.
  intros Hx Hy Hxy. unfold slots_of. case_decide as H1; [|case_decide as H2].
  - subst. rewrite list_lookup_insert_eq; [done|]. rewrite length_insert, length_replicate. lia.
  - subst. rewrite list_lookup_insert_ne, list_lookup_insert_eq; [done| |lia]. rewrite length_replicate. lia.
  - rewrite !list_lookup_insert_ne by lia. case_decide; [by apply lookup_replicate_2|].
    apply lookup_ge_None_2. rewrite length_replicate. lia.
Qed.

Lemma slots_of_wf x t y u :
  0 <= x <= 16 -> 0 <= y <= 16 -> x <> y -> slot_wf (Z.to_nat x) t -> slot_wf (Z.to_nat y) u ->
  wf (Br (slots_of x t y u)).
Proof.
  intros Hx Hy Hxy Ht Hu. apply wf_slots. split; [|split].
  - unfold slots_of. by rewrite !length_insert.
  - exists (Z.to_nat x), (Z.to_nat y), t, u. split; [lia|]. rewrite !slots_of_lookup by done.
    rewrite (decide_True (P := Z.to_nat y = Z.to_nat y)) by done.
    rewrite decide_False by lia. by rewrite decide_True.
  - intros i s. rewrite slots_of_lookup by done.
    destruct (decide (i = Z.to_nat y)); [intros [= <-]; by subst|].
    destruct (decide (i = Z.to_nat x)); [intros [= <-]; by subst|]. by case_decide.
Qed.

Lemma slots_of_plookup x t y u z r :
  0 <= x <= 16 -> 0 <= y <= 16 -> x <> y -> 0 <= z ->
  plookup (Br (slots_of x t y u)) (z :: r) =
  if decide (z = y) then plookup u r else if decide (z = x) then plookup t r else None.
Proof.
  intros Hx Hy Hxy Hz. rewrite plookup_br, slots_of_lookup by done.
  repeat case_decide; subst; try done; try lia.
Qed.

(** The parts of an extension that an insertion splits. *)
Lemma ext_split p c k :
  wf (Ext p c) -> key_ok k -> prefixLen k p <> length p ->
  exists q a p' b k', p = q ++ a :: p' /\ k = q ++ b :: k' /\ a <> b /\ prefixLen k p = length q /\
    Forall nibble q /\ 0 <= a <= 16 /\ key_ok (b :: k') /\
    slot_wf (Z.to_nat a) (match p' with [] => c | _ => Ext p' c end).
Proof.
  intros Hw Hk Hne. destruct (prefixLen_spec k p) as (_ & H1 & H2 & _).
  assert (Hlt : (prefixLen k p < length k)%nat).
  { destruct (decide (prefixLen k p = length k)) as [He|]; [|lia]. exfalso.
    destruct (prefixLen_short k p Hk He) as [r ->].
    inversion Hw as [? ? Hkr|? ? _ Hn _|]; subst; [|exact (key_not_nibbles _ _ Hk Hn)].
    apply key_ok_prefix in Hkr; [subst|done]. rewrite app_nil_r in *. congruence. }
  destruct (prefixLen_split k p) as (q & a & p' & b & k' & -> & -> & Hab & Hq); [lia|lia|].
  apply key_ok_init in Hk as [Hnq Hb]. exists q, a, p', b, k'. do 5 (split; [done|]). split; [|split; [done|]].
  - inversion Hw as [? ? Hka|? ? _ Hn _|]; subst.
    + apply key_ok_init in Hka as [_ Ha]. by apply key_ok_slot in Ha.
    + apply Forall_app in Hn as [_ Hn]. inversion Hn as [|? ? Ha _]; subst. unfold nibble in Ha. lia.
  - inversion Hw as [? w Hka|? slots _ Hn Hbr|]; subst.
    + apply key_ok_init in Hka as [_ Ha]. apply key_ok_tail in Ha as [[-> ->]|[Ha Hp']].
      * right. split; [done|by exists w].
      * left. unfold nibble in Ha. split; [lia|]. destruct p'; [by apply key_ok_nil in Hp'|by constructor].
    + apply Forall_app in Hn as [_ Hn]. inversion Hn as [|? ? Ha Hp']; subst. unfold nibble in Ha.
      left. split; [lia|]. destruct p' as [|y p']; [done|by constructor].
Qed.

Lemma prefixLen_parts q a p b k : a <> b -> prefixLen (q ++ b :: k) (q ++ a :: p) = length q.
Proof.
  intros Hab. induction q as [|x q IH]; cbn; [|by rewrite Z.eqb_refl, IH].
  by rewrite (proj2 (Z.eqb_neq b a)) by congruence.
Qed.

Lemma pinsert_split q a p b k c v :
  a <> b ->
  pinsert (Ext (q ++ a :: p) c) (q ++ b :: k) v =
  let br := Br (slots_of a (match p with [] => c | _ => Ext p c end) b (pnew k v)) in
  match q with [] => br | _ => Ext q br end.
Proof.
  intros Hab. cbn [pinsert]. rewrite prefixLen_parts by done. cbv zeta.
  rewrite (proj2 (Nat.eqb_neq _ _)) by (rewrite length_app; cbn; lia).
  rewrite !app_nth2, Nat.sub_diag by lia. cbn [nth].
  rewrite !drop_app, !drop_ge by lia. replace (length q + 1 - length q)%nat with 1%nat by lia. cbn [drop app].
  replace (length q + 1 <? length (q ++ a :: p))%nat with (negb (length p =? 0)%nat).
  2: { rewrite length_app. cbn [length]. destruct (length p); cbn; symmetry;
       [apply Nat.ltb_ge|apply Nat.ltb_lt]; lia. }
  rewrite take_app_length. destruct q; destruct p; done.
Qed.

Lemma pinsert_ext p r c v : pinsert (Ext p c) (p ++ r) v = Ext p (pinsert c r v).
Proof. cbn. by rewrite prefixLen_app, Nat.eqb_refl, drop_app_length. Qed.

(** Insertion below a slot, given the result for the trie in it. *)
Lemma pinsert_slot x o k v :
  key_ok (x :: k) -> (forall t, o = Some t -> slot_wf (Z.to_nat x) t) ->
  (forall t, o = Some t -> wf t -> key_ok k -> wf (pinsert t k v) /\
     forall l, key_ok l -> plookup (pinsert t k v) l = if decide (k = l) then Some v else plookup t l) ->
  slot_wf (Z.to_nat x) (pinsert_at o k v) /\
  forall l, key_ok (x :: l) -> plookup (pinsert_at o k v) l =
    if decide (k = l) then Some v else match o with Some t => plookup t l | None => None end.
Proof.
  intros Hk Hs IH. destruct o as [t|].
  2: { split; [by apply slot_pnew|]. intros l _. apply plookup_pnew. }
  destruct (Hs t eq_refl) as [[Hx Hw]|[Hx [w ->]]]; cbn [pinsert_at].
  - apply key_ok_tail in Hk as [[-> _]|[Hn Hk]]; [cbn in Hx; lia|].
    destruct (IH t eq_refl Hw Hk) as [Hw' Hl]. split; [by left|].
    intros l [[-> _]|[_ Hl']]%key_ok_tail; [unfold nibble in Hn; lia|by apply Hl].
  - assert (Hend : forall l, key_ok (x :: l) -> l = []).
    { intros l [[_ ->]|[Hn _]]%key_ok_tail; [done|]. unfold nibble in Hn. lia. }
    rewrite (Hend _ Hk). split; [right; split; [done|by exists v]|]. intros l Hl. by rewrite (Hend _ Hl).
Qed.

(** Looking below the prefix of an extension. *)
Lemma plookup_old q a p c r :
  plookup (Ext (q ++ a :: p) c) (q ++ a :: r) = plookup (match p with [] => c | _ => Ext p c end) r.
Proof.
  cbn [plookup]. rewrite length_app, take_app_add', drop_app_add' by done. cbn [length take drop].
  destruct p as [|y p]; cbn [length]; [rewrite take_0; by rewrite decide_True|].
  cbn [plookup]. destruct (decide (take (length (y :: p)) r = y :: p)) as [He|He].
  - rewrite decide_True; [done|]. cbn [length] in He. by rewrite He.
  - rewrite decide_False; [done|]. intros Hx. apply app_inv_head in Hx. injection Hx. done.
Qed.

Lemma plookup_ext_None p t k : ~ p `prefix_of` k -> plookup (Ext p t) k = None.
Proof.
  intros Hp. destruct (plookup (Ext p t) k) eqn:E; [|done].
  apply plookup_ext_Some in E as (r & -> & _). destruct Hp. by exists r.
Qed.

(** The case of an insertion that splits an extension. *)
Lemma pinsert_split_ok p c k v :
  wf (Ext p c) -> key_ok k -> prefixLen k p <> length p ->
  wf (pinsert (Ext p c) k v) /\
  forall l, key_ok l -> plookup (pinsert (Ext p c) k v) l =
    if decide (k = l) then Some v else plookup (Ext p c) l.
Proof.
  intros Hw Hk Hne.
  destruct (ext_split p c k Hw Hk Hne) as (q & a & p' & b & k' & -> & -> & Hab & _ & Hq & Ha & Hb & Hs).
  rewrite pinsert_split by done. cbv zeta. pose proof (key_ok_slot _ _ Hb) as Hb16.
  set (old := match p' with [] => c | _ => Ext p' c end) in *. set (br := Br _).
  assert (Hbr : wf br) by (by apply slots_of_wf; [..|apply slot_pnew]).
  split; [destruct q; [done|by constructor]|]. intros l Hlk.
  destruct (decide (q `prefix_of` l)) as [[r ->]|Hnq].
  - apply key_ok_drop in Hlk; [|done]. destruct r as [|z r]; [by apply key_ok_nil in Hlk|].
    assert (Hl : plookup (match q with [] => br | _ => Ext q br end) (q ++ z :: r) = plookup br (z :: r)).
    { destruct q; [done|apply plookup_ext]. }
    pose proof (key_ok_slot _ _ Hlk) as Hz. rewrite Hl. unfold br. rewrite slots_of_plookup by lia.
    rewrite plookup_pnew. destruct (decide (z = b)) as [->|Hzb].
    + destruct (decide (k' = r)) as [->|Hkr]; [by rewrite decide_True|].
      rewrite decide_False by (intros He; apply app_inv_head in He; congruence).
      symmetry. apply plookup_ext_None. intros Hpr%prefix_app_inv.
      apply prefix_cons_inv_1 in Hpr. congruence.
    + rewrite (decide_False (P := q ++ b :: k' = _)) by (intros He; apply app_inv_head in He; congruence).
      destruct (decide (z = a)) as [->|Hza]; [by rewrite plookup_old|].
      symmetry. apply plookup_ext_None. intros Hpr%prefix_app_inv.
      apply prefix_cons_inv_1 in Hpr. congruence.
  - rewrite decide_False by (intros <-; apply Hnq; by eexists). rewrite (plookup_ext_None (q ++ _)).
    + destruct q; [destruct Hnq; apply prefix_nil|by apply plookup_ext_None].
    + intros Hpr. apply Hnq. etrans; [|exact Hpr]. by eexists.
Qed.

Lemma decide_app (p k l : list Z) {A} (x y : A) :
  (if decide (p ++ k = p ++ l) then x else y) = if decide (k = l) then x else y.
Proof.
  destruct (decide (k = l)) as [->|Hne]; [by rewrite decide_True|].
  rewrite decide_False; [done|]. by intros ?%app_inv_head.
Qed.

(** Below an extension whose whole prefix the key has. *)
Lemma pinsert_below p c d k v r :
  (forall l, key_ok l -> plookup (pinsert c r v) l = if decide (r = l) then Some v else plookup c l) ->
  d = pinsert c r v -> k = p ++ r -> Forall nibble p -> forall l, key_ok l ->
  plookup (Ext p d) l = if decide (k = l) then Some v else plookup (Ext p c) l.
Proof.
  intros IH -> -> Hp l Hl. destruct (decide (p `prefix_of` l)) as [[s ->]|Hn].
  - rewrite !plookup_ext, decide_app. apply IH. by apply key_ok_drop in Hl.
  - rewrite !plookup_ext_None by done. rewrite decide_False; [done|]. intros <-. apply Hn. by eexists.
Qed.

(** Insertion keeps the canonical form and adds exactly the entry. *)
Lemma pinsert_ok t : wf t -> forall k v, key_ok k ->
  wf (pinsert t k v) /\
  forall l, key_ok l -> plookup (pinsert t k v) l = if decide (k = l) then Some v else plookup t l.
Proof.
  induction 1 as [p w Hp|p slots Hp Hnp Hw IH|slots i j t u Hlen Hij Hi Hj Hw IH Hv]; intros k v Hk.
  - destruct (decide (prefixLen k p = length p)) as [He|]; [|by apply pinsert_split_ok; [constructor|..]].
    destruct (prefixLen_full k p He) as [r ->]. apply key_ok_prefix in Hk as ->; [|done].
    rewrite pinsert_ext, app_nil_r. cbn [pinsert]. split; [by constructor|]. intros l Hl.
    rewrite !plookup_leaf_eq. by case_decide.
  - destruct (decide (prefixLen k p = length p)) as [He|]; [|by apply pinsert_split_ok; [constructor|..]].
    destruct (prefixLen_full k p He) as [r ->]. rewrite pinsert_ext. apply key_ok_drop in Hk as Hr; [|done].
    destruct (IH r v Hr) as [Hw' Hl]. split; [|by eapply pinsert_below].
    destruct r as [|x r]; [by apply key_ok_nil in Hr|]. rewrite pinsert_br in Hw' |- *. by constructor.
  - destruct k as [|x k]; [by apply key_ok_nil in Hk|]. rewrite pinsert_br.
    assert (Hb : wf (Br slots)) by (by eapply wf_br). apply wf_slots in Hb as (_ & _ & Hs).
    pose proof (key_ok_slot _ _ Hk) as Hx.
    destruct (lookup_lt_is_Some_2 slots (Z.to_nat x)) as [o Ho]; [lia|].
    destruct (pinsert_slot x o k v Hk) as [Hs' Hl'].
    { intros s ->. by apply Hs. }
    { intros s -> Hws Hk'. apply (IH (Z.to_nat x)); try done. apply key_ok_tail in Hk as [[-> ->]|[Hn _]];
        [by apply key_ok_nil in Hk'|unfold nibble in Hn; lia]. }
    set (f := fun o => Some (pinsert_at o k v)).
    assert (Hat : forall n, alter f (Z.to_nat x) slots !! n =
      if decide (n = Z.to_nat x) then Some (f o) else slots !! n).
    { intros n. case_decide as Hd; [subst; rewrite list_lookup_alter_eq, Ho; done|].
      by apply list_lookup_alter_ne. }
    split.
    + apply wf_slots. split; [by rewrite length_alter|]. split.
      * exists i, j. rewrite !Hat. destruct (decide (i = Z.to_nat x)), (decide (j = Z.to_nat x)); eauto 8; lia.
      * intros n s. rewrite Hat. case_decide as Hd; [intros [= <-]; by subst|apply Hs].
    + intros [|y l] Hl; [by apply key_ok_nil in Hl|]. rewrite !plookup_br, Hat. pose proof (key_ok_slot _ _ Hl).
      destruct (decide (Z.to_nat y = Z.to_nat x)) as [Hyx|Hyx].
      * assert (y = x) as -> by lia. rewrite Ho. unfold f. rewrite Hl' by done.
        rewrite (decide_app [x] k l). by destruct o.
      * rewrite decide_False by congruence. done.
Qed.

(** ** Deletion *)

Lemma live_from_spec {A} (l : list (option A)) n i t :
  (i, t) ∈ live_from n l <-> (n <= i)%nat /\ l !! (i - n)%nat = Some (Some t).
Proof.
  revert n. induction l as [|o l IH]; intros n; cbn [live_from].
  { rewrite elem_of_nil, lookup_nil. split; [done|by intros [_ ?]]. }
  assert (Hl : (i, t) ∈ live_from (S n) l <-> (n < i)%nat /\ (o :: l) !! (i - n)%nat = Some (Some t)).
  { rewrite IH. split; intros [Hi Hs]; (split; [lia|]);
      [replace (i - n)%nat with (S (i - S n)) by lia|replace (i - n)%nat with (S (i - S n)) in Hs by lia]; done. }
  assert (Ht : i = n -> (o :: l) !! (i - n)%nat = Some o) by (intros ->; by rewrite Nat.sub_diag).
  destruct o as [x|]; [rewrite elem_of_cons|]; rewrite Hl; split.
  - intros [[= -> ->]|[? ?]]; [split; [lia|by rewrite Ht]|split; [lia|done]].
  - intros [Hi Hs]. destruct (decide (i = n)) as [->|]; [left|right; split; [lia|done]].
    rewrite Ht in Hs by done. congruence.
  - intros [? ?]. split; [lia|done].
  - intros [Hi Hs]. destruct (decide (i = n)) as [->|]; [rewrite Ht in Hs; done|split; [lia|done]].
Qed.

Lemma live_from_NoDup {A} (l : list (option A)) n : NoDup (fst <$> live_from n l).
Proof.
  revert n. induction l as [|[x|] l IH]; intros n; cbn; [constructor| |apply IH].
  constructor; [|apply IH]. intros ([i t] & -> & Hi)%list_elem_of_fmap.
  apply live_from_spec in Hi as [Hi _]. cbn in Hi. lia.
Qed.

Lemma used_spec slots i t : (i, t) ∈ used slots <-> slots !! i = Some (Some t).
Proof. unfold used. rewrite live_from_spec, Nat.sub_0_r. split; [by intros []|]. split; [lia|done]. Qed.

Lemma prepend_ok i t :
  slot_wf i t ->
  wf (prepend (Z.of_nat i) t) /\
  forall x r, key_ok (x :: r) -> plookup (prepend (Z.of_nat i) t) (x :: r) =
    if decide (x = Z.of_nat i) then plookup t r else None.
Proof.
  intros Hs. assert (Hl : forall p c x r, plookup (Ext (Z.of_nat i :: p) c) (x :: r) =
    if decide (x = Z.of_nat i) then plookup (Ext p c) r else None).
  { intros p c x r. cbn. destruct (decide (x = Z.of_nat i)) as [->|Hne].
    - destruct (decide (take (length p) r = p)) as [He|He]; [by rewrite decide_True by (by rewrite He)|].
      rewrite decide_False; [done|]. intros [= ?]. done.
    - rewrite decide_False; [done|]. intros [= ? ?]. done. }
  assert (Hl0 : forall c x r, plookup (Ext [Z.of_nat i] c) (x :: r) =
    if decide (x = Z.of_nat i) then plookup c r else None).
  { intros c x r. rewrite Hl. cbn. rewrite take_0. by case_decide. }
  destruct Hs as [[Hi Hw]|[-> [v ->]]]; [|split; [constructor; constructor|intros; apply Hl0]].
  assert (Hn : nibble (Z.of_nat i)) by (unfold nibble; lia).
  inversion Hw as [k v Hk|p slots Hp Hnp Hb|slots]; subst; cbn [prepend]; split; intros;
    first [apply Hl | apply Hl0 | constructor; try done; by constructor].
Qed.

(** What is left of a branch. *)
Lemma pcollapse_ok slots i t :
  length slots = 17%nat -> (forall i t, slots !! i = Some (Some t) -> slot_wf i t) ->
  slots !! i = Some (Some t) ->
  exists t', pcollapse slots = Some t' /\ wf t' /\
    forall l, key_ok l -> plookup t' l = plookup (Br slots) l.
Proof.
  intros Hlen Hs Hi. unfold pcollapse. pose proof (live_from_NoDup slots 0) as Hnd. fold (used slots) in Hnd.
  destruct (used slots) as [|[j u] [|[j' u'] rest]] eqn:E.
  - apply used_spec in Hi. rewrite E in Hi. by apply elem_of_nil in Hi.
  - assert (Hj : slots !! j = Some (Some u)) by (apply used_spec; rewrite E; in_list).
    destruct (prepend_ok j u (Hs _ _ Hj)) as [Hw Hl]. eexists. split; [done|]. split; [done|].
    intros [|x r] Hk; [by apply key_ok_nil in Hk|]. rewrite Hl, plookup_br by done.
    pose proof (key_ok_slot _ _ Hk). case_decide as Hd; [by rewrite Hd, Nat2Z.id, Hj|].
    destruct (slots !! Z.to_nat x) as [[u'|]|] eqn:Ex; try done.
    apply used_spec in Ex. rewrite E in Ex. apply elem_of_cons in Ex as [[= Hx ->]|Hn]; [|by apply elem_of_nil in Hn].
    lia.
  - eexists. split; [done|]. split; [|done]. apply wf_slots. split; [done|]. split; [|done].
    cbn in Hnd. apply NoDup_cons in Hnd as [Hjj _].
    exists j, j', u, u'. rewrite <- !used_spec, E. split_and!; [|in_list..]. intros ->. apply Hjj. in_list.
Qed.

(** All keys have length [L]. *)
Definition keys_len (L : nat) (t : trie) : Prop :=
  forall k v, key_ok k -> plookup t k = Some v -> length k = L.

Lemma keys_len_ext p t L :
  Forall nibble p -> keys_len L (Ext p t) -> keys_len (L - length p) t.
Proof.
  intros Hp HL k v Hk Hl. assert (Hpk : key_ok (p ++ k)) by (by apply key_ok_drop).
  rewrite <- (HL _ v Hpk); [rewrite length_app; lia|]. by rewrite plookup_ext.
Qed.

Lemma keys_len_slot slots i t L :
  (i < 16)%nat -> slots !! i = Some (Some t) -> keys_len L (Br slots) -> keys_len (L - 1) t.
Proof.
  intros Hn Hi HL k v Hk Hl.
  assert (Hik : key_ok (Z.of_nat i :: k)) by (constructor; [unfold nibble; lia|done]).
  rewrite <- (HL _ v Hik); [cbn; lia|]. by rewrite plookup_br, Nat2Z.id, Hi.
Qed.

(** A canonical trie is not empty, so the length of its keys bounds its prefixes. *)
Lemma keys_len_prefix p slots L :
  Forall nibble p -> wf (Br slots) -> keys_len L (Ext p (Br slots)) -> (length p < L)%nat.
Proof.
  intros Hp Hw HL. destruct (wf_entry _ Hw) as (k & v & Hk & Hl).
  assert (Hpk : key_ok (p ++ k)) by (by apply key_ok_drop).
  rewrite <- (HL _ v Hpk) by (by rewrite plookup_ext). rewrite length_app.
  destruct k; [by apply key_ok_nil in Hk|]. cbn. lia.
Qed.

Lemma key_ok_from k n : (n < length k)%nat -> key_ok k -> key_ok (drop n k).
Proof.
  intros Hn Hk. destruct (drop n k) as [|b r] eqn:E.
  - apply (f_equal length) in E. rewrite length_drop in E. cbn in E. lia.
  - rewrite <- (take_drop n k), E in Hk. by apply key_ok_init in Hk as [_ ?].
Qed.

(** A key that is too long is not found, although prefixes may match in part. *)
Lemma pdelete_long t : wf t -> forall L k, keys_len L t -> key_ok k -> (L < length k)%nat -> pdelete t k = None.
Proof.
  induction 1 as [p w Hp|p slots Hp Hnp Hw IH|slots i j t u Hlen Hij Hi Hj Hw IH Hv]; intros L k HL Hk Hlt.
  - pose proof (HL p w Hp (plookup_leaf p w)) as HLp. cbn [pdelete]. cbv zeta.
    destruct (prefixLen_spec k p) as (_ & _ & Hn & _). rewrite (proj2 (Nat.eqb_neq _ _)) by lia.
    case_match; [done|]. destruct (drop (prefixLen k p) k) as [|y l] eqn:E; [|done].
    apply (f_equal length) in E. rewrite length_drop in E. cbn in E. lia.
  - pose proof (keys_len_prefix p slots L Hnp Hw HL) as HLp. cbn [pdelete]. cbv zeta.
    destruct (prefixLen_spec k p) as (_ & _ & Hn & _). rewrite (proj2 (Nat.eqb_neq _ _)) by lia.
    case_match; [done|]. apply keys_len_ext in HL; [|done].
    change (match pdelete (Br slots) (drop (prefixLen k p) k) with
            | None => None | Some None => Some None
            | Some (Some (Ext q c)) => Some (Some (Ext (p ++ q) c))
            | Some (Some c) => Some (Some (Ext p c)) end = None).
    rewrite (IH _ _ HL); [done|apply key_ok_from; [lia|done]|rewrite length_drop; lia].
  - destruct k as [|x k]; [by apply key_ok_nil in Hk|]. rewrite pdelete_br.
    destruct (slots !! Z.to_nat x) as [[c|]|] eqn:E; try done.
    apply key_ok_tail in Hk as [[-> ->]|[Hx Hk]].
    + exfalso. destruct (Hv _ E) as [w ->]. pose proof (HL [16] w key_end) as Hl. cbn in Hlt.
      rewrite plookup_br, E in Hl. specialize (Hl eq_refl). cbn in Hl. lia.
    + unfold nibble in Hx. assert (Hpos : (0 < length k)%nat) by (destruct Hk; cbn; lia). cbn in Hlt.
      rewrite (IH (Z.to_nat x) c ltac:(lia) E (L - 1)%nat); [done| |done|lia].
      eapply keys_len_slot; [|exact E|done]. lia.
Qed.

(** The outcome of a deletion. *)
Definition deleted (t : trie) (k : list Z) (r : option (option trie)) : Prop :=
  match r with
  | None => plookup t k = None
  | Some o =>
      (forall t', o = Some t' -> wf t') /\
      forall l, key_ok l ->
        match o with Some t' => plookup t' l | None => None end =
        if decide (k = l) then None else plookup t l
  end.

Lemma deleted_leaf k v : deleted (Ext k (Val v)) k (Some None).
Proof. split; [done|]. intros l _. rewrite plookup_leaf_eq. by case_decide. Qed.

(** An extension merged with the extension below it. *)
Definition join (p : list Z) (t : trie) : trie :=
  match t with Ext q t => Ext (p ++ q) t | _ => Ext p t end.

Lemma join_lookup p t l : plookup (join p t) l = plookup (Ext p t) l.
Proof.
  destruct t as [v|q t|slots]; try done. cbn [join]. destruct (decide (p ++ q `prefix_of` l)) as [[r ->]|Hn].
  - by rewrite plookup_ext, <- app_assoc, !plookup_ext.
  - rewrite plookup_ext_None by done. destruct (decide (p `prefix_of` l)) as [[r ->]|Hp].
    + rewrite plookup_ext. symmetry. apply plookup_ext_None. intros Hq. apply Hn. by apply prefix_app.
    + by rewrite plookup_ext_None.
Qed.

Lemma join_wf p t : Forall nibble p -> p <> [] -> wf t -> wf (join p t).
Proof.
  intros Hp Hpn Hw. inversion Hw as [k v Hk|q slots Hq Hnq Hb|slots]; subst; cbn [join].
  - constructor. by apply key_ok_drop.
  - constructor; [by destruct p|by apply Forall_app|done].
  - by constructor.
Qed.

(** Through an extension whose whole prefix the key has. *)
Lemma deleted_ext p c r o :
  Forall nibble p -> p <> [] -> deleted c r o ->
  deleted (Ext p c) (p ++ r)
    match o with None => None | Some None => Some None | Some (Some t) => Some (Some (join p t)) end.
Proof.
  intros Hp Hpn Hd. destruct o as [o|]; cbn [deleted] in Hd; [|cbn [deleted]; by rewrite plookup_ext].
  destruct Hd as [Hw Hl].
  assert (Hgen : forall l, key_ok l ->
    match o with Some t => plookup (Ext p t) l | None => None end =
    if decide (p ++ r = l) then None else plookup (Ext p c) l).
  { intros l Hlk. destruct (decide (p `prefix_of` l)) as [[s ->]|Hn].
    - apply key_ok_drop in Hlk; [|done]. rewrite decide_app, plookup_ext, <- (Hl s Hlk).
      destruct o; [apply plookup_ext|done].
    - rewrite (plookup_ext_None p c) by done. destruct o; [rewrite plookup_ext_None by done|]; by case_decide. }
  destruct o as [t|]; (split; [|intros l Hlk; rewrite <- Hgen by done; [try apply join_lookup; done]]).
  - intros t' [= <-]. apply join_wf; auto.
  - done.
Qed.

Lemma join_match p o :
  match o with
  | None => None
  | Some None => Some None
  | Some (Some (Ext q c)) => Some (Some (Ext (p ++ q) c))
  | Some (Some c) => Some (Some (Ext p c))
  end = match o with None => None | Some None => Some None | Some (Some t) => Some (Some (join p t)) end.
Proof. by destruct o as [[[]|]|]. Qed.

(** Out of a branch. *)
Lemma deleted_br slots x k c o :
  wf (Br slots) -> key_ok (x :: k) -> slots !! Z.to_nat x = Some (Some c) ->
  (forall t, o = Some t -> slot_wf (Z.to_nat x) t) ->
  (forall l, key_ok (x :: l) -> match o with Some t => plookup t l | None => None end =
     if decide (k = l) then None else plookup c l) ->
  deleted (Br slots) (x :: k) (Some (pcollapse (<[Z.to_nat x := o]> slots))).
Proof.
  intros (Hlen & (i & j & t & u & Hij & Hi & Hj) & Hs)%wf_slots Hk Hx Ho Hl.
  pose proof (key_ok_slot _ _ Hk) as Hx16.
  assert (Hat : forall n, <[Z.to_nat x := o]> slots !! n = if decide (n = Z.to_nat x) then Some o else slots !! n).
  { intros n. case_decide as Hd; [subst; apply list_lookup_insert_eq; lia|by apply list_lookup_insert_ne]. }
  assert (Hother : exists n s, <[Z.to_nat x := o]> slots !! n = Some (Some s)).
  { destruct (decide (i = Z.to_nat x)); [exists j, u|exists i, t]; rewrite Hat, decide_False by lia; done. }
  destruct Hother as (n & s & Hn).
  destruct (pcollapse_ok (<[Z.to_nat x := o]> slots) n s) as (t' & -> & Hw & Hl'); [by rewrite length_insert| |done|].
  { intros m v. rewrite Hat. case_decide; [intros [= ->]; subst; auto|apply Hs]. }
  split; [by intros ? [= <-]|]. intros l Hlk. rewrite Hl' by done.
  destruct l as [|y l]; [by apply key_ok_nil in Hlk|]. rewrite !plookup_br, Hat. pose proof (key_ok_slot _ _ Hlk).
  destruct (decide (Z.to_nat y = Z.to_nat x)) as [Hyx|Hyx].
  - assert (y = x) as -> by lia. rewrite Hx, (decide_app [x] k l), <- (Hl l Hlk). by destruct o.
  - by rewrite decide_False by congruence.
Qed.

(** A branch with one slot replaced. *)
Lemma replaced_wf slots x o t' :
  wf (Br slots) -> (x < 17)%nat -> (forall t, o = Some t -> slot_wf x t) ->
  pcollapse (<[x := o]> slots) = Some t' -> wf t'.
Proof.
  intros (Hlen & (i & j & t & u & Hij & Hi & Hj) & Hs)%wf_slots Hx Ho Hc.
  assert (Hat : forall n, <[x := o]> slots !! n = if decide (n = x) then Some o else slots !! n).
  { intros n. case_decide as Hd; [subst; apply list_lookup_insert_eq; lia|by apply list_lookup_insert_ne]. }
  assert (Hother : exists n s, <[x := o]> slots !! n = Some (Some s)).
  { destruct (decide (i = x)); [exists j, u|exists i, t]; rewrite Hat, decide_False by lia; done. }
  destruct Hother as (n & s & Hn).
  destruct (pcollapse_ok (<[x := o]> slots) n s) as (t'' & He & Hw & _); [by rewrite length_insert| |done|].
  - intros m v. rewrite Hat. case_decide; [intros [= ->]; subst; auto|apply Hs].
  - by simplify_eq.
Qed.

(** What a deletion leaves is canonical, whatever the key. *)
Lemma pdelete_wf t : wf t -> forall k t', key_ok k -> pdelete t k = Some (Some t') -> wf t'.
Proof.
  induction 1 as [p w Hp|p slots Hp Hnp Hw IH|slots i j t u Hlen Hij Hi Hj Hw IH Hv]; intros k t' Hk Hd.
  - cbn in Hd. repeat case_match; simplify_eq.
  - change (pdelete (Ext p (Br slots)) k) with (if (prefixLen k p =? length k)%nat then Some None else
      if (prefixLen k p =? 0)%nat then None else
      match pdelete (Br slots) (drop (prefixLen k p) k) with
            | None => None | Some None => Some None
            | Some (Some (Ext q c)) => Some (Some (Ext (p ++ q) c))
            | Some (Some c) => Some (Some (Ext p c)) end) in Hd.
    destruct (prefixLen_spec k p) as (_ & Hn & _).
    destruct (prefixLen k p =? length k)%nat eqn:Hne; [done|]. case_match; [done|]. rewrite join_match in Hd. destruct (pdelete (Br slots) _) as [[r|]|] eqn:E; simplify_eq.
    apply join_wf; [done|done|]. eapply IH; [|exact E]. apply key_ok_from; [|done].
    apply Nat.eqb_neq in Hne. lia.
  - destruct k as [|x k]; [by apply key_ok_nil in Hk|]. rewrite pdelete_br in Hd.
    assert (Hb : wf (Br slots)) by (by eapply wf_br). pose proof (proj1 (wf_slots _) Hb) as (_ & _ & Hs).
    destruct (slots !! Z.to_nat x) as [[c|]|] eqn:E; try done. pose proof (key_ok_slot _ _ Hk).
    destruct (pdelete c k) as [o|] eqn:Ed; [|done]. injection Hd as Hd.
    eapply replaced_wf; [exact Hb| | |exact Hd]; [lia|]. intros r ->.
    destruct (Hs _ _ E) as [[Hx Hwc]|[Hx [w ->]]]; [|by destruct k].
    left. split; [done|]. apply (IH _ _ Hx E k r); [|done].
    by eapply key_ok_slot_tail.
Qed.

(** Deletion of a key as long as the keys of the trie. *)
Lemma pdelete_ok t : wf t -> forall L k, keys_len L t -> key_ok k -> length k = L -> deleted t k (pdelete t k).
Proof.
  induction 1 as [p w Hp|p slots Hp Hnp Hw IH|slots i j t u Hlen Hij Hi Hj Hw IH Hv]; intros L k HL Hk Hlk.
  - cbn [pdelete]. cbv zeta. destruct (prefixLen k p =? length k)%nat eqn:E.
    + apply Nat.eqb_eq in E. destruct (prefixLen_short k p Hk E) as [r ->].
      apply key_ok_prefix in Hp as ->; [|done]. rewrite app_nil_r. apply deleted_leaf.
    + apply Nat.eqb_neq in E. assert (Hne : p <> k).
      { intros ->. apply E. pose proof (prefixLen_app k []) as Ha. by rewrite app_nil_r in Ha. }
      assert (Hnone : deleted (Ext p (Val w)) k None) by (cbn [deleted]; by rewrite plookup_leaf_eq, decide_False).
      case_match; [done|]. destruct (prefixLen_spec k p) as (_ & Hn & _ & _).
      destruct (drop (prefixLen k p) k) as [|y l] eqn:Ed; [|done].
      apply (f_equal length) in Ed. rewrite length_drop in Ed. cbn in Ed. lia.
  - cbn [pdelete]. cbv zeta. pose proof (keys_len_prefix p slots L Hnp Hw HL) as HLp.
    destruct (prefixLen_spec k p) as (_ & _ & Hn & _). rewrite (proj2 (Nat.eqb_neq _ _)) by lia.
    change (deleted (Ext p (Br slots)) k (if (prefixLen k p =? 0)%nat then None else
      match pdelete (Br slots) (drop (prefixLen k p) k) with
            | None => None | Some None => Some None
            | Some (Some (Ext q c)) => Some (Some (Ext (p ++ q) c))
            | Some (Some c) => Some (Some (Ext p c)) end)).
    apply keys_len_ext in HL; [|done]. destruct (decide (prefixLen k p = length p)) as [He|Hne].
    + destruct (prefixLen_full k p He) as [r ->]. rewrite He, drop_app_length, join_match.
      rewrite (proj2 (Nat.eqb_neq _ _)) by (destruct p; [done|cbn; lia]).
      apply deleted_ext; [done|done|]. apply key_ok_drop in Hk; [|done].
      apply (IH _ _ HL Hk). rewrite length_app in Hlk. lia.
    + assert (Hnone : deleted (Ext p (Br slots)) k None).
      { cbn [deleted]. apply plookup_ext_None. intros [r ->]. apply Hne, prefixLen_app. }
      case_match; [done|]. rewrite (pdelete_long (Br slots) Hw _ _ HL); [done|apply key_ok_from; [lia|done]|].
      rewrite length_drop. lia.
  - destruct k as [|x k]; [by apply key_ok_nil in Hk|]. rewrite pdelete_br.
    assert (Hb : wf (Br slots)) by (by eapply wf_br). pose proof (proj1 (wf_slots _) Hb) as (_ & _ & Hs).
    assert (Hnone : forall o, slots !! Z.to_nat x = o -> (forall c, o <> Some (Some c)) -> deleted (Br slots) (x :: k) None).
    { intros o Ho Hc. cbn [deleted]. rewrite plookup_br, Ho. destruct o as [[c|]|]; try done. by destruct (Hc c). }
    destruct (slots !! Z.to_nat x) as [[c|]|] eqn:E; [|apply (Hnone _ eq_refl); discriminate..].
    destruct (Hs _ _ E) as [[Hx Hwc]|[Hx [w ->]]].
    + apply key_ok_tail in Hk as Hk'. destruct Hk' as [[-> _]|[Hxn Hk']]; [cbn in Hx; lia|].
      pose proof (IH (Z.to_nat x) c Hx E (L - 1)%nat k (keys_len_slot _ _ _ _ Hx E HL) Hk' ltac:(cbn in Hlk; lia)) as Hd.
      destruct (pdelete c k) as [o|]; [destruct Hd as [Hwo Hlo]|cbn [deleted] in *; by rewrite plookup_br, E].
      apply (deleted_br slots x k c o Hb Hk E); [intros t' ->; left; auto|].
      intros l Hl. apply Hlo. apply key_ok_tail in Hl as [[-> _]|[_ ?]]; [cbn in Hx; lia|done].
    + apply key_ok_tail in Hk as Hk'. destruct Hk' as [[-> ->]|[Hxn _]]; [|unfold nibble in Hxn; lia]. cbn [pdelete].
      apply (deleted_br slots 16 [] (Val w) None Hb Hk E); [done|].
      intros l [[_ ->]|[Hn _]]%key_ok_tail; [done|unfold nibble in Hn; lia].
Qed.
