(* ===== verification/TrieRefine.v ===== *)
(** * The stored trie refines the pure one

    [unf n t]: the node [n], with the subtrees that are in the database [db]
    loaded, is the pure trie [t]. On such nodes lookup, insertion and deletion of
    the code do not panic within [trieFuel] and compute what the pure operations
    compute, whatever is loaded.

    The relation is parametric in what is known of the cached data: [good h e t]
    of the hash and the epoch of a node that stands for [t], [stored buf t] of the
    reference to a subtree. The operations keep what [good_nil] and [good_write]
    provide. *)

From S2P Require Import Prelude ChainTypes BigInt Runtime Rlp Trie TriePure.
Local Open Scope go_scope.

Section Refine.
Context `{Fastrlp} (db : list Z -> option (list Z)).
Context (good : list Z -> Z -> trie -> Prop) (stored : list Z -> trie -> Prop).

(** All 17 edges of a full node. *)
Definition edges (value : option Node) (children : list (option Node)) : list (option Node) :=
  children ++ [value].

Inductive unf : Node -> trie -> Prop :=
| unf_value buf : unf (ValueNode false buf) (Val buf)
| unf_stored buf n t :
    GetNode db buf = Some (Ok (Some n)) -> stored buf t -> unf n t -> unf (ValueNode true buf) t
| unf_short h k c t : good h 0 (Ext k t) -> unf c t -> unf (ShortNode h k (Some c)) (Ext k t)
| unf_full h e value children slots :
    good h e (Br slots) ->
    length children = 16%nat -> length slots = 17%nat ->
    (forall i, edges value children !! i = Some None <-> slots !! i = Some None) ->
    (forall i c t, edges value children !! i = Some (Some c) -> slots !! i = Some (Some t) -> unf c t) ->
    unf (FullNode h e value children) (Br slots).

Definition unf_opt (o : option Node) (s : option trie) : Prop :=
  match o, s with
  | Some n, Some t => unf n t
  | None, None => True
  | _, _ => False
  end.

Definition is_stored (n : Node) : bool := match n with ValueNode h _ => h | _ => false end.

(** A node read from the database is a short or full node. *)
Lemma decodeNode_array l n : decodeNode (RArray l) = Some (Ok n) -> match n with ValueNode _ _ => False | _ => True end.
Proof.
  cbn. intros Hd. repeat case_match; simplify_eq; done.
Qed.

Lemma GetNode_loaded buf n :
  GetNode db buf = Some (Ok (Some n)) -> match n with ValueNode _ _ => False | _ => True end.
Proof.
  unfold GetNode. destruct (db buf) as [[|x data]|]; try done.
  destruct (fastrlp_Parse _) as [[b|l]|]; try done.
  destruct (decodeNode (RArray l)) as [[n'|]|] eqn:E; try done. intros [= <-]. by apply decodeNode_array in E.
Qed.

(** Only a value node stands for a value. *)
Lemma unf_val n v : unf n (Val v) -> n = ValueNode false v.
Proof.
  inversion 1 as [|buf m t Hg _ Hm| |]; subst; [done|]. apply GetNode_loaded in Hg. by inversion Hm; subst.
Qed.

(** ** Edges *)

Lemma getEdge_edges value children x :
  length children = 16%nat -> 0 <= x <= 16 ->
  getEdge value children x = edges value children !! Z.to_nat x.
Proof.
  intros Hl Hx. unfold getEdge, edges. destruct (x =? 16) eqn:E; breflect.
  - subst. by rewrite lookup_app_r, Hl by (rewrite Hl; cbn; lia).
  - rewrite (proj2 (Z.leb_le _ _)) by lia. by rewrite lookup_app_l by lia.
Qed.

Lemma setEdge_edges value children x o :
  length children = 16%nat -> 0 <= x <= 16 ->
  exists v cs, setEdge value children x o = Some (v, cs) /\ length cs = 16%nat /\
    edges v cs = <[Z.to_nat x := o]> (edges value children).
Proof.
  intros Hl Hx. unfold setEdge, edges. destruct (x =? 16) eqn:E; breflect.
  - subst. exists o, children. split_and!; try done.
    rewrite insert_app_r_alt by (rewrite Hl; cbn; lia). by rewrite Hl.
  - rewrite (proj2 (Z.leb_le _ _)), (proj2 (Z.ltb_lt _ _)) by lia. cbn.
    eexists _, _. split; [done|]. split; [by rewrite length_insert|]. by rewrite insert_app_l by lia.
Qed.

Lemma edges_length value children : length children = 16%nat -> length (edges value children) = 17%nat.
Proof. intros Hl. unfold edges. rewrite length_app, Hl. done. Qed.

(** The edges of a full node, one by one. *)
Lemma unf_full_iff h e value children slots :
  unf (FullNode h e value children) (Br slots) <->
  good h e (Br slots) /\ length children = 16%nat /\ length slots = 17%nat /\
  forall i o s, edges value children !! i = Some o -> slots !! i = Some s -> unf_opt o s.
Proof.
  split.
  - inversion 1 as [| | |? ? ? ? ? Hgd Hlc Hls Hn Hu]; subst. split; [done|]. split; [done|]. split; [done|].
    intros i [c|] [t|] Ho Hs; cbn; [by eapply Hu| | |done]; exfalso.
    + apply Hn in Hs. congruence.
    + apply Hn in Ho. congruence.
  - intros (Hgd & Hlc & Hls & Hu). constructor; try done.
    + intros i. split; intros Hi; pose proof (lookup_lt_Some _ _ _ Hi) as Hlt.
      * rewrite edges_length in Hlt by done. destruct (lookup_lt_is_Some_2 slots i) as [s Hs]; [lia|].
        specialize (Hu _ _ _ Hi Hs). by destruct s.
      * destruct (lookup_lt_is_Some_2 (edges value children) i) as [o Ho]; [rewrite edges_length by done; lia|].
        specialize (Hu _ _ _ Ho Hi). by destruct o.
    + intros i c t Hc Ht. exact (Hu _ _ _ Hc Ht).
Qed.

Lemma unf_full_set h e h' e' value children slots x o s v cs :
  unf (FullNode h e value children) (Br slots) -> unf_opt o s -> length cs = 16%nat ->
  good h' e' (Br (<[Z.to_nat x := s]> slots)) ->
  edges v cs = <[Z.to_nat x := o]> (edges value children) ->
  unf (FullNode h' e' v cs) (Br (<[Z.to_nat x := s]> slots)).
Proof.
  intros (_ & Hlc & Hls & Hu)%unf_full_iff Ho Hlcs Hgd He. apply unf_full_iff. split; [done|]. split; [done|].
  split; [by rewrite length_insert|]. intros i o' s'. rewrite He. destruct (decide (i = Z.to_nat x)) as [->|Hne].
  - intros Hi1 Hi2. pose proof (lookup_lt_Some _ _ _ Hi1) as H1. pose proof (lookup_lt_Some _ _ _ Hi2) as H2.
    rewrite length_insert in H1. rewrite length_insert in H2.
    rewrite list_lookup_insert_eq in Hi1 by done. rewrite list_lookup_insert_eq in Hi2 by done. by simplify_eq.
  - rewrite !list_lookup_insert_ne by done. apply Hu.
Qed.

Lemma unf_full_edge h e value children slots x :
  unf (FullNode h e value children) (Br slots) -> 0 <= x <= 16 ->
  exists o s, getEdge value children x = Some o /\ slots !! Z.to_nat x = Some s /\ unf_opt o s.
Proof.
  intros (_ & Hlc & Hls & Hu)%unf_full_iff Hx. rewrite getEdge_edges by done.
  destruct (lookup_lt_is_Some_2 slots (Z.to_nat x)) as [s Hs]; [lia|].
  destruct (lookup_lt_is_Some_2 (edges value children) (Z.to_nat x)) as [o Ho]; [rewrite edges_length by done; lia|].
  exists o, s. split_and!; try done. by eapply Hu.
Qed.

(** ** Lookup *)

(** A trie and what is left of the key on arrival at it. *)
Definition pos (t : trie) (k : list Z) : Prop := wf t /\ key_ok k \/ (exists v, t = Val v) /\ k = [].

Lemma pos_ext p c r : wf (Ext p c) -> key_ok (p ++ r) -> pos c r /\ (0 < length p)%nat.
Proof.
  inversion 1 as [? v Hp|? slots Hp Hn Hb|]; subst; intros Hk.
  - split; [right; split; [by exists v|exact (key_ok_prefix _ _ Hp Hk)]|]. destruct Hp; cbn; lia.
  - apply key_ok_drop in Hk; [|done]. split; [by left|]. destruct p; [done|cbn; lia].
Qed.

Lemma pos_slot x t k : slot_wf (Z.to_nat x) t -> key_ok (x :: k) -> pos t k.
Proof.
  intros [[Hx Hw]|[Hx [v ->]]] [[-> ->]|[Hn Hk]]%key_ok_tail; unfold nibble in *; try (cbn in Hx; lia).
  - by left.
  - right. split; [by exists v|done].
Qed.

Lemma pos_br slots k :
  pos (Br slots) k -> exists x r, k = x :: r /\ 0 <= x <= 16 /\ key_ok (x :: r) /\ length slots = 17%nat /\
    forall s, slots !! Z.to_nat x = Some (Some s) -> slot_wf (Z.to_nat x) s /\ pos s r.
Proof.
  intros [[(Hl & _ & Hs)%wf_slots Hk]|[[v Hv] _]]; [|done].
  destruct k as [|x r]; [by apply key_ok_nil in Hk|]. exists x, r.
  split_and!; try done; try apply (key_ok_slot _ _ Hk). intros s Hx. split; [by apply Hs|].
  eapply pos_slot; [by apply Hs|done].
Qed.

Lemma pos_Ext p c k :
  pos (Ext p c) k -> wf (Ext p c) /\ key_ok k.
Proof. intros [?|[[v Hv] _]]; done. Qed.

(** [lookup] finds what [plookup] finds, and the loaded tree stands for the same. *)
Lemma lookup_sim fuel : forall n t k,
  unf n t -> pos t k -> (3 * length k + (if is_stored n then 4 else 3) <= fuel)%nat ->
  exists c n', lookup db fuel (Some n) k = Some (c, plookup t k, Some n') /\ unf n' t /\
    (forall m, c = Some m -> unf m t) /\ (is_stored n = false -> c = None).
Proof.
  induction fuel as [|fuel IH]; intros n t k Hu Hp Hf; [destruct (is_stored n); lia|].
  inversion Hu as [buf|buf m ? Hg Hst0 Hm|h p c ? Hgd Hc|h e value children slots Hgd Hlc Hls Hn Hs]; subst; cbn [lookup].
  - destruct Hp as [[Hw _]|[_ ->]]; [inversion Hw|]. by exists None, (ValueNode false buf).
  - rewrite Hg. apply GetNode_loaded in Hg. assert (Hst : is_stored m = false) by (by destruct m).
    destruct (IH m t k Hm Hp) as (c & n' & He & Hn' & _ & _); [rewrite Hst; cbn in Hf; lia|].
    rewrite He. exists (Some n'), (ValueNode true buf). split_and!; try done. by intros ? [= <-].
  - apply pos_Ext in Hp as [Hw Hk]. cbn [is_stored] in Hf.
    destruct (decide (p `prefix_of` k)) as [[r ->]|Hnp].
    + destruct (pos_ext p _ r Hw Hk) as [Hpr Hpl].
      rewrite (proj2 (Nat.ltb_ge _ _)) by (rewrite length_app; lia).
      rewrite take_app_length, bool_decide_true, drop_app_length by done. cbn [orb negb].
      destruct (IH c t0 r Hc Hpr) as (c' & n' & -> & Hn' & Hm & _);
        [rewrite length_app in Hf; destruct (is_stored c); lia|].
      rewrite plookup_ext. eexists None, _. split_and!; try done. destruct c' as [m|]; constructor; auto.
    + rewrite plookup_ext_None by done. eexists None, _.
      replace ((length k <? length p)%nat || negb (bool_decide (take (length p) k = p))) with true; [done|].
      symmetry. apply orb_true_iff. right. rewrite bool_decide_false; [done|]. intros He. apply Hnp.
      exists (drop (length p) k). by rewrite <- He at 1; rewrite take_drop.
  - apply pos_br in Hp as (x & r & -> & Hx & Hk & _ & Hps). cbn [is_stored length] in Hf.
    destruct (unf_full_edge _ _ _ _ _ x Hu Hx) as (o & s & -> & Hsx & Ho). rewrite plookup_br, Hsx.
    destruct o as [c|], s as [t|]; try done; cbn in Ho.
    + destruct (Hps t Hsx) as [Hsw Hpt]. destruct (IH c t r Ho Hpt) as (c' & n' & -> & Hn' & Hm & Hst);
        [destruct (is_stored c); lia|].
      assert (Hset : forall m, unf m t -> exists v cs, setEdge value children x (Some m) = Some (v, cs) /\
        unf (FullNode h e v cs) (Br slots)).
      { intros m Hmt. destruct (setEdge_edges value children x (Some m) Hlc Hx) as (v & cs & Hse & Hlcs & He).
        exists v, cs. split; [done|]. rewrite <- (list_insert_id slots (Z.to_nat x) (Some t)) by done.
        refine (unf_full_set h e h e _ _ slots x (Some m) (Some t) v cs Hu Hmt Hlcs _ He). by rewrite list_insert_id. }
      destruct c' as [m|].
      * assert (Hx16 : x <> 16).
        { intros ->. destruct Hsw as [[? _]|[_ [v ->]]]; [cbn in *; lia|]. apply unf_val in Ho as ->. by discriminate Hst. }
        destruct (Hset m (Hm m eq_refl)) as (v & cs & Hse & Hun). unfold setEdge in Hse.
        rewrite (proj2 (Z.eqb_neq _ _) Hx16) in *. destruct (_ && _); [|done]. simplify_eq.
        by eexists None, _.
      * destruct (Hset n' Hn') as (v & cs & -> & Hun). by eexists None, _.
    + destruct fuel as [|fuel]; [lia|]. cbn [lookup].
      destruct (setEdge_edges value children x None Hlc Hx) as (v & cs & -> & Hlcs & He).
      eexists None, _. split_and!; try done. rewrite <- (list_insert_id slots (Z.to_nat x) None) by done.
      refine (unf_full_set h e h e _ _ slots x None None v cs Hu I Hlcs _ He). by rewrite list_insert_id.
Qed.

(** ** Insertion *)

Context (ep : Z).
Hypothesis good_nil : forall e t, e = 0 \/ e = ep -> good [] e t.
Hypothesis good_write : forall h e t t', good h e t -> good (writeNode ep h e) ep t'.

Lemma insert_new fuel k v :
  exists n, insert db (S (S fuel)) ep None k v = Some (Some n) /\ unf n (pnew k v) /\ is_stored n = false.
Proof.
  destruct k as [|x k]; cbn; eexists; (split; [done|]); (split; [|done]); repeat constructor; apply good_nil; by left.
Qed.

(** The branch with the rest of a split extension. *)
Lemma unf_single a c t :
  0 <= a <= 16 -> unf c t ->
  exists v cs, setEdge None noChildren a (Some c) = Some (v, cs) /\
    unf (FullNode [] ep v cs) (Br (<[Z.to_nat a := Some t]> (replicate 17 None))).
Proof.
  intros Ha Hc. destruct (setEdge_edges None noChildren a (Some c) eq_refl Ha) as (v & cs & Hse & Hl & He).
  exists v, cs. split; [done|]. apply (unf_full_set [] ep [] ep None noChildren (replicate 17 None) a (Some c)); try done;
    [|apply good_nil; by right].
  apply unf_full_iff. split; [apply good_nil; by right|]. split; [done|]. split; [done|]. unfold edges, noChildren. intros i o s.
  change (replicate 16 None ++ [None]) with (replicate 17 (@None Node)).
  intros [-> _]%lookup_replicate [-> _]%lookup_replicate. done.
Qed.

Lemma alter_slot (slots : list (option trie)) i o f :
  slots !! i = Some o -> alter f i slots = <[i := f o]> slots.
Proof.
  intros Hi. apply list_eq. intros n. pose proof (lookup_lt_Some _ _ _ Hi). destruct (decide (n = i)) as [->|].
  - by rewrite list_lookup_alter_eq, list_lookup_insert_eq, Hi by done.
  - by rewrite list_lookup_alter_ne, list_lookup_insert_ne.
Qed.

(** Insertion into a full node, given the result for its edge. *)
Lemma insert_full fuel h e value children slots x k v :
  unf (FullNode h e value children) (Br slots) -> 0 <= x <= 16 ->
  (forall c t, slots !! Z.to_nat x = Some (Some t) -> unf c t ->
     exists n, insert db (S (S fuel)) ep (Some c) k v = Some (Some n) /\ unf n (pinsert t k v)) ->
  exists n, insert db (S (S (S fuel))) ep (Some (FullNode h e value children)) (x :: k) v = Some (Some n) /\
    unf n (pinsert (Br slots) (x :: k) v).
Proof.
  intros Hu Hx IH. destruct (unf_full_edge _ _ _ _ _ x Hu Hx) as (o & s & Hg & Hs & Ho).
  assert (Hi : exists n, insert db (S (S fuel)) ep o k v = Some (Some n) /\ unf n (pinsert_at s k v)).
  { destruct o as [c|], s as [t|]; try done; [by apply IH|].
    destruct (insert_new fuel k v) as (n & He & Hn & _). by exists n. }
  destruct Hi as (n & Hn & Hun). pose proof (proj1 (unf_full_iff _ _ _ _ _) Hu) as (Hgd & Hlc & _ & _).
  destruct (setEdge_edges value children x (Some n) Hlc Hx) as (v' & cs & Hse & Hl & He).
  change (insert db (S (S (S fuel))) ep (Some (FullNode h e value children)) (x :: k) v) with
    (match getEdge value children x with
     | None => None
     | Some child =>
         match insert db (S (S fuel)) ep child k v with
         | None => None
         | Some c =>
             match setEdge value children x c with
             | Some (v, children) => Some (Some (FullNode (writeNode ep h e) ep v children))
             | None => None
             end
         end
     end).
  rewrite Hg, Hn, Hse. eexists. split; [done|]. rewrite pinsert_br, (alter_slot _ _ s) by done.
  refine (unf_full_set h e _ _ _ _ slots x (Some n) (Some _) v' cs Hu Hun Hl _ He). by eapply good_write.
Qed.

(** Splitting an extension. *)
Lemma insert_split fuel h p c t k v :
  wf (Ext p t) -> unf c t -> key_ok k -> prefixLen k p <> length p ->
  exists n, insert db (4 + fuel) ep (Some (ShortNode h p (Some c))) k v = Some (Some n) /\
    unf n (pinsert (Ext p t) k v).
Proof.
  intros Hw Hc Hk Hne.
  destruct (ext_split p t k Hw Hk Hne) as (q & a & p' & b & k' & -> & -> & Hab & Hn & Hq & Ha & Hb & Hs).
  rewrite pinsert_split by done. cbv zeta. set (old := match p' with [] => t | _ => Ext p' t end) in *.
  set (edge := match p' with [] => c | _ => ShortNode [] p' (Some c) end).
  assert (Hold : unf edge old) by (unfold edge, old; destruct p'; [done|]; constructor; [apply good_nil; by left|done]).
  destruct (unf_single a edge old Ha Hold) as (w & cs & Hse & Hu).
  destruct (insert_full fuel [] ep w cs _ b k' v Hu) as (n & Hi & Hun).
  { apply (key_ok_slot _ _ Hb). }
  { pose proof (key_ok_slot _ _ Hb). intros c' t'. rewrite list_lookup_insert_ne by lia.
    by intros [[=] _]%lookup_replicate. }
  change (4 + fuel)%nat with (S (S (S (S fuel)))). cbn [insert]. cbv zeta. rewrite Hn.
  rewrite (proj2 (Nat.eqb_neq _ _)) by (rewrite length_app; cbn; lia).
  rewrite app_nth2, Nat.sub_diag by lia. cbn [nth].
  assert (Hedge : (if (length q + 1 <? length (q ++ a :: p'))%nat
                   then Some (ShortNode [] (drop (length q + 1) (q ++ a :: p')) (Some c)) else Some c) = Some edge).
  { rewrite drop_app, drop_ge by lia. replace (length q + 1 - length q)%nat with 1%nat by lia. cbn [drop app].
    unfold edge. rewrite length_app. destruct p'; cbn [length].
    - by rewrite (proj2 (Nat.ltb_ge _ _)) by lia.
    - by rewrite (proj2 (Nat.ltb_lt _ _)) by lia. }
  rewrite Hedge, Hse, drop_app_length, take_app_length.
  change (insert db (S (S (S fuel))) ep (Some (FullNode [] ep w cs)) (b :: k') v = Some (Some n)) in Hi.
  cbn [insert] in Hi. cbv zeta in Hi. rewrite Hi.
  assert (Hbr : unf n (Br (slots_of a old b (pnew k' v)))).
  { rewrite pinsert_br, (alter_slot _ _ None) in Hun; [done|]. pose proof (key_ok_slot _ _ Hb).
    rewrite list_lookup_insert_ne by lia. apply lookup_replicate_2. lia. }
  destruct q; cbn [length Nat.eqb]; eexists; (split; [done|]); [done|]. constructor; [apply good_nil; by left|done].
Qed.

(** [insert] does what [pinsert] does. *)
Lemma insert_sim fuel v : forall n t k,
  unf n t -> pos t k -> (3 * length k + (if is_stored n then 4 else 3) <= fuel)%nat ->
  exists n', insert db fuel ep (Some n) k v = Some (Some n') /\ unf n' (pinsert t k v).
Proof.
  induction fuel as [|fuel IH]; intros n t k Hu Hp Hf; [destruct (is_stored n); lia|].
  inversion Hu as [buf|buf m ? Hg Hst0 Hm|h p c ? Hgd Hc|h e value children slots Hgd Hlc Hls Hn Hs]; subst.
  - destruct Hp as [[Hw _]|[_ ->]]; [inversion Hw|]. cbn. eexists. split; [done|constructor].
  - cbn [insert]. rewrite Hg. apply GetNode_loaded in Hg. assert (Hst : is_stored m = false) by (by destruct m).
    apply IH; [done|done|]. rewrite Hst. cbn in Hf. lia.
  - apply pos_Ext in Hp as [Hw Hk]. cbn [is_stored] in Hf.
    destruct (decide (prefixLen k p = length p)) as [He|Hne].
    + destruct (prefixLen_full k p He) as [r ->]. destruct (pos_ext p _ r Hw Hk) as [Hpr Hpl].
      cbn [insert]. cbv zeta. rewrite He, Nat.eqb_refl, drop_app_length, pinsert_ext.
      destruct (IH c _ r Hc Hpr) as (n' & -> & Hn'); [rewrite length_app in Hf; destruct (is_stored c); lia|].
      eexists. split; [done|]. constructor; [apply good_nil; by left|done].
    + assert (Hpos : (0 < length k)%nat) by (destruct Hk; cbn; lia).
      replace (S fuel) with (4 + (fuel - 3))%nat by lia. by apply insert_split.
  - apply pos_br in Hp as (x & r & -> & Hx & Hk & _ & Hps). cbn [is_stored length] in Hf.
    replace (S fuel) with (S (S (S (fuel - 2)))) by lia. apply insert_full; [done|done|].
    replace (S (S (fuel - 2))) with fuel by lia. intros c t Hsx Hc. destruct (Hps t Hsx) as [_ Hpt].
    apply IH; [done|done|]. destruct (is_stored c); lia.
Qed.

(** ** Deletion *)

Definition edge_rel (x : nat * Node) (y : nat * trie) : Prop := fst x = fst y /\ unf (snd x) (snd y).

Lemma live_sim (es : list (option Node)) (slots : list (option trie)) n :
  length es = length slots ->
  (forall i o s, es !! i = Some o -> slots !! i = Some s -> unf_opt o s) ->
  Forall2 edge_rel (live_from n es) (live_from n slots).
Proof.
  revert slots n. induction es as [|o es IH]; intros [|s slots] n; cbn [length]; try done.
  intros [= Hl] Hu. specialize (IH slots (S n) Hl (fun i => Hu (S i))).
  pose proof (Hu 0%nat o s eq_refl eq_refl) as Hos. destruct o, s; try done. cbn. by constructor.
Qed.

Lemma live_from_app {A} (l k : list (option A)) n :
  live_from n (l ++ k) = live_from n l ++ live_from (n + length l) k.
Proof.
  revert n. induction l as [|[x|] l IH]; intros n; cbn; [by rewrite Nat.add_0_r| |];
    rewrite IH, Nat.add_succ_r; done.
Qed.

(** A loaded node and the extension or branch it stands for. *)
Lemma only_child_sim i nc t :
  unf nc t -> slot_wf i t -> (i < 16)%nat ->
  exists n, only_child db i nc = Some (Some n, true) /\ unf n (prepend (Z.of_nat i) t).
Proof.
  intros Hu Hs Hi. destruct Hs as [[_ Hw]|[? _]]; [|lia].
  assert (Hload : forall m, unf m t -> match m with ValueNode _ _ => False | _ => True end ->
    unf (match m with
         | ShortNode _ k c => ShortNode [] (Z.of_nat i :: k) c
         | _ => ShortNode [] [Z.of_nat i] (Some m)
         end) (prepend (Z.of_nat i) t)).
  { intros m Hm Hv. inversion Hm; subst; try done; cbn [prepend]; constructor; (apply good_nil; by left) || done. }
  inversion Hu as [buf|buf m ? Hg Hst0 Hm|h p c ? Hgd Hc|h e value children slots Hgd Hlc Hls Hn Hsl]; subst; [inversion Hw| | |].
  - cbn. rewrite Hg. pose proof (GetNode_loaded _ _ Hg) as Hld. specialize (Hload m Hm Hld).
    destruct m; try done; by eexists.
  - eexists. split; [done|]. by apply (Hload _ Hu).
  - eexists. split; [done|]. by apply (Hload _ Hu).
Qed.

Lemma collapse_sim h e value children slots :
  unf (FullNode h e value children) (Br slots) ->
  (forall i t, slots !! i = Some (Some t) -> slot_wf i t) ->
  exists o, collapse db value children = Some (o, true) /\ unf_opt o (pcollapse slots).
Proof.
  intros Hu Hs. pose proof (proj1 (unf_full_iff _ _ _ _ _) Hu) as (_ & Hlc & Hls & Hun).
  assert (Hbr : unf (FullNode [] 0 value children) (Br slots))
    by (apply unf_full_iff; split; [apply good_nil; by left|done]).
  pose proof (live_sim (edges value children) slots 0) as Hl. rewrite edges_length, Hls in Hl by done.
  specialize (Hl eq_refl Hun). fold (used slots) in Hl. unfold edges in Hl.
  rewrite live_from_app, Hlc in Hl. fold (live children) in Hl. cbn [Nat.add] in Hl.
  unfold collapse, pcollapse.
  assert (Hus : forall i t, (i, t) ∈ used slots -> slot_wf i t) by (intros i t Hit; by apply Hs, used_spec).
  assert (Hlive : forall i c, (i, c) ∈ live children -> (i < 16)%nat).
  { intros i c [_ Hic]%live_from_spec. apply lookup_lt_Some in Hic. lia. }
  destruct (live children) as [|[i c] [|[i' c'] rest]]; cbn [app] in Hl.
  - destruct value as [n|]; cbn [live_from] in Hl;
      destruct (used slots) as [|[j t] [|y us]]; try (by inversion Hl as [|? ? ? ? _ Hr]; inversion Hr); [|by eexists].
    apply Forall2_cons in Hl as [[Hj Ht] _]. cbn in Hj, Ht. subst j.
    eexists. split; [done|]. cbn. destruct (Hus 16%nat t ltac:(in_list)) as [[? _]|[_ [v ->]]]; [lia|].
    constructor; [apply good_nil; by left|done].
  - destruct value as [n|]; cbn [live_from] in Hl;
      destruct (used slots) as [|[j t] [|y us]]; try (by inversion Hl as [|? ? ? ? _ Hr]; inversion Hr).
    + eexists. split; [done|]. by destruct y.
    + apply Forall2_cons in Hl as [[Hj Ht] _]. cbn in Hj, Ht. subst j.
      destruct (only_child_sim i c t Ht) as (n & -> & Hn); [apply Hus; in_list|apply (Hlive i c); in_list|].
      by eexists.
  - destruct (used slots) as [|[j t] [|y us]]; try (by inversion Hl as [|? ? ? ? _ Hr]; inversion Hr).
    eexists. split; [done|]. by destruct y.
Qed.

(** Where a deletion may arrive: at a value with any key. *)
Definition dpos (t : trie) (k : list Z) : Prop := wf t /\ key_ok k \/ exists v, t = Val v.

(** A deletion never leaves a reference to the database at its top. *)
Lemma delete_loaded fuel : forall o k m, delete db fuel o k = Some (Some m, true) -> is_stored m = false.
Proof.
  induction fuel as [|fuel IH]; intros o k m Hd; [done|]. cbn [delete] in Hd. cbv zeta in Hd.
  destruct o as [[[|] buf|h p c|h e v cs]|]; [..|done].
  - repeat case_match; simplify_eq. by eapply IH.
  - by destruct k.
  - repeat case_match; simplify_eq; try done; by eapply IH.
  - unfold collapse, only_child in Hd. repeat case_match; simplify_eq; try done.
Qed.

(** [delete] does what [pdelete] does. *)
Lemma delete_sim fuel : forall n t k,
  unf n t -> dpos t k -> (3 * length k + (if is_stored n then 4 else 3) <= fuel)%nat ->
  exists o b, delete db fuel (Some n) k = Some (o, b) /\
    match pdelete t k with None => b = false | Some r => b = true /\ unf_opt o r end.
Proof.
  induction fuel as [|fuel IH]; intros n t k Hu Hp Hf; [destruct (is_stored n); lia|].
  inversion Hu as [buf|buf m ? Hg Hst0 Hm|h p c t0 Hgd Hc|h e value children slots Hgd Hlc Hls Hn Hs]; subst.
  - destruct k; cbn; by eexists _, _.
  - cbn [delete]. rewrite Hg. apply GetNode_loaded in Hg. assert (Hst : is_stored m = false) by (by destruct m).
    apply IH; [done|done|]. rewrite Hst. cbn in Hf. lia.
  - destruct Hp as [[Hw Hk]|[? ?]]; [|done]. cbn [delete pdelete is_stored] in *. cbv zeta.
    destruct (prefixLen_spec k p) as (_ & Hn1 & _ & _).
    destruct (prefixLen k p =? length k)%nat eqn:E1; [by eexists _, _|]. apply Nat.eqb_neq in E1.
    destruct (prefixLen k p =? 0)%nat eqn:E2; [by eexists _, _|]. apply Nat.eqb_neq in E2.
    destruct (IH c t0 (drop (prefixLen k p) k) Hc) as (o & b & Hd & Hr).
    + inversion Hw; subst; [right; by eexists|left; split; [done|apply key_ok_from; [lia|done]]].
    + rewrite length_drop. destruct (is_stored c); lia.
    + rewrite Hd. destruct (pdelete t0 _) as [[t'|]|]; [destruct Hr as [-> Ho]..|subst; destruct o as [[]|]; by eexists _, _];
        destruct o as [m|]; try done; [|by eexists _, _]. apply delete_loaded in Hd. cbn in Ho.
      inversion Ho; subst; try done; eexists _, _; (split; [done|]); (split; [done|]); apply unf_short; try done; apply good_nil; by left.
  - destruct Hp as [[Hw Hk]|[? ?]]; [|done]. destruct k as [|x k]; [by apply key_ok_nil in Hk|].
    pose proof (key_ok_slot x k Hk) as Hx. cbn [is_stored length] in Hf.
    rewrite pdelete_br. cbn [delete].
    destruct (unf_full_edge _ _ _ _ _ x Hu Hx) as (o & s & -> & Hsl & Hos). rewrite Hsl.
    destruct o as [c|], s as [t|]; try done; [|destruct fuel; [lia|]; by eexists _, _].
    pose proof (proj1 (wf_slots _) Hw) as (_ & _ & Hws). pose proof (Hws _ _ Hsl) as Hsw.
    destruct (IH c t k Hos) as (o & b & Hd & Hr).
    + destruct Hsw as [[Hx16 Hwt]|[_ Hv]]; [left; split; [done|]|by right].
      by eapply key_ok_slot_tail.
    + destruct (is_stored c); lia.
    + rewrite Hd. destruct (pdelete t k) as [r|] eqn:Ep; [destruct Hr as [-> Ho]|subst b; destruct o; by eexists _, _].
      destruct (setEdge_edges value children x o Hlc Hx) as (v' & cs & -> & Hl & He).
      pose proof (unf_full_set h e [] 0 value children slots x o r v' cs Hu Ho Hl (good_nil _ _ ltac:(by left)) He) as Hu'.
      destruct (collapse_sim _ _ _ _ _ Hu') as (o' & -> & Ho'); [|by eexists _, _].
      intros i t' Hi. destruct (decide (i = Z.to_nat x)) as [->|Hne].
      * rewrite list_lookup_insert_eq in Hi by (apply lookup_lt_Some in Hsl; lia). injection Hi as ->.
        destruct Hsw as [[Hx16 Hwt]|[_ [v ->]]]; [|by destruct k]. left. split; [done|].
        apply (pdelete_wf t Hwt k t'); [|done]. by eapply key_ok_slot_tail.
      * rewrite list_lookup_insert_ne in Hi by done. by apply Hws.
Qed.
End Refine.

(** * A trie transaction as a finite map

    [holds L s m]: the pure trie [s] is canonical and its entries are those of the
    map [m], whose keys are all [L] bytes long. Two such tries of one map are
    equal. [view t m] says it of a transaction of the code; lookup, insertion and
    deletion are those of the map. *)
Local Open Scope go_scope.

Abbreviation entries := (gmap (list Z) (list Z)).

Definition slookup (s : option trie) (k : list Z) : option (list Z) :=
  match s with Some t => plookup t k | None => None end.

Record holds (L : nat) (s : option trie) (m : entries) : Prop := {
  holds_wf t : s = Some t -> wf t;
  holds_dom b v : m !! b = Some v -> bytes_ok b /\ length b = L;
  holds_in k v : key_ok k -> slookup s k = Some v <-> exists b, k = bytesToHexNibbles b /\ m !! b = Some v;
}.

Lemma holds_empty L : holds L None ∅.
Proof.
  split; [done|by intros b v; rewrite lookup_empty|]. intros k v _. split; [done|].
  intros (b & _ & Hb). by rewrite lookup_empty in Hb.
Qed.

Lemma holds_lookup L s m b : holds L s m -> bytes_ok b -> slookup s (bytesToHexNibbles b) = m !! b.
Proof.
  intros Hs Hb. pose proof (fun v => holds_in L s m Hs _ v (nibbles_key b Hb)) as Hi.
  apply option_eq. intros v. rewrite Hi. split; [|by exists b].
  intros (b' & ->%nibbles_inj & Hm). done.
Qed.

(** The entries determine the trie. *)
Lemma holds_unique L s s' m : holds L s m -> holds L s' m -> s = s'.
Proof.
  intros Hs Hs'.
  assert (Heq : forall k, key_ok k -> slookup s k = slookup s' k).
  { intros k Hk. apply option_eq. intros v. rewrite (holds_in _ _ _ Hs k v Hk), (holds_in _ _ _ Hs' k v Hk). done. }
  assert (Hno : forall t, wf t -> ~ forall k, key_ok k -> plookup t k = None).
  { intros t Hw Hn. destruct (wf_entry t Hw) as (k & v & Hk & Hl). by rewrite Hn in Hl. }
  destruct s as [t|], s' as [t'|]; [|exfalso..|done].
  - f_equal. apply wf_unique; [by apply (holds_wf _ _ _ Hs)|by apply (holds_wf _ _ _ Hs')|exact Heq].
  - apply (Hno t); [by apply (holds_wf _ _ _ Hs)|exact Heq].
  - apply (Hno t'); [by apply (holds_wf _ _ _ Hs')|]. intros k Hk. symmetry. by apply Heq.
Qed.

Lemma holds_keys_len L t m : holds L (Some t) m -> keys_len (2 * L + 1) t.
Proof.
  intros Hs k v Hk Hl. apply (holds_in _ _ _ Hs k v Hk) in Hl as (b & -> & Hm).
  apply (holds_dom _ _ _ Hs) in Hm as [_ <-]. apply nibbles_length.
Qed.

(** A trie with the lookups of an insertion holds the map with the entry. *)
Lemma holds_put L s m b v t :
  holds L s m -> bytes_ok b -> length b = L -> wf t ->
  (forall l, key_ok l -> plookup t l = if decide (bytesToHexNibbles b = l) then Some v else slookup s l) ->
  holds L (Some t) (<[b := v]> m).
Proof.
  intros Hs Hb Hl Hw Ht. split.
  - by intros ? [= <-].
  - intros b' v' [[<- _]|[_ Hm]]%lookup_insert_Some; [done|exact (holds_dom _ _ _ Hs _ _ Hm)].
  - intros k v' Hk. cbn [slookup]. rewrite Ht by done. case_decide as Hd.
    + subst k. split; [intros [= <-]; exists b; by rewrite lookup_insert_eq|].
      intros (b' & <-%nibbles_inj & Hm). by rewrite lookup_insert_eq in Hm.
    + rewrite (holds_in _ _ _ Hs k v' Hk). split; intros (b' & -> & Hm); exists b'; (split; [done|]).
      * by rewrite lookup_insert_ne by congruence.
      * by rewrite lookup_insert_ne in Hm by congruence.
Qed.

Definition sinsert (s : option trie) (k v : list Z) : trie :=
  match s with Some t => pinsert t k v | None => pnew k v end.

Lemma holds_insert L s m b v :
  holds L s m -> bytes_ok b -> length b = L -> holds L (Some (sinsert s (bytesToHexNibbles b) v)) (<[b := v]> m).
Proof.
  intros Hs Hb Hl. pose proof (nibbles_key b Hb) as Hk.
  assert (Hok : wf (sinsert s (bytesToHexNibbles b) v) /\ forall l, key_ok l ->
    plookup (sinsert s (bytesToHexNibbles b) v) l = if decide (bytesToHexNibbles b = l) then Some v else slookup s l).
  { destruct s as [t|]; [by apply pinsert_ok; [apply (holds_wf _ _ _ Hs)|]|]. cbn [sinsert slookup].
    split; [|intros l _; apply plookup_pnew]. inversion Hk; subst; cbn; constructor; by constructor. }
  destruct Hok. by eapply holds_put.
Qed.

Definition sdelete (s : option trie) (k : list Z) : option trie :=
  match s with
  | Some t => match pdelete t k with Some r => r | None => s end
  | None => None
  end.

Lemma holds_delete L s m b :
  holds L s m -> bytes_ok b -> length b = L -> holds L (sdelete s (bytesToHexNibbles b)) (base.delete b m).
Proof.
  intros Hs Hb Hl. pose proof (nibbles_key b Hb) as Hk.
  assert (Hok : (forall t, sdelete s (bytesToHexNibbles b) = Some t -> wf t) /\ forall l, key_ok l ->
    slookup (sdelete s (bytesToHexNibbles b)) l = if decide (bytesToHexNibbles b = l) then None else slookup s l).
  { destruct s as [t|]; [|split; [done|intros l _; cbn; by case_decide]].
    pose proof (pdelete_ok t (holds_wf _ _ _ Hs t eq_refl) _ _ (holds_keys_len _ _ _ Hs) Hk) as Hd.
    rewrite nibbles_length, Hl in Hd. specialize (Hd eq_refl). cbn [sdelete slookup].
    destruct (pdelete t _) as [r|]; [exact Hd|]. cbn in Hd. split; [apply (holds_wf _ _ _ Hs)|].
    intros l _. case_decide; by subst. }
  destruct Hok as [Hw Hlk]. split; [done| |].
  - intros b' v' [_ Hm]%lookup_delete_Some. exact (holds_dom _ _ _ Hs _ _ Hm).
  - intros k v' Hk'. rewrite Hlk by done. case_decide as Hd.
    + subst k. split; [done|]. intros (b' & <-%nibbles_inj & Hm). by rewrite lookup_delete_eq in Hm.
    + rewrite (holds_in _ _ _ Hs k v' Hk'). split; intros (b' & -> & Hm); exists b'; (split; [done|]).
      * by rewrite lookup_delete_ne by congruence.
      * by rewrite lookup_delete_ne in Hm by congruence.
Qed.

(** ** Transactions *)

Section View.
Context `{Fastrlp} (db : list Z -> option (list Z)).
Context (good : list Z -> Z -> trie -> Prop) (stored : list Z -> trie -> Prop) (L : nat).

Definition view (t : TrieTxn) (m : entries) : Prop :=
  exists s, unf_opt db good stored (x_root t) s /\ holds L s m.

Lemma root_fuel n k : (3 * length k + (if is_stored n then 4 else 3) <= trieFuel k)%nat.
Proof. unfold trieFuel. destruct (is_stored n); lia. Qed.

Lemma trieFuel_S k : trieFuel k = S (3 * length k + 3).
Proof. unfold trieFuel. lia. Qed.

Lemma Lookup_view t m b :
  view t m -> bytes_ok b ->
  exists t', trie_Lookup db t b = Some (m !! b, t') /\ x_epoch t' = x_epoch t /\ view t' m.
Proof.
  intros (s & Hu & Hs) Hb. unfold trie_Lookup. cbv zeta. destruct t as [[n|] ep]; cbn [x_root x_epoch] in *.
  - destruct s as [p|]; [|done].
    destruct (lookup_sim db good stored _ n p _ Hu
                (or_introl (conj (holds_wf _ _ _ Hs p eq_refl) (nibbles_key b Hb))) (root_fuel _ _))
      as (c & n' & -> & Hn' & _).
    eexists. split; [f_equal; f_equal; exact (holds_lookup _ _ _ _ Hs Hb)|]. split; [done|]. by exists (Some p).
  - destruct s as [p|]; [done|]. rewrite <- (holds_lookup _ _ _ _ Hs Hb), trieFuel_S. cbn [lookup slookup].
    eexists. split; [done|]. split; [done|]. by exists None.
Qed.

Context (ep : Z).
Hypothesis good_nil : forall e t, e = 0 \/ e = ep -> good [] e t.
Hypothesis good_write : forall h e t t', good h e t -> good (writeNode ep h e) ep t'.

Lemma Insert_view t m b v :
  view t m -> x_epoch t = ep -> bytes_ok b -> length b = L ->
  exists t', trie_Insert db t b v = Some t' /\ x_epoch t' = ep /\ view t' (<[b := v]> m).
Proof.
  intros (s & Hu & Hs) He Hb Hl. unfold trie_Insert. cbv zeta. rewrite He.
  assert (Hi : exists n, insert db (trieFuel (bytesToHexNibbles b)) ep (x_root t) (bytesToHexNibbles b) v = Some (Some n) /\
    unf db good stored n (sinsert s (bytesToHexNibbles b) v)).
  { destruct (x_root t) as [n|], s as [p|]; try done.
    - apply (insert_sim db good stored ep good_nil good_write _ v n p); [done| |apply root_fuel].
      left. split; [exact (holds_wf _ _ _ Hs p eq_refl)|by apply nibbles_key].
    - unfold trieFuel. rewrite Nat.add_comm.
      destruct (insert_new db good stored ep good_nil (2 + 3 * length (bytesToHexNibbles b)) (bytesToHexNibbles b) v)
        as (n & Hn & Hun & _). by exists n. }
  destruct Hi as (n & -> & Hn). eexists. split; [done|]. split; [done|].
  exists (Some (sinsert s (bytesToHexNibbles b) v)). split; [done|]. by apply holds_insert.
Qed.

Lemma Delete_view t m b :
  view t m -> x_epoch t = ep -> bytes_ok b -> length b = L ->
  exists t', trie_Delete db t b = Some t' /\ x_epoch t' = ep /\ view t' (base.delete b m).
Proof.
  intros (s & Hu & Hs) He Hb Hl. unfold trie_Delete. cbv zeta. pose proof (holds_delete _ _ _ _ Hs Hb Hl) as Hd.
  destruct (x_root t) as [n|] eqn:Hr, s as [p|]; try done.
  - destruct (delete_sim db good stored ep good_nil (trieFuel (bytesToHexNibbles b)) n p (bytesToHexNibbles b) Hu)
      as (o & x & -> & Hx); [|apply root_fuel|].
    { left. split; [exact (holds_wf _ _ _ Hs p eq_refl)|by apply nibbles_key]. }
    cbn [sdelete] in Hd. destruct (pdelete p _) as [r|]; [destruct Hx as [-> Ho]|subst x].
    + eexists. split; [done|]. split; [done|]. by exists r.
    + exists t. split; [by destruct o|]. split; [done|]. exists (Some p). by rewrite Hr.
  - rewrite trieFuel_S. exists t. split; [done|]. split; [done|]. exists None. rewrite Hr. done.
Qed.
End View.
