(* ===== verification/TrieHash.v ===== *)
(** * Hashing and reloading tries

    The Merkle root of a pure trie is a function of the trie ([merkle]). [hash]
    computes it whatever is cached, and what it puts into the batch, added to the
    database, makes the whole trie readable from its root. Compact keys decode to
    what was encoded. *)

From S2P Require Import Prelude ChainTypes BigInt Runtime Rlp Trie TriePure TrieRefine.
Local Open Scope go_scope.

(** ** Compact keys *)

Lemma pack_byte a b : nibble a -> nibble b -> Z.lor (Z.shiftl a 4 mod 256) b = 16 * a + b.
Proof.
  intros Ha Hb.
  assert (Hall : forallb (fun a => forallb (fun b => Z.lor (Z.shiftl a 4 mod 256) b =? 16 * a + b) (seqZ 0 16)) (seqZ 0 16) = true)
    by (vm_compute; reflexivity).
  rewrite forallb_forall in Hall. specialize (Hall a (proj1 (list_elem_of_In _ _) (proj2 (elem_of_seqZ _ _ _) Ha))).
  rewrite forallb_forall in Hall. specialize (Hall b (proj1 (list_elem_of_In _ _) (proj2 (elem_of_seqZ _ _ _) Hb))).
  by apply Z.eqb_eq.
Qed.

Lemma pack_ind (P : list Z -> Prop) :
  P [] -> (forall a, P [a]) -> (forall a b l, P l -> P (a :: b :: l)) -> forall l, P l.
Proof.
  intros H0 H1 H2 l. assert (Hl : P l /\ forall a, P (a :: l)) by (induction l as [|b l [IH1 IH2]]; eauto).
  exact (proj1 Hl).
Qed.

Lemma pack_nibbles l : Forall nibble l -> Nat.Even (length l) -> (b ← pack l; [b / 16; b mod 16]) = l.
Proof.
  induction l as [|a|a b l IH] using pack_ind; [done|by intros _ [n Hn]; cbn in Hn; lia|].
  intros Hl [n Hn]. inversion Hl as [|? ? Ha Hl']; subst. inversion Hl' as [|? ? Hb Hl'']; subst.
  assert (Hr : (b ← pack l; [b / 16; b mod 16]) = l) by (apply IH; [done|exists (n - 1)%nat; cbn in Hn; lia]).
  cbn [pack]. rewrite pack_byte by done. cbn. cbn in Hr. rewrite Hr. unfold nibble in *. f_equal; [|f_equal].
  - rewrite Z.add_comm, Z.mul_comm, Z.div_add, Z.div_small by lia. done.
  - rewrite Z.add_comm, Z.mul_comm, Z.mod_add, Z.mod_small by lia. done.
Qed.

Lemma pack_bytes l : Forall nibble l -> bytes_ok (pack l).
Proof.
  induction l as [|a|a b l IH] using pack_ind; [constructor|constructor|].
  intros Hl. inversion Hl as [|? ? Ha Hl']; subst. inversion Hl' as [|? ? Hb Hl'']; subst.
  cbn [pack]. rewrite pack_byte by done. unfold nibble in *. constructor; [|by apply IH]. unfold byte_ok. lia.
Qed.

(** The nibbles of a key without its terminator. *)
Lemma key_ok_end k : key_ok k -> exists p, k = p ++ [16] /\ Forall nibble p.
Proof.
  induction 1 as [|x k Hx Hk (p & -> & Hp)]; [by exists []|]. exists (x :: p). split; [done|by constructor].
Qed.

Lemma hasTerminator_end p : hasTerminator (p ++ [16]) = true.
Proof. unfold hasTerminator. by rewrite last_snoc. Qed.

Lemma hasTerminator_nibbles p : Forall nibble p -> hasTerminator p = false.
Proof.
  intros Hp. unfold hasTerminator. destruct (last p) as [x|] eqn:E; [|done].
  apply last_Some in E as [l ->]. apply Forall_app in Hp as [_ Hx]. inversion Hx; subst.
  unfold nibble in *. apply Z.eqb_neq. lia.
Qed.

(** The flag and the padding. *)
Definition padded (p : list Z) (terminator : Z) : list Z :=
  if Nat.odd (length p) then (2 * terminator + 1) :: p else 2 * terminator :: 0 :: p.

Lemma encode_padded p tm : 0 <= tm <= 1 ->
  (let oddLen := Z.of_nat (length p) mod 2 in
   let flag := 2 * tm + oddLen in
   pack (if oddLen =? 1 then [flag] ++ p else [flag; 0] ++ p)) = pack (padded p tm).
Proof.
  intros _. cbv zeta. unfold padded. destruct (Nat.odd (length p)) eqn:E.
  - apply Nat.odd_spec in E as [m Hm].
    by rewrite <- (Z.mod_unique (Z.of_nat (length p)) 2 (Z.of_nat m) 1) by lia.
  - rewrite <- Nat.negb_even in E. apply negb_false_iff, Nat.even_spec in E as [m Hm].
    rewrite <- (Z.mod_unique (Z.of_nat (length p)) 2 (Z.of_nat m) 0) by lia. cbn. by rewrite Z.add_0_r.
Qed.

Lemma padded_even p tm : Nat.Even (length (padded p tm)).
Proof.
  unfold padded. destruct (Nat.odd (length p)) eqn:E.
  - apply Nat.odd_spec in E as [m Hm]. exists (S m). cbn. lia.
  - rewrite <- Nat.negb_even in E. apply negb_false_iff, Nat.even_spec in E as [m Hm]. exists (S m). cbn. lia.
Qed.

Lemma padded_nibbles p tm : Forall nibble p -> 0 <= tm <= 1 -> Forall nibble (padded p tm).
Proof.
  intros Hp Htm. unfold padded. destruct (Nat.odd _); repeat (constructor; [unfold nibble; lia|]); done.
Qed.

Lemma decode_padded p tm : Forall nibble p -> 0 <= tm <= 1 ->
  decodeCompact (pack (padded p tm)) = Some (p ++ if tm =? 1 then [16] else []).
Proof.
  intros Hp Htm. unfold decodeCompact, bytesToHexNibbles. cbv zeta.
  rewrite pack_nibbles by (auto using padded_nibbles, padded_even).
  assert (Hstrip : forall l : list Z, take (length (l ++ [16]) - 1) (l ++ [16]) = l).
  { intros l. apply take_app_length'. rewrite length_app. cbn. lia. }
  assert (tm = 0 \/ tm = 1) as [-> | ->] by lia; unfold padded; destruct (Nat.odd (length p)).
  - pose proof (Hstrip (1 :: p)) as Hs. change (Some (drop 1 (take (length ((1 :: p) ++ [16]) - 1) ((1 :: p) ++ [16]))) = Some (p ++ [])).
    by rewrite Hs, app_nil_r.
  - pose proof (Hstrip (0 :: 0 :: p)) as Hs.
    change ((if (length (take (length ((0%Z :: 0%Z :: p) ++ [16%Z]) - 1) ((0%Z :: 0%Z :: p) ++ [16%Z])) <? 2)%nat then None
      else Some (drop 2 (take (length ((0 :: 0 :: p) ++ [16]) - 1) ((0 :: 0 :: p) ++ [16])))) = Some (p ++ [])).
    by rewrite Hs, app_nil_r.
  - done.
  - done.
Qed.

Lemma encodeCompact_padded k :
  exists p tm, encodeCompact k = pack (padded p tm) /\ 0 <= tm <= 1 /\
    (Forall nibble k \/ key_ok k -> Forall nibble p /\ k = p ++ if tm =? 1 then [16] else []).
Proof.
  unfold encodeCompact. destruct (hasTerminator k) eqn:E.
  - exists (take (length k - 1) k), 1. split; [by apply encode_padded|]. split; [lia|]. intros [Hk|Hk].
    + by rewrite hasTerminator_nibbles in E.
    + apply key_ok_end in Hk as (p & -> & Hp). rewrite length_app, take_app_length' by (cbn; lia). done.
  - exists k, 0. split; [by apply encode_padded|]. split; [lia|]. rewrite app_nil_r. intros [Hk|Hk]; [done|].
    apply key_ok_end in Hk as (p & -> & Hp). by rewrite hasTerminator_end in E.
Qed.

Lemma compact_decode k : Forall nibble k \/ key_ok k -> decodeCompact (encodeCompact k) = Some k.
Proof.
  intros Hk. destruct (encodeCompact_padded k) as (p & tm & -> & Htm & Hp). destruct (Hp Hk) as [Hn ->].
  by apply decode_padded.
Qed.

Lemma compact_bytes k : Forall nibble k \/ key_ok k -> bytes_ok (encodeCompact k).
Proof.
  intros Hk. destruct (encodeCompact_padded k) as (p & tm & -> & Htm & Hp). destruct (Hp Hk) as [Hn _].
  by apply pack_bytes, padded_nibbles.
Qed.

(** ** Merkle roots *)

(** What has been written: in the database, or in a batch for it. *)
Abbreviation written := (list Z -> list Z -> Prop).
Abbreviation batch := (list (list Z * list Z)).

Section Merkle.
Context `{Fastrlp}.

Definition shorten (v : Value) : Value :=
  if fastrlp_Len v <? 32 then v else VBytes (keccak256 (fastrlp_MarshalTo v)).

Fixpoint reference (t : trie) : Value :=
  match t with
  | Val v => VBytes v
  | Ext p c => shorten (VArray [VBytes (encodeCompact p); reference c])
  | Br slots => shorten (VArray (map (fun o => match o with Some t => reference t | None => VNull end) slots))
  end.

Definition slot_value (o : option trie) : Value :=
  match o with Some t => reference t | None => VNull end.

Definition node_value (t : trie) : Value :=
  match t with
  | Val v => VBytes v
  | Ext p c => VArray [VBytes (encodeCompact p); reference c]
  | Br slots => VArray (map slot_value slots)
  end.

Definition is_node (t : trie) : bool := match t with Val _ => false | _ => true end.
Definition big (t : trie) : bool := is_node t && negb (fastrlp_Len (node_value t) <? 32).
Definition encoding (t : trie) : list Z := fastrlp_MarshalTo (node_value t).
Definition digest (t : trie) : list Z := keccak256 (encoding t).

Lemma reference_eq t : reference t = if big t then VBytes (digest t) else node_value t.
Proof. destruct t; [done|..]; cbn; unfold shorten; by destruct (_ <? 32). Qed.

Definition merkle (s : option trie) : list Z :=
  match s with Some t => digest t | None => emptyRoot end.

(** ** Subtries *)

Inductive sub : trie -> trie -> Prop :=
| sub_refl t : sub t t
| sub_ext u p c : sub u c -> sub u (Ext p c)
| sub_br u slots i t : slots !! i = Some (Some t) -> sub u t -> sub u (Br slots).

Definition of_db (db : list Z -> option (list Z)) : written := fun k d => db k = Some d.
Definition extends (W W' : written) : Prop := forall k d, W k d -> W' k d.

(** Every subtrie that is not embedded in its parent is written. *)
Definition persisted (W : written) (t : trie) : Prop :=
  forall u, sub u t -> big u = true -> W (digest u) (encoding u).

Lemma persisted_mono W W' t : extends W W' -> persisted W t -> persisted W' t.
Proof. intros Hd Hp u Hu Hb. by apply Hd, Hp. Qed.

Lemma persisted_ext W p c : persisted W (Ext p c) -> persisted W c.
Proof. intros Hp u Hu. apply Hp. by constructor. Qed.

Lemma persisted_br W slots i t : slots !! i = Some (Some t) -> persisted W (Br slots) -> persisted W t.
Proof. intros Hi Hp u Hu. apply Hp. by econstructor. Qed.

(** What is known of the hash of a node and of a reference into the database. *)
Definition hash_ok (W : written) (h : list Z) (t : trie) : Prop := h = digest t /\ big t = true /\ persisted W t.
Definition cached (W : written) (ep : Z) (h : list Z) (e : Z) (t : trie) : Prop :=
  (h = [] \/ hash_ok W h t) /\ 0 <= e <= ep.
(** In a transaction: the nodes it made have no hash yet. *)
Definition dirty (W : written) (ep : Z) (h : list Z) (e : Z) (t : trie) : Prop :=
  (h = [] \/ hash_ok W h t) /\ 0 <= e <= ep /\ (e = ep -> h = []).

Lemma GetNode_extends db db' buf n :
  extends (of_db db) (of_db db') -> GetNode db buf = Some (Ok (Some n)) -> GetNode db' buf = Some (Ok (Some n)).
Proof.
  unfold GetNode. intros He. destruct (db buf) as [d|] eqn:E; [|done]. by rewrite (He _ _ E).
Qed.

Lemma unf_mono db db' (good good' : list Z -> Z -> trie -> Prop) (st st' : list Z -> trie -> Prop) n t :
  extends (of_db db) (of_db db') -> (forall h e t, good h e t -> good' h e t) -> (forall b t, st b t -> st' b t) ->
  unf db good st n t -> unf db' good' st' n t.
Proof.
  intros Hd Hg Hs. induction 1 as [buf|buf n t Hgn Hst Hu IH|h k c t Hgd Hu IH|h e value children slots Hgd Hlc Hls Hn Hu IH].
  - constructor.
  - econstructor; [by eapply GetNode_extends|auto|done].
  - constructor; auto.
  - constructor; auto.
Qed.

Lemma hash_ok_mono W W' h t : extends W W' -> hash_ok W h t -> hash_ok W' h t.
Proof. intros He (? & ? & ?). split_and!; [done|done|by eapply persisted_mono]. Qed.

(** A committed trie in the next transaction. *)
Lemma cached_dirty db W ep n t :
  unf db (cached W ep) (hash_ok W) n t -> unf db (dirty W (ep + 1)) (hash_ok W) n t.
Proof. apply unf_mono; [by intros ? ?| |done]. intros h e u [Hh He]. split_and!; [done|lia|lia|lia]. Qed.

Lemma dirty_nil W ep e t : 0 <= ep -> e = 0 \/ e = ep -> dirty W ep [] e t.
Proof. intros Hep He. split; [by left|]. split; [lia|done]. Qed.

Lemma dirty_write W ep h e t t' : dirty W ep h e t -> dirty W ep (writeNode ep h e) ep t'.
Proof.
  intros (_ & He & Hh). unfold writeNode. destruct (ep =? e) eqn:E; breflect.
  - rewrite Hh by done. apply dirty_nil; [lia|by right].
  - apply dirty_nil; [lia|by right].
Qed.

(** ** Hashing *)

Definition in_batch (puts : batch) (W : written) : Prop := forall k d, (k, d) ∈ puts -> W k d.

(** The result of hashing a node that stands for [t]. *)
Definition hashed db (W : written) (ep : Z) (t : trie) (v : Value) (puts : batch) (n : Node) : Prop :=
  v = reference t /\
  (forall k d, (k, d) ∈ puts -> exists u, sub u t /\ big u = true /\ k = digest u /\ d = encoding u) /\
  (forall W', extends W W' -> in_batch puts W' -> persisted W' t /\ unf db (cached W' ep) (hash_ok W') n t).

Definition hash_all : list (option Node) -> option (list Value * batch * list (option Node)) :=
  fix all cs :=
    match cs with
    | [] => Some ([], [], [])
    | None :: cs =>
        match all cs with
        | Some (vs, ps, ns) => Some (VNull :: vs, ps, None :: ns)
        | None => None
        end
    | Some n :: cs =>
        match hash n, all cs with
        | Some (v, p, n), Some (vs, ps, ns) => Some (v :: vs, p ++ ps, Some n :: ns)
        | _, _ => None
        end
    end.

Lemma hash_full e value children :
  hash (FullNode [] e value children) =
  match hash_all children, value with
  | None, _ => None
  | Some (vs, ps, ns), None =>
      Some (finish (VArray (vs ++ [VNull])) ps (fun h => FullNode h e None ns) (FullNode [] e None ns))
  | Some (vs, ps, ns), Some n =>
      match hash n with
      | None => None
      | Some (v, p, n) =>
          Some (finish (VArray (vs ++ [v])) (ps ++ p) (fun h => FullNode h e (Some n) ns) (FullNode [] e (Some n) ns))
      end
  end.
Proof. done. Qed.

Lemma finish_ok db W ep t puts (set_hash : list Z -> Node) :
  is_node t = true ->
  (forall k d, (k, d) ∈ puts -> exists u, sub u t /\ big u = true /\ k = digest u /\ d = encoding u) ->
  (forall W', extends W W' -> in_batch puts W' ->
     (forall u, sub u t -> u = t \/ (big u = true -> W' (digest u) (encoding u))) /\
     forall h, h = [] \/ hash_ok W' h t -> unf db (cached W' ep) (hash_ok W') (set_hash h) t) ->
  exists v p n, finish (node_value t) puts set_hash (set_hash []) = (v, p, n) /\ hashed db W ep t v p n.
Proof.
  intros Hn Ha Hb. unfold finish. assert (Hbig : big t = negb (fastrlp_Len (node_value t) <? 32)) by (unfold big; by rewrite Hn).
  destruct (fastrlp_Len (node_value t) <? 32); cbn [negb] in Hbig; eexists _, _, _; (split; [done|]).
  - split; [by rewrite reference_eq, Hbig|]. split; [done|]. intros W' Hd Hp. destruct (Hb W' Hd Hp) as [Hs Hu].
    split; [|apply Hu; by left]. intros u Hsu Hbu. destruct (Hs u Hsu) as [->|Hx]; [congruence|auto].
  - split; [by rewrite reference_eq, Hbig|]. split.
    + intros k d [Hi|Hi%list_elem_of_singleton]%elem_of_app; [by apply Ha|]. simplify_eq.
      exists t. split_and!; try done. constructor.
    + intros W' Hd Hp. destruct (Hb W' Hd) as [Hs Hu]; [intros k d Hi; apply Hp, elem_of_app; by left|].
      assert (Hpt : persisted W' t).
      { intros u Hsu Hbu. destruct (Hs u Hsu) as [->|Hx]; [|auto]. apply Hp, elem_of_app. right.
        by apply list_elem_of_singleton. }
      split; [done|]. apply Hu. right. by split_and!.
Qed.

(** The children, given the results for each. *)
Definition hashes db (W : written) ep (o : option Node) (s : option trie) : Prop :=
  match o, s with
  | Some c, Some t => exists v p n, hash c = Some (v, p, n) /\ hashed db W ep t v p n
  | None, None => True
  | _, _ => False
  end.

Definition reloads db (W : written) ep (o : option Node) (s : option trie) : Prop :=
  unf_opt db (cached W ep) (hash_ok W) o s /\ forall t, s = Some t -> persisted W t.

Lemma hash_all_ok db W ep cs slots :
  Forall2 (hashes db W ep) cs slots ->
  exists ps ns, hash_all cs = Some (map slot_value slots, ps, ns) /\
    (forall k d, (k, d) ∈ ps -> exists t u, Some t ∈ slots /\ sub u t /\ big u = true /\ k = digest u /\ d = encoding u) /\
    (forall W', extends W W' -> in_batch ps W' -> Forall2 (reloads db W' ep) ns slots).
Proof.
  induction 1 as [|o s cs slots Ho Hf (ps & ns & He & Ha & Hb)].
  { exists [], []. split; [done|]. split; [intros k d Hi; by apply not_elem_of_nil in Hi|]. constructor. }
  destruct o as [c|], s as [t|]; try done; cbn [hash_all]; fold hash_all; rewrite He.
  - destruct Ho as (v & p & n & -> & -> & Ha1 & Hb1). exists (p ++ ps), (Some n :: ns). split; [done|]. split.
    + intros k d [Hi|Hi]%elem_of_app.
      * destruct (Ha1 k d Hi) as (u & Hu). exists t, u. split; [constructor|done].
      * destruct (Ha k d Hi) as (t' & u & Ht & Hu). exists t', u. split; [by constructor|done].
    + intros W' Hd Hp. destruct (Hb1 W' Hd) as [H1 H2]; [intros k d Hi; apply Hp, elem_of_app; by left|].
      constructor; [split; [done|by intros ? [= <-]]|]. apply Hb; [done|].
      intros k d Hi. apply Hp, elem_of_app. by right.
  - exists ps, (None :: ns). split; [done|]. split.
    + intros k d Hi. destruct (Ha k d Hi) as (t' & u & Ht & Hu). exists t', u. split; [by constructor|done].
    + intros W' Hd Hp. constructor; [by split|]. by apply Hb.
Qed.

Lemma hash_all_app a b :
  hash_all (a ++ b) =
  match hash_all a, hash_all b with
  | Some (v1, p1, n1), Some (v2, p2, n2) => Some (v1 ++ v2, p1 ++ p2, n1 ++ n2)
  | _, _ => None
  end.
Proof.
  induction a as [|[c|] a IH]; cbn [app hash_all]; fold hash_all.
  - destruct (hash_all b) as [[[v p] n]|]; done.
  - rewrite IH. destruct (hash c) as [[[? ?] ?]|]; [|done].
    destruct (hash_all a) as [[[? ?] ?]|], (hash_all b) as [[[? ?] ?]|]; cbn; try done. by rewrite app_assoc.
  - rewrite IH. by destruct (hash_all a) as [[[? ?] ?]|], (hash_all b) as [[[? ?] ?]|].
Qed.

Lemma hash_all_length cs vs ps ns : hash_all cs = Some (vs, ps, ns) -> length ns = length cs.
Proof.
  revert vs ps ns. induction cs as [|[c|] cs IH]; intros vs ps ns; cbn [hash_all]; fold hash_all; [by intros [= <- <- <-]|..].
  - destruct (hash c) as [[[? ?] ?]|], (hash_all cs) as [[[? ?] ?]|]; try done. intros [= <- <- <-]. cbn. f_equal. by eapply IH.
  - destruct (hash_all cs) as [[[? ?] ?]|]; try done. intros [= <- <- <-]. cbn. f_equal. by eapply IH.
Qed.

(** A full node is hashed through its 17 edges. *)
Lemma hash_full_edges e value children vs ps ns :
  length children = 16%nat -> hash_all (edges value children) = Some (vs, ps, ns) ->
  exists value' children', ns = edges value' children' /\ length children' = 16%nat /\
    hash (FullNode [] e value children) =
      Some (finish (VArray vs) ps (fun h => FullNode h e value' children') (FullNode [] e value' children')).
Proof.
  intros Hl He. unfold edges in He. rewrite hash_all_app in He. rewrite hash_full.
  destruct (hash_all children) as [[[v1 p1] n1]|] eqn:E1; [|done]. pose proof (hash_all_length _ _ _ _ E1) as Hl1.
  cbn [hash_all] in He. destruct value as [n|].
  - destruct (hash n) as [[[v p] n']|]; [|done]. injection He as <- <- <-.
    exists (Some n'), n1. split; [done|]. split; [lia|]. by rewrite app_nil_r.
  - injection He as <- <- <-. exists None, n1. split; [done|]. split; [lia|]. by rewrite app_nil_r.
Qed.

Lemma unf_full_Forall2 db good st h e value children slots :
  length children = 16%nat -> good h e (Br slots) -> Forall2 (unf_opt db good st) (edges value children) slots ->
  unf db good st (FullNode h e value children) (Br slots).
Proof.
  intros Hl Hg Hf. apply unf_full_iff. split; [done|]. split; [done|].
  split; [apply Forall2_length in Hf; by rewrite <- Hf, edges_length|].
  intros i o s Ho Hs. by eapply Forall2_lookup_lr.
Qed.

Lemma cached_mono db db' W W' ep n t :
  extends (of_db db) (of_db db') -> extends W W' ->
  unf db (cached W ep) (hash_ok W) n t -> unf db' (cached W' ep) (hash_ok W') n t.
Proof.
  intros Hdb Hd. apply unf_mono; [done| |by intros b u; apply hash_ok_mono].
  intros h e u [[Hh|Hh] He]; (split; [|done]); [by left|right; by eapply hash_ok_mono].
Qed.

(** A node whose hash is known is left alone. *)
Lemma hashed_known db W ep h n t :
  hash_ok W h t -> unf db (cached W ep) (hash_ok W) n t -> hashed db W ep t (VBytes h) [] n.
Proof.
  intros (-> & Hb & Hp) Hu. split; [by rewrite reference_eq, Hb|].
  split; [intros k d Hi; by apply not_elem_of_nil in Hi|].
  intros W' Hd _. split; [by eapply persisted_mono|by eapply cached_mono; [intros ? ?| |]].
Qed.

(** [hash] computes the reference of the trie a node stands for. *)
Lemma hash_sim db W ep n t :
  unf db (cached W ep) (hash_ok W) n t -> exists v p n', hash n = Some (v, p, n') /\ hashed db W ep t v p n'.
Proof.
  induction 1 as [buf|buf n t Hgn Hst Hu IH|h k c t Hgd Hu IH|h e value children slots Hgd Hlc Hls Hn Hu IH].
  - exists (VBytes buf), [], (ValueNode false buf). split; [done|]. split; [done|].
    split; [intros k d Hi; by apply not_elem_of_nil in Hi|].
    intros W' _ _. split; [|constructor]. intros u Hs Hb. inversion Hs; by subst.
  - eexists _, _, _. split; [done|]. apply hashed_known; [done|by econstructor].
  - destruct h as [|x h]; [|destruct Hgd as [[?|Hh] He]; [done|]; eexists _, _, _; split; [done|];
      apply hashed_known; [done|]; apply unf_short; [split; [by right|done]|done]].
    destruct IH as (v & p & c' & Hc & -> & Ha & Hb). cbn [hash]. rewrite Hc.
    destruct (finish_ok db W ep (Ext k t) p (fun h => ShortNode h k (Some c'))) as (v & p' & n' & He & Hok);
      [done| | |eexists _, _, _; split; [by f_equal|done]].
    + intros k' d Hi. destruct (Ha k' d Hi) as (u & Hs & Hr). exists u. split; [by constructor|done].
    + intros W' Hd Hp. destruct (Hb W' Hd Hp) as [Hpt Hut]. split.
      * intros u Hs. inversion Hs; subst; [by left|right; auto].
      * intros h Hh. constructor; [split; [done|]|done]. destruct Hgd as [_ ?]. done.
  - destruct h as [|x h]; [|destruct Hgd as [[?|Hh] He]; [done|]; eexists _, _, _; split; [done|];
      apply hashed_known; [done|]; apply unf_full; [split; [by right|done]|done..]].
    assert (Hf : Forall2 (hashes db W ep) (edges value children) slots).
    { apply Forall2_same_length_lookup_2; [by rewrite edges_length|]. intros i [c|] [t|] Ho Hs; cbn; [by eapply IH|..|done].
      - apply Hn in Hs. congruence.
      - apply Hn in Ho. congruence. }
    destruct (hash_all_ok _ _ _ _ _ Hf) as (ps & ns & He & Ha & Hb).
    destruct (hash_full_edges e _ _ _ _ _ Hlc He) as (value' & children' & -> & Hl' & ->).
    destruct (finish_ok db W ep (Br slots) ps (fun h => FullNode h e value' children')) as (v & p' & n' & Hfi & Hok);
      [done| | |eexists _, _, _; split; [by f_equal|done]].
    + intros k' d Hi. destruct (Ha k' d Hi) as (t & u & [i Hs]%list_elem_of_lookup & Hsu & Hr). exists u.
      split; [by econstructor|done].
    + intros W' Hd Hp. specialize (Hb W' Hd Hp). split.
      * intros u Hs. inversion Hs as [| |? ? i t Hi Hsu]; subst; [by left|right]. intros Hbu.
        destruct (Forall2_lookup_r _ _ _ _ _ Hb Hi) as (o & _ & _ & Hpt). by apply (Hpt t).
      * intros h Hh. apply unf_full_Forall2; [done|split; [done|by destruct Hgd]|].
        eapply Forall2_impl; [exact Hb|]. by intros o s [Hr _].
Qed.

(** [Txn.Hash]: the root, and a batch that makes the trie readable. *)
Lemma Hash_ok db W t s :
  CodecLaws -> unf_opt db (cached W (x_epoch t)) (hash_ok W) (x_root t) s -> (forall u, s = Some u -> is_node u = true) ->
  exists puts t', trie_Hash t = Some (merkle s, puts, t') /\ x_epoch t' = x_epoch t /\
    (forall k d, (k, d) ∈ puts -> exists u w, s = Some u /\ sub w u /\ is_node w = true /\ k = digest w /\ d = encoding w) /\
    forall W', extends W W' -> in_batch puts W' ->
      unf_opt db (cached W' (x_epoch t)) (hash_ok W') (x_root t') s /\
      forall u, s = Some u -> persisted W' u /\ W' (digest u) (encoding u).
Proof.
  intros Hlaws Hu Hn. unfold trie_Hash. destruct (x_root t) as [n|] eqn:Hr, s as [u|]; try done.
  - destruct (hash_sim _ _ _ _ _ Hu) as (v & p & n' & -> & -> & Ha & Hb). rewrite reference_eq.
    specialize (Hn u eq_refl).
    assert (Hnode : forall k d, (k, d) ∈ p -> exists w, Some u = Some u /\ sub w u /\ is_node w = true /\ k = digest w /\ d = encoding w).
    { intros k d Hi. destruct (Ha k d Hi) as (w & Hw & Hb' & -> & ->). exists w. split_and!; try done.
      by apply andb_true_iff in Hb' as [? _]. }
    destruct (big u) eqn:Eb.
    + assert (Hl : length (digest u) = 32%nat) by apply keccak256_length. rewrite Hl. cbn. eexists _, _. split; [done|]. split; [done|]. split.
      * intros k d Hi. exists u. by apply Hnode.
      * intros W' Hd Hp. destruct (Hb W' Hd Hp) as [Hpu Hun]. split; [done|]. intros ? [= <-].
        split; [done|]. apply Hpu; [constructor|done].
    + assert (Hv : exists l, node_value u = VArray l) by (destruct u; [done|by eexists..]). destruct Hv as [l Hv].
      rewrite Hv. cbn. rewrite <- Hv. eexists _, _. split; [done|]. split; [done|]. split.
      * intros k d [Hi|Hi%list_elem_of_singleton]%elem_of_app; exists u; [by apply Hnode|]. simplify_eq.
        exists u. split_and!; try done. constructor.
      * intros W' Hd Hp. destruct (Hb W' Hd) as [Hpu Hun]; [intros k d Hi; apply Hp, elem_of_app; by left|].
        split; [done|]. intros ? [= <-]. split; [done|]. apply Hp, elem_of_app. right. by apply list_elem_of_singleton.
  - eexists _, _. split; [done|]. split; [done|]. split; [intros k d Hi; by apply not_elem_of_nil in Hi|].
    intros W' _ _. split; [by rewrite Hr|done].
Qed.

(** ** Reloading *)

Context `{!CodecLaws} `{!FastrlpLaws}.

(** Values that can be stored. *)
Definition vals_ok (t : trie) : Prop := forall v, sub (Val v) t -> bytes_ok v /\ v <> [].

Lemma vals_ok_ext p c : vals_ok (Ext p c) -> vals_ok c.
Proof. intros Hv v Hs. apply Hv. by constructor. Qed.

Lemma vals_ok_br slots i t : slots !! i = Some (Some t) -> vals_ok (Br slots) -> vals_ok t.
Proof. intros Hi Hv v Hs. apply Hv. by econstructor. Qed.

Lemma reference_ok t : value_ok (node_value t) -> value_ok (reference t).
Proof. rewrite reference_eq. destruct (big t); [intros _; apply keccak256_bytes|done]. Qed.

Lemma node_value_ok t : wf t -> vals_ok t -> value_ok (node_value t).
Proof.
  assert (Hval : forall v, vals_ok (Val v) -> value_ok (VBytes v)) by (intros v Hv; apply Hv; constructor).
  induction 1 as [p w Hp|p slots Hp Hnp Hw IH|slots i j t u Hlen Hij Hi Hj Hw IH Hv]; intros Hok.
  - apply value_ok_array. constructor; [apply compact_bytes; by right|]. constructor; [|done].
    apply vals_ok_ext in Hok. by apply Hval.
  - apply value_ok_array. constructor; [apply compact_bytes; by left|]. constructor; [|done].
    apply reference_ok, IH. by eapply vals_ok_ext.
  - apply value_ok_array, Forall_map, Forall_forall. intros [s|] [n Hs]%list_elem_of_lookup; [|done].
    pose proof (vals_ok_br _ _ _ Hs Hok) as Hvs. pose proof (lookup_lt_Some _ _ _ Hs) as Hlt.
    destruct (decide (n = 16%nat)) as [->|Hn]; [destruct (Hv _ Hs) as [v ->]; by apply Hval|].
    apply reference_ok. apply (IH n s); [lia|done|done].
Qed.

(** What decoding the stored form of a trie gives. *)
Definition decodes db (t : trie) (r : rlp) : Prop :=
  exists n, decodeNode r = Some (Ok n) /\ unf db (cached (of_db db) 0) (hash_ok (of_db db)) n t.

Lemma GetNode_decodes db t :
  is_node t = true -> value_ok (node_value t) -> db (digest t) = Some (encoding t) ->
  decodes db t (norm (node_value t)) ->
  exists n, GetNode db (digest t) = Some (Ok (Some n)) /\ unf db (cached (of_db db) 0) (hash_ok (of_db db)) n t.
Proof.
  intros Hn Hv Hd (n & Hdn & Hu). exists n. split; [|done]. unfold GetNode. rewrite Hd.
  pose proof (Parse_MarshalTo _ Hv) as Hparse. pose proof (MarshalTo_nonempty (node_value t)) as Hne.
  unfold encoding. destruct (fastrlp_MarshalTo (node_value t)) as [|x l]; [done|]. rewrite Hparse, Hdn.
  by destruct t.
Qed.

Lemma reference_decodes db t :
  is_node t = true -> value_ok (node_value t) -> persisted (of_db db) t -> decodes db t (norm (node_value t)) ->
  decodes db t (norm (reference t)) /\ norm (reference t) <> RBytes [].
Proof.
  intros Hn Hv Hp Hd. rewrite reference_eq. destruct (big t) eqn:E; [|split; [done|by destruct t]].
  assert (Hpt : db (digest t) = Some (encoding t)) by (apply Hp; [constructor|done]).
  destruct (GetNode_decodes db t Hn Hv Hpt Hd) as (n & Hg & Hu). split.
  - exists (ValueNode true (digest t)). split; [done|]. by econstructor.
  - intros [= He]. pose proof (keccak256_length (encoding t)) as Hl. unfold digest in He. by rewrite He in Hl.
Qed.

Definition fold_child (xd : rlp * option (result unit Node)) (acc : option (result unit (list (option Node)))) :
  option (result unit (list (option Node))) :=
  match xd, acc with
  | (RBytes [], _), Some (Ok cs) => Some (Ok (None :: cs))
  | (RBytes [], _), acc => acc
  | (_, Some (Ok n)), Some (Ok cs) => Some (Ok (Some n :: cs))
  | (_, Some (Ok n)), acc => acc
  | (_, Some (Err e)), _ => Some (Err e)
  | (_, None), _ => None
  end.

Lemma decodeNode_full l :
  length l = 17%nat ->
  decodeNode (RArray l) =
    match foldr fold_child (Some (Ok [])) (zip (take 16 l) (take 16 (map decodeNode l))) with
    | Some (Ok cs) =>
        match l !! 16%nat with
        | Some (RBytes []) => Some (Ok (FullNode [] 0 None cs))
        | Some (RBytes b) => Some (Ok (FullNode [] 0 (Some (ValueNode false b)) cs))
        | _ => Some (Err tt)
        end
    | Some (Err e) => Some (Err e)
    | None => None
    end.
Proof.
  intros Hl. destruct l as [|x0 [|x1 [|x2 l]]]; try done. cbn [decodeNode]. rewrite Hl. by destruct x0.
Qed.

Lemma fold_children db (slots : list (option trie)) :
  Forall (fun o => match o with
                   | Some t => decodes db t (norm (reference t)) /\ norm (reference t) <> RBytes []
                   | None => True end) slots ->
  exists cs,
    foldr fold_child (Some (Ok [])) (zip (map (fun o => norm (slot_value o)) slots) (map (fun o => decodeNode (norm (slot_value o))) slots)) =
      Some (Ok cs) /\
    Forall2 (unf_opt db (cached (of_db db) 0) (hash_ok (of_db db))) cs slots.
Proof.
  induction 1 as [|o slots Ho Hf (cs & IH & Hcs)]; [by exists []|].
  destruct o as [t|]; cbn [map zip zip_with foldr].
  - destruct Ho as [(n & Hd & Hu) Hne]. rewrite IH. cbn [slot_value]. rewrite Hd. exists (Some n :: cs).
    split; [|by constructor]. by destruct (norm (reference t)) as [[|]|].
  - rewrite IH. exists (None :: cs). split; [done|by constructor].
Qed.

Lemma decode_ok db t : wf t -> vals_ok t -> persisted (of_db db) t -> decodes db t (norm (node_value t)).
Proof.
  intros Hw. pose proof Hw as Hw0. revert Hw0.
  induction Hw as [p w Hp|p slots Hp Hnp Hw IH|slots i j t u Hlen Hij Hi Hj Hw IH Hv]; intros Hw0 Hok Hper.
  - exists (ShortNode [] p (Some (ValueNode false w))).
    split; [|apply unf_short; [split; [by left|lia]|constructor]]. cbn. rewrite compact_decode by (by right).
    destruct (key_ok_end p Hp) as (q & -> & _). by rewrite hasTerminator_end.
  - destruct (reference_decodes db (Br slots)) as [(n & Hd & Hu) _]; [done|..].
    { apply node_value_ok; [done|by eapply vals_ok_ext]. }
    { by eapply persisted_ext. }
    { apply IH; [done|by eapply vals_ok_ext|by eapply persisted_ext]. }
    exists (ShortNode [] p (Some n)). split; [|apply unf_short; [split; [by left|lia]|done]].
    cbn [norm node_value map decodeNode].
    rewrite Hd, compact_decode, hasTerminator_nibbles by (done || by left). done.
  - destruct (exists_last (l := slots)) as (init & s & ->); [by intros ->|].
    rewrite length_app in Hlen. cbn in Hlen. assert (Hl : length init = 16%nat) by lia.
    assert (Hf : Forall (fun o => match o with
                   | Some t => decodes db t (norm (reference t)) /\ norm (reference t) <> RBytes []
                   | None => True end) init).
    { apply Forall_forall. intros [c|] [n Hc]%list_elem_of_lookup; [|done].
      pose proof (lookup_lt_Some _ _ _ Hc) as Hlt.
      assert (Hcs : (init ++ [s]) !! n = Some (Some c)) by (by rewrite lookup_app_l by done).
      pose proof (Hw n c ltac:(lia) Hcs) as Hwc. pose proof (vals_ok_br _ _ _ Hcs Hok) as Hvc.
      pose proof (persisted_br _ _ _ _ Hcs Hper) as Hpc.
      apply reference_decodes; [by destruct Hwc|by apply node_value_ok|done|].
      apply (IH n c); [lia|done..]. }
    destruct (fold_children db init Hf) as (cs & Hfold & Hcs).
    assert (Hs : exists value, unf_opt db (cached (of_db db) 0) (hash_ok (of_db db)) value s /\
      match norm (slot_value s) with
      | RBytes [] => Some (Ok (FullNode [] 0 None cs))
      | RBytes b => Some (Ok (FullNode [] 0 (Some (ValueNode false b)) cs))
      | _ => Some (Err tt)
      end = Some (Ok (FullNode [] 0 value cs))).
    { destruct s as [c|]; [|by exists None]. assert (Hcs16 : (init ++ [Some c]) !! 16%nat = Some (Some c)).
      { rewrite lookup_app_r, Hl by lia. done. }
      destruct (Hv _ Hcs16) as [v ->]. destruct (vals_ok_br _ _ _ Hcs16 Hok v ltac:(constructor)) as [_ Hne].
      exists (Some (ValueNode false v)). split; [constructor|]. by destruct v. }
    destruct Hs as (value & Hvu & Hval). exists (FullNode [] 0 value cs). split.
    + cbn [node_value norm]. rewrite decodeNode_full by (rewrite !length_map, length_app; cbn; lia).
      rewrite !map_app, !map_map, !take_app_length' by (by rewrite length_map). rewrite Hfold.
      rewrite lookup_app_r, length_map, Hl by (rewrite length_map; lia). exact Hval.
    + apply unf_full_Forall2; [by apply Forall2_length in Hcs; lia|split; [by left|lia]|].
      apply Forall2_app; [done|by constructor].
Qed.
End Merkle.
