(* ===== verification/TrieDb.v ===== *)
(** * Tries in a database

    [stored_at db root m]: the database has, under the hash [root], a trie with the
    entries of [m]. Opening that root, working on it in a transaction, hashing and
    writing the batch leads to a database with the new map under the new root and
    everything that was there before. Absence of hash collisions is assumed of the
    encodings of the tries concerned only. *)

From S2P Require Import Prelude ChainTypes BigInt Runtime Rlp Trie TriePure TrieRefine TrieHash.
Local Open Scope go_scope.

(** Every value of a canonical trie is under some key. *)
Lemma sub_val_entry t v : wf t -> sub (Val v) t -> exists k, key_ok k /\ plookup t k = Some v.
Proof.
  induction 1 as [p w Hp|p slots Hp Hnp Hw IH|slots i j t u Hlen Hij Hi Hj Hw IH Hv]; intros Hs.
  - inversion Hs as [|? ? ? Hs'|]; subst. inversion Hs'; subst. exists p. split; [done|apply plookup_leaf].
  - inversion Hs as [|? ? ? Hs'|]; subst. destruct (IH Hs') as (k & Hk & Hl). exists (p ++ k).
    split; [by apply key_ok_drop|by rewrite plookup_ext].
  - inversion Hs as [| |? ? n c Hc Hs']; subst. pose proof (lookup_lt_Some _ _ _ Hc).
    destruct (decide (n = 16%nat)) as [->|Hn].
    + destruct (Hv _ Hc) as [w ->]. inversion Hs'; subst. exists [16]. split; [constructor|].
      rewrite plookup_br. change (Z.to_nat 16) with 16%nat. by rewrite Hc.
    + destruct (IH n c) as (k & Hk & Hl); [lia|done|done|]. exists (Z.of_nat n :: k).
      split; [constructor; [unfold nibble; lia|done]|]. by rewrite plookup_br, Nat2Z.id, Hc.
Qed.

Section Db.
Context `{Fastrlp} `{!CodecLaws} `{!FastrlpLaws} (L : nat).
Implicit Types (db : list Z -> option (list Z)).

Definition values_ok (m : entries) : Prop := forall b v, m !! b = Some v -> bytes_ok v /\ v <> [].

Lemma holds_vals_ok t m : holds L (Some t) m -> values_ok m -> vals_ok t.
Proof.
  intros Hs Hm v Hv. destruct (sub_val_entry t v (holds_wf _ _ _ Hs t eq_refl) Hv) as (k & Hk & Hl).
  apply (holds_in _ _ _ Hs k v Hk) in Hl as (b & _ & Hb). by eapply Hm.
Qed.

(** A committed trie, and a transaction before it is hashed. *)
Definition committed (db : list Z -> option (list Z)) (W : written) (t : Trie) (m : entries) : Prop :=
  view db (cached W (t_epoch t)) (hash_ok W) L (mkTrieTxn (t_root t) (t_epoch t)) m /\ values_ok m /\ 0 <= t_epoch t.

Definition working (db : list Z -> option (list Z)) (W : written) (t : TrieTxn) (m : entries) : Prop :=
  view db (dirty W (x_epoch t)) (hash_ok W) L t m /\ values_ok m /\ 0 <= x_epoch t.

Lemma committed_new db W : committed db W NewTrie ∅.
Proof.
  split; [|split; [by intros b v; rewrite lookup_empty|done]]. exists None. split; [done|apply holds_empty].
Qed.

Lemma Txn_working db W t m : committed db W t m -> t_epoch t + 1 < 2 ^ 32 -> working db W (Trie_Txn t) m.
Proof.
  intros ((s & Hu & Hs) & Hv & He) Hlt. unfold working, Trie_Txn. cbn [x_epoch].
  rewrite Z.mod_small by lia. split; [|split; [done|lia]]. exists s. split; [|done]. cbn in *.
  destruct (t_root t), s; try done. by apply cached_dirty.
Qed.

Lemma Get_committed db W t m b :
  committed db W t m -> bytes_ok b ->
  exists t', Trie_Get db t b = Some (m !! b, t') /\ t_epoch t' = t_epoch t /\ committed db W t' m.
Proof.
  intros ((s & Hu & Hs) & Hv & He) Hb. unfold Trie_Get.
  destruct (Lookup_view db (cached W (t_epoch t)) (hash_ok W) L (Trie_Txn t) m b) as (t' & -> & _ & Hv');
    [by exists s|done|].
  eexists. split; [done|]. split; [done|]. split; [|done]. destruct Hv' as (s' & Hu' & Hs'). by exists s'.
Qed.

Lemma Lookup_working db W t m b :
  working db W t m -> bytes_ok b -> exists t', trie_Lookup db t b = Some (m !! b, t') /\ x_epoch t' = x_epoch t /\ working db W t' m.
Proof.
  intros (Hw & Hv & He) Hb. destruct (Lookup_view _ _ _ _ _ _ b Hw Hb) as (t' & -> & He' & Hw').
  exists t'. split; [done|]. split; [done|]. unfold working. by rewrite He'.
Qed.

Lemma Insert_working db W t m b v :
  working db W t m -> bytes_ok b -> length b = L -> bytes_ok v -> v <> [] ->
  exists t', trie_Insert db t b v = Some t' /\ x_epoch t' = x_epoch t /\ working db W t' (<[b := v]> m).
Proof.
  intros (Hw & Hv & He) Hb Hl Hv1 Hv2.
  destruct (Insert_view db (dirty W (x_epoch t)) (hash_ok W) L (x_epoch t)
              (fun e u => dirty_nil W _ e u He) (dirty_write W _) t m b v Hw eq_refl Hb Hl) as (t' & -> & He' & Hw').
  exists t'. split; [done|]. split; [done|]. unfold working. rewrite He'. split; [done|]. split; [|done].
  intros b' v' [[_ <-]|[_ Hm]]%lookup_insert_Some; [done|by eapply Hv].
Qed.

Lemma Delete_working db W t m b :
  working db W t m -> bytes_ok b -> length b = L ->
  exists t', trie_Delete db t b = Some t' /\ x_epoch t' = x_epoch t /\ working db W t' (base.delete b m).
Proof.
  intros (Hw & Hv & He) Hb Hl.
  destruct (Delete_view db (dirty W (x_epoch t)) (hash_ok W) L (x_epoch t)
              (fun e u => dirty_nil W _ e u He) t m b Hw eq_refl Hb Hl) as (t' & -> & He' & Hw').
  exists t'. split; [done|]. split; [done|]. unfold working. rewrite He'. split; [done|]. split; [|done].
  intros b' v' [_ Hm]%lookup_delete_Some. by eapply Hv.
Qed.

Lemma committed_extends db db' W W' t m :
  extends (of_db db) (of_db db') -> extends W W' -> committed db W t m -> committed db' W' t m.
Proof.
  intros Hd HW ((s & Hu & Hs) & Hv & He). split; [|done]. exists s. split; [|done]. cbn in *.
  destruct (t_root t), s; try done. by eapply cached_mono.
Qed.

Lemma working_extends db W W' t m : extends W W' -> working db W t m -> working db W' t m.
Proof.
  intros HW ((s & Hu & Hs) & Hv & He). split; [|done]. exists s. split; [|done].
  destruct (x_root t), s; try done. eapply unf_mono; [by intros ? ?| |by intros b u; apply hash_ok_mono|exact Hu].
  intros h e u ([Hh|Hh] & He'); (split; [|done]); [by left|right; by eapply hash_ok_mono].
Qed.

(** ** Roots *)

(** The root of the trie with these entries: [root_of m r] has exactly one [r]. *)
Definition root_of (m : entries) (r : list Z) : Prop := exists s, holds L s m /\ r = merkle s.

Lemma root_of_fun m r r' : root_of m r -> root_of m r' -> r = r'.
Proof. intros (s & Hs & ->) (s' & Hs' & ->). f_equal. by eapply holds_unique. Qed.

Lemma root_of_bytes m r : root_of m r -> bytes_ok r /\ length r = 32%nat.
Proof.
  intros (s & _ & ->). destruct s as [t|]; cbn [merkle]; [split; [apply keccak256_bytes|apply keccak256_length]|].
  split; [apply (be_bytes_ok 32)|apply (be_bytes_length 32)].
Qed.

(** The encodings of the nodes of the trie with these entries. *)
Definition node_of (m : entries) (d : list Z) : Prop :=
  exists t u, holds L (Some t) m /\ sub u t /\ is_node u = true /\ d = encoding u.

(** All of the trie of [m] is written; in the database. *)
Definition written_at (W : written) (r : list Z) (m : entries) : Prop :=
  values_ok m /\ exists s, holds L s m /\ r = merkle s /\
    forall t, s = Some t -> persisted W t /\ W (digest t) (encoding t).

Definition stored_at db : list Z -> entries -> Prop := written_at (of_db db).

Lemma written_empty W : written_at W emptyRoot ∅.
Proof. split; [by intros b v; rewrite lookup_empty|]. exists None. split; [apply holds_empty|done]. Qed.

Lemma written_extends W W' r m : extends W W' -> written_at W r m -> written_at W' r m.
Proof.
  intros Hd (Hv & s & Hs & -> & Hp). split; [done|]. exists s. split; [done|]. split; [done|]. intros t Ht.
  destruct (Hp t Ht) as [Hpt Hroot]. split; [by eapply persisted_mono|by apply Hd].
Qed.

Lemma holds_is_node t m : holds L (Some t) m -> is_node t = true.
Proof. intros Hs. pose proof (holds_wf _ _ _ Hs t eq_refl) as Hw. by destruct Hw. Qed.

(** A root is read back. *)
Lemma GetNode_readable db r m :
  stored_at db r m -> r <> emptyRoot ->
  exists n, GetNode db r = Some (Ok (Some n)) /\ committed db (of_db db) (mkTrie (Some n) 0) m.
Proof.
  intros (Hv & s & Hs & -> & Hp) Hne. destruct s as [t|]; [|done].
  pose proof (holds_is_node _ _ Hs) as Hn. destruct (Hp t eq_refl) as [Hpt Hroot].
  assert (Hw : wf t) by (by apply (holds_wf _ _ _ Hs)). pose proof (holds_vals_ok _ _ Hs Hv) as Hvt.
  destruct (GetNode_decodes db t Hn) as (n & Hg & Hu); [by apply node_value_ok|done|by apply decode_ok|].
  exists n. split; [done|]. split; [|done]. by exists (Some t).
Qed.

Lemma holds_None m : holds L None m -> m = ∅.
Proof.
  intros Hs. apply map_eq. intros b. rewrite lookup_empty. destruct (m !! b) as [v|] eqn:E; [|done].
  destruct (holds_dom _ _ _ Hs _ _ E) as [Hb _]. by rewrite <- (holds_lookup _ _ _ _ Hs Hb) in E.
Qed.

(** Hashing a transaction. *)
Lemma Hash_working db W t m :
  working db W t m ->
  exists r puts t', trie_Hash t = Some (r, puts, t') /\ root_of m r /\
    (forall k d, (k, d) ∈ puts -> node_of m d /\ k = keccak256 d) /\
    x_epoch t' = x_epoch t /\
    forall W', extends W W' -> in_batch puts W' ->
      committed db W' (trie_Commit t') m /\ written_at W' r m.
Proof.
  intros ((s & Hu & Hs) & Hv & He).
  assert (Hu' : unf_opt db (cached W (x_epoch t)) (hash_ok W) (x_root t) s).
  { destruct (x_root t), s; try done. eapply unf_mono; [by intros ? ?| |done|exact Hu]. intros h e u (Hh & He' & _). by split. }
  destruct (Hash_ok db W t s _ Hu') as (puts & t' & Hh & He' & Hputs & Hdb); [intros u ->; by eapply holds_is_node|].
  exists (merkle s), puts, t'. split; [done|]. split; [by exists s|]. split.
  - intros k d Hi. destruct (Hputs k d Hi) as (u & w & -> & Hsub & Hn & -> & ->). split; [by exists u, w|done].
  - split; [done|]. intros W' Hd Hp. destruct (Hdb W' Hd Hp) as [Hun Hper]. split.
    + split; [|cbn; by rewrite He']. exists s. cbn. by rewrite He'.
    + split; [done|]. exists s. done.
Qed.

(** ** Writing batches *)

Lemma batch_Write_other puts db k :
  (forall d, (k, d) ∉ puts) -> batch_Write puts db k = db k.
Proof.
  revert db. induction puts as [|[k' d'] puts IH]; intros db Hn; [done|]. cbn. unfold batch_Write in IH.
  rewrite IH by (intros d Hd; apply (Hn d); by constructor). unfold st_Put. cbn.
  rewrite decide_False; [done|]. intros ->. apply (Hn d'). constructor.
Qed.

Lemma batch_Write_in puts db k d :
  (k, d) ∈ puts -> (forall d', (k, d') ∈ puts -> d' = d) -> batch_Write puts db k = Some d.
Proof.
  induction puts as [|[k' d'] puts IH] using rev_ind; intros Hi Hf; [by apply not_elem_of_nil in Hi|].
  unfold batch_Write. rewrite foldl_app. cbn. unfold st_Put at 1. case_decide as Hk.
  - f_equal. apply Hf. subst. apply elem_of_app. right. by apply list_elem_of_singleton.
  - apply IH; [|intros x Hx; apply Hf, elem_of_app; by left].
    apply elem_of_app in Hi as [Hi|Hi%list_elem_of_singleton]; [done|]. by simplify_eq.
Qed.

(** No key has two entries, the hash of the empty trie none. *)
Definition functional (W : written) : Prop := forall k d d', W k d -> W k d' -> d = d'.
Definition sound (W : written) : Prop := functional W /\ forall d, ~ W emptyRoot d.
Definition with_puts (W : written) (puts : batch) : written := fun k d => W k d \/ (k, d) ∈ puts.

Lemma sound_extends W W' : extends W W' -> sound W' -> sound W.
Proof. intros He [Hf Hn]. split; [intros k d d' Hd Hd'; eapply Hf; eauto|intros d Hd; eapply Hn; eauto]. Qed.

Lemma batch_Write_ok puts db :
  functional (with_puts (of_db db) puts) ->
  extends (of_db db) (of_db (batch_Write puts db)) /\ in_batch puts (of_db (batch_Write puts db)) /\
  extends (of_db (batch_Write puts db)) (with_puts (of_db db) puts).
Proof.
  intros Hf.
  assert (Hin : forall k d, (k, d) ∈ puts -> batch_Write puts db k = Some d).
  { intros k d Hi. apply batch_Write_in; [done|]. intros d' Hi'. by apply (Hf k); right. }
  assert (Hcase : forall k, (exists d, (k, d) ∈ puts) \/ forall d, (k, d) ∉ puts).
  { intros k. destruct (decide (k ∈ fst <$> puts)) as [Hk|Hk].
    - apply list_elem_of_fmap in Hk as ([k' d] & -> & Hi). left. by exists d.
    - right. intros d Hi. apply Hk, list_elem_of_fmap. by exists (k, d). }
  split_and!; [|done|].
  - intros k d Hk. unfold of_db in *. destruct (Hcase k) as [[d' Hi]|Hn]; [|by rewrite batch_Write_other].
    rewrite (Hin _ _ Hi). f_equal. apply (Hf k); [by right|by left].
  - intros k d Hk. unfold of_db in *. destruct (Hcase k) as [[d' Hi]|Hn].
    + rewrite (Hin _ _ Hi) in Hk. simplify_eq. by right.
    + left. by rewrite batch_Write_other in Hk.
Qed.

(** ** A root determines the trie *)

Lemma compact_inj p q :
  Forall nibble p \/ key_ok p -> Forall nibble q \/ key_ok q -> encodeCompact p = encodeCompact q -> p = q.
Proof. intros Hp Hq He. apply compact_decode in Hp, Hq. congruence. Qed.

Lemma encoding_inj t u :
  value_ok (node_value t) -> value_ok (node_value u) -> encoding t = encoding u ->
  norm (node_value t) = norm (node_value u).
Proof. intros Ht Hu He. apply Parse_MarshalTo in Ht, Hu. unfold encoding in He. congruence. Qed.

Lemma norm_node t : is_node t = true -> exists l, norm (node_value t) = RArray l.
Proof. destruct t; [done|by eexists..]. Qed.

Lemma reference_inj W t u :
  functional W -> persisted W t -> persisted W u -> is_node t = true -> is_node u = true ->
  value_ok (node_value t) -> value_ok (node_value u) ->
  norm (reference t) = norm (reference u) -> norm (node_value t) = norm (node_value u).
Proof.
  intros Hf Ht Hu Hnt Hnu Hvt Hvu. rewrite !reference_eq.
  destruct (norm_node t Hnt) as [lt Elt], (norm_node u Hnu) as [lu Elu].
  destruct (big t) eqn:Et, (big u) eqn:Eu; cbn [norm]; [|congruence..]. intros [= He]. apply encoding_inj; [done|done|].
  apply (Hf (digest t)); [apply Ht; [constructor|done]|]. rewrite He. apply Hu; [constructor|done].
Qed.

(** The stored form of a slot is empty exactly when the slot is. *)
Lemma slot_norm_nil i o :
  (forall t, o = Some t -> slot_wf i t /\ vals_ok t) -> norm (slot_value o) = RBytes [] -> o = None.
Proof.
  destruct o as [t|]; [|done]. intros Ho. destruct (Ho t eq_refl) as [Hs Hv]. cbn [slot_value]. intros He. exfalso.
  destruct Hs as [[_ Hw]|[_ [v ->]]].
  - rewrite reference_eq in He. destruct (big t).
    + injection He as He. pose proof (keccak256_length (encoding t)) as Hl. unfold digest in He. by rewrite He in Hl.
    + destruct Hw; discriminate He.
  - injection He as ->. by destruct (Hv [] ltac:(constructor)).
Qed.

Lemma pair_not_full x y (slots : list (option trie)) :
  length slots = 17%nat -> RArray [x; y] <> RArray (map norm (map slot_value slots)).
Proof. intros Hl [= He]. apply (f_equal length) in He. rewrite !length_map in He. cbn in He. lia. Qed.

Lemma node_value_inj W t : wf t -> functional W -> forall u, wf u -> vals_ok t -> vals_ok u ->
  persisted W t -> persisted W u -> norm (node_value t) = norm (node_value u) -> t = u.
Proof.
  intros Hw Hinj. pose proof Hw as Hw0. revert Hw0.
  induction Hw as [p w Hp|p slots Hp Hnp Hw IH|slots i j t u Hlen Hij Hi Hj Hw IH Hv];
    intros Hw0 u' Hwu Hvt Hvu Hdt Hdu He;
    inversion Hwu as [q w' Hq|q slots' Hq Hnq Hwq|slots' i' j' t' u'' Hlen' Hij' Hi' Hj' Hw' Hv']; subst; cbn [node_value norm map] in He.
  - injection He as He ->. f_equal. apply compact_inj; [by right|by right|done].
  - exfalso. injection He as He _. apply compact_inj in He; [|by right|by left]. subst q.
    rewrite <- (app_nil_r p) in Hnq. by eapply key_not_nibbles.
  - by destruct (pair_not_full _ _ slots' Hlen' He).
  - exfalso. injection He as He _. apply compact_inj in He; [|by left|by right]. subst q.
    rewrite <- (app_nil_r p) in Hnp. by eapply key_not_nibbles.
  - injection He as Hpq He. apply compact_inj in Hpq as ->; [|by left|by left]. f_equal.
    apply vals_ok_ext in Hvt, Hvu. apply persisted_ext in Hdt, Hdu. apply IH; try done.
    apply (reference_inj W); try done; by apply node_value_ok.
  - by destruct (pair_not_full _ _ slots' Hlen' He).
  - by destruct (pair_not_full _ _ slots Hlen (eq_sym He)).
  - by destruct (pair_not_full _ _ slots Hlen (eq_sym He)).
  - injection He as He. f_equal. apply list_eq. intros n.
    pose proof (proj1 (wf_slots _) Hw0) as (_ & _ & Hs). pose proof (proj1 (wf_slots _) Hwu) as (_ & _ & Hs').
    assert (Hn : (norm ∘ slot_value) <$> slots !! n = (norm ∘ slot_value) <$> slots' !! n).
    { rewrite <- !list_lookup_fmap. f_equal. by rewrite !map_map in He. }
    destruct (slots !! n) as [o|] eqn:Eo, (slots' !! n) as [o'|] eqn:Eo'; try done. cbn in Hn. injection Hn as Hn.
    f_equal. assert (Hside : forall s, o = Some s -> slot_wf n s /\ vals_ok s) by (intros s ->; split; [by apply Hs|by eapply vals_ok_br]).
    assert (Hside' : forall s, o' = Some s -> slot_wf n s /\ vals_ok s) by (intros s ->; split; [by apply Hs'|by eapply vals_ok_br]).
    destruct o as [s|]; [|symmetry; apply (slot_norm_nil n); [done|by rewrite <- Hn]].
    destruct o' as [s'|]; [|apply (slot_norm_nil n); [done|by rewrite Hn]]. f_equal.
    destruct (Hside s eq_refl) as [Hsw Hsv], (Hside' s' eq_refl) as [Hsw' Hsv'].
    destruct Hsw as [[Hlt Hws]|[-> [v ->]]].
    + destruct Hsw' as [[_ Hws']|[-> _]]; [|lia]. apply (persisted_br _ _ _ _ Eo) in Hdt. apply (persisted_br _ _ _ _ Eo') in Hdu.
      apply (IH n s); try done. apply (reference_inj W); try done; try (by apply node_value_ok); by destruct Hws, Hws'.
    + destruct Hsw' as [[? _]|[_ [v' ->]]]; [lia|]. cbn in Hn. by injection Hn as ->.
Qed.

Lemma holds_map s m m' : holds L s m -> holds L s m' -> m = m'.
Proof.
  intros Hm Hm'. apply map_eq. intros b. apply option_eq. intros v.
  split; intros Hb; [destruct (holds_dom _ _ _ Hm _ _ Hb)|destruct (holds_dom _ _ _ Hm' _ _ Hb)];
    by rewrite <- (holds_lookup _ _ _ _ Hm), <- (holds_lookup _ _ _ _ Hm') in * by done.
Qed.

Lemma written_inj W m m' r : sound W -> written_at W r m -> written_at W r m' -> m = m'.
Proof.
  intros [Hf Hne] (Hv & s & Hs & -> & Hp) (Hv' & s' & Hs' & He & Hp').
  destruct s as [t|], s' as [t'|]; cbn [merkle] in He; [|exfalso..|by eapply holds_map].
  - assert (t = t') as ->; [|by eapply holds_map].
    destruct (Hp t eq_refl) as [Hpt Hrt]. destruct (Hp' t' eq_refl) as [Hpt' Hrt']. rewrite <- He in Hrt'.
    pose proof (holds_wf _ _ _ Hs t eq_refl) as Hw. pose proof (holds_wf _ _ _ Hs' t' eq_refl) as Hw'.
    pose proof (holds_vals_ok _ _ Hs Hv). pose proof (holds_vals_ok _ _ Hs' Hv').
    apply (node_value_inj W); try done. apply encoding_inj; [by apply node_value_ok..|]. by eapply Hf.
  - apply (Hne (encoding t)). rewrite <- He. by apply (Hp t).
  - apply (Hne (encoding t')). rewrite He. by apply (Hp' t').
Qed.

Lemma openTrie_stored db r m :
  stored_at db r m -> db emptyRoot = None ->
  exists t, openTrie db r = Some (Ok t) /\ t_epoch t = 0 /\ committed db (of_db db) t m.
Proof.
  intros Hst Hne. unfold openTrie. case_decide as Hd.
  - destruct Hst as (_ & s & Hs & He & Hp). assert (m = ∅) as ->.
    { destruct s as [t|]; [|by apply holds_None]. destruct (Hp t eq_refl) as [_ Hroot]. unfold of_db in Hroot. cbn in He. congruence. }
    exists NewTrie. split; [done|]. split; [done|apply committed_new].
  - destruct (GetNode_readable db r m Hst Hd) as (n & -> & Hc). by eexists.
Qed.

(** ** Scripts of operations *)

Inductive trie_op := TLookup (k : list Z) | TInsert (k v : list Z) | TDelete (k : list Z).

Definition op_ok (op : trie_op) : Prop :=
  match op with
  | TLookup k | TDelete k => bytes_ok k /\ length k = L
  | TInsert k v => (bytes_ok k /\ length k = L) /\ bytes_ok v /\ v <> []
  end.

Fixpoint run_ops db (t : TrieTxn) (ops : list trie_op) : option (list (option (list Z)) * TrieTxn) :=
  match ops with
  | [] => Some ([], t)
  | TLookup k :: ops =>
      match trie_Lookup db t k with
      | Some (r, t) => match run_ops db t ops with Some (rs, t) => Some (r :: rs, t) | None => None end
      | None => None
      end
  | TInsert k v :: ops => match trie_Insert db t k v with Some t => run_ops db t ops | None => None end
  | TDelete k :: ops => match trie_Delete db t k with Some t => run_ops db t ops | None => None end
  end.

Fixpoint map_ops (m : entries) (ops : list trie_op) : list (option (list Z)) * entries :=
  match ops with
  | [] => ([], m)
  | TLookup k :: ops => let '(rs, m') := map_ops m ops in (m !! k :: rs, m')
  | TInsert k v :: ops => map_ops (<[k := v]> m) ops
  | TDelete k :: ops => map_ops (base.delete k m) ops
  end.

Lemma run_ops_ok db W ops : forall t m, working db W t m -> Forall op_ok ops ->
  exists t', run_ops db t ops = Some (fst (map_ops m ops), t') /\ working db W t' (snd (map_ops m ops)).
Proof.
  induction ops as [|op ops IH]; intros t m Hw Hops; [by exists t|]. inversion Hops as [|? ? Hop Hr]; subst.
  destruct op as [k|k v|k]; cbn in Hop |- *.
  - destruct (Lookup_working db W t m k Hw (proj1 Hop)) as (t1 & -> & _ & Hw1).
    destruct (IH t1 m Hw1 Hr) as (t2 & -> & Hw2). destruct (map_ops m ops) as [rs m']. by exists t2.
  - destruct Hop as ([Hk Hl] & Hv & Hne).
    destruct (Insert_working db W t m k v Hw Hk Hl Hv Hne) as (t1 & -> & _ & Hw1). by apply IH.
  - destruct (Delete_working db W t m k Hw (proj1 Hop) (proj2 Hop)) as (t1 & -> & _ & Hw1). by apply IH.
Qed.

(** A block: the root is opened, worked on, hashed, and the batch is written. *)
Definition run_block db (root : list Z) (ops : list trie_op) :
  option (list (option (list Z)) * list Z * (list Z -> option (list Z))) :=
  match openTrie db root with
  | Some (Ok t) =>
      match run_ops db (Trie_Txn t) ops with
      | Some (rs, t) =>
          match trie_Hash t with
          | Some (root, puts, _) => Some (rs, root, batch_Write puts db)
          | None => None
          end
      | None => None
      end
  | _ => None
  end.

(** The nodes of some maps, under their hashes. *)
Definition nodes_in (ms : list entries) : written := fun k d => k = keccak256 d /\ exists m, m ∈ ms /\ node_of m d.

(** No two of these nodes have one hash, and none has that of the empty trie. *)
Definition collision_free (ms : list entries) : Prop := sound (nodes_in ms).

Lemma addressed_empty ms db : collision_free ms -> extends (of_db db) (nodes_in ms) -> db emptyRoot = None.
Proof. intros [_ Hn] He. destruct (db emptyRoot) as [d|] eqn:E; [|done]. by destruct (Hn d (He _ _ E)). Qed.

Lemma run_block_ok db root m ops ms :
  collision_free ms -> extends (of_db db) (nodes_in ms) -> snd (map_ops m ops) ∈ ms ->
  stored_at db root m -> Forall op_ok ops ->
  exists root' db', run_block db root ops = Some (fst (map_ops m ops), root', db') /\
    extends (of_db db) (of_db db') /\ extends (of_db db') (nodes_in ms) /\ stored_at db' root' (snd (map_ops m ops)).
Proof.
  intros Hcf Had Hm' Hst Hops. unfold run_block.
  destruct (openTrie_stored db root m Hst) as (t & -> & He & Hc); [by eapply addressed_empty|].
  assert (Hw : working db (of_db db) (Trie_Txn t) m) by (apply Txn_working; [done|by rewrite He]).
  destruct (run_ops_ok db _ ops _ _ Hw Hops) as (t1 & -> & Hw1).
  destruct (Hash_working db _ t1 _ Hw1) as (r & puts & t2 & -> & _ & Hp & _ & Hdb).
  assert (Hputs : extends (with_puts (of_db db) puts) (nodes_in ms)).
  { intros k d [Hk|Hi]; [by apply Had|]. destruct (Hp k d Hi) as [Hd ->]. split; [done|by eexists]. }
  destruct (batch_Write_ok puts db) as (Hext & Hin & Hback).
  { exact (proj1 (sound_extends _ _ Hputs Hcf)). }
  eexists _, _. split; [done|]. split; [done|]. split; [|by apply Hdb]. intros k d Hk. by apply Hputs, Hback.
Qed.
End Db.
