(* ===== verification/TrieSample.v ===== *)
(** * A serialisation with the laws of the RLP library

    A self-delimiting encoding of RLP trees and a parser for it. [FastrlpLaws]
    holds of them, so the theorems on tries are about something. *)

From S2P Require Import Prelude ChainTypes BigInt Runtime Rlp.
Local Open Scope go_scope.

(** A length as that many ones and a zero. *)
Definition unary (n : nat) : list Z := replicate n 1 ++ [0].

Fixpoint count (d : list Z) : option (nat * list Z) :=
  match d with
  | 0 :: d => Some (O, d)
  | 1 :: d => match count d with Some (n, d) => Some (S n, d) | None => None end
  | _ => None
  end.

Lemma count_unary n rest : count (unary n ++ rest) = Some (n, rest).
Proof. unfold unary. induction n as [|n IH]; [done|]. cbn in *. by rewrite IH. Qed.

Fixpoint ser (r : rlp) : list Z :=
  match r with
  | RBytes b => 128 :: unary (length b) ++ b
  | RArray l => 192 :: unary (length l) ++ concat (map ser l)
  end.

Fixpoint many (p : list Z -> option (rlp * list Z)) (n : nat) (d : list Z) : option (list rlp * list Z) :=
  match n with
  | O => Some ([], d)
  | S n =>
      match p d with
      | Some (r, d) => match many p n d with Some (l, d) => Some (r :: l, d) | None => None end
      | None => None
      end
  end.

Fixpoint parse (fuel : nat) (d : list Z) : option (rlp * list Z) :=
  match fuel, d with
  | S fuel, tag :: d =>
      match count d with
      | None => None
      | Some (n, d) =>
          if tag =? 128 then if (n <=? length d)%nat then Some (RBytes (take n d), drop n d) else None
          else match many (parse fuel) n d with Some (l, d) => Some (RArray l, d) | None => None end
      end
  | _, _ => None
  end.

Lemma many_ser p l rest :
  (forall x rest, x ∈ l -> p (ser x ++ rest) = Some (x, rest)) ->
  many p (length l) (concat (map ser l) ++ rest) = Some (l, rest).
Proof.
  induction l as [|x l IH]; intros Hp; [done|]. cbn. rewrite <- app_assoc, Hp by in_list.
  rewrite IH; [done|]. intros y r Hy. apply Hp. by constructor.
Qed.

Lemma ser_elem l x : x ∈ l -> (length (ser x) <= length (concat (map ser l)))%nat.
Proof. induction 1 as [x l|x y l Hx IH]; cbn; rewrite length_app; lia. Qed.

Lemma parse_ser fuel r rest : (length (ser r) <= fuel)%nat -> parse fuel (ser r ++ rest) = Some (r, rest).
Proof.
  revert r rest. induction fuel as [|fuel IH]; intros [b|l] rest Hl; cbn in Hl; try lia;
    cbn; rewrite <- app_assoc, count_unary.
  - cbn. rewrite (proj2 (Nat.leb_le _ _)) by (rewrite length_app; lia).
    by rewrite take_app_length, drop_app_length.
  - cbn. rewrite many_ser; [done|]. intros x r Hx. apply IH. apply ser_elem in Hx. rewrite length_app in Hl. lia.
Qed.

Lemma unary_bytes n : bytes_ok (unary n).
Proof. apply Forall_app. split; [apply Forall_replicate|repeat constructor]; unfold byte_ok; lia. Qed.

Lemma ser_bytes : forall v, value_ok v -> bytes_ok (ser (norm v)).
Proof.
  fix go 1. intros v Hv.
  assert (Hstr : forall b, bytes_ok b -> bytes_ok (ser (RBytes b))).
  { intros b Hb. constructor; [unfold byte_ok; lia|]. apply Forall_app. split; [apply unary_bytes|done]. }
  assert (Harr : forall l, bytes_ok (concat (map ser l)) -> bytes_ok (ser (RArray l))).
  { intros l Hl. constructor; [unfold byte_ok; lia|]. apply Forall_app. split; [apply unary_bytes|done]. }
  destruct v as [n|z|b| |b|l|]; cbn [norm].
  - apply Hstr, Bytes_ok.
  - apply Hstr, Bytes_ok.
  - by apply Hstr.
  - apply Hstr. constructor.
  - apply Hstr. destruct b; repeat constructor; unfold byte_ok; lia.
  - apply Harr. clear Hstr Harr. induction l as [|x l IH]; [constructor|].
    destruct Hv as [Hx Hl]. cbn. apply Forall_app. split; [by apply go|by apply IH].
  - apply Harr. constructor.
Qed.

#[global] Instance ser_codec : Codec := {|
  fastrlp_MarshalTo := fun v => ser (norm v);
  keccak256 := fun l => be_bytes 32 (foldl (fun acc x => Z.land (acc * 16777619 + x + 7) 0xffffffffffffffffffffffffffffffffffffffffffffffffffffffffffffffff) 0 l) |}.

#[global] Instance ser_codec_laws : CodecLaws.
Proof. split; intros b; [apply (be_bytes_length 32)|apply (be_bytes_ok 32)]. Qed.

#[global] Instance ser_rlp : Fastrlp := {|
  fastrlp_Parse := fun d => match parse (length d) d with Some (r, []) => Some r | _ => None end;
  fastrlp_Len := fun v => match v with VBytes b => Z.of_nat (length b) | _ => Z.of_nat (length (ser (norm v))) end;
  rlp_GetUint64 := fun r => match r with RBytes b => Some (be_val b) | _ => None end;
  rlp_GetBigInt := fun r => match r with RBytes b => Some (be_val b) | _ => None end;
  rlp_GetHash := fun r => match r with RBytes b => Some (BytesToHash b) | _ => None end;
  rlp_GetAddr := fun r => match r with RBytes b => Some (BytesToAddress b) | _ => None end;
  rlp_GetBytes := fun r => match r with RBytes b => Some b | _ => None end;
  rlp_GetBytesN := fun n r =>
    match r with RBytes b => if (length b =? n)%nat then Some b else None | _ => None end;
  rlp_Bytes := fun r => match r with RBytes b => Some b | _ => None end;
  parser_Hash := fun _ r => be_val (keccak256 (ser r)) |}.

#[global] Instance ser_rlp_laws : FastrlpLaws.
Proof.
  split.
  - intros v _. cbn. pose proof (parse_ser (length (ser (norm v))) (norm v) [] (le_n _)) as Hp.
    rewrite app_nil_r in Hp. by rewrite Hp.
  - apply ser_bytes.
  - intros v. cbn. by destruct (norm v).
  - intros l. eexists _, _. split; [reflexivity|lia].
  - done.
  - intros z Hz. cbn -[Bytes]. rewrite be_val_Bytes. f_equal. lia.
  - intros h Hh. change (Some (BytesToHash (be_bytes 32 h)) = Some h). f_equal. unfold BytesToHash, word in *.
    rewrite be_val_last_bytes, be_val_bytes by apply be_bytes_ok.
    change (256 ^ Z.of_nat 32) with (2 ^ 256). by rewrite Z.mod_mod, Z.mod_small by lia.
  - intros a Ha. change (Some (BytesToAddress (be_bytes 20 a)) = Some a). f_equal. unfold BytesToAddress, addr_ok in *.
    rewrite be_val_last_bytes, be_val_bytes by apply be_bytes_ok.
    change (256 ^ Z.of_nat 20) with (2 ^ 160). by rewrite Z.mod_mod, Z.mod_small by lia.
  - done.
  - intros b. cbn. by rewrite Nat.eqb_refl.
  - done.
  - done.
Qed.
