(* ===== verification/TrieProps.v ===== *)
(** * Theorems on tries

    Blocks of operations on a database of tries behave as on a finite map, every
    root stays readable, and roots and maps determine each other. Compact keys
    round-trip. *)

From S2P Require Import Prelude ChainTypes BigInt Runtime Rlp Trie TriePure TrieRefine TrieHash TrieDb TrieSample.
Local Open Scope go_scope.

Section Blocks.
Context `{Fastrlp} `{!CodecLaws} `{!FastrlpLaws}.

Fixpoint run_blocks (db : list Z -> option (list Z)) (root : list Z) (blocks : list (list trie_op)) :
  option (list (list (option (list Z))) * list Z * (list Z -> option (list Z))) :=
  match blocks with
  | [] => Some ([], root, db)
  | ops :: blocks =>
      match run_block db root ops with
      | Some (rs, root, db) =>
          match run_blocks db root blocks with
          | Some (rss, root, db) => Some (rs :: rss, root, db)
          | None => None
          end
      | None => None
      end
  end.

Fixpoint map_blocks (m : entries) (blocks : list (list trie_op)) : list (list (option (list Z))) * entries :=
  match blocks with
  | [] => ([], m)
  | ops :: blocks =>
      let '(rs, m) := map_ops m ops in
      let '(rss, m) := map_blocks m blocks in
      (rs :: rss, m)
  end.

Fixpoint history (m : entries) (blocks : list (list trie_op)) : list entries :=
  m :: match blocks with [] => [] | ops :: blocks => history (snd (map_ops m ops)) blocks end.

Lemma history_head m blocks : m ∈ history m blocks.
Proof. destruct blocks; constructor. Qed.

Lemma history_last m blocks : snd (map_blocks m blocks) ∈ history m blocks.
Proof.
  revert m. induction blocks as [|ops blocks IH]; intros m; [constructor|]. cbn.
  destruct (map_ops m ops) as [rs m1]. specialize (IH m1). destruct (map_blocks m1 blocks) as [rss m2]. by constructor.
Qed.

(** All maps of the history are in the database, under their roots. *)
Lemma run_blocks_ok L ms blocks : forall db root m,
  collision_free L ms -> (forall m', m' ∈ history m blocks -> m' ∈ ms) -> extends (of_db db) (nodes_in L ms) ->
  stored_at L db root m -> Forall (Forall (op_ok L)) blocks ->
  exists root' db', run_blocks db root blocks = Some (fst (map_blocks m blocks), root', db') /\
    extends (of_db db) (of_db db') /\ extends (of_db db') (nodes_in L ms) /\
    stored_at L db' root' (snd (map_blocks m blocks)) /\
    forall m', m' ∈ history m blocks -> exists r, stored_at L db' r m'.
Proof.
  induction blocks as [|ops blocks IH]; intros db root m Hcf Hms Had Hst Hops.
  - exists root, db. split; [done|]. split; [by intros ? ?|]. split; [done|]. split; [done|].
    intros m' ->%list_elem_of_singleton. by exists root.
  - inversion Hops as [|? ? Hop Hr]; subst.
    assert (Hm1 : snd (map_ops m ops) ∈ ms) by (apply Hms; cbn; right; apply history_head).
    destruct (run_block_ok L db root m ops ms Hcf Had Hm1 Hst Hop)
      as (r1 & db1 & He1 & Hx1 & Had1 & Hst1).
    destruct (IH db1 r1 _ Hcf (fun m' Hm' => Hms m' (list_elem_of_further _ _ _ Hm')) Had1 Hst1 Hr) as (r2 & db2 & He2 & Hx2 & Had2 & Hst2 & Hall).
    exists r2, db2. cbn. rewrite He1, He2. destruct (map_ops m ops) as [rs m1]. cbn in *.
    destruct (map_blocks m1 blocks) as [rss m2]. split; [done|]. split; [by intros k d Hk; apply Hx2, Hx1|].
    split; [done|]. split; [done|]. intros m' [->|Hm']%elem_of_cons; [|by apply Hall].
    exists root. eapply written_extends; [|exact Hst]. by intros k d Hk; apply Hx2, Hx1.
Qed.

Definition emptyDb : list Z -> option (list Z) := fun _ => None.

Lemma stored_root L db r m : stored_at L db r m -> root_of L m r /\ values_ok m.
Proof. intros (Hv & s & Hs & -> & _). split; [by exists s|done]. Qed.

(** From the empty database. *)
Lemma run_from_empty L ms blocks :
  collision_free L ms -> (forall m', m' ∈ history ∅ blocks -> m' ∈ ms) -> Forall (Forall (op_ok L)) blocks ->
  exists root db, run_blocks emptyDb emptyRoot blocks = Some (fst (map_blocks ∅ blocks), root, db) /\
    extends (of_db db) (nodes_in L ms) /\ stored_at L db root (snd (map_blocks ∅ blocks)) /\
    forall m, m ∈ history ∅ blocks -> exists r, stored_at L db r m.
Proof.
  intros Hcf Hms Hops.
  destruct (run_blocks_ok L ms blocks emptyDb emptyRoot ∅ Hcf Hms) as (r & db & He & _ & Had & Hst & Hall); [done| |done|].
  - apply written_empty.
  - by exists r, db.
Qed.

(** C4. A database of tries, written block by block (the last root opened, any
    lookups, insertions and deletions of [L]-byte keys in one transaction, the root
    hashed, the batch written), never fails and answers every lookup as the finite
    map does; afterwards the map of every block of the past can still be read from
    its root. Only hash collisions among the nodes of these tries are excluded. *)
Theorem trie_database L blocks :
  Forall (Forall (op_ok L)) blocks -> collision_free L (history ∅ blocks) ->
  exists root db, run_blocks emptyDb emptyRoot blocks = Some (fst (map_blocks ∅ blocks), root, db) /\
    root_of L (snd (map_blocks ∅ blocks)) root /\
    forall m, m ∈ history ∅ blocks -> exists r t,
      root_of L m r /\ openTrie db r = Some (Ok t) /\
      forall k, bytes_ok k -> exists t', Trie_Get db t k = Some (m !! k, t').
Proof.
  intros Hops Hcf. destruct (run_from_empty L _ blocks Hcf (fun _ Hm => Hm) Hops) as (r & db & He & Had & Hst & Hall).
  exists r, db. split; [done|]. split; [by eapply stored_root|]. intros m Hm. destruct (Hall m Hm) as (r' & Hst').
  destruct (openTrie_stored L db r' m Hst') as (t & Ht & _ & Hc); [by eapply addressed_empty|].
  exists r', t. split; [by eapply stored_root|]. split; [done|]. intros k Hk.
  destruct (Get_committed L db _ t m k Hc Hk) as (t' & Hg & _). by exists t'.
Qed.

(** C5. Roots commit to contents: two histories of blocks, whatever was inserted,
    deleted and reopened on the way, end with the same root exactly when they end
    with the same entries. *)
Theorem root_commits L blocks1 blocks2 r1 r2 rs1 rs2 db1 db2 :
  Forall (Forall (op_ok L)) blocks1 -> Forall (Forall (op_ok L)) blocks2 ->
  collision_free L (history ∅ blocks1 ++ history ∅ blocks2) ->
  run_blocks emptyDb emptyRoot blocks1 = Some (rs1, r1, db1) ->
  run_blocks emptyDb emptyRoot blocks2 = Some (rs2, r2, db2) ->
  r1 = r2 <-> snd (map_blocks ∅ blocks1) = snd (map_blocks ∅ blocks2).
Proof.
  intros Hops1 Hops2 Hcf He1 He2. set (ms := history ∅ blocks1 ++ history ∅ blocks2) in *.
  assert (Hin1 : forall m, m ∈ history ∅ blocks1 -> m ∈ ms) by (intros; apply elem_of_app; by left).
  assert (Hin2 : forall m, m ∈ history ∅ blocks2 -> m ∈ ms) by (intros; apply elem_of_app; by right).
  destruct (run_from_empty L ms blocks1 Hcf Hin1 Hops1) as (r & db & He & Had1 & Hst1 & _). rewrite He in He1. simplify_eq.
  destruct (run_from_empty L ms blocks2 Hcf Hin2 Hops2) as (r & db & He' & Had2 & Hst2 & _). rewrite He' in He2. simplify_eq.
  split.
  - intros ->. exact (written_inj L _ _ _ _ Hcf (written_extends L _ _ _ _ Had1 Hst1) (written_extends L _ _ _ _ Had2 Hst2)).
  - intros Hm. apply stored_root in Hst1 as [Hr1 _], Hst2 as [Hr2 _]. rewrite Hm in Hr1. by eapply root_of_fun.
Qed.
End Blocks.

(** ** Examples

    Absence of collisions is decided on the tries themselves. *)

Section Decide.
Context `{Fastrlp} `{!CodecLaws} `{!FastrlpLaws}.

Fixpoint subs (t : trie) : list trie :=
  t :: match t with
       | Val _ => []
       | Ext _ c => subs c
       | Br slots => concat (map (fun o => match o with Some t => subs t | None => [] end) slots)
       end.

Lemma sub_subs u t : sub u t -> u ∈ subs t.
Proof.
  induction 1 as [t|u p c Hs IH|u slots i t Hi Hs IH]; [destruct t; constructor|by constructor|].
  cbn. right. apply list_elem_of_In, in_concat. exists (subs t). split; [|by apply list_elem_of_In].
  apply in_map_iff. exists (Some t). split; [done|]. apply list_elem_of_In. by eapply list_elem_of_lookup_2.
Qed.

(** The tries of a history. *)
Definition pure_op (s : option trie) (op : trie_op) : option trie :=
  match op with
  | TLookup _ => s
  | TInsert k v => Some (sinsert s (bytesToHexNibbles k) v)
  | TDelete k => sdelete s (bytesToHexNibbles k)
  end.

Fixpoint tries (s : option trie) (blocks : list (list trie_op)) : list (option trie) :=
  s :: match blocks with [] => [] | ops :: blocks => tries (foldl pure_op s ops) blocks end.

Lemma pure_ops_holds L ops : forall s m, holds L s m -> Forall (op_ok L) ops ->
  holds L (foldl pure_op s ops) (snd (map_ops m ops)).
Proof.
  induction ops as [|op ops IH]; intros s m Hs Hops; [done|]. inversion Hops as [|? ? Hop Hr]; subst.
  destruct op as [k|k v|k]; cbn in Hop |- *.
  - specialize (IH s m Hs Hr). by destruct (map_ops m ops).
  - destruct Hop as [[Hk Hl] _]. apply IH; [by apply holds_insert|done].
  - destruct Hop as [Hk Hl]. apply IH; [by apply holds_delete|done].
Qed.

Lemma tries_holds L blocks : forall s m, holds L s m -> Forall (Forall (op_ok L)) blocks ->
  Forall2 (holds L) (tries s blocks) (history m blocks).
Proof.
  induction blocks as [|ops blocks IH]; intros s m Hs Hops; cbn; [by constructor; [|constructor]|].
  inversion Hops; subst. constructor; [done|]. apply IH; [by apply pure_ops_holds|done].
Qed.

Definition encodings (ts : list (option trie)) : list (list Z) :=
  concat (map (fun s => match s with Some t => map encoding (List.filter is_node (subs t)) | None => [] end) ts).

Definition check_free (ds : list (list Z)) : bool :=
  let hs := map (fun d => (d, keccak256 d)) ds in
  forallb (fun x => forallb (fun y => negb (bool_decide (snd x = snd y)) || bool_decide (fst x = fst y)) hs) hs &&
  forallb (fun x => negb (bool_decide (snd x = emptyRoot))) hs.

Lemma collision_free_check L ts ms :
  Forall2 (holds L) ts ms -> check_free (encodings ts) = true -> collision_free L ms.
Proof.
  intros Hf [Hc1 Hc2]%andb_true_iff. rewrite forallb_forall in Hc1. rewrite forallb_forall in Hc2.
  assert (Hin : forall k d, nodes_in L ms k d -> k = keccak256 d /\ In (d, keccak256 d) (map (fun d => (d, keccak256 d)) (encodings ts))).
  { intros k d (-> & m & [i Hm]%list_elem_of_lookup & t & u & Ht & Hu & Hn & ->).
    destruct (Forall2_lookup_r _ _ _ _ _ Hf Hm) as (s & Hs & Hh). rewrite (holds_unique _ _ _ _ Hh Ht) in Hs.
    split; [done|]. apply in_map_iff. exists (encoding u). split; [done|]. apply in_concat. eexists. split.
    - apply in_map_iff. exists (Some t). split; [done|]. apply list_elem_of_In. by eapply list_elem_of_lookup_2.
    - apply in_map, filter_In. split; [apply list_elem_of_In; by apply sub_subs|done]. }
  split.
  - intros k d d' [-> Hd]%Hin [He Hd']%Hin. specialize (Hc1 _ Hd). rewrite forallb_forall in Hc1. specialize (Hc1 _ Hd').
    cbn in Hc1. rewrite He, bool_decide_true in Hc1 by done. by apply bool_decide_eq_true in Hc1.
  - intros d [He Hd]%Hin. specialize (Hc2 _ Hd). cbn in Hc2. by rewrite bool_decide_true in Hc2.
Qed.
End Decide.

Definition sample_blocks : list (list trie_op) :=
  [[TInsert [0x12; 0x34] (replicate 20 1); TInsert [0x12; 0x35] [2]; TInsert [0x12; 0x74] (replicate 33 3); TLookup [0x12; 0x35]];
   [TDelete [0x12; 0x34]; TInsert [0xff; 0] (replicate 20 4); TLookup [0x12; 0x74]; TLookup [0x12; 0x34]];
   [TDelete [0xff; 0]; TDelete [0x12; 0x35]; TInsert [0x12; 0x35] [2]; TDelete [0; 0]]].

Definition sample_other : list (list trie_op) :=
  [[TInsert [0x12; 0x35] [9]; TInsert [0x12; 0x74] (replicate 33 3)]; [TInsert [0x12; 0x35] [2]]].

Ltac ops_ok := repeat (apply List.Forall_cons || apply List.Forall_nil || split || discriminate ||
                       (unfold byte_ok; lia) || reflexivity).

Lemma sample_ok : Forall (Forall (op_ok 2)) sample_blocks /\ Forall (Forall (op_ok 2)) sample_other.
Proof. split; cbn; ops_ok. Qed.
Lemma sample_free : collision_free 2 (history ∅ sample_blocks ++ history ∅ sample_other).
Proof.
  apply (collision_free_check 2 (tries None sample_blocks ++ tries None sample_other)).
  - destruct sample_ok. apply Forall2_app; apply tries_holds; try done; apply holds_empty.
  - vm_compute. reflexivity.
Qed.

Lemma collision_free_mono `{Fastrlp} L ms ms' :
  (forall m, m ∈ ms -> m ∈ ms') -> collision_free L ms' -> collision_free L ms.
Proof.
  intros Hms. apply sound_extends. intros k d (-> & m & Hm & Hd). split; [done|]. exists m. auto.
Qed.

Lemma trie_database_witness :
  exists root db, run_blocks emptyDb emptyRoot sample_blocks = Some ([[Some [2]]; [Some (replicate 33 3); None]; []], root, db).
Proof.
  destruct (trie_database 2 sample_blocks) as (root & db & He & _).
  - apply sample_ok.
  - eapply collision_free_mono; [|exact sample_free]. intros m Hm. apply elem_of_app. by left.
  - exists root, db. rewrite He. replace (fst (map_blocks ∅ sample_blocks))
      with [[Some [2]]; [Some (replicate 33 3); None]; []] by (vm_compute; reflexivity). reflexivity.
Defined.

Lemma root_commits_witness :
  exists rs1 rs2 r db1 db2, run_blocks emptyDb emptyRoot sample_blocks = Some (rs1, r, db1) /\
    run_blocks emptyDb emptyRoot sample_other = Some (rs2, r, db2).
Proof.
  destruct sample_ok as [Hok1 Hok2].
  destruct (run_from_empty 2 _ sample_blocks sample_free) as (r1 & db1 & He1 & _);
    [intros m Hm; apply elem_of_app; by left|done|].
  destruct (run_from_empty 2 _ sample_other sample_free) as (r2 & db2 & He2 & _);
    [intros m Hm; apply elem_of_app; by right|done|].
  assert (Hr : r1 = r2).
  { apply (root_commits 2 sample_blocks sample_other r1 r2 _ _ db1 db2 Hok1 Hok2 sample_free He1 He2).
    vm_compute. reflexivity. }
  subst r2. eexists _, _, r1, db1, db2. split; [exact He1|exact He2].
Defined.

(** A path of nibbles, with or without the terminator, is what decoding its
    compact encoding gives, and the encoding is a string of bytes. *)
Theorem compact_roundtrip (k : list Z) :
  Forall nibble k \/ key_ok k -> decodeCompact (encodeCompact k) = Some k /\ bytes_ok (encodeCompact k).
Proof. intros Hk. split; [by apply compact_decode|by apply compact_bytes]. Qed.

Lemma compact_roundtrip_witness :
  decodeCompact (encodeCompact [1; 2; 3]) = Some [1; 2; 3] /\ decodeCompact (encodeCompact [15; 0; 16]) = Some [15; 0; 16].
Proof.
  split; apply compact_roundtrip; [left|right]; repeat constructor; unfold nibble; lia.
Defined.
