(* ===== verification/Snapshot.v ===== *)
(** * Snapshots of the state ([state/immutable-trie]: snapshot.go, state.go;
      [state/state.go]: accounts as RLP)

    The state is the database of trie nodes, the store of contract code and a
    cache of recent tries by root; a snapshot is a trie over it. Entries go to a
    batch that is written at the end of a commit; the batch and the cache are
    explicit. A read may load nodes into the trie it goes through, which changes
    nothing the trie stands for; the model returns the value only. [None] is a
    panic. *)

From S2P Require Import Prelude ChainTypes BigInt Runtime StateTxn Rlp Trie TriePure TrieRefine TrieHash TrieDb.
Local Open Scope go_scope.

Section Snapshot.
Context `{Fastrlp} {C : Type} `{Lru Hash Trie C}.

(** ** Accounts as RLP *)

Definition Account_MarshalWith (a : Account) : Value :=
  VArray [VUint (a_Nonce a); VBigInt (a_Balance a); VBytes (be_bytes 32 (a_Root a)); VBytes (a_CodeHash a)].

Definition Account_UnmarshalRlp (b : list Z) : result unit Account :=
  match fastrlp_Parse b with
  | Some (RArray (nonce :: balance :: root :: codeHash :: _)) =>
      match rlp_GetUint64 nonce, rlp_GetBigInt balance, rlp_GetHash root, rlp_GetBytes codeHash with
      | Some n, Some b, Some r, Some c => Ok (mkAccount n b r c)
      | _, _, _, _ => Err tt
      end
  | _ => Err tt
  end.

(** ** [State] *)

Record State := mkState { s_db : list Z -> option (list Z); s_code : Hash -> option (list Z); s_cache : C }.

Definition set_cache_of (s : State) (c : C) : State := mkState (s_db s) (s_code s) c.

Definition newTrieAt (s : State) (root : Hash) : option (result unit Trie * State) :=
  if root =? emptyStateHash then Some (Ok NewTrie, s)
  else
    match lru_Get (s_cache s) root with
    | (Some t, c) => Some (Ok t, set_cache_of s c)
    | (None, c) =>
        match GetNode (s_db s) (be_bytes 32 root) with
        | None => None
        | Some (Err e) => Some (Err e, set_cache_of s c)
        | Some (Ok None) => Some (Err tt, set_cache_of s c)
        | Some (Ok (Some n)) => Some (Ok (mkTrie (Some n) 0), set_cache_of s c)
        end
    end.

Definition AddState (s : State) (root : Hash) (t : Trie) : State := set_cache_of s (lru_Add (s_cache s) root t).

Definition State_SetCode (s : State) (hash : Hash) (code : list Z) : State :=
  mkState (s_db s) (fun h => if h =? hash then Some code else s_code s h) (s_cache s).

Definition NewState (db : list Z -> option (list Z)) (code : Hash -> option (list Z)) : State :=
  mkState db code (lru_New 128).

Definition NewSnapshotAt (s : State) (root : Hash) : option (result unit Trie * State) := newTrieAt s root.

(** ** Reading a snapshot *)

Definition GetStorage (s : State) (root rawkey : Hash) : option (Hash * State) :=
  match (if root =? emptyStateHash then Some (Ok NewTrie, s) else newTrieAt s root) with
  | None => None
  | Some (Err _, s) => Some (0, s)
  | Some (Ok t, s) =>
      match Trie_Get (s_db s) t (keccak256 (be_bytes 32 rawkey)) with
      | None => None
      | Some (None, _) => Some (0, s)
      | Some (Some val, _) =>
          match fastrlp_Parse val with
          | None => Some (0, s)
          | Some v => match rlp_GetBytes v with None => Some (0, s) | Some res => Some (BytesToHash res, s) end
          end
      end
  end.

Definition GetAccount (s : State) (t : Trie) (addr : Address) : option (result unit (option Account)) :=
  match Trie_Get (s_db s) t (keccak256 (be_bytes 20 addr)) with
  | None => None
  | Some (None, _) => Some (Ok None)
  | Some (Some data, _) =>
      match Account_UnmarshalRlp data with
      | Ok a => Some (Ok (Some a))
      | Err e => Some (Err e)
      end
  end.

(** ** [Commit] *)

(** [bytes.TrimLeft] of zero bytes. *)
Fixpoint TrimLeft (b : list Z) : list Z :=
  match b with
  | 0 :: b => TrimLeft b
  | _ => b
  end.

Definition commit_entry (db : list Z -> option (list Z)) (t : TrieTxn) (e : StorageObject) : option TrieTxn :=
  let k := keccak256 (be_bytes 32 (so_Key e)) in
  if so_Deleted e then trie_Delete db t k
  else trie_Insert db t k (fastrlp_MarshalTo (VBytes (TrimLeft (be_bytes 32 (so_Val e))))).

Fixpoint commit_entries (db : list Z -> option (list Z)) (t : TrieTxn) (l : list StorageObject) : option TrieTxn :=
  match l with
  | [] => Some t
  | e :: l => match commit_entry db t e with Some t => commit_entries db t l | None => None end
  end.

(** The new root of an account, the state with its trie cached, and what goes to
    the batch. *)
Definition commit_storage (s : State) (root : Hash) (l : list StorageObject) :
  option (Hash * State * list (list Z * list Z)) :=
  match newTrieAt s root with
  | Some (Ok t, s) =>
      match commit_entries (s_db s) (Trie_Txn t) l with
      | None => None
      | Some txn =>
          match trie_Hash txn with
          | None => None
          | Some (r, puts, txn) => Some (BytesToHash r, AddState s (BytesToHash r) (trie_Commit txn), puts)
          end
      end
  | _ => None
  end.

Definition commit_object (s : State) (txn : TrieTxn) (obj : Object) :
  option (State * TrieTxn * list (list Z * list Z)) :=
  let k := keccak256 (be_bytes 20 (ob_Address obj)) in
  if ob_Deleted obj then
    match trie_Delete (s_db s) txn k with Some txn => Some (s, txn, []) | None => None end
  else
    match (match ob_Storage obj with
           | [] => Some (ob_Root obj, s, [])
           | l => commit_storage s (ob_Root obj) l
           end) with
    | None => None
    | Some (root, s, puts) =>
        let s := if ob_DirtyCode obj then State_SetCode s (ob_CodeHash obj) (ob_Code obj) else s in
        let account := mkAccount (ob_Nonce obj) (ob_Balance obj) root (be_bytes 32 (ob_CodeHash obj)) in
        match trie_Insert (s_db s) txn k (fastrlp_MarshalTo (Account_MarshalWith account)) with
        | Some txn => Some (s, txn, puts)
        | None => None
        end
    end.

Fixpoint commit_objects (s : State) (txn : TrieTxn) (objs : list Object) :
  option (State * TrieTxn * list (list Z * list Z)) :=
  match objs with
  | [] => Some (s, txn, [])
  | obj :: objs =>
      match commit_object s txn obj with
      | None => None
      | Some (s, txn, p) =>
          match commit_objects s txn objs with
          | None => None
          | Some (s, txn, q) => Some (s, txn, p ++ q)
          end
      end
  end.

(** The new snapshot, its root, and what was written. *)
Definition Commit (s : State) (t : Trie) (objs : list Object) :
  option (Trie * list Z * State * list (list Z * list Z)) :=
  match commit_objects s (Trie_Txn t) objs with
  | None => None
  | Some (s, txn, puts) =>
      match trie_Hash txn with
      | None => None
      | Some (root, more, txn) =>
          let s := mkState (batch_Write (puts ++ more) (s_db s)) (s_code s) (s_cache s) in
          Some (trie_Commit txn, root, AddState s (BytesToHash root) (trie_Commit txn), puts ++ more)
      end
  end.

(** The snapshot as the interface the transaction layer reads from. A panic of a
    read has no counterpart there and is shown as a failed read. *)
Definition snapshot_of (s : State) (t : Trie) : readSnapshot :=
  mkSnapshot
    (fun _ root key => match GetStorage s root key with Some (v, _) => v | None => 0 end)
    (fun addr => match GetAccount s t addr with Some (Ok a) => Ok a | _ => Err 0 end)
    (s_code s).
End Snapshot.
Arguments State : clear implicits.

(** * Commits of the state

    [cache_ok]: every trie in the cache is committed and has all its nodes
    written. [commit_objects] is total and keeps this; the maps of accounts and of
    storage entries change as the objects say. *)
Local Open Scope go_scope.

Section Commit.
Context `{Fastrlp} `{!CodecLaws} `{!FastrlpLaws} {C : Type} `{!Lru Hash Trie C} `{!LruLaws Hash Trie C}.
Implicit Types (s : State C) (db : list Z -> option (list Z)) (W : written).

(** ** Hashes as bytes *)

Lemma be_bytes_hash b : bytes_ok b -> length b = 32%nat -> be_bytes 32 (BytesToHash b) = b.
Proof.
  intros Hb Hl. unfold BytesToHash. rewrite be_val_last_bytes, be_bytes_mod by done. rewrite <- Hl at 1. by apply be_bytes_val.
Qed.

Lemma be_bytes_word r r' : word r -> word r' -> be_bytes 32 r = be_bytes 32 r' -> r = r'.
Proof.
  intros Hr Hr' He. apply (f_equal be_val) in He. rewrite !be_val_bytes in He.
  change (256 ^ Z.of_nat 32) with (2 ^ 256) in He. unfold word in *. by rewrite !Z.mod_small in He.
Qed.

Lemma emptyRoot_bytes r : word r -> be_bytes 32 r = emptyRoot <-> r = emptyStateHash.
Proof. intros Hr. split; [|by intros ->]. apply be_bytes_word; [done|done]. Qed.

(** ** Accounts *)

Definition account_ok (a : Account) : Prop :=
  is_u64 (a_Nonce a) /\ 0 <= a_Balance a /\ word (a_Root a) /\ bytes_ok (a_CodeHash a).

Definition account_data (a : Account) : list Z := fastrlp_MarshalTo (Account_MarshalWith a).

Lemma account_value_ok a : account_ok a -> value_ok (Account_MarshalWith a).
Proof.
  intros (Hn & Hb & Hr & Hc). apply value_ok_array.
  apply Forall_cons. split; [done|]. apply Forall_cons. split; [done|].
  apply Forall_cons. split; [apply be_bytes_ok|]. by apply Forall_singleton.
Qed.

(** What is marshalled is unmarshalled. *)
Lemma Unmarshal_Marshal a : account_ok a -> Account_UnmarshalRlp (account_data a) = Ok a.
Proof.
  intros Ha. unfold Account_UnmarshalRlp, account_data. rewrite Parse_MarshalTo by (by apply account_value_ok).
  destruct Ha as (Hn & Hb & Hr & Hc). cbn -[be_bytes].
  rewrite GetUint64_norm, GetBigInt_norm, GetHash_norm, GetBytes_norm by done. by destruct a.
Qed.

Lemma account_data_ok a : account_ok a -> bytes_ok (account_data a) /\ account_data a <> [].
Proof. intros Ha. split; [by apply MarshalTo_bytes, account_value_ok|apply MarshalTo_nonempty]. Qed.

(** ** Storage values *)

Definition storage_data (v : Hash) : list Z := fastrlp_MarshalTo (VBytes (TrimLeft (be_bytes 32 v))).

Lemma TrimLeft_ok b : bytes_ok b -> bytes_ok (TrimLeft b) /\ be_val (TrimLeft b) = be_val b.
Proof.
  induction 1 as [|x b Hx Hb [IH1 IH2]]; [split; [constructor|done]|].
  assert (Hz : be_val (0 :: b) = be_val b) by done.
  destruct x; cbn [TrimLeft]; [|split; [by constructor|done]..]. by rewrite Hz.
Qed.

Lemma storage_data_ok v : bytes_ok (storage_data v) /\ storage_data v <> [].
Proof.
  split; [|apply MarshalTo_nonempty]. apply MarshalTo_bytes. exact (proj1 (TrimLeft_ok _ (be_bytes_ok 32 v))).
Qed.

Lemma storage_data_parse v :
  word v -> exists r b, fastrlp_Parse (storage_data v) = Some r /\ rlp_GetBytes r = Some b /\ BytesToHash b = v.
Proof.
  intros Hv. destruct (TrimLeft_ok (be_bytes 32 v) (be_bytes_ok 32 v)) as [Hb He].
  exists (RBytes (TrimLeft (be_bytes 32 v))), (TrimLeft (be_bytes 32 v)).
  split; [exact (Parse_MarshalTo (VBytes _) Hb)|]. split; [apply GetBytes_norm|].
  unfold BytesToHash. rewrite be_val_last_bytes, He, be_val_bytes by done.
  change (256 ^ Z.of_nat 32) with (2 ^ 256). unfold word in Hv. by rewrite Z.mod_mod, Z.mod_small by lia.
Qed.

Definition hkey (k : Hash) : list Z := keccak256 (be_bytes 32 k).
Definition haddr (a : Address) : list Z := keccak256 (be_bytes 20 a).

(** ** Opening tries *)

Definition cache_ok db W (N : Z) s : Prop :=
  forall r t, lru_peek (s_cache s) r = Some t ->
    exists m, word r /\ written_at 32 W (be_bytes 32 r) m /\ committed 32 db W t m /\ t_epoch t <= N.

Lemma cache_ok_mono db W W' N N' s :
  extends W W' -> N <= N' -> cache_ok db W N s -> cache_ok db W' N' s.
Proof.
  intros HW HN Hc r t Hp. destruct (Hc r t Hp) as (m & Hr & Hw & Hcm & He). exists m. split_and!; [done| | |lia].
  - by eapply written_extends.
  - by eapply committed_extends; [intros ? ?|..].
Qed.

Lemma cache_ok_Get db W N s r : cache_ok db W N s -> cache_ok db W N (set_cache_of s (snd (lru_Get (s_cache s) r))).
Proof. intros Hc r' t. cbn. rewrite lru_peek_Get. apply Hc. Qed.

Lemma cache_ok_Add db W N s r t m :
  cache_ok db W N s -> word r -> written_at 32 W (be_bytes 32 r) m -> committed 32 db W t m -> t_epoch t <= N ->
  cache_ok db W N (AddState s r t).
Proof.
  intros Hc Hr Hw Hcm He r' t' Hp. cbn in Hp. apply lru_peek_Add in Hp as [[-> ->]|Hp]; [by exists m|by apply Hc].
Qed.

(** A root of the database is opened; without collisions, with its own map. *)
Lemma newTrieAt_ok db W N s r m :
  s_db s = db -> cache_ok db W N s -> extends (of_db db) W -> 0 <= N -> word r -> stored_at 32 db (be_bytes 32 r) m ->
  exists t s' m', newTrieAt s r = Some (Ok t, s') /\ s_db s' = db /\ s_code s' = s_code s /\ cache_ok db W N s' /\
    committed 32 db W t m' /\ t_epoch t <= N /\ (sound W -> m' = m).
Proof.
  intros Hdb Hc HW HN Hr Hst. unfold newTrieAt. destruct (r =? emptyStateHash) eqn:E; breflect.
  - subst r. exists NewTrie, s, ∅. do 4 (split; [done|]). split; [apply committed_new|]. split; [done|]. intros Hs.
    eapply (written_inj 32 W); [done|apply (written_empty 32)|]. by eapply written_extends.
  - pose proof (cache_ok_Get db W N s r Hc) as Hc'. pose proof (lru_Get_peek (s_cache s) r) as Hp.
    destruct (lru_Get (s_cache s) r) as [[t|] c]; cbn in Hp, Hc'.
    + destruct (Hc r t) as (m' & _ & Hw & Hcm & He); [done|]. exists t, (set_cache_of s c), m'. split_and!; try done.
      intros Hs. eapply (written_inj 32 W); [done|exact Hw|]. by eapply written_extends.
    + rewrite Hdb. destruct (GetNode_readable 32 db (be_bytes 32 r) m) as (n & -> & Hcm); [done| |].
      { intros He. by apply emptyRoot_bytes in He. }
      eexists _, _, m. do 4 (split; [done|]). split; [|done].
      by eapply committed_extends; [intros ? ?|..].
Qed.

(** ** Storage of one account *)

Fixpoint map_entries (m : entries) (l : list StorageObject) : entries :=
  match l with
  | [] => m
  | e :: l => map_entries (if so_Deleted e then base.delete (hkey (so_Key e)) m
                           else <[hkey (so_Key e) := storage_data (so_Val e)]> m) l
  end.

Lemma commit_entries_ok db W l : forall t m, working 32 db W t m ->
  exists t', commit_entries db t l = Some t' /\ x_epoch t' = x_epoch t /\ working 32 db W t' (map_entries m l).
Proof.
  induction l as [|e l IH]; intros t m Hw; [by exists t|]. cbn [commit_entries map_entries]. unfold commit_entry. cbv zeta.
  pose proof (keccak256_bytes (be_bytes 32 (so_Key e))) as Hb. pose proof (keccak256_length (be_bytes 32 (so_Key e))) as Hl.
  destruct (so_Deleted e).
  - destruct (Delete_working 32 db W t m _ Hw Hb Hl) as (t1 & -> & He & Hw1).
    destruct (IH t1 _ Hw1) as (t2 & Ht2 & He2 & Hw2). exists t2. by rewrite He2.
  - destruct (storage_data_ok (so_Val e)) as [Hv1 Hv2].
    destruct (Insert_working 32 db W t m _ _ Hw Hb Hl Hv1 Hv2) as (t1 & Ht1 & He & Hw1).
    unfold storage_data in Ht1. rewrite Ht1.
    destruct (IH t1 _ Hw1) as (t2 & Ht2 & He2 & Hw2). exists t2. by rewrite He2.
Qed.

Lemma with_puts_extends W puts : extends W (with_puts W puts).
Proof. intros k d Hk. by left. Qed.

Lemma with_puts_in W puts : in_batch puts (with_puts W puts).
Proof. intros k d Hk. by right. Qed.

Definition hash_keyed (puts : batch) : Prop := forall k d, (k, d) ∈ puts -> k = keccak256 d.

Lemma commit_storage_ok db W N s r m l :
  s_db s = db -> cache_ok db W N s -> extends (of_db db) W -> 0 <= N -> N + 1 < 2 ^ 32 ->
  word r -> stored_at 32 db (be_bytes 32 r) m ->
  exists r' s' puts m', commit_storage s r l = Some (r', s', puts) /\ s_db s' = db /\ s_code s' = s_code s /\ hash_keyed puts /\
    cache_ok db (with_puts W puts) (N + 1) s' /\ word r' /\
    written_at 32 (with_puts W puts) (be_bytes 32 r') (map_entries m' l) /\ (sound W -> m' = m).
Proof.
  intros Hdb Hc HW HN HN1 Hr Hst.
  destruct (newTrieAt_ok db W N s r m Hdb Hc HW HN Hr Hst) as (t & s1 & m' & He1 & Hdb1 & Hcode & Hc1 & Hcm & Hep & Hm).
  unfold commit_storage. rewrite He1, Hdb1.
  assert (Hw : working 32 db W (Trie_Txn t) m') by (apply Txn_working; [done|lia]).
  destruct (commit_entries_ok db W l _ _ Hw) as (t1 & -> & He2 & Hw1).
  destruct (Hash_working 32 db W t1 _ Hw1) as (h & puts & t2 & -> & Hroot & Hp & He3 & Hout).
  destruct (Hout (with_puts W puts) (with_puts_extends _ _) (with_puts_in _ _)) as [Hcm2 Hw2].
  destruct (root_of_bytes 32 _ h Hroot) as [Hh1 Hh2]. eexists _, _, _, m'. split; [done|]. cbn [s_db s_code AddState set_cache_of].
  assert (Hword : word (BytesToHash h)) by (by apply BytesToHash_word).
  assert (Hw3 : written_at 32 (with_puts W puts) (be_bytes 32 (BytesToHash h)) (map_entries m' l)) by (by rewrite be_bytes_hash).
  split_and!; try done.
  - intros k d Hi. by apply Hp.
  - eapply cache_ok_Add; try done.
    + eapply cache_ok_mono; [apply with_puts_extends| |exact Hc1]. lia.
    + cbn. rewrite He3, He2. unfold Trie_Txn. cbn. destruct Hcm as (_ & _ & Hpos). rewrite Z.mod_small by lia. lia.
Qed.

(** ** Objects *)

Definition object_ok db (o : Object) : Prop :=
  addr_ok (ob_Address o) /\
  (ob_Deleted o = false ->
     is_u64 (ob_Nonce o) /\ 0 <= ob_Balance o /\ word (ob_CodeHash o) /\ word (ob_Root o) /\
     exists sm, stored_at 32 db (be_bytes 32 (ob_Root o)) sm).

(** What an object does to the map of accounts; [W] has the new storage. *)
Definition object_effect db W (o : Object) (m m' : entries) : Prop :=
  if ob_Deleted o then m' = base.delete (haddr (ob_Address o)) m
  else exists root sm,
    let acc := mkAccount (ob_Nonce o) (ob_Balance o) root (be_bytes 32 (ob_CodeHash o)) in
    m' = <[haddr (ob_Address o) := account_data acc]> m /\ account_ok acc /\ written_at 32 W (be_bytes 32 root) sm /\
    (sound W -> forall sm0, stored_at 32 db (be_bytes 32 (ob_Root o)) sm0 -> sm = map_entries sm0 (ob_Storage o)).

Lemma object_effect_mono db W W' o m m' : extends W W' -> object_effect db W o m m' -> object_effect db W' o m m'.
Proof.
  unfold object_effect. intros HW. destruct (ob_Deleted o); [done|]. intros (root & sm & Hm & Ha & Hw & Hs).
  exists root, sm. cbv zeta. split; [done|]. split; [done|]. split; [by eapply written_extends|].
  intros Hsound. apply Hs. by eapply sound_extends.
Qed.

Definition set_code (o : Object) (code : Hash -> option (list Z)) : Hash -> option (list Z) :=
  if negb (ob_Deleted o) && ob_DirtyCode o
  then fun h => if h =? ob_CodeHash o then Some (ob_Code o) else code h else code.

(** The storage part, with or without entries. *)
Lemma object_storage_ok db W N s o :
  s_db s = db -> cache_ok db W N s -> extends (of_db db) W -> 0 <= N -> N + 1 < 2 ^ 32 ->
  object_ok db o -> ob_Deleted o = false ->
  exists root s' puts sm,
    (match ob_Storage o with [] => Some (ob_Root o, s, []) | l => commit_storage s (ob_Root o) l end) = Some (root, s', puts) /\
    s_db s' = db /\ s_code s' = s_code s /\ hash_keyed puts /\ cache_ok db (with_puts W puts) (N + 1) s' /\ word root /\
    written_at 32 (with_puts W puts) (be_bytes 32 root) sm /\
    (sound W -> forall sm0, stored_at 32 db (be_bytes 32 (ob_Root o)) sm0 -> sm = map_entries sm0 (ob_Storage o)).
Proof.
  intros Hdb Hc HW HN HN1 [_ Ho] Hdel. destruct (Ho Hdel) as (_ & _ & _ & Hr & sm & Hst). clear Ho.
  assert (Huniq : sound W -> forall sm0, stored_at 32 db (be_bytes 32 (ob_Root o)) sm0 -> sm = sm0).
  { intros Hs sm0 Hst0. eapply (written_inj 32 W); [done|by eapply written_extends|by eapply written_extends]. }
  destruct (ob_Storage o) as [|e l].
  - exists (ob_Root o), s, [], sm. do 3 (split; [done|]). split; [intros k d Hi; by apply not_elem_of_nil in Hi|].
    split; [apply (cache_ok_mono db W _ N); [apply with_puts_extends|lia|done]|]. split; [done|].
    split; [|done]. eapply written_extends; [|exact Hst]. intros k d Hk. left. by apply HW.
  - destruct (commit_storage_ok db W N s (ob_Root o) sm (e :: l) Hdb Hc HW HN HN1 Hr Hst)
      as (r' & s' & puts & m' & He & Hdb' & Hcode & Hk & Hc' & Hr' & Hw & Hm).
    exists r', s', puts, (map_entries m' (e :: l)). do 7 (split; [done|]).
    intros Hs sm0 Hst0. rewrite (Hm Hs). f_equal. by apply Huniq.
Qed.

Lemma commit_object_ok db W N s txn m o :
  s_db s = db -> cache_ok db W N s -> extends (of_db db) W -> 0 <= N -> N + 1 < 2 ^ 32 ->
  working 32 db W txn m -> object_ok db o ->
  exists s' txn' puts m', commit_object s txn o = Some (s', txn', puts) /\ s_db s' = db /\ s_code s' = set_code o (s_code s) /\
    hash_keyed puts /\ cache_ok db (with_puts W puts) (N + 1) s' /\ x_epoch txn' = x_epoch txn /\
    working 32 db (with_puts W puts) txn' m' /\ object_effect db (with_puts W puts) o m m'.
Proof.
  intros Hdb Hc HW HN HN1 Hw Ho. unfold commit_object, object_effect, set_code. cbv zeta.
  pose proof (keccak256_bytes (be_bytes 20 (ob_Address o))) as Hb. pose proof (keccak256_length (be_bytes 20 (ob_Address o))) as Hl.
  destruct (ob_Deleted o) eqn:Hdel; cbn [negb andb].
  - rewrite Hdb. destruct (Delete_working 32 db W txn m _ Hw Hb Hl) as (t1 & -> & He & Hw1).
    eexists _, _, _, _. do 3 (split; [done|]). split; [intros k d Hi; by apply not_elem_of_nil in Hi|].
    split; [apply (cache_ok_mono db W _ N); [apply with_puts_extends|lia|done]|]. split; [done|].
    split; [by eapply working_extends; [apply with_puts_extends|]|done].
  - destruct (object_storage_ok db W N s o Hdb Hc HW HN HN1 Ho Hdel) as (root & s1 & puts & sm & -> & Hdb1 & Hcode & Hk & Hc1 & Hr & Hw1 & Hsm).
    destruct Ho as [_ Ho]. destruct (Ho Hdel) as (Hn & Hbal & Hch & _).
    set (acc := mkAccount (ob_Nonce o) (ob_Balance o) root (be_bytes 32 (ob_CodeHash o))).
    assert (Hacc : account_ok acc) by (exact (conj Hn (conj Hbal (conj Hr (be_bytes_ok 32 _))))).
    destruct (account_data_ok acc Hacc) as [Hv1 Hv2].
    pose proof (working_extends 32 _ _ _ _ _ (with_puts_extends W puts) Hw) as Hwp.
    destruct (Insert_working 32 db _ txn m _ _ Hwp Hb Hl Hv1 Hv2) as (t1 & Ht1 & He & Hw2). unfold account_data in Ht1.
    set (s2 := if ob_DirtyCode o then State_SetCode s1 (ob_CodeHash o) (ob_Code o) else s1).
    assert (Hs2 : s_db s2 = db /\ s_cache s2 = s_cache s1) by (unfold s2; by destruct (ob_DirtyCode o)). destruct Hs2 as [Hdb2 Hcache2].
    rewrite Hdb2, Ht1. exists s2, t1, puts, (<[haddr (ob_Address o) := account_data acc]> m). split; [done|]. split; [done|].
    split; [unfold s2; destruct (ob_DirtyCode o); cbn; by rewrite Hcode|]. split; [done|].
    split; [intros r t; rewrite Hcache2; apply Hc1|]. split; [done|]. split; [done|].
    exists root, sm. split; [done|]. split; [done|]. split; [done|]. intros Hs. apply Hsm.
    by eapply sound_extends; [apply with_puts_extends|].
Qed.

Fixpoint effects db W (objs : list Object) (m m' : entries) : Prop :=
  match objs with
  | [] => m' = m
  | o :: objs => exists m1, object_effect db W o m m1 /\ effects db W objs m1 m'
  end.

Lemma effects_mono db W W' objs : extends W W' -> forall m m', effects db W objs m m' -> effects db W' objs m m'.
Proof.
  intros HW. induction objs as [|o objs IH]; intros m m'; [done|]. intros (m1 & Ho & Hos).
  exists m1. split; [by eapply object_effect_mono|auto].
Qed.

Lemma with_puts_app W p q : extends (with_puts (with_puts W p) q) (with_puts W (p ++ q)).
Proof. intros k d [[Hk|Hk]|Hk]; [by left|right..]; apply elem_of_app; auto. Qed.

Lemma hash_keyed_app p q : hash_keyed p -> hash_keyed q -> hash_keyed (p ++ q).
Proof. intros Hp Hq k d [Hi|Hi]%elem_of_app; auto. Qed.

Lemma commit_objects_ok db objs : forall W N s txn m,
  s_db s = db -> cache_ok db W N s -> extends (of_db db) W -> 0 <= N -> N + Z.of_nat (length objs) < 2 ^ 32 ->
  working 32 db W txn m -> Forall (object_ok db) objs ->
  exists s' txn' puts m', commit_objects s txn objs = Some (s', txn', puts) /\ s_db s' = db /\
    s_code s' = foldl (fun c o => set_code o c) (s_code s) objs /\ hash_keyed puts /\
    cache_ok db (with_puts W puts) (N + Z.of_nat (length objs)) s' /\ x_epoch txn' = x_epoch txn /\
    working 32 db (with_puts W puts) txn' m' /\ effects db (with_puts W puts) objs m m'.
Proof.
  induction objs as [|o objs IH]; intros W N s txn m Hdb Hc HW HN HN1 Hw Ho.
  - exists s, txn, [], m. do 3 (split; [done|]). split; [intros k d Hi; by apply not_elem_of_nil in Hi|].
    split; [apply (cache_ok_mono db W _ N); [apply with_puts_extends|cbn; lia|done]|]. split; [done|].
    split; [by eapply working_extends; [apply with_puts_extends|]|done].
  - inversion Ho as [|? ? Ho1 Ho2]; subst. cbn [length] in HN1.
    destruct (commit_object_ok _ W N s txn m o eq_refl Hc HW HN ltac:(lia) Hw Ho1)
      as (s1 & t1 & p & m1 & He1 & Hdb1 & Hcode1 & Hk1 & Hc1 & Hep1 & Hw1 & Hef1).
    assert (HW1 : extends (of_db (s_db s)) (with_puts W p)) by (intros k d Hk; left; by apply HW).
    destruct (IH (with_puts W p) (N + 1) s1 t1 m1 Hdb1 Hc1 HW1 ltac:(lia) ltac:(lia) Hw1 Ho2)
      as (s2 & t2 & q & m2 & He2 & Hdb2 & Hcode2 & Hk2 & Hc2 & Hep2 & Hw2 & Hef2).
    cbn [commit_objects]. rewrite He1, He2. exists s2, t2, (p ++ q), m2. split; [done|]. split; [done|].
    split; [cbn; by rewrite Hcode2, Hcode1|]. split; [by apply hash_keyed_app|].
    split; [apply (cache_ok_mono _ _ _ _ _ _ (with_puts_app W p q)) with (2 := Hc2); cbn [length]; lia|].
    split; [by rewrite Hep2|]. split; [by eapply working_extends; [apply with_puts_app|]|].
    exists m1. split; [|by eapply effects_mono; [apply with_puts_app|]].
    eapply object_effect_mono; [|exact Hef1]. intros k d [Hk|Hk]; [by left|right; apply elem_of_app; by left].
Qed.

(** ** Commit *)

(** A state whose cache agrees with its database. *)
Definition state_ok (N : Z) s : Prop := cache_ok (s_db s) (of_db (s_db s)) N s /\ 0 <= N /\ sound (of_db (s_db s)).

(** A snapshot: the accounts are the entries of [m]. *)
Definition snap_holds s (t : Trie) (m : entries) : Prop := committed 32 (s_db s) (of_db (s_db s)) t m.

Lemma batch_Write_equiv db puts :
  functional (with_puts (of_db db) puts) ->
  extends (with_puts (of_db db) puts) (of_db (batch_Write puts db)) /\ extends (of_db (batch_Write puts db)) (with_puts (of_db db) puts).
Proof.
  intros Hf. destruct (batch_Write_ok puts db Hf) as (H1' & H2' & H3'). split; [|done].
  intros k d [Hk|Hk]; [by apply H1'|by apply H2'].
Qed.

Lemma Commit_ok N s t m objs :
  state_ok N s -> snap_holds s t m -> t_epoch t <= N -> N + Z.of_nat (length objs) + 1 < 2 ^ 32 ->
  Forall (object_ok (s_db s)) objs ->
  exists t' root s' puts m', Commit s t objs = Some (t', root, s', puts) /\ hash_keyed puts /\
    s_code s' = foldl (fun c o => set_code o c) (s_code s) objs /\
    (sound (with_puts (of_db (s_db s)) puts) ->
       extends (of_db (s_db s)) (of_db (s_db s')) /\ state_ok (N + Z.of_nat (length objs) + 1) s' /\
       snap_holds s' t' m' /\ stored_at 32 (s_db s') root m' /\ t_epoch t' <= N + Z.of_nat (length objs) + 1 /\
       effects (s_db s) (of_db (s_db s')) objs m m').
Proof.
  intros (Hc & HN & _) Ht Hep HN1 Hobjs. set (db := s_db s) in *. set (n := Z.of_nat (length objs)) in *.
  assert (Hw : working 32 db (of_db db) (Trie_Txn t) m) by (apply Txn_working; [done|lia]).
  destruct (commit_objects_ok db objs (of_db db) N s (Trie_Txn t) m eq_refl Hc (fun _ _ Hk => Hk) HN ltac:(lia) Hw Hobjs)
    as (s1 & t1 & p & m' & He1 & Hdb1 & Hcode & Hk1 & Hc1 & Hep1 & Hw1 & Hef).
  destruct (Hash_working 32 db _ t1 _ Hw1) as (root & q & t2 & He2 & Hroot & Hq & Hep2 & Hout).
  unfold Commit. rewrite He1, He2, Hdb1. eexists _, _, _, (p ++ q), m'. split; [done|]. cbn [s_db s_code AddState set_cache_of].
  split; [apply hash_keyed_app; [done|]; intros k d Hi; by apply Hq|]. split; [done|]. intros Hs.
  destruct (batch_Write_ok (p ++ q) db (proj1 Hs)) as (Hx1 & Hx2 & _).
  destruct (batch_Write_equiv db (p ++ q) (proj1 Hs)) as [Hx Hy]. set (db' := batch_Write (p ++ q) db) in *.
  assert (Hp : extends (with_puts (of_db db) p) (of_db db')) by (intros k d [Hk|Hk]; apply Hx; [by left|right; apply elem_of_app; by left]).
  destruct (Hout (of_db db') Hp) as [Hcm Hst]; [intros k d Hi; apply Hx2, elem_of_app; by right|].
  assert (Hcm' : committed 32 db' (of_db db') (trie_Commit t2) m') by (by eapply committed_extends; [exact Hx1|intros ? ?|exact Hcm]).
  assert (Hep' : t_epoch (trie_Commit t2) <= N + n + 1).
  { cbn. rewrite Hep2, Hep1. unfold Trie_Txn. cbn. destruct Ht as (_ & _ & Hpos). rewrite Z.mod_small by lia. lia. }
  split; [done|]. split; [|split; [done|split; [done|split; [done|by eapply effects_mono]]]].
  split; [|split; [lia|by eapply sound_extends]]. cbn [s_db s_cache].
  assert (Hbytes : be_bytes 32 (BytesToHash root) = root /\ word (BytesToHash root)).
  { destruct (root_of_bytes 32 m' root Hroot) as [Hb Hl]. split; [by apply be_bytes_hash|by apply BytesToHash_word]. }
  destruct Hbytes as [Hrb Hrw].
  apply (cache_ok_Add db' (of_db db') _ (mkState db' (s_code s1) (s_cache s1)) _ _ m'); [|done|by rewrite Hrb|done|done].
  intros r u Hu. destruct (Hc1 r u Hu) as (mu & Hr & Hwu & Hcu & Heu). exists mu. split; [done|].
  split; [by eapply written_extends|]. split; [by eapply committed_extends|lia].
Qed.
End Commit.
