(* ===== verification/StateProps.v ===== *)
(** * From a transaction to the next snapshot

    The objects a transaction leaves ([txn_Commit]) are committed to the tries; a
    new transaction on the new snapshot reads what the old one read. [txn_good]
    is the part of the invariant of transactions this needs, kept by every
    operation that changes one. *)

From S2P Require Import Prelude ChainTypes BigInt Runtime Receipts StateTxn StateLemmas Rlp Trie TriePure TrieRefine TrieHash TrieDb.
From S2P Require Import TrieSample Snapshot.
Local Open Scope go_scope.

Section Read.
Context `{Fastrlp} `{!CodecLaws} `{!FastrlpLaws} {K : Type} `{!Lru Hash Trie K} `{!LruLaws Hash Trie K}.
Implicit Types (s : State K) (db : list Z -> option (list Z)) (m : entries).

(** ** Reading *)

Lemma GetAccount_read s t m a :
  snap_holds s t m ->
  GetAccount s t a =
    match m !! haddr a with
    | None => Some (Ok None)
    | Some data => match Account_UnmarshalRlp data with Ok x => Some (Ok (Some x)) | Err e => Some (Err e) end
    end.
Proof.
  intros Ht. unfold GetAccount.
  destruct (Get_committed 32 _ _ t m (haddr a) Ht (keccak256_bytes _)) as (t' & Hg & _). unfold haddr in *.
  rewrite Hg. by destruct (m !! _).
Qed.

(** The value of a storage entry. *)
Definition read_entry (o : option (list Z)) : Hash :=
  match o with
  | None => 0
  | Some val =>
      match fastrlp_Parse val with
      | None => 0
      | Some v => match rlp_GetBytes v with None => 0 | Some res => BytesToHash res end
      end
  end.

Lemma GetStorage_read N s r sm k :
  state_ok N s -> word r -> stored_at 32 (s_db s) (be_bytes 32 r) sm ->
  exists s', GetStorage s r k = Some (read_entry (sm !! hkey k), s').
Proof.
  intros (Hc & HN & Hs) Hr Hst. unfold GetStorage.
  destruct (newTrieAt_ok (s_db s) _ N s r sm eq_refl Hc (fun _ _ Hk => Hk) HN Hr Hst)
    as (t & s' & m' & He & Hdb & _ & _ & Hcm & _ & Hm). rewrite (Hm Hs) in Hcm. clear Hm m'.
  assert (Hopen : (if r =? emptyStateHash then Some (Ok NewTrie, s) else newTrieAt s r) = Some (Ok t, s')).
  { destruct (r =? emptyStateHash) eqn:E; [|done]. unfold newTrieAt in He. by rewrite E in He. }
  rewrite Hopen, Hdb.
  destruct (Get_committed 32 _ _ t sm (hkey k) Hcm (keccak256_bytes _)) as (t' & Hg & _). unfold hkey in *. rewrite Hg.
  unfold read_entry. destruct (sm !! _) as [v|]; [|by eexists]. destruct (fastrlp_Parse v) as [r'|]; [|by eexists].
  destruct (rlp_GetBytes r'); by eexists.
Qed.

Lemma read_storage_data v : word v -> read_entry (Some (storage_data v)) = v.
Proof. intros Hv. destruct (storage_data_parse v Hv) as (r & b & Hp & Hb & He). cbn. by rewrite Hp, Hb. Qed.

(** ** The maps after a commit *)

Section Keys.
Context (S : Hash -> Prop).
Hypothesis S_inj : forall k k', S k -> S k' -> hkey k = hkey k' -> k = k'.

Lemma map_entries_other l : forall m k,
  S k -> (forall e, e ∈ l -> S (so_Key e) /\ so_Key e <> k) -> map_entries m l !! hkey k = m !! hkey k.
Proof.
  induction l as [|e l IH]; intros m k Hk Hl; [done|]. cbn. destruct (Hl e ltac:(in_list)) as [He Hne].
  assert (Hh : hkey (so_Key e) <> hkey k) by (intros Hh; apply Hne; by apply S_inj).
  rewrite IH; [|done|intros e' He'; apply Hl; by constructor].
  destruct (so_Deleted e); [by apply lookup_delete_ne|by apply lookup_insert_ne].
Qed.

Lemma map_entries_at l : forall m e,
  NoDup (so_Key <$> l) -> (forall e, e ∈ l -> S (so_Key e)) -> e ∈ l ->
  map_entries m l !! hkey (so_Key e) = if so_Deleted e then None else Some (storage_data (so_Val e)).
Proof.
  induction l as [|e' l IH]; intros m e Hnd Hl He; [by apply not_elem_of_nil in He|].
  cbn in Hnd. apply NoDup_cons in Hnd as [Hn Hnd]. cbn. apply elem_of_cons in He as [->|He].
  - rewrite map_entries_other; [|apply Hl; in_list|].
    + destruct (so_Deleted e'); [apply lookup_delete_eq|apply lookup_insert_eq].
    + intros e Hel. split; [apply Hl; by constructor|]. intros Heq. apply Hn. apply list_elem_of_fmap. by exists e.
  - apply IH; [done| |done]. intros e1 He1. apply Hl. by constructor.
Qed.
End Keys.

Section Addrs.
Context (A : Address -> Prop).
Hypothesis A_inj : forall a b, A a -> A b -> haddr a = haddr b -> a = b.

Lemma object_effect_other db W o m m' a :
  A a -> A (ob_Address o) -> ob_Address o <> a -> object_effect db W o m m' -> m' !! haddr a = m !! haddr a.
Proof.
  intros Ha Ho Hne. assert (Hh : haddr (ob_Address o) <> haddr a) by (intros Hh; apply Hne; by apply A_inj).
  unfold object_effect. destruct (ob_Deleted o); [intros ->; by apply lookup_delete_ne|].
  intros (root & sm & -> & _). by apply lookup_insert_ne.
Qed.

Lemma effects_other db W objs a : forall m m',
  A a -> (forall o, o ∈ objs -> A (ob_Address o) /\ ob_Address o <> a) -> effects db W objs m m' -> m' !! haddr a = m !! haddr a.
Proof.
  induction objs as [|o objs IH]; intros m m' Ha Ho; [by intros ->|]. intros (m1 & H1' & H2').
  destruct (Ho o ltac:(in_list)) as [Hao Hne].
  rewrite (IH m1 m'); [by eapply object_effect_other|done| |done]. intros o' Ho'. apply Ho. by constructor.
Qed.

Lemma effects_at db W objs o : forall m m',
  NoDup (ob_Address <$> objs) -> (forall o, o ∈ objs -> A (ob_Address o)) -> o ∈ objs -> effects db W objs m m' ->
  exists m1 m2, object_effect db W o m1 m2 /\ m' !! haddr (ob_Address o) = m2 !! haddr (ob_Address o).
Proof.
  induction objs as [|o' objs IH]; intros m m' Hnd Ho Hin; [by apply not_elem_of_nil in Hin|].
  cbn in Hnd. apply NoDup_cons in Hnd as [Hn Hnd]. intros (m1 & H1' & H2'). apply elem_of_cons in Hin as [->|Hin].
  - exists m, m1. split; [done|]. eapply effects_other; [apply Ho; in_list| |exact H2'].
    intros o Hel. split; [apply Ho; by constructor|]. intros Heq. apply Hn, list_elem_of_fmap. by exists o.
  - apply (IH m1 m'); [done| |done|done]. intros o1 Ho1. apply Ho. by constructor.
Qed.
End Addrs.

(** ** Codes *)

(** The codes that belong to a hash: in the store, written by the commit, or empty. *)
Definition code_at (code : Hash -> option (list Z)) (objs : list Object) (h : Hash) (c : list Z) : Prop :=
  code h = Some c \/ (h = BytesToHash emptyCodeHash /\ c = []) \/
  exists o : Object, o ∈ objs /\ ob_Deleted o = false /\ ob_DirtyCode o = true /\ ob_CodeHash o = h /\ ob_Code o = c.

(** No two of them have one hash. *)
Definition codes_sound (code : Hash -> option (list Z)) (objs : list Object) : Prop :=
  forall h c c', code_at code objs h c -> code_at code objs h c' -> c = c'.

Definition set_codes (objs : list Object) (code : Hash -> option (list Z)) : Hash -> option (list Z) :=
  foldl (fun c o => set_code o c) code objs.

Lemma set_codes_some objs h : forall code c,
  code h = Some c \/ (exists o : Object, o ∈ objs /\ ob_Deleted o = false /\ ob_DirtyCode o = true /\ ob_CodeHash o = h) ->
  is_Some (set_codes objs code h).
Proof.
  induction objs as [|o objs IH]; intros code c.
  - intros [Hc|(o & Ho & _)]; [by eexists|]. by apply not_elem_of_nil in Ho.
  - intros Hc. cbn. assert (Hd : is_Some (set_code o code h) \/
      exists o : Object, o ∈ objs /\ ob_Deleted o = false /\ ob_DirtyCode o = true /\ ob_CodeHash o = h).
    { unfold set_code. destruct Hc as [Hc|(o' & [->|Ho]%elem_of_cons & Hd & Hy & Hh)]; [left|left|right].
      - destruct (negb (ob_Deleted o) && ob_DirtyCode o); [destruct (h =? _); by eexists|by eexists].
      - rewrite Hd, Hy. subst h. cbn. rewrite Z.eqb_refl. by eexists.
      - by exists o'. }
    destruct Hd as [[d Hd]|Hd]; [by apply (IH _ d); left|by apply (IH _ c); right].
Qed.

Lemma set_codes_at objs h c : forall code, set_codes objs code h = Some c -> code_at code objs h c.
Proof.
  induction objs as [|o objs IH]; intros code Hc; [by left|].
  destruct (IH _ Hc) as [Hs|[He|(o' & Ho & Hr)]]; [|by right; left|right; right; exists o'; split; [by constructor|done]].
  unfold set_code in Hs. destruct (negb (ob_Deleted o) && ob_DirtyCode o) eqn:E; [|by left].
  apply andb_true_iff in E as [Hd%negb_true_iff Hy]. destruct (h =? ob_CodeHash o) eqn:Eh; [|by left].
  breflect. injection Hs as <-. right. right. exists o. split; [by constructor|done].
Qed.

(** Reading the code of a hash after the commit. *)
Lemma set_codes_read objs code h c :
  codes_sound code objs -> code_at code objs h c -> default [] (set_codes objs code h) = c.
Proof.
  intros Hs Hc. destruct (set_codes objs code h) as [d|] eqn:E.
  - apply (Hs h); [by apply set_codes_at|done].
  - destruct Hc as [Hc|[[_ ->]|(o & Ho & Hd & Hy & Hh & _)]]; [|done|];
      destruct (set_codes_some objs h code c) as [d Hd']; try congruence; [by left|right; by exists o].
Qed.

End Read.

(** ** Transactions over a snapshot *)

Section Txn.
Context `{Fastrlp} `{!CodecLaws} `{!FastrlpLaws} {K : Type} `{!Lru Hash Trie K} `{!LruLaws Hash Trie K}.
Context {T : Type -> Type} `{!Radix T} `{!RadixLaws T} {C : Type} `{!Lru Address (list Z) C}.
Context `{!LruLaws Address (list Z) C}.
Context (A : Address -> Prop) (S : Hash -> Prop).
Implicit Types (s : State K) (db : list Z -> option (list Z)) (m : entries) (x : Txn T C) (o : StateObject T).

Definition known_root db (r : Hash) : Prop := word r /\ exists sm, stored_at 32 db (be_bytes 32 r) sm.

Lemma known_empty db : known_root db emptyStateHash.
Proof. split; [done|]. exists ∅. apply (written_empty 32). Qed.

Lemma known_extends db db' r : extends (of_db db) (of_db db') -> known_root db r -> known_root db' r.
Proof. intros Hx (Hr & sm & Hst). split; [done|]. exists sm. by eapply written_extends. Qed.

Definition account_good db (a : Account) : Prop :=
  account_ok a /\ length (a_CodeHash a) = 32%nat /\ known_root db (a_Root a).

Definition storage_good (tx : option (T (option Hash))) : Prop :=
  forall t, tx = Some t -> forall k v, rx_Get t k = Some v -> S k /\ forall w, v = Some w -> word w.

(** The code of a code hash is in the store, or is the empty one, which is never
    written. *)
Definition code_known (code : Hash -> option (list Z)) (h : list Z) : Prop :=
  h = emptyCodeHash \/ is_Some (code (BytesToHash h)).

Definition object_good s o : Prop :=
  account_good (s_db s) (o_Account o) /\ storage_good (o_Txn o) /\
  (o_DirtyCode o = false -> code_known (s_code s) (a_CodeHash (o_Account o))).

Definition tree_good s (tr : tree T) : Prop :=
  forall a o, rx_Get (objects tr) a = Some o -> A a /\ object_good s o.

(** The accounts of a snapshot. *)
Definition accounts_good s m : Prop :=
  forall a, A a -> m !! haddr a = None \/
    exists acc, m !! haddr a = Some (account_data acc) /\ account_good (s_db s) acc /\ code_known (s_code s) (a_CodeHash acc).

Definition txn_good s (t : Trie) x : Prop :=
  snapshot x = snapshot_of s t /\ tree_good s (txn x) /\ Forall (tree_good s) (snapshots x).

Lemma snapshot_GetAccount s t m a :
  snap_holds s t m -> accounts_good s m -> A a ->
  exists r, sn_GetAccount (snapshot_of s t) a = Ok r /\
    match r with
    | None => m !! haddr a = None
    | Some acc => m !! haddr a = Some (account_data acc) /\ account_good (s_db s) acc /\ code_known (s_code s) (a_CodeHash acc)
    end.
Proof.
  intros Ht Hm Ha. cbn. rewrite (GetAccount_read s t m a Ht). destruct (Hm a Ha) as [-> | (acc & -> & Hacc & Hcode)]; [by eexists|].
  rewrite Unmarshal_Marshal by apply Hacc. by eexists.
Qed.

Lemma Account_Copy_good db a : account_good db a -> Account_Copy a = a.
Proof. intros ((_ & Hb & _) & _). unfold Account_Copy. rewrite Z.abs_eq by done. by destruct a. Qed.

Lemma object_Copy_good s o : object_good s o -> StateObject_Copy o = o.
Proof.
  intros [Ha _]. unfold StateObject_Copy. rewrite (Account_Copy_good _ _ Ha). by destruct o.
Qed.

Lemma new_good s : object_good s newStateObject.
Proof.
  split; [|split; [done|by left]]. split; [|split; [apply keccak256_length|apply known_empty]].
  split; [done|]. split; [done|]. split; [done|apply keccak256_bytes].
Qed.

Lemma getStateObject_good s t m x a o :
  snap_holds s t m -> accounts_good s m -> txn_good s t x -> A a -> getStateObject x a = Some o -> object_good s o.
Proof.
  intros Ht Hm (Hsn & Htr & _) Ha. unfold getStateObject. destruct (rx_Get (objects (txn x)) a) as [obj|] eqn:E.
  - destruct (Htr a obj E) as [_ Ho]. rewrite (object_Copy_good _ _ Ho). by destruct (o_Deleted obj); [|intros [= <-]].
  - rewrite Hsn. destruct (snapshot_GetAccount s t m a Ht Hm Ha) as (r & -> & Hr). destruct r as [acc|]; [|done].
    intros [= <-]. destruct Hr as (_ & Hr & Hcode). unfold object_good. cbn. by rewrite (Account_Copy_good _ _ Hr).
Qed.

Lemma insert_good s t x a o : txn_good s t x -> A a -> object_good s o -> txn_good s t (insert_object a o x).
Proof.
  intros (Hsn & Htr & Hss) Ha Ho. split; [done|]. split; [|done]. intros b o'. cbn. rewrite rx_Get_Insert.
  case_decide as Hd; [|apply Htr]. subst. by intros [= <-].
Qed.

Lemma upsert_good s t m x a create f :
  snap_holds s t m -> accounts_good s m -> txn_good s t x -> A a ->
  (forall o, object_good s o -> object_good s (f o)) -> txn_good s t (upsertAccount x a create f).
Proof.
  intros Ht Hm Hx Ha Hf. unfold upsertAccount. destruct (getStateObject x a) as [o|] eqn:E.
  - apply insert_good; [done|done|]. apply Hf. by eapply getStateObject_good.
  - destruct create; [|done]. apply insert_good; [done|done|]. apply Hf, new_good.
Qed.

(** ** Operations *)

(** The operations that change a transaction, as the transition uses them. *)
Inductive txn_op : Type :=
| XAddBalance (a : Address) (v : Z) | XSubBalance (a : Address) (v : Z) | XSetBalance (a : Address) (v : Z)
| XReward (a : Address) (v : Z) | XIncrNonce (a : Address) | XSetNonce (a : Address) (n : Z)
| XSetState (a : Address) (k v : Hash) | XSetStorage (a : Address) (k v : Hash) (cfg : ForksInTime)
| XSetCode (a : Address) (code : list Z) | XSuicide (a : Address) | XTouch (a : Address) | XCreate (a : Address)
| XAddLog (l : Log) | XAddRefund (g : Z) | XSnapshot | XRevert (id : Z) | XClean (b : bool).

Definition txn_run (op : txn_op) x : option (Txn T C) :=
  match op with
  | XAddBalance a v => Some (txn_AddBalance x a v)
  | XSubBalance a v => Some (snd (txn_SubBalance x a v))
  | XSetBalance a v => Some (txn_SetBalance x a v)
  | XReward a v => Some (AddSealingReward x a v)
  | XIncrNonce a => Some (IncrNonce x a)
  | XSetNonce a n => Some (txn_SetNonce x a n)
  | XSetState a k v => Some (txn_SetState x a k v)
  | XSetStorage a k v cfg => Some (snd (txn_SetStorage x a k v cfg))
  | XSetCode a code => Some (txn_SetCode x a code)
  | XSuicide a => Some (snd (Suicide x a))
  | XTouch a => Some (TouchAccount x a)
  | XCreate a => Some (CreateAccount x a)
  | XAddLog l => Some (AddLog x l)
  | XAddRefund g => Some (AddRefund x g)
  | XSnapshot => Some (snd (txn_Snapshot x))
  | XRevert id => RevertToSnapshot id x
  | XClean b => CleanDeleteObjects x b
  end.

(** Addresses and keys concerned, amounts not negative. *)
Definition txn_op_ok (op : txn_op) : Prop :=
  match op with
  | XAddBalance a v | XReward a v => A a /\ 0 <= v
  | XSubBalance a v | XSetBalance a v => A a
  | XIncrNonce a | XSuicide a | XTouch a | XCreate a | XSetCode a _ => A a
  | XSetNonce a n => A a /\ is_u64 n
  | XSetState a k v | XSetStorage a k v _ => A a /\ S k /\ word v
  | _ => True
  end.

Fixpoint txn_runs (ops : list txn_op) x : option (Txn T C) :=
  match ops with
  | [] => Some x
  | op :: ops => match txn_run op x with Some x => txn_runs ops x | None => None end
  end.

Lemma set_Account_good s a o :
  account_good (s_db s) a -> a_CodeHash a = a_CodeHash (o_Account o) -> object_good s o -> object_good s (set_Account a o).
Proof. intros Ha Hh (_ & Ho & Hc). unfold object_good. cbn. by rewrite Hh. Qed.

Lemma set_Balance_good s b o : 0 <= b -> object_good s o -> object_good s (set_Balance b o).
Proof.
  intros Hb Ho. apply set_Account_good; [|done|done]. destruct Ho as [((Hn & _ & Hr & Hc) & Hl & Hk) _].
  split; [|split; [done|done]]. split; [done|]. by split.
Qed.

Lemma set_Nonce_good s n o : is_u64 n -> object_good s o -> object_good s (set_Nonce n o).
Proof.
  intros Hn Ho. apply set_Account_good; [|done|done]. destruct Ho as [((_ & Hb & Hr & Hc) & Hl & Hk) _].
  split; [|split; [done|done]]. split; [done|]. by split.
Qed.

Lemma SetState_good s t m x a k v :
  snap_holds s t m -> accounts_good s m -> txn_good s t x -> A a -> S k -> word v -> txn_good s t (txn_SetState x a k v).
Proof.
  intros Ht Hm Hx Ha Hk Hv. eapply upsert_good; try done. intros o (Hacc & Ho & Hc). split; [done|]. split; [|done].
  cbn. intros tx [= <-] k' v'. rewrite rx_Get_Insert. case_decide as Hd.
  - intros [= <-]. subst k'. split; [done|]. intros w. destruct (v =? zeroHash); [done|]. by intros [= <-].
  - destruct (o_Txn o) as [tx'|]; [by apply Ho|]. cbn. by rewrite rx_Get_New.
Qed.

Lemma set_tree_good s t x tr : txn_good s t x -> tree_good s tr -> txn_good s t (set_txn tr x).
Proof. intros (Hsn & _ & Hss) Htr. by split. Qed.

Lemma Clean_good s t x b x' : txn_good s t x -> CleanDeleteObjects x b = Some x' -> txn_good s t x'.
Proof.
  intros (Hsn & Htr & Hss) He. destruct (CleanDeleteObjects_spec x b) as (x1 & He1 & Hs1 & Hss1 & _ & _ & _ & Hg).
  rewrite He in He1. simplify_eq. split; [by rewrite Hs1|]. rewrite Hss1. split; [|done]. intros a o. rewrite Hg.
  destruct (rx_Get (objects (txn x)) a) as [o'|] eqn:E; [|done]. intros [= <-]. destruct (Htr a o' E) as [Ha Ho].
  split; [done|]. destruct (removable b o'); [|done]. by rewrite (object_Copy_good _ _ Ho).
Qed.

Lemma SetCode_good s t m x a code :
  snap_holds s t m -> accounts_good s m -> txn_good s t x -> A a -> txn_good s t (txn_SetCode x a code).
Proof.
  intros Ht Hm Hx Ha. eapply upsert_good; try done. intros o (((Hn & Hb & Hr & _) & _ & Hk) & Ho & _). split; [|done].
  split; [|split; [apply keccak256_length|done]]. split; [done|]. split; [done|]. split; [done|apply keccak256_bytes].
Qed.

(** Every operation keeps the invariant. *)
Lemma txn_run_good s t m x op x' :
  snap_holds s t m -> accounts_good s m -> txn_good s t x -> txn_op_ok op -> txn_run op x = Some x' -> txn_good s t x'.
Proof.
  intros Ht Hm Hx Hop. destruct op as [a v|a v|a v|a v|a|a n|a k v|a k v cfg|a code|a|a|a|l|g| |id|b]; cbn [txn_run txn_op_ok] in *.
  - intros [= <-]. eapply upsert_good; try done; [by apply Hop|]. intros o Ho. apply set_Balance_good; [|done].
    destruct Ho as [((_ & Hb & _) & _) _]. lia.
  - intros [= <-]. unfold txn_SubBalance. destruct (Z.sgn v =? 0); [done|]. destruct (txn_GetBalance x a <? v) eqn:E; [done|].
    breflect. cbn [snd]. unfold upsertAccount, txn_GetBalance in *. destruct (getStateObject x a) as [o|] eqn:Eo.
    + apply insert_good; [done|done|]. apply set_Balance_good; [lia|]. by eapply getStateObject_good.
    + apply insert_good; [done|done|]. apply set_Balance_good; [cbn; lia|]. apply new_good.
  - intros [= <-]. eapply upsert_good; try done. intros o Ho. apply set_Balance_good; [lia|done].
  - intros [= <-]. eapply upsert_good; try done; [by apply Hop|]. intros o Ho. destruct (o_Suicide o).
    + apply set_Balance_good; [lia|apply new_good].
    + apply set_Balance_good; [|done]. destruct Ho as [((_ & Hb & _) & _) _]. lia.
  - intros [= <-]. eapply upsert_good; try done. intros o Ho. apply set_Nonce_good; [apply u64_range|done].
  - intros [= <-]. destruct Hop as [Ha Hn]. eapply upsert_good; try done. intros o Ho. by apply set_Nonce_good.
  - intros [= <-]. destruct Hop as (Ha & Hk & Hv). by eapply SetState_good.
  - intros [= <-]. destruct (SetStorage_shape x a k v cfg) as (r & -> & _).
    assert (Hx' : txn_good s t (if txn_GetState x a k =? v then x else txn_SetState x a k v)).
    { destruct Hop as (Ha & Hk & Hv). destruct (txn_GetState x a k =? v); [done|]. by eapply SetState_good. }
    apply set_tree_good; [done|]. by destruct Hx' as (_ & Htr & _).
  - intros [= <-]. by eapply SetCode_good.
  - intros [= <-]. eapply upsert_good; try done. intros o Ho. by destruct (set_Balance_good s 0 o ltac:(lia) Ho).
  - intros [= <-]. by eapply upsert_good.
  - intros [= <-]. apply insert_good; [done|done|]. destruct (getStateObject x a); [|apply new_good].
    apply set_Balance_good; [lia|apply new_good].
  - intros [= <-]. apply set_tree_good; [done|]. by destruct Hx as (_ & Htr & _).
  - intros [= <-]. apply set_tree_good; [done|]. by destruct Hx as (_ & Htr & _).
  - intros [= <-]. destruct Hx as (Hsn & Htr & Hss). split; [done|]. split; [done|]. cbn. apply Forall_app. by split; [|constructor].
  - unfold RevertToSnapshot. destruct (_ <? id); [done|]. destruct (snapshots x !! Z.to_nat id) as [tr|] eqn:E; [|done].
    intros [= <-]. apply set_tree_good; [done|]. destruct Hx as (_ & _ & Hss). by eapply Forall_lookup_1.
  - intros He. by eapply Clean_good.
Qed.

Lemma txn_runs_good s t m ops : forall x x',
  snap_holds s t m -> accounts_good s m -> txn_good s t x -> Forall txn_op_ok ops -> txn_runs ops x = Some x' -> txn_good s t x'.
Proof.
  induction ops as [|op ops IH]; intros x x' Ht Hm Hx Hops He; cbn in He; [by simplify_eq|].
  inversion Hops; subst. destruct (txn_run op x) as [x1|] eqn:E; [|done]. apply (IH x1 x'); try done. by eapply txn_run_good.
Qed.

Lemma newTxn_good s t : txn_good s t (newTxn (snapshot_of s t)).
Proof. split; [done|]. split; [|constructor]. intros a o. cbn. by rewrite rx_Get_New. Qed.

(** ** The view of the next transaction *)

Hypothesis A_addr : forall a, A a -> addr_ok a.
Hypothesis A_inj : forall a b, A a -> A b -> haddr a = haddr b -> a = b.
Hypothesis S_inj : forall k k', S k -> S k' -> hkey k = hkey k' -> k = k'.

Lemma committed_ok s a o : A a -> object_good s o -> object_ok (s_db s) (StateTxn.committed (a, o)).
Proof.
  intros Ha [((Hn & Hb & Hr & Hc) & Hl & _ & sm & Hst) _]. split; [by apply A_addr|]. intros _. cbn.
  split; [done|]. split; [done|]. split; [by apply BytesToHash_word|]. split; [done|by exists sm].
Qed.

Lemma committed_key kv : ob_Address (StateTxn.committed (T := T) kv) = fst kv.
Proof. by destruct kv. Qed.

Lemma committed_keys (l : list (Address * StateObject T)) : ob_Address <$> (StateTxn.committed <$> l) = fst <$> l.
Proof. rewrite <- list_fmap_compose. apply list_fmap_ext. intros i kv _. apply committed_key. Qed.

(** The storage entries of a live object. *)
Lemma committed_storage a o k :
  o_Deleted o = false -> storage_good (o_Txn o) -> S k -> forall sm,
  read_entry (map_entries sm (ob_Storage (StateTxn.committed (a, o))) !! hkey k) =
    match (match o_Txn o with Some tx => rx_Get tx k | None => None end) with
    | Some v => default 0 v
    | None => read_entry (sm !! hkey k)
    end.
Proof.
  intros Hd Hg Hk sm. cbn. rewrite Hd. destruct (o_Txn o) as [tx|]; [|done].
  set (f := fun kv : Hash * option Hash => match snd kv with None => mkStorageObject true (fst kv) 0
                                           | Some v => mkStorageObject false (fst kv) v end).
  assert (Hkey : forall kv, so_Key (f kv) = fst kv) by (by intros [? []]).
  assert (HS : forall e, e ∈ f <$> rx_Walk tx -> S (so_Key e)).
  { intros e ([k' v] & -> & Hw)%list_elem_of_fmap. rewrite Hkey. apply rx_Walk_Get in Hw. by apply (Hg tx eq_refl _ _ Hw). }
  destruct (rx_Get tx k) as [v|] eqn:E.
  - assert (Hin : f (k, v) ∈ f <$> rx_Walk tx) by (apply list_elem_of_fmap; exists (k, v); by rewrite rx_Walk_Get).
    change k with (so_Key (mkStorageObject true k 0)) at 1. replace (so_Key (mkStorageObject true k 0)) with (so_Key (f (k, v))) by apply Hkey.
    rewrite (map_entries_at S S_inj); [|rewrite <- list_fmap_compose|done|done].
    + destruct v as [v|]; cbn; [|done]. apply read_storage_data. by apply (Hg tx eq_refl _ _ E).
    + rewrite (list_fmap_ext _ fst); [apply rx_Walk_keys|]. intros i kv _. apply Hkey.
  - rewrite (map_entries_other S S_inj); [done|done|]. intros e He. split; [by apply HS|].
    apply list_elem_of_fmap in He as ([k' v] & -> & Hw). rewrite Hkey. cbn. intros ->. apply rx_Walk_Get in Hw. congruence.
Qed.

(** What a commit leaves, as [Commit_ok] gives it. *)
Record commit_done (N : Z) s t m (x : Txn T C) s' t' m' : Prop := {
  cd_state : state_ok N s; cd_snap : snap_holds s t m; cd_accounts : accounts_good s m; cd_txn : txn_good s t x;
  cd_extends : extends (of_db (s_db s)) (of_db (s_db s')); cd_state' : exists N', state_ok N' s';
  cd_snap' : snap_holds s' t' m';
  cd_effects : effects (s_db s) (of_db (s_db s')) (StateTxn.committed <$> rx_Walk (objects (txn x))) m m';
  cd_code : s_code s' = set_codes (StateTxn.committed <$> rx_Walk (objects (txn x))) (s_code s) }.

Lemma storage_read s t a root sm k :
  (exists N, state_ok N s) -> word root -> stored_at 32 (s_db s) (be_bytes 32 root) sm ->
  sn_GetStorage (snapshot_of s t) a root k = read_entry (sm !! hkey k).
Proof. intros [N Hs] Hr Hst. cbn. by destruct (GetStorage_read N s root sm k Hs Hr Hst) as (s' & ->). Qed.

(** An address without an object. *)
Lemma commit_untouched N s t m x s' t' m' a :
  commit_done N s t m x s' t' m' -> A a -> rx_Get (objects (txn x)) a = None -> m' !! haddr a = m !! haddr a.
Proof.
  intros [_ _ _ (_ & Htr & _) _ _ _ Hef _] Ha Hn. eapply (effects_other A A_inj); [done| |exact Hef].
  intros o ([b ob] & -> & Hw)%list_elem_of_fmap. rewrite committed_key. cbn. apply rx_Walk_Get in Hw.
  split; [by apply (Htr b ob)|]. intros ->. congruence.
Qed.

(** An address with an object. *)
Lemma commit_touched N s t m x s' t' m' a o :
  commit_done N s t m x s' t' m' -> A a -> rx_Get (objects (txn x)) a = Some o ->
  if o_Deleted o then m' !! haddr a = None
  else exists root sm,
    let acc := mkAccount (a_Nonce (o_Account o)) (a_Balance (o_Account o)) root (a_CodeHash (o_Account o)) in
    m' !! haddr a = Some (account_data acc) /\ account_good (s_db s') acc /\
    stored_at 32 (s_db s') (be_bytes 32 root) sm /\
    forall sm0, stored_at 32 (s_db s) (be_bytes 32 (a_Root (o_Account o))) sm0 ->
      sm = map_entries sm0 (ob_Storage (StateTxn.committed (a, o))).
Proof.
  intros [_ _ _ (_ & Htr & _) Hx [N' (_ & _ & Hs')] _ Hef _] Ha Ho. destruct (Htr a o Ho) as [_ Hgood].
  assert (Hin : StateTxn.committed (a, o) ∈ StateTxn.committed <$> rx_Walk (objects (txn x))).
  { apply list_elem_of_fmap. exists (a, o). by rewrite rx_Walk_Get. }
  destruct (effects_at A A_inj _ _ _ _ _ _ ltac:(rewrite committed_keys; apply rx_Walk_keys)
              ltac:(intros o1 ([b ob] & -> & Hw)%list_elem_of_fmap; rewrite committed_key; apply rx_Walk_Get in Hw; by apply (Htr b ob))
              Hin Hef) as (m1 & m2 & Heff & Hm).
  rewrite committed_key in Hm. cbn [fst] in Hm. unfold object_effect in Heff. cbn [StateTxn.committed ob_Deleted ob_Address] in Heff.
  destruct (o_Deleted o) eqn:Hd; [by rewrite Hm, Heff, lookup_delete_eq|].
  destruct Heff as (root & sm & -> & Hacc & Hw & Hsm). cbn [ob_Nonce ob_Balance ob_CodeHash ob_Root] in *.
  destruct Hgood as [((Hn & Hb & Hr & Hc) & Hl & _) _]. rewrite (be_bytes_hash _ Hc Hl) in *.
  exists root, sm. cbv zeta. split; [by rewrite Hm, lookup_insert_eq|].
  split; [split; [done|split; [done|split; [by apply Hacc|by exists sm]]]|]. split; [done|].
  intros sm0 Hst0. rewrite (Hsm Hs' sm0 Hst0). cbn. by rewrite Hd.
Qed.

Definition same_account (o o' : StateObject T) : Prop :=
  a_Nonce (o_Account o') = a_Nonce (o_Account o) /\ a_Balance (o_Account o') = a_Balance (o_Account o) /\
  a_CodeHash (o_Account o') = a_CodeHash (o_Account o).

(** A new transaction sees the account as it was left. *)
Lemma commit_view N s t m x s' t' m' a :
  commit_done N s t m x s' t' m' -> A a ->
  match getStateObject x a, getStateObject (newTxn (T := T) (C := C) (snapshot_of s' t')) a with
  | None, None => True
  | Some o, Some o' => same_account o o' /\
      forall k, S k -> txn_GetState (newTxn (T := T) (C := C) (snapshot_of s' t')) a k = txn_GetState x a k
  | _, _ => False
  end.
Proof.
  intros Hcd Ha. pose proof Hcd as [Hst Hsn Hacc (Hsnap & Htr & _) Hx Hst' Hsn' _ _].
  assert (Hnew : forall acc, m' !! haddr a = Some (account_data acc) -> account_good (s_db s') acc ->
    getStateObject (newTxn (T := T) (C := C) (snapshot_of s' t')) a = Some (mkObject acc [] false false false None)).
  { intros acc Hm' Hg. unfold getStateObject. cbn -[snapshot_of]. rewrite rx_Get_New. cbn. rewrite (GetAccount_read s' t' m' a Hsn'), Hm'.
    rewrite Unmarshal_Marshal by apply Hg. by rewrite (Account_Copy_good _ _ Hg). }
  assert (Hnone : m' !! haddr a = None -> getStateObject (newTxn (T := T) (C := C) (snapshot_of s' t')) a = None).
  { intros Hm'. unfold getStateObject. cbn -[snapshot_of]. rewrite rx_Get_New. cbn. by rewrite (GetAccount_read s' t' m' a Hsn'), Hm'. }
  assert (Hgs : forall acc, getStateObject (newTxn (T := T) (C := C) (snapshot_of s' t')) a = Some (mkObject acc [] false false false None) ->
    forall k, txn_GetState (newTxn (T := T) (C := C) (snapshot_of s' t')) a k = sn_GetStorage (snapshot_of s' t') a (a_Root acc) k).
  { intros acc He k. unfold txn_GetState. by rewrite He. }
  unfold txn_GetState at 2. unfold getStateObject at 1 3. destruct (rx_Get (objects (txn x)) a) as [o|] eqn:Eo.
  - pose proof (commit_touched _ _ _ _ _ _ _ _ a o Hcd Ha Eo) as Hc. destruct (Htr a o Eo) as [_ Hgood].
    rewrite (object_Copy_good _ _ Hgood). destruct (o_Deleted o) eqn:Ed; [by rewrite Hnone|].
    destruct Hc as (root & sm & Hm' & Hg & Hsm & Hent). specialize (Hnew _ Hm' Hg). rewrite Hnew. split; [done|]. intros k Hk.
    rewrite (Hgs _ Hnew). cbn [a_Root]. destruct Hgood as [(_ & _ & Hrw & sm0 & Hst0) [Hgo _]].
    rewrite (storage_read s' t' a root sm k Hst' ltac:(apply Hg) Hsm), (Hent sm0 Hst0), committed_storage by done.
    destruct (match o_Txn o with Some tx => rx_Get tx k | None => None end); [done|].
    rewrite Hsnap. symmetry. apply storage_read; [by exists N|done|done].
  - rewrite Hsnap. destruct (snapshot_GetAccount s t m a Hsn Hacc Ha) as (r & -> & Hr).
    pose proof (commit_untouched _ _ _ _ _ _ _ _ a Hcd Ha Eo) as Hm. destruct r as [acc|]; [|rewrite Hnone by congruence; done].
    destruct Hr as (Hm0 & Hg & _). rewrite (Account_Copy_good _ _ Hg). rewrite Hm0 in Hm.
    assert (Hg' : account_good (s_db s') acc) by (destruct Hg as (? & ? & ?); split_and!; [done|done|by eapply known_extends]).
    specialize (Hnew _ Hm Hg'). rewrite Hnew. split; [done|]. intros k Hk. rewrite (Hgs _ Hnew). cbn [o_Txn o_Account].
    destruct Hg as (_ & _ & Hrw & sm & Hsm). rewrite (storage_read s' t' a _ sm k Hst' Hrw ltac:(by eapply written_extends)).
    symmetry. apply storage_read; [by exists N|done|done].
Qed.

(** What [GetCode] answers when the cache has no entry for the account. *)
Lemma GetCode_uncached x a :
  fst (txn_GetCode (set_cache (lru_New 20) x) a) =
    match getStateObject x a with
    | None => []
    | Some o => if o_DirtyCode o then o_Code o else default [] (sn_GetCode (snapshot x) (BytesToHash (a_CodeHash (o_Account o))))
    end.
Proof.
  unfold txn_GetCode. change (getStateObject (set_cache (lru_New 20) x) a) with (getStateObject x a).
  destruct (getStateObject x a) as [o|]; [|done]. destruct (o_DirtyCode o); [done|].
  pose proof (lru_Get_peek (lru_New (C := C) 20) a) as Hp. rewrite lru_peek_New in Hp. cbn [codeCache set_cache].
  destruct (lru_Get (lru_New (C := C) 20) a) as [v c]. cbn in Hp. by subst v.
Qed.

Lemma newTxn_clean sn a o : getStateObject (newTxn (T := T) (C := C) sn) a = Some o -> o_DirtyCode o = false.
Proof.
  unfold getStateObject. cbn. rewrite rx_Get_New. destruct (sn_GetAccount sn a) as [[acc|]|]; [|done|done]. by intros [= <-].
Qed.

(** The code of an account as the transaction has it is one of its hash. *)
Lemma code_at_object s t m x a o :
  snap_holds s t m -> accounts_good s m -> txn_good s t x -> A a -> getStateObject x a = Some o ->
  codes_sound (s_code s) (StateTxn.committed <$> rx_Walk (objects (txn x))) ->
  code_at (s_code s) (StateTxn.committed <$> rx_Walk (objects (txn x))) (BytesToHash (a_CodeHash (o_Account o)))
    (if o_DirtyCode o then o_Code o else default [] (s_code s (BytesToHash (a_CodeHash (o_Account o))))).
Proof.
  intros Ht Hm Hx Ha Ho Hs. pose proof (getStateObject_good _ _ _ _ _ _ Ht Hm Hx Ha Ho) as (_ & _ & Hc).
  destruct (o_DirtyCode o) eqn:Ed.
  - right. right. destruct Hx as (Hsn & Htr & _). unfold getStateObject in Ho.
    destruct (rx_Get (objects (txn x)) a) as [o0|] eqn:E.
    + destruct (Htr a o0 E) as [_ Hg]. rewrite (object_Copy_good _ _ Hg) in Ho. destruct (o_Deleted o0) eqn:Edel; [done|].
      injection Ho as ->. exists (StateTxn.committed (a, o)). split; [apply list_elem_of_fmap; exists (a, o); by rewrite rx_Walk_Get|done].
    + destruct (sn_GetAccount (snapshot x) a) as [[acc|]|]; [|done|done]. injection Ho as <-. done.
  - destruct (Hc eq_refl) as [He|[c Hc']]; [|left; by rewrite Hc']. rewrite He.
    destruct (s_code s (BytesToHash emptyCodeHash)) as [c|] eqn:E; [by left|right; by left].
Qed.

(** Every code is found again. *)
Lemma commit_code N s t m x s' t' m' a :
  commit_done N s t m x s' t' m' -> codes_sound (s_code s) (StateTxn.committed <$> rx_Walk (objects (txn x))) -> A a ->
  fst (txn_GetCode (newTxn (T := T) (C := C) (snapshot_of s' t')) a) = fst (txn_GetCode (set_cache (lru_New 20) x) a).
Proof.
  intros Hcd Hs Ha. pose proof (commit_view _ _ _ _ _ _ _ _ a Hcd Ha) as Hv.
  pose proof Hcd as [_ Hsn Hacc Hx _ _ _ _ Hcode].
  change (newTxn (T := T) (C := C) (snapshot_of s' t')) with (set_cache (lru_New 20) (newTxn (T := T) (C := C) (snapshot_of s' t'))).
  rewrite !GetCode_uncached. destruct (getStateObject x a) as [o|] eqn:E, (getStateObject (newTxn (snapshot_of s' t')) a) as [o'|] eqn:E'; try done.
  destruct Hv as [(_ & _ & Hh) _]. rewrite (newTxn_clean _ _ _ E'), Hh.
  change (sn_GetCode (snapshot (newTxn (T := T) (C := C) (snapshot_of s' t')))) with (s_code s'). rewrite Hcode.
  replace (sn_GetCode (snapshot x)) with (s_code s) by (destruct Hx as (-> & _); done).
  apply set_codes_read; [done|]. by eapply code_at_object.
Qed.

(** The accounts of the new snapshot are good again. *)
Lemma commit_accounts N s t m x s' t' m' : commit_done N s t m x s' t' m' -> accounts_good s' m'.
Proof.
  intros Hcd a Ha. pose proof Hcd as [_ _ Hacc (_ & Htr & _) Hx _ _ _ Hcode].
  assert (Hkn : forall h, code_known (s_code s) h -> code_known (s_code s') h).
  { intros h [->|[c Hc]]; [by left|right]. rewrite Hcode. apply (set_codes_some _ _ _ c). by left. }
  destruct (rx_Get (objects (txn x)) a) as [o|] eqn:Eo.
  - pose proof (commit_touched _ _ _ _ _ _ _ _ a o Hcd Ha Eo) as Hc. destruct (o_Deleted o) eqn:Ed; [by left|right].
    destruct Hc as (root & sm & Hm & Hg & _). eexists. split; [exact Hm|]. split; [done|]. cbn [a_CodeHash].
    destruct (Htr a o Eo) as (_ & _ & _ & Hc). destruct (o_DirtyCode o) eqn:Ey; [right|by apply Hkn, Hc].
    rewrite Hcode. apply (set_codes_some _ _ _ []). right. exists (StateTxn.committed (a, o)).
    split; [apply list_elem_of_fmap; exists (a, o); by rewrite rx_Walk_Get|done].
  - rewrite (commit_untouched _ _ _ _ _ _ _ _ a Hcd Ha Eo). destruct (Hacc a Ha) as [?|(acc & Hm & Hg & Hc)]; [by left|right].
    exists acc. split; [done|]. split; [|by apply Hkn]. destruct Hg as (? & ? & ?). split_and!; [done|done|by eapply known_extends].
Qed.

(** Two transactions that answer every question about [a] and [k] alike. The code is
    the one [GetCode] answers without its cache, which the old transaction may have
    filled before the code was changed. *)
Definition same_view (x y : Txn T C) (a : Address) (k : Hash) : Prop :=
  Exist y a = Exist x a /\ txn_GetBalance y a = txn_GetBalance x a /\ txn_GetNonce y a = txn_GetNonce x a /\
  txn_GetCodeHash y a = txn_GetCodeHash x a /\ txn_GetState y a k = txn_GetState x a k /\
  fst (txn_GetCode (set_cache (lru_New 20) y) a) = fst (txn_GetCode (set_cache (lru_New 20) x) a).

Lemma commit_same_view N s t m x s' t' m' a k :
  commit_done N s t m x s' t' m' -> codes_sound (s_code s) (StateTxn.committed <$> rx_Walk (objects (txn x))) ->
  A a -> S k -> same_view x (newTxn (snapshot_of s' t')) a k.
Proof.
  intros Hcd Hs Ha Hk. pose proof (commit_code _ _ _ _ _ _ _ _ a Hcd Hs Ha) as Hcode. pose proof (commit_view _ _ _ _ _ _ _ _ a Hcd Ha) as Hv.
  unfold same_view, Exist, txn_GetBalance, txn_GetNonce, txn_GetCodeHash.
  destruct (getStateObject x a) as [o|] eqn:E, (getStateObject (newTxn (snapshot_of s' t')) a) as [o'|] eqn:E'; try done.
  - destruct Hv as [(-> & -> & ->) Hg]. by rewrite Hg.
  - split_and!; try done. unfold txn_GetState. by rewrite E, E'.
Qed.

(** A state and a snapshot of it that can be worked on. *)
Definition chain_state (N : Z) s (t : Trie) : Prop :=
  exists m, state_ok N s /\ snap_holds s t m /\ accounts_good s m /\ t_epoch t <= N.

(** The same root opened after a restart. *)
Lemma reopen_ok s t m root :
  (exists N, state_ok N s) -> snap_holds s t m -> accounts_good s m -> stored_at 32 (s_db s) root m ->
  exists t' s', NewSnapshotAt (NewState (C := K) (s_db s) (s_code s)) (BytesToHash root) = Some (Ok t', s') /\
    s_db s' = s_db s /\ s_code s' = s_code s /\ state_ok 0 s' /\ snap_holds s' t' m /\ t_epoch t' <= 0 /\ accounts_good s' m.
Proof.
  intros [N (_ & _ & Hs)] Ht Hacc Hst. set (s0 := NewState (s_db s) (s_code s)).
  assert (Hc0 : cache_ok (s_db s0) (of_db (s_db s0)) 0 s0) by (intros r u Hu; cbn in Hu; by rewrite lru_peek_New in Hu).
  assert (Hroot : be_bytes 32 (BytesToHash root) = root /\ word (BytesToHash root)).
  { destruct Hst as (_ & q & Hq & -> & _). destruct (root_of_bytes 32 m (merkle q)) as [Hb Hl]; [by exists q|].
    split; [by apply be_bytes_hash|by apply BytesToHash_word]. }
  destruct Hroot as [Hrb Hrw].
  destruct (newTrieAt_ok (s_db s) (of_db (s_db s)) 0 s0 (BytesToHash root) m eq_refl Hc0 (fun _ _ Hk => Hk) ltac:(lia) Hrw)
    as (t' & s' & m' & He & Hdb & Hcode & Hc' & Hcm & Hep & Hm); [by rewrite Hrb|].
  rewrite (Hm Hs) in Hcm. exists t', s'. split; [done|]. split; [done|]. split; [done|]. 
  split; [unfold state_ok; rewrite Hdb; split; [done|split; [lia|done]]|].
  split; [unfold snap_holds; by rewrite Hdb|]. split; [done|]. unfold accounts_good. by rewrite Hdb, Hcode.
Qed.

Lemma same_view_restart s s' t t' m x a k :
  (exists N, state_ok N s) -> (exists N, state_ok N s') -> s_db s' = s_db s -> s_code s' = s_code s -> snap_holds s t m -> snap_holds s' t' m ->
  accounts_good s m -> A a -> same_view x (newTxn (snapshot_of s t)) a k -> same_view x (newTxn (snapshot_of s' t')) a k.
Proof.
  intros Hs Hs' Hdb Hcode Ht Ht' Hacc Ha.
  assert (Hobj : getStateObject (newTxn (T := T) (C := C) (snapshot_of s' t')) a =
    getStateObject (newTxn (T := T) (C := C) (snapshot_of s t)) a).
  { unfold getStateObject. cbn -[snapshot_of]. rewrite rx_Get_New. cbn. by rewrite (GetAccount_read _ _ _ _ Ht), (GetAccount_read _ _ _ _ Ht'). }
  assert (Hstate : txn_GetState (newTxn (T := T) (C := C) (snapshot_of s' t')) a k = txn_GetState (newTxn (T := T) (C := C) (snapshot_of s t)) a k).
  { unfold txn_GetState. rewrite Hobj. destruct (getStateObject (newTxn (T := T) (C := C) (snapshot_of s t)) a) as [o|] eqn:E; [|done].
    destruct (match o_Txn o with Some tx => rx_Get tx k | None => None end); [done|].
    destruct (getStateObject_good s t m _ a o Ht Hacc (newTxn_good s t) Ha E) as [(_ & _ & Hrw & sm & Hsm) _].
    change (snapshot (newTxn (T := T) (C := C) (snapshot_of s' t'))) with (snapshot_of s' t').
    change (snapshot (newTxn (T := T) (C := C) (snapshot_of s t))) with (snapshot_of s t).
    rewrite (storage_read s' t' a _ sm k Hs' Hrw ltac:(by rewrite Hdb)). symmetry. by apply storage_read. }
  unfold same_view, Exist, txn_GetBalance, txn_GetNonce, txn_GetCodeHash. rewrite !GetCode_uncached, Hobj, Hstate.
  change (sn_GetCode (snapshot (newTxn (T := T) (C := C) (snapshot_of s' t')))) with (s_code s'). by rewrite Hcode.
Qed.
End Txn.

(** * Theorems on the committed state

    The contents of a transaction survive the commit to the tries, the write of the
    batch and a restart. *)
Local Open Scope go_scope.

Section Chain.
Context `{Fastrlp} `{!CodecLaws} `{!FastrlpLaws} {K : Type} `{!Lru Hash Trie K} `{!LruLaws Hash Trie K}.
Context {T : Type -> Type} `{!Radix T} `{!RadixLaws T} {C : Type} `{!Lru Address (list Z) C}.
Context `{!LruLaws Address (list Z) C}.

Lemma chain_new A code : chain_state A 0 (NewState (C := K) (fun _ => None) code) NewTrie.
Proof.
  exists ∅. split; [|split; [apply (committed_new 32)|split; [|done]]].
  - split; [intros r t Hp; cbn in Hp; by rewrite lru_peek_New in Hp|]. split; [done|]. by split.
  - intros a _. left. apply lookup_empty.
Qed.

(** C3. A block's worth of operations on the accounts [A] and the storage keys [S]
    (balances, nonces, code, storage, creation, destruction, snapshots and
    reverts), committed: the commit of the transaction and of the objects to the
    tries succeed, and unless two nodes written to the database or two codes have one
    hash, a transaction on the new snapshot answers every question (existence,
    balance, nonce, code hash, code, storage) as the old one did at its end, and so
    does one on the snapshot opened by its root after a restart without the caches;
    the new state can be worked on in the same way. The code of the old transaction
    is the one it answers without its cache of codes. *)
Theorem commit_block (A : Address -> Prop) (S : Hash -> Prop) N (s : State K) t ops (x : Txn T C) b :
  (forall a, A a -> addr_ok a) -> (forall a a', A a -> A a' -> haddr a = haddr a' -> a = a') ->
  (forall k k', S k -> S k' -> hkey k = hkey k' -> k = k') ->
  chain_state A N s t -> Forall (txn_op_ok A S) ops -> txn_runs ops (newTxn (snapshot_of s t)) = Some x ->
  exists objs x', txn_Commit x b = Some (objs, x') /\
  (N + Z.of_nat (length objs) + 1 < 2 ^ 32 ->
   exists t' root s' puts, Commit s t objs = Some (t', root, s', puts) /\
   (sound (with_puts (of_db (s_db s)) puts) -> codes_sound (s_code s) objs ->
      chain_state A (N + Z.of_nat (length objs) + 1) s' t' /\
      (forall a k, A a -> S k -> same_view x' (newTxn (snapshot_of s' t')) a k) /\
      exists t'' s'', NewSnapshotAt (NewState (C := K) (s_db s') (s_code s')) (BytesToHash root) = Some (Ok t'', s'') /\
        chain_state A 0 s'' t'' /\
        forall a k, A a -> S k -> same_view x' (newTxn (snapshot_of s'' t'')) a k)).
Proof.
  intros HAa HAi HSi (m & Hs & Ht & Hacc & Hep) Hops Hrun.
  pose proof (txn_runs_good A S s t m ops _ x Ht Hacc (newTxn_good A S s t) Hops Hrun) as Hx.
  destruct (CleanDeleteObjects_spec x b) as (x' & Hclean & _). pose proof (Clean_good A S s t x b x' Hx Hclean) as Hx'.
  unfold txn_Commit. rewrite Hclean. eexists _, x'. split; [done|]. intros HN.
  assert (Hobjs : Forall (object_ok (s_db s)) (StateTxn.committed <$> rx_Walk (objects (txn x')))).
  { apply Forall_forall. intros o ([a ob] & -> & Hw)%list_elem_of_fmap. apply rx_Walk_Get in Hw.
    destruct Hx' as (_ & Htr & _). destruct (Htr a ob Hw) as [Ha Hob]. by eapply committed_ok. }
  destruct (Commit_ok N s t m _ Hs Ht Hep HN Hobjs) as (t' & root & s' & puts & m' & He & _ & Hcode & Hres).
  exists t', root, s', puts. split; [done|]. intros Hsound Hcodes.
  destruct (Hres Hsound) as (Hext & Hs' & Ht' & Hst & Hep' & Hef).
  assert (Hcd : commit_done A S N s t m x' s' t' m') by (by split; [..|eexists| | |]).
  pose proof (commit_accounts A S HAi N s t m x' s' t' m' Hcd) as Hacc'.
  assert (Hview : forall a k, A a -> S k -> same_view x' (newTxn (snapshot_of s' t')) a k)
    by (intros a k Ha Hk; by eapply commit_same_view).
  split; [by exists m'|]. split; [done|].
  destruct (reopen_ok A s' t' m' root ltac:(by eexists) Ht' Hacc' Hst) as (t'' & s'' & Hopen & Hdb & Hc'' & Hs'' & Ht'' & Hep'' & Hacc'').
  exists t'', s''. split; [done|]. split; [by exists m'|]. intros a k Ha Hk.
  by eapply (same_view_restart A S s' s'' t' t'' m'); [eexists|eexists|..|apply Hview].
Qed.
End Chain.

(** ** An example *)

Definition some_db (puts : batch) : bool :=
  forallb (fun p => forallb (fun q => negb (bool_decide (fst p = fst q)) || bool_decide (snd p = snd q)) puts) puts &&
  forallb (fun p => negb (bool_decide (fst p = emptyRoot))) puts.

Lemma sound_check puts : some_db puts = true -> sound (with_puts (of_db (fun _ => None)) puts).
Proof.
  intros [H1 H2]%andb_true_iff. rewrite forallb_forall in H1. rewrite forallb_forall in H2. split.
  - intros k d d' [?|Hd%list_elem_of_In]; [done|]. intros [?|Hd'%list_elem_of_In]; [done|].
    specialize (H1 _ Hd). rewrite forallb_forall in H1. specialize (H1 _ Hd'). cbn in H1.
    rewrite bool_decide_true in H1 by done. by apply bool_decide_eq_true in H1.
  - intros d [?|Hd%list_elem_of_In]; [done|]. specialize (H2 _ Hd). cbn in H2. by rewrite bool_decide_true in H2.
Qed.

Definition some_codes (objs : list Object) : bool :=
  let l := (BytesToHash emptyCodeHash, []) ::
    ((fun o => (ob_CodeHash o, ob_Code o)) <$> filter (fun o => ob_Deleted o = false /\ ob_DirtyCode o = true) objs) in
  forallb (fun p => forallb (fun q => negb (fst p =? fst q) || bool_decide (snd p = snd q)) l) l.

Lemma codes_check objs : some_codes objs = true -> codes_sound (fun _ => None) objs.
Proof.
  unfold some_codes. set (l := _ :: _). intros Hl h c c' Hc Hc'. rewrite forallb_forall in Hl.
  assert (Hin : forall c, code_at (fun _ => None) objs h c -> (h, c) ∈ l).
  { intros d [?|[[-> ->]|(o & Ho & Hd & Hy & <- & <-)]]; [done|by constructor|]. unfold l. apply elem_of_cons. right.
    apply list_elem_of_fmap. exists o. split; [done|]. by apply list_elem_of_filter. }
  pose proof (Hl _ (proj1 (list_elem_of_In _ _) (Hin c Hc))) as Hp. cbn beta in Hp. rewrite forallb_forall in Hp.
  pose proof (Hp _ (proj1 (list_elem_of_In _ _) (Hin c' Hc'))) as Hq. cbn [fst snd] in Hq. rewrite Z.eqb_refl in Hq.
  by apply bool_decide_eq_true in Hq.
Qed.

Definition sample_state : State (alist Trie) := NewState (fun _ => None) (fun _ => None).

Definition sample_ops : list txn_op :=
  [XAddBalance 17 100; XSetState 17 5 77; XSnapshot; XSetCode 18 [1; 2; 3]; XRevert 0; XSetCode 18 [4];
   XIncrNonce 18; XSubBalance 17 30; XTouch 19; XSetState 17 6 0].

Definition sample_addr (a : Address) : Prop := a ∈ [17; 18; 19].
Definition sample_key (k : Hash) : Prop := k ∈ [5; 6].

Lemma sample_addr_inj a a' : sample_addr a -> sample_addr a' -> haddr a = haddr a' -> a = a'.
Proof.
  unfold sample_addr. rewrite !elem_of_cons, !elem_of_nil. intros Ha Ha'.
  assert (Hn : haddr 17 <> haddr 18 /\ haddr 17 <> haddr 19 /\ haddr 18 <> haddr 19)
    by (split; [|split]; vm_compute; discriminate). destruct Hn as (H1 & H2 & H3).
  destruct Ha as [-> | [-> | [-> | []]]], Ha' as [-> | [-> | [-> | []]]]; congruence.
Qed.

Lemma sample_key_inj k k' : sample_key k -> sample_key k' -> hkey k = hkey k' -> k = k'.
Proof.
  unfold sample_key. rewrite !elem_of_cons, !elem_of_nil. intros Hk Hk'.
  assert (Hn : hkey 5 <> hkey 6) by (vm_compute; discriminate).
  destruct Hk as [-> | [-> | []]], Hk' as [-> | [-> | []]]; congruence.
Qed.

Lemma sample_addr_ok a : sample_addr a -> addr_ok a.
Proof.
  unfold sample_addr, addr_ok. rewrite !elem_of_cons, !elem_of_nil. intros [-> | [-> | [-> | []]]]; lia.
Qed.

Lemma sample_ops_ok : Forall (txn_op_ok sample_addr sample_key) sample_ops.
Proof.
  unfold sample_ops. repeat (apply List.Forall_cons || apply List.Forall_nil);
    cbn; unfold sample_addr, sample_key, word; repeat split; try lia; try in_list.
Qed.

Definition sample_objects : list Object :=
  match txn_runs sample_ops (newTxn (T := alist) (C := alist (list Z)) (snapshot_of sample_state NewTrie)) with
  | Some x => match txn_Commit x true with Some (objs, _) => objs | None => [] end
  | None => []
  end.

Lemma commit_block_witness :
  exists t' root s' puts, Commit sample_state NewTrie sample_objects = Some (t', root, s', puts) /\
    txn_GetBalance (newTxn (T := alist) (C := alist (list Z)) (snapshot_of s' t')) 17 = 70 /\
    fst (txn_GetCode (newTxn (T := alist) (C := alist (list Z)) (snapshot_of s' t')) 18) = [4].
Proof.
  destruct (txn_runs sample_ops (newTxn (T := alist) (C := alist (list Z)) (snapshot_of sample_state NewTrie))) as [x|] eqn:Ex.
  2: { exfalso. assert (Hs : (fun _ => tt) <$> txn_runs sample_ops
         (newTxn (T := alist) (C := alist (list Z)) (snapshot_of sample_state NewTrie)) = Some tt) by (vm_compute; reflexivity).
       by rewrite Ex in Hs. }
  destruct (commit_block (T := alist) (C := alist (list Z)) sample_addr sample_key 0 sample_state NewTrie sample_ops x true)
    as (objs & x' & Hc & Hres).
  - exact sample_addr_ok.
  - exact sample_addr_inj.
  - exact sample_key_inj.
  - apply chain_new.
  - exact sample_ops_ok.
  - exact Ex.
  - assert (Hobjs : sample_objects = objs) by (unfold sample_objects; by rewrite Ex, Hc). subst objs.
    destruct Hres as (t' & root & s' & puts & He & Hv); [vm_compute; reflexivity|].
    exists t', root, s', puts. split; [done|].
    assert (Hp : some_db puts = true).
    { assert (Hp0 : (fun r => some_db (snd r)) <$> Commit sample_state NewTrie sample_objects = Some true) by (vm_compute; reflexivity).
      rewrite He in Hp0. by injection Hp0. }
    assert (Hk : some_codes sample_objects = true) by (vm_compute; reflexivity).
    destruct (Hv (sound_check puts Hp) (codes_check _ Hk)) as (_ & Hview & _).
    assert (Hx : (fun r => (txn_GetBalance (snd r) 17, fst (txn_GetCode (set_cache (lru_New 20) (snd r)) 18))) <$> txn_Commit x true = Some (70, [4])).
    { assert (Hb0 : (fun r => (txn_GetBalance (snd r) 17, fst (txn_GetCode (set_cache (lru_New 20) (snd r)) 18))) <$> (txn_runs sample_ops
         (newTxn (T := alist) (C := alist (list Z)) (snapshot_of sample_state NewTrie)) ≫= fun x => txn_Commit x true) = Some (70, [4]))
        by (vm_compute; reflexivity).
      by rewrite Ex in Hb0. }
    rewrite Hc in Hx. injection Hx as Hb Hcode. split.
    + destruct (Hview 17 5 ltac:(unfold sample_addr; in_list) ltac:(unfold sample_key; in_list)) as (_ & -> & _). done.
    + destruct (Hview 18 5 ltac:(unfold sample_addr; in_list) ltac:(unfold sample_key; in_list)) as (_ & _ & _ & _ & _ & Hg).
      etransitivity; [exact Hg|exact Hcode].
Defined.
