(* ===== verification/ChainRlp.v ===== *)
(** * RLP forms of blocks, transactions and receipts
      ([types/rlp_marshal.go], [rlp_marshal_storage.go], [rlp_unmarshal.go],
      [rlp_unmarshal_storage.go])

    Encoders build a [Value] with an arena; the [MarshalRLP] functions marshal it.
    Decoders read a parsed tree field by field and can fail or, where an element
    is taken without a bounds check, panic ([None]). A decoder is given its
    receiver where fields of it survive. *)

From S2P Require Import Prelude ChainTypes BigInt Runtime Receipts Rlp.
Local Open Scope go_scope.

(** ** Decoders *)

Inductive RlpErr :=
| ErrRlp
| ErrElems (expected found : nat)
| ErrTypeSize (size : nat)
| ErrTxType (b : Z).

Definition Dec (A : Type) : Type := option (result RlpErr A).

#[global] Instance Dec_ret : MRet Dec := fun A a => Some (Ok a).
#[global] Instance Dec_bind : MBind Dec := fun A B f m =>
  match m with None => None | Some (Err e) => Some (Err e) | Some (Ok a) => f a end.

Definition fail {A} (e : RlpErr) : Dec A := Some (Err e).
Definition lift {A} (o : option A) : Dec A :=
  match o with Some a => mret a | None => fail ErrRlp end.

(** [v.GetElems()], [elems[i]] and the test on the number of elements. *)
Definition GetElems (v : rlp) : Dec (list rlp) :=
  match v with RArray l => mret l | RBytes _ => fail ErrRlp end.
Definition elem (elems : list rlp) (i : nat) : Dec rlp :=
  match elems !! i with Some v => mret v | None => None end.
Definition atLeast (n : nat) (elems : list rlp) : Dec unit :=
  if (length elems <? n)%nat then fail (ErrElems n (length elems)) else mret tt.

Fixpoint each {A B} (f : A -> Dec B) (l : list A) : Dec (list B) :=
  match l with
  | [] => mret []
  | a :: l => b ← f a; bs ← each f l; mret (b :: bs)
  end.

Section ChainRlp.
Context `{Fastrlp} `{HeaderHasher}.

(** ** Encoders *)

Definition hash_value (h : Hash) : Value := VBytes (be_bytes 32 h).
Definition addr_value (a : Address) : Value := VBytes (be_bytes 20 a).

Definition header_MarshalRLPWith (h : Header) : Value :=
  VArray [hash_value (h_ParentHash h); hash_value (h_Sha3Uncles h); VBytes (h_Miner h);
          hash_value (h_StateRoot h); hash_value (h_TxRoot h); hash_value (h_ReceiptsRoot h);
          VBytes (h_LogsBloom h);
          VUint (h_Difficulty h); VUint (h_Number h); VUint (h_GasLimit h); VUint (h_GasUsed h);
          VUint (h_Timestamp h);
          VBytes (h_ExtraData h); hash_value (h_MixHash h); VBytes (be_bytes 8 (h_Nonce h))].

Definition header_MarshalRLP (h : Header) : list Z := fastrlp_MarshalTo (header_MarshalRLPWith h).

(** The hash of a header when no consensus engine replaced [HeaderHash]. *)
Definition defHeaderHash (h : Header) : Hash := be_val (keccak256 (header_MarshalRLP h)).

(** [NewNullArray] when there is nothing to put into the array. *)
Definition array_or_null (l : list Value) : Value :=
  match l with [] => VNullArray | _ => VArray l end.

Definition typed (ty : Z) (v : Value) : list Value :=
  if ty =? LegacyTx then [v] else [VBytes [ty]; v].

Definition block_MarshalRLPWith (b : Block) : Value :=
  VArray [header_MarshalRLPWith (b_Header b);
          array_or_null (concat ((fun tx => typed (TxType tx) (tx_MarshalRLPWith tx)) <$> b_Transactions b));
          array_or_null (header_MarshalRLPWith <$> b_Uncles b)].

Definition block_MarshalRLP (b : Block) : list Z := fastrlp_MarshalTo (block_MarshalRLPWith b).

Definition log_MarshalRLPWith (l : Log) : Value :=
  VArray [addr_value (l_Address l); VArray (hash_value <$> l_Topics l); VBytes (l_Data l)].

Definition MarshalLogsWith (r : Receipt) : Value := array_or_null (log_MarshalRLPWith <$> Logs r).

Definition receipt_MarshalRLPWith (r : Receipt) : Value :=
  VArray [match Status r with Some s => VUint s | None => hash_value (r_Root r) end;
          VUint (CumulativeGasUsed r); VBytes (LogsBloom r); MarshalLogsWith r].

Definition receipts_MarshalRLPWith (rr : list Receipt) : Value :=
  VArray (concat ((fun r => typed (TransactionType r) (receipt_MarshalRLPWith r)) <$> rr)).

Definition receipt_MarshalRLP (r : Receipt) : list Z :=
  (if IsLegacyTx r then [] else [TransactionType r]) ++ fastrlp_MarshalTo (receipt_MarshalRLPWith r).

(** *** The form in the storage *)

Definition tx_marshalStoreRLPWith (t : Transaction) : Value :=
  VArray (typed (TxType t) (tx_MarshalRLPWith t) ++ [addr_value (From t)]).

Definition body_marshalRLPWith (b : Body) : Value :=
  VArray [array_or_null (tx_marshalStoreRLPWith <$> body_Transactions b);
          array_or_null (header_MarshalRLPWith <$> body_Uncles b)].

Definition body_MarshalRLP (b : Body) : list Z := fastrlp_MarshalTo (body_marshalRLPWith b).

Definition receipt_marshalStoreRLPWith (r : Receipt) : Value :=
  VArray (typed (TransactionType r) (receipt_MarshalRLPWith r) ++
          [match ContractAddress r with None => VNull | Some a => addr_value a end;
           VUint (r_GasUsed r); hash_value (r_TxHash r)]).

Definition receipts_marshalStoreRLPWith (rr : list Receipt) : Value :=
  VArray (receipt_marshalStoreRLPWith <$> rr).

Definition receipts_MarshalStoreRLP (rr : list Receipt) : list Z :=
  fastrlp_MarshalTo (receipts_marshalStoreRLPWith rr).

(** ** Decoders of the network form *)

Definition UnmarshalRlp {A} (obj : rlp -> Dec A) (input : list Z) : Dec A :=
  v ← lift (fastrlp_Parse input); obj v.

Definition type_unmarshalRLPFrom (v : rlp) : Dec Z :=
  bytes ← lift (rlp_Bytes v);
  match bytes with
  | [b] => match txTypeFromByte b with Some ty => mret ty | None => fail (ErrTxType b) end
  | _ => fail (ErrTypeSize (length bytes))
  end.

(** The loop over typed elements: an element that is a byte string is the type of
    the next one, which is taken without a bounds check. *)
Fixpoint typed_items {A} (cb : Z -> rlp -> Dec A) (elems : list rlp) : Dec (list A) :=
  match elems with
  | [] => mret []
  | RBytes b :: rest =>
      ty ← type_unmarshalRLPFrom (RBytes b);
      match rest with
      | [] => None
      | v :: rest => x ← cb ty v; xs ← typed_items cb rest; mret (x :: xs)
      end
  | v :: rest => x ← cb LegacyTx v; xs ← typed_items cb rest; mret (x :: xs)
  end.

Definition unmarshalRLPFrom {A} (v : rlp) (cb : Z -> rlp -> Dec A) : Dec (list A) :=
  elems ← GetElems v; typed_items cb elems.

(** [elems[i].GetUint64()] and the like. *)
Definition field {A} (get : rlp -> option A) (elems : list rlp) (i : nat) : Dec A :=
  v ← elem elems i; lift (get v).

Definition header_unmarshalRLPFrom (v : rlp) : Dec Header :=
  elems ← GetElems v;
  _ ← atLeast 15 elems;
  parentHash ← field rlp_GetHash elems 0;
  sha3Uncles ← field rlp_GetHash elems 1;
  miner ← field rlp_GetBytes elems 2;
  stateRoot ← field rlp_GetHash elems 3;
  txRoot ← field rlp_GetHash elems 4;
  receiptsRoot ← field rlp_GetHash elems 5;
  logsBloom ← field (rlp_GetBytesN 256) elems 6;
  difficulty ← field rlp_GetUint64 elems 7;
  number ← field rlp_GetUint64 elems 8;
  gasLimit ← field rlp_GetUint64 elems 9;
  gasUsed ← field rlp_GetUint64 elems 10;
  timestamp ← field rlp_GetUint64 elems 11;
  extraData ← field rlp_GetBytes elems 12;
  mixHash ← field rlp_GetHash elems 13;
  nonce ← field rlp_GetUint64 elems 14;
  mret (h_ComputeHash (mkHeader parentHash sha3Uncles miner stateRoot txRoot receiptsRoot logsBloom
    difficulty number gasLimit gasUsed timestamp extraData mixHash nonce ZeroHash)).

Definition header_UnmarshalRLP (input : list Z) : Dec Header :=
  UnmarshalRlp header_unmarshalRLPFrom input.

(** [input] is the buffer of the parser, from which the hash is taken. *)
Definition tx_unmarshalRLPFrom (input : list Z) (t : Transaction) (v : rlp) : Dec Transaction :=
  elems ← GetElems v;
  _ ← atLeast 9 elems;
  let hash := parser_Hash input v in
  nonce ← field rlp_GetUint64 elems 0;
  gasPrice ← field rlp_GetBigInt elems 1;
  gas ← field rlp_GetUint64 elems 2;
  vv ← elem elems 3;
  let to := match rlp_Bytes vv with
            | Some b => if (length b =? 20)%nat then Some (BytesToAddress b) else None
            | None => None
            end in
  value ← field rlp_GetBigInt elems 4;
  inp ← field rlp_GetBytes elems 5;
  V ← field rlp_GetBigInt elems 6;
  R ← field rlp_GetBigInt elems 7;
  S ← field rlp_GetBigInt elems 8;
  let from :=
    if TxType t =? StateTx then
      match elems !! 9%nat with
      | Some vv => match rlp_Bytes vv with
                   | Some b => if (length b =? 20)%nat then BytesToAddress b else ZeroAddress
                   | None => ZeroAddress
                   end
      | None => ZeroAddress
      end
    else From t in
  mret (mkTx nonce gasPrice gas to value inp V R S hash from (TxType t)).

Definition new_tx (ty : Z) : Transaction := mkTx 0 0 0 None 0 [] 0 0 0 ZeroHash ZeroAddress ty.

(** A first byte up to [RLPSingleByteUpperLimit] is the type of what follows. *)
Definition RLPSingleByteUpperLimit : Z := 127.

Definition leading_type (input : list Z) : Dec (Z * list Z) :=
  match input with
  | b :: rest =>
      if b <=? RLPSingleByteUpperLimit
      then match txTypeFromByte b with Some ty => mret (ty, rest) | None => fail (ErrTxType b) end
      else mret (LegacyTx, input)
  | [] => mret (LegacyTx, input)
  end.

Definition tx_UnmarshalRLP (input : list Z) : Dec Transaction :=
  '(ty, input) ← leading_type input;
  UnmarshalRlp (tx_unmarshalRLPFrom input (new_tx ty)) input.

Definition block_tx (input : list Z) (ty : Z) (v : rlp) : Dec Transaction :=
  tx ← tx_unmarshalRLPFrom input (new_tx ty) v; mret (ComputeHash tx).

Definition uncles_unmarshal (v : rlp) : Dec (list Header) :=
  uncles ← GetElems v; each header_unmarshalRLPFrom uncles.

Definition block_unmarshalRLPFrom (input : list Z) (v : rlp) : Dec Block :=
  elems ← GetElems v;
  _ ← atLeast 3 elems;
  v0 ← elem elems 0; header ← header_unmarshalRLPFrom v0;
  v1 ← elem elems 1; txs ← unmarshalRLPFrom v1 (block_tx input);
  v2 ← elem elems 2; uncles ← uncles_unmarshal v2;
  mret (mkBlock header txs uncles).

Definition block_UnmarshalRLP (input : list Z) : Dec Block :=
  UnmarshalRlp (block_unmarshalRLPFrom input) input.

Definition log_unmarshalRLPFrom (v : rlp) : Dec Log :=
  elems ← GetElems v;
  _ ← atLeast 3 elems;
  address ← field rlp_GetAddr elems 0;
  v1 ← elem elems 1;
  topicElems ← GetElems v1;
  topics ← each (fun topic => lift (rlp_GetHash topic)) topicElems;
  data ← field rlp_GetBytes elems 2;
  mret (mkLog address topics data).

Definition new_receipt (ty : Z) : Receipt :=
  mkReceipt ZeroHash 0 (replicate BloomByteLength 0) [] None 0 None ZeroHash ty.

Definition receipt_unmarshalRLPFrom (r : Receipt) (v : rlp) : Dec Receipt :=
  elems ← GetElems v;
  _ ← atLeast 4 elems;
  buf ← field rlp_Bytes elems 0;
  let '(root, status) :=
    match buf with
    | [b] => (r_Root r, Some b)
    | _ => if (length buf =? 32)%nat then (be_val buf, Status r) else (r_Root r, Some 0)
    end in
  cumulativeGasUsed ← field rlp_GetUint64 elems 1;
  logsBloom ← field (rlp_GetBytesN 256) elems 2;
  v3 ← elem elems 3;
  logsElems ← GetElems v3;
  logs ← each log_unmarshalRLPFrom logsElems;
  mret (mkReceipt root cumulativeGasUsed logsBloom (Logs r ++ logs) status
          (r_GasUsed r) (ContractAddress r) (r_TxHash r) (TransactionType r)).

Definition receipts_unmarshalRLPFrom (v : rlp) : Dec (list Receipt) :=
  unmarshalRLPFrom v (fun ty v => receipt_unmarshalRLPFrom (new_receipt ty) v).

Definition receipts_UnmarshalRLP (input : list Z) : Dec (list Receipt) :=
  UnmarshalRlp receipts_unmarshalRLPFrom input.

Definition receipt_UnmarshalRLP (input : list Z) : Dec Receipt :=
  '(ty, input) ← leading_type input;
  UnmarshalRlp (receipt_unmarshalRLPFrom (new_receipt ty)) input.

(** ** Decoders of the storage form *)

Definition set_TxType (ty : Z) (t : Transaction) : Transaction :=
  mkTx (Nonce t) (GasPrice t) (Gas t) (To t) (TxValue t) (Input t)
       (sigV t) (sigR t) (sigS t) (TxHash t) (From t) ty.

Definition tx_unmarshalStoreRLPFrom (input : list Z) (t : Transaction) (v : rlp) : Dec Transaction :=
  elems ← GetElems v;
  if negb (length elems =? 2)%nat && negb (length elems =? 3)%nat
  then fail (ErrElems 3 (length elems))
  else
    '(t, elems) ←
      (if (length elems =? 3)%nat
       then v0 ← elem elems 0; ty ← type_unmarshalRLPFrom v0; mret (set_TxType ty t, drop 1 elems)
       else mret (t, elems));
    v0 ← elem elems 0;
    t ← tx_unmarshalRLPFrom input t v0;
    from ← field rlp_GetAddr elems 1;
    mret (ComputeHash (set_From from t)).

Definition body_tx (input : list Z) (ty : Z) (v : rlp) : Dec Transaction :=
  tx ← tx_unmarshalStoreRLPFrom input (new_tx ty) v; mret (ComputeHash tx).

Definition body_unmarshalRLPFrom (input : list Z) (v : rlp) : Dec Body :=
  tuple ← GetElems v;
  _ ← atLeast 2 tuple;
  v0 ← elem tuple 0; txs ← unmarshalRLPFrom v0 (body_tx input);
  v1 ← elem tuple 1; uncles ← uncles_unmarshal v1;
  mret (mkBody txs uncles).

Definition body_UnmarshalRLP (input : list Z) : Dec Body :=
  UnmarshalRlp (body_unmarshalRLPFrom input) input.

Definition set_TransactionType (ty : Z) (r : Receipt) : Receipt :=
  mkReceipt (r_Root r) (CumulativeGasUsed r) (LogsBloom r) (Logs r) (Status r) (r_GasUsed r)
    (ContractAddress r) (r_TxHash r) ty.

Definition set_context (a : option Address) (gasUsed : Z) (txHash : Hash) (r : Receipt) : Receipt :=
  mkReceipt (r_Root r) (CumulativeGasUsed r) (LogsBloom r) (Logs r) (Status r) gasUsed a txHash
    (TransactionType r).

(** The part after the transaction type. *)
Definition receipt_context (r : Receipt) (elems : list rlp) : Dec Receipt :=
  v0 ← elem elems 0;
  r ← receipt_unmarshalRLPFrom r v0;
  vv ← field rlp_Bytes elems 1;
  let address := if (length vv =? 20)%nat then Some (BytesToAddress vv) else ContractAddress r in
  gasUsed ← field rlp_GetUint64 elems 2;
  txHash ← (if (length elems =? 4)%nat
            then b ← field rlp_Bytes elems 3; mret (BytesToHash b)
            else mret (r_TxHash r));
  mret (set_context address gasUsed txHash r).

Definition receipt_unmarshalStoreRLPFrom (r : Receipt) (v : rlp) : Dec Receipt :=
  elems ← GetElems v;
  _ ← atLeast 4 elems;
  '(r, elems) ←
    (if (length elems =? 5)%nat
     then v0 ← elem elems 0; ty ← type_unmarshalRLPFrom v0; mret (set_TransactionType ty r, drop 1 elems)
     else mret (r, elems));
  receipt_context r elems.

Definition receipts_unmarshalStoreRLPFrom (v : rlp) : Dec (list Receipt) :=
  unmarshalRLPFrom v (fun ty v => receipt_unmarshalStoreRLPFrom (new_receipt ty) v).

Definition receipts_UnmarshalStoreRLP (input : list Z) : Dec (list Receipt) :=
  UnmarshalRlp receipts_unmarshalStoreRLPFrom input.

End ChainRlp.

#[global] Instance def_hasher `{Fastrlp} `{!CodecLaws} : HeaderHasher.
Proof.
  refine {| HeaderHash := defHeaderHash |}; [done|]. intros h. apply keccak_word.
Defined.
