(* ===== verification/ChainRlpProps.v ===== *)
(** * Round trips of the RLP forms

    What is decoded from an encoded block, transaction or list of receipts, in the
    form sent to peers and in the form written to the storage. *)

From S2P Require Import Prelude ChainTypes BigInt Runtime Receipts Rlp ChainRlp TrieSample.
Local Open Scope go_scope.

(** ** Values that fit their Go types *)

Definition bloom_fits (b : Bloom) : Prop := length b = BloomByteLength /\ bytes_ok b.

Record header_ok (h : Header) : Prop := {
  ho_parent : word (h_ParentHash h); ho_uncles : word (h_Sha3Uncles h); ho_miner : bytes_ok (h_Miner h);
  ho_state : word (h_StateRoot h); ho_tx : word (h_TxRoot h); ho_receipts : word (h_ReceiptsRoot h);
  ho_bloom : bloom_fits (h_LogsBloom h); ho_difficulty : is_u64 (h_Difficulty h);
  ho_number : is_u64 (h_Number h); ho_limit : is_u64 (h_GasLimit h); ho_used : is_u64 (h_GasUsed h);
  ho_time : is_u64 (h_Timestamp h); ho_extra : bytes_ok (h_ExtraData h); ho_mix : word (h_MixHash h);
  ho_nonce : is_u64 (h_Nonce h) }.

Record tx_fits (t : Transaction) : Prop := {
  tf_nonce : is_u64 (Nonce t); tf_price : 0 <= GasPrice t; tf_gas : is_u64 (Gas t);
  tf_to : forall a, To t = Some a -> addr_ok a; tf_value : 0 <= TxValue t; tf_input : bytes_ok (Input t);
  tf_v : 0 <= sigV t; tf_r : 0 <= sigR t; tf_s : 0 <= sigS t; tf_from : addr_ok (From t);
  tf_type : TxType t = LegacyTx \/ TxType t = StateTx }.

Record log_fits (l : Log) : Prop := {
  lf_address : addr_ok (l_Address l); lf_topics : Forall word (l_Topics l); lf_data : bytes_ok (l_Data l) }.

(** A receipt has a status of one byte or a state root, not both. *)
Record receipt_fits (r : Receipt) : Prop := {
  rf_outcome : match Status r with Some s => 0 <= s < 256 /\ r_Root r = ZeroHash | None => word (r_Root r) end;
  rf_cumulative : is_u64 (CumulativeGasUsed r); rf_bloom : bloom_fits (LogsBloom r);
  rf_logs : Forall log_fits (Logs r); rf_used : is_u64 (r_GasUsed r);
  rf_address : forall a, ContractAddress r = Some a -> addr_ok a; rf_hash : word (r_TxHash r);
  rf_type : TransactionType r = LegacyTx \/ TransactionType r = StateTx }.

Record block_fits (b : Block) : Prop := {
  bf_header : header_ok (b_Header b); bf_txs : Forall tx_fits (b_Transactions b);
  bf_uncles : Forall header_ok (b_Uncles b) }.

Record body_fits (b : Body) : Prop := {
  yf_txs : Forall tx_fits (body_Transactions b); yf_uncles : Forall header_ok (body_Uncles b) }.

(** ** Lemmas on decoders *)

Lemma ret_bind {A B} (a : A) (f : A -> Dec B) : (Some (Ok a) ≫= f) = f a.
Proof. done. Qed.

Lemma mret_bind {A B} (a : A) (f : A -> Dec B) : (mret a ≫= f) = f a.
Proof. done. Qed.

Lemma each_ok {A B} (f : A -> Dec B) (g : A -> B) l :
  Forall (fun a => f a = Some (Ok (g a))) l -> each f l = Some (Ok (g <$> l)).
Proof. induction 1 as [|a l Ha _ IH]; [done|]. cbn. by rewrite Ha, ret_bind, IH. Qed.

Lemma each_map {A B D} (f : B -> Dec D) (h : A -> B) (g : A -> D) l :
  Forall (fun a => f (h a) = Some (Ok (g a))) l -> each f (map h l) = Some (Ok (g <$> l)).
Proof. induction 1 as [|a l Ha _ IH]; [done|]. cbn. by rewrite Ha, ret_bind, IH. Qed.

Lemma norm_array_or_null l : norm (array_or_null l) = RArray (map norm l).
Proof. by destruct l. Qed.

Lemma array_or_null_ok l : Forall value_ok l -> value_ok (array_or_null l).
Proof. destruct l; [done|]. intros. by apply value_ok_array. Qed.

Lemma nonce_bytes n : is_u64 n -> be_val (be_bytes 8 n) = n.
Proof. intros Hn. rewrite be_val_bytes. change (256 ^ Z.of_nat 8) with two64. by apply Z.mod_small. Qed.

Lemma hash_bytes h : word h -> be_val (be_bytes 32 h) = h.
Proof. intros Hh. rewrite be_val_bytes. change (256 ^ Z.of_nat 32) with (2 ^ 256). by apply Z.mod_small. Qed.

Lemma last_bytes_all n b : length b = n -> last_bytes n b = b.
Proof. intros <-. unfold last_bytes. by rewrite Nat.sub_diag. Qed.

Lemma address_bytes a : addr_ok a -> BytesToAddress (be_bytes 20 a) = a.
Proof.
  intros Ha. unfold BytesToAddress. rewrite last_bytes_all, be_val_bytes by apply be_bytes_length.
  change (256 ^ Z.of_nat 20) with (2 ^ 160). by apply Z.mod_small.
Qed.

Lemma BytesToHash_bytes h : word h -> BytesToHash (be_bytes 32 h) = h.
Proof. intros Hh. unfold BytesToHash. rewrite last_bytes_all by apply be_bytes_length. by apply hash_bytes. Qed.

Section RoundTrips.
Context `{Fastrlp} `{!CodecLaws} `{!FastrlpLaws} `{HeaderHasher}.

Lemma field_then {A B} (get : rlp -> option A) elems i v a (k : A -> Dec B) r :
  elems !! i = Some v -> get v = Some a -> k a = r -> (field get elems i ≫= k) = r.
Proof using Type. unfold field, elem. intros -> Ha <-. cbn. by rewrite Ha. Qed.

Lemma elem_then {B} elems i v (k : rlp -> Dec B) r :
  elems !! i = Some v -> k v = r -> (elem elems i ≫= k) = r.
Proof using Type. unfold elem. by intros -> <-. Qed.

Lemma elems_then {B} l (k : list rlp -> Dec B) r :
  k l = r -> (GetElems (RArray l) ≫= k) = r.
Proof using Type. by intros <-. Qed.

Lemma array_then {B} l n (k : list rlp -> Dec B) r :
  (n <= length l)%nat -> k (map norm l) = r ->
  (elems ← GetElems (norm (VArray l)); _ ← atLeast n elems; k elems) = r.
Proof using Type.
  intros Hn <-. cbn. unfold atLeast. rewrite (proj2 (Nat.ltb_ge _ _)); [done|]. by rewrite length_map.
Qed.

Lemma GetHash_value h : word h -> rlp_GetHash (norm (hash_value h)) = Some h.
Proof. apply GetHash_norm. Qed.

Lemma GetAddr_value a : addr_ok a -> rlp_GetAddr (norm (addr_value a)) = Some a.
Proof. apply GetAddr_norm. Qed.

Lemma GetUint64_value n : is_u64 n -> rlp_GetUint64 (norm (VUint n)) = Some n.
Proof. apply GetUint64_norm. Qed.

Lemma GetBigInt_value z : 0 <= z -> rlp_GetBigInt (norm (VBigInt z)) = Some z.
Proof. apply GetBigInt_norm. Qed.

Lemma GetBytes_value b : rlp_GetBytes (norm (VBytes b)) = Some b.
Proof. apply GetBytes_norm. Qed.

Lemma GetBloom_value b : bloom_fits b -> rlp_GetBytesN 256 (norm (VBytes b)) = Some b.
Proof. intros [Hl _]. unfold BloomByteLength in Hl. rewrite <- Hl. apply GetBytesN_norm. Qed.

Lemma GetNonce_value n : is_u64 n -> rlp_GetUint64 (norm (VBytes (be_bytes 8 n))) = Some n.
Proof.
  intros Hn. cbn [norm]. rewrite GetUint64_bytes, nonce_bytes; [done|done|apply be_bytes_ok|].
  by rewrite be_bytes_length.
Qed.

End RoundTrips.

(** One goal for each element of a list given by its elements. *)
Ltac each_field :=
  repeat match goal with
  | |- Forall _ (_ :: _) => apply Forall_cons; split
  | |- Forall _ [] => apply Forall_nil_2
  end.

(** Reads the next field of an encoded record. *)
Ltac next_field lem := eapply field_then; [reflexivity|apply lem; try done|].
Ltac next_elem := eapply elem_then; [reflexivity|].

Section Records.
Context `{Fastrlp} `{!CodecLaws} `{!FastrlpLaws} `{HeaderHasher}.

Lemma h_ComputeHash_set x h : h_ComputeHash (set_hHash x h) = h_ComputeHash h.
Proof. unfold h_ComputeHash. by rewrite HeaderHash_hash. Qed.

Lemma header_value_ok h : header_ok h -> value_ok (header_MarshalRLPWith h).
Proof.
  intros []. apply value_ok_array. each_field; try done; try apply be_bytes_ok. apply ho_bloom0.
Qed.

Lemma header_decode h :
  header_ok h -> header_unmarshalRLPFrom (norm (header_MarshalRLPWith h)) = Some (Ok (h_ComputeHash h)).
Proof.
  intros []. unfold header_unmarshalRLPFrom. apply array_then; [done|].
  do 2 next_field GetHash_value. next_field GetBytes_value. do 3 next_field GetHash_value.
  next_field GetBloom_value. do 5 next_field GetUint64_value. next_field GetBytes_value.
  next_field GetHash_value. next_field GetNonce_value.
  do 2 f_equal. rewrite <- (h_ComputeHash_set ZeroHash h). done.
Qed.

(** ** Transactions *)

Lemma tx_value_ok t : tx_fits t -> value_ok (tx_MarshalRLPWith t).
Proof.
  intros []. apply value_ok_array, Forall_app. split; [each_field|]; try done.
  - destruct (To t); [apply be_bytes_ok|done].
  - destruct (_ =? _); each_field. apply be_bytes_ok.
Qed.

Lemma Bytes_address {A} a (f : Address -> A) (d : A) :
  addr_ok a ->
  match rlp_Bytes (norm (addr_value a)) with
  | Some b => if (length b =? 20)%nat then f (BytesToAddress b) else d
  | None => d
  end = f a.
Proof.
  intros Ha. cbn [norm addr_value]. rewrite Bytes_norm, be_bytes_length, Nat.eqb_refl. by rewrite address_bytes.
Qed.

(** The sender is part of the encoding of a state transaction only. *)
Definition sender_of (t0 t : Transaction) : Address := if TxType t =? StateTx then From t else From t0.

Lemma tx_decode input t0 t :
  tx_fits t -> TxType t0 = TxType t ->
  tx_unmarshalRLPFrom input t0 (norm (tx_MarshalRLPWith t)) =
  Some (Ok (set_Hash (parser_Hash input (norm (tx_MarshalRLPWith t))) (set_From (sender_of t0 t) t))).
Proof.
  intros [] Hty. unfold tx_unmarshalRLPFrom. apply array_then; [rewrite length_app; cbn; lia|].
  next_field GetUint64_value. next_field GetBigInt_value. next_field GetUint64_value. next_elem.
  next_field GetBigInt_value. next_field GetBytes_value. do 3 next_field GetBigInt_value.
  unfold mret, Dec_ret, set_Hash, set_From. cbn [Nonce GasPrice Gas To TxValue Input sigV sigR sigS From TxType].
  do 2 f_equal. f_equal; [|unfold sender_of|done].
  - destruct (To t) as [a|]; [by rewrite (Bytes_address a Some) by auto|]. cbn [norm]. by rewrite Bytes_norm.
  - rewrite Hty. destruct (TxType t =? StateTx) eqn:Ety; [|done].
    exact (Bytes_address (From t) id ZeroAddress tf_from0).
Qed.

(** ** Lists of typed elements *)

Lemma type_decode ty : ty = LegacyTx \/ ty = StateTx -> type_unmarshalRLPFrom (RBytes [ty]) = Some (Ok ty).
Proof.
  intros Hty. unfold type_unmarshalRLPFrom. rewrite Bytes_norm. cbn. unfold txTypeFromByte.
  by destruct Hty as [-> | ->].
Qed.

(** A record that starts with its type. *)
Lemma type_prefix {A} ty rest (f : Z -> A) :
  ty = LegacyTx \/ ty = StateTx ->
  (v0 ← elem (RBytes [ty] :: rest) 0; ty' ← type_unmarshalRLPFrom v0;
   mret (f ty', drop 1 (RBytes [ty] :: rest))) = Some (Ok (f ty, rest)).
Proof. intros Hty. cbn [elem]. unfold elem. cbn [lookup list_lookup]. by rewrite mret_bind, type_decode. Qed.

Lemma typed_items_ok {A B} (cb : Z -> rlp -> Dec B) (ty : A -> Z) (enc : A -> list Value) (g : A -> B) l :
  Forall (fun x => (ty x = LegacyTx \/ ty x = StateTx) /\
                   cb (ty x) (norm (VArray (enc x))) = Some (Ok (g x))) l ->
  typed_items cb (map norm (concat ((fun x => typed (ty x) (VArray (enc x))) <$> l))) = Some (Ok (g <$> l)).
Proof.
  induction 1 as [|x l [Hty Hx] _ IH]; [done|]. cbn [fmap list_fmap concat]. rewrite map_app. unfold typed at 1.
  destruct (ty x =? LegacyTx) eqn:E; breflect.
  - rewrite E in Hx. cbn [map app norm typed_items]. cbn [norm] in Hx. by rewrite Hx, ret_bind, IH.
  - change (map norm [VBytes [ty x]; VArray (enc x)]) with [RBytes [ty x]; norm (VArray (enc x))].
    cbn [app typed_items]. by rewrite type_decode, ret_bind, Hx, ret_bind, IH by done.
Qed.

Lemma array_items_ok {A B} (cb : Z -> rlp -> Dec B) (enc : A -> list Value) (g : A -> B) l :
  Forall (fun x => cb LegacyTx (norm (VArray (enc x))) = Some (Ok (g x))) l ->
  typed_items cb (map norm ((fun x => VArray (enc x)) <$> l)) = Some (Ok (g <$> l)).
Proof.
  induction 1 as [|x l Hx _ IH]; [done|]. cbn [fmap list_fmap map norm typed_items]. cbn [norm] in Hx.
  by rewrite Hx, ret_bind, IH.
Qed.

Lemma typed_ok ty v : value_ok v -> ty = LegacyTx \/ ty = StateTx -> Forall value_ok (typed ty v).
Proof.
  intros Hv Hty. unfold typed. destruct (ty =? LegacyTx); each_field; try done.
  repeat constructor; destruct Hty as [-> | ->]; done.
Qed.

Lemma Forall_typed {A} (ty : A -> Z) (enc : A -> Value) l :
  Forall (fun x => value_ok (enc x) /\ (ty x = LegacyTx \/ ty x = StateTx)) l ->
  Forall value_ok (concat ((fun x => typed (ty x) (enc x)) <$> l)).
Proof.
  induction 1 as [|x l [Hx Hty] _ IH]; cbn; [constructor|]. apply Forall_app. split; [by apply typed_ok|done].
Qed.

Lemma UnmarshalRlp_ok {A} (f : rlp -> Dec A) v :
  value_ok v -> UnmarshalRlp f (fastrlp_MarshalTo v) = f (norm v).
Proof. intros Hv. unfold UnmarshalRlp. by rewrite Parse_MarshalTo. Qed.

Lemma uncles_decode l :
  Forall header_ok l ->
  uncles_unmarshal (norm (array_or_null (header_MarshalRLPWith <$> l))) = Some (Ok (h_ComputeHash <$> l)).
Proof.
  intros Hl. unfold uncles_unmarshal. rewrite norm_array_or_null.
  change (each header_unmarshalRLPFrom (map norm (map header_MarshalRLPWith l)) = Some (Ok (h_ComputeHash <$> l))).
  rewrite map_map. apply each_map. eapply Forall_impl; [exact Hl|]. apply header_decode.
Qed.

Lemma uncles_ok l : Forall header_ok l -> value_ok (array_or_null (header_MarshalRLPWith <$> l)).
Proof. intros Hl. apply array_or_null_ok, Forall_fmap. eapply Forall_impl; [exact Hl|]. apply header_value_ok. Qed.

(** What a receiver of the transaction has: the hash computed anew, and no sender
    unless it is part of the encoding. *)
Definition received (t : Transaction) : Transaction :=
  ComputeHash (if TxType t =? StateTx then t else set_From ZeroAddress t).

Lemma received_eq ty h t :
  ComputeHash (set_Hash h (set_From (sender_of (new_tx ty) t) t)) = received t.
Proof.
  unfold received, sender_of, ComputeHash. destruct (TxType t =? StateTx) eqn:E; [by destruct t|].
  done.
Qed.

Lemma received_hash ty t :
  set_Hash (be_val (keccak256 (fastrlp_MarshalTo (tx_MarshalRLPWith t)))) (set_From (sender_of (new_tx ty) t) t) =
  received t.
Proof.
  unfold received, sender_of, ComputeHash. destruct (TxType t =? StateTx) eqn:E; [by destruct t|].
  unfold tx_MarshalRLPWith at 2. cbn [TxType set_From]. rewrite E. unfold tx_MarshalRLPWith. by rewrite E.
Qed.

Definition tx_fields (t : Transaction) : list Value :=
  match tx_MarshalRLPWith t with VArray l => l | _ => [] end.

Lemma block_txs_decode input l :
  Forall tx_fits l ->
  unmarshalRLPFrom (norm (array_or_null (concat ((fun tx => typed (TxType tx) (tx_MarshalRLPWith tx)) <$> l))))
    (block_tx input) = Some (Ok (received <$> l)).
Proof.
  intros Hl. unfold unmarshalRLPFrom. rewrite norm_array_or_null.
  apply (typed_items_ok (block_tx input) TxType tx_fields). eapply Forall_impl; [exact Hl|]. intros t Ht.
  split; [apply Ht|]. change (VArray (tx_fields t)) with (tx_MarshalRLPWith t). unfold block_tx.
  rewrite tx_decode by done. rewrite ret_bind. by rewrite received_eq.
Qed.

Lemma block_txs_ok l :
  Forall tx_fits l ->
  value_ok (array_or_null (concat ((fun tx => typed (TxType tx) (tx_MarshalRLPWith tx)) <$> l))).
Proof.
  intros Hl. apply array_or_null_ok, (Forall_typed TxType tx_MarshalRLPWith). eapply Forall_impl; [exact Hl|].
  intros t Ht. split; [by apply tx_value_ok|apply Ht].
Qed.

Lemma block_decode b :
  block_fits b ->
  block_UnmarshalRLP (block_MarshalRLP b) =
  Some (Ok (mkBlock (h_ComputeHash (b_Header b)) (received <$> b_Transactions b) (h_ComputeHash <$> b_Uncles b))).
Proof.
  intros []. unfold block_UnmarshalRLP, block_MarshalRLP. rewrite UnmarshalRlp_ok.
  - unfold block_unmarshalRLPFrom. apply array_then; [done|].
    next_elem. rewrite header_decode, ret_bind by done. next_elem. rewrite block_txs_decode, ret_bind by done.
    next_elem. by rewrite uncles_decode.
  - apply value_ok_array. each_field; [by apply header_value_ok|by apply block_txs_ok|by apply uncles_ok].
Qed.

Lemma tx_decode_bytes t : tx_fits t -> tx_UnmarshalRLP (tx_MarshalRLP t) = Some (Ok (received t)).
Proof.
  intros Ht. unfold tx_UnmarshalRLP, tx_MarshalRLP. pose proof (tx_value_ok _ Ht) as Hv.
  assert (leading_type ((if TxType t =? LegacyTx then [] else [TxType t]) ++
            fastrlp_MarshalTo (tx_MarshalRLPWith t)) =
          Some (Ok (TxType t, fastrlp_MarshalTo (tx_MarshalRLPWith t)))) as ->.
  { destruct (tf_type _ Ht) as [E|E]; rewrite E; [|done].
    destruct (MarshalTo_array (tx_fields t)) as (c & d & Hc & Hle).
    change (VArray (tx_fields t)) with (tx_MarshalRLPWith t) in Hc. cbn. rewrite Hc. cbn. unfold RLPSingleByteUpperLimit.
    by rewrite (proj2 (Z.leb_gt _ _)) by lia. }
  rewrite ret_bind, UnmarshalRlp_ok, tx_decode by done. by rewrite parser_Hash_norm, received_hash.
Qed.

(** ** The body in the storage *)

Definition store_fields (t : Transaction) : list Value :=
  typed (TxType t) (tx_MarshalRLPWith t) ++ [addr_value (From t)].

Lemma ComputeHash_idem t : ComputeHash (ComputeHash t) = ComputeHash t.
Proof. done. Qed.

Lemma tx_store_decode input t0 t :
  tx_fits t -> TxType t0 = LegacyTx ->
  tx_unmarshalStoreRLPFrom input t0 (norm (tx_marshalStoreRLPWith t)) = Some (Ok (ComputeHash t)).
Proof.
  intros Ht Hlegacy. pose proof (tf_from _ Ht) as Hf. unfold tx_unmarshalStoreRLPFrom, tx_marshalStoreRLPWith, typed.
  destruct (TxType t =? LegacyTx) eqn:Ety; breflect.
  - change ([tx_MarshalRLPWith t] ++ [addr_value (From t)]) with [tx_MarshalRLPWith t; addr_value (From t)].
    apply elems_then. cbn [length map Nat.eqb negb andb]. rewrite mret_bind.
    next_elem. rewrite tx_decode, ret_bind by congruence. next_field GetAddr_value. by destruct t.
  - change ([VBytes [TxType t]; tx_MarshalRLPWith t] ++ [addr_value (From t)])
      with [VBytes [TxType t]; tx_MarshalRLPWith t; addr_value (From t)].
    apply elems_then. cbn [length map Nat.eqb negb andb].
    cbn [norm]. rewrite (type_prefix _ _ (fun ty => set_TxType ty t0)), ret_bind by apply Ht.
    next_elem. rewrite tx_decode, ret_bind by done. next_field GetAddr_value. by destruct t.
Qed.

Lemma body_txs_decode input l :
  Forall tx_fits l ->
  unmarshalRLPFrom (norm (array_or_null (tx_marshalStoreRLPWith <$> l))) (body_tx input) =
  Some (Ok (ComputeHash <$> l)).
Proof.
  intros Hl. unfold unmarshalRLPFrom. rewrite norm_array_or_null. apply elems_then.
  apply (array_items_ok (body_tx input) store_fields). eapply Forall_impl; [exact Hl|]. intros t Ht.
  change (VArray (store_fields t)) with (tx_marshalStoreRLPWith t). unfold body_tx.
  by rewrite tx_store_decode, ret_bind.
Qed.

Lemma tx_store_ok t : tx_fits t -> value_ok (tx_marshalStoreRLPWith t).
Proof.
  intros Ht. pose proof (tx_value_ok _ Ht). apply value_ok_array, Forall_app. split.
  - apply typed_ok; [done|apply Ht].
  - each_field. apply be_bytes_ok.
Qed.

Lemma body_decode b :
  body_fits b ->
  body_UnmarshalRLP (body_MarshalRLP b) =
  Some (Ok (mkBody (ComputeHash <$> body_Transactions b) (h_ComputeHash <$> body_Uncles b))).
Proof.
  intros []. unfold body_UnmarshalRLP, body_MarshalRLP. rewrite UnmarshalRlp_ok.
  - unfold body_unmarshalRLPFrom. apply array_then; [done|].
    next_elem. rewrite body_txs_decode, ret_bind by done. next_elem. by rewrite uncles_decode.
  - apply value_ok_array. each_field; [|by apply uncles_ok]. apply array_or_null_ok, Forall_fmap.
    eapply Forall_impl; [exact yf_txs0|]. apply tx_store_ok.
Qed.

(** ** Receipts *)

Lemma log_decode l : log_fits l -> log_unmarshalRLPFrom (norm (log_MarshalRLPWith l)) = Some (Ok l).
Proof.
  intros []. unfold log_unmarshalRLPFrom. apply array_then; [done|]. next_field GetAddr_value. next_elem.
  apply elems_then.
  change (map norm (hash_value <$> l_Topics l)) with (map norm (map hash_value (l_Topics l))). rewrite map_map.
  rewrite (each_map _ _ id), ret_bind.
  - next_field GetBytes_value. rewrite list_fmap_id. by destruct l.
  - eapply Forall_impl; [exact lf_topics0|]. intros h Hh. cbn beta. by rewrite GetHash_value.
Qed.

Lemma log_ok l : log_fits l -> value_ok (log_MarshalRLPWith l).
Proof.
  intros []. apply value_ok_array. each_field; try done; [apply be_bytes_ok|]. apply value_ok_array, Forall_fmap.
  eapply Forall_impl; [exact lf_topics0|]. intros h _. apply be_bytes_ok.
Qed.

Definition outcome_value (r : Receipt) : Value :=
  match Status r with Some s => VUint s | None => hash_value (r_Root r) end.

Lemma Bytes_byte s : 0 < s < 256 -> Bytes s = [s].
Proof.
  intros Hs. unfold Bytes. assert (BitLen s <= 8) by (apply BitLen_le; lia).
  assert (0 < BitLen s) by (apply BitLen_lt; lia).
  replace ((BitLen s + 7) / 8) with 1 by (apply (Z.div_unique _ _ _ (BitLen s - 1)); lia).
  change ([Z.abs s mod 256] = [s]). by rewrite Z.abs_eq, Z.mod_small by lia.
Qed.

(** The outcome written by the encoder is what the switch on its size restores. *)
Lemma outcome_decode r r0 :
  receipt_fits r -> r_Root r0 = ZeroHash -> Status r0 = None ->
  exists buf, rlp_Bytes (norm (outcome_value r)) = Some buf /\
    match buf with
    | [b] => (r_Root r0, Some b)
    | _ => if (length buf =? 32)%nat then (be_val buf, Status r0) else (r_Root r0, Some 0)
    end = (r_Root r, Status r).
Proof.
  intros [Ho] -> ->. unfold outcome_value. destruct (Status r) as [s|]; cbn [norm hash_value]; rewrite Bytes_norm.
  - eexists. split; [done|]. destruct Ho as [Hs ->]. destruct (decide (s = 0)) as [->|]; [done|].
    by rewrite Bytes_byte by lia.
  - eexists. split; [done|]. pose proof (be_bytes_length 32 (r_Root r)) as Hl.
    pose proof (hash_bytes (r_Root r) Ho) as Hv. destruct (be_bytes 32 (r_Root r)) as [|b [|c buf]]; [done|done|].
    by rewrite Hl, Hv.
Qed.

Lemma receipt_decode r0 r :
  receipt_fits r -> r_Root r0 = ZeroHash -> Status r0 = None -> Logs r0 = [] ->
  receipt_unmarshalRLPFrom r0 (norm (receipt_MarshalRLPWith r)) =
  Some (Ok (mkReceipt (r_Root r) (CumulativeGasUsed r) (LogsBloom r) (Logs r) (Status r) (r_GasUsed r0)
              (ContractAddress r0) (r_TxHash r0) (TransactionType r0))).
Proof.
  intros Hr H1' H2' Hlogs. destruct (outcome_decode _ _ Hr H1' H2') as (buf & Hbuf & Hout). destruct Hr.
  unfold receipt_unmarshalRLPFrom. apply array_then; [done|].
  eapply field_then; [reflexivity|exact Hbuf|]. cbv beta. rewrite Hout. next_field GetUint64_value. next_field GetBloom_value.
  next_elem. unfold MarshalLogsWith. rewrite norm_array_or_null. apply elems_then.
  change (map norm (log_MarshalRLPWith <$> Logs r)) with (map norm (map log_MarshalRLPWith (Logs r))).
  rewrite map_map, (each_map _ _ id), ret_bind, list_fmap_id, Hlogs; [done|].
  eapply Forall_impl; [exact rf_logs0|]. intros l Hl. by apply log_decode.
Qed.

Lemma receipt_ok r : receipt_fits r -> value_ok (receipt_MarshalRLPWith r).
Proof.
  intros []. apply value_ok_array. each_field; try done.
  - destruct (Status r); [|apply be_bytes_ok]. cbn. unfold is_u64, two64. lia.
  - apply rf_bloom0.
  - apply array_or_null_ok, Forall_fmap. eapply Forall_impl; [exact rf_logs0|]. apply log_ok.
Qed.

Definition context_fields (r : Receipt) : list Value :=
  [receipt_MarshalRLPWith r; match ContractAddress r with None => VNull | Some a => addr_value a end;
   VUint (r_GasUsed r); hash_value (r_TxHash r)].

Lemma receipt_context_decode r :
  receipt_fits r ->
  receipt_context (new_receipt (TransactionType r)) (map norm (context_fields r)) = Some (Ok r).
Proof.
  intros Hr. unfold receipt_context. next_elem. rewrite receipt_decode, ret_bind by done. destruct Hr.
  assert (exists vv, rlp_Bytes (norm (match ContractAddress r with None => VNull | Some a => addr_value a end)) = Some vv /\
            (if (length vv =? 20)%nat then Some (BytesToAddress vv) else None) = ContractAddress r) as (vv & Hvv & Ha).
  { destruct (ContractAddress r) as [a|]; cbn [norm addr_value]; rewrite Bytes_norm; eexists; split; [done| |done|done].
    by rewrite be_bytes_length, address_bytes by auto. }
  eapply field_then; [reflexivity|exact Hvv|]. cbv beta zeta. next_field GetUint64_value.
  cbn [length map Nat.eqb context_fields]. change (map norm _) with (map norm (context_fields r)).
  erewrite (field_then rlp_Bytes _ 3); [|reflexivity|apply Bytes_norm|reflexivity].
  rewrite mret_bind, BytesToHash_bytes by done. cbn [ContractAddress new_receipt]. rewrite Ha. by destruct r.
Qed.

Definition receipt_fields (r : Receipt) : list Value :=
  match receipt_marshalStoreRLPWith r with VArray l => l | _ => [] end.

Lemma receipt_store_decode r :
  receipt_fits r ->
  receipt_unmarshalStoreRLPFrom (new_receipt LegacyTx) (norm (receipt_marshalStoreRLPWith r)) = Some (Ok r).
Proof.
  intros Hr. unfold receipt_unmarshalStoreRLPFrom. apply array_then; [rewrite length_app; unfold typed; case_bool; cbn; lia|].
  pose proof (receipt_context_decode r Hr) as Hc. unfold typed. destruct (TransactionType r =? LegacyTx) eqn:Ety; breflect.
  - cbn [length map Nat.eqb app]. rewrite mret_bind. by rewrite Ety in Hc.
  - cbn [length map Nat.eqb app norm]. rewrite (type_prefix _ _ (fun ty => set_TransactionType ty (new_receipt LegacyTx))).
    + by rewrite ret_bind.
    + apply Hr.
Qed.

Lemma receipt_store_ok r : receipt_fits r -> value_ok (receipt_marshalStoreRLPWith r).
Proof.
  intros Hr. pose proof (receipt_ok _ Hr). destruct Hr. apply value_ok_array, Forall_app.
  split; [by apply typed_ok|]. each_field; [|done|apply be_bytes_ok].
  destruct (ContractAddress r); [apply be_bytes_ok|done].
Qed.

Lemma receipts_store_decode rr :
  Forall receipt_fits rr -> receipts_UnmarshalStoreRLP (receipts_MarshalStoreRLP rr) = Some (Ok rr).
Proof.
  intros Hrr. unfold receipts_UnmarshalStoreRLP, receipts_MarshalStoreRLP. rewrite UnmarshalRlp_ok.
  - unfold receipts_unmarshalStoreRLPFrom, unmarshalRLPFrom. apply elems_then.
    rewrite <- (list_fmap_id rr) at 2. apply (array_items_ok _ receipt_fields id).
    eapply Forall_impl; [exact Hrr|]. apply receipt_store_decode.
  - apply value_ok_array, Forall_fmap. eapply Forall_impl; [exact Hrr|]. apply receipt_store_ok.
Qed.

(** The consensus part of a receipt. *)
Definition consensus_part (r : Receipt) : Receipt :=
  mkReceipt (r_Root r) (CumulativeGasUsed r) (LogsBloom r) (Logs r) (Status r) 0 None ZeroHash (TransactionType r).

Lemma receipts_decode rr :
  Forall receipt_fits rr ->
  receipts_UnmarshalRLP (fastrlp_MarshalTo (receipts_MarshalRLPWith rr)) = Some (Ok (consensus_part <$> rr)).
Proof.
  intros Hrr. unfold receipts_UnmarshalRLP. rewrite UnmarshalRlp_ok.
  - unfold receipts_unmarshalRLPFrom, unmarshalRLPFrom. apply elems_then.
    apply (typed_items_ok _ TransactionType (fun r => match receipt_MarshalRLPWith r with VArray l => l | _ => [] end)).
    eapply Forall_impl; [exact Hrr|]. intros r Hr. split; [apply Hr|]. by apply receipt_decode.
  - apply value_ok_array, (Forall_typed TransactionType receipt_MarshalRLPWith). eapply Forall_impl; [exact Hrr|].
    intros r Hr. split; [by apply receipt_ok|apply Hr].
Qed.

End Records.

(** ** Inputs that make a decoder panic *)

Section Panics.
Context `{Fastrlp} `{HeaderHasher}.

Lemma bind_None {A B} (m : Dec A) (k : A -> Dec B) :
  (m ≫= k) = None -> m = None \/ exists a, m = Some (Ok a) /\ k a = None.
Proof using Type. destruct m as [[a|e]|]; cbn; [eauto|done|by left]. Qed.

Lemma bind_safe {A B} (m : Dec A) (k : A -> Dec B) :
  m <> None -> (forall a, m = Some (Ok a) -> k a <> None) -> (m ≫= k) <> None.
Proof using Type. intros Hm Hk [?|(a & Ha & Hn)]%bind_None; [done|]. by apply (Hk a). Qed.

Lemma lift_safe {A} (o : option A) : lift o <> None.
Proof using Type. by destruct o. Qed.

Lemma lift_Ok {A} (o : option A) a : lift o = Some (Ok a) -> o = Some a.
Proof using Type. destruct o; [|done]. by intros [= ->]. Qed.

Lemma GetElems_safe v : GetElems v <> None.
Proof using Type. by destruct v. Qed.

Lemma atLeast_safe n l : atLeast n l <> None.
Proof using Type. unfold atLeast. by case_bool. Qed.

Lemma atLeast_length n l u : atLeast n l = Some (Ok u) -> (n <= length l)%nat.
Proof using Type. unfold atLeast. destruct (length l <? n)%nat eqn:E; [done|]. intros _. by apply Nat.ltb_ge in E. Qed.

Lemma elem_safe l i : (i < length l)%nat -> elem l i <> None.
Proof using Type. unfold elem. intros Hi. by destruct (lookup_lt_is_Some_2 _ _ Hi) as [v ->]. Qed.

Lemma field_safe {A} (get : rlp -> option A) l i : (i < length l)%nat -> field get l i <> None.
Proof using Type. intros Hi. apply bind_safe; [by apply elem_safe|]. intros. apply lift_safe. Qed.

Lemma type_safe v : type_unmarshalRLPFrom v <> None.
Proof using Type.
  apply bind_safe; [apply lift_safe|]. intros [|b [|]] _; [done| |done]. by destruct (txTypeFromByte b).
Qed.

Lemma each_safe {A B} (f : A -> Dec B) l : (forall a, f a <> None) -> each f l <> None.
Proof using Type. intros Hf. induction l; [done|]. cbn. do 2 (apply bind_safe; [done|intros]). done. Qed.

End Panics.

(** Steps through a decoder whose accesses are within the tested length. *)
Ltac safe_decoder :=
  repeat first
    [ done
    | apply bind_safe; [first [apply lift_safe|apply GetElems_safe|apply atLeast_safe|apply type_safe
                             |apply field_safe; lia|apply elem_safe; lia]|intros]
    | match goal with Ha : atLeast _ _ = Some (Ok _) |- _ => apply atLeast_length in Ha end ].

Section Safe.
Context `{Fastrlp} `{HeaderHasher}.

Lemma header_safe v : header_unmarshalRLPFrom v <> None.
Proof using Type. unfold header_unmarshalRLPFrom. safe_decoder. Qed.

Lemma tx_safe input t v : tx_unmarshalRLPFrom input t v <> None.
Proof using Type. unfold tx_unmarshalRLPFrom. safe_decoder. Qed.

Lemma uncles_safe v : uncles_unmarshal v <> None.
Proof using Type. apply bind_safe; [apply GetElems_safe|]. intros. apply each_safe, header_safe. Qed.

Lemma leading_type_safe input : leading_type input <> None.
Proof using Type. destruct input as [|b input]; [done|]. cbn. case_bool; [|done]. by destruct (txTypeFromByte b). Qed.

Lemma typed_items_None {A} (cb : Z -> rlp -> Dec A) l :
  (forall ty v, cb ty v <> None) -> typed_items cb l = None -> exists pre b, l = pre ++ [RBytes b].
Proof using Type.
  intros Hcb. induction l as [l IH] using (induction_ltof1 _ length). destruct l as [|v l]; [done|].
  assert (Hrest : forall k, (length k <= length l)%nat -> typed_items cb k = None ->
            exists pre b, k = pre ++ [RBytes b]) by (intros k Hk; apply IH; unfold ltof; cbn; lia).
  destruct v as [b|vs]; cbn [typed_items].
  - intros [?|(ty & _ & Hn)]%bind_None; [by edestruct type_safe|].
    destruct l as [|v l]; [by exists [], b|].
    apply bind_None in Hn as [?|(x & _ & [Hn|(?&?&?)]%bind_None)]; [by edestruct Hcb| |done].
    apply Hrest in Hn as (pre & c & ->); [|cbn; lia]. by exists (RBytes b :: v :: pre), c.
  - intros [?|(x & _ & [Hn|(?&?&?)]%bind_None)]%bind_None; [by edestruct Hcb| |done].
    apply Hrest in Hn as (pre & c & ->); [|done]. by exists (RArray vs :: pre), c.
Qed.

Lemma block_None input :
  block_UnmarshalRLP input = None ->
  exists header pre b rest,
    fastrlp_Parse input = Some (RArray (header :: RArray (pre ++ [RBytes b]) :: rest)).
Proof using Type.
  unfold block_UnmarshalRLP, UnmarshalRlp. intros [?|(v & Hv & Hn)]%bind_None; [by edestruct @lift_safe|].
  rewrite (lift_Ok _ _ Hv).
  destruct v as [|l]; [done|]. unfold block_unmarshalRLPFrom in Hn. rewrite (elems_then l _ _ eq_refl) in Hn.
  apply bind_None in Hn as [?|(? & Hl%atLeast_length & Hn)]; [by edestruct atLeast_safe|].
  destruct l as [|header [|txs [|uncles rest]]]; cbn in Hl; try lia. cbn [elem lookup list_lookup] in Hn.
  apply bind_None in Hn as [?|(? & _ & Hn)]; [done|].
  apply bind_None in Hn as [?|(? & _ & Hn)]; [by edestruct header_safe|].
  apply bind_None in Hn as [?|(? & [= <-] & Hn)]; [done|].
  apply bind_None in Hn as [Hn|(? & _ & Hn)].
  - destruct txs as [|l]; [done|]. apply (typed_items_None (block_tx input)) in Hn as (pre & b & ->); [eauto 10|].
    intros ty v. apply bind_safe; [apply tx_safe|done].
  - apply bind_None in Hn as [?|(? & _ & Hn)]; [done|].
    by apply bind_None in Hn as [?|(? & _ & Hn)]; [edestruct uncles_safe|].
Qed.

End Safe.

(** ** Theorems *)

Section Theorems.
Context `{Fastrlp} `{!CodecLaws} `{!FastrlpLaws} `{HeaderHasher}.

(** C23. What a peer decodes from an encoded block is the block itself, with the
    hashes of the header, of the uncles and of the transactions computed anew, and
    without the senders of signed transactions, which are not sent; likewise for a
    transaction sent alone and for the consensus part of receipts. *)
Theorem rlp_roundtrip (b : Block) (rr : list Receipt) :
  block_fits b -> Forall receipt_fits rr ->
  block_UnmarshalRLP (block_MarshalRLP b) =
    Some (Ok (mkBlock (h_ComputeHash (b_Header b)) (received <$> b_Transactions b) (h_ComputeHash <$> b_Uncles b))) /\
  (forall t, t ∈ b_Transactions b -> tx_UnmarshalRLP (tx_MarshalRLP t) = Some (Ok (received t))) /\
  receipts_UnmarshalRLP (fastrlp_MarshalTo (receipts_MarshalRLPWith rr)) = Some (Ok (consensus_part <$> rr)).
Proof.
  intros Hb Hrr. split; [by apply block_decode|]. split; [|by apply receipts_decode].
  intros t Ht. apply tx_decode_bytes. destruct Hb as [_ Htxs _]. rewrite Forall_forall in Htxs. by apply Htxs.
Qed.

(** C25. Decoding a transaction received from the network never panics, whatever
    the bytes. Decoding a block panics only on a transaction list that ends in a
    byte string, and it does on a list that ends in a transaction type: the element
    the type belongs to is read past the end of the list. *)
Theorem decoding_panics :
  (forall input, tx_UnmarshalRLP input <> None) /\
  (forall input, block_UnmarshalRLP input = None ->
     exists header pre b rest,
       fastrlp_Parse input = Some (RArray (header :: RArray (pre ++ [RBytes b]) :: rest))) /\
  (forall h, header_ok h ->
     block_UnmarshalRLP (fastrlp_MarshalTo
       (VArray [header_MarshalRLPWith h; VArray [VBytes [StateTx]]; VNullArray])) = None).
Proof.
  split; [|split].
  - intros input. apply bind_safe; [apply leading_type_safe|]. intros [ty rest] _.
    apply bind_safe; [apply lift_safe|]. intros. apply tx_safe.
  - apply block_None.
  - intros h Hh. unfold block_UnmarshalRLP. rewrite UnmarshalRlp_ok.
    + unfold block_unmarshalRLPFrom. apply array_then; [done|]. next_elem.
      rewrite header_decode, ret_bind by done. next_elem. cbn [norm map]. unfold unmarshalRLPFrom.
      rewrite (elems_then _ _ _ eq_refl). cbn [typed_items]. by rewrite type_decode by auto.
    + apply value_ok_array. each_field; [by apply header_value_ok| |done].
      apply value_ok_array. each_field. repeat constructor; done.
Qed.

End Theorems.

(** ** Witnesses *)

Definition sample_header : Header :=
  mkHeader 1 EmptyUncleHash [1; 2; 3] 4 5 6 (replicate BloomByteLength 0) 1 7 10000000 21000 1600000000
    [9; 9] 0 0 0.

Definition sample_transfer : Transaction := mkTx 3 1000 21000 (Some 77) 5 [1; 2] 27 11 12 0 99 LegacyTx.
Definition sample_state_tx : Transaction := mkTx 0 0 1000000 (Some 4097) 0 [7] 0 0 0 0 66 StateTx.
Definition sample_receipt : Receipt :=
  mkReceipt 0 21000 (replicate BloomByteLength 0) [mkLog 77 [1; 2] [3]] (Some ReceiptSuccess) 21000 None 12 LegacyTx.

Definition sample_block : Block := mkBlock sample_header [sample_transfer; sample_state_tx] [sample_header].

Ltac by_eval := match goal with
  | |- bytes_ok _ => apply (bool_decide_unpack _); vm_compute; exact I
  | |- bloom_fits _ => split; [reflexivity|by_eval]
  | |- is_u64 _ => split; vm_compute; done
  | |- word _ => split; vm_compute; done
  | |- addr_ok _ => split; vm_compute; done
  | _ => idtac
  end.

Lemma sample_header_ok : header_ok sample_header.
Proof. split; by_eval. Qed.

Lemma sample_tx_fits t : t ∈ b_Transactions sample_block -> tx_fits t.
Proof.
  intros Ht. cbn in Ht. in_list; subst t; split; by_eval; cbn; try lia; auto; intros a [= <-]; by_eval.
Qed.

Lemma sample_block_fits : block_fits sample_block.
Proof.
  split; [apply sample_header_ok| |cbn; each_field; apply sample_header_ok]. apply Forall_forall, sample_tx_fits.
Qed.

Lemma sample_receipt_fits : receipt_fits sample_receipt.
Proof.
  split; by_eval; cbn; try done; auto.
  each_field. split; [by_eval|cbn; each_field; by_eval|by_eval].
Qed.

Lemma rlp_roundtrip_witness :
  block_UnmarshalRLP (block_MarshalRLP sample_block) =
  Some (Ok (mkBlock (h_ComputeHash sample_header) [received sample_transfer; received sample_state_tx]
              [h_ComputeHash sample_header])).
Proof.
  destruct (rlp_roundtrip sample_block [sample_receipt] sample_block_fits) as [-> _]; [|reflexivity].
  each_field. apply sample_receipt_fits.
Defined.

Lemma decoding_panics_witness :
  block_UnmarshalRLP (fastrlp_MarshalTo
    (VArray [header_MarshalRLPWith sample_header; VArray [VBytes [StateTx]]; VNullArray])) = None.
Proof. destruct decoding_panics as (_ & _ & Hp). apply Hp, sample_header_ok. Defined.
