(* ===== verification/Buildroot.v ===== *)
(** * Roots of transactions, receipts and uncles ([types/buildroot])

    The root of a list is that of the trie that maps the RLP of each index to the
    encoding of the element. For up to 128 elements [FastHasher] writes the RLP of
    the nodes directly. Its buffers only grow by appending and are emptied before
    each use; the model returns what a call appends. [None] in [FastHasher] is
    [(nil, false)]: a value too short to be referenced by its hash. *)

From S2P Require Import Prelude ChainTypes BigInt Runtime Receipts Rlp Trie TriePure TrieRefine TrieHash ChainRlp.
Local Open Scope go_scope.

Section Buildroot.
Context `{Fastrlp}.

(** ** [FastHasher] *)

Definition intsize (val : Z) : Z :=
  if val <? 2 ^ 8 then 1 else if val <? 2 ^ 16 then 2 else if val <? 2 ^ 24 then 3
  else if val <? 2 ^ 32 then 4 else if val <? 2 ^ 40 then 5 else if val <? 2 ^ 48 then 6
  else if val <? 2 ^ 56 then 7 else 8.

Definition getRlpSize (size : Z) : Z := if size <? 56 then 1 else intsize size + 1.

Definition marshalRlpSize (size short long : Z) : list Z :=
  if size <? 56 then [(short + size mod 256) mod 256]
  else ((long + intsize size mod 256) mod 256) :: drop (8 - Z.to_nat (intsize size)) (be_bytes 8 size).

Definition marshalItemRlpSize (size : Z) : list Z := marshalRlpSize size 128 183.
Definition marshalListRlpSize (size : Z) : list Z := marshalRlpSize size 192 247.

Definition leafVal : list Z := [32].
Definition rlpEmptyValue : list Z := [128].
Definition rlpHashPrefix : list Z := [160].
Definition zeroKey : list Z := [48].
Definition oneKey : list Z := [49].
Definition singleKey : list Z := [130; 32; 128].

Definition zlen (b : list Z) : Z := Z.of_nat (length b).

(** A leaf: the list of a key, already encoded, and a value. *)
Definition encode_leaf (key v : list Z) : list Z :=
  marshalListRlpSize (getRlpSize (zlen v) + zlen v + zlen key) ++ key ++ marshalItemRlpSize (zlen v) ++ v.

Section Hasher.
Context (num : nat) (cb : nat -> list Z).

Definition getCb (i : nat) : option (list Z) :=
  if (num <? i)%nat then None else if (length (cb i) <? 32)%nat then None else Some (cb i).

Definition encodeOneItem : option (list Z) :=
  v ← getCb 0; Some (keccak256 (encode_leaf singleKey v)).

Definition encodeSingle (v : list Z) (b : bool) : list Z :=
  keccak256 (encode_leaf (if b then oneKey else zeroKey) v).

(** The children of a group, each the reference to a leaf. *)
Definition group_child (i : nat) : option (list Z) :=
  v ← getCb i; Some (rlpHashPrefix ++ keccak256 (encode_leaf leafVal v)).

Definition deriveGroup (from to : nat) : option (list Z) :=
  let n := (to - from)%nat in
  if (n =? 1)%nat then v ← getCb from; Some (encodeSingle v (from =? 1)%nat)
  else
    children ← mapM group_child (seq from n);
    let first := if (from =? 1)%nat then rlpEmptyValue else [] in
    let last := if (from =? 1)%nat then 15%nat else 16%nat in
    let rest := if (n <? 16)%nat then concat (replicate (last - n) rlpEmptyValue) else [] in
    let buf := first ++ concat children ++ rest ++ rlpEmptyValue in
    Some (keccak256 (marshalListRlpSize (zlen buf) ++ buf)).

(** The groups of sixteen, the first of which starts at 1. *)
Definition group_starts (step1 : nat) : list nat := (fun g => g * 16)%nat <$> seq 0 ((step1 + 15) / 16).

Definition group (step1 i : nat) : option (list Z) :=
  h ← deriveGroup (if (i =? 0)%nat then 1%nat else i) (step1 `min` (i + 16));
  Some (rlpHashPrefix ++ h).

Definition FastHasher_Hash : option (list Z) :=
  if (num =? 1)%nat then encodeOneItem
  else
    let step1 := (num `min` 128)%nat in
    groups ← mapM (group step1) (group_starts step1);
    let empties := concat (replicate ((128 - step1) / 16) rlpEmptyValue) in
    v ← getCb 0;
    let dst := concat groups ++ empties ++ rlpHashPrefix ++ encodeSingle v false
               ++ concat (replicate 8 rlpEmptyValue) in
    Some (keccak256 (marshalListRlpSize (zlen dst) ++ dst)).

(** ** The trie *)

(** The transaction has no storage to load nodes from. *)
Definition no_storage : list Z -> option (list Z) := fun _ => None.

Definition insert_index (t : option TrieTxn) (i : nat) : option TrieTxn :=
  t ← t; trie_Insert no_storage t (fastrlp_MarshalTo (VUint (Z.of_nat i))) (cb i).

Definition deriveSlow : option (list Z) :=
  t ← fold_left insert_index (seq 0 num) (Some (Trie_Txn NewTrie));
  '(x, _, _) ← trie_Hash t; Some x.

Definition CalculateRoot : option Hash :=
  if (num =? 0)%nat then Some EmptyRootHash
  else
    match (if (num <=? 128)%nat then FastHasher_Hash else None) with
    | Some dst => Some (BytesToHash dst)
    | None => BytesToHash <$> deriveSlow
    end.

End Hasher.

(** ** The roots of a block *)

Definition calculateRootWithRlp (l : list Value) : option Hash :=
  CalculateRoot (length l) (fun i => default [] (fastrlp_MarshalTo <$> l !! i)).

Definition CalculateReceiptsRoot (receipts : list Receipt) : option Hash :=
  calculateRootWithRlp (receipt_MarshalRLPWith <$> receipts).

Definition CalculateTransactionsRoot (transactions : list Transaction) : option Hash :=
  calculateRootWithRlp (tx_MarshalRLPWith <$> transactions).

Definition CalculateUncleRoot (uncles : list Header) : Hash :=
  match uncles with
  | [] => EmptyUncleHash
  | _ => BytesToHash (keccak256 (fastrlp_MarshalTo (VArray (header_MarshalRLPWith <$> uncles))))
  end.

End Buildroot.

(** * The fast hasher computes the root of the trie

    The trie of up to 128 indices is written down explicitly; it is canonical and
    has the entries the insertions make, so it is the trie [deriveSlow] builds.
    The bytes the fast hasher writes are the RLP of its nodes. *)
Local Open Scope go_scope.

(** ** Length prefixes *)

Lemma Bytes_length_bounds n k :
  256 ^ (Z.of_nat k) <= n < 256 ^ (Z.of_nat k + 1) -> length (Bytes n) = S k.
Proof.
  intros Hn. assert (E8 : forall z, 0 <= z -> 256 ^ z = 2 ^ (8 * z)).
  { intros z Hz. by rewrite Z.pow_mul_r by lia. }
  rewrite !E8 in Hn by lia. unfold Bytes. rewrite be_bytes_length.
  assert (8 * Z.of_nat k < BitLen n) by (apply BitLen_lt; [lia|]; rewrite Z.abs_eq by lia; lia).
  assert (BitLen n <= 8 * (Z.of_nat k + 1)) by (apply BitLen_le; [lia|]; rewrite Z.abs_eq by lia; lia).
  apply Nat2Z.inj. rewrite Z2Nat.id by (apply Z.div_pos; lia).
  symmetry. apply (Z.div_unique _ _ _ (BitLen n + 7 - 8 * (Z.of_nat k + 1))); lia.
Qed.

Lemma intsize_length n : 56 <= n < two64 -> intsize n = Z.of_nat (length (Bytes n)).
Proof.
  intros Hn. unfold intsize, two64 in *.
  assert (Hk : forall k lo hi, 256 ^ Z.of_nat k = lo -> 256 ^ (Z.of_nat k + 1) = hi -> lo <= n < hi ->
            Z.of_nat (S k) = Z.of_nat (length (Bytes n))).
  { intros k lo hi <- <- Hr. by rewrite (Bytes_length_bounds n k). }
  repeat case_bool; breflect.
  - apply (Hk 0%nat 1 (2 ^ 8)); [done..|lia].
  - apply (Hk 1%nat (2 ^ 8) (2 ^ 16)); [done..|lia].
  - apply (Hk 2%nat (2 ^ 16) (2 ^ 24)); [done..|lia].
  - apply (Hk 3%nat (2 ^ 24) (2 ^ 32)); [done..|lia].
  - apply (Hk 4%nat (2 ^ 32) (2 ^ 40)); [done..|lia].
  - apply (Hk 5%nat (2 ^ 40) (2 ^ 48)); [done..|lia].
  - apply (Hk 6%nat (2 ^ 48) (2 ^ 56)); [done..|lia].
  - apply (Hk 7%nat (2 ^ 56) (2 ^ 64)); [done..|lia].
Qed.

Lemma marshalRlpSize_prefix n short long :
  0 <= n < two64 -> 0 <= short <= 200 -> 0 <= long <= 247 ->
  marshalRlpSize n short long = rlp_prefix short long n.
Proof.
  intros Hn Hs Hl. unfold marshalRlpSize, rlp_prefix. destruct (n <? 56) eqn:E; breflect.
  - by rewrite (Z.mod_small n), Z.mod_small by lia.
  - rewrite intsize_length by lia. pose proof (be_bytes_pad 8 n) as [Hle Hpad].
    { change (256 ^ Z.of_nat 8) with two64. lia. }
    rewrite (Z.mod_small (Z.of_nat _)), Z.mod_small by lia. f_equal. rewrite Nat2Z.id, Hpad.
    rewrite drop_app_length'; [done|]. by rewrite length_replicate.
Qed.

Lemma rlp_string_long b : (2 <= length b)%nat -> rlp_string b = rlp_prefix 128 183 (zlen b) ++ b.
Proof. destruct b as [|x [|y b]]; cbn; try lia. done. Qed.

Lemma rlp_prefix_length short long n :
  0 <= n < two64 -> Z.of_nat (length (rlp_prefix short long n)) = getRlpSize n.
Proof.
  intros Hn. unfold rlp_prefix, getRlpSize. destruct (n <? 56) eqn:E; breflect; [done|].
  rewrite intsize_length by lia. cbn [length]. lia.
Qed.

(** ** The trie of the indices *)

Section Indices.
Context (num : nat) (cb : nat -> list Z).

Definition index_key (i : nat) : list Z := [if (i =? 0)%nat then 128 else Z.of_nat i].

Definition index_map (n : nat) : entries :=
  fold_left (fun m i => <[index_key i := cb i]> m) (seq 0 n) ∅.

Lemma index_key_inj i j : (i < 128)%nat -> (j < 128)%nat -> index_key i = index_key j -> i = j.
Proof. unfold index_key. intros Hi Hj [= E]. repeat case_bool; rewrite ?Nat.eqb_eq, ?Nat.eqb_neq in *; lia. Qed.

Lemma index_map_S n : index_map (S n) = <[index_key n := cb n]> (index_map n).
Proof. unfold index_map. by rewrite seq_S, fold_left_app. Qed.

Lemma index_map_lookup n b v :
  (n <= 128)%nat -> index_map n !! b = Some v <-> exists i, (i < n)%nat /\ b = index_key i /\ v = cb i.
Proof.
  induction n as [|n IH]; intros Hn.
  - unfold index_map. cbn. rewrite lookup_empty. split; [done|]. intros (i & Hi & _). lia.
  - rewrite index_map_S, lookup_insert_Some, IH by lia. split.
    + intros [[<- <-]|[Hne (i & Hi & -> & ->)]]; [by exists n; auto|]. exists i. split; [lia|done].
    + intros (i & Hi & -> & ->). destruct (decide (i = n)) as [->|Hne]; [by left|]. right.
      split; [|by exists i; split; [lia|]]. intros E%index_key_inj; lia.
Qed.

Definition leaf (k v : list Z) : trie := Ext k (Val v).

Definition used_index (i : nat) : bool := (0 <? i)%nat && (i <? num)%nat.

Definition child (g j : nat) : option trie :=
  if used_index (16 * g + j) then Some (leaf [16] (cb (16 * g + j)%nat)) else None.

(** Where group [g] starts and ends. *)
Definition group_from (g : nat) : nat := if (g =? 0)%nat then 1%nat else (16 * g)%nat.
Definition group_to (g : nat) : nat := num `min` (16 * g + 16).

Definition group_trie (g : nat) : option trie :=
  let from := group_from g in
  let n := (group_to g - from)%nat in
  if (n =? 0)%nat then None
  else if (n =? 1)%nat then Some (leaf [Z.of_nat (from - 16 * g); 16] (cb from))
  else Some (Br (map (child g) (seq 0 16) ++ [None])).

Definition index_trie : trie :=
  if (num =? 1)%nat then leaf [8; 0; 16] (cb 0)
  else Br (map group_trie (seq 0 8) ++ [Some (leaf [0; 16] (cb 0))] ++ replicate 8 None).

Lemma used_index_spec i : used_index i = true <-> (0 < i < num)%nat.
Proof. unfold used_index. rewrite andb_true_iff, !Nat.ltb_lt. done. Qed.

(** The indices of a group. *)
Lemma group_indices g i :
  (16 * g <= i < 16 * g + 16)%nat -> (0 < i < num)%nat <-> (group_from g <= i < group_to g)%nat.
Proof. unfold group_from, group_to. intros Hi. destruct (g =? 0)%nat eqn:E; rewrite ?Nat.eqb_eq, ?Nat.eqb_neq in E; lia. Qed.

Lemma leaf_lookup k k' v w : plookup (leaf k w) k' = Some v <-> k' = k /\ v = w.
Proof.
  split; [|intros [-> ->]; apply plookup_leaf].
  intros (r & -> & [-> ->]%plookup_val_Some)%plookup_ext_Some. by rewrite app_nil_r.
Qed.

Lemma child_lookup g y t :
  (map (child g) (seq 0 16) ++ [None]) !! y = Some (Some t) <->
  (y < 16)%nat /\ (0 < 16 * g + y < num)%nat /\ t = leaf [16] (cb (16 * g + y)%nat).
Proof.
  destruct (decide (y < 16)%nat) as [Hy|Hy].
  - rewrite lookup_app_l by (rewrite length_map, length_seq; lia). rewrite list_lookup_fmap, lookup_seq_lt by lia.
    cbn [fmap option_fmap option_map]. unfold child. cbn [Nat.add].
    destruct (used_index _) eqn:E.
    + rewrite used_index_spec in E. split; [intros [= <-]; done|intros (_ & _ & ->); done].
    + split; [done|]. intros (_ & Hu%used_index_spec & _). congruence.
  - split; [|lia]. rewrite lookup_app_r by (rewrite length_map, length_seq; lia). rewrite length_map, length_seq.
    destruct (y - 16)%nat as [|[|]]; done.
Qed.

Lemma group_lookup g k v :
  key_ok k ->
  (exists t, group_trie g = Some t /\ plookup t k = Some v) <->
  exists j, (j < 16)%nat /\ (0 < 16 * g + j < num)%nat /\ k = [Z.of_nat j; 16] /\ v = cb (16 * g + j)%nat.
Proof.
  intros Hk. unfold group_trie. pose proof (group_indices g) as Hg.
  destruct (_ =? 0)%nat eqn:E0; [|destruct (_ =? 1)%nat eqn:E1]; rewrite ?Nat.eqb_eq, ?Nat.eqb_neq in *.
  - split; [by intros (t & ? & _)|]. intros (j & Hj & Hu & _). apply Hg in Hu; lia.
  - assert (Hone : forall j, (j < 16)%nat -> (0 < 16 * g + j < num)%nat -> (16 * g + j = group_from g)%nat).
    { intros j Hj Hu. apply Hg in Hu; lia. }
    assert (16 * g <= group_from g < 16 * g + 16)%nat by (unfold group_from; case_bool; rewrite ?Nat.eqb_eq in *; lia).
    split.
    + intros (t & [= <-] & [-> ->]%leaf_lookup). exists (group_from g - 16 * g)%nat.
      replace (16 * g + (group_from g - 16 * g))%nat with (group_from g) by lia.
      split; [lia|]. split; [apply Hg; lia|done].
    + intros (j & Hj & Hu & -> & ->). eexists. split; [done|]. apply leaf_lookup.
      rewrite (Hone j) by done. split; [|done]. do 2 f_equal. specialize (Hone j Hj Hu). lia.
  - split.
    + intros (t & [= <-] & Hl). destruct k as [|x k]; [done|]. rewrite plookup_br in Hl.
      destruct (_ !! Z.to_nat x) as [[t|]|] eqn:Hs; try done. apply child_lookup in Hs as (Hx & Hu & ->).
      apply leaf_lookup in Hl as [-> ->]. exists (Z.to_nat x). split; [done|]. split; [done|].
      split; [|done]. rewrite Z2Nat.id; [done|]. apply key_ok_slot in Hk. lia.
    + intros (j & Hj & Hu & -> & ->). eexists. split; [done|]. rewrite plookup_br, Nat2Z.id.
      rewrite (proj2 (child_lookup g j _) (conj Hj (conj Hu eq_refl))). by apply leaf_lookup.
Qed.

Lemma slot_lookup x t :
  (map group_trie (seq 0 8) ++ [Some (leaf [0; 16] (cb 0))] ++ replicate 8 None) !! x = Some (Some t) <->
  (x < 8)%nat /\ group_trie x = Some t \/ x = 8%nat /\ t = leaf [0; 16] (cb 0).
Proof.
  destruct (decide (x < 8)%nat) as [Hx|Hx].
  - rewrite lookup_app_l by (rewrite length_map, length_seq; lia). rewrite list_lookup_fmap, lookup_seq_lt by lia.
    cbn. split; [intros [= ?]; auto|]. intros [[_ ->]|[-> _]]; [done|lia].
  - rewrite lookup_app_r by (rewrite length_map, length_seq; lia). rewrite length_map, length_seq.
    destruct (decide (x = 8%nat)) as [->|]; [cbn; split; [intros [= <-]; auto|intros [[? _]|[_ ->]]; [lia|done]]|].
    split; [|lia]. rewrite lookup_app_r by (cbn; lia). intros Hr%list_elem_of_lookup_2%elem_of_replicate. by destruct Hr.
Qed.

Lemma nibbles_single x : bytesToHexNibbles [x] = [x / 16; x mod 16; 16].
Proof. done. Qed.

Lemma index_trie_lookup k v :
  (1 <= num <= 128)%nat -> key_ok k ->
  plookup index_trie k = Some v <->
  exists i, (i < num)%nat /\ k = bytesToHexNibbles (index_key i) /\ v = cb i.
Proof.
  intros Hn Hk. unfold index_trie. destruct (num =? 1)%nat eqn:E1; rewrite ?Nat.eqb_eq, ?Nat.eqb_neq in *.
  - rewrite leaf_lookup. split; [intros [-> ->]; exists 0%nat; split; [lia|done]|].
    intros (i & Hi & -> & ->). by replace i with 0%nat by lia.
  - destruct k as [|x k]; [by apply key_ok_nil in Hk|]. rewrite plookup_br. pose proof (key_ok_slot _ _ Hk) as Hx.
    destruct (decide (x < 16)) as [Hlt|Hge].
    2:{ destruct (key_ok_tail _ _ Hk) as [[-> ->]|[Hnx _]]; [|unfold nibble in Hnx; lia].
        split; [|intros (i & Hi & Hk' & _); unfold index_key in Hk'; rewrite nibbles_single in Hk'; done].
        by cbn. }
    assert (Hk' : key_ok k) by (apply (key_ok_slot_tail x); [lia|done]).
    split.
    + destruct (_ !! Z.to_nat x) as [[t|]|] eqn:Hs; try done. intros Hl.
      apply slot_lookup in Hs as [[Hx8 Ht]|[Hx8 ->]].
      * destruct (proj1 (group_lookup (Z.to_nat x) k v Hk') (ex_intro _ t (conj Ht Hl))) as (j & Hj & Hu & -> & ->).
        exists (16 * Z.to_nat x + j)%nat. split; [lia|]. split; [|done]. unfold index_key.
        rewrite (proj2 (Nat.eqb_neq _ _)) by lia. rewrite nibbles_single. f_equal; [|f_equal].
        -- apply (Z.div_unique _ _ _ (Z.of_nat j)); lia.
        -- apply (Z.mod_unique _ _ x); lia.
      * apply leaf_lookup in Hl as [-> ->]. exists 0%nat. split; [lia|]. split; [|done].
        by replace x with 8 by lia.
    + intros (i & Hi & Hki & ->). unfold index_key in Hki. destruct (i =? 0)%nat eqn:Ei; rewrite nibbles_single in Hki;
        injection Hki as -> ->; rewrite ?Nat.eqb_eq, ?Nat.eqb_neq in Ei.
      * subst i. change (Z.to_nat (128 / 16)) with 8%nat. rewrite (proj2 (slot_lookup _ _) (or_intror (conj eq_refl eq_refl))). by apply leaf_lookup.
      * pose proof (Z.div_mod (Z.of_nat i) 16 ltac:(lia)) as Hdm. pose proof (Z.mod_pos_bound (Z.of_nat i) 16 ltac:(lia)).
        destruct (proj2 (group_lookup (Z.to_nat (Z.of_nat i / 16)) [Z.of_nat i mod 16; 16] (cb i) Hk')) as (t & Ht & Hl).
        { exists (Z.to_nat (Z.of_nat i mod 16)).
          assert (16 * Z.to_nat (Z.of_nat i / 16) + Z.to_nat (Z.of_nat i mod 16) = i)%nat as -> by lia.
          rewrite Z2Nat.id by lia. split; [lia|]. split; [lia|done]. }
        rewrite (proj2 (slot_lookup _ t)); [done|]. left. split; [lia|done].
Qed.

Lemma leaf_wf x v : 0 <= x < 16 -> wf (leaf [x; 16] v).
Proof. intros. apply wf_leaf. constructor; [done|constructor]. Qed.

Lemma group_trie_wf g t : group_trie g = Some t -> wf t.
Proof.
  unfold group_trie. pose proof (group_indices g) as Hg.
  assert (16 * g <= group_from g < 16 * g + 16 /\ group_to g <= 16 * g + 16)%nat
    by (unfold group_from, group_to; case_bool; rewrite ?Nat.eqb_eq in *; lia).
  destruct (_ =? 0)%nat eqn:E0; [done|]. destruct (_ =? 1)%nat eqn:E1; rewrite ?Nat.eqb_eq, ?Nat.eqb_neq in *.
  - intros [= <-]. apply leaf_wf. lia.
  - intros [= <-]. set (i := (group_from g - 16 * g)%nat). apply wf_slots.
    split; [done|]. split.
    + exists i, (S i). eexists _, _. split; [lia|].
      split; apply child_lookup; (split; [lia|]); (split; [apply Hg; lia|done]).
    + intros j t (Hj & _ & ->)%child_lookup. left. split; [done|]. apply wf_leaf. constructor.
Qed.

Lemma index_trie_wf : (1 <= num)%nat -> wf index_trie.
Proof.
  intros Hn. unfold index_trie. destruct (num =? 1)%nat eqn:E1; rewrite ?Nat.eqb_eq, ?Nat.eqb_neq in *.
  - apply wf_leaf. repeat (constructor; [unfold nibble; lia|]). constructor.
  - apply wf_slots. split; [by rewrite !length_app, length_map, length_seq|].
    assert (Hk : key_ok [1; 16]) by (constructor; [unfold nibble; lia|constructor]).
    destruct (proj2 (group_lookup 0 [1; 16] (cb 1) Hk)) as (t & Ht & _); [exists 1%nat; split; [lia|split; [lia|done]]|].
    split.
    + exists 0%nat, 8%nat, t, (leaf [0; 16] (cb 0)). split; [done|].
      split; apply slot_lookup; [left; split; [lia|done]|by right].
    + intros i u [[Hi Hu]|[-> ->]]%slot_lookup; left; (split; [lia|]); [by eapply group_trie_wf|by apply leaf_wf].
Qed.

Lemma index_trie_holds : (1 <= num <= 128)%nat -> holds 1 (Some index_trie) (index_map num).
Proof.
  intros Hn. split.
  - intros t [= <-]. apply index_trie_wf. lia.
  - intros b v (i & Hi & -> & ->)%index_map_lookup; [|lia]. split; [|done]. repeat constructor; case_bool; lia.
  - intros k v Hk. cbn [slookup]. rewrite index_trie_lookup by done. split.
    + intros (i & Hi & -> & ->). exists (index_key i). split; [done|]. apply index_map_lookup; [lia|]. by exists i.
    + intros (b & -> & (i & Hi & -> & ->)%index_map_lookup); [|lia]. by exists i.
Qed.

End Indices.

(** ** The trie [deriveSlow] builds *)

Section Slow.
Context `{Fastrlp} `{!CodecLaws} `{!RlpFormat} (num : nat) (cb : nat -> list Z).
Hypothesis num_range : (1 <= num <= 128)%nat.

Lemma marshal_index i : (i < 128)%nat -> fastrlp_MarshalTo (VUint (Z.of_nat i)) = index_key i.
Proof.
  intros Hi. assert (He : rlp_encode (norm (VUint (Z.of_nat i))) = index_key i).
  { unfold index_key. destruct (i =? 0)%nat eqn:E; rewrite ?Nat.eqb_eq, ?Nat.eqb_neq in E; [by subst|].
    cbn [norm rlp_encode]. unfold Bytes. assert (BitLen (Z.of_nat i) <= 7) by (apply BitLen_le; lia).
    assert (0 < BitLen (Z.of_nat i)) by (apply BitLen_lt; lia).
    replace ((BitLen (Z.of_nat i) + 7) / 8) with 1 by (apply (Z.div_unique _ _ _ (BitLen (Z.of_nat i) - 1)); lia).
    change (be_bytes (Z.to_nat 1) (Z.abs (Z.of_nat i))) with [Z.abs (Z.of_nat i) mod 256].
    rewrite Z.abs_eq, Z.mod_small by lia. cbn [rlp_string]. by rewrite (proj2 (Z.ltb_lt _ _)) by lia. }
  rewrite <- He. apply MarshalTo_format. by rewrite He.
Qed.

Definition none_written : written := fun _ _ => False.

Lemma insertions n :
  (n <= num)%nat ->
  exists t, fold_left (insert_index cb) (seq 0 n) (Some (Trie_Txn NewTrie)) = Some t /\ x_epoch t = 1 /\
    view no_storage (dirty none_written 1) (hash_ok none_written) 1 t (index_map cb n).
Proof using All.
  induction n as [|n IH]; intros Hn.
  - eexists. split; [done|]. split; [done|]. exists None. split; [done|apply holds_empty].
  - destruct IH as (t & Ht & He & Hv); [lia|]. rewrite seq_S, fold_left_app, Ht. cbn [fold_left insert_index].
    change (0 + n)%nat with n. rewrite index_map_S.
    change (insert_index cb (Some t) n) with
      (trie_Insert no_storage t (fastrlp_MarshalTo (VUint (Z.of_nat n))) (cb n)).
    rewrite marshal_index by lia. apply Insert_view; try done.
    + intros e u Hu. by apply dirty_nil.
    + intros h e u u'. apply dirty_write.
    + repeat constructor; case_bool; lia.
Qed.

Lemma deriveSlow_digest : deriveSlow num cb = Some (digest (index_trie num cb)).
Proof using All.
  destruct (insertions num) as (t & Ht & He & s & Hu & Hs); [lia|]. unfold deriveSlow. rewrite Ht.
  unfold mbind, option_bind.
  assert (s = Some (index_trie num cb)) as -> by (eapply holds_unique; [exact Hs|by apply index_trie_holds]).
  destruct (Hash_ok no_storage none_written t (Some (index_trie num cb))) as (puts & t' & -> & _); [done| | |done].
  - rewrite He. destruct (x_root t) as [n|]; [|done]. eapply unf_mono; [by intros ? ?| |done|exact Hu].
    intros h e u (? & ? & _). by split.
  - intros u [= <-]. unfold index_trie. by destruct (_ =? 1)%nat.
Qed.

End Slow.

(** ** The bytes of the fast hasher *)

Lemma mapM_map {A B} (f : A -> option B) (g : A -> B) l :
  (forall x, x ∈ l -> f x = Some (g x)) -> mapM f l = Some (map g l).
Proof.
  induction l as [|x l IH]; intros Hf; [done|]. cbn. rewrite Hf by in_list. cbn. rewrite IH; [done|].
  intros y Hy. apply Hf. by constructor.
Qed.

Lemma mapM_elem {A B} (f : A -> option B) l k : mapM f l = Some k -> forall x, x ∈ l -> exists y, f x = Some y.
Proof. intros Hm x Hx. apply mapM_Some_1 in Hm. apply list_elem_of_lookup in Hx as [i Hi].
  destruct (Forall2_lookup_l _ _ _ _ _ Hm Hi) as (y & _ & ?). eauto.
Qed.

Section Fast.
Context `{Fastrlp} `{!CodecLaws} `{!RlpFormat}.

(** Values that are referenced by their hash. *)
Definition long_value (v : list Z) : Prop := 32 <= zlen v < 2 ^ 60.

Lemma rlp_string_hash h : length h = 32%nat -> rlp_string h = rlpHashPrefix ++ h.
Proof using Type. intros Hl. rewrite rlp_string_long by lia. unfold zlen. by rewrite Hl. Qed.

Lemma rlp_string_value v :
  long_value v -> rlp_string v = marshalItemRlpSize (zlen v) ++ v /\ zlen (rlp_string v) = getRlpSize (zlen v) + zlen v.
Proof using Type.
  unfold long_value. intros Hv. rewrite rlp_string_long by (unfold zlen in Hv; lia). split.
  - unfold marshalItemRlpSize. by rewrite marshalRlpSize_prefix by (unfold two64; lia).
  - unfold zlen at 1. rewrite length_app, Nat2Z.inj_add, rlp_prefix_length by (unfold two64; lia). done.
Qed.

Lemma getRlpSize_range n : 0 <= n < two64 -> 1 <= getRlpSize n <= 9.
Proof using Type. unfold getRlpSize, intsize. intros. repeat case_bool; lia. Qed.

Lemma leaf_bytes k key v :
  rlp_string (encodeCompact k) = key -> zlen key <= 3 -> long_value v ->
  rlp_encode (norm (node_value (leaf k v))) = encode_leaf key v /\ 32 <= zlen (encode_leaf key v) < two64.
Proof using Type.
  intros Hk Hkl Hv. destruct (rlp_string_value v Hv) as [Hs Hsl]. unfold long_value in Hv.
  pose proof (getRlpSize_range (zlen v) ltac:(unfold two64; lia)). assert (0 <= zlen key) by (unfold zlen; lia).
  assert (He : rlp_encode (norm (node_value (leaf k v))) = encode_leaf key v).
  { cbn [leaf node_value reference norm map rlp_encode concat]. rewrite Hk, app_nil_r. unfold encode_leaf.
    rewrite <- Hs. f_equal. unfold marshalListRlpSize. rewrite marshalRlpSize_prefix by (unfold two64; lia).
    f_equal. rewrite length_app. unfold zlen in *. lia. }
  split; [done|]. set (n := getRlpSize (zlen v) + zlen v + zlen key) in *.
  assert (Hn : 0 <= n < two64) by (unfold two64; lia). pose proof (getRlpSize_range n Hn).
  assert (Hlen : zlen (encode_leaf key v) = getRlpSize n + n).
  { unfold encode_leaf, marshalListRlpSize. fold n. rewrite marshalRlpSize_prefix by (done || lia). rewrite <- Hs.
    unfold zlen at 1. rewrite !length_app, !Nat2Z.inj_add, rlp_prefix_length by done. unfold zlen in *. lia. }
  rewrite Hlen. unfold two64 in *. lia.
Qed.

Lemma node_reference t :
  is_node t = true -> 32 <= zlen (rlp_encode (norm (node_value t))) < two64 ->
  reference t = VBytes (keccak256 (rlp_encode (norm (node_value t)))) /\
  digest t = keccak256 (rlp_encode (norm (node_value t))).
Proof.
  intros Hn Hl. unfold zlen in Hl. rewrite reference_eq. unfold big, digest, encoding. rewrite Hn, MarshalTo_format by lia.
  assert (Hb : 32 <= fastrlp_Len (node_value t)); [|by rewrite (proj2 (Z.ltb_ge _ _) Hb)].
  apply Z.nlt_ge. intros Hlt. destruct t as [|p c|slots]; [done|..]; apply Len_array in Hlt; cbn [node_value] in Hl; lia.
Qed.

Lemma leaf_reference k key v :
  rlp_string (encodeCompact k) = key -> zlen key <= 3 -> long_value v ->
  reference (leaf k v) = VBytes (keccak256 (encode_leaf key v)) /\ digest (leaf k v) = keccak256 (encode_leaf key v).
Proof.
  intros Hk Hl Hv. destruct (leaf_bytes k key v Hk Hl Hv) as [<- Hr]. by apply node_reference.
Qed.

Definition slot_bytes (o : option trie) : list Z := rlp_encode (norm (slot_value o)).

Lemma branch_bytes slots :
  rlp_encode (norm (node_value (Br slots))) =
  rlp_prefix 192 247 (zlen (concat (map slot_bytes slots))) ++ concat (map slot_bytes slots).
Proof using Type. cbn [node_value norm rlp_encode]. by rewrite !map_map. Qed.

Lemma slot_bytes_hash o h : slot_value o = VBytes h -> length h = 32%nat -> slot_bytes o = rlpHashPrefix ++ h.
Proof using Type. unfold slot_bytes. intros -> Hl. by apply rlp_string_hash. Qed.

End Fast.

Lemma map_replicate_eq {A B} (f : A -> B) y l : (forall x, x ∈ l -> f x = y) -> map f l = replicate (length l) y.
Proof.
  induction l as [|x l IH]; intros Hf; [done|]. cbn. rewrite Hf by in_list. f_equal. apply IH.
  intros z Hz. apply Hf. by constructor.
Qed.

Section FastRoot.
Context `{Fastrlp} `{!CodecLaws} `{!RlpFormat} (num : nat) (cb : nat -> list Z).
Hypothesis num_range : (2 <= num <= 128)%nat.
Hypothesis values : forall i, (i < num)%nat -> long_value (cb i).

Lemma getCb_ok i : (i < num)%nat -> getCb num cb i = Some (cb i).
Proof using All.
  intros Hi. pose proof (values i Hi) as Hv. unfold long_value, zlen in Hv. unfold getCb.
  rewrite (proj2 (Nat.ltb_ge _ _)), (proj2 (Nat.ltb_ge _ _)) by lia. done.
Qed.

Lemma leaf_slot k key i :
  rlp_string (encodeCompact k) = key -> zlen key <= 3 -> (i < num)%nat ->
  slot_bytes (Some (leaf k (cb i))) = rlpHashPrefix ++ keccak256 (encode_leaf key (cb i)).
Proof using All.
  intros Hk Hl Hi. apply slot_bytes_hash; [|apply keccak256_length]. cbn [slot_value].
  by destruct (leaf_reference k key (cb i) Hk Hl (values i Hi)) as [-> _].
Qed.

Definition child_bytes (i : nat) : list Z := rlpHashPrefix ++ keccak256 (encode_leaf leafVal (cb i)).

Lemma child_slot g j :
  slot_bytes (child num cb g j) = if used_index num (16 * g + j) then child_bytes (16 * g + j) else rlpEmptyValue.
Proof using All.
  unfold child. destruct (used_index _ _) eqn:E; [|done]. apply used_index_spec in E. apply leaf_slot; [done|done|lia].
Qed.

(** The branch of a group with more than one element. *)
Definition group_body (g : nat) : list Z := concat (map slot_bytes (map (child num cb g) (seq 0 16) ++ [None])).

Lemma group_body_eq g n :
  n = (group_to num g - group_from g)%nat -> (1 < n)%nat ->
  group_body g =
  (if (group_from g =? 1)%nat then rlpEmptyValue else []) ++ concat (map child_bytes (seq (group_from g) n)) ++
  (if (n <? 16)%nat then concat (replicate ((if (group_from g =? 1)%nat then 15 else 16) - n) rlpEmptyValue) else []) ++
  rlpEmptyValue.
Proof using All.
  intros Hn H1n. set (a := (group_from g - 16 * g)%nat). pose proof (group_indices num g) as Hg.
  assert (Ha : (group_from g = 16 * g + a /\ a + n <= 16 /\ (a = 0 /\ group_from g <> 1 \/ a = 1 /\ group_from g = 1))%nat).
  { unfold a, group_from, group_to in *. destruct (g =? 0)%nat eqn:E; rewrite ?Nat.eqb_eq, ?Nat.eqb_neq in E; lia. }
  destruct Ha as (Hfrom & Han & Ha). unfold group_body. rewrite map_app, concat_app, map_map. cbn [map concat].
  change (slot_bytes None ++ []) with rlpEmptyValue.
  replace 16%nat with (a + (n + (16 - a - n)))%nat at 1 by lia. rewrite !seq_app, !map_app, !concat_app.
  cbn [Nat.add]. rewrite <- !app_assoc. f_equal; [|f_equal; [|f_equal]].
  - destruct Ha as [[Ea Hf]|[Ea Hf]]; rewrite Ea; [by rewrite (proj2 (Nat.eqb_neq _ _) Hf)|].
    rewrite Hf. cbn [seq map concat Nat.eqb]. rewrite child_slot.
    destruct (used_index _ _) eqn:E; [|done]. apply used_index_spec in E. apply Hg in E; lia.
  - f_equal. rewrite Hfrom. rewrite <- (fmap_add_seq (16 * g) a n). rewrite map_map.
    apply map_ext_in. intros j [Hj1 Hj2]%in_seq. rewrite child_slot.
    by rewrite (proj2 (used_index_spec num _)) by (apply Hg; lia).
  - rewrite (map_replicate_eq _ rlpEmptyValue).
    + rewrite length_seq. destruct Ha as [[Ea Hf]|[Ea Hf]].
      * rewrite (proj2 (Nat.eqb_neq _ _) Hf). destruct (n <? 16)%nat eqn:E; [f_equal; f_equal; lia|].
        apply Nat.ltb_ge in E. by replace (16 - a - n)%nat with 0%nat by lia.
      * rewrite Hf. cbn [Nat.eqb]. rewrite (proj2 (Nat.ltb_lt _ _)) by lia. f_equal. f_equal. lia.
    + intros j [Hj1 Hj2]%elem_of_seq. rewrite child_slot.
      destruct (used_index _ _) eqn:E; [|done]. apply used_index_spec in E. apply Hg in E; lia.
Qed.

(** Every slot takes at most 33 bytes. *)
Lemma slots_length l :
  (forall o, o ∈ l -> (1 <= length (slot_bytes o) <= 33)%nat) ->
  (length l <= length (concat (map slot_bytes l)) <= 33 * length l)%nat.
Proof using All.
  induction l as [|o l IH]; intros Hl; [done|]. cbn [map concat length]. rewrite length_app.
  pose proof (Hl o ltac:(by constructor)). specialize (IH (fun o Ho => Hl o (list_elem_of_further _ _ _ Ho))). lia.
Qed.

Lemma marshalList_prefix n : 0 <= n < two64 -> marshalListRlpSize n = rlp_prefix 192 247 n.
Proof using All. intros. unfold marshalListRlpSize. apply marshalRlpSize_prefix; lia. Qed.

(** A branch of at least two hashes is referenced by its own. *)
Lemma branch_reference slots :
  (forall o, o ∈ slots -> (1 <= length (slot_bytes o) <= 33)%nat) -> length slots = 17%nat ->
  32 <= zlen (concat (map slot_bytes slots)) ->
  reference (Br slots) = VBytes (keccak256 (marshalListRlpSize (zlen (concat (map slot_bytes slots))) ++ concat (map slot_bytes slots))) /\
  digest (Br slots) = keccak256 (marshalListRlpSize (zlen (concat (map slot_bytes slots))) ++ concat (map slot_bytes slots)).
Proof using All.
  intros Hs Hl Hbig. pose proof (slots_length slots Hs) as Hlen. rewrite Hl in Hlen.
  set (body := concat (map slot_bytes slots)) in *.
  assert (Hb : 0 <= zlen body < two64) by (unfold zlen, two64; lia).
  pose proof (branch_bytes slots) as Hbr. fold body in Hbr. rewrite marshalList_prefix, <- Hbr by done.
  apply node_reference; [done|]. rewrite Hbr. unfold zlen at 1 3. rewrite !length_app, !Nat2Z.inj_add, rlp_prefix_length by done.
  pose proof (getRlpSize_range _ Hb). unfold zlen, two64 in *. lia.
Qed.

Lemma child_slot_length g j : (1 <= length (slot_bytes (child num cb g j)) <= 33)%nat.
Proof using All.
  rewrite child_slot. destruct (used_index _ _); [|cbn; lia]. unfold child_bytes.
  rewrite length_app, keccak256_length. cbn. lia.
Qed.

Lemma concat_child_length l : (length (concat (map child_bytes l)) = 33 * length l)%nat.
Proof using All.
  induction l as [|x l IH]; [done|]. cbn [map concat length]. rewrite length_app, IH. unfold child_bytes.
  rewrite length_app, keccak256_length. cbn. lia.
Qed.

Lemma group_slot g t :
  group_trie num cb g = Some t ->
  exists h, deriveGroup num cb (group_from g) (group_to num g) = Some h /\ length h = 32%nat /\
    slot_bytes (Some t) = rlpHashPrefix ++ h.
Proof using All.
  unfold group_trie, deriveGroup. set (n := (group_to num g - group_from g)%nat).
  assert (Hto : (group_to num g <= num)%nat) by (unfold group_to; lia).
  destruct (n =? 0)%nat eqn:E0; [done|]. destruct (n =? 1)%nat eqn:E1; rewrite ?Nat.eqb_eq, ?Nat.eqb_neq in *; intros [= <-].
  - rewrite getCb_ok by lia. eexists. split; [done|]. split; [apply keccak256_length|].
    unfold group_from in *. destruct (g =? 0)%nat eqn:Eg; rewrite ?Nat.eqb_eq, ?Nat.eqb_neq in Eg.
    + subst g. apply leaf_slot; [done|done|lia].
    + rewrite Nat.sub_diag, (proj2 (Nat.eqb_neq _ _)) by lia. apply leaf_slot; [done|done|lia].
  - rewrite (mapM_map _ child_bytes).
    2:{ intros i [Hi1 Hi2]%elem_of_seq. unfold group_child. by rewrite getCb_ok by lia. }
    eexists. split; [done|]. split; [apply keccak256_length|]. apply slot_bytes_hash; [|apply keccak256_length].
    pose proof (group_body_eq g n eq_refl ltac:(lia)) as Hbody. rewrite <- Hbody.
    destruct (branch_reference (map (child num cb g) (seq 0 16) ++ [None])) as [Hr _]; [| | |exact Hr].
    + intros o Ho. apply elem_of_app in Ho as [Ho|Ho].
      * apply list_elem_of_fmap in Ho as (j & -> & _). apply child_slot_length.
      * apply list_elem_of_singleton in Ho as ->. change (slot_bytes None) with rlpEmptyValue. cbn. lia.
    + done.
    + fold (group_body g). rewrite Hbody. unfold zlen. rewrite !length_app, concat_child_length, length_seq. lia.
Qed.

Lemma group_count :
  let c := ((num + 15) / 16)%nat in
  (c <= 8)%nat /\ ((128 - num) / 16 = 8 - c)%nat /\ forall g, (g < c)%nat <-> (16 * g < num)%nat.
Proof using All.
  cbv zeta. set (c := ((num + 15) / 16)%nat).
  pose proof (Nat.div_mod (num + 15) 16 ltac:(lia)) as Hd. pose proof (Nat.mod_upper_bound (num + 15) 16 ltac:(lia)) as Hm.
  fold c in Hd. split; [lia|]. split; [|lia].
  symmetry. apply (Nat.div_unique _ _ _ (128 - num - 16 * (8 - c))); lia.
Qed.

Definition group_slot_bytes (g : nat) : list Z := slot_bytes (group_trie num cb g).

Lemma group_nonempty g : (16 * g < num)%nat -> exists t, group_trie num cb g = Some t.
Proof using All.
  intros Hg. unfold group_trie.
  assert (group_from g < group_to num g)%nat
    by (unfold group_from, group_to; destruct (g =? 0)%nat eqn:E; rewrite ?Nat.eqb_eq, ?Nat.eqb_neq in E; lia).
  rewrite (proj2 (Nat.eqb_neq _ _)) by lia. case_bool; eauto.
Qed.

Lemma group_empty g : (num <= 16 * g)%nat -> group_trie num cb g = None.
Proof using All.
  intros Hg. unfold group_trie. replace (group_to num g - group_from g)%nat with 0%nat; [done|].
  unfold group_from, group_to. destruct (g =? 0)%nat eqn:E; rewrite ?Nat.eqb_eq, ?Nat.eqb_neq in E; lia.
Qed.

Lemma groups_ok :
  mapM (group num cb num) (group_starts num) = Some (map group_slot_bytes (seq 0 ((num + 15) / 16))).
Proof using All.
  destruct group_count as (Hc & _ & Hg). unfold group_starts.
  assert (Hm : forall l, (forall g, g ∈ l -> (g < (num + 15) / 16)%nat) ->
            mapM (group num cb num) ((fun g => g * 16)%nat <$> l) = Some (map group_slot_bytes l)).
  { induction l as [|g l IH]; intros Hl; [done|].
    destruct (group_nonempty g) as [t Ht]; [apply Hg, Hl; by constructor|].
    destruct (group_slot g t Ht) as (h & Hh & _ & Hs).
    assert (group num cb num (g * 16) = Some (group_slot_bytes g)) as Hgr.
    { unfold group, group_slot_bytes. rewrite Ht, Hs.
      replace (if (g * 16 =? 0)%nat then 1%nat else (g * 16)%nat) with (group_from g).
      - replace (num `min` (g * 16 + 16))%nat with (group_to num g) by (unfold group_to; lia). by rewrite Hh.
      - unfold group_from. destruct g; [done|]. cbn [Nat.eqb Nat.mul Nat.add]. lia. }
    cbn [fmap list_fmap mapM]. rewrite Hgr. cbn [mbind option_bind map].
    rewrite (IH (fun x Hx => Hl x (list_elem_of_further _ _ _ Hx))). done. }
  apply Hm. intros g [_ ?]%elem_of_seq. lia.
Qed.

Lemma FastHasher_digest : FastHasher_Hash num cb = Some (digest (index_trie num cb)).
Proof using All.
  unfold FastHasher_Hash, index_trie. rewrite (proj2 (Nat.eqb_neq num 1)) by lia.
  rewrite Nat.min_l, groups_ok, getCb_ok by lia. cbn [mbind option_bind]. f_equal.
  destruct group_count as (Hc & Hrest & Hg). rewrite Hrest.
  set (slots := map (group_trie num cb) (seq 0 8) ++ [Some (leaf [0; 16] (cb 0))] ++ replicate 8 None).
  assert (Hbody : concat (map slot_bytes slots) =
    concat (map group_slot_bytes (seq 0 ((num + 15) / 16))) ++
    concat (replicate (8 - (num + 15) / 16) rlpEmptyValue) ++ rlpHashPrefix ++ encodeSingle (cb 0) false ++
    concat (replicate 8 rlpEmptyValue)).
  { unfold slots. rewrite !map_app, !concat_app, map_map. fold group_slot_bytes.
    replace 8%nat with ((num + 15) / 16 + (8 - (num + 15) / 16))%nat at 1 by lia.
    rewrite seq_app, map_app, concat_app, <- !app_assoc. f_equal. f_equal; [|].
    - f_equal. rewrite (map_replicate_eq _ rlpEmptyValue), length_seq; [done|].
      intros g [Hgl _]%elem_of_seq. unfold group_slot_bytes. rewrite group_empty; [done|]. specialize (Hg g). lia.
    - cbn [map concat]. rewrite app_nil_r, (leaf_slot [0; 16] zeroKey 0) by (done || lia). by rewrite <- app_assoc. }
  rewrite <- Hbody. symmetry. apply branch_reference; [| |].
  - intros o Ho. unfold slots in Ho. rewrite !elem_of_app in Ho. destruct Ho as [Ho|[Ho|Ho]].
    + apply list_elem_of_fmap in Ho as (g & -> & _). destruct (group_trie num cb g) as [t|] eqn:Et.
      * destruct (group_slot g t Et) as (h & _ & Hl & ->). rewrite length_app, Hl. cbn. lia.
      * change (slot_bytes None) with rlpEmptyValue. cbn. lia.
    + apply list_elem_of_singleton in Ho as ->. rewrite (leaf_slot [0; 16] zeroKey 0) by (done || lia).
      rewrite length_app, keccak256_length. cbn. lia.
    + apply elem_of_replicate in Ho as [-> _]. change (slot_bytes None) with rlpEmptyValue. cbn. lia.
  - done.
  - rewrite Hbody. unfold zlen, encodeSingle. rewrite !length_app, keccak256_length. lia.
Qed.

End FastRoot.

(** ** Theorem *)

Section Root.
Context `{Fastrlp} `{!CodecLaws} `{!RlpFormat} (num : nat) (cb : nat -> list Z).

Lemma getCb_long i v : getCb num cb i = Some v -> 32 <= zlen (cb i).
Proof.
  unfold getCb. destruct (num <? i)%nat; [done|]. destruct (_ <? 32)%nat eqn:E; [done|]. intros _.
  apply Nat.ltb_ge in E. unfold zlen. lia.
Qed.

Lemma deriveGroup_long from to h i :
  deriveGroup num cb from to = Some h -> (from <= i < to)%nat -> 32 <= zlen (cb i).
Proof.
  unfold deriveGroup. intros Hd Hi. destruct (_ =? 1)%nat eqn:E; rewrite ?Nat.eqb_eq in E.
  - apply bind_Some in Hd as (v & Hv & _). replace i with from by lia. by eapply getCb_long.
  - apply bind_Some in Hd as (cs & Hcs & _).
    destruct (mapM_elem _ _ _ Hcs i) as [y Hy]; [apply elem_of_seq; lia|].
    apply bind_Some in Hy as (v & Hv & _). by eapply getCb_long.
Qed.

(** The fast hasher gives up on short values. *)
Lemma FastHasher_long d i :
  (1 <= num <= 128)%nat -> FastHasher_Hash num cb = Some d -> (i < num)%nat -> 32 <= zlen (cb i).
Proof.
  intros Hn Hd Hi. unfold FastHasher_Hash in Hd. destruct (num =? 1)%nat eqn:E1; rewrite ?Nat.eqb_eq, ?Nat.eqb_neq in E1.
  - apply bind_Some in Hd as (v & Hv & _). replace i with 0%nat by lia. by eapply getCb_long.
  - rewrite Nat.min_l in Hd by lia. apply bind_Some in Hd as (gs & Hgs & (v & Hv & _)%bind_Some).
    destruct (decide (i = 0%nat)) as [->|Hi0]; [by eapply getCb_long|].
    pose proof (Nat.div_mod i 16 ltac:(lia)) as Hdm. pose proof (Nat.mod_upper_bound i 16 ltac:(lia)).
    destruct (mapM_elem _ _ _ Hgs (i / 16 * 16)%nat) as [y Hy].
    { apply list_elem_of_fmap. exists (i / 16)%nat. split; [done|]. apply elem_of_seq.
      split; [lia|]. apply Nat.div_lt_upper_bound; [lia|].
      pose proof (Nat.div_mod (num + 15) 16 ltac:(lia)). pose proof (Nat.mod_upper_bound (num + 15) 16 ltac:(lia)). lia. }
    apply bind_Some in Hy as (h & Hh & _). eapply deriveGroup_long; [exact Hh|].
    destruct (_ =? 0)%nat eqn:E; rewrite ?Nat.eqb_eq, ?Nat.eqb_neq in E; lia.
Qed.

Lemma FastHasher_root d :
  (1 <= num <= 128)%nat -> (forall i, (i < num)%nat -> zlen (cb i) < 2 ^ 60) ->
  FastHasher_Hash num cb = Some d -> d = digest (index_trie num cb).
Proof.
  intros Hn Hs Hd. assert (Hv : forall i, (i < num)%nat -> long_value (cb i)).
  { intros i Hi. split; [by eapply FastHasher_long|by apply Hs]. }
  destruct (decide (num = 1%nat)) as [E1|Hne].
  - unfold FastHasher_Hash, index_trie in *. rewrite E1 in Hd |- *. cbn [Nat.eqb] in *.
    apply bind_Some in Hd as (v & Hg & [= <-]).
    assert (v = cb 0) as -> by (unfold getCb in Hg; repeat case_bool; by simplify_eq).
    symmetry. apply leaf_reference; [done|done|]. apply Hv. lia.
  - rewrite (FastHasher_digest num cb) in Hd by (done || lia). by simplify_eq.
Qed.

End Root.

(** C24. The root of a list of transactions or receipts is the root of the trie from
    the RLP of each index to the encoding of the element, whichever way it is
    computed: writing the nodes of the trie directly, as the fast hasher does for
    up to 128 elements, gives the hash that inserting the elements one by one and
    hashing the trie gives. The trie built by the insertions is the canonical trie
    of exactly those entries. *)
Theorem CalculateRoot_fast `{Fastrlp} `{!CodecLaws} `{!RlpFormat} (num : nat) (cb : nat -> list Z) :
  num <> 0%nat -> (forall i, (i < num)%nat -> zlen (cb i) < 2 ^ 60) ->
  CalculateRoot num cb = BytesToHash <$> deriveSlow num cb /\
  ((num <= 128)%nat ->
     exists t, deriveSlow num cb = Some (digest t) /\ holds 1 (Some t) (index_map cb num)).
Proof.
  intros Hn Hs. split.
  - unfold CalculateRoot. rewrite (proj2 (Nat.eqb_neq _ _) Hn). destruct (num <=? 128)%nat eqn:E; [|done].
    apply Nat.leb_le in E. destruct (FastHasher_Hash num cb) as [d|] eqn:Hd; [|done].
    apply FastHasher_root in Hd as ->; [|lia|done]. by rewrite deriveSlow_digest by lia.
  - intros Hle. exists (index_trie num cb). split; [apply deriveSlow_digest; lia|apply index_trie_holds; lia].
Qed.

(** ** Witness *)

Definition fmt_codec : Codec := {|
  fastrlp_MarshalTo := fun v => rlp_encode (norm v);
  keccak256 := fun l => be_bytes 32 (foldl (fun acc x => Z.land (acc * 16777619 + x + 7) 0xffffffffffffffffffffffffffffffffffffffffffffffffffffffffffffffff) 0 l) |}.

Definition fmt_codec_laws : @CodecLaws fmt_codec.
Proof. split; intros b; [apply (be_bytes_length 32)|apply (be_bytes_ok 32)]. Defined.

(** Only encoding is needed. The length of a list is that of its body and of the number of
    bytes in it. *)
Definition fmt_rlp : @Fastrlp fmt_codec := {|
  fastrlp_Parse := fun _ => None;
  fastrlp_Len := fun v =>
    match v with
    | VBytes b => zlen b
    | VArray l => let body := zlen (concat (map rlp_encode (map norm l))) in body + Z.max 1 (zlen (Bytes body))
    | _ => zlen (rlp_encode (norm v))
    end;
  rlp_GetUint64 := fun _ => None; rlp_GetBigInt := fun _ => None; rlp_GetHash := fun _ => None;
  rlp_GetAddr := fun _ => None; rlp_GetBytes := fun _ => None; rlp_GetBytesN := fun _ _ => None;
  rlp_Bytes := fun _ => None; parser_Hash := fun _ _ => 0 |}.

Definition fmt_format : @RlpFormat fmt_codec fmt_rlp.
Proof.
  split; [done|]. intros l _. cbn [fastrlp_Len fmt_rlp norm rlp_encode]. set (body := concat _). fold (zlen body). unfold rlp_prefix. rewrite length_app, Nat2Z.inj_add. fold (zlen body).
  assert (Hb : 0 <= zlen body) by (unfold zlen; lia). destruct (Z.ltb_spec (zlen body) 56) as [Hs|Hs]; [|unfold zlen in *; lia].
  assert (Hl : zlen (Bytes (zlen body)) <= 1); [|unfold zlen in *; cbn [length]; lia].
  pose proof (BitLen_nonneg (zlen body)). pose proof (proj2 (BitLen_le (zlen body) 8 ltac:(lia)) ltac:(lia)) as Hbit.
  unfold zlen at 1, Bytes. rewrite be_bytes_length, Z2Nat.id by (apply Z.div_pos; lia). apply Z.lt_succ_r, Z.div_lt_upper_bound; lia.
Defined.

Definition sample_value (i : nat) : list Z := replicate 40 (Z.of_nat i).

Lemma CalculateRoot_fast_witness :
  CalculateRoot (H0 := fmt_rlp) 20 sample_value = BytesToHash <$> deriveSlow (H0 := fmt_rlp) 20 sample_value.
Proof.
  apply (@CalculateRoot_fast fmt_codec fmt_rlp fmt_codec_laws fmt_format); [done|].
  intros i _. unfold sample_value, zlen. rewrite length_replicate. done.
Defined.
