(* ===== verification/Storage.v ===== *)
(** * The storage of the chain ([blockchain/storage]: keyvalue.go, utils.go,
      memory)

    The database is a log of its writes, newest first: a read finds the last write
    of its key, and what a crash leaves behind is an earlier log. The in-memory
    database does not fail; errors of the disk are not modelled. Records are kept
    as RLP; reading one can fail, or panic ([None]) where a decoder does. *)

From S2P Require Import Prelude ChainTypes BigInt Runtime Receipts Rlp TrieSample ChainRlp ChainRlpProps.
Local Open Scope go_scope.

Definition KV : Type := list (list Z * list Z).

Definition kv_Set (db : KV) (p v : list Z) : KV := (p, v) :: db.
Definition kv_Get (db : KV) (p : list Z) : option (list Z) :=
  snd <$> find (fun e => bool_decide (fst e = p)) db.

(** Prefixes and sub-prefixes, as ASCII. *)
Definition DIFFICULTY : list Z := [100].
Definition HEADER : list Z := [104].
Definition HEAD : list Z := [111].
Definition FORK : list Z := [102].
Definition CANONICAL : list Z := [99].
Definition BODY : list Z := [98].
Definition RECEIPTS : list Z := [114].
Definition TX_LOOKUP_PREFIX : list Z := [108].
Definition HASH : list Z := [104; 97; 115; 104].
Definition NUMBER : list Z := [110; 117; 109; 98; 101; 114].
Definition EMPTY : list Z := [101; 109; 112; 116; 121].

Inductive StorageErr := ErrNotFound | ErrDecode (e : RlpErr).

Definition kv_set (db : KV) (p k v : list Z) : KV := kv_Set db (p ++ k) v.
Definition kv_get (db : KV) (p k : list Z) : option (list Z) := kv_Get db (p ++ k).

Definition encodeUint (n : Z) : list Z := be_bytes 8 n.
Definition decodeUint (b : list Z) : Z := be_val b.
Definition hash_key (h : Hash) : list Z := be_bytes 32 h.

Section Storage.
Context `{Fastrlp} `{HeaderHasher}.

Definition readRLP {A} (db : KV) (p k : list Z) (obj : list Z -> Dec A) : option (result StorageErr A) :=
  match kv_Get db (p ++ k) with
  | None => Some (Err ErrNotFound)
  | Some data =>
      match obj data with
      | None => None
      | Some (Err e) => Some (Err (ErrDecode e))
      | Some (Ok a) => Some (Ok a)
      end
  end.

Definition read2 (db : KV) (p k : list Z) : option rlp := kv_get db p k ≫= fastrlp_Parse.
Definition write2 (db : KV) (p k : list Z) (v : Value) : KV := kv_set db p k (fastrlp_MarshalTo v).

(** ** The canonical chain and its head *)

Definition ReadCanonicalHash (db : KV) (n : Z) : option Hash :=
  BytesToHash <$> kv_get db CANONICAL (encodeUint n).
Definition WriteCanonicalHash (db : KV) (n : Z) (hash : Hash) : KV :=
  kv_set db CANONICAL (encodeUint n) (hash_key hash).

Definition ReadHeadHash (db : KV) : option Hash := BytesToHash <$> kv_get db HEAD HASH.
Definition ReadHeadNumber (db : KV) : option Z :=
  data ← kv_get db HEAD NUMBER; if (length data =? 8)%nat then Some (decodeUint data) else None.
Definition WriteHeadHash (db : KV) (h : Hash) : KV := kv_set db HEAD HASH (hash_key h).
Definition WriteHeadNumber (db : KV) (n : Z) : KV := kv_set db HEAD NUMBER (encodeUint n).

(** ** Forks *)

Definition Forks_MarshalRLPWith (f : list Hash) : Value := array_or_null (hash_value <$> f).

Definition Forks_UnmarshalRLPFrom (v : rlp) : Dec (list Hash) :=
  elems ← GetElems v; each (fun e => lift (rlp_GetHash e)) elems.

Definition WriteForks (db : KV) (forks : list Hash) : KV :=
  kv_set db FORK EMPTY (fastrlp_MarshalTo (Forks_MarshalRLPWith forks)).
Definition ReadForks (db : KV) : option (result StorageErr (list Hash)) :=
  readRLP db FORK EMPTY (UnmarshalRlp Forks_UnmarshalRLPFrom).

(** ** Difficulty and headers *)

Definition WriteTotalDifficulty (db : KV) (hash : Hash) (diff : Z) : KV :=
  kv_set db DIFFICULTY (hash_key hash) (Bytes diff).
Definition ReadTotalDifficulty (db : KV) (hash : Hash) : option Z :=
  be_val <$> kv_get db DIFFICULTY (hash_key hash).

Definition WriteHeader (db : KV) (h : Header) : KV :=
  kv_set db HEADER (hash_key (h_Hash h)) (header_MarshalRLP h).
Definition ReadHeader (db : KV) (hash : Hash) : option (result StorageErr Header) :=
  readRLP db HEADER (hash_key hash) header_UnmarshalRLP.

Definition WriteCanonicalHeader (db : KV) (h : Header) (diff : Z) : KV :=
  let db := WriteHeader db h in
  let db := WriteHeadHash db (h_Hash h) in
  let db := WriteHeadNumber db (h_Number h) in
  let db := WriteCanonicalHash db (h_Number h) (h_Hash h) in
  WriteTotalDifficulty db (h_Hash h) diff.

(** ** Bodies, receipts and transactions *)

Definition WriteBody (db : KV) (hash : Hash) (body : Body) : KV :=
  kv_set db BODY (hash_key hash) (body_MarshalRLP body).
Definition ReadBody (db : KV) (hash : Hash) : option (result StorageErr Body) :=
  readRLP db BODY (hash_key hash) body_UnmarshalRLP.

Definition WriteReceipts (db : KV) (hash : Hash) (receipts : list Receipt) : KV :=
  kv_set db RECEIPTS (hash_key hash) (receipts_MarshalStoreRLP receipts).
Definition ReadReceipts (db : KV) (hash : Hash) : option (result StorageErr (list Receipt)) :=
  readRLP db RECEIPTS (hash_key hash) receipts_UnmarshalStoreRLP.

Definition WriteTxLookup (db : KV) (hash blockHash : Hash) : KV :=
  write2 db TX_LOOKUP_PREFIX (hash_key hash) (hash_value blockHash).
Definition ReadTxLookup (db : KV) (hash : Hash) : option Hash :=
  v ← read2 db TX_LOOKUP_PREFIX (hash_key hash);
  blockHash ← rlp_GetBytesN 32 v; Some (BytesToHash blockHash).

End Storage.

(** * Reading what was written

    For every record of the chain database: a read after a write of the same
    record, and of any other one. *)
Local Open Scope go_scope.

Lemma kv_Get_cons db p v q : kv_Get ((p, v) :: db) q = if decide (p = q) then Some v else kv_Get db q.
Proof.
  unfold kv_Get. cbn [find fst]. destruct (decide (p = q)) as [->|Hne].
  - by rewrite bool_decide_true.
  - by rewrite bool_decide_false.
Qed.

Lemma kv_get_set db p k v p' k' :
  kv_get (kv_set db p k v) p' k' = if decide (p ++ k = p' ++ k') then Some v else kv_get db p' k'.
Proof. apply kv_Get_cons. Qed.

Lemma kv_get_eq db p k v : kv_get (kv_set db p k v) p k = Some v.
Proof. rewrite kv_get_set. by rewrite decide_True. Qed.

(** Keys of one prefix, and of two different one-byte prefixes. *)
Lemma kv_get_key db p k v k' : k <> k' -> kv_get (kv_set db p k v) p k' = kv_get db p k'.
Proof. intros Hk. rewrite kv_get_set. rewrite decide_False; [done|]. by intros ?%app_inv_head. Qed.

Lemma kv_get_prefix db x k v y k' : x <> y -> kv_get (kv_set db [x] k v) [y] k' = kv_get db [y] k'.
Proof. intros Hx. rewrite kv_get_set. rewrite decide_False; [done|]. by intros [= ? _]. Qed.

Lemma hash_key_inj x y : word x -> word y -> hash_key x = hash_key y -> x = y.
Proof. intros Hx Hy E. rewrite <- (hash_bytes x Hx), <- (hash_bytes y Hy). unfold hash_key in E. by rewrite E. Qed.

Lemma encodeUint_inj x y : is_u64 x -> is_u64 y -> encodeUint x = encodeUint y -> x = y.
Proof. intros Hx Hy E. rewrite <- (nonce_bytes x Hx), <- (nonce_bytes y Hy). unfold encodeUint in E. by rewrite E. Qed.

Lemma readRLP_get {A} db p k (obj : list Z -> Dec A) :
  readRLP db p k obj =
  match kv_get db p k with
  | None => Some (Err ErrNotFound)
  | Some data =>
      match obj data with
      | None => None
      | Some (Err e) => Some (Err (ErrDecode e))
      | Some (Ok a) => Some (Ok a)
      end
  end.
Proof. done. Qed.

(** The records of the database, as functions of the log. *)
Section Records.
Context `{Fastrlp} `{!CodecLaws} `{!FastrlpLaws} `{HeaderHasher}.

Definition header_at (db : KV) (x : Hash) : option (list Z) := kv_get db HEADER (hash_key x).

Lemma ReadCanonicalHash_write db n x m :
  is_u64 n -> is_u64 m -> word x ->
  ReadCanonicalHash (WriteCanonicalHash db n x) m = if decide (n = m) then Some x else ReadCanonicalHash db m.
Proof using Type.
  intros Hn Hm Hx. unfold ReadCanonicalHash, WriteCanonicalHash. case_decide as Hd.
  - subst. rewrite kv_get_eq. cbn [fmap option_fmap option_map]. by rewrite BytesToHash_bytes.
  - rewrite kv_get_key; [done|]. by intros ?%encodeUint_inj.
Qed.

Lemma ReadHeadHash_write db x : word x -> ReadHeadHash (WriteHeadHash db x) = Some x.
Proof using Type.
  intros Hx. unfold ReadHeadHash, WriteHeadHash. rewrite kv_get_eq. cbn [fmap option_fmap option_map].
  by rewrite BytesToHash_bytes.
Qed.

Lemma ReadHeadNumber_write db n : is_u64 n -> ReadHeadNumber (WriteHeadNumber db n) = Some n.
Proof using Type.
  intros Hn. unfold ReadHeadNumber, WriteHeadNumber. rewrite kv_get_eq. cbn [mbind option_bind]. unfold encodeUint.
  rewrite be_bytes_length. cbn [Nat.eqb]. unfold decodeUint. by rewrite nonce_bytes.
Qed.

Lemma ReadTotalDifficulty_write db x d y :
  word x -> word y -> 0 <= d ->
  ReadTotalDifficulty (WriteTotalDifficulty db x d) y = if decide (x = y) then Some d else ReadTotalDifficulty db y.
Proof using Type.
  intros Hx Hy Hd. unfold ReadTotalDifficulty, WriteTotalDifficulty. case_decide as E.
  - subst. rewrite kv_get_eq. cbn [fmap option_fmap option_map]. rewrite be_val_Bytes. f_equal. lia.
  - rewrite kv_get_key; [done|]. by intros ?%hash_key_inj.
Qed.

Lemma ReadForks_write db l : Forall word l -> ReadForks (WriteForks db l) = Some (Ok l).
Proof.
  intros Hl. unfold ReadForks, WriteForks. rewrite readRLP_get.
  rewrite kv_get_eq. rewrite UnmarshalRlp_ok.
  - unfold Forks_UnmarshalRLPFrom, Forks_MarshalRLPWith. rewrite norm_array_or_null, (elems_then _ _ _ eq_refl).
    change (map norm (hash_value <$> l)) with (map norm (map hash_value l)). rewrite map_map.
    rewrite (each_map _ _ id); [by rewrite list_fmap_id|]. eapply Forall_impl; [exact Hl|]. intros h Hh.
    cbn beta. by rewrite GetHash_value.
  - apply array_or_null_ok, Forall_fmap. eapply Forall_impl; [exact Hl|]. intros h _. apply be_bytes_ok.
Qed.

(** A header under its hash. *)
Lemma header_read db x h :
  header_ok h -> header_at db x = Some (header_MarshalRLP h) -> ReadHeader db x = Some (Ok (h_ComputeHash h)).
Proof.
  intros Hh Hx. unfold ReadHeader. rewrite readRLP_get. unfold header_at in Hx. rewrite Hx.
  unfold header_UnmarshalRLP, header_MarshalRLP. rewrite UnmarshalRlp_ok by (by apply header_value_ok).
  by rewrite header_decode.
Qed.

Lemma ReadHeader_missing db x : header_at db x = None -> ReadHeader db x = Some (Err ErrNotFound).
Proof. intros Hx. unfold ReadHeader. rewrite readRLP_get. unfold header_at in Hx. by rewrite Hx. Qed.

Lemma header_at_write db h x :
  word (h_Hash h) -> word x ->
  header_at (WriteHeader db h) x = if decide (h_Hash h = x) then Some (header_MarshalRLP h) else header_at db x.
Proof using Type.
  intros Hh Hx. unfold header_at, WriteHeader. case_decide as E.
  - subst. by rewrite kv_get_eq.
  - rewrite kv_get_key; [done|]. by intros ?%hash_key_inj.
Qed.

Lemma ReadBody_write db x body :
  body_fits body ->
  ReadBody (WriteBody db x body) x =
  Some (Ok (mkBody (ComputeHash <$> body_Transactions body) (h_ComputeHash <$> body_Uncles body))).
Proof.
  intros Hb. unfold ReadBody, WriteBody. rewrite readRLP_get.
  by rewrite kv_get_eq, body_decode.
Qed.

Lemma ReadBody_other db x body y :
  word x -> word y -> x <> y -> ReadBody (WriteBody db x body) y = ReadBody db y.
Proof using Type.
  intros Hx Hy Hne. unfold ReadBody, WriteBody. rewrite readRLP_get.
  rewrite kv_get_key; [done|]. by intros ?%hash_key_inj.
Qed.

Lemma ReadReceipts_write db x rr :
  Forall receipt_fits rr -> ReadReceipts (WriteReceipts db x rr) x = Some (Ok rr).
Proof.
  intros Hr. unfold ReadReceipts, WriteReceipts. rewrite readRLP_get.
  by rewrite kv_get_eq, receipts_store_decode.
Qed.

Lemma ReadReceipts_other db x rr y :
  word x -> word y -> x <> y -> ReadReceipts (WriteReceipts db x rr) y = ReadReceipts db y.
Proof using Type.
  intros Hx Hy Hne. unfold ReadReceipts, WriteReceipts. rewrite readRLP_get.
  rewrite kv_get_key; [done|]. by intros ?%hash_key_inj.
Qed.

Lemma ReadTxLookup_write db x h y :
  word x -> word y -> word h ->
  ReadTxLookup (WriteTxLookup db x h) y = if decide (x = y) then Some h else ReadTxLookup db y.
Proof.
  intros Hx Hy Hh. unfold ReadTxLookup, read2, WriteTxLookup, write2. case_decide as E.
  - subst. rewrite kv_get_eq. unfold mbind, option_bind. rewrite Parse_MarshalTo by apply be_bytes_ok.
    change (norm (hash_value h)) with (RBytes (be_bytes 32 h)).
    pose proof (GetBytesN_norm (be_bytes 32 h)) as Hg. rewrite be_bytes_length in Hg.
    rewrite Hg. by rewrite BytesToHash_bytes.
  - rewrite kv_get_key; [done|]. by intros ?%hash_key_inj.
Qed.

End Records.

(** Reads of other records pass over a write. *)
Ltac kv_skip :=
  unfold ReadCanonicalHash, ReadHeadHash, ReadHeadNumber, ReadForks, ReadTotalDifficulty, ReadHeader, ReadBody,
    ReadReceipts, ReadTxLookup, read2, header_at,
    WriteCanonicalHash, WriteHeadHash, WriteHeadNumber, WriteForks, WriteTotalDifficulty, WriteHeader, WriteBody,
    WriteReceipts, WriteTxLookup, write2;
  rewrite ?readRLP_get;
  repeat (rewrite kv_get_prefix by done); rewrite ?kv_get_key by done; reflexivity.
