(* ===== verification/Blockchain.v ===== *)
(** * The blockchain ([blockchain/blockchain.go], [blockchain/subscription.go],
      [chain/chain.go])

    [Blockchain] is the database, the caches, the current header and difficulty,
    the average gas price and the events pushed to the subscribers so far. The
    consensus engine, the executor and the signer are the interfaces the code has.
    Operations run in a monad over the blockchain with errors; [None] is a panic.
    Loops over ancestors have fuel for every stored header and for the numbers they
    start from. The write lock makes writes sequential; logging is left out. *)

From S2P Require Import Prelude ChainTypes BigInt Runtime StateTxn Receipts Rlp ChainRlp Trie.
From S2P Require Import Buildroot Storage.
Local Open Scope go_scope.

Definition BlockGasTargetDivisor : Z := 1024.
Definition defaultCacheSize : Z := 100.

Inductive ChainErr :=
| ErrNoBlock | ErrParentNotFound | ErrInvalidParentHash | ErrParentHashMismatch | ErrInvalidBlockSequence
| ErrInvalidSha3Uncles | ErrInvalidTxRoot | ErrInvalidReceiptsSize | ErrInvalidStateRoot
| ErrInvalidGasUsed | ErrInvalidReceiptsRoot | ErrGasUsedExceedsLimit | ErrInvalidGasLimit
| ErrNoGenesisHash | ErrGenesisMismatch | ErrHeaderNotFound | ErrDifficultyNotFound
| ErrParentDifficultyNotFound | ErrEmptyHeaders | ErrNumberSequence | ErrParentHashSequence
| ErrConsensus | ErrExecution | ErrSender | ErrStorage (e : StorageErr).

(** ** Interfaces *)

Class TxSigner := { Sender : Transaction -> option Address }.

(** [state.Transition] as the blockchain uses it, over the state storage [S]. *)
Class BlockExecutor (S T : Type) := {
  ex_ProcessBlock : S -> Hash -> Block -> Address -> option T;
  ex_Commit : S -> T -> Hash * S;
  ex_Receipts : T -> list Receipt;
  ex_TotalGas : T -> Z;
}.

(** The consensus engine with its own state [E]. *)
Class Verifier (E T : Type) := {
  VerifyHeader : E -> Header -> bool;
  ProcessHeaders : E -> list Header -> bool * E;
  GetBlockCreator : E -> Header -> option Address;
  PreCommitState : E -> Header -> T -> option T;
}.

(** ** Events *)

Inductive EventType := EventHead | EventReorg | EventFork.

Record Event := mkEvent {
  OldChain : list Header; NewChain : list Header; e_Difficulty : option Z; e_Type : EventType }.

Definition new_event : Event := mkEvent [] [] None EventHead.
Definition AddNewHeader (h : Header) (e : Event) : Event :=
  mkEvent (OldChain e) (NewChain e ++ [h]) (e_Difficulty e) (e_Type e).
Definition AddOldHeader (h : Header) (e : Event) : Event :=
  mkEvent (OldChain e ++ [h]) (NewChain e) (e_Difficulty e) (e_Type e).
Definition SetDifficulty (d : Z) (e : Event) : Event := mkEvent (OldChain e) (NewChain e) (Some d) (e_Type e).
Definition set_Type (ty : EventType) (e : Event) : Event := mkEvent (OldChain e) (NewChain e) (e_Difficulty e) ty.

(** [Event.Header]: the last element of the new chain. *)
Definition event_Header (e : Event) : option Header := last (NewChain e).

(** ** The genesis block ([chain/chain.go]) *)

Definition GenesisGasLimit : Z := 4712388.
Definition GenesisDifficulty : Z := 131072.

Record Genesis := mkGenesis {
  g_Nonce : Z; g_Timestamp : Z; g_ExtraData : list Z; g_GasLimit : Z; g_Difficulty : Z; g_Mixhash : Hash;
  g_Coinbase : Address; g_StateRoot : Hash; g_Number : Z; g_GasUsed : Z; g_ParentHash : Hash }.

Definition GenesisHeader (g : Genesis) : Header :=
  let stateRoot := if g_StateRoot g =? ZeroHash then EmptyRootHash else g_StateRoot g in
  mkHeader (g_ParentHash g) EmptyUncleHash (be_bytes 20 (g_Coinbase g)) stateRoot EmptyRootHash EmptyRootHash
    (replicate BloomByteLength 0)
    (if g_Difficulty g =? 0 then GenesisDifficulty else g_Difficulty g) (g_Number g)
    (if g_GasLimit g =? 0 then GenesisGasLimit else g_GasLimit g)
    (g_GasUsed g) (g_Timestamp g) (g_ExtraData g) (g_Mixhash g) (g_Nonce g) ZeroHash.

Definition genesis_Hash `{HeaderHasher} (g : Genesis) : Hash := HeaderHash (GenesisHeader g).

(** ** The gas limit *)

Definition common_Min (a b : Z) : Z := if a <? b then a else b.
Definition common_Max (a b : Z) : Z := if b <? a then a else b.

Definition calculateGasLimit (blockGasTarget parentGasLimit : Z) : Z :=
  if blockGasTarget =? 0 then parentGasLimit
  else if parentGasLimit =? blockGasTarget then blockGasTarget
  else
    let delta := parentGasLimit *u 1 / BlockGasTargetDivisor in
    if parentGasLimit <? blockGasTarget then common_Min blockGasTarget (parentGasLimit +u delta)
    else common_Max blockGasTarget (common_Max (parentGasLimit -u delta) 0).

Definition verifyGasLimit (header parentHeader : Header) : option ChainErr :=
  if h_GasLimit header <? h_GasUsed header then Some ErrGasUsedExceedsLimit
  else if h_Number header =? 0 then None
  else
    let diff := i64 (i64 (h_GasLimit parentHeader) - i64 (h_GasLimit header)) in
    let diff := if diff <? 0 then i64 (diff * -1) else diff in
    let limit := h_GasLimit parentHeader / BlockGasTargetDivisor in
    if limit <? u64 diff then Some ErrInvalidGasLimit else None.

(** ** The average gas price *)

Record gasPriceAverage := mkAverage { price : Z; count : Z }.

(** [Div] rounds towards minus infinity for the positive counts that occur. *)
Definition calcArithmeticAverage (newValues : list Z) (sum : Z) : gasPriceAverage :=
  let n := Z.of_nat (length newValues) in mkAverage (sum / n) n.

Definition calcRollingAverage (a : gasPriceAverage) (newValues : list Z) (sum : Z) : gasPriceAverage :=
  let n := Z.of_nat (length newValues) in
  mkAverage (price a * (count a - n) / count a + sum / count a) (n + count a).

Definition updateGasPriceAvg (a : gasPriceAverage) (newValues : list Z) : gasPriceAverage :=
  let sum := fold_left Z.add newValues 0 in
  if Uint64 (count a) =? 0 then calcArithmeticAverage newValues sum
  else calcRollingAverage a newValues sum.

Definition updateGasPriceAvgWithBlock (a : gasPriceAverage) (b : Block) : gasPriceAverage :=
  match b_Transactions b with [] => a | txs => updateGasPriceAvg a (GasPrice <$> txs) end.

(** ** The blockchain *)

Record Blockchain (S E CH CD CR : Type) := mkChain {
  bc_db : KV; bc_state : S; bc_consensus : E; bc_genesis : Hash;
  headersCache : CH; difficultyCache : CD; receiptsCache : CR;
  currentHeader : option Header; currentDifficulty : option Z;
  bc_stream : list Event; gpAverage : gasPriceAverage }.
Arguments mkChain {S E CH CD CR}.
Arguments bc_db {S E CH CD CR}. Arguments bc_state {S E CH CD CR}. Arguments bc_consensus {S E CH CD CR}.
Arguments bc_genesis {S E CH CD CR}. Arguments headersCache {S E CH CD CR}.
Arguments difficultyCache {S E CH CD CR}. Arguments receiptsCache {S E CH CD CR}.
Arguments currentHeader {S E CH CD CR}. Arguments currentDifficulty {S E CH CD CR}.
Arguments bc_stream {S E CH CD CR}. Arguments gpAverage {S E CH CD CR}.

Record BlockResult := mkBlockResult { br_Root : Hash; br_Receipts : list Receipt; br_TotalGas : Z }.

Section Chain.
Context `{Fastrlp} `{HeaderHasher} `{TxSigner}.
Context {S T E : Type} `{BlockExecutor S T} `{Verifier E T}.
Context {CH CD CR : Type} `{Lru Hash Header CH} `{Lru Hash Z CD} `{Lru Hash (list Receipt) CR}.
Context (config : Genesis) (BlockGasTarget : Z).

Abbreviation Blockchain := (Blockchain S E CH CD CR).

Definition M (A : Type) : Type := Blockchain -> option (result ChainErr A * Blockchain).

#[local] Instance M_ret : MRet M := fun A a b => Some (Ok a, b).
#[local] Instance M_bind : MBind M := fun A B k m b =>
  match m b with
  | None => None
  | Some (Err e, b) => Some (Err e, b)
  | Some (Ok a, b) => k a b
  end.

Definition throw {A} (e : ChainErr) : M A := fun b => Some (Err e, b).
Definition panic {A} : M A := fun _ => None.
Definition gets {A} (f : Blockchain -> A) : M A := fun b => Some (Ok (f b), b).
Definition modify (f : Blockchain -> Blockchain) : M unit := fun b => Some (Ok tt, f b).
(** A pointer that may be nil is dereferenced. *)
Definition deref {A} (o : option A) : M A := match o with Some a => mret a | None => panic end.
Definition check (o : option ChainErr) : M unit := match o with Some e => throw e | None => mret tt end.

Definition set_db (db : KV) (b : Blockchain) : Blockchain :=
  mkChain db (bc_state b) (bc_consensus b) (bc_genesis b) (headersCache b) (difficultyCache b)
    (receiptsCache b) (currentHeader b) (currentDifficulty b) (bc_stream b) (gpAverage b).
Definition set_genesis (h : Hash) (b : Blockchain) : Blockchain :=
  mkChain (bc_db b) (bc_state b) (bc_consensus b) h (headersCache b) (difficultyCache b)
    (receiptsCache b) (currentHeader b) (currentDifficulty b) (bc_stream b) (gpAverage b).
Definition set_state (s : S) (b : Blockchain) : Blockchain :=
  mkChain (bc_db b) s (bc_consensus b) (bc_genesis b) (headersCache b) (difficultyCache b)
    (receiptsCache b) (currentHeader b) (currentDifficulty b) (bc_stream b) (gpAverage b).
Definition set_consensus (e : E) (b : Blockchain) : Blockchain :=
  mkChain (bc_db b) (bc_state b) e (bc_genesis b) (headersCache b) (difficultyCache b)
    (receiptsCache b) (currentHeader b) (currentDifficulty b) (bc_stream b) (gpAverage b).
Definition set_headers (c : CH) (b : Blockchain) : Blockchain :=
  mkChain (bc_db b) (bc_state b) (bc_consensus b) (bc_genesis b) c (difficultyCache b)
    (receiptsCache b) (currentHeader b) (currentDifficulty b) (bc_stream b) (gpAverage b).
Definition set_difficulties (c : CD) (b : Blockchain) : Blockchain :=
  mkChain (bc_db b) (bc_state b) (bc_consensus b) (bc_genesis b) (headersCache b) c
    (receiptsCache b) (currentHeader b) (currentDifficulty b) (bc_stream b) (gpAverage b).
Definition set_receipts (c : CR) (b : Blockchain) : Blockchain :=
  mkChain (bc_db b) (bc_state b) (bc_consensus b) (bc_genesis b) (headersCache b) (difficultyCache b)
    c (currentHeader b) (currentDifficulty b) (bc_stream b) (gpAverage b).
Definition set_average (a : gasPriceAverage) (b : Blockchain) : Blockchain :=
  mkChain (bc_db b) (bc_state b) (bc_consensus b) (bc_genesis b) (headersCache b) (difficultyCache b)
    (receiptsCache b) (currentHeader b) (currentDifficulty b) (bc_stream b) a.

Definition setCurrentHeader (h : Header) (diff : Z) (b : Blockchain) : Blockchain :=
  mkChain (bc_db b) (bc_state b) (bc_consensus b) (bc_genesis b) (headersCache b) (difficultyCache b)
    (receiptsCache b) (Some h) (Some diff) (bc_stream b) (gpAverage b).

Definition dispatchEvent (e : Event) (b : Blockchain) : Blockchain :=
  mkChain (bc_db b) (bc_state b) (bc_consensus b) (bc_genesis b) (headersCache b) (difficultyCache b)
    (receiptsCache b) (currentHeader b) (currentDifficulty b) (bc_stream b ++ [e]) (gpAverage b).

Definition write (f : KV -> KV) : M unit := modify (fun b => set_db (f (bc_db b)) b).

Definition NewBlockchain (db : KV) (s : S) (e : E) : Blockchain :=
  mkChain db s e ZeroHash (lru_New defaultCacheSize) (lru_New defaultCacheSize) (lru_New defaultCacheSize)
    None None [new_event] (mkAverage 0 0).

(** ** Reading *)

(** A record of the storage, [None] when it cannot be read. *)
Definition stored {A} (f : KV -> option (result StorageErr A)) : M (option A) := fun b =>
  match f (bc_db b) with
  | None => None
  | Some (Err _) => Some (Ok None, b)
  | Some (Ok a) => Some (Ok (Some a), b)
  end.

Definition readHeader (hash : Hash) : M (option Header) := fun b =>
  match lru_Get (headersCache b) hash with
  | (Some h, c) => Some (Ok (Some h), set_headers c b)
  | (None, c) =>
      (hh ← stored (fun db => ReadHeader db hash);
       match hh with
       | None => mret None
       | Some hh =>
           let hh := h_ComputeHash hh in
           _ ← modify (fun b => set_headers (lru_Add (headersCache b) hash hh) b);
           mret (Some hh)
       end) (set_headers c b)
  end.

Definition readTotalDifficulty (headerHash : Hash) : M (option Z) := fun b =>
  match lru_Get (difficultyCache b) headerHash with
  | (Some d, c) => Some (Ok (Some d), set_difficulties c b)
  | (None, c) =>
      match ReadTotalDifficulty (bc_db b) headerHash with
      | None => Some (Ok None, set_difficulties c b)
      | Some d => Some (Ok (Some d), set_difficulties (lru_Add c headerHash d) b)
      end
  end.

(** [recoverFromFieldsInTransactions]: the transactions, and whether one changed. *)
Definition recoverFromFieldsInTransactions (txs : list Transaction) : list Transaction * bool :=
  let step tx :=
    if negb (From tx =? ZeroAddress) || (TxType tx =? StateTx) then (tx, false)
    else match Sender tx with Some a => (set_From a tx, true) | None => (tx, false) end in
  (fst ∘ step <$> txs, existsb (snd ∘ step) txs).

Definition readBody (hash : Hash) : M (option Body) :=
  bb ← stored (fun db => ReadBody db hash);
  match bb with
  | None => mret None
  | Some bb =>
      let '(txs, updated) := recoverFromFieldsInTransactions (body_Transactions bb) in
      let bb := mkBody txs (body_Uncles bb) in
      _ ← (if updated then write (fun db => WriteBody db hash bb) else mret tt);
      mret (Some bb)
  end.

Definition GetHeaderByNumber (n : Z) : M (option Header) :=
  hash ← gets (fun b => ReadCanonicalHash (bc_db b) n);
  match hash with None => mret None | Some hash => readHeader hash end.

(** The block with [ok]; without its body the header is returned all the same. *)
Definition GetBlockByHash (hash : Hash) (full : bool) : M (option Block * bool) :=
  header ← readHeader hash;
  match header with
  | None => mret (None, false)
  | Some header =>
      let block := mkBlock header [] [] in
      if negb full || (h_Number header =? 0) then mret (Some block, true)
      else
        body ← readBody hash;
        match body with
        | None => mret (Some block, false)
        | Some body => mret (Some (mkBlock header (body_Transactions body) (body_Uncles body)), true)
        end
  end.

Definition GetBlockByNumber (blockNumber : Z) (full : bool) : M (option Block * bool) :=
  blockHash ← gets (fun b => ReadCanonicalHash (bc_db b) blockNumber);
  match blockHash with
  | None => mret (None, false)
  | Some blockHash => GetBlockByHash blockHash (if blockNumber =? 0 then false else full)
  end.

Definition GetHashByNumber (blockNumber : Z) : M Hash :=
  '(block, ok) ← GetBlockByNumber blockNumber false;
  if negb ok then mret ZeroHash else block ← deref block; mret (b_Hash block).

Definition GetReceiptsByHash (hash : Hash) : Blockchain -> option (result StorageErr (list Receipt)) :=
  fun b => ReadReceipts (bc_db b) hash.

Definition GetChainTD : M (option Z) :=
  header ← gets currentHeader; header ← deref header; readTotalDifficulty (h_Hash header).

Definition CalculateGasLimit (number : Z) : M Z :=
  parent ← GetHeaderByNumber (number -u 1);
  match parent with
  | None => throw ErrParentNotFound
  | Some parent => mret (calculateGasLimit BlockGasTarget (h_GasLimit parent))
  end.

(** The ancestors of a header are walked down to the number asked for; the walk
    ends at the latest at number 0. *)
Fixpoint hash_loop (fuel : nat) (i num : Z) (hash : Hash) : M Hash :=
  match fuel with
  | O => panic
  | Datatypes.S fuel =>
      if num =? i then mret hash
      else
        h ← readHeader hash;
        match h with
        | None => mret ZeroHash
        | Some h => if num =? 0 then mret ZeroHash else hash_loop fuel i (num -u 1) (h_ParentHash h)
        end
  end.

Definition GetHashHelper (header : Header) (i : Z) : M Hash :=
  let num := h_Number header -u 1 in
  hash_loop (Datatypes.S (Z.to_nat num)) i num (h_ParentHash header).

(** ** Writing headers *)

Definition advanceHead (newHeader : Header) : M Z :=
  _ ← write (fun db => WriteHeadHash db (h_Hash newHeader));
  _ ← write (fun db => WriteHeadNumber db (h_Number newHeader));
  _ ← write (fun db => WriteCanonicalHash db (h_Number newHeader) (h_Hash newHeader));
  parentTD ← (if h_ParentHash newHeader =? ZeroHash then mret 0
              else
                td ← readTotalDifficulty (h_ParentHash newHeader);
                match td with None => throw ErrParentDifficultyNotFound | Some td => mret td end);
  let newTD := parentTD + h_Difficulty newHeader in
  _ ← write (fun db => WriteTotalDifficulty db (h_Hash newHeader) newTD);
  _ ← modify (setCurrentHeader newHeader newTD);
  mret newTD.

Definition writeGenesisImpl (header : Header) : M unit :=
  _ ← modify (set_genesis (h_Hash header));
  _ ← write (fun db => WriteHeader db header);
  _ ← advanceHead header;
  modify (dispatchEvent (AddNewHeader header new_event)).

Definition writeGenesis (genesis : Genesis) : M unit :=
  writeGenesisImpl (h_ComputeHash (GenesisHeader genesis)).

Definition ComputeGenesis : M unit :=
  head ← gets (fun b => ReadHeadHash (bc_db b));
  match head with
  | Some head =>
      genesis ← gets (fun b => ReadCanonicalHash (bc_db b) 0);
      match genesis with
      | None => _ ← modify (set_genesis ZeroHash); throw ErrNoGenesisHash
      | Some genesis =>
          _ ← modify (set_genesis genesis);
          if negb (genesis =? genesis_Hash config) then throw ErrGenesisMismatch
          else
            header ← readHeader head;
            match header with
            | None => throw ErrHeaderNotFound
            | Some header =>
                diff ← readTotalDifficulty head;
                match diff with
                | None => throw ErrDifficultyNotFound
                | Some diff => modify (setCurrentHeader header diff)
                end
            end
      end
  | None => writeGenesis config
  end.

Definition writeCanonicalHeader (event : Event) (h : Header) : M Event :=
  parentTD ← readTotalDifficulty (h_ParentHash h);
  match parentTD with
  | None => throw ErrParentDifficultyNotFound
  | Some parentTD =>
      let newTD := parentTD + h_Difficulty h in
      _ ← write (fun db => WriteCanonicalHeader db h newTD);
      _ ← modify (setCurrentHeader h newTD);
      mret (SetDifficulty newTD (AddNewHeader h (set_Type EventHead event)))
  end.

Definition writeFork (header : Header) : M unit :=
  forks ← (fun b => match ReadForks (bc_db b) with
                    | None => None
                    | Some (Ok forks) => Some (Ok forks, b)
                    | Some (Err ErrNotFound) => Some (Ok [], b)
                    | Some (Err e) => Some (Err (ErrStorage e), b)
                    end);
  let newForks := filter (fun fork => fork ≠ h_ParentHash header) forks ++ [h_Hash header] in
  write (fun db => WriteForks db newForks).

(** [readHeader] of a parent in [handleReorg]: when it is missing, the error message
    dereferences the nil header. *)
Definition parentOf (h : Header) : M Header := p ← readHeader (h_ParentHash h); deref p.

(** The headers above [number], from the parent of [h] down. *)
Fixpoint descend (fuel : nat) (number : Z) (h : Header) (chain : list Header) : M (Header * list Header) :=
  if number <? h_Number h then
    match fuel with
    | O => panic
    | Datatypes.S fuel => h ← parentOf h; descend fuel number h (chain ++ [h])
    end
  else mret (h, chain).

(** Both chains down to the common ancestor; the new one is not recorded. *)
Fixpoint meet (fuel : nat) (oldHeader newHeader : Header) (oldChain : list Header) : M (list Header) :=
  if h_Hash oldHeader =? h_Hash newHeader then mret oldChain
  else
    match fuel with
    | O => panic
    | Datatypes.S fuel =>
        oldHeader ← parentOf oldHeader;
        newHeader ← parentOf newHeader;
        meet fuel oldHeader newHeader (oldChain ++ [oldHeader])
    end.

Definition handleReorg (evnt : Event) (oldHeader newHeader : Header) : M Event :=
  fuel ← gets (fun b => (length (bc_db b) + Z.to_nat (h_Number oldHeader) + Z.to_nat (h_Number newHeader))%nat);
  '(oldHeader', oldChain) ← descend fuel (h_Number newHeader) oldHeader [];
  '(newHeader', newChain) ← descend fuel (h_Number oldHeader') newHeader [];
  oldChain ← meet fuel oldHeader' newHeader' oldChain;
  removed ← (match oldChain with [] => panic | _ => mret (removelast oldChain) end);
  let evnt := fold_left (fun e h => AddOldHeader h e) removed evnt in
  let evnt := AddNewHeader newHeader (AddOldHeader oldHeader evnt) in
  let evnt := fold_left (fun e h => AddNewHeader h e) newChain evnt in
  _ ← writeFork oldHeader;
  _ ← write (fun db => fold_left (fun db h => WriteCanonicalHash db (h_Number h) (h_Hash h)) newChain db);
  diff ← advanceHead newHeader;
  mret (SetDifficulty diff (set_Type EventReorg evnt)).

Definition writeHeaderImpl (evnt : Event) (header : Header) : M Event :=
  current ← gets currentHeader;
  current ← deref current;
  if h_ParentHash header =? h_Hash current then writeCanonicalHeader evnt header
  else
    _ ← write (fun db => WriteHeader db header);
    currentTD ← readTotalDifficulty (h_Hash current);
    match currentTD with
    | None => throw ErrDifficultyNotFound
    | Some currentTD =>
        parentTD ← readTotalDifficulty (h_ParentHash header);
        match parentTD with
        | None => throw ErrParentNotFound
        | Some parentTD =>
            let incomingTD := parentTD + h_Difficulty header in
            _ ← write (fun db => WriteTotalDifficulty db (h_Hash header) incomingTD);
            _ ← modify (fun b => set_headers (lru_Add (headersCache b) (h_Hash header) header) b);
            if currentTD <? incomingTD then handleReorg evnt current header
            else
              _ ← writeFork header;
              mret (set_Type EventFork (AddOldHeader header evnt))
        end
    end.

(** The checks on a batch of headers. *)
Fixpoint headers_linked (headers : list Header) : option ChainErr :=
  match headers with
  | h :: ((h' :: _) as rest) =>
      if negb (h_Number h' -u 1 =? h_Number h) then Some ErrNumberSequence
      else if negb (h_ParentHash h' =? h_Hash h) then Some ErrParentHashSequence
      else headers_linked rest
  | _ => None
  end.

Fixpoint write_all (headers : list Header) : M unit :=
  match headers with
  | [] => mret tt
  | h :: headers => event ← writeHeaderImpl new_event h; _ ← modify (dispatchEvent event); write_all headers
  end.

Definition WriteHeaders (headers : list Header) : M unit :=
  match headers with
  | [] => throw ErrEmptyHeaders
  | _ => _ ← check (headers_linked headers); write_all headers
  end.

(** ** Writing blocks *)

Fixpoint recoverFromFields (txs : list Transaction) : option (list Transaction) :=
  match txs with
  | [] => Some []
  | tx :: txs =>
      tx ← (if negb (From tx =? ZeroAddress) || (TxType tx =? StateTx) then Some tx
            else (fun a => set_From a tx) <$> Sender tx);
      txs ← recoverFromFields txs; Some (tx :: txs)
  end.

(** The block with the senders recovered in place. *)
Definition recoverFromFieldsInBlock (block : Block) : M Block :=
  match recoverFromFields (b_Transactions block) with
  | None => throw ErrSender
  | Some txs => mret (mkBlock (b_Header block) txs (b_Uncles block))
  end.

Definition writeBody (block : Block) : M Block :=
  block ← recoverFromFieldsInBlock block;
  _ ← write (fun db => WriteBody db (b_Hash block) (b_Body block));
  _ ← write (fun db => fold_left (fun db tx => WriteTxLookup db (TxHash tx) (b_Hash block)) (b_Transactions block) db);
  mret block.

Definition executeBlockTransactions (block : Block) : M BlockResult :=
  let header := b_Header block in
  parent ← readHeader (h_ParentHash header);
  match parent with
  | None => throw ErrParentNotFound
  | Some parent =>
      e ← gets bc_consensus;
      match GetBlockCreator (T := T) e header with
      | None => throw ErrConsensus
      | Some blockCreator =>
          s ← gets bc_state;
          match ex_ProcessBlock s (h_StateRoot parent) block blockCreator with
          | None => throw ErrExecution
          | Some txn =>
              match PreCommitState e header txn with
              | None => throw ErrConsensus
              | Some txn =>
                  let '(root, s) := ex_Commit s txn in
                  _ ← modify (set_state s);
                  _ ← modify (fun b => set_receipts (lru_Add (receiptsCache b) (h_Hash header) (ex_Receipts txn)) b);
                  mret (mkBlockResult root (ex_Receipts txn) (ex_TotalGas txn))
              end
          end
      end
  end.

Definition extractBlockReceipts (block : Block) : M (list Receipt) := fun b =>
  match lru_Get (receiptsCache b) (b_Hash block) with
  | (Some receipts, c) => Some (Ok receipts, set_receipts c b)
  | (None, c) => (r ← executeBlockTransactions block; mret (br_Receipts r)) (set_receipts c b)
  end.

(** The common part of [WriteBlock] and [WriteFullBlock], which differ in where the
    receipts come from. The last lookup is for a log message. *)
Definition write_block (block : Block) (receipts : Block -> M (list Receipt)) : M unit :=
  current ← gets currentHeader;
  current ← deref current;
  if b_Number block <=? h_Number current then mret tt
  else
    block ← writeBody block;
    evnt ← writeHeaderImpl new_event (b_Header block);
    receipts ← receipts block;
    _ ← write (fun db => WriteReceipts db (b_Hash block) receipts);
    e ← gets bc_consensus;
    let '(ok, e) := ProcessHeaders (T := T) e [b_Header block] in
    _ ← modify (set_consensus e);
    if negb ok then throw ErrConsensus
    else
      _ ← modify (dispatchEvent evnt);
      _ ← modify (fun b => set_average (updateGasPriceAvgWithBlock (gpAverage b) block) b);
      _ ← GetHeaderByNumber (b_Number block -u 1);
      mret tt.

Definition WriteBlock (block : Block) : M unit := write_block block extractBlockReceipts.
Definition WriteFullBlock (fblock : FullBlock) : M unit :=
  write_block (fb_Block fblock) (fun _ => mret (fb_Receipts fblock)).

(** ** Verification *)

Definition verifyBlockParent (childBlock : Block) : M unit :=
  let parentHash := b_ParentHash childBlock in
  parent ← readHeader parentHash;
  match parent with
  | None => throw ErrParentNotFound
  | Some parent =>
      if h_Hash parent =? ZeroHash then throw ErrInvalidParentHash
      else if negb (parentHash =? h_Hash parent) then throw ErrParentHashMismatch
      else if negb (b_Number childBlock -u 1 =? h_Number parent) then throw ErrInvalidBlockSequence
      else check (verifyGasLimit (b_Header childBlock) parent)
  end.

Definition verifyBlockResult (br : BlockResult) (referenceBlock : Block) : M unit :=
  if negb (length (br_Receipts br) =? length (b_Transactions referenceBlock))%nat then throw ErrInvalidReceiptsSize
  else if negb (br_Root br =? h_StateRoot (b_Header referenceBlock)) then throw ErrInvalidStateRoot
  else if negb (br_TotalGas br =? h_GasUsed (b_Header referenceBlock)) then throw ErrInvalidGasUsed
  else
    receiptsRoot ← deref (CalculateReceiptsRoot (br_Receipts br));
    if negb (receiptsRoot =? h_ReceiptsRoot (b_Header referenceBlock)) then throw ErrInvalidReceiptsRoot
    else mret tt.

Definition verifyBlockBody (block : Block) : M (list Receipt) :=
  if negb (CalculateUncleRoot (b_Uncles block) =? h_Sha3Uncles (b_Header block)) then throw ErrInvalidSha3Uncles
  else
    hash ← deref (CalculateTransactionsRoot (b_Transactions block));
    if negb (hash =? h_TxRoot (b_Header block)) then throw ErrInvalidTxRoot
    else
      blockResult ← executeBlockTransactions block;
      _ ← verifyBlockResult blockResult block;
      mret (br_Receipts blockResult).

Definition verifyBlock (block : option Block) : M (list Receipt) :=
  match block with
  | None => throw ErrNoBlock
  | Some block => _ ← verifyBlockParent block; verifyBlockBody block
  end.

Definition VerifyPotentialBlock (block : option Block) : M unit := _ ← verifyBlock block; mret tt.

Definition VerifyFinalizedBlock (block : option Block) : M FullBlock :=
  blk ← deref block;
  e ← gets bc_consensus;
  if negb (VerifyHeader (T := T) e (b_Header blk)) then throw ErrConsensus
  else receipts ← verifyBlock block; mret (mkFullBlock blk receipts).

End Chain.
