(* ===== verification/BlockchainInv.v ===== *)
(** * Invariant of the blockchain

    [U] is the set of headers that are ever written, barring hash collisions among
    them. Headers are stored under their hashes, total difficulties add up along
    parents, caches agree with the database, and the head is a header of maximal
    total difficulty. Operations are specified by a weakest precondition. *)

From S2P Require Import Prelude ChainTypes BigInt Runtime StateTxn Receipts Rlp ChainRlp TrieSample ChainRlpProps.
From S2P Require Import Trie Buildroot Storage Blockchain.
Local Open Scope go_scope.

(** ** The database *)

Section Database.
Context `{Fastrlp} `{!CodecLaws} `{!FastrlpLaws} `{HeaderHasher}.

(** The headers of a run. That numbers follow on and difficulties are positive is checked by
    the consensus; [WriteFullBlock] and [WriteBlock] verify nothing themselves. *)
Record universe (U : Header -> Prop) (g : Header) : Prop := {
  u_genesis : U g;
  u_parent : h_ParentHash g = ZeroHash;
  u_ok h : U h -> header_ok h /\ h_Hash h = HeaderHash h /\ h_Hash h <> ZeroHash;
  u_inj h h' : U h -> U h' -> h_Hash h = h_Hash h' -> h = h';
  u_difficulty h : U h -> h <> g -> 1 <= h_Difficulty h;
  u_number h p : U h -> U p -> h <> g -> h_ParentHash h = h_Hash p -> h_Number h = h_Number p + 1;
}.

Context (U : Header -> Prop) (g : Header) (HU : universe U g).

Definition Stored (db : KV) (h : Header) : Prop := U h /\ header_at db (h_Hash h) = Some (header_MarshalRLP h).

(** A header whose ancestors are known. *)
Definition Known (db : KV) (h : Header) (d : Z) : Prop := Stored db h /\ ReadTotalDifficulty db (h_Hash h) = Some d.

(** A stored header that is the genesis or above it. *)
Definition Linked (db : KV) (h : Header) : Prop := Stored db h /\ (h_Number h = h_Number g -> h = g).

(** The canonical index names stored headers of its numbers, and the genesis. *)
Definition canonical_ok (db : KV) : Prop :=
  ReadCanonicalHash db (h_Number g) = Some (h_Hash g) /\
  forall n x, is_u64 n -> ReadCanonicalHash db n = Some x -> exists h, Stored db h /\ h_Hash h = x /\ h_Number h = n.

Record db_inv (db : KV) : Prop := {
  di_header x data : word x -> header_at db x = Some data -> exists h, Stored db h /\ h_Hash h = x;
  di_known x d : word x -> ReadTotalDifficulty db x = Some d ->
    0 <= d /\ exists h, Stored db h /\ h_Hash h = x /\
      (h = g /\ d = h_Difficulty g \/
       h <> g /\ exists p dp, Known db p dp /\ h_Hash p = h_ParentHash h /\ d = dp + h_Difficulty h);
  di_genesis : Known db g (h_Difficulty g);
  di_forks : ReadForks db = Some (Err ErrNotFound) \/ exists l, Forall word l /\ ReadForks db = Some (Ok l);
  di_canonical : canonical_ok db;
}.

Lemma U_word h : U h -> word (h_Hash h).
Proof using All. intros Hh. destruct (u_ok _ _ HU h Hh) as (_ & -> & _). apply HeaderHash_word. Qed.

Lemma U_parent_word h : U h -> word (h_ParentHash h).
Proof using All. intros Hh. destruct (u_ok _ _ HU h Hh) as (Ho & _). apply Ho. Qed.

Lemma U_number h : U h -> is_u64 (h_Number h).
Proof using All. intros Hh. destruct (u_ok _ _ HU h Hh) as (Ho & _). apply Ho. Qed.

Lemma U_difficulty h : U h -> 0 <= h_Difficulty h.
Proof using All. intros Hh. destruct (u_ok _ _ HU h Hh) as ([] & _). unfold is_u64 in *. lia. Qed.

Lemma U_hash h : U h -> h_ComputeHash h = h.
Proof using All. intros Hh. destruct (u_ok _ _ HU h Hh) as (_ & E & _). unfold h_ComputeHash. rewrite <- E. by destruct h. Qed.

Lemma known_word db h d : Known db h d -> word (h_Hash h).
Proof using All. intros [[Hh _] _]. by apply U_word. Qed.

Lemma known_fun db h d d' : Known db h d -> Known db h d' -> d = d'.
Proof using Type. intros [_ H1'] [_ H2']. congruence. Qed.

Lemma known_at db x d h : Known db h d -> h_Hash h = x -> ReadTotalDifficulty db x = Some d.
Proof using Type. by intros [_ ?] <-. Qed.

(** A known header is the genesis or has a known parent. *)
Lemma known_inv db h d :
  db_inv db -> Known db h d ->
  h = g /\ d = h_Difficulty g \/
  h <> g /\ exists p dp, Known db p dp /\ h_Hash p = h_ParentHash h /\ d = dp + h_Difficulty h /\ h_Number h = h_Number p + 1.
Proof using All.
  intros Hdb Hk. destruct (di_known _ Hdb _ _ (known_word _ _ _ Hk) (proj2 Hk)) as (_ & h' & [Hu' _] & E & Hc).
  destruct Hk as [[Hu _] _]. apply (u_inj _ _ HU) in E; [|done..]. subst h'.
  destruct Hc as [?|(Hne & p & dp & Hp & Ep & ->)]; [by left|]. right. split; [done|]. exists p, dp.
  repeat (split; [done|]). apply (u_number _ _ HU); [done|apply Hp|done|done].
Qed.

Lemma known_nonneg db h d : db_inv db -> Known db h d -> 0 <= d.
Proof using All.
  intros Hdb Hk. by destruct (di_known _ Hdb _ _ (known_word _ _ _ Hk) (proj2 Hk)) as (? & _).
Qed.

Lemma known_find db x d :
  db_inv db -> word x -> ReadTotalDifficulty db x = Some d -> exists h, Known db h d /\ h_Hash h = x.
Proof using All.
  intros Hdb Hx Hd. destruct (di_known _ Hdb _ _ Hx Hd) as (_ & h & Hs & <- & _). by exists h.
Qed.

(** The genesis has the least number. *)
Lemma known_number db h d : db_inv db -> Known db h d -> h_Number g <= h_Number h /\ (h_Number h = h_Number g -> h = g).
Proof using All.
  intros Hdb. remember (Z.to_nat (h_Number h)) as n eqn:Hn. revert h d Hn.
  induction n as [n IH] using lt_wf_ind. intros h d Hn Hk.
  destruct (known_inv _ _ _ Hdb Hk) as [[-> _]|(Hne & p & dp & Hp & _ & _ & E)]; [split; [lia|done]|].
  pose proof (U_number p (proj1 (proj1 Hp))) as Hpn. unfold is_u64 in Hpn.
  destruct (IH (Z.to_nat (h_Number p)) ltac:(lia) p dp eq_refl Hp). split; [lia|]. intros. exfalso. lia.
Qed.

Lemma known_linked db h d : db_inv db -> Known db h d -> Linked db h.
Proof using All. intros Hdb Hk. split; [apply Hk|by eapply known_number]. Qed.

Lemma child_linked db h p dp :
  db_inv db -> Stored db h -> h <> g -> Known db p dp -> h_Hash p = h_ParentHash h -> Linked db h.
Proof using All.
  intros Hdb Hh Hne Hp Ep. split; [done|]. destruct (known_number _ _ _ Hdb Hp) as [? _].
  pose proof (u_number _ _ HU h p (proj1 Hh) (proj1 (proj1 Hp)) Hne (eq_sym Ep)). intros. exfalso. lia.
Qed.

(** ** Changes of the database *)

Definition same_records (db db' : KV) : Prop :=
  (forall x, header_at db' x = header_at db x) /\
  (forall x, ReadTotalDifficulty db' x = ReadTotalDifficulty db x).

Lemma same_stored db db' h : same_records db db' -> Stored db' h <-> Stored db h.
Proof using Type. intros [Hh _]. unfold Stored. by rewrite Hh. Qed.

Lemma same_linked db db' h : same_records db db' -> Linked db' h <-> Linked db h.
Proof using Type. intros Hs. unfold Linked. by rewrite (same_stored db db'). Qed.

Lemma same_known db db' h d : same_records db db' -> Known db' h d <-> Known db h d.
Proof using Type. intros Hs. unfold Known. rewrite (same_stored db db') by done. destruct Hs as [_ Hd]. by rewrite Hd. Qed.

Lemma canonical_grows db db' :
  canonical_ok db -> (forall n, ReadCanonicalHash db' n = ReadCanonicalHash db n) -> (forall h, Stored db h -> Stored db' h) ->
  canonical_ok db'.
Proof using Type.
  intros [Hg Hc] Hr Hs. split; [by rewrite Hr|]. intros n x Hn Hx. rewrite Hr in Hx. destruct (Hc n x Hn Hx) as (h & ? & ? & ?). exists h. auto.
Qed.

Lemma canonical_write db h : canonical_ok db -> Linked db h -> canonical_ok (WriteCanonicalHash db (h_Number h) (h_Hash h)).
Proof using All.
  intros [Hg Hc] [Hh Hgen]. pose proof (U_word h (proj1 Hh)). pose proof (U_number h (proj1 Hh)).
  pose proof (U_number g (u_genesis _ _ HU)).
  assert (Hst : forall h', Stored db h' -> Stored (WriteCanonicalHash db (h_Number h) (h_Hash h)) h').
  { intros h' [? E]. split; [done|]. rewrite <- E. kv_skip. }
  split. { rewrite ReadCanonicalHash_write by done. case_decide; [by rewrite Hgen|done]. }
  intros n x Hn Hx. rewrite ReadCanonicalHash_write in Hx by done. case_decide as E; [injection Hx as <-; exists h; auto|].
  destruct (Hc n x Hn Hx) as (h' & ? & ? & ?). exists h'. auto.
Qed.

Lemma db_inv_same db db' :
  same_records db db' -> canonical_ok db' -> db_inv db ->
  (ReadForks db' = ReadForks db \/ exists l, Forall word l /\ ReadForks db' = Some (Ok l)) -> db_inv db'.
Proof using Type.
  intros Hs Hcan [Hh Hk Hg Hf _] Hf'. split.
  - intros x data Hx Hd. rewrite (proj1 Hs) in Hd. destruct (Hh x data Hx Hd) as (h & Hst & E). exists h.
    by rewrite (same_stored db db').
  - intros x d Hx Hd. rewrite (proj2 Hs) in Hd. destruct (Hk x d Hx Hd) as (Hd0 & h & Hst & E & Hc). split; [done|]. exists h.
    rewrite (same_stored db db') by done. split; [done|]. split; [done|].
    destruct Hc as [?|(Hne & p & dp & Hp & Ep & Ed)]; [by left|]. right. split; [done|]. exists p, dp.
    by rewrite (same_known db db').
  - by rewrite (same_known db db').
  - destruct Hf' as [->|?]; [done|by right].
  - done.
Qed.

(** More is stored. *)
Definition grows (db db' : KV) : Prop :=
  (forall h, Stored db h -> Stored db' h) /\
  (forall x d, word x -> ReadTotalDifficulty db x = Some d -> ReadTotalDifficulty db' x = Some d).

Lemma grows_refl db : grows db db.
Proof using Type. done. Qed.

Lemma grows_trans db db' db'' : grows db db' -> grows db' db'' -> grows db db''.
Proof using Type. intros [H1' H2'] [H3' H4']. split; [by auto|]. intros. by apply H4', H2'. Qed.

Lemma grows_known db db' h d : grows db db' -> Known db h d -> Known db' h d.
Proof using All. intros [Hs Hd] [Hh Hk]. split; [by apply Hs|]. apply Hd; [|done]. by apply U_word, Hh. Qed.

Lemma grows_same db db' : same_records db db' -> grows db db'.
Proof using Type. intros Hs. split; [intros h; by rewrite (same_stored db db')|]. destruct Hs as [_ Hd]. intros. by rewrite Hd. Qed.

Lemma WriteHeader_grows db h : U h -> db_inv db -> db_inv (WriteHeader db h) /\ grows db (WriteHeader db h) /\ Stored (WriteHeader db h) h.
Proof using All.
  intros Hh Hdb. pose proof (U_word h Hh) as Hw.
  assert (Htd : forall x, ReadTotalDifficulty (WriteHeader db h) x = ReadTotalDifficulty db x) by (intros; kv_skip).
  assert (Hst : forall h', Stored db h' -> Stored (WriteHeader db h) h').
  { intros h' [Hu' Ha]. split; [done|]. rewrite header_at_write by (done || by apply U_word). case_decide as E; [|done].
    apply (u_inj _ _ HU) in E; [|done..]. by subst. }
  assert (Hnew : Stored (WriteHeader db h) h).
  { split; [done|]. rewrite header_at_write by done. by rewrite decide_True. }
  assert (Hkn : forall h' d, Known db h' d -> Known (WriteHeader db h) h' d).
  { intros h' d [? ?]. split; [by apply Hst|by rewrite Htd]. }
  split; [|split; [|done]].
  - destruct Hdb as [Hhd Hk Hg Hf Hcan]. split.
    + intros x data Hx Hd. rewrite header_at_write in Hd by done. case_decide as E; [by exists h|].
      destruct (Hhd x data Hx Hd) as (h' & ? & ?). exists h'. auto.
    + intros x d Hx Hd. rewrite Htd in Hd. destruct (Hk x d Hx Hd) as (Hd0 & h' & Hs' & E & Hc). split; [done|].
      exists h'. split; [by apply Hst|]. split; [done|]. destruct Hc as [?|(? & p & dp & ? & ? & ?)]; [by left|].
      right. split; [done|]. exists p, dp. auto.
    + by apply Hkn.
    + assert (ReadForks (WriteHeader db h) = ReadForks db) as -> by kv_skip. done.
    + apply (canonical_grows db); [done|intros; kv_skip|done].
  - split; [done|]. intros x d _. by rewrite Htd.
Qed.

Lemma WriteTD_grows db h p dp :
  db_inv db -> Stored db h -> h <> g -> Known db p dp -> h_Hash p = h_ParentHash h ->
  let db' := WriteTotalDifficulty db (h_Hash h) (dp + h_Difficulty h) in
  db_inv db' /\ grows db db' /\ Known db' h (dp + h_Difficulty h) /\
  (forall x d, word x -> ReadTotalDifficulty db' x = Some d -> x = h_Hash h /\ d = dp + h_Difficulty h \/ ReadTotalDifficulty db x = Some d).
Proof using All.
  intros Hdb Hh Hne Hp Ep db'. pose proof (U_word h (proj1 Hh)) as Hw.
  pose proof (known_nonneg _ _ _ Hdb Hp). pose proof (U_difficulty h (proj1 Hh)).
  assert (Hat : forall x, header_at db' x = header_at db x) by (intros; unfold db'; kv_skip).
  assert (Htd : forall x, word x -> ReadTotalDifficulty db' x = if decide (h_Hash h = x) then Some (dp + h_Difficulty h) else ReadTotalDifficulty db x).
  { intros x Hx. apply ReadTotalDifficulty_write; [done|done|lia]. }
  assert (Hst : forall h', Stored db' h' <-> Stored db h') by (intros; unfold Stored; by rewrite Hat).
  assert (Hkeep : forall x d, word x -> ReadTotalDifficulty db x = Some d -> ReadTotalDifficulty db' x = Some d).
  { intros x d Hx Hd. rewrite Htd by done. case_decide as E; [|done]. subst x.
    destruct (known_inv db h d Hdb) as [[? _]|(_ & p' & dp' & Hp' & Ep' & -> & _)]; [by split|done|].
    rewrite <- Ep in Ep'. apply (u_inj _ _ HU) in Ep'; [subst p'|apply Hp'|apply Hp].
    by rewrite (known_fun _ _ _ _ Hp Hp'). }
  assert (Hkn : forall h' d, Known db h' d -> Known db' h' d).
  { intros h' d Hk'. split; [apply Hst, Hk'|]. apply Hkeep; [by eapply known_word|apply Hk']. }
  assert (Hnew : Known db' h (dp + h_Difficulty h)).
  { split; [by apply Hst|]. rewrite Htd by done. by rewrite decide_True. }
  assert (Hinv : forall x d, word x -> ReadTotalDifficulty db' x = Some d ->
            x = h_Hash h /\ d = dp + h_Difficulty h \/ ReadTotalDifficulty db x = Some d).
  { intros x d Hx. rewrite Htd by done. case_decide; [|by right]. intros [= <-]. by left. }
  split; [|split; [split; [intros; by apply Hst|done]|by split]].
  destruct Hdb as [Hhd Hk Hg Hf Hcan]. split.
  - intros x data Hx Hd. rewrite Hat in Hd. destruct (Hhd x data Hx Hd) as (h' & ? & ?). exists h'. by rewrite Hst.
  - intros x d Hx Hd. destruct (Hinv x d Hx Hd) as [[-> ->]|Hold].
    + split; [lia|]. exists h. split; [by apply Hst|]. split; [done|]. right. split; [done|]. exists p, dp. auto.
    + destruct (Hk x d Hx Hold) as (Hd0 & h' & Hs' & E & Hc). split; [done|]. exists h'. split; [by apply Hst|].
      split; [done|]. destruct Hc as [?|(? & p' & dp' & ? & ? & ?)]; [by left|]. right. split; [done|]. exists p', dp'. auto.
  - by apply Hkn.
  - assert (ReadForks db' = ReadForks db) as -> by (unfold db'; kv_skip). done.
  - apply (canonical_grows db); [done|intros; unfold db'; kv_skip|intros; by apply Hst].
Qed.

(** The head records. *)
Definition head_writes (db : KV) (h : Header) : KV :=
  WriteCanonicalHash (WriteHeadNumber (WriteHeadHash db (h_Hash h)) (h_Number h)) (h_Number h) (h_Hash h).

Lemma head_writes_inv db h : db_inv db -> Linked db h -> same_records db (head_writes db h) /\ db_inv (head_writes db h).
Proof using All.
  intros Hdb Hh. assert (Hs : same_records db (head_writes db h)) by (split; intros; unfold head_writes; kv_skip).
  split; [done|]. apply (db_inv_same db); [done| |done|left; unfold head_writes; kv_skip].
  set (db' := WriteHeadNumber (WriteHeadHash db (h_Hash h)) (h_Number h)).
  assert (Hst : forall h', Stored db h' -> Stored db' h') by (intros h' [? E]; split; [done|]; rewrite <- E; unfold db'; kv_skip).
  apply canonical_write; [|by destruct Hh; split; [apply Hst|]]. apply (canonical_grows db); [apply Hdb|intros; unfold db'; kv_skip|done].
Qed.

End Database.

(** ** Weakest preconditions

    [cwp m Q R b]: run from [b], [m] does not panic, and ends in [Q] with its result, or in
    [R] with an error. *)

Section Chain.
Context `{Fastrlp} `{!CodecLaws} `{!FastrlpLaws} `{HeaderHasher} `{TxSigner}.
Context {S T E : Type} `{BlockExecutor S T} `{Verifier E T}.
Context {CH CD CR : Type} `{LH : Lru Hash Header CH} `{LD : Lru Hash Z CD} `{LR : Lru Hash (list Receipt) CR}.
Context `{!LruLaws Hash Header CH} `{!LruLaws Hash Z CD} `{!LruLaws Hash (list Receipt) CR}.

Abbreviation Blockchain := (Blockchain S E CH CD CR).
Abbreviation M := (@M S E CH CD CR).

Definition cwp {A} (m : M A) (Q : A -> Blockchain -> Prop) (R : Blockchain -> Prop) (b : Blockchain) : Prop :=
  match m b with
  | None => False
  | Some (Ok a, b') => Q a b'
  | Some (Err _, b') => R b'
  end.

Lemma cwp_bind {A B} (m : M A) (k : A -> M B) Q R b :
  cwp m (fun a b' => cwp (k a) Q R b') R b -> cwp (@mbind M M_bind A B k m) Q R b.
Proof using Type. unfold cwp, mbind, M_bind. by destruct (m b) as [[[a|e] b']|]. Qed.

Lemma cwp_mono {A} (m : M A) (Q Q' : A -> Blockchain -> Prop) (R R' : Blockchain -> Prop) b :
  cwp m Q R b -> (forall a b', Q a b' -> Q' a b') -> (forall b', R b' -> R' b') -> cwp m Q' R' b.
Proof using Type. unfold cwp. destruct (m b) as [[[a|e] b']|]; auto. Qed.

Lemma cwp_ret {A} (a : A) (Q : A -> Blockchain -> Prop) R b : Q a b -> cwp (@mret M M_ret A a) Q R b.
Proof using Type. done. Qed.

Lemma cwp_throw {A} e (Q : A -> Blockchain -> Prop) (R : Blockchain -> Prop) b : R b -> cwp (throw e) Q R b.
Proof using Type. done. Qed.

Lemma cwp_gets {A} (f : Blockchain -> A) (Q : A -> Blockchain -> Prop) R b : Q (f b) b -> cwp (gets f) Q R b.
Proof using Type. done. Qed.

Lemma cwp_modify f (Q : unit -> Blockchain -> Prop) R b : Q tt (f b) -> cwp (modify f) Q R b.
Proof using Type. done. Qed.

Lemma cwp_write f (Q : unit -> Blockchain -> Prop) R b : Q tt (set_db (f (bc_db b)) b) -> cwp (write f) Q R b.
Proof using Type. done. Qed.

Context (U : Header -> Prop) (g : Header) (HU : universe U g).

(** ** The state *)

Definition caches_ok (b : Blockchain) : Prop :=
  (forall x h, lru_peek (headersCache b) x = Some h -> Stored U (bc_db b) h /\ h_Hash h = x) /\
  (forall x d, lru_peek (difficultyCache b) x = Some d -> word x -> ReadTotalDifficulty (bc_db b) x = Some d).

(** The part that reads do not change. *)
Definition quiet (b b' : Blockchain) : Prop :=
  bc_db b' = bc_db b /\ currentHeader b' = currentHeader b /\ currentDifficulty b' = currentDifficulty b /\
  bc_stream b' = bc_stream b /\ bc_consensus b' = bc_consensus b /\ bc_state b' = bc_state b /\ bc_genesis b' = bc_genesis b.

Definition readable (b : Blockchain) : Prop := db_inv U g (bc_db b) /\ caches_ok b.

Lemma quiet_refl b : quiet b b.
Proof using Type. done. Qed.

Lemma quiet_trans b b' b'' : quiet b b' -> quiet b' b'' -> quiet b b''.
Proof using Type. intros (?&?&?&?&?&?&?) (?&?&?&?&?&?&?). repeat split; congruence. Qed.

Lemma cwp_readHeader x (Q : option Header -> Blockchain -> Prop) R b :
  readable b -> word x ->
  (forall o b', quiet b b' -> readable b' ->
     match o with Some h => Stored U (bc_db b) h /\ h_Hash h = x | None => header_at (bc_db b) x = None end -> Q o b') ->
  cwp (readHeader x) Q R b.
Proof using All.
  intros [Hdb [Hh Hd]] Hx HQ. unfold cwp, readHeader.
  pose proof (lru_Get_peek (headersCache b) x) as Hp. pose proof (lru_peek_Get (headersCache b) x) as Hg.
  destruct (lru_Get (headersCache b) x) as [[h|] c]; cbn [fst snd] in *.
  - apply HQ; [done|split; [done|split; [|done]]|by apply Hh]. intros y h' Hy. apply Hh. by rewrite <- Hg.
  - unfold stored, mbind, M_bind. cbn [bc_db set_headers].
    destruct (header_at (bc_db b) x) as [data|] eqn:Ha.
    + destruct (di_header _ _ _ Hdb x data Hx Ha) as (h & [Hu Hs] & E'). rewrite E' in Hs.
      rewrite (header_read _ _ h (proj1 (u_ok _ _ HU h Hu)) Hs). cbn. rewrite !(U_hash U g HU h) by done.
      assert (Hst : Stored U (bc_db b) h) by (split; [done|by rewrite E']).
      apply HQ; [done| |done]. split; [done|]. split; [|done]. cbn. intros y h' Hy.
      apply lru_peek_Add in Hy as [[-> ->]|Hy]; [done|]. apply Hh. by rewrite <- Hg.
    + rewrite ReadHeader_missing by done. cbn. apply HQ; [done| |done]. split; [done|]. split; [|done].
      intros y h' Hy. apply Hh. by rewrite <- Hg.
Qed.

Lemma cwp_readTotalDifficulty x (Q : option Z -> Blockchain -> Prop) R b :
  readable b -> word x ->
  (forall b', quiet b b' -> readable b' -> Q (ReadTotalDifficulty (bc_db b) x) b') ->
  cwp (readTotalDifficulty x) Q R b.
Proof using All.
  intros [Hdb [Hh Hd]] Hx HQ. unfold cwp, readTotalDifficulty.
  pose proof (lru_Get_peek (difficultyCache b) x) as Hp. pose proof (lru_peek_Get (difficultyCache b) x) as Hg.
  destruct (lru_Get (difficultyCache b) x) as [[d|] c]; cbn [fst snd] in *.
  - rewrite <- (Hd x d) by done. apply HQ; [done|split; [done|split; [done|]]]. intros y d' Hy. apply Hd. by rewrite <- Hg.
  - destruct (ReadTotalDifficulty (bc_db b) x) as [d|] eqn:Ht; (apply HQ; [done|]); (split; [done|]); (split; [done|]); cbn; intros y d' Hy Hw.
    + apply lru_peek_Add in Hy as [[-> ->]|Hy]; [done|]. apply Hd; [|done]. by rewrite <- Hg.
    + apply Hd; [|done]. by rewrite <- Hg.
Qed.

(** ** Descending to ancestors *)

Lemma cwp_parentOf h d (Q : Header -> Blockchain -> Prop) R b :
  readable b -> Known U (bc_db b) h d -> h <> g ->
  (forall p dp b', quiet b b' -> readable b' -> Known U (bc_db b) p dp -> h_Hash p = h_ParentHash h ->
     d = dp + h_Difficulty h -> h_Number h = h_Number p + 1 -> Q p b') ->
  cwp (parentOf h) Q R b.
Proof using All.
  intros Hr Hk Hne HQ. destruct (known_inv U g HU _ _ _ (proj1 Hr) Hk) as [[? _]|(_ & p & dp & Hp & Ep & Ed & En)]; [done|].
  apply cwp_bind, cwp_readHeader; [done|apply (U_parent_word U g HU), Hk|]. intros [p'|] b' Hq Hr' Ho.
  - destruct Ho as [[Hu' _] E']. rewrite <- Ep in E'. apply (u_inj _ _ HU) in E'; [|done|apply Hp]. subst p'.
    by apply cwp_ret, (HQ p dp).
  - rewrite <- Ep in Ho. destruct Hp as [[_ Hs] _]. congruence.
Qed.

Lemma cwp_descend fuel n h d chain (Q : Header * list Header -> Blockchain -> Prop) R b :
  readable b -> Known U (bc_db b) h d -> h_Number g <= n -> h_Number h - n <= Z.of_nat fuel -> Forall (Linked U g (bc_db b)) chain ->
  (forall h' d' chain' k b', quiet b b' -> readable b' -> Known U (bc_db b) h' d' ->
     (length chain' = length chain + k)%nat -> h_Number h' + Z.of_nat k = h_Number h -> d' + Z.of_nat k <= d ->
     h_Number h' = Z.min n (h_Number h) -> (k = 0%nat -> h' = h) -> Forall (Linked U g (bc_db b)) chain' -> Q (h', chain') b') ->
  cwp (descend fuel n h chain) Q R b.
Proof using All.
  revert h d chain b. induction fuel as [|fuel IH]; intros h d chain b Hr Hk Hn Hf Hst HQ; cbn [descend].
  - destruct (n <? h_Number h) eqn:E'; [lia|]. apply cwp_ret, (HQ h d chain 0%nat); (done || lia).
  - destruct (n <? h_Number h) eqn:E'; [|apply cwp_ret, (HQ h d chain 0%nat); (done || lia)].
    assert (h <> g) by (intros ->; lia).
    apply cwp_bind. eapply cwp_parentOf; [done..|]. intros p dp b' Hq Hr' Hp Ep Ed En.
    pose proof (u_difficulty _ _ HU h (proj1 (proj1 Hk)) ltac:(done)).
    pose proof (proj1 Hq) as Edb. eapply (IH p dp); [done|by rewrite Edb|done|lia| |].
    { rewrite Edb. apply Forall_app. split; [done|]. apply Forall_singleton. eapply (known_linked U g HU); [apply Hr|done]. }
    intros h' d' chain' k b'' Hq' Hr'' Hk' Hl Hnum Hd Hmin Hk0 Hst'. rewrite Edb in Hk', Hst'.
    apply (HQ h' d' chain' (Datatypes.S k)); [by eapply quiet_trans|done|done| |lia|lia|lia|done|done].
    rewrite Hl, length_app. cbn [length]. lia.
Qed.

(** Descending from a header through its parent. *)
Lemma cwp_descend_parent fuel n h p dp (Q : Header * list Header -> Blockchain -> Prop) R b :
  readable b -> Known U (bc_db b) h (dp + h_Difficulty h) -> h <> g -> Known U (bc_db b) p dp -> h_Hash p = h_ParentHash h ->
  h_Number g <= n -> h_Number h - n <= Z.of_nat fuel ->
  (forall h' d' chain' b', quiet b b' -> readable b' -> Known U (bc_db b) h' d' -> h_Number h' = Z.min n (h_Number h) ->
     (h' = h /\ chain' = [] \/ exists k, d' + Z.of_nat k <= dp /\ (k = 0%nat -> h' = p)) ->
     Forall (Linked U g (bc_db b)) chain' -> Q (h', chain') b') ->
  cwp (descend fuel n h []) Q R b.
Proof using All.
  intros Hr Hk Hne Hp Ep Hn Hf HQ. destruct fuel as [|fuel]; cbn [descend].
  all: destruct (n <? h_Number h) eqn:E'; [|apply cwp_ret, (HQ h (dp + h_Difficulty h)); [done..|lia|by left|done]].
  - lia.
  - apply cwp_bind. eapply cwp_parentOf; [done..|]. intros p' dp' b' Hq Hr' Hp' Ep' Ed En.
    rewrite <- Ep in Ep'. apply (u_inj _ _ HU) in Ep'; [subst p'|apply Hp'|apply Hp].
    pose proof (proj1 Hq) as Edb. eapply (cwp_descend fuel n p dp); [done|by rewrite Edb|done|lia|rewrite Edb; apply Forall_singleton; eapply (known_linked U g HU); [apply Hr|done]|].
    intros h' d' chain' k b'' Hq' Hr'' Hk' _ _ Hd Hmin Hk0 Hst. rewrite Edb in Hk', Hst.
    apply (HQ h' d' chain' b''); [by eapply quiet_trans|done|done|lia| |done]. right. by exists k.
Qed.

Lemma cwp_meet fuel o n do_ dn chain (Q : list Header -> Blockchain -> Prop) R b :
  readable b -> Known U (bc_db b) o do_ -> Known U (bc_db b) n dn -> h_Number o = h_Number n ->
  h_Number o - h_Number g <= Z.of_nat fuel ->
  (forall chain' b', quiet b b' -> readable b' -> (chain' = chain /\ o = n \/ chain' <> []) -> Q chain' b') ->
  cwp (meet fuel o n chain) Q R b.
Proof using All.
  revert o do_ n dn chain b. induction fuel as [|fuel IH]; intros o do_ n dn chain b Hr Ho Hn En Hf HQ; cbn [meet].
  all: pose proof (known_number U g HU _ _ _ (proj1 Hr) Ho) as [? Hog]; pose proof (known_number U g HU _ _ _ (proj1 Hr) Hn) as [? Hng].
  all: destruct (h_Hash o =? h_Hash n) eqn:E';
    [apply cwp_ret, HQ; [done..|left]; split; [done|]; apply (u_inj _ _ HU); [apply Ho|apply Hn|lia]|].
  - rewrite Hog, Hng in E' by lia. lia.
  - assert (Hne : h_Number o <> h_Number g) by (intros ?; rewrite Hog, Hng in E' by lia; lia).
    apply cwp_bind. eapply (cwp_parentOf o); [done|done|congruence|]. intros po dpo b' Hq Hr' Hpo Epo _ Eno.
    pose proof (proj1 Hq) as Edb.
    apply cwp_bind. eapply (cwp_parentOf n); [done|by rewrite Edb|congruence|]. intros pn dpn b'' Hq' Hr'' Hpn Epn _ Enn.
    pose proof (proj1 Hq') as Edb'. rewrite Edb in Hpn, Edb'.
    eapply (IH po dpo pn dpn); [done|by rewrite Edb'..|lia|lia|].
    intros chain' b3 Hq3 Hr3 Hc. apply HQ; [|done|right; destruct Hc as [[-> _]|?]; [by destruct chain|done]].
    eapply quiet_trans; [done|]. by eapply quiet_trans.
Qed.

(** ** Writing *)

Definition head_db (db : KV) (h : Header) : Prop :=
  ReadHeadHash db = Some (h_Hash h) /\ ReadHeadNumber db = Some (h_Number h) /\
  ReadCanonicalHash db (h_Number h) = Some (h_Hash h).

(** The head is a heaviest header. *)
Definition chain_inv (b : Blockchain) : Prop :=
  readable b /\
  exists h d, currentHeader b = Some h /\ currentDifficulty b = Some d /\ Known U (bc_db b) h d /\ head_db (bc_db b) h /\
    forall x d', word x -> ReadTotalDifficulty (bc_db b) x = Some d' -> d' <= d.

Lemma readable_grows b db' : readable b -> grows U (bc_db b) db' -> db_inv U g db' -> readable (set_db db' b).
Proof using Type.
  intros [_ [Hh Hd]] [Gs Gd] Hdb. split; [done|]. split; cbn.
  - intros x h Hx. destruct (Hh x h Hx). by split; [apply Gs|].
  - intros x d Hx Hw. apply Gd; [done|]. by apply Hd.
Qed.

Lemma readable_same b db' :
  readable b -> same_records (bc_db b) db' -> canonical_ok U g db' ->
  (ReadForks db' = ReadForks (bc_db b) \/ exists l, Forall word l /\ ReadForks db' = Some (Ok l)) ->
  readable (set_db db' b).
Proof using Type.
  intros Hr Hs Hc Hf. apply readable_grows; [done|by apply grows_same|]. eapply db_inv_same; [done|done|apply Hr|done].
Qed.

(** What [advanceHead] leaves. *)
Record advanced (b : Blockchain) (h : Header) (d : Z) (b' : Blockchain) : Prop := {
  adv_readable : readable b';
  adv_known : Known U (bc_db b') h d;
  adv_head : head_db (bc_db b') h;
  adv_current : currentHeader b' = Some h /\ currentDifficulty b' = Some d;
  adv_others x d' : word x -> ReadTotalDifficulty (bc_db b') x = Some d' ->
    x = h_Hash h /\ d' = d \/ ReadTotalDifficulty (bc_db b) x = Some d';
}.

Lemma head_db_written db h d :
  U h ->
  head_db (WriteTotalDifficulty (head_writes db h) (h_Hash h) d) h.
Proof using All.
  intros Hu. pose proof (U_word U g HU h Hu). pose proof (U_number U g HU h Hu). repeat split.
  all: unfold head_writes.
  - transitivity (ReadHeadHash (WriteHeadHash db (h_Hash h))); [kv_skip|by apply ReadHeadHash_write].
  - transitivity (ReadHeadNumber (WriteHeadNumber (WriteHeadHash db (h_Hash h)) (h_Number h))); [kv_skip|by apply ReadHeadNumber_write].
  - set (db' := WriteHeadNumber _ _). transitivity (ReadCanonicalHash (WriteCanonicalHash db' (h_Number h) (h_Hash h)) (h_Number h)); [kv_skip|].
    rewrite ReadCanonicalHash_write by done. by rewrite decide_True.
Qed.

Lemma cwp_advanceHead h p dp (Q : Z -> Blockchain -> Prop) R b :
  readable b -> Stored U (bc_db b) h -> h <> g -> Known U (bc_db b) p dp -> h_Hash p = h_ParentHash h ->
  (forall b', advanced b h (dp + h_Difficulty h) b' -> Q (dp + h_Difficulty h) b') ->
  cwp (advanceHead h) Q R b.
Proof using All.
  intros Hr Hs Hne Hp Ep HQ. unfold advanceHead.
  do 3 (apply cwp_bind, cwp_write). cbn [bc_db set_db].
  fold (head_writes (bc_db b) h). destruct (head_writes_inv U g HU _ h (proj1 Hr)) as [Hsame Hdb3].
  { eapply (child_linked U g HU); [apply Hr|done..]. }
  set (db3 := head_writes (bc_db b) h) in *. set (b3 := set_db db3 _).
  assert (Hr3 : readable b3) by (apply (readable_grows b); [done|by apply grows_same|done]).
  assert (Hp3 : Known U db3 p dp) by by rewrite (same_known U (bc_db b)).
  assert ((h_ParentHash h =? ZeroHash) = false) as ->.
  { rewrite <- Ep. destruct (u_ok _ _ HU p (proj1 (proj1 Hp))) as (_ & _ & ?). lia. }
  apply cwp_bind, cwp_bind, cwp_readTotalDifficulty; [done|rewrite <- Ep; by eapply (known_word U g HU)|].
  intros b4 Hq4 Hr4. pose proof (proj1 Hq4) as Edb. cbn in Edb. change (bc_db b3) with db3.
  rewrite (known_at U db3 _ dp p) by done. apply cwp_ret. cbn beta zeta.
  apply cwp_bind, cwp_write, cwp_bind, cwp_modify, cwp_ret. rewrite Edb.
  assert (Hs3 : Stored U db3 h) by (by rewrite (same_stored U (bc_db b))).
  destruct (WriteTD_grows U g HU db3 h p dp (proj1 Hr3) Hs3 Hne Hp3 Ep) as (Hdb' & Hg' & Hk' & Ho').
  apply HQ. split; [| |by apply head_db_written, Hs|done|].
  - change (readable (set_db (WriteTotalDifficulty db3 (h_Hash h) (dp + h_Difficulty h)) b4)).
    apply readable_grows; [done|by rewrite Edb|done].
  - done.
  - intros x d' Hx Hd. destruct (Ho' x d' Hx Hd) as [?|Hold]; [by left|]. right. by rewrite <- (proj2 Hsame).
Qed.

Lemma cwp_writeFork h (Q : unit -> Blockchain -> Prop) R b :
  readable b -> U h ->
  (forall db', readable (set_db db' b) -> same_records (bc_db b) db' ->
     (forall h, head_db (bc_db b) h -> head_db db' h) -> Q tt (set_db db' b)) ->
  cwp (writeFork h) Q R b.
Proof using All.
  intros Hr Hu HQ. assert (exists l, Forall word l /\ cwp (writeFork h) Q R b = Q tt (set_db (WriteForks (bc_db b) l) b)) as (l & Hl & ->).
  { pose proof (U_word U g HU h Hu). destruct (di_forks _ _ _ (proj1 Hr)) as [E'|(l & Hl & E')].
    - exists [h_Hash h]. split; [by apply Forall_singleton|]. unfold cwp, writeFork, mbind, M_bind. by rewrite E'.
    - eexists. split; [|unfold cwp, writeFork, mbind, M_bind; by rewrite E'].
      apply Forall_app. split; [|by apply Forall_singleton].
      apply Forall_forall. intros x [_ Hx]%list_elem_of_filter. by eapply Forall_forall. }
  assert (same_records (bc_db b) (WriteForks (bc_db b) l)) by (split; intros; kv_skip).
  apply HQ; [|done|].
  - apply readable_same; [done|done| |].
    { apply (canonical_grows U g (bc_db b)); [apply Hr|intros; kv_skip|by apply grows_same]. }
    right. exists l. split; [done|by apply ReadForks_write].
  - intros h' (E1 & E2 & E3). split; [|split]; [rewrite <- E1|rewrite <- E2|rewrite <- E3]; kv_skip.
Qed.

Lemma canonical_writes (l : list Header) db :
  db_inv U g db -> Forall (Linked U g db) l ->
  let db' := fold_left (fun db h => WriteCanonicalHash db (h_Number h) (h_Hash h)) l db in
  same_records db db' /\ db_inv U g db'.
Proof using All.
  revert db. induction l as [|h l IH]; intros db Hdb Hl; [done|]. cbn [fold_left]. inversion_clear Hl as [|? ? Hh Hl'].
  set (db1 := WriteCanonicalHash db (h_Number h) (h_Hash h)).
  assert (Hs : same_records db db1) by (split; intros; unfold db1; kv_skip).
  destruct (IH db1) as [[Eh Ed] Hdb'].
  - apply (db_inv_same U g db); [done|by apply (canonical_write U g HU), Hh; apply Hdb|done|left; unfold db1; kv_skip].
  - eapply Forall_impl; [exact Hl'|]. intros h'. by apply (same_linked U g db db1).
  - split; [|done]. destruct Hs as [Sh Sd]. split; intros x; [by rewrite Eh|by rewrite Ed].
Qed.

Lemma advanced_from b0 b h d b' :
  (forall x d', word x -> ReadTotalDifficulty (bc_db b) x = Some d' ->
     x = h_Hash h /\ d' = d \/ ReadTotalDifficulty (bc_db b0) x = Some d') ->
  advanced b h d b' -> advanced b0 h d b'.
Proof using Type.
  intros Hd [? ? ? ? Ho]. split; [done..|]. intros x d' Hx Hx'. destruct (Ho x d' Hx Hx') as [?|?]; [by left|by apply Hd].
Qed.

Lemma cwp_handleReorg evnt c dc n p dp (Q : Event -> Blockchain -> Prop) R b :
  readable b -> Known U (bc_db b) c dc -> Known U (bc_db b) n (dp + h_Difficulty n) -> n <> g ->
  Known U (bc_db b) p dp -> h_Hash p = h_ParentHash n -> p <> c -> dp <= dc < dp + h_Difficulty n ->
  (forall e b', advanced b n (dp + h_Difficulty n) b' -> Q e b') ->
  cwp (handleReorg evnt c n) Q R b.
Proof using All.
  intros Hr Hc Hn Hne Hp Ep Hpc Hd HQ. unfold handleReorg. apply cwp_bind, cwp_gets.
  set (fuel := (_ + _ + _)%nat).
  pose proof (known_number U g HU _ _ _ (proj1 Hr) Hc) as [? _]. pose proof (known_number U g HU _ _ _ (proj1 Hr) Hn) as [? _].
  pose proof (U_number U g HU g (u_genesis _ _ HU)) as Hg0. unfold is_u64 in Hg0.
  pose proof (u_number _ _ HU n p (proj1 (proj1 Hn)) (proj1 (proj1 Hp)) Hne (eq_sym Ep)) as Enum.
  apply cwp_bind. eapply (cwp_descend _ _ c dc); [done|done|done|unfold fuel; lia|by constructor|].
  intros o do_ oc k1 b1 Hq1 Hr1 Ho Hl1 Hn1 Hd1 Hm1 Hk1 _. cbn [length] in Hl1. pose proof (proj1 Hq1) as E1. cbv beta iota.
  assert (Hnew : forall (Q' : Header * list Header -> Blockchain -> Prop),
    (forall n' dn' nc b2, quiet b1 b2 -> readable b2 -> Known U (bc_db b) n' dn' -> h_Number n' = h_Number o ->
       (o = c -> n' <> c) -> Forall (Linked U g (bc_db b)) nc -> Q' (n', nc) b2) -> cwp (descend fuel (h_Number o) n []) Q' R b1).
  { intros Q' HQ'. eapply (cwp_descend_parent fuel (h_Number o) n); try done; [by rewrite E1|by rewrite E1|lia|unfold fuel; lia|].
    intros n' dn' nc b2 Hq2 Hr2 Hn' Hnum Hor Hst. rewrite E1 in Hn', Hst. apply (HQ' n' dn' nc b2); [done..|lia| |done].
    intros -> ->. destruct Hor as [[-> _]|(k & Hk & Hk0)].
    - pose proof (known_fun _ _ _ _ _ Hn Hc). lia.
    - pose proof (known_fun _ _ _ _ _ Hn' Hc). subst dn'. apply Hpc. symmetry. apply Hk0. lia. }
  apply cwp_bind, Hnew. intros n' dn' nc b2 Hq2 Hr2 Hn' Hnum Hor Hnc. cbv beta iota.
  pose proof (proj1 Hq2) as E2. rewrite E1 in E2.
  apply cwp_bind. eapply (cwp_meet _ o n' do_ dn'); [done|by rewrite E2|by rewrite E2|lia|unfold fuel; lia|].
  intros oc' b3 Hq3 Hr3 Hoc. pose proof (proj1 Hq3) as E3. rewrite E2 in E3.
  assert (oc' <> []) as Hoc'.
  { destruct Hoc as [[-> <-]|?]; [|done]. destruct oc; [|done]. assert (k1 = 0%nat) by (cbn in Hl1; lia).
    intros _. apply Hor; by apply Hk1. }
  apply cwp_bind. destruct oc' as [|x oc']; [done|]. apply cwp_ret. cbv beta zeta.
  apply cwp_bind, cwp_writeFork; [done|apply Hc|]. intros db4 Hr4 Hs4 _. rewrite E3 in Hs4.
  apply cwp_bind, cwp_write. cbn [bc_db set_db].
  assert (Hnc4 : Forall (Linked U g db4) nc).
  { eapply Forall_impl; [exact Hnc|]. intros h'. by apply (same_linked U g (bc_db b)). }
  destruct (canonical_writes nc db4 (proj1 Hr4) Hnc4) as [Hs5 Hdb5]. set (db5 := fold_left _ nc db4) in *.
  assert (Hr5 : readable (set_db db5 (set_db db4 b3))).
  { apply (readable_grows (set_db db4 b3)); [done|by apply grows_same|done]. }
  assert (Hs : same_records (bc_db b) db5).
  { destruct Hs4 as [X1 X2], Hs5 as [X3 X4]. split; intros; [by rewrite X3|by rewrite X4]. }
  apply cwp_bind. eapply (cwp_advanceHead n p dp); [done|rewrite (same_stored U (bc_db b)); [apply Hn|done]|done| |done|].
  { by rewrite (same_known U (bc_db b)). }
  intros b6 Ha. apply cwp_ret, HQ. eapply advanced_from; [|exact Ha].
  intros y d' _ Hx. right. rewrite <- (proj2 Hs). exact Hx.
Qed.

Lemma cwp_writeCanonicalHeader evnt h c d (Q : Event -> Blockchain -> Prop) R b :
  chain_inv b -> U h -> currentHeader b = Some c -> currentDifficulty b = Some d -> h_ParentHash h = h_Hash c ->
  (forall b', chain_inv b' -> currentHeader b' = Some h -> currentDifficulty b' = Some (d + h_Difficulty h) ->
     bc_db b' = WriteCanonicalHeader (bc_db b) h (d + h_Difficulty h) -> bc_consensus b' = bc_consensus b ->
     Q (SetDifficulty (d + h_Difficulty h) (AddNewHeader h (set_Type EventHead evnt))) b') ->
  cwp (writeCanonicalHeader evnt h) Q R b.
Proof using All.
  intros (Hr & c' & d' & Ec & Ed & Hk & Hh & Hmax) Hu Ec' Ed' Ep HQ.
  assert (c' = c /\ d' = d) as [-> ->] by (split; congruence).
  assert (Hne : h <> g).
  { intros ->. rewrite (u_parent _ _ HU) in Ep. destruct (u_ok _ _ HU c (proj1 (proj1 Hk))) as (_ & _ & ?). congruence. }
  apply cwp_bind, cwp_readTotalDifficulty; [done|by apply (U_parent_word U g HU)|]. intros b1 Hq1 Hr1.
  rewrite (known_at U _ _ d c) by done. cbv beta iota zeta.
  apply cwp_bind, cwp_write, cwp_bind, cwp_modify, cwp_ret. pose proof (proj1 Hq1) as E1.
  unfold WriteCanonicalHeader in *.
  destruct (WriteHeader_grows U g HU (bc_db b) h Hu (proj1 Hr)) as (Hdb1 & Hg1 & Hst1).
  set (db1 := WriteHeader (bc_db b) h) in *. fold (head_writes db1 h) in *.
  destruct (head_writes_inv U g HU _ h Hdb1) as [Hs2 Hdb2].
  { eapply (child_linked U g HU); [done|done|done|by eapply (grows_known U g HU)|done]. } set (db2 := head_writes db1 h) in *.
  assert (Hg2 : grows U (bc_db b) db2) by (eapply grows_trans; [done|by apply grows_same]).
  destruct (WriteTD_grows U g HU db2 h c d) as (Hdb3 & Hg3 & Hk3 & Ho3);
    [done|by rewrite (same_stored U db1)|done|by eapply (grows_known U g HU)|done|].
  apply HQ; rewrite ?E1; try done; [|apply Hq1]. split.
  - change (readable (set_db (WriteTotalDifficulty db2 (h_Hash h) (d + h_Difficulty h)) b1)).
    apply readable_grows; [done|rewrite E1; by eapply grows_trans|done].
  - exists h, (d + h_Difficulty h). repeat (split; [done|]). split; [by apply head_db_written|].
    intros x d' Hx Hd'. pose proof (U_difficulty U g HU h Hu). destruct (Ho3 x d' Hx Hd') as [[_ ->]|Hold]; [lia|].
    rewrite (proj2 Hs2) in Hold. unfold db1 in Hold. assert (E' : ReadTotalDifficulty (bc_db b) x = Some d') by (rewrite <- Hold; symmetry; kv_skip).
    pose proof (Hmax x d' Hx E'). lia.
Qed.

(** The head and its weight are kept by what does not touch them. *)
Lemma chain_inv_kept b b' :
  chain_inv b -> readable b' -> currentHeader b' = currentHeader b -> currentDifficulty b' = currentDifficulty b ->
  grows U (bc_db b) (bc_db b') -> (forall h, head_db (bc_db b) h -> head_db (bc_db b') h) ->
  (forall d x d', currentDifficulty b = Some d -> word x -> ReadTotalDifficulty (bc_db b') x = Some d' ->
     d' <= d \/ ReadTotalDifficulty (bc_db b) x = Some d') ->
  chain_inv b'.
Proof using All.
  intros (_ & h & d & Eh & Ed & Hk & Hh & Hmax) Hr Ec Ecd Hg Hhd Ho. split; [done|]. exists h, d.
  rewrite Ec, Ecd. repeat (split; [done|]). split; [by eapply (grows_known U g HU)|]. split; [by apply Hhd|].
  intros x d' Hx Hd'. destruct (Ho d x d' Ed Hx Hd') as [?|?]; [done|by apply (Hmax x)].
Qed.

Lemma chain_inv_quiet b b' : chain_inv b -> quiet b b' -> readable b' -> chain_inv b'.
Proof using All.
  intros Hi (Edb & Eh & Ed & _) Hr. apply (chain_inv_kept b); rewrite ?Edb; [done..|by right].
Qed.

Lemma chain_inv_advanced b h d b' :
  chain_inv b -> advanced b h d b' -> (forall c, currentDifficulty b = Some c -> c <= d) -> chain_inv b'.
Proof using All.
  intros (_ & c & dc & Eh & Ed & Hk & Hh & Hmax) [Hr Hkn Hhd [Eh' Ed'] Ho] Hle. split; [done|]. exists h, d.
  repeat (split; [done|]). intros x d' Hx Hd'. destruct (Ho x d' Hx Hd') as [[_ ->]|Hold]; [lia|].
  pose proof (Hmax x d' Hx Hold). pose proof (Hle dc Ed). lia.
Qed.

Lemma head_db_header db h' h : head_db db h -> head_db (WriteHeader db h') h.
Proof using Type. intros (E1 & E2 & E3). split; [|split]; [rewrite <- E1|rewrite <- E2|rewrite <- E3]; kv_skip. Qed.

Lemma head_db_difficulty db x d h : head_db db h -> head_db (WriteTotalDifficulty db x d) h.
Proof using Type. intros (E1 & E2 & E3). split; [|split]; [rewrite <- E1|rewrite <- E2|rewrite <- E3]; kv_skip. Qed.

(** The header is stored besides the chain. *)
Lemma chain_inv_header b h :
  chain_inv b -> U h -> chain_inv (set_db (WriteHeader (bc_db b) h) b).
Proof using All.
  intros Hi Hu. destruct (WriteHeader_grows U g HU (bc_db b) h Hu (proj1 (proj1 Hi))) as (Hdb1 & Hg1 & _).
  apply (chain_inv_kept b); [done|apply readable_grows; [apply Hi|done..]|done|done|done|intros; by apply head_db_header|].
  intros d x d' _ _ Hx. right. rewrite <- Hx. cbn [bc_db set_db]. symmetry. kv_skip.
Qed.

Lemma readable_cache b h :
  readable b -> Stored U (bc_db b) h -> readable (set_headers (lru_Add (headersCache b) (h_Hash h) h) b).
Proof using Type.
  intros [Hdb [Hh Hd]] Hs. split; [done|]. split; [|done]. cbn. intros x h' Hx.
  apply lru_peek_Add in Hx as [[-> ->]|Hx]; [done|by apply Hh].
Qed.

(** The fork choice: the header becomes the head when it is heavier. *)
Definition chosen (b : Blockchain) (h : Header) (b' : Blockchain) : Prop :=
  exists dp dc, ReadTotalDifficulty (bc_db b) (h_ParentHash h) = Some dp /\ currentDifficulty b = Some dc /\
    Known U (bc_db b') h (dp + h_Difficulty h) /\
    currentHeader b' = if dc <? dp + h_Difficulty h then Some h else currentHeader b.

(** The decision between a reorganisation and a fork. *)
Lemma cwp_incoming evnt h c dc p dp b (R : Blockchain -> Prop) :
  chain_inv b -> currentHeader b = Some c -> currentDifficulty b = Some dc ->
  Stored U (bc_db b) h -> h <> g -> Known U (bc_db b) p dp -> h_Hash p = h_ParentHash h -> p <> c ->
  let b1 := set_db (WriteTotalDifficulty (bc_db b) (h_Hash h) (dp + h_Difficulty h)) b in
  cwp (if dc <? dp + h_Difficulty h then handleReorg evnt c h
      else @mbind M M_bind _ _ (fun _ => @mret M M_ret _ (set_Type EventFork (AddOldHeader h evnt))) (writeFork h))
    (fun _ b' => chain_inv b' /\ chosen b h b') R
    (set_headers (lru_Add (headersCache b1) (h_Hash h) h) b1).
Proof using All.
  intros Hi Ec Ed Hs Hne Hp Ep Hpc b1. pose proof Hi as (Hr & c' & dc' & Ec' & Ed' & Hk & Hh & Hmax).
  assert (c' = c /\ dc' = dc) as [-> ->] by (split; congruence).
  destruct (WriteTD_grows U g HU (bc_db b) h p dp (proj1 Hr) Hs Hne Hp Ep) as (Hdb1 & Hg1 & Hk1 & Ho1).
  assert (Hr1 : readable b1) by (by apply readable_grows).
  set (b2 := set_headers _ b1). assert (Hr2 : readable b2) by (apply readable_cache; [done|apply Hk1]).
  pose proof (grows_known U g HU _ _ _ _ Hg1 Hk) as Hkc. pose proof (grows_known U g HU _ _ _ _ Hg1 Hp) as Hkp.
  pose proof (Hmax _ _ (known_word U g HU _ _ _ Hp) (proj2 Hp)) as Hle.
  destruct (dc <? dp + h_Difficulty h) eqn:E'.
  - eapply (cwp_handleReorg evnt c dc h p dp); [done..|lia|]. intros _ b' Ha. split; [|exists dp, dc; rewrite E'; split; [by rewrite (known_at U _ _ dp p)|]; split; [done|]; split; apply Ha].
    eapply (chain_inv_advanced b); [done|by eapply advanced_from; [|exact Ha]|]. intros c0 Hc0. assert (c0 = dc) by congruence. lia.
  - assert (Hi2 : chain_inv b2).
    { apply (chain_inv_kept b); [done..|intros; by apply head_db_difficulty|]. intros d x d' Hd Hx Hd'.
      destruct (Ho1 x d' Hx Hd') as [[_ ->]|?]; [left|by right]. assert (d = dc) by congruence. lia. }
    apply cwp_bind, cwp_writeFork; [done|apply Hs|]. intros db' Hr' Hs' Hhd'. apply cwp_ret.
    split; [|exists dp, dc; rewrite E'; split; [by rewrite (known_at U _ _ dp p)|]; split; [done|]; split; [by apply (same_known U (bc_db b2))|done]].
    apply (chain_inv_kept b2); [done..|by apply grows_same|done|]. intros d x d' _ _ Hx. right. rewrite <- (proj2 Hs'). exact Hx.
Qed.

Lemma cwp_writeHeaderImpl evnt h (R : Blockchain -> Prop) b :
  chain_inv b -> U h -> (forall b', chain_inv b' -> currentHeader b' = currentHeader b -> ReadTotalDifficulty (bc_db b) (h_ParentHash h) = None -> R b') ->
  cwp (writeHeaderImpl evnt h) (fun _ b' => chain_inv b' /\ chosen b h b') R b.
Proof using All.
  intros Hi Hu HR. pose proof Hi as (Hr & c & dc & Ec & Ed & Hk & Hh & Hmax).
  unfold writeHeaderImpl. apply cwp_bind, cwp_gets. rewrite Ec. apply cwp_bind, cwp_ret. cbv beta.
  destruct (h_ParentHash h =? h_Hash c) eqn:Epc.
  { eapply cwp_writeCanonicalHeader; [done..|lia|]. intros b' Hi' Ec' Ed' _ _. split; [done|].
    destruct Hi' as (_ & h' & d' & Eh' & Ed'' & Hk' & _). assert (h' = h) as -> by congruence.
    assert (d' = dc + h_Difficulty h) as -> by congruence. exists dc, dc.
    assert (h <> g).
    { intros ->. rewrite (u_parent _ _ HU) in Epc. destruct (u_ok _ _ HU c (proj1 (proj1 Hk))) as (_ & _ & ?). lia. }
    pose proof (u_difficulty _ _ HU h Hu ltac:(done)). replace (dc <? dc + h_Difficulty h) with true by lia.
    split; [|done]. apply (known_at U _ _ dc c); [done|lia]. }
  apply cwp_bind, cwp_write. set (b1 := set_db _ b). pose proof (chain_inv_header b h Hi Hu) as Hi1. fold b1 in Hi1.
  destruct (WriteHeader_grows U g HU (bc_db b) h Hu (proj1 Hr)) as (_ & Hg1 & Hst1).
  pose proof (grows_known U g HU _ _ _ _ Hg1 Hk) as Hk1.
  apply cwp_bind, cwp_readTotalDifficulty; [apply Hi1|by eapply (known_word U g HU)|]. intros b2 Hq2 Hr2.
  rewrite (known_at U _ _ dc c) by done. pose proof (proj1 Hq2) as E2. pose proof (chain_inv_quiet b1 b2 Hi1 Hq2 Hr2) as Hi2.
  apply cwp_bind, cwp_readTotalDifficulty; [done|by apply (U_parent_word U g HU)|]. intros b3 Hq3 Hr3. rewrite E2.
  pose proof (proj1 Hq3) as E3. rewrite E2 in E3. pose proof (chain_inv_quiet b2 b3 Hi2 Hq3 Hr3) as Hi3.
  destruct (ReadTotalDifficulty (bc_db b1) (h_ParentHash h)) as [dp|] eqn:Edp.
  2: { apply cwp_throw, HR; [done|by destruct Hq3 as (_ & -> & _), Hq2 as (_ & -> & _)|]. rewrite <- Edp. unfold b1. cbn [bc_db set_db]. symmetry. kv_skip. }
  destruct (known_find U g HU (bc_db b1) _ dp (proj1 (proj1 Hi1)) (U_parent_word U g HU h Hu) Edp) as (p & Hp & Ep).
  assert (Hne : h <> g).
  { intros ->. rewrite (u_parent _ _ HU) in Ep. by destruct (u_ok _ _ HU p (proj1 (proj1 Hp))) as (_ & _ & []). }
  apply cwp_bind, cwp_write, cwp_bind, cwp_modify. cbv beta zeta.
  eapply cwp_mono; [apply (cwp_incoming evnt h c dc p dp b3)| |done]; rewrite ?E3; try done.
  - by destruct Hq3 as (_ & -> & _), Hq2 as (_ & -> & _).
  - destruct Hq3 as (_ & _ & -> & _), Hq2 as (_ & _ & -> & _). exact Ed.
  - intros ->. lia.
  - intros _ b' [Hi' Hch]. split; [done|]. destruct Hch as (d & dc' & Edp' & Edc & Hkd & Ehd). exists d, dc'.
    assert (ReadTotalDifficulty (bc_db b) (h_ParentHash h) = Some d).
    { rewrite <- Edp', E3. unfold b1. cbn [bc_db set_db]. symmetry. kv_skip. }
    destruct Hq3 as (_ & Q3 & Q3' & _), Hq2 as (_ & Q2 & Q2' & _). rewrite Q3', Q2' in Edc. rewrite Q3, Q2 in Ehd. done.
Qed.

End Chain.
