(* ===== verification/BlockchainRun.v ===== *)
(** * Operations on the chain

    Headers, blocks and the genesis are written under the invariant of the chain; a run is
    a sequence of such writes, some of which may fail, and restarts of the node. *)

From S2P Require Import Prelude ChainTypes BigInt Runtime Receipts StateTxn StateLemmas Rlp Trie TrieSample ChainRlp ChainRlpProps Buildroot Storage.
From S2P Require Import Blockchain BlockchainInv.
Local Open Scope go_scope.

Section Run.
Context `{Fastrlp} `{!CodecLaws} `{!FastrlpLaws} `{HeaderHasher} `{TxSigner}.
Context {S T E : Type} `{BlockExecutor S T} `{Verifier E T}.
Context {CH CD CR : Type} `{LH : Lru Hash Header CH} `{LD : Lru Hash Z CD} `{LR : Lru Hash (list Receipt) CR}.
Context `{!LruLaws Hash Header CH} `{!LruLaws Hash Z CD} `{!LruLaws Hash (list Receipt) CR}.
Context (U : Header -> Prop) (g : Header) (HU : universe U g).

Abbreviation Blockchain := (Blockchain S E CH CD CR).
Abbreviation M := (@M S E CH CD CR).
Abbreviation inv := (chain_inv (S := S) (E := E) (CH := CH) (CD := CD) (CR := CR) U g).

(** The records of headers are kept by the writes of the others. *)
Record same_chain (db db' : KV) : Prop := {
  sc_records : same_records db db';
  sc_forks : ReadForks db' = ReadForks db;
  sc_canonical n : ReadCanonicalHash db' n = ReadCanonicalHash db n;
  sc_head : ReadHeadHash db' = ReadHeadHash db /\ ReadHeadNumber db' = ReadHeadNumber db;
}.

#[local] Instance same_chain_preorder : PreOrder same_chain.
Proof.
  split; [done|]. intros a b c [[H11 H12] H13 H14 [H15 H16]] [[H21 H22] H23 H24 [H25 H26]].
  repeat split; intros; congruence.
Qed.

Lemma WriteBody_same db x body : same_chain db (WriteBody db x body).
Proof using Type. repeat split; intros; kv_skip. Qed.

Lemma WriteReceipts_same db x rr : same_chain db (WriteReceipts db x rr).
Proof using Type. repeat split; intros; kv_skip. Qed.

Lemma WriteTxLookups_same (txs : list Transaction) x db :
  same_chain db (fold_left (fun db tx => WriteTxLookup db (TxHash tx) x) txs db).
Proof using Type.
  revert db. induction txs as [|tx txs IH]; intros db; cbn [fold_left]; [done|].
  transitivity (WriteTxLookup db (TxHash tx) x); [|apply IH]. repeat split; intros; kv_skip.
Qed.

Lemma inv_same b db' : inv b -> same_chain (bc_db b) db' -> inv (set_db db' b).
Proof using All.
  intros Hi [Hs Hf Hc [Hh Hn]]. apply (chain_inv_kept U g HU b); [done| |done|done|by apply grows_same| |].
  - apply readable_same; [apply Hi|done| |by left]. apply (canonical_grows U g (bc_db b)); [apply Hi|done|by apply grows_same].
  - intros h (E1 & E2 & E3). split; [by rewrite <- E1|split; [by rewrite <- E2|by rewrite <- E3]].
  - intros d x d' _ _ Hx. right. rewrite <- (proj2 Hs). exact Hx.
Qed.

(** ** Headers *)

Lemma cwp_write_all hs b : inv b -> Forall U hs -> cwp (write_all hs) (fun _ => inv) inv b.
Proof using All.
  intros Hi Hu. revert b Hi. induction Hu as [|h hs Hh Hu IH]; intros b Hi; [by apply cwp_ret|]. cbn [write_all].
  apply cwp_bind. eapply cwp_mono; [apply (cwp_writeHeaderImpl U g HU _ h inv); [done|done|by auto]| |done].
  intros e b' [Hi' _]. apply cwp_bind, cwp_modify. by apply IH.
Qed.

Lemma cwp_WriteHeaders hs b : inv b -> Forall U hs -> cwp (WriteHeaders hs) (fun _ => inv) inv b.
Proof using All.
  intros Hi Hu. unfold WriteHeaders. destruct hs as [|h hs]; [by apply cwp_throw|]. apply cwp_bind. unfold check.
  destruct (headers_linked (h :: hs)); [by apply cwp_throw|]. apply cwp_ret. by apply cwp_write_all.
Qed.

(** ** Blocks *)

Lemma cwp_writeBody block b :
  inv b -> cwp (writeBody block) (fun block' b' => inv b' /\ b_Header block' = b_Header block) inv b.
Proof using All.
  intros Hi. unfold writeBody, recoverFromFieldsInBlock. apply cwp_bind.
  destruct (recoverFromFields (b_Transactions block)) as [txs|]; [|by apply cwp_throw].
  apply cwp_ret, cwp_bind, cwp_write, cwp_bind, cwp_write, cwp_ret. split; [|done].
  apply (inv_same (set_db _ b)); [|apply WriteTxLookups_same]. apply inv_same; [done|apply WriteBody_same].
Qed.

Lemma cwp_executeBlockTransactions block b :
  inv b -> U (b_Header block) -> cwp (executeBlockTransactions block) (fun _ => inv) inv b.
Proof using All.
  intros Hi Hu. unfold executeBlockTransactions.
  apply cwp_bind, (cwp_readHeader U g HU); [apply Hi|by apply (U_parent_word U g HU)|]. intros p b1 Hq Hr _.
  pose proof (chain_inv_quiet U g HU _ _ Hi Hq Hr) as Hi1. destruct p as [p|]; [|by apply cwp_throw].
  apply cwp_bind, cwp_gets. destruct (GetBlockCreator _ _) as [creator|]; [|by apply cwp_throw].
  apply cwp_bind, cwp_gets. destruct (ex_ProcessBlock _ _ _ _) as [txn|]; [|by apply cwp_throw].
  destruct (PreCommitState _ _ _) as [txn'|]; [|by apply cwp_throw]. destruct (ex_Commit _ _) as [root s'].
  by apply cwp_bind, cwp_modify, cwp_bind, cwp_modify, cwp_ret.
Qed.

Lemma cwp_extractBlockReceipts block b :
  inv b -> U (b_Header block) -> cwp (extractBlockReceipts block) (fun _ => inv) inv b.
Proof using All.
  intros Hi Hu. unfold extractBlockReceipts, cwp. destruct (lru_Get (receiptsCache b) (b_Hash block)) as [[rr|] c]; [done|].
  apply cwp_bind. eapply cwp_mono; [by apply cwp_executeBlockTransactions| |done]. intros r b' Hi'. by apply cwp_ret.
Qed.

Lemma cwp_GetHeaderByNumber n b R : inv b -> is_u64 n -> cwp (GetHeaderByNumber n) (fun _ b' => quiet b b' /\ inv b') R b.
Proof using All.
  intros Hi Hn. apply cwp_bind, cwp_gets. destruct (ReadCanonicalHash (bc_db b) n) as [x|] eqn:E'; [|by apply cwp_ret].
  destruct (proj2 (di_canonical _ _ _ (proj1 (proj1 Hi))) n x Hn E') as (h & Hh & <- & _).
  apply (cwp_readHeader U g HU); [apply Hi|by apply (U_word U g HU), Hh|]. intros o b' Hq Hr _.
  split; [done|]. by apply (chain_inv_quiet U g HU b).
Qed.

Lemma cwp_write_block block receipts b :
  inv b -> U (b_Header block) ->
  (forall block b, inv b -> U (b_Header block) -> cwp (receipts block) (fun _ => inv) inv b) ->
  cwp (write_block (T := T) block receipts) (fun _ => inv) inv b.
Proof using All.
  intros Hi Hu Hrec. pose proof Hi as (_ & c & _ & Ec & _). unfold write_block. apply cwp_bind, cwp_gets. rewrite Ec.
  apply cwp_bind, cwp_ret. destruct (b_Number block <=? h_Number c); [by apply cwp_ret|].
  apply cwp_bind. eapply cwp_mono; [by apply cwp_writeBody| |done]. intros block' b1 [Hi1 Eh]. rewrite <- Eh in Hu.
  apply cwp_bind. eapply cwp_mono; [apply (cwp_writeHeaderImpl U g HU _ _ inv); [done|done|by auto]| |done]. intros e b2 [Hi2 _].
  apply cwp_bind. eapply cwp_mono; [by apply Hrec| |done]. intros rr b3 Hi3.
  apply cwp_bind, cwp_write, cwp_bind, cwp_gets. destruct (ProcessHeaders _ _) as [ok c'].
  apply cwp_bind, cwp_modify. set (b4 := set_consensus _ _).
  assert (Hi4 : inv b4) by (apply inv_same; [done|apply WriteReceipts_same]).
  destruct ok; [|by apply cwp_throw]. apply cwp_bind, cwp_modify, cwp_bind, cwp_modify, cwp_bind.
  eapply cwp_mono; [apply (cwp_GetHeaderByNumber _ _ inv); [done|]|intros ? ? [_ ?]; by apply cwp_ret|done].
  apply u64_range.
Qed.

Lemma cwp_WriteBlock block b : inv b -> U (b_Header block) -> cwp (WriteBlock (T := T) block) (fun _ => inv) inv b.
Proof using All. intros. apply cwp_write_block; [done..|]. intros. by apply cwp_extractBlockReceipts. Qed.

Lemma cwp_WriteFullBlock fblock b :
  inv b -> U (b_Header (fb_Block fblock)) -> cwp (WriteFullBlock (T := T) fblock) (fun _ => inv) inv b.
Proof using All. intros. apply cwp_write_block; [done..|]. intros. by apply cwp_ret. Qed.

(** ** The genesis block and restarts *)

Context (config : Genesis) (Hconfig : h_ComputeHash (GenesisHeader config) = g) (Hzero : g_Number config = 0).

Lemma genesis_number : h_Number g = 0.
Proof using Hconfig Hzero. by rewrite <- Hconfig. Qed.

Lemma genesis_hash : genesis_Hash config = h_Hash g.
Proof using Hconfig. by rewrite <- Hconfig. Qed.

(** The database with the genesis. *)
Definition genesis_db : KV := WriteTotalDifficulty (head_writes (WriteHeader [] g) g) (h_Hash g) (h_Difficulty g).

Lemma genesis_db_inv :
  db_inv U g genesis_db /\ head_db genesis_db g /\
  forall x d, word x -> ReadTotalDifficulty genesis_db x = Some d -> d = h_Difficulty g.
Proof using All.
  pose proof (u_genesis _ _ HU) as Hu. pose proof (U_word U g HU g Hu) as Hw. pose proof (U_number U g HU g Hu) as Hn.
  pose proof (U_difficulty U g HU g Hu) as Hd.
  assert (Hat : forall x, word x -> header_at genesis_db x = if decide (h_Hash g = x) then Some (header_MarshalRLP g) else None).
  { intros x Hx. transitivity (header_at (WriteHeader [] g) x); [unfold genesis_db, head_writes; kv_skip|by rewrite header_at_write]. }
  assert (Htd : forall x, word x -> ReadTotalDifficulty genesis_db x = if decide (h_Hash g = x) then Some (h_Difficulty g) else None).
  { intros x Hx. unfold genesis_db. rewrite ReadTotalDifficulty_write by done. case_decide; [done|].
    transitivity (ReadTotalDifficulty [] x); [unfold head_writes; kv_skip|done]. }
  assert (Hs : Stored U genesis_db g) by (split; [done|]; rewrite Hat by done; by rewrite decide_True).
  assert (Hc : forall n, is_u64 n -> ReadCanonicalHash genesis_db n = if decide (h_Number g = n) then Some (h_Hash g) else None).
  { intros n Hn'. set (db1 := WriteHeadNumber (WriteHeadHash (WriteHeader [] g) (h_Hash g)) (h_Number g)).
    transitivity (ReadCanonicalHash (WriteCanonicalHash db1 (h_Number g) (h_Hash g)) n); [unfold genesis_db, head_writes; kv_skip|].
    rewrite ReadCanonicalHash_write by done. case_decide; [done|].
    transitivity (ReadCanonicalHash [] n); [unfold db1; kv_skip|done]. }
  split; [|split; [by apply (head_db_written U g HU)|intros x d Hx; rewrite Htd by done; by case_decide; [intros [= <-]|]]]. split.
  - intros x data Hx. rewrite Hat by done. case_decide; [|done]. intros _. by exists g.
  - intros x d Hx. rewrite Htd by done. case_decide; [|done]. intros [= <-]. split; [done|]. exists g. by repeat (split; [done|]); left.
  - split; [done|]. rewrite Htd by done. by rewrite decide_True.
  - left. transitivity (ReadForks []); [unfold genesis_db, head_writes; kv_skip|done].
  - split; [rewrite Hc by done; by rewrite decide_True|]. intros n x Hn'. rewrite Hc by done. case_decide; [|done].
    intros [= <-]. by exists g.
Qed.

Lemma cwp_ComputeGenesis_fresh s e R :
  cwp (ComputeGenesis config) (fun _ b => inv b /\ currentHeader b = Some g) R (NewBlockchain [] s e : Blockchain).
Proof using All.
  unfold ComputeGenesis. apply cwp_bind, cwp_gets. cbn [NewBlockchain bc_db ReadHeadHash].
  change (ReadHeadHash []) with (@None Hash). cbv iota. unfold writeGenesis, writeGenesisImpl. rewrite Hconfig.
  apply cwp_bind, cwp_modify, cwp_bind, cwp_write, cwp_bind. unfold advanceHead.
  do 3 apply cwp_bind, cwp_write. rewrite (u_parent _ _ HU). cbn [Z.eqb ZeroHash].
  apply cwp_bind, cwp_ret, cwp_bind, cwp_write, cwp_bind, cwp_modify, cwp_ret, cwp_modify. cbn [bc_db set_db set_genesis dispatchEvent].
  fold (head_writes (WriteHeader [] g) g). fold genesis_db.
  destruct genesis_db_inv as (Hdb & Hh & Hd). split; [|done]. split; [split; [exact Hdb|]|].
  - split; cbn; intros x v; rewrite lru_peek_New; done.
  - exists g, (h_Difficulty g). split; [done|]. split; [done|]. split; [apply Hdb|]. split; [done|]. intros x d Hx Hx'.
    by rewrite (Hd x d Hx Hx').
Qed.

(** A restarted node resumes at the head. *)
Lemma cwp_ComputeGenesis_restart b s e R :
  inv b ->
  cwp (ComputeGenesis config)
    (fun _ b' => inv b' /\ bc_db b' = bc_db b /\ currentHeader b' = currentHeader b /\ currentDifficulty b' = currentDifficulty b) R
    (NewBlockchain (bc_db b) s e : Blockchain).
Proof using All.
  intros ([Hdb _] & h & d & Eh & Ed & Hk & (E1 & E2 & E3) & Hmax). unfold ComputeGenesis.
  apply cwp_bind, cwp_gets. cbn [NewBlockchain bc_db]. rewrite E1. apply cwp_bind, cwp_gets. cbn [NewBlockchain bc_db].
  pose proof (proj1 (di_canonical _ _ _ Hdb)) as Hg0. rewrite genesis_number in Hg0. rewrite Hg0.
  apply cwp_bind, cwp_modify. rewrite genesis_hash, Z.eqb_refl. cbn [negb].
  set (b0 := set_genesis _ _).
  assert (Hr0 : readable U g b0).
  { split; [done|]. split; cbn; intros x v; rewrite lru_peek_New; done. }
  apply cwp_bind, (cwp_readHeader U g HU); [done|by eapply (known_word U g HU)|]. intros o b1 Hq1 Hr1 Ho.
  pose proof (proj1 Hq1) as Edb1. cbn in Edb1. change (bc_db b0) with (bc_db b) in Ho. destruct o as [h'|]; [|destruct Hk as [[_ ?] _]; congruence].
  destruct Ho as [[Hu' _] Ehash]. apply (u_inj _ _ HU) in Ehash; [subst h'|done|apply Hk].
  apply cwp_bind, (cwp_readTotalDifficulty U g HU); [done|by eapply (known_word U g HU)|]. intros b2 Hq2 Hr2.
  pose proof (proj1 Hq2) as Edb2. rewrite Edb1 in Edb2 |- *. rewrite (known_at U _ _ d h) by done.
  apply cwp_modify. split; [|cbn; by rewrite Eh, Ed]. split; [exact Hr2|].
  exists h, d. cbn. rewrite Edb2. by repeat (split; [done|]).
Qed.

End Run.

(** * A sample chain

    Instances of the interfaces of the blockchain, and six headers: the genesis, a branch
    A of two and a branch B of three headers. *)
Local Open Scope go_scope.

(** Hashes number the headers by height and gas used. *)
#[global] Program Instance sample_hasher : HeaderHasher := {|
  HeaderHash h := (1 + h_Number h * 65536 + h_GasUsed h) mod 2 ^ 256 |}.
Next Obligation. done. Qed.
Next Obligation. intros h. unfold word. apply Z.mod_pos_bound. lia. Qed.

#[global] Instance sample_signer : TxSigner := {| Sender tx := Some (sigR tx) |}.

(** The state is its root; executing a block sets it to the root the block states. *)
#[global] Instance sample_executor : BlockExecutor Z (Block * list Receipt) := {|
  ex_ProcessBlock _ _ b _ := Some (b, []);
  ex_Commit _ t := (h_StateRoot (b_Header (fst t)), h_StateRoot (b_Header (fst t)));
  ex_Receipts t := snd t;
  ex_TotalGas t := h_GasUsed (b_Header (fst t)) |}.

(** The engine counts the headers it processed. *)
#[global] Instance sample_verifier : Verifier Z (Block * list Receipt) := {|
  VerifyHeader _ _ := true;
  ProcessHeaders n hs := (true, n + Z.of_nat (length hs));
  GetBlockCreator _ _ := Some 0;
  PreCommitState _ _ t := Some t |}.

Definition sample_config : Genesis := mkGenesis 0 0 [] 5000 1 0 0 0 0 0 0.

Definition header_over (parent : Header) (tag difficulty : Z) : Header :=
  h_ComputeHash (mkHeader (h_Hash parent) EmptyUncleHash [] 4 5 6 (replicate BloomByteLength 0) difficulty
    (h_Number parent + 1) 5000 tag 1600000000 [] 0 0 0).

Definition headG : Header := h_ComputeHash (GenesisHeader sample_config).
Definition headA1 : Header := header_over headG 1 10.
Definition headA2 : Header := header_over headA1 1 10.
Definition headB1 : Header := header_over headG 2 10.
Definition headB2 : Header := header_over headB1 2 10.
Definition headB3 : Header := header_over headB2 2 10.

Definition sample_headers : list Header := [headG; headA1; headA2; headB1; headB2; headB3].

Lemma sample_headers_ok h : h ∈ sample_headers -> header_ok h.
Proof. intros Hh. unfold sample_headers in Hh. in_list; subst h; split; by_eval. Qed.

Lemma sample_all (P : Header -> Prop) `{forall h, Decision (P h)} :
  bool_decide (Forall P sample_headers) = true -> forall h, h ∈ sample_headers -> P h.
Proof. intros Hb h Hh. apply bool_decide_eq_true in Hb. rewrite Forall_forall in Hb. by apply Hb. Qed.

Lemma sample_universe : universe (fun h => h ∈ sample_headers) headG.
Proof.
  split.
  - by left.
  - done.
  - intros h Hh. split; [by apply sample_headers_ok|]. revert h Hh.
    apply (sample_all (fun h => h_Hash h = HeaderHash h /\ h_Hash h <> ZeroHash)). by vm_compute.
  - intros h h' Hh Hh'. revert h' Hh'. apply (sample_all (fun h' => h_Hash h = h_Hash h' -> h = h')).
    revert h Hh. apply (sample_all (fun h => bool_decide (Forall (fun h' => h_Hash h = h_Hash h' -> h = h') sample_headers) = true)).
    by vm_compute.
  - apply (sample_all (fun h => h <> headG -> 1 <= h_Difficulty h)). by vm_compute.
  - intros h p Hh Hp. revert p Hp. apply (sample_all (fun p => h <> headG -> h_ParentHash h = h_Hash p -> h_Number h = h_Number p + 1)).
    revert h Hh. apply (sample_all (fun h => bool_decide (Forall (fun p => h <> headG -> h_ParentHash h = h_Hash p -> h_Number h = h_Number p + 1) sample_headers) = true)).
    by vm_compute.
Qed.
