(* ===== verification/BlockchainProps.v ===== *)
(** * Properties of the blockchain

    A run starts from an empty database with the genesis block, and goes on with writes of
    headers and blocks in any order, on any branch, and restarts of the node. *)

From S2P Require Import Prelude ChainTypes BigInt Runtime StateTxn Receipts Rlp ChainRlp StateLemmas TrieSample ChainRlpProps.
From S2P Require Import Trie Buildroot Storage Blockchain BlockchainInv BlockchainRun.
Local Open Scope go_scope.

Section Props.
Context `{Fastrlp} `{!CodecLaws} `{!FastrlpLaws} `{HeaderHasher} `{TxSigner}.
Context {S T E : Type} `{BlockExecutor S T} `{Verifier E T}.
Context {CH CD CR : Type} `{LH : Lru Hash Header CH} `{LD : Lru Hash Z CD} `{LR : Lru Hash (list Receipt) CR}.
Context `{!LruLaws Hash Header CH} `{!LruLaws Hash Z CD} `{!LruLaws Hash (list Receipt) CR}.

Abbreviation Blockchain := (Blockchain S E CH CD CR).

(** ** Runs *)

Inductive op :=
  | OpHeaders (headers : list Header)
  | OpBlock (block : Block)
  | OpFullBlock (fblock : FullBlock)
  | OpRestart (s : S) (e : E).

Definition op_headers (o : op) : list Header :=
  match o with
  | OpHeaders hs => hs
  | OpBlock b => [b_Header b]
  | OpFullBlock fb => [b_Header (fb_Block fb)]
  | OpRestart _ _ => []
  end.

(** A step, which may end with an error; [None] is a panic. *)
Definition step (config : Genesis) (o : op) (b : Blockchain) : option Blockchain :=
  snd <$> match o with
          | OpHeaders hs => WriteHeaders hs b
          | OpBlock block => WriteBlock (T := T) block b
          | OpFullBlock fb => WriteFullBlock (T := T) fb b
          | OpRestart s e => ComputeGenesis config (NewBlockchain (bc_db b) s e)
          end.

Definition start (config : Genesis) (s : S) (e : E) : option Blockchain := snd <$> ComputeGenesis config (NewBlockchain [] s e).

Fixpoint steps (config : Genesis) (ops : list op) (b : Blockchain) : option Blockchain :=
  match ops with
  | [] => Some b
  | o :: ops => b ← step config o b; steps config ops b
  end.

Definition run (config : Genesis) (s : S) (e : E) (ops : list op) : option Blockchain :=
  b ← start config s e; steps config ops b.

(** The sum of the difficulties from the genesis to a stored header. *)
Inductive weight (g : Header) (db : KV) : Header -> Z -> Prop :=
  | weight_genesis : header_at db (h_Hash g) = Some (header_MarshalRLP g) -> weight g db g (h_Difficulty g)
  | weight_child h p d :
      header_at db (h_Hash h) = Some (header_MarshalRLP h) -> h_ParentHash h = h_Hash p -> weight g db p d ->
      weight g db h (d + h_Difficulty h).

Section Invariant.
Context (U : Header -> Prop) (g : Header) (HU : universe U g).
Lemma known_weight db h d : db_inv U g db -> Known U db h d -> weight g db h d.
Proof using All.
  intros Hdb. remember (Z.to_nat (h_Number h)) as n eqn:Hn. revert h d Hn.
  induction n as [n IH] using lt_wf_ind. intros h d Hn Hk.
  destruct (known_inv U g HU _ _ _ Hdb Hk) as [[-> ->]|(Hne & p & dp & Hp & Ep & -> & En)].
  - apply weight_genesis, Hk.
  - pose proof (U_number U g HU p (proj1 (proj1 Hp))) as Hpn. unfold is_u64 in Hpn.
    eapply weight_child; [apply Hk|done|]. eapply (IH (Z.to_nat (h_Number p))); [lia|done|done].
Qed.

Context (config : Genesis) (Hconfig : h_ComputeHash (GenesisHeader config) = g) (Hzero : g_Number config = 0).

Abbreviation inv := (chain_inv (S := S) (E := E) (CH := CH) (CD := CD) (CR := CR) U g).

Lemma cwp_snd {A} (m : M A) b (P : Blockchain -> Prop) :
  cwp m (fun _ => P) P b -> exists b', snd <$> m b = Some b' /\ P b'.
Proof using Type. unfold cwp. destruct (m b) as [[[a|e] b']|]; [by exists b'..|done]. Qed.

Lemma start_inv s e : exists b, start config s e = Some b /\ inv b.
Proof using All.
  unfold start. apply cwp_snd. eapply cwp_mono; [by apply (cwp_ComputeGenesis_fresh U g HU config Hconfig Hzero s e inv)|by intros ? ? [? _]|done].
Qed.

Lemma step_inv o b : inv b -> Forall U (op_headers o) -> exists b', step config o b = Some b' /\ inv b'.
Proof using All.
  intros Hi Ho. destruct o as [hs|block|fb|s e]; unfold step; cbn in Ho; apply cwp_snd.
  - by apply (cwp_WriteHeaders U g HU).
  - apply (cwp_WriteBlock U g HU); [done|by inversion Ho].
  - apply (cwp_WriteFullBlock U g HU); [done|by inversion Ho].
  - eapply cwp_mono; [by apply (cwp_ComputeGenesis_restart U g HU config Hconfig Hzero b s e inv)|by intros ? ? [? _]|done].
Qed.

Lemma run_inv s e ops : Forall U (ops ≫= op_headers) -> exists b, run config s e ops = Some b /\ inv b.
Proof using All.
  intros Hops. unfold run. destruct (start_inv s e) as (b0 & -> & Hi). cbn [mbind option_bind].
  revert b0 Hi. induction ops as [|o ops IH]; intros b Hi; [by exists b|]. cbn in Hops. apply Forall_app in Hops as [Ho Hops].
  cbn [steps]. destruct (step_inv o b Hi Ho) as (b1 & -> & Hi1). by apply IH.
Qed.

End Invariant.

(** C6. Whatever headers and blocks are written, on whatever branches and in whatever
    order, with failing writes and restarts of the node in between, as long as every header
    has a difficulty of at least 1, the number of its parent plus one, its own hash and no
    hash in common with another one (the consensus checks this before a block is written,
    the writers themselves do not: they panic on a heavier header whose number is not that
    of its parent plus one), no operation panics (reorganisations included), and at the end
    every recorded total difficulty is the sum of the difficulties from the genesis, no
    branch is heavier than the head, and the head records and the canonical index of the
    database agree with the head. *)
Theorem heaviest_head (U : Header -> Prop) (config : Genesis) (s : S) (e : E) (ops : list op) :
  let g := h_ComputeHash (GenesisHeader config) in
  universe U g -> g_Number config = 0 -> Forall U (ops ≫= op_headers) ->
  exists b h d, run config s e ops = Some b /\
    currentHeader b = Some h /\ currentDifficulty b = Some d /\ weight g (bc_db b) h d /\
    ReadHeadHash (bc_db b) = Some (h_Hash h) /\ ReadHeadNumber (bc_db b) = Some (h_Number h) /\
    ReadCanonicalHash (bc_db b) (h_Number h) = Some (h_Hash h) /\
    (forall x d', word x -> ReadTotalDifficulty (bc_db b) x = Some d' ->
       d' <= d /\ exists h', h_Hash h' = x /\ weight g (bc_db b) h' d') /\
    (forall n x, is_u64 n -> ReadCanonicalHash (bc_db b) n = Some x ->
       exists h', h_Hash h' = x /\ h_Number h' = n /\ header_at (bc_db b) x = Some (header_MarshalRLP h')).
Proof.
  intros g HU Hz Hops. destruct (run_inv U g HU config eq_refl Hz s e ops Hops) as (b & Hrun & Hi).
  pose proof Hi as ([Hdb _] & h & d & Eh & Ed & Hk & (E1 & E2 & E3) & Hmax). exists b, h, d.
  repeat (split; [done|]). split; [by apply (known_weight U g HU)|]. repeat (split; [done|]). split.
  - intros x d' Hx Hd'. split; [by apply (Hmax x)|]. destruct (known_find U g HU _ _ _ Hdb Hx Hd') as (h' & Hk' & <-).
    exists h'. split; [done|]. by apply (known_weight U g HU).
  - intros n x Hn Hx. destruct (proj2 (di_canonical _ _ _ Hdb) n x Hn Hx) as (h' & [_ Hs] & <- & <-). by exists h'.
Qed.

(** Fork choice: after any run, a header whose parent has a total difficulty is
    accepted with the total difficulty of the parent plus its own, and becomes the head
    exactly if it is heavier than the head; without a parent it is refused and the head
    stays. *)
Theorem fork_choice (U : Header -> Prop) (config : Genesis) (s : S) (e : E) (ops : list op) (b : Blockchain) (h : Header) :
  let g := h_ComputeHash (GenesisHeader config) in
  universe U g -> g_Number config = 0 -> Forall U (ops ≫= op_headers) -> U h -> h <> g ->
  run config s e ops = Some b ->
  exists r b', WriteHeaders [h] b = Some (r, b') /\
    match ReadTotalDifficulty (bc_db b) (h_ParentHash h) with
    | Some dp =>
        r = Ok tt /\ ReadTotalDifficulty (bc_db b') (h_Hash h) = Some (dp + h_Difficulty h) /\
        exists dc, currentDifficulty b = Some dc /\
          currentHeader b' = if dc <? dp + h_Difficulty h then Some h else currentHeader b
    | None => (exists err, r = Err err) /\ currentHeader b' = currentHeader b
    end.
Proof.
  intros g HU Hz Hops Hu Hne Hrun. destruct (run_inv U g HU config eq_refl Hz s e ops Hops) as (b' & Hrun' & Hi).
  assert (b' = b) as -> by congruence. clear Hrun'.
  set (R := fun b' : Blockchain => currentHeader b' = currentHeader b /\ ReadTotalDifficulty (bc_db b) (h_ParentHash h) = None).
  assert (Hwp : cwp (WriteHeaders [h]) (fun _ b' => chosen U b h b') R b).
  { unfold WriteHeaders. apply cwp_bind, cwp_ret. cbn [write_all].
    apply cwp_bind. eapply cwp_mono; [apply (cwp_writeHeaderImpl U g HU new_event h R); [done..|]| |done]; [by intros|].
    intros evnt b1 [_ Hch]. by apply cwp_bind, cwp_modify, cwp_ret. }
  unfold cwp in Hwp. destruct (WriteHeaders [h] b) as [[[[]|err] b']|]; [| |done].
  - destruct Hwp as (dp & dc & -> & Ed & [_ Hk] & Ehd). eexists _, _. split; [done|]. split; [done|]. split; [done|]. by exists dc.
  - destruct Hwp as [Eh ->]. eexists _, _. split; [done|]. split; [by exists err|done].
Qed.

End Props.

(** ** The sample chain *)

Abbreviation sample_run := (run (T := Block * list Receipt) (CH := alist Header) (CD := alist Z) (CR := alist (list Receipt)) sample_config 0 0).

Definition reorg_ops : list (op (S := Z) (E := Z)) :=
  [OpHeaders [headA1; headA2]; OpRestart 0 0; OpHeaders [headB2]; OpFullBlock (mkFullBlock (mkBlock headB1 [] []) []);
   OpHeaders [headB1; headB2; headB3]].

Lemma reorg_ops_ok : Forall (fun h => h ∈ sample_headers) (reorg_ops ≫= op_headers).
Proof. apply (bool_decide_unpack _). by vm_compute. Qed.

Lemma heaviest_head_witness : exists b h d, sample_run reorg_ops = Some b /\ currentHeader b = Some h /\ weight headG (bc_db b) h d.
Proof.
  destruct (heaviest_head (T := Block * list Receipt) (CH := alist Header) (CD := alist Z) (CR := alist (list Receipt))
    (fun h => h ∈ sample_headers) sample_config 0 0 reorg_ops sample_universe eq_refl reorg_ops_ok)
    as (b & h & d & Hr & Hh & _ & Hw & _).
  exists b, h, d. exact (conj Hr (conj Hh Hw)).
Defined.

Lemma headA1_new : headA1 ∈ sample_headers /\ headA1 <> headG.
Proof. apply (bool_decide_unpack _). by vm_compute. Qed.

Lemma fork_choice_witness : exists b r b', sample_run reorg_ops = Some b /\ WriteHeaders [headA1] b = Some (r, b').
Proof.
  destruct (run_inv (T := Block * list Receipt) (CH := alist Header) (CD := alist Z) (CR := alist (list Receipt))
    (fun h => h ∈ sample_headers) headG sample_universe sample_config eq_refl eq_refl 0 0 reorg_ops reorg_ops_ok) as (b & Hb & _).
  destruct (fork_choice (T := Block * list Receipt) (CH := alist Header) (CD := alist Z) (CR := alist (list Receipt))
    (fun h => h ∈ sample_headers) sample_config 0 0 reorg_ops b headA1 sample_universe eq_refl reorg_ops_ok
    (proj1 headA1_new) (proj2 headA1_new) Hb) as (r & b' & Hw & _). exists b, r, b'. exact (conj Hb Hw).
Defined.
