(* ===== verification/BlockchainVerify.v ===== *)
(** * The gas limit and the verification of blocks

    The limit the node gives to its own blocks against the one it accepts in the blocks
    of others, and its way to the target of the configuration; then which blocks pass. *)

From S2P Require Import Prelude ChainTypes BigInt Runtime Receipts StateTxn StateLemmas Rlp Trie TrieSample ChainRlp ChainRlpProps Buildroot Storage.
From S2P Require Import Blockchain BlockchainInv BlockchainRun BlockchainProps.
Local Open Scope go_scope.

Definition limit_fits (x : Z) : Prop := 0 <= x < 2 ^ 63.

Lemma i64_small x : - 2 ^ 63 <= x < 2 ^ 63 -> i64 x = x.
Proof. intros Hx. unfold i64, two64. rewrite Z.mod_small; lia. Qed.

Lemma i64_fits x : limit_fits x -> i64 x = x.
Proof. unfold limit_fits. intros Hx. apply i64_small. lia. Qed.

Lemma verifyGasLimit_spec header parent :
  limit_fits (h_GasLimit header) -> limit_fits (h_GasLimit parent) ->
  verifyGasLimit header parent = None <->
  h_GasUsed header <= h_GasLimit header /\
  (h_Number header = 0 \/ Z.abs (h_GasLimit parent - h_GasLimit header) <= h_GasLimit parent / 1024).
Proof.
  intros Hc Hp. unfold verifyGasLimit, BlockGasTargetDivisor. rewrite (i64_fits (h_GasLimit parent)), (i64_fits (h_GasLimit header)) by done. unfold limit_fits in *.
  rewrite (i64_small (_ - _)) by lia.
  set (d := h_GasLimit parent - h_GasLimit header). set (diff := if d <? 0 then _ else _).
  assert (diff = Z.abs d) as ->.
  { unfold diff. destruct (d <? 0) eqn:E; [rewrite i64_small by (unfold d in *; lia)|]; lia. }
  rewrite u64_small by (unfold d, two64; lia).
  destruct (h_GasLimit header <? h_GasUsed header) eqn:E1; [split; [done|lia]|].
  destruct (h_Number header =? 0) eqn:E2; [split; [lia|done]|].
  destruct (h_GasLimit parent / 1024 <? Z.abs d) eqn:E3; split; try done; lia.
Qed.

(** A step goes towards the target, by at most the 1024th part. *)
Lemma calculateGasLimit_step target x :
  limit_fits target -> limit_fits x -> target <> 0 ->
  calculateGasLimit target x =
    if x <? target then Z.min target (x + x / 1024) else Z.max target (x - x / 1024).
Proof.
  intros Ht Hx Hne. unfold calculateGasLimit, BlockGasTargetDivisor, common_Min, common_Max, limit_fits in *.
  pose proof (Z.div_le_upper_bound x 1024 x). pose proof (Z.div_pos x 1024).
  assert (0 <= x / 1024 <= x) by lia.
  rewrite (u64_small (x * 1)), Z.mul_1_r by (unfold two64; lia).
  rewrite !u64_small by (unfold two64; lia).
  destruct (target =? 0) eqn:E0; [lia|].
  destruct (x =? target) eqn:E1; [assert (x = target) as -> by lia; rewrite Z.ltb_irrefl; lia|].
  destruct (x <? target) eqn:E2.
  - destruct (target <? x + x / 1024) eqn:E3; lia.
  - destruct (0 <? x - x / 1024) eqn:E3; [destruct (x - x / 1024 <? target) eqn:E4|destruct (0 <? target) eqn:E4]; lia.
Qed.

(** The gas limit a node computes for its own block passes the check of the other
    nodes, for every limit and target below 2^63; for such limits the check accepts a header
    exactly if its gas used is within its limit and, but for the genesis, its limit
    differs from the limit of the parent by at most the 1024th part of it. *)
Theorem gas_limit_accepted (target : Z) (header parent : Header) :
  limit_fits target -> limit_fits (h_GasLimit parent) -> limit_fits (h_GasLimit header) ->
  (h_GasLimit header = calculateGasLimit target (h_GasLimit parent) -> h_GasUsed header <= h_GasLimit header ->
   verifyGasLimit header parent = None) /\
  (verifyGasLimit header parent = None <->
   h_GasUsed header <= h_GasLimit header /\
   (h_Number header = 0 \/ Z.abs (h_GasLimit parent - h_GasLimit header) <= h_GasLimit parent / 1024)).
Proof.
  intros Ht Hp Hc. split; [|by apply verifyGasLimit_spec]. intros E Hu. apply verifyGasLimit_spec; [done..|].
  split; [done|]. right. rewrite E. unfold limit_fits in *. pose proof (Z.div_pos (h_GasLimit parent) 1024).
  destruct (decide (target = 0)) as [->|Hne].
  - unfold calculateGasLimit. cbn [Z.eqb]. lia.
  - rewrite calculateGasLimit_step by (done || (unfold limit_fits; lia)). destruct (_ <? target) eqn:E'; lia.
Qed.

Definition limit_after (target : Z) (n : nat) (x : Z) : Z := Nat.iter n (calculateGasLimit target) x.

Lemma limit_moves target x :
  1024 <= target < 2 ^ 63 -> 1024 <= x < 2 ^ 63 -> x <> target ->
  1024 <= calculateGasLimit target x < 2 ^ 63 /\ Z.abs (target - calculateGasLimit target x) < Z.abs (target - x).
Proof.
  intros Ht Hx Hne. rewrite calculateGasLimit_step by (unfold limit_fits; lia).
  pose proof (Z.div_le_lower_bound x 1024 1). pose proof (Z.div_le_upper_bound x 1024 x).
  destruct (x <? target) eqn:E; lia.
Qed.

(** The gas limit reaches the target: if both are at least 1024, after as many
    blocks as they differ, at most, the limit is the target and stays there. A limit below
    1024 never moves. *)
Theorem gas_limit_converges (target x : Z) :
  limit_fits target -> limit_fits x ->
  (1024 <= target -> 1024 <= x ->
   exists n, Z.of_nat n <= Z.abs (target - x) /\ forall m, (n <= m)%nat -> limit_after target m x = target) /\
  (x < 1024 -> forall m, limit_after target m x = x).
Proof.
  intros Ht Hx. unfold limit_fits in *. split.
  - intros Ht' Hx'. remember (Z.to_nat (Z.abs (target - x))) as k eqn:Hk. revert x Hx Hx' Hk.
    induction k as [k IH] using lt_wf_ind. intros x Hx Hx' Hk. destruct (decide (x = target)) as [->|Hne].
    { exists 0%nat. split; [lia|]. intros m _. induction m as [|m IHm]; [done|].
      change (limit_after target (Datatypes.S m) target) with (calculateGasLimit target (limit_after target m target)). rewrite IHm.
      unfold calculateGasLimit. destruct (target =? 0); [done|]. by rewrite Z.eqb_refl. }
    destruct (limit_moves target x ltac:(lia) ltac:(lia) Hne) as [Hb Hd].
    destruct (IH (Z.to_nat (Z.abs (target - calculateGasLimit target x))) ltac:(lia) (calculateGasLimit target x)
                ltac:(lia) ltac:(lia) eq_refl) as (n & Hn & Hm).
    exists (Datatypes.S n). split; [lia|]. intros [|m] Hle; [lia|]. unfold limit_after. rewrite Nat.iter_succ_r. apply Hm. lia.
  - intros Hs m. induction m as [|m IHm]; [done|].
    change (limit_after target (Datatypes.S m) x) with (calculateGasLimit target (limit_after target m x)). rewrite IHm.
    destruct (decide (target = 0)) as [->|Hne]; [done|]. rewrite calculateGasLimit_step by (unfold limit_fits; lia).
    rewrite Z.div_small by lia. destruct (x <? target) eqn:E; lia.
Qed.

Lemma gas_limit_accepted_witness :
  verifyGasLimit (mkHeader 0 0 [] 0 0 0 [] 1 1 5004 4000 0 [] 0 0 0) (mkHeader 0 0 [] 0 0 0 [] 1 0 5000 0 0 [] 0 0 0) = None.
Proof.
  refine (proj1 (gas_limit_accepted 30000 (mkHeader 0 0 [] 0 0 0 [] 1 1 5004 4000 0 [] 0 0 0)
    (mkHeader 0 0 [] 0 0 0 [] 1 0 5000 0 0 [] 0 0 0) _ _ _) _ _); (reflexivity || (unfold limit_fits; cbn; lia)).
Defined.

Lemma gas_limit_converges_witness : exists n, forall m, (n <= m)%nat -> limit_after 30000000 m 5000 = 30000000.
Proof.
  destruct (proj1 (gas_limit_converges 30000000 5000 ltac:(unfold limit_fits; lia) ltac:(unfold limit_fits; lia)) ltac:(lia) ltac:(lia)) as (n & _ & Hn).
  by exists n.
Defined.

(** * Verification of blocks

    The blocks of other nodes are accepted exactly when the header passes the consensus,
    links to a stored parent, and states the roots and the gas that executing the
    transactions on the state of the parent gives. *)
Local Open Scope go_scope.

Section Verify.
Context `{Fastrlp} `{!CodecLaws} `{!FastrlpLaws} `{HeaderHasher} `{TxSigner}.
Context {S T E : Type} `{BlockExecutor S T} `{Verifier E T}.
Context {CH CD CR : Type} `{LH : Lru Hash Header CH} `{LD : Lru Hash Z CD} `{LR : Lru Hash (list Receipt) CR}.
Context `{!LruLaws Hash Header CH} `{!LruLaws Hash Z CD} `{!LruLaws Hash (list Receipt) CR}.

Abbreviation Blockchain := (Blockchain S E CH CD CR).

(** The header links to its parent. *)
Record links (header parent : Header) : Prop := {
  lk_hash : h_ParentHash header = h_Hash parent /\ h_Hash parent <> ZeroHash;
  lk_number : h_Number header -u 1 = h_Number parent;
  lk_limit : verifyGasLimit header parent = None;
}.

(** Executing the block on the state of the parent gives what the header states. *)
Definition executes (s : S) (e : E) (block : Block) (parent : Header) (receipts : list Receipt) : Prop :=
  let header := b_Header block in
  CalculateUncleRoot (b_Uncles block) = h_Sha3Uncles header /\
  CalculateTransactionsRoot (b_Transactions block) = Some (h_TxRoot header) /\
  exists creator txn txn',
    GetBlockCreator (T := T) e header = Some creator /\
    ex_ProcessBlock s (h_StateRoot parent) block creator = Some txn /\
    PreCommitState e header txn = Some txn' /\
    fst (ex_Commit s txn') = h_StateRoot header /\ ex_TotalGas txn' = h_GasUsed header /\
    receipts = ex_Receipts txn' /\ length receipts = length (b_Transactions block) /\
    CalculateReceiptsRoot receipts = Some (h_ReceiptsRoot header).

Section Stored.
Context (U : Header -> Prop) (g : Header) (HU : universe U g).

Abbreviation readable := (readable (S := S) (E := E) (CH := CH) (CD := CD) (CR := CR) U g).

Lemma readHeader_eval x (b : Blockchain) :
  readable b -> word x ->
  exists o b', readHeader x b = Some (Ok o, b') /\ quiet b b' /\ readable b' /\
    match o with Some h => Stored U (bc_db b) h /\ h_Hash h = x | None => header_at (bc_db b) x = None end.
Proof using All.
  intros Hr Hx. assert (Hwp : cwp (readHeader x) (fun o b' => quiet b b' /\ readable b' /\
    match o with Some h => Stored U (bc_db b) h /\ h_Hash h = x | None => header_at (bc_db b) x = None end) (fun _ => False) b).
  { apply (cwp_readHeader U g HU); auto. }
  unfold cwp in Hwp. destruct (readHeader x b) as [[[o|] b']|]; [|done..]. by exists o, b'.
Qed.

Lemma readHeader_stored x (b : Blockchain) h :
  readable b -> Stored U (bc_db b) h -> h_Hash h = x ->
  exists b', readHeader x b = Some (Ok (Some h), b') /\ quiet b b' /\ readable b'.
Proof using All.
  intros Hr Hs <-. destruct (readHeader_eval (h_Hash h) b Hr (U_word U g HU h (proj1 Hs))) as (o & b' & E' & Hq & Hr' & Ho).
  exists b'. rewrite E'. destruct o as [h'|]; [|destruct Hs; congruence]. destruct Ho as [[Hu _] Eh].
  apply (u_inj _ _ HU) in Eh; [by subst|done|apply Hs].
Qed.

Lemma verifyBlockResult_spec br block (b : Blockchain) b' :
  verifyBlockResult br block b = Some (Ok tt, b') <->
  b' = b /\ length (br_Receipts br) = length (b_Transactions block) /\ br_Root br = h_StateRoot (b_Header block) /\
  br_TotalGas br = h_GasUsed (b_Header block) /\ CalculateReceiptsRoot (br_Receipts br) = Some (h_ReceiptsRoot (b_Header block)).
Proof using Type.
  unfold verifyBlockResult, throw. destruct (length (br_Receipts br) =? _)%nat eqn:E1; cbn [negb]; [|split; [done|intros (_&?&_); apply Nat.eqb_neq in E1; lia]].
  apply Nat.eqb_eq in E1.
  destruct (br_Root br =? _) eqn:E2; cbn [negb]; [|split; [done|lia]].
  destruct (br_TotalGas br =? _) eqn:E3; cbn [negb]; [|split; [done|lia]].
  unfold deref, mbind, M_bind, mret, M_ret, panic. destruct (CalculateReceiptsRoot (br_Receipts br)) as [root|]; [|split; [done|by intros (_&_&_&_&?)]].
  destruct (root =? _) eqn:E4; cbn [negb]; split; try done.
  - intros [= <-]. repeat split; [done|lia|lia|]. f_equal. lia.
  - by intros (-> & _).
  - intros (_&_&_&_&[= ?]). lia.
Qed.

Lemma executeBlockTransactions_spec block parent (b : Blockchain) r :
  readable b -> Stored U (bc_db b) parent -> h_Hash parent = h_ParentHash (b_Header block) ->
  (exists b', executeBlockTransactions (T := T) block b = Some (Ok r, b')) <->
  exists creator txn txn',
    GetBlockCreator (T := T) (bc_consensus b) (b_Header block) = Some creator /\
    ex_ProcessBlock (bc_state b) (h_StateRoot parent) block creator = Some txn /\
    PreCommitState (bc_consensus b) (b_Header block) txn = Some txn' /\
    r = mkBlockResult (fst (ex_Commit (bc_state b) txn')) (ex_Receipts txn') (ex_TotalGas txn').
Proof using All.
  intros Hr Hs Eh. destruct (readHeader_stored _ b parent Hr Hs Eh) as (b1 & E1 & (_ & _ & _ & _ & Ec & Es & _) & _).
  unfold executeBlockTransactions, mbind, M_bind. rewrite E1. unfold gets. rewrite Ec.
  destruct (GetBlockCreator _ _) as [creator|]; [|split; [by intros []|by intros (?&?&?&?&_)]]. rewrite Es.
  destruct (ex_ProcessBlock _ _ _ _) as [txn|] eqn:E2; [|split; [by intros []|intros (?&?&?&[= <-]&?&_); congruence]].
  destruct (PreCommitState _ _ _) as [txn'|] eqn:E3; [|split; [by intros []|intros (?&?&?&[= <-]&?&?&_); congruence]].
  destruct (ex_Commit _ _) as [root s'] eqn:E4. unfold modify, mret, M_ret. split.
  - intros (b' & [= <- _]). exists creator, txn, txn'. by rewrite E4.
  - intros (?&?&?&[= <-]&?&?&->). simplify_eq. rewrite E4. eauto.
Qed.

Lemma verifyBlockParent_spec block (b : Blockchain) :
  readable b -> word (h_ParentHash (b_Header block)) ->
  exists r b', verifyBlockParent block b = Some (r, b') /\ quiet b b' /\ readable b' /\
    (r = Ok tt <-> exists parent, Stored U (bc_db b) parent /\ links (b_Header block) parent).
Proof using All.
  intros Hr Hx. destruct (readHeader_eval _ b Hr Hx) as (o & b1 & E1 & Hq & Hr1 & Ho).
  unfold verifyBlockParent, b_ParentHash, mbind, M_bind. rewrite E1. unfold throw, check. destruct o as [p|].
  2: { eexists _, _. do 3 (split; [done|]). split; [done|]. intros (p & [_ Hp] & [[Eh _] _ _]). rewrite <- Eh in Hp. congruence. }
  destruct Ho as [Hs Eh].
  assert (Hp : forall p', Stored U (bc_db b) p' -> links (b_Header block) p' -> p' = p).
  { intros p' [Hu' _] [[Eh' _] _ _]. apply (u_inj _ _ HU); [done|apply Hs|congruence]. }
  destruct (h_Hash p =? ZeroHash) eqn:E2.
  { eexists _, _. do 3 (split; [done|]). split; [done|]. intros (p' & Hs' & Hl). pose proof (Hp p' Hs' Hl). subst p'.
    destruct Hl as [[_ ?] _ _]. lia. }
  rewrite Eh, Z.eqb_refl. cbn [negb].
  unfold b_Number. destruct (h_Number (b_Header block) -u 1 =? h_Number p) eqn:E3; cbn [negb].
  2: { eexists _, _. do 3 (split; [done|]). split; [done|]. intros (p' & Hs' & Hl). pose proof (Hp p' Hs' Hl). subst p'.
    destruct Hl as [_ ? _]. lia. }
  destruct (verifyGasLimit (b_Header block) p) as [err|] eqn:E4; eexists _, _; do 3 (split; [done|]).
  - split; [done|]. intros (p' & Hs' & Hl). pose proof (Hp p' Hs' Hl). subst p'. destruct Hl as [_ _ ?]. congruence.
  - split; [|done]. intros _. exists p. split; [done|]. split; [split; [by rewrite Eh|lia]|lia|done].
Qed.

Lemma verifyBlockBody_spec block parent (b : Blockchain) receipts :
  readable b -> Stored U (bc_db b) parent -> h_Hash parent = h_ParentHash (b_Header block) ->
  (exists b', verifyBlockBody (T := T) block b = Some (Ok receipts, b')) <->
  executes (bc_state b) (bc_consensus b) block parent receipts.
Proof using All.
  intros Hr Hs Eh. unfold verifyBlockBody, executes. unfold throw.
  destruct (CalculateUncleRoot _ =? _) eqn:E1; cbn [negb]; [|split; [by intros []|lia]].
  unfold deref, mbind, M_bind, mret, M_ret, panic.
  destruct (CalculateTransactionsRoot _) as [root|]; [|split; [by intros []|by intros (_&?&_)]].
  destruct (root =? _) eqn:E2; cbn [negb]; [|split; [by intros []|intros (_&[= ?]&_); lia]].
  split.
  - intros (b' & Hb'). destruct (executeBlockTransactions block b) as [[[r|] b1]|] eqn:E3; [|done..].
    destruct (verifyBlockResult r block b1) as [[[[]|] b2]|] eqn:E4; [|done..]. injection Hb' as <- _.
    apply verifyBlockResult_spec in E4 as (_ & El & Er & Eg & Ec).
    destruct (proj1 (executeBlockTransactions_spec block parent b r Hr Hs Eh)) as (c & t & t' & F1 & F2 & F3 & ->); [by exists b1|].
    cbn in *. repeat split; [lia|f_equal; lia|]. exists c, t, t'. repeat split; done.
  - intros (_ & _ & c & t & t' & F1 & F2 & F3 & Er & Eg & -> & El & Ec).
    set (r := mkBlockResult (fst (ex_Commit (bc_state b) t')) (ex_Receipts t') (ex_TotalGas t')).
    destruct (proj2 (executeBlockTransactions_spec block parent b r Hr Hs Eh)) as (b1 & ->); [by exists c, t, t'|].
    rewrite (proj2 (verifyBlockResult_spec r block b1 b1)) by done. by exists b1.
Qed.

End Stored.

(** C8. After any run, a finalized block with a parent hash of 32 bytes is accepted, with
    some receipts, exactly if the consensus accepts its header, its parent is stored, its
    number is the next and its gas limit within the bounds, and executing it on the state of
    the parent gives these receipts, one per transaction, and the state root, the gas and
    the roots of the header. *)
Theorem block_verification (U : Header -> Prop) (config : Genesis) (s : S) (e : E) (ops : list op) (b : Blockchain)
    (block : Block) (receipts : list Receipt) :
  let g := h_ComputeHash (GenesisHeader config) in
  universe U g -> g_Number config = 0 -> Forall U (ops ≫= op_headers) -> run (T := T) config s e ops = Some b ->
  word (h_ParentHash (b_Header block)) ->
  (exists b', VerifyFinalizedBlock (T := T) (Some block) b = Some (Ok (mkFullBlock block receipts), b')) <->
  VerifyHeader (T := T) (bc_consensus b) (b_Header block) = true /\
  exists parent, Stored U (bc_db b) parent /\ links (b_Header block) parent /\
    executes (bc_state b) (bc_consensus b) block parent receipts.
Proof.
  intros g HU Hz Hops Hrun Hx. destruct (run_inv U g HU config eq_refl Hz s e ops Hops) as (b0 & Hrun' & [Hr _]).
  assert (b0 = b) as -> by congruence. clear Hrun'.
  destruct (verifyBlockParent_spec U g HU block b Hr Hx) as (r & b1 & E1 & Hq & Hr1 & Hp).
  pose proof Hq as (Edb & _ & _ & _ & Ec & Es & _).
  assert (Hbody : forall parent, Stored U (bc_db b) parent -> links (b_Header block) parent ->
    (exists b', verifyBlockBody block b1 = Some (Ok receipts, b')) <-> executes (bc_state b) (bc_consensus b) block parent receipts).
  { intros parent Hs Hl. rewrite <- Ec, <- Es. apply (verifyBlockBody_spec U g HU); [done|by rewrite Edb|]. by destruct Hl as [[-> _] _ _]. }
  unfold VerifyFinalizedBlock, deref, gets, throw, verifyBlock, mbind, M_bind, mret, M_ret.
  destruct (VerifyHeader _ _); cbn [negb]; [|split; [by intros []|by intros []]]. rewrite E1. split.
  - intros (b' & Hb'). destruct r as [[]|]; [|done]. destruct (proj1 Hp eq_refl) as (parent & Hs & Hl). split; [done|].
    exists parent. repeat (split; [done|]). apply (Hbody parent Hs Hl).
    destruct (verifyBlockBody block b1) as [[[rr|] b2]|]; [|done..]. injection Hb' as -> _. by exists b2.
  - intros (_ & parent & Hs & Hl & Hex). rewrite (proj2 Hp) by (by exists parent).
    destruct (proj2 (Hbody parent Hs Hl) Hex) as (b2 & ->). by exists b2.
Qed.

End Verify.

Definition empty_block : Block :=
  mkBlock (mkHeader (h_Hash headG) EmptyUncleHash [] 4 EmptyRootHash EmptyRootHash (replicate BloomByteLength 0) 1 1 5000 21
    1600000000 [] 0 0 0) [] [].

Lemma empty_block_links : links (b_Header empty_block) headG.
Proof. split; [|by vm_compute..]. split; [done|by vm_compute]. Qed.

Lemma empty_block_executes s e :
  executes (T := Block * list Receipt) (S := Z) (E := Z) s e empty_block headG [].
Proof. split; [by vm_compute|]. split; [by vm_compute|]. exists 0, (empty_block, []), (empty_block, []). by vm_compute. Qed.

Lemma block_verification_witness :
  exists b b', sample_run reorg_ops = Some b /\
    VerifyFinalizedBlock (T := Block * list Receipt) (Some empty_block) b = Some (Ok (mkFullBlock empty_block []), b').
Proof.
  destruct (run_inv (T := Block * list Receipt) (CH := alist Header) (CD := alist Z) (CR := alist (list Receipt))
    (fun h => h ∈ sample_headers) headG sample_universe sample_config eq_refl eq_refl 0 0 reorg_ops reorg_ops_ok) as (b & Hb & Hi).
  destruct (proj2 (block_verification (T := Block * list Receipt) (CH := alist Header) (CD := alist Z) (CR := alist (list Receipt))
    (fun h => h ∈ sample_headers) sample_config 0 0 reorg_ops b empty_block [] sample_universe eq_refl reorg_ops_ok Hb
    (U_word _ _ sample_universe headG (u_genesis _ _ sample_universe)))) as (b' & Hb').
  - split; [reflexivity|]. exists headG. split; [|split; [apply empty_block_links|apply empty_block_executes]].
    exact (proj1 (di_genesis _ _ _ (proj1 (proj1 Hi)))).
  - exists b, b'. exact (conj Hb Hb').
Defined.
