(* ===== verification/BlockchainData.v ===== *)
(** * The chain as a list of blocks

    Blocks written one after the other over the genesis, with restarts of the node in
    between, are read back by number and by hash, with their receipts. *)

From S2P Require Import Prelude ChainTypes BigInt Runtime StateTxn Receipts Rlp ChainRlp StateLemmas TrieSample ChainRlpProps.
From S2P Require Import Trie Buildroot Storage Blockchain BlockchainInv BlockchainRun BlockchainProps BlockchainVerify.
Local Open Scope go_scope.

Section Data.
Context `{Fastrlp} `{!CodecLaws} `{!FastrlpLaws} `{HeaderHasher} `{TxSigner}.
Context {S T E : Type} `{BlockExecutor S T} `{Verifier E T}.
Context {CH CD CR : Type} `{LH : Lru Hash Header CH} `{LD : Lru Hash Z CD} `{LR : Lru Hash (list Receipt) CR}.
Context `{!LruLaws Hash Header CH} `{!LruLaws Hash Z CD} `{!LruLaws Hash (list Receipt) CR}.

Abbreviation Blockchain := (Blockchain S E CH CD CR).

(** A block to write, and the block with the senders of its transactions recovered. *)
Record storable (fb : FullBlock) (block : Block) : Prop := {
  st_header : b_Header block = b_Header (fb_Block fb) /\ b_Uncles block = b_Uncles (fb_Block fb);
  st_senders : recoverFromFields (b_Transactions (fb_Block fb)) = Some (b_Transactions block);
  st_txs : Forall (fun t => tx_fits t /\ ComputeHash t = t /\ (From t <> ZeroAddress \/ TxType t = StateTx)) (b_Transactions block);
  st_uncles : Forall (fun h => header_ok h /\ h_ComputeHash h = h) (b_Uncles block);
  st_receipts : Forall receipt_fits (fb_Receipts fb);
}.

Fixpoint linked (p : Header) (l : list Header) : Prop :=
  match l with [] => True | h :: l => h_ParentHash h = h_Hash p /\ linked h l end.

(** Runs that write full blocks and restart the node. *)
Inductive writes : list (op (S := S) (E := E)) -> list FullBlock -> Prop :=
  | writes_nil : writes [] []
  | writes_block fb ops l : writes ops l -> writes (OpFullBlock fb :: ops) (fb :: l)
  | writes_restart s e ops l : writes ops l -> writes (OpRestart s e :: ops) l.

(** ** Records of a block *)

Record stored_block (db : KV) (fb : FullBlock) (block : Block) : Prop := {
  sb_header : header_at db (b_Hash block) = Some (header_MarshalRLP (b_Header block));
  sb_canonical : ReadCanonicalHash db (b_Number block) = Some (b_Hash block);
  sb_body : ReadBody db (b_Hash block) = Some (Ok (b_Body block));
  sb_receipts : ReadReceipts db (b_Hash block) = Some (Ok (fb_Receipts fb));
  sb_lookup t : t ∈ b_Transactions block -> ReadTxLookup db (TxHash t) = Some (b_Hash block);
}.

Lemma TxHash_word t : ComputeHash t = t -> word (TxHash t).
Proof using All. intros <-. apply keccak_word. Qed.

Lemma lookups_read (txs : list Transaction) x db y :
  Forall (fun t => word (TxHash t)) txs -> word x -> word y ->
  ReadTxLookup (fold_left (fun db tx => WriteTxLookup db (TxHash tx) x) txs db) y =
  if decide (y ∈ TxHash <$> txs) then Some x else ReadTxLookup db y.
Proof using All.
  intros Hw Hx Hy. revert db. induction Hw as [|t txs Ht _ IH]; intros db; cbn [fold_left].
  - case_decide as E'; [by inversion E'|done].
  - rewrite IH, ReadTxLookup_write, fmap_cons by done. case_decide as E1.
    + by rewrite decide_True by (by apply list_elem_of_further).
    + case_decide as E2.
      * subst y. by rewrite decide_True by apply list_elem_of_here.
      * rewrite decide_False; [done|]. by intros [?|?]%elem_of_cons.
Qed.

Lemma lookups_other (txs : list Transaction) x db :
  let db' := fold_left (fun db tx => WriteTxLookup db (TxHash tx) x) txs db in
  (forall y, ReadBody db' y = ReadBody db y) /\ (forall y, ReadReceipts db' y = ReadReceipts db y).
Proof using Type.
  revert db. induction txs as [|t txs IH]; intros db; cbn [fold_left]; [done|].
  destruct (IH (WriteTxLookup db (TxHash t) x)) as [Eb Er]. split; intros y.
  - rewrite Eb. kv_skip.
  - rewrite Er. kv_skip.
Qed.

(** The database after a block. *)
Definition block_db (db : KV) (fb : FullBlock) (block : Block) (td : Z) : KV :=
  WriteReceipts
    (WriteCanonicalHeader
       (fold_left (fun db tx => WriteTxLookup db (TxHash tx) (b_Hash block)) (b_Transactions block) (WriteBody db (b_Hash block) (b_Body block)))
       (b_Header block) td)
    (b_Hash block) (fb_Receipts fb).

(** The records after a header and receipts are written. *)
Lemma header_receipts_reads db h td rr :
  word (h_Hash h) -> is_u64 (h_Number h) ->
  let db' := WriteReceipts (WriteCanonicalHeader db h td) (h_Hash h) rr in
  (forall x, word x -> header_at db' x = if decide (h_Hash h = x) then Some (header_MarshalRLP h) else header_at db x) /\
  (forall n, is_u64 n -> ReadCanonicalHash db' n = if decide (h_Number h = n) then Some (h_Hash h) else ReadCanonicalHash db n) /\
  (forall x, ReadBody db' x = ReadBody db x) /\
  (forall x, word x -> x <> h_Hash h -> ReadReceipts db' x = ReadReceipts db x) /\
  (forall x, ReadTxLookup db' x = ReadTxLookup db x).
Proof using All.
  intros Hw Hn db'. unfold db', WriteCanonicalHeader. split; [|split; [|split; [|split]]].
  - intros x Hx. transitivity (header_at (WriteHeader db h) x); [kv_skip|by rewrite header_at_write].
  - intros n Hn'. set (db1 := WriteHeader db h). set (db2 := WriteHeadNumber (WriteHeadHash db1 (h_Hash h)) (h_Number h)).
    transitivity (ReadCanonicalHash (WriteCanonicalHash db2 (h_Number h) (h_Hash h)) n); [kv_skip|].
    rewrite ReadCanonicalHash_write by done. case_decide; [done|]. unfold db2, db1. kv_skip.
  - intros x. kv_skip.
  - intros x Hx Hne. rewrite ReadReceipts_other by done. kv_skip.
  - intros x. kv_skip.
Qed.

Section Block.
Context (db : KV) (fb : FullBlock) (block : Block) (td : Z).
Context (Hst : storable fb block) (Hw : word (b_Hash block)) (Hn : is_u64 (b_Number block)).

Lemma block_db_new : stored_block (block_db db fb block td) fb block.
Proof using All.
  destruct Hst as [_ _ Htx Hun Hrr]. unfold block_db. set (db1 := WriteBody _ _ _).
  destruct (lookups_other (b_Transactions block) (b_Hash block) db1) as [Lb Lr].
  pose proof (lookups_read (b_Transactions block) (b_Hash block) db1) as Ll. set (db2 := fold_left _ _ db1) in *.
  destruct (header_receipts_reads db2 (b_Header block) td (fb_Receipts fb) Hw Hn) as (Eh & Ec & Eb & Er & El).
  split.
  - rewrite Eh by done. by rewrite decide_True.
  - unfold b_Number. rewrite Ec by done. by rewrite decide_True.
  - rewrite Eb, Lb. unfold db1. rewrite ReadBody_write.
    + do 2 f_equal. unfold b_Body. cbn. f_equal.
      * rewrite <- list_fmap_id. apply list_fmap_ext. intros i t Ht.
        by apply (Forall_lookup_1 _ _ _ _ Htx Ht).
      * rewrite <- list_fmap_id. apply list_fmap_ext. intros i t Ht.
        by apply (Forall_lookup_1 _ _ _ _ Hun Ht).
    + split; [eapply Forall_impl; [exact Htx|by intros ? [? _]]|eapply Forall_impl; [exact Hun|by intros ? [? _]]].
  - by apply ReadReceipts_write.
  - intros t Ht. rewrite El, Ll; [|eapply Forall_impl; [exact Htx|]|done|].
    + rewrite decide_True; [done|]. apply list_elem_of_fmap. by exists t.
    + intros t' (_ & ? & _). by apply TxHash_word.
    + rewrite Forall_forall in Htx. by apply TxHash_word, Htx.
Qed.

Lemma block_db_old fb' block' :
  stored_block db fb' block' -> Forall (fun t => ComputeHash t = t) (b_Transactions block') ->
  word (b_Hash block') -> is_u64 (b_Number block') -> b_Hash block' <> b_Hash block -> b_Number block' <> b_Number block ->
  (forall t t', t ∈ b_Transactions block -> t' ∈ b_Transactions block' -> TxHash t <> TxHash t') ->
  stored_block (block_db db fb block td) fb' block'.
Proof using All.
  intros [Oh Oc Ob Or Ol] Htx' Hw' Hn' Hneh Hnen Hnet. destruct Hst as [_ _ Htx _ _]. unfold block_db.
  destruct (lookups_other (b_Transactions block) (b_Hash block) (WriteBody db (b_Hash block) (b_Body block))) as [Lb Lr].
  pose proof (lookups_read (b_Transactions block) (b_Hash block) (WriteBody db (b_Hash block) (b_Body block))) as Ll.
  pose proof (WriteTxLookups_same (b_Transactions block) (b_Hash block) (WriteBody db (b_Hash block) (b_Body block))) as [[Sh _] _ Sc _].
  pose proof (WriteBody_same db (b_Hash block) (b_Body block)) as [[Bh _] _ Bc _].
  set (db2 := fold_left _ _ _) in *.
  destruct (header_receipts_reads db2 (b_Header block) td (fb_Receipts fb) Hw Hn) as (Eh & Ec & Eb & Er & El).
  split.
  - rewrite Eh by done. rewrite decide_False by (by apply not_eq_sym). by rewrite Sh, Bh.
  - rewrite Ec by done. rewrite decide_False by (by apply not_eq_sym). by rewrite Sc, Bc.
  - rewrite Eb, Lb. by rewrite ReadBody_other.
  - rewrite Er, Lr by done. rewrite <- Or. kv_skip.
  - intros t' Ht'. rewrite Forall_forall in Htx'. assert (word (TxHash t')) by (by apply TxHash_word, Htx').
    rewrite El, Ll; [|eapply Forall_impl; [exact Htx|]; intros t (_ & ? & _); by apply TxHash_word|done|done].
    rewrite decide_False; [rewrite <- (Ol t' Ht'); kv_skip|]. intros (t & ? & ?)%list_elem_of_fmap. by eapply Hnet.
Qed.

End Block.

(** ** Writing the blocks *)

Section Writes.
Context (U : Header -> Prop) (g : Header) (HU : universe U g).

Abbreviation inv := (chain_inv (S := S) (E := E) (CH := CH) (CD := CD) (CR := CR) U g).

Definition header_of (x : FullBlock * Block) : Header := b_Header (snd x).

(** The conditions on the blocks of a chain. *)
Record chain_ok (l : list (FullBlock * Block)) : Prop := {
  ck_universe x : x ∈ l -> U (header_of x);
  ck_linked : linked g (header_of <$> l);
  ck_storable x : x ∈ l -> storable (fst x) (snd x);
  ck_hashes : NoDup (TxHash <$> (l ≫= fun x => b_Transactions (snd x)));
  ck_accepted x (e : E) : x ∈ l -> fst (ProcessHeaders (T := T) e [header_of x]) = true;
}.

Definition tip (l : list (FullBlock * Block)) : Header := default g (header_of <$> last l).

Record rep (b : Blockchain) (l : list (FullBlock * Block)) : Prop := {
  rep_inv : inv b;
  rep_head : currentHeader b = Some (tip l);
  rep_stored x : x ∈ l -> stored_block (bc_db b) (fst x) (snd x) /\ h_Number (header_of x) <= h_Number (tip l);
}.

Lemma linked_app p l h : linked p (l ++ [h]) -> linked p l /\ h_ParentHash h = h_Hash (default p (last l)).
Proof using Type.
  revert p. induction l as [|h' l IH]; intros p; cbn [app linked]; [by intros [? _]|]. intros [? Hl].
  apply IH in Hl as [? E']. split; [done|]. rewrite E'. rewrite last_cons. by destruct (last l).
Qed.

Lemma chain_ok_app l x :
  chain_ok (l ++ [x]) ->
  chain_ok l /\ U (header_of x) /\ h_ParentHash (header_of x) = h_Hash (tip l) /\ storable (fst x) (snd x) /\
  (forall e, fst (ProcessHeaders (T := T) e [header_of x]) = true) /\
  (forall y t t', y ∈ l -> t ∈ b_Transactions (snd x) -> t' ∈ b_Transactions (snd y) -> TxHash t <> TxHash t').
Proof using Type.
  intros [Hu Hl Hs Hn Ha]. assert (Hx : x ∈ l ++ [x]) by (apply elem_of_app; right; apply list_elem_of_here).
  rewrite fmap_app in Hl. apply linked_app in Hl as [Hl Hp].
  rewrite bind_app, fmap_app in Hn. apply NoDup_app in Hn as (Hn & Hd & _).
  split; [split|]; [intros y Hy; apply Hu, elem_of_app; by left|done|intros y Hy; apply Hs, elem_of_app; by left|done|intros y e Hy; apply Ha, elem_of_app; by left|].
  split; [by apply Hu|]. split; [rewrite Hp; f_equal; unfold tip; by rewrite fmap_last|]. split; [by apply Hs|].
  split; [intros e; by apply Ha|]. intros y t t' Hy Ht Ht' E'. apply (Hd (TxHash t')).
  - apply list_elem_of_fmap. exists t'. split; [done|]. apply list_elem_of_bind. by exists y.
  - apply list_elem_of_fmap. exists t. split; [done|]. apply list_elem_of_bind. exists x. split; [done|apply list_elem_of_here].
Qed.

Lemma tip_app l x : tip (l ++ [x]) = header_of x.
Proof using Type. unfold tip. by rewrite last_snoc. Qed.

(** What a write of a block at the tip does. *)
Lemma cwp_WriteFullBlock_tip l x b R :
  chain_ok (l ++ [x]) -> rep b l ->
  cwp (WriteFullBlock (T := T) (fst x))
    (fun _ b' => inv b' /\ currentHeader b' = Some (header_of x) /\ exists td, bc_db b' = block_db (bc_db b) (fst x) (snd x) td) R b.
Proof using All.
  intros Hok [Hi Ehead Hstored]. destruct x as [fb block]. destruct (chain_ok_app _ _ Hok) as (_ & Hu & Hp & Hst & Hacc & _).
  cbn [fst snd] in *. unfold header_of in *. cbn [snd] in *.
  destruct Hst as [[Eh Eu] Esend Htx Hun Hrr].
  pose proof Hi as (Hr & c & dc & Ec & Ed & Hk & _). assert (c = tip l) as -> by congruence.
  assert (Hne : b_Header block <> g).
  { intros Eg. rewrite Eg, (u_parent _ _ HU) in Hp. destruct (u_ok _ _ HU (tip l) (proj1 (proj1 Hk))) as (_ & _ & ?). congruence. }
  pose proof (u_number _ _ HU _ _ Hu (proj1 (proj1 Hk)) Hne Hp) as Hnum.
  unfold WriteFullBlock, write_block. apply cwp_bind, cwp_gets. rewrite Ec. apply cwp_bind, cwp_ret.
  unfold b_Number. rewrite <- Eh. replace (_ <=? _) with false by lia.
  apply cwp_bind. unfold writeBody, recoverFromFieldsInBlock. rewrite Esend, <- Eh, <- Eu.
  apply cwp_bind, cwp_ret, cwp_bind, cwp_write, cwp_bind, cwp_write, cwp_ret. cbn [b_Transactions bc_db set_db].
  replace (mkBlock (b_Header block) (b_Transactions block) (b_Uncles block)) with block by (by destruct block).
  set (db2 := fold_left _ _ _). set (b2 := set_db db2 _).
  assert (Hi2 : inv b2).
  { apply (inv_same U g HU (set_db _ b)); [|apply WriteTxLookups_same]. apply (inv_same U g HU); [done|apply WriteBody_same]. }
  apply cwp_bind. unfold writeHeaderImpl. apply cwp_bind, cwp_gets. cbn [b2 set_db currentHeader]. rewrite Ec.
  apply cwp_bind, cwp_ret. rewrite Hp, Z.eqb_refl.
  eapply (cwp_writeCanonicalHeader U g HU _ _ (tip l) dc); [exact Hi2|done|done|done|done|].
  intros b3 Hi3 Ec3 _ Edb3 Econ. apply cwp_bind, cwp_ret, cwp_bind, cwp_write, cwp_bind, cwp_gets.
  pose proof (Hacc (bc_consensus b3)) as Ha. cbn [set_db bc_consensus].
  destruct (ProcessHeaders _ _) as [ok c']. cbn in Ha. subst ok. apply cwp_bind, cwp_modify. cbn [negb].
  set (b4 := set_consensus _ _).
  assert (Hi4 : inv b4) by (apply (inv_same U g HU b3); [done|apply WriteReceipts_same]).
  apply cwp_bind, cwp_modify, cwp_bind, cwp_modify, cwp_bind.
  eapply cwp_mono; [apply (cwp_GetHeaderByNumber U g HU _ _ R); [exact Hi4|apply u64_range]| |done].
  intros o b5 [(Edb & Ehd & _) Hi5]. apply cwp_ret. split; [done|]. split; [by rewrite Ehd|].
  eexists. rewrite Edb. cbn [bc_db b4 set_consensus set_db set_average dispatchEvent]. rewrite Edb3. reflexivity.
Qed.

Lemma rep_step config l x b :
  chain_ok (l ++ [x]) -> rep b l -> exists b', step (T := T) config (OpFullBlock (fst x)) b = Some b' /\ rep b' (l ++ [x]).
Proof using All.
  intros Hok Hrep. destruct (chain_ok_app _ _ Hok) as (Hok' & Hu & Hp & Hst & _ & Hnew).
  pose proof Hrep as [(Hr & c & dc & Ec & _ & Hk & _) Ehead Hstored]. assert (c = tip l) as -> by congruence.
  assert (Hne : header_of x <> g).
  { intros Eg. rewrite Eg, (u_parent _ _ HU) in Hp. destruct (u_ok _ _ HU (tip l) (proj1 (proj1 Hk))) as (_ & _ & ?). congruence. }
  pose proof (u_number _ _ HU _ _ Hu (proj1 (proj1 Hk)) Hne Hp) as Hnum.
  unfold step. apply cwp_snd. eapply cwp_mono; [apply (cwp_WriteFullBlock_tip l x b (fun _ => False)); done| |done].
  intros _ b' (Hi' & Ehd & td & Edb). split; [done|by rewrite tip_app|].
  intros y Hy. rewrite tip_app, Edb. apply elem_of_app in Hy as [Hy|Hy%list_elem_of_singleton].
  - destruct (Hstored y Hy) as [Hsb Hle]. split; [|lia].
    pose proof (ck_universe _ Hok' y Hy) as Huy. apply block_db_old; [done|by apply (U_word U g HU)|by apply (U_number U g HU)|done| | | | | |].
    + destruct (ck_storable _ Hok' y Hy) as [_ _ Htx _ _]. eapply Forall_impl; [exact Htx|by intros ? (_ & ? & _)].
    + by apply (U_word U g HU).
    + by apply (U_number U g HU).
    + intros Eh. apply (u_inj _ _ HU) in Eh; [|done..]. unfold header_of in *. rewrite Eh in Hle. lia.
    + unfold b_Number, header_of in *. lia.
    + intros t t' Ht Ht'. by apply (Hnew y).
  - subst y. split; [|lia]. apply block_db_new; [done|by apply (U_word U g HU)|by apply (U_number U g HU)].
Qed.

Lemma rep_restart config l b s e :
  h_ComputeHash (GenesisHeader config) = g -> g_Number config = 0 -> rep b l ->
  exists b', step (T := T) config (OpRestart s e) b = Some b' /\ rep b' l.
Proof using All.
  intros Hc Hz [Hi Eh Hs]. unfold step. apply cwp_snd.
  eapply cwp_mono; [by apply (cwp_ComputeGenesis_restart U g HU config Hc Hz b s e (fun _ => False))| |done].
  intros _ b' (Hi' & Edb & Ehd & _). split; [done|congruence|by rewrite Edb].
Qed.

Lemma rep_steps config ops l' l b :
  h_ComputeHash (GenesisHeader config) = g -> g_Number config = 0 ->
  writes ops (fst <$> l') -> chain_ok (l ++ l') -> rep b l -> exists b', steps (T := T) config ops b = Some b' /\ rep b' (l ++ l').
Proof using All.
  intros Hc Hz Hw. remember (fst <$> l') as fbs eqn:Ef. revert l' l b Ef.
  induction Hw as [|fb ops fbs Hw IH|s e ops fbs Hw IH]; intros l' l b Ef Hok Hrep; cbn [steps].
  - symmetry in Ef. apply fmap_nil_inv in Ef as ->. rewrite app_nil_r. by exists b.
  - destruct l' as [|x l']; [done|]. cbn in Ef. injection Ef as -> ->. rewrite cons_middle, (assoc_L (++)) in Hok.
    assert (Hok1 : chain_ok (l ++ [x])).
    { destruct Hok as [Hu Hl Hs Hn Ha]. split.
      - intros y Hy. apply Hu, elem_of_app. by left.
      - rewrite fmap_app in Hl. clear -Hl. revert Hl. generalize g. induction (header_of <$> l ++ [x]); [done|]. intros p [? ?]. by split; [|eauto].
      - intros y Hy. apply Hs, elem_of_app. by left.
      - rewrite bind_app, fmap_app in Hn. by apply NoDup_app in Hn as (? & _).
      - intros y e Hy. apply Ha, elem_of_app. by left. }
    destruct (rep_step config l x b Hok1 Hrep) as (b1 & -> & Hrep1).
    destruct (IH l' (l ++ [x]) b1 eq_refl Hok Hrep1) as (b' & E' & Hrep'). exists b'. split; [done|].
    by rewrite cons_middle, (assoc_L (++)).
  - destruct (rep_restart config l b s e Hc Hz Hrep) as (b1 & -> & Hrep1). by apply (IH l' l b1).
Qed.

(** ** Reading the blocks *)

Lemma senders_kept (txs : list Transaction) :
  Forall (fun t => From t <> ZeroAddress \/ TxType t = StateTx) txs -> recoverFromFieldsInTransactions txs = (txs, false).
Proof using Type.
  induction 1 as [|t txs Ht _ IH]; [done|]. unfold recoverFromFieldsInTransactions in *. cbn [fmap list_fmap existsb].
  injection IH as E1 E2. rewrite E1, E2. cbn. replace (negb (From t =? ZeroAddress) || (TxType t =? StateTx)) with true by lia. done.
Qed.

Lemma linked_next p hs k h h' : linked p hs -> (p :: hs) !! k = Some h -> hs !! k = Some h' -> h_ParentHash h' = h_Hash h.
Proof using Type.
  revert p k. induction hs as [|h0 hs IH]; intros p k Hl Hh Hh'; [done|]. destruct Hl as [E' Hl].
  destruct k as [|k]; cbn in *; [congruence|]. by apply (IH h0 k).
Qed.

Section Chain.
Context (l : list (FullBlock * Block)) (Hok : chain_ok l) (Hzero : h_Number g = 0).

(** The headers by number. *)
Definition headers : list Header := g :: (header_of <$> l).

Lemma headers_U k h : headers !! k = Some h -> U h.
Proof using All.
  destruct k as [|k]; [intros [= <-]; apply HU|]. change ((header_of <$> l) !! k = Some h -> U h). rewrite list_lookup_fmap. destruct (l !! k) as [x|] eqn:E'; [|done].
  intros [= <-]. apply (ck_universe _ Hok). by eapply list_elem_of_lookup_2.
Qed.

Lemma headers_number k h : headers !! k = Some h -> h_Number h = Z.of_nat k.
Proof using All.
  revert h. induction k as [|k IH]; intros h Hh; [cbn in Hh; injection Hh as <-; lia|].
  destruct (headers !! k) as [p|] eqn:Ep; [|apply lookup_ge_None in Ep; apply lookup_lt_Some in Hh; lia].
  pose proof (linked_next _ _ k p h (ck_linked _ Hok) Ep Hh) as Hpar. specialize (IH p eq_refl).
  pose proof (headers_U _ _ Ep) as Hup. pose proof (headers_U _ _ Hh) as Huh.
  rewrite (u_number _ _ HU h p Huh Hup); [lia| |done]. intros ->. rewrite (u_parent _ _ HU) in Hpar.
  destruct (u_ok _ _ HU p Hup) as (_ & _ & ?). congruence.
Qed.

Lemma headers_Stored b k h : rep b l -> headers !! k = Some h -> Stored U (bc_db b) h.
Proof using All.
  intros [Hi Eh Hs] Hk. destruct k as [|k].
  - injection Hk as <-. apply (di_genesis _ _ _ (proj1 (proj1 Hi))).
  - split; [by apply (headers_U (Datatypes.S k))|]. change ((header_of <$> l) !! k = Some h) in Hk.
    rewrite list_lookup_fmap in Hk. destruct (l !! k) as [x|] eqn:E'; [|done].
    injection Hk as <-. apply Hs. by eapply list_elem_of_lookup_2.
Qed.

Lemma GetBlockByHash_stored x b :
  rep b l -> x ∈ l -> fst <$> GetBlockByHash (b_Hash (snd x)) true b = Some (Ok (Some (snd x), true)).
Proof using All.
  intros Hrep Hx. pose proof Hrep as [Hi Eh Hs]. destruct (Hs x Hx) as [[Sh Sc Sb Sr Sl] _].
  pose proof (ck_universe _ Hok x Hx) as Hu. destruct (ck_storable _ Hok x Hx) as [_ _ Htx _ _].
  apply list_elem_of_lookup_1 in Hx as [k Hk].
  assert (Hn : h_Number (header_of x) = Z.of_nat (Datatypes.S k)).
  { apply headers_number. change ((header_of <$> l) !! k = Some (header_of x)). by rewrite list_lookup_fmap, Hk. }
  destruct (readHeader_stored U g HU (b_Hash (snd x)) b (header_of x) (proj1 Hi) (conj Hu Sh) eq_refl) as (b1 & E1 & (Edb & _) & _).
  unfold GetBlockByHash, mbind, M_bind. rewrite E1. cbn [negb orb]. replace (h_Number (header_of x) =? 0) with false by lia.
  unfold readBody, stored, mbind, M_bind. rewrite Edb, Sb. unfold b_Body. cbn [body_Transactions body_Uncles].
  rewrite senders_kept by (eapply Forall_impl; [exact Htx|by intros ? (_ & _ & ?)]).
  unfold mret, M_ret. destruct x as [fb blk]. by destruct blk.
Qed.

Lemma GetBlockByNumber_stored x b :
  rep b l -> x ∈ l -> fst <$> GetBlockByNumber (b_Number (snd x)) true b = Some (Ok (Some (snd x), true)).
Proof using All.
  intros Hrep Hx. rewrite <- (GetBlockByHash_stored x b Hrep Hx). pose proof Hrep as [Hi Eh Hs]. destruct (Hs x Hx) as [[Sh Sc Sb Sr Sl] _].
  unfold GetBlockByNumber, mbind, M_bind, gets. rewrite Sc. apply list_elem_of_lookup_1 in Hx as [k Hk].
  assert (Hn : h_Number (header_of x) = Z.of_nat (Datatypes.S k)).
  { apply headers_number. change ((header_of <$> l) !! k = Some (header_of x)). by rewrite list_lookup_fmap, Hk. }
  unfold b_Number, header_of in *. by replace (h_Number (b_Header (snd x)) =? 0) with false by lia.
Qed.

Lemma hash_loop_stored fuel n i hn hi (b : Blockchain) :
  readable U g b -> (forall k h, headers !! k = Some h -> Stored U (bc_db b) h) ->
  headers !! n = Some hn -> headers !! i = Some hi -> (i <= n < fuel)%nat ->
  fst <$> hash_loop fuel (Z.of_nat i) (Z.of_nat n) (h_Hash hn) b = Some (Ok (h_Hash hi)).
Proof using All.
  revert n hn b. induction fuel as [|fuel IH]; intros n hn b Hr Hs Hn Hi Hle; [lia|]. cbn [hash_loop].
  destruct (Z.of_nat n =? Z.of_nat i) eqn:E'; [assert (n = i) by lia; by simplify_eq|].
  destruct (readHeader_stored U g HU _ b hn Hr (Hs _ _ Hn) eq_refl) as (b1 & E1 & (Edb & _) & Hr1).
  unfold mbind, M_bind. rewrite E1. assert (n <> 0%nat /\ n <> i) as [? Hni] by lia. clear E'. replace (Z.of_nat n =? 0) with false by lia. destruct n as [|n]; [done|].
  destruct (headers !! n) as [p|] eqn:Ep; [|apply lookup_ge_None in Ep; apply lookup_lt_Some in Hn; lia].
  rewrite (linked_next _ _ n p hn (ck_linked _ Hok) Ep Hn).
  pose proof (headers_number _ _ Hn) as Hnum. pose proof (U_number U g HU hn (headers_U _ _ Hn)) as Hb. unfold is_u64 in Hb.
  rewrite u64_small by lia. replace (Z.of_nat (Datatypes.S n) - 1) with (Z.of_nat n) by lia.
  apply IH; [done|by rewrite Edb|done|done|lia].
Qed.

Lemma GetHashHelper_stored b j i hj hi :
  rep b l -> headers !! j = Some hj -> headers !! i = Some hi -> (i < j)%nat ->
  fst <$> GetHashHelper hj (Z.of_nat i) b = Some (Ok (h_Hash hi)).
Proof using All.
  intros Hrep Hj Hi Hlt. destruct j as [|j]; [lia|].
  destruct (headers !! j) as [p|] eqn:Ep; [|apply lookup_ge_None in Ep; apply lookup_lt_Some in Hj; lia].
  unfold GetHashHelper. rewrite (headers_number _ _ Hj), (linked_next _ _ j p hj (ck_linked _ Hok) Ep Hj).
  pose proof (headers_number _ _ Hj) as Hnum. pose proof (U_number U g HU hj (headers_U _ _ Hj)) as Hb. unfold is_u64 in Hb.
  rewrite u64_small by lia. replace (Z.of_nat (Datatypes.S j) - 1) with (Z.of_nat j) by lia. rewrite Nat2Z.id.
  apply (hash_loop_stored _ j i p hi); [apply (rep_inv _ _ Hrep)|intros; by eapply headers_Stored|done|done|lia].
Qed.

Lemma headers_difficulty b k h d :
  rep b l -> headers !! k = Some h -> Known U (bc_db b) h d -> d = zsum (h_Difficulty <$> take (Datatypes.S k) headers).
Proof using All.
  intros Hrep. pose proof (proj1 (proj1 (rep_inv _ _ Hrep))) as Hdb. revert h d. induction k as [|k IH]; intros h d Hh Hk.
  - injection Hh as <-. rewrite (known_fun _ _ _ _ _ Hk (di_genesis _ _ _ Hdb)). unfold zsum, headers. cbn. rewrite take_0. cbn. lia.
  - rewrite (take_S_r _ _ _ Hh), fmap_app. change (h_Difficulty <$> [h]) with [h_Difficulty h]. rewrite zsum_app, zsum_cons.
    destruct (headers !! k) as [p|] eqn:Ep; [|apply lookup_ge_None in Ep; apply lookup_lt_Some in Hh; lia].
    pose proof (linked_next _ _ k p h (ck_linked _ Hok) Ep Hh) as Hpar.
    destruct (known_inv U g HU _ _ _ Hdb Hk) as [[-> _]|(_ & p' & dp & Hp' & E' & -> & _)].
    + rewrite (u_parent _ _ HU) in Hpar. destruct (u_ok _ _ HU p (headers_U _ _ Ep)) as (_ & _ & ?). congruence.
    + rewrite Hpar in E'. apply (u_inj _ _ HU) in E'; [|apply Hp'|by eapply headers_U]. subst p'. rewrite (IH p dp) by done. cbn [zsum foldr]. lia.
Qed.

Lemma tip_headers : headers !! length l = Some (tip l).
Proof using Type.
  clear Hok. unfold headers, tip. destruct l as [|x l' _] using rev_ind; [done|]. rewrite length_app, last_snoc. cbn [length].
  rewrite Nat.add_1_r. change ((header_of <$> l' ++ [x]) !! length l' = Some (header_of x)).
  rewrite list_lookup_fmap, lookup_app_r by lia. by rewrite Nat.sub_diag.
Qed.

End Chain.

End Writes.

(** C7. Blocks linked one after the other over the genesis, written with their receipts
    and with restarts of the node anywhere in between, are all accepted; afterwards the
    last one is the head with the sum of the difficulties, every block is read back by its
    number and by its hash, with the senders recovered, its receipts by its hash and its
    hash by its transactions, and the hash of every earlier block is found from a later
    header. *)
Theorem chain_database (U : Header -> Prop) (config : Genesis) (s : S) (e : E) (ops : list op) (l : list (FullBlock * Block)) :
  let g := h_ComputeHash (GenesisHeader config) in
  universe U g -> g_Number config = 0 -> writes ops (fst <$> l) -> chain_ok U g l ->
  exists b, run (T := T) config s e ops = Some b /\
    currentHeader b = Some (tip g l) /\ currentDifficulty b = Some (zsum (h_Difficulty <$> headers g l)) /\
    (forall fb block, (fb, block) ∈ l ->
       fst <$> GetBlockByNumber (b_Number block) true b = Some (Ok (Some block, true)) /\
       fst <$> GetBlockByHash (b_Hash block) true b = Some (Ok (Some block, true)) /\
       GetReceiptsByHash (b_Hash block) b = Some (Ok (fb_Receipts fb)) /\
       forall t, t ∈ b_Transactions block -> ReadTxLookup (bc_db b) (TxHash t) = Some (b_Hash block)) /\
    (forall j i hj hi, headers g l !! j = Some hj -> headers g l !! i = Some hi -> (i < j)%nat ->
       fst <$> GetHashHelper hj (Z.of_nat i) b = Some (Ok (h_Hash hi))).
Proof.
  intros g HU Hz Hw Hok. assert (Hg0 : h_Number g = 0) by exact Hz.
  destruct (cwp_snd (ComputeGenesis config) (NewBlockchain [] s e) (fun b : Blockchain => rep U g b [])) as (b0 & E0 & Hrep0).
  { eapply cwp_mono; [by apply (cwp_ComputeGenesis_fresh U g HU config eq_refl Hz s e (fun _ => False))| |done].
    intros _ b [Hi Eh]. split; [done|done|]. by intros x Hx%not_elem_of_nil. }
  destruct (rep_steps U g HU config ops l [] b0 eq_refl Hz Hw Hok Hrep0) as (b & Eb & Hrep). cbn [app] in Hrep.
  exists b. split; [unfold run, start; by rewrite E0|]. pose proof Hrep as [Hi Eh Hs]. split; [done|].
  pose proof Hi as (_ & h & d & Eh' & Ed & Hk & _). assert (h = tip g l) as -> by congruence. split.
  { rewrite Ed, (headers_difficulty U g HU l Hok Hg0 b _ _ d Hrep (tip_headers g l) Hk). f_equal. rewrite take_ge; [done|].
    unfold headers. cbn. by rewrite length_fmap. }
  split; [|intros; by eapply (GetHashHelper_stored U g HU l Hok Hg0 b j i hj hi)].
  intros fb block Hx. destruct (Hs _ Hx) as [[_ _ _ Sr Sl] _].
  split; [by apply (GetBlockByNumber_stored U g HU l Hok Hg0 (fb, block) b)|].
  split; [by apply (GetBlockByHash_stored U g HU l Hok Hg0 (fb, block) b)|]. by split.
Qed.

End Data.

(** ** A sample *)

Definition unsent : Transaction := ComputeHash (mkTx 3 1000 21000 (Some 77) 5 [1; 2] 27 11 12 0 0 LegacyTx).

Definition sample_first : FullBlock := mkFullBlock (mkBlock headA1 [unsent] []) [sample_receipt].
Definition sample_second : FullBlock := mkFullBlock (mkBlock headA2 [] []) [].

Definition sample_blocks : list (FullBlock * Block) :=
  [(sample_first, mkBlock headA1 [set_From 11 unsent] []); (sample_second, mkBlock headA2 [] [])].

Definition sample_writes : list (op (S := Z) (E := Z)) :=
  [OpRestart 0 0; OpFullBlock sample_first; OpRestart 1 1; OpFullBlock sample_second].

Lemma sample_tx_ok : tx_fits (set_From 11 unsent) /\ ComputeHash (set_From 11 unsent) = set_From 11 unsent.
Proof. split; [|by vm_compute]. split; by_eval; cbn; try lia; auto. intros a [= <-]. by_eval. Qed.

Lemma sample_first_ok : storable sample_first (mkBlock headA1 [set_From 11 unsent] []).
Proof.
  split; [split; reflexivity|by vm_compute| |apply Forall_nil_2|].
  - cbn [b_Transactions]. apply Forall_singleton. destruct sample_tx_ok as [Hf Hc]. split; [exact Hf|]. split; [exact Hc|].
    left. by vm_compute.
  - cbn [fb_Receipts sample_first]. apply Forall_singleton, sample_receipt_fits.
Qed.

Lemma sample_second_ok : storable sample_second (mkBlock headA2 [] []).
Proof. split; [split; reflexivity|reflexivity|apply Forall_nil_2..]. Qed.

Lemma sample_blocks_ok : chain_ok (T := Block * list Receipt) (E := Z) (fun h => h ∈ sample_headers) headG sample_blocks.
Proof.
  split.
  - intros x Hx. unfold sample_blocks in Hx. in_list; subst x; apply (bool_decide_unpack _); by vm_compute.
  - split; [reflexivity|]. split; [reflexivity|exact I].
  - intros x Hx. unfold sample_blocks in Hx. in_list; subst x; [exact sample_first_ok|exact sample_second_ok].
  - apply (bool_decide_unpack _). by vm_compute.
  - intros x e _. reflexivity.
Qed.

Lemma chain_database_witness :
  exists b, sample_run sample_writes = Some b /\
    fst <$> GetBlockByNumber 1 true b = Some (Ok (Some (mkBlock headA1 [set_From 11 unsent] []), true)).
Proof.
  destruct (chain_database (T := Block * list Receipt) (CH := alist Header) (CD := alist Z) (CR := alist (list Receipt))
    (fun h => h ∈ sample_headers) sample_config 0 0 sample_writes sample_blocks sample_universe eq_refl) as (b & Hb & _ & _ & Hx & _).
  - repeat constructor.
  - exact sample_blocks_ok.
  - exists b. split; [exact Hb|]. exact (proj1 (Hx _ _ (list_elem_of_here _ _))).
Defined.
