(* ===== verification/Bls.v ===== *)
(** * BLS signatures ([consensus/plgbft/signer])

    Keys and signatures on the bn256 curve, with the map of messages to the curve. The
    curve library is a parameter; modular square roots and inverses of [math/big] are
    computed. [None] is a panic. *)

From S2P Require Import Prelude ChainTypes BigInt.
Local Open Scope go_scope.

(** ** [math/big] *)

(** [trailingZeroBits] of a positive integer. *)
Fixpoint trailing_zeros (p : positive) : nat := match p with xO p => S (trailing_zeros p) | _ => O end.

(** [Jacobi]: the loop, for an odd positive [b]. *)
Fixpoint Jacobi_loop (fuel : nat) (a b j : Z) : option Z :=
  match fuel with
  | O => None
  | S fuel =>
      if b =? 1 then Some j
      else if a =? 0 then Some 0
      else
        match a mod b with
        | Zpos r =>
            let s := Z.of_nat (trailing_zeros r) in
            let j := if Z.odd s && ((Z.land b 7 =? 3) || (Z.land b 7 =? 5)) then - j else j in
            let c := Z.shiftr (Zpos r) s in
            let j := if (Z.land b 3 =? 3) && (Z.land c 3 =? 3) then - j else j in
            Jacobi_loop fuel b c j
        | _ => Some 0
        end
  end.

Definition Jacobi (x y : Z) : option Z := Jacobi_loop (Z.to_nat (2 * Z.log2_up y + 2)) x y 1.

(** [Exp] with a modulus, by squaring. *)
Fixpoint Exp_pos (x : Z) (e : positive) (m : Z) : Z :=
  match e with
  | xH => x mod m
  | xO e => let y := Exp_pos x e m in y * y mod m
  | xI e => let y := Exp_pos x e m in (y * y mod m) * x mod m
  end.

Definition Exp (x e m : Z) : Z := match e with Zpos e => Exp_pos x e m | _ => 1 mod m end.

(** [ModSqrt] for a modulus that is 3 modulo 4: the outer option is the panic, the inner
    one the nil of a value without a root. *)
Definition ModSqrt (x p : Z) : option (option Z) :=
  match Jacobi x p with
  | None => None
  | Some (-1) => Some None
  | Some 0 => Some (Some 0)
  | Some _ =>
      let x := if (x <? 0) || (p <=? x) then x mod p else x in
      Some (Some (Exp x (Z.shiftr (p + 1) 2) p))
  end.

(** [ModInverse]: nil if the arguments have a common factor. *)
Definition ModInverse (x n : Z) : option Z := if Z.gcd x n =? 1 then Some (Z.invmod x n) else None.

(** ** The curve *)

(** [sha256] and [umbracle/go-eth-bn256]; the zero values are the points at infinity. *)
Class Bn256 := {
  sha256_Sum : list Z -> list Z;
  G1 : Type;
  G2 : Type;
  G1_zero : G1;
  G1_Add : G1 -> G1 -> G1;
  G1_ScalarMult : G1 -> Z -> G1;
  G1_Marshal : G1 -> list Z;
  G1_Unmarshal : list Z -> option G1;
  G1_IsInfinity : G1 -> bool;
  G1_InCorrectSubgroup : G1 -> bool;
  G2_zero : G2;
  G2_Add : G2 -> G2 -> G2;
  G2_ScalarMult : G2 -> Z -> G2;
  G2_Marshal : G2 -> list Z;
  G2_Unmarshal : list Z -> option G2;
  G2_IsInfinity : G2 -> bool;
  G2_InCorrectSubgroup : G2 -> bool;
  PairingCheck : list G1 -> list G2 -> bool;
}.

Inductive BlsErr :=
  | errInfinityPoint | ErrIncorrectSubgroup | ErrUnmarshal | ErrEmptySignature
  | ErrDomainLength | ErrBadMapping.

(** ** [hash2point.go] *)

Definition z0 : Z := 0x0000000000000000b3c4d79d41a91759a9e4c7e359b6b89eaec68e62effffffd.
Definition z1 : Z := 0x000000000000000059e26bcea0d48bacd4f263f1acdb5c4f5763473177fffffe.
Definition pPrime : Z := 21888242871839275222246405745257275088696311157297823662689037894645226208583.
Definition modulus : Z := 0x30644e72e131a029b85045b68181585d97816a916871ca8d3c208c16d87cfd47.

Definition mulmod (x y N : Z) : Z := x * y mod N.
Definition addmod (x y N : Z) : Z := (x + y) mod N.
Definition inversemod (x N : Z) : option Z := ModInverse x N.

(** The root, and whether it is one. *)
Definition sqrt (xx : Z) : option (option Z * bool) :=
  match ModSqrt xx pPrime with
  | None => None
  | Some None => Some (None, false)
  | Some (Some x) => Some (Some x, mulmod x x pPrime =? xx)
  end.

(** The right-hand side of the curve equation. *)
Definition curve (x : Z) : Z := addmod (mulmod (mulmod x x pPrime) x pPrime) 3 pPrime.

Definition signed_root (decision : bool) (y : Z) : Z := if decision then y else pPrime - y.

Definition mapToPoint (x : Z) : option (result BlsErr (Z * Z)) :=
  '(_, decision) ← sqrt x;
  let a0 := addmod (mulmod x x pPrime) 4 pPrime in
  let a1 := mulmod x z0 pPrime in
  let a2 := mulmod a1 a0 pPrime in
  a2 ← inversemod a2 pPrime;
  let a1 := mulmod a1 a1 pPrime in
  let a1 := mulmod a1 a2 pPrime in
  let a1 := mulmod x a1 pPrime in
  let x := addmod z1 (pPrime - a1) pPrime in
  '(a1, found) ← sqrt (curve x);
  if (found : bool) then y ← a1; Some (Ok (x, signed_root decision y))
  else
    let x := pPrime - addmod x 1 pPrime in
    '(a1, found) ← sqrt (curve x);
    if (found : bool) then y ← a1; Some (Ok (x, signed_root decision y))
    else
      let x := mulmod a0 a0 pPrime in
      let x := mulmod x x pPrime in
      let x := mulmod x a2 pPrime in
      let x := mulmod x a2 pPrime in
      let x := addmod x 1 pPrime in
      '(a1, found) ← sqrt (curve x);
      if negb found then Some (Err ErrBadMapping)
      else y ← a1; Some (Ok (x, signed_root decision y)).

Definition PadLeftOrTrim (bb : list Z) (size : nat) : list Z :=
  if (length bb =? size)%nat then bb
  else if (size <? length bb)%nat then drop (length bb - size) bb
  else replicate (size - length bb) 0 ++ bb.

Section Signer.
Context `{Bn256}.

(** [copy] of the padded coordinates into 64 bytes. *)
Definition mapToG1Point (b : Z) : option (result BlsErr G1) :=
  p ← mapToPoint b;
  match p with
  | Err e => Some (Err e)
  | Ok (xx, yy) =>
      match G1_Unmarshal (PadLeftOrTrim (Bytes xx) 32 ++ PadLeftOrTrim (Bytes yy) 32) with
      | None => Some (Err ErrUnmarshal)
      | Some g1 => Some (Ok g1)
      end
  end.

Definition xor_bytes (a b : list Z) : list Z := zip_with Z.lxor a b.

(** The blocks from [b_i] on; [n] are left. *)
Fixpoint xmd_blocks (n : nat) (i : Z) (b0 bi suffix : list Z) : list Z :=
  match n with
  | O => []
  | S n => bi ++ xmd_blocks n (i + 1) b0 (sha256_Sum (xor_bytes b0 bi ++ [(1 + i mod 256) mod 256] ++ suffix)) suffix
  end.

Definition expandMsgSHA256XMD (msg domain : list Z) (outLen : Z) : result BlsErr (list Z) :=
  if (255 <? length domain)%nat then Err ErrDomainLength
  else
    let suffix := domain ++ [Z.of_nat (length domain)] in
    let b0 := sha256_Sum (replicate 64 0 ++ msg ++ [Z.shiftr outLen 8 mod 256; outLen mod 256] ++ [0] ++ suffix) in
    let b1 := sha256_Sum (b0 ++ [1] ++ suffix) in
    let ell := (outLen + 32 - 1) / 32 in
    Ok (take (Z.to_nat outLen) (xmd_blocks (Z.to_nat ell) 1 b0 b1 suffix)).

Definition field_element (num : Z) : Z :=
  if num =? modulus then num
  else if negb (modulus <? num) && negb (num <? 0) then num
  else num mod modulus.

Definition hashToFpXMDSHA256 (msg domain : list Z) (count : nat) : result BlsErr (list Z) :=
  match expandMsgSHA256XMD msg domain (Z.of_nat count * 48) with
  | Err e => Err e
  | Ok randBytes => Ok ((fun i => field_element (be_val (take 48 (drop (i * 48) randBytes)))) <$> seq 0 count)
  end.

Definition hashToPoint (msg domain : list Z) : option (result BlsErr G1) :=
  match hashToFpXMDSHA256 msg domain 2 with
  | Err e => Some (Err e)
  | Ok [a; b] =>
      g1 ← mapToG1Point a;
      match g1 with
      | Err e => Some (Err e)
      | Ok g1 =>
          g2 ← mapToG1Point b;
          match g2 with Err e => Some (Err e) | Ok g2 => Some (Ok (G1_Add g1 g2)) end
      end
  | Ok _ => None
  end.

(** ** Keys and signatures *)

Definition PublicKey : Type := G2.
Definition Signature : Type := G1.

Definition g2_bytes (n : Z) : list Z := be_bytes 128 n.
Definition negG2_hex : Z := 0x198e9393920d483a7260bfb731fb5d25f1aa493335a9e71297e485b7aef312c21800deef121f1e76426a00665e5c4479674322d4f75edadd46debd5cd992f6ed275dc4a288d1afb3cbb1ac09187524c7db36395df7be3b99e673b13a075a65ec1d9befcd05a5323e6da4d435f3b617cdb3af83285c2df711ef39c01571827f9d.
Definition G2_hex : Z := 0x198e9393920d483a7260bfb731fb5d25f1aa493335a9e71297e485b7aef312c21800deef121f1e76426a00665e5c4479674322d4f75edadd46debd5cd992f6ed090689d0585ff075ec9e99ad690c3395bc4b313370b38ef355acdadcd122975b12c85ea5db8c6deb4aab71808dcb408fe3d1e7690c43d37b4ce6cc0166fa7daa.

(** [mustG2Point] ends the program when the bytes are not a point. *)
Definition negG2Point : option G2 := G2_Unmarshal (g2_bytes negG2_hex).
Definition g2Point : option G2 := G2_Unmarshal (g2_bytes G2_hex).

Definition pk_Marshal (p : PublicKey) : list Z := G2_Marshal p.

Definition UnmarshalPublicKey (data : list Z) : result BlsErr PublicKey :=
  match G2_Unmarshal data with
  | None => Err ErrUnmarshal
  | Some g2 =>
      if G2_IsInfinity g2 then Err errInfinityPoint
      else if negb (G2_InCorrectSubgroup g2) then Err ErrIncorrectSubgroup
      else Ok g2
  end.

(** The coordinates; [None] where the slices are out of range. *)
Definition pk_ToBigInt (p : PublicKey) : option (list Z) :=
  let blsKey := pk_Marshal p in
  if (length blsKey <? 128)%nat then None
  else
    let part a := be_val (take 32 (drop a blsKey)) in
    Some [part 32%nat; part 0%nat; part 96%nat; part 64%nat].

Definition UnmarshalPublicKeyFromBigInt (b : list Z) : result BlsErr PublicKey :=
  let pt i := PadLeftOrTrim (Bytes (default 0 (b !! i))) 32 in
  UnmarshalPublicKey (pt 1%nat ++ pt 0%nat ++ pt 3%nat ++ pt 2%nat).

Definition pk_Aggregate (pks : list PublicKey) : PublicKey := fold_left G2_Add pks G2_zero.
Definition sig_Aggregate (sigs : list Signature) : Signature := fold_left G1_Add sigs G1_zero.

Definition UnmarshalSignature (raw : list Z) : result BlsErr Signature :=
  match raw with
  | [] => Err ErrEmptySignature
  | _ =>
      match G1_Unmarshal raw with
      | None => Err ErrUnmarshal
      | Some g1 =>
          if G1_IsInfinity g1 then Err errInfinityPoint
          else if negb (G1_InCorrectSubgroup g1) then Err ErrIncorrectSubgroup
          else Ok g1
      end
  end.

Definition sk_PublicKey (s : Z) : option PublicKey := g ← g2Point; Some (G2_ScalarMult g s).

Definition Sign (s : Z) (message domain : list Z) : option (result BlsErr Signature) :=
  point ← hashToPoint message domain;
  match point with Err e => Some (Err e) | Ok point => Some (Ok (G1_ScalarMult point s)) end.

Definition sig_Verify (s : Signature) (pub : PublicKey) (message domain : list Z) : option bool :=
  point ← hashToPoint message domain;
  match point with
  | Err _ => Some false
  | Ok point => neg ← negG2Point; Some (PairingCheck [s; point] [neg; pub])
  end.

Definition VerifyAggregated (s : Signature) (publicKeys : list PublicKey) (msg domain : list Z) : option bool :=
  sig_Verify s (pk_Aggregate publicKeys) msg domain.

End Signer.

(** * Properties of the BLS signatures *)
Local Open Scope go_scope.

(** ** [math/big] *)

Lemma trailing_zeros_shift r :
  let c := Z.shiftr (Zpos r) (Z.of_nat (trailing_zeros r)) in 1 <= c <= Zpos r.
Proof.
  cbv zeta. rewrite Z.shiftr_div_pow2 by lia. induction r as [r IH|r IH|]; cbn [trailing_zeros]; [|rewrite Nat2Z.inj_succ, Z.pow_succ_r by lia|done].
  - change (Z.of_nat 0) with 0. rewrite Z.pow_0_r, Z.div_1_r. lia.
  - rewrite <- Z.div_div by lia. replace (Zpos r~0 / 2) with (Zpos r); [lia|].
    rewrite (Pos2Z.inj_xO r). rewrite Z.mul_comm, Z.div_mul; lia.
Qed.

(** The fuel is enough: the denominator halves in two rounds. *)
Lemma Jacobi_loop_total k fuel a b j : 1 <= b <= 2 ^ Z.of_nat k -> (2 * k + 1 <= fuel)%nat -> Jacobi_loop fuel a b j <> None.
Proof.
  revert fuel a b j. induction k as [|k IH]; intros [|fuel] a b j Hb Hf; try lia; cbn [Jacobi_loop].
  { assert (b = 1) as -> by (cbn in Hb; lia). done. }
  destruct (b =? 1) eqn:Eb; [done|]. destruct (a =? 0); [done|].
  pose proof (Z.mod_pos_bound a b ltac:(lia)) as Hr. destruct (a mod b) as [|r|] eqn:Er; [done| |done].
  pose proof (trailing_zeros_shift r) as Hc. cbv zeta in Hc. set (c := Z.shiftr _ _) in *.
  destruct fuel as [|fuel]; [lia|]. cbn [Jacobi_loop]. destruct (c =? 1) eqn:Ec; [done|]. destruct (b =? 0); [done|].
  pose proof (Z.mod_pos_bound b c ltac:(lia)) as Hr'. destruct (b mod c) as [|r'|] eqn:Er'; [done| |done].
  pose proof (trailing_zeros_shift r') as Hc'. cbv zeta in Hc'. apply IH; [|lia]. split; [lia|].
  assert (2 * (b mod c) < b).
  { pose proof (Z.div_mod b c ltac:(lia)) as Hdm. assert (1 <= b / c) by (apply Z.div_le_lower_bound; lia).
    rewrite Er' in *. nia. }
  rewrite Er' in *. rewrite Nat2Z.inj_succ, Z.pow_succ_r in Hb by lia. lia.
Qed.

Lemma Jacobi_total x y : 1 <= y -> Jacobi x y <> None.
Proof.
  intros Hy. unfold Jacobi. apply (Jacobi_loop_total (Z.to_nat (Z.log2_up y))).
  - split; [done|]. rewrite Z2Nat.id by apply Z.log2_up_nonneg. destruct (Z.eq_dec y 1) as [->|]; [done|].
    apply Z.log2_up_spec. lia.
  - pose proof (Z.log2_up_nonneg y). lia.
Qed.

Lemma sqrt_total x : sqrt x <> None.
Proof.
  unfold sqrt, ModSqrt. pose proof (Jacobi_total x pPrime ltac:(by vm_compute)) as Hj.
  destruct (Jacobi x pPrime) as [[|?|[]]|]; done.
Qed.

Lemma Exp_pos_range x e m : 0 < m -> 0 <= Exp_pos x e m < m.
Proof. intros Hm. induction e; cbn [Exp_pos]; apply Z.mod_pos_bound; done. Qed.

Lemma Exp_range x e m : 0 < m -> 0 <= Exp x e m < m.
Proof. intros Hm. destruct e; cbn [Exp]; [by apply Z.mod_pos_bound|by apply Exp_pos_range|by apply Z.mod_pos_bound]. Qed.

Lemma ModSqrt_range x p r : 0 < p -> ModSqrt x p = Some (Some r) -> 0 <= r < p.
Proof.
  intros Hp. unfold ModSqrt. destruct (Jacobi x p) as [[|?|[]]|]; intros [= <-]; (by apply Exp_range) || lia.
Qed.

Lemma sqrt_found x y : sqrt x = Some (y, true) -> exists r, y = Some r /\ 0 <= r < pPrime /\ r * r mod pPrime = x.
Proof.
  unfold sqrt. destruct (ModSqrt x pPrime) as [[r|]|] eqn:E; [|done..]. intros [= <- Hr]. exists r. split; [done|].
  split; [by apply (ModSqrt_range x)|unfold mulmod in Hr; lia].
Qed.

(** ** The map to the curve *)

Definition on_curve (p : Z * Z) : Prop :=
  0 <= fst p <= pPrime /\ 0 <= snd p <= pPrime /\
  (snd p * snd p - (fst p * fst p * fst p + 3)) mod pPrime = 0.

Lemma curve_eq x : curve x = (x * x * x + 3) mod pPrime.
Proof.
  unfold curve, addmod, mulmod. rewrite Zplus_mod_idemp_l. by rewrite <- Zplus_mod_idemp_l, Zmult_mod_idemp_l, Zplus_mod_idemp_l.
Qed.

Lemma root_on_curve x r decision :
  0 <= x <= pPrime -> 0 <= r < pPrime -> r * r mod pPrime = curve x -> on_curve (x, signed_root decision r).
Proof.
  intros Hx Hr Hc. rewrite curve_eq in Hc. split; [done|]. split; [unfold signed_root; cbn; destruct decision; lia|].
  cbn [fst snd]. assert (Hsq : (signed_root decision r * signed_root decision r) mod pPrime = r * r mod pPrime).
  { unfold signed_root. destruct decision; [done|].
    replace ((pPrime - r) * (pPrime - r)) with (r * r + (pPrime - 2 * r) * pPrime) by ring. by rewrite Z_mod_plus_full. }
  rewrite Zminus_mod, Hsq, Hc, Z.sub_diag. by apply Z.mod_0_l.
Qed.

Lemma addmod_range x y : 0 <= addmod x y pPrime < pPrime.
Proof. apply Z.mod_pos_bound. by vm_compute. Qed.

Ltac curve_range := match goal with |- context [addmod ?a ?b pPrime] => pose proof (addmod_range a b); lia end.

(** The slope that is inverted. *)
Definition slope (x : Z) : Z := mulmod (mulmod x z0 pPrime) (addmod (mulmod x x pPrime) 4 pPrime) pPrime.

(** A try of a root ends the map with a point of the curve. *)
Lemma try_root x decision rest (P : result BlsErr (Z * Z) -> Prop) :
  0 <= x <= pPrime -> (forall r, on_curve (x, signed_root decision r) -> P (Ok (x, signed_root decision r))) ->
  (exists v, rest = Some v /\ P v) ->
  exists v, ('(a1, found) ← sqrt (curve x); if (found : bool) then y ← a1; Some (Ok (x, signed_root decision y)) else rest) = Some v /\ P v.
Proof.
  intros Hx HP Hrest. pose proof (sqrt_total (curve x)) as Ht. destruct (sqrt (curve x)) as [[a1 found]|] eqn:E; [|done].
  unfold mbind, option_bind. destruct found; [|done]. apply sqrt_found in E as (r & -> & Hr & Hrr).
  eexists. split; [done|]. apply HP. by apply root_on_curve.
Qed.

Lemma mapToPoint_spec x :
  mapToPoint x = None /\ Z.gcd (slope x) pPrime <> 1 \/
  Z.gcd (slope x) pPrime = 1 /\
  exists r, mapToPoint x = Some r /\ match r with Ok p => on_curve p | Err e => e = ErrBadMapping end.
Proof.
  unfold mapToPoint. pose proof (sqrt_total x) as Ht. destruct (sqrt x) as [[d decision]|]; [|done].
  unfold mbind at 1, option_bind at 1. cbv zeta. unfold inversemod, ModInverse. fold (slope x).
  destruct (Z.gcd (slope x) pPrime =? 1) eqn:Eg; [right|left; split; [done|lia]]. split; [lia|].
  unfold mbind at 1, option_bind at 1.
  apply try_root; [curve_range|done|]. apply try_root; [curve_range|done|].
  match goal with |- context [sqrt (curve ?y)] => set (x3 := y); pose proof (sqrt_total (curve x3)) as Ht3 end.
  destruct (sqrt (curve x3)) as [[a1 found]|] eqn:E; [|done]. unfold mbind, option_bind.
  destruct found; cbn [negb]; [|by eexists]. apply sqrt_found in E as (r & -> & Hr & Hrr). eexists. split; [done|].
  apply root_on_curve; [unfold x3; curve_range|done|done].
Qed.

(** ** Signatures *)

(** The groups and the bilinear pairing of the curve library. *)
Class Bn256Laws `{Bn256} := {
  GT : Type;
  gt_one : GT;
  gt_mul : GT -> GT -> GT;
  gt_mul_one x : gt_mul gt_one x = x;
  gt_mul_comm x y : gt_mul x y = gt_mul y x;
  gt_mul_assoc x y z : gt_mul x (gt_mul y z) = gt_mul (gt_mul x y) z;
  pairing : G1 -> G2 -> GT;
  pairing_add_l a b c : pairing (G1_Add a b) c = gt_mul (pairing a c) (pairing b c);
  pairing_add_r a b c : pairing a (G2_Add b c) = gt_mul (pairing a b) (pairing a c);
  pairing_zero_l c : pairing G1_zero c = gt_one;
  pairing_zero_r a : pairing a G2_zero = gt_one;
  pairing_mult a s b : pairing (G1_ScalarMult a s) b = pairing a (G2_ScalarMult b s);
  G2_mult_add a b s : G2_ScalarMult (G2_Add a b) s = G2_Add (G2_ScalarMult a s) (G2_ScalarMult b s);
  G2_mult_zero s : G2_ScalarMult G2_zero s = G2_zero;
  PairingCheck_spec la lb : PairingCheck la lb = true <-> foldr gt_mul gt_one (zip_with pairing la lb) = gt_one;
}.

Section Aggregate.
Context `{Bn256Laws}.

(** The two constants are a point and its negation. *)
Definition generators (g n : G2) : Prop := g2Point = Some g /\ negG2Point = Some n /\ G2_Add n g = G2_zero.

Lemma pairing_fold (la : list G1) a b : pairing (fold_left G1_Add la a) b = foldr gt_mul (pairing a b) ((fun x => pairing x b) <$> la).
Proof using Type*.
  revert a. induction la as [|x la IH]; intros a; cbn [fold_left fmap list_fmap foldr]; [done|]. rewrite IH, pairing_add_l.
  clear IH. induction la as [|y la IH]; cbn [foldr fmap list_fmap]; [by rewrite gt_mul_comm|].
  rewrite IH. rewrite !gt_mul_assoc. by rewrite (gt_mul_comm (pairing y b)).
Qed.

Lemma pairing_fold_r (lb : list G2) a b : pairing a (fold_left G2_Add lb b) = foldr gt_mul (pairing a b) ((fun x => pairing a x) <$> lb).
Proof using Type*.
  revert b. induction lb as [|x lb IH]; intros b; cbn [fold_left fmap list_fmap foldr]; [done|]. rewrite IH, pairing_add_r.
  clear IH. induction lb as [|y lb IH]; cbn [foldr fmap list_fmap]; [by rewrite gt_mul_comm|].
  rewrite IH. rewrite !gt_mul_assoc. by rewrite (gt_mul_comm (pairing a y)).
Qed.

Lemma gt_swap x y z : gt_mul x (gt_mul y z) = gt_mul y (gt_mul x z).
Proof using Type*. by rewrite !gt_mul_assoc, (gt_mul_comm x). Qed.

(** The pairings of the signatures and of the keys cancel. *)
Lemma pairings_cancel (h : G1) (g n : G2) (sks : list Z) :
  G2_Add n g = G2_zero ->
  gt_mul (pairing (sig_Aggregate (G1_ScalarMult h <$> sks)) n) (pairing h (pk_Aggregate (G2_ScalarMult g <$> sks))) = gt_one.
Proof using Type*.
  intros Hneg. unfold sig_Aggregate, pk_Aggregate. rewrite pairing_fold, pairing_fold_r, pairing_zero_l, pairing_zero_r.
  induction sks as [|s sks IH]; [apply gt_mul_one|]. rewrite !fmap_cons. cbn [foldr].
  rewrite <- gt_mul_assoc, (gt_swap _ (pairing h (G2_ScalarMult g s))).
  rewrite IH. rewrite (gt_mul_comm _ gt_one), gt_mul_one, pairing_mult, <- pairing_add_r, <- G2_mult_add, Hneg, G2_mult_zero.
  apply pairing_zero_r.
Qed.

(** C39. The signatures of any holders of private keys on a message that maps to the curve
    verify in aggregate: signing succeeds for each of them, and the sum of the signatures passes
    the pairing check against the sum of their public keys, a single signature included.
    The map to the curve yields points that satisfy the equation of the curve, and panics
    exactly where a denominator has no inverse. *)
Theorem aggregate_verifies (msg domain : list Z) (h : G1) (g n : G2) (sks : list Z) :
  hashToPoint msg domain = Some (Ok h) -> generators g n ->
  (exists pks sigs,
    Forall2 (fun s pk => sk_PublicKey s = Some pk) sks pks /\
    Forall2 (fun s sig => Sign s msg domain = Some (Ok sig)) sks sigs /\
    VerifyAggregated (sig_Aggregate sigs) pks msg domain = Some true) /\
  forall x, (mapToPoint x = None <-> Z.gcd (slope x) pPrime <> 1) /\
    forall r, mapToPoint x = Some r -> match r with Ok p => on_curve p | Err e => e = ErrBadMapping end.
Proof using Type*.
  intros Hh (Hg & Hn & Hneg). split; [exists (G2_ScalarMult g <$> sks), (G1_ScalarMult h <$> sks); split; [|split]|].
  - apply Forall2_fmap_r, Forall_Forall2_diag, Forall_true. intros s. unfold sk_PublicKey. by rewrite Hg.
  - apply Forall2_fmap_r, Forall_Forall2_diag, Forall_true. intros s. unfold Sign. by rewrite Hh.
  - unfold VerifyAggregated, sig_Verify. rewrite Hh. unfold mbind, option_bind. rewrite Hn. f_equal.
    apply PairingCheck_spec. cbn [zip_with foldr]. rewrite (gt_mul_comm _ gt_one), gt_mul_one. by apply pairings_cancel.
  - intros x. destruct (mapToPoint_spec x) as [[-> Hx]|(Hx & r & -> & Hr)]; [by split|].
    split; [by split|]. by intros r' [= <-].
Qed.

End Aggregate.

(** ** A sample: the integers as the groups *)

#[local] Instance sample_curve : Bn256 := {|
  sha256_Sum _ := replicate 32 4;
  G1 := Z; G2 := Z; G1_zero := 0; G1_Add := Z.add; G1_ScalarMult := Z.mul; G1_Marshal := be_bytes 64;
  G1_Unmarshal b := Some (be_val b); G1_IsInfinity a := a =? 0; G1_InCorrectSubgroup _ := true;
  G2_zero := 0; G2_Add := Z.add; G2_ScalarMult := Z.mul; G2_Marshal := be_bytes 128;
  G2_Unmarshal b := if be_val b =? G2_hex then Some 1 else if be_val b =? negG2_hex then Some (-1) else Some (be_val b);
  G2_IsInfinity a := a =? 0; G2_InCorrectSubgroup _ := true;
  PairingCheck la lb := foldr Z.add 0 (zip_with Z.mul la lb) =? 0 |}.

#[local] Instance sample_curve_laws : Bn256Laws.
Proof.
  refine {| GT := Z; gt_one := 0; gt_mul := Z.add; pairing := Z.mul : G1 -> G2 -> Z |}; intros; cbn; try lia.
Defined.

Definition sample_point : Z :=
  143476531979251021126836695210760672951276750851319773506111485223151090607084727886996004300824461697588386871739327024052625045325102853701915541261696.

Lemma sample_maps : match hashToPoint [1; 2; 3] [4] with Some (Ok h) => h =? sample_point | _ => false end = true.
Proof. vm_cast_no_check (@eq_refl bool true). Qed.

Lemma sample_hash : hashToPoint [1; 2; 3] [4] = Some (Ok sample_point).
Proof. pose proof sample_maps as Hm. destruct (hashToPoint [1; 2; 3] [4]) as [[h|]|]; [|discriminate Hm..]. apply Z.eqb_eq in Hm. by rewrite Hm. Qed.

Lemma sample_generators : @generators sample_curve 1 (-1).
Proof. by vm_compute. Qed.

Lemma aggregate_verifies_witness :
  exists pks sigs, VerifyAggregated (sig_Aggregate sigs) pks [1; 2; 3] [4] = Some true /\ length sigs = 2%nat.
Proof.
  destruct (@aggregate_verifies sample_curve sample_curve_laws [1; 2; 3] [4] sample_point 1 (-1) [5; 8] sample_hash sample_generators)
    as [(pks & sigs & _ & Hs & Hv) _].
  exists pks, sigs. split; [exact Hv|]. symmetry. exact (Forall2_length _ _ _ Hs).
Defined.
