(* ===== verification/Validators.v ===== *)
(** * Validator sets ([consensus/plgbft])

    Bitmaps, validators and their sets, the changes of a set between epochs, and the quorum.
    [None] is a panic. *)

From stdpp Require Import gmap.
From S2P Require Import Prelude ChainTypes BigInt Bls.
Local Open Scope go_scope.

(** ** [bitmap.go] *)

Abbreviation Bitmap := (list Z).

Definition bm_extend (b : Bitmap) (needLen : nat) : Bitmap := b ++ replicate (needLen - length b) 0.

Definition bm_Set (b : Bitmap) (idx : Z) : Bitmap :=
  let i := Z.to_nat (idx / 8) in
  alter (fun x => Z.lor x (2 ^ (idx mod 8))) i (bm_extend b (S i)).

Definition bm_Len (b : Bitmap) : Z := u64 (Z.of_nat (length b) * 8).

Definition bm_IsSet (b : Bitmap) (idx : Z) : bool :=
  if bm_Len b <=? idx then false
  else
    let bit := 2 ^ (idx mod 8) in
    Z.land (default 0 (b !! Z.to_nat (idx / 8))) bit =? bit.

(** ** [validator_metadata.go] *)

Inductive SetErr :=
  | ErrBitmapFilter | ErrAlreadyPresent | ErrUpdatedNotFound | ErrKeysDiffer | ErrQuorum | ErrSignature (e : BlsErr) | ErrVerify.

Section Sets.
Context `{Bn256} `{!EqDecision G2}.

Record ValidatorMetadata := mkValidator {
  v_Address : Address; v_BlsKey : option PublicKey; v_VotingPower : Z; v_IsActive : bool }.

(** [reflect.DeepEqual] of the keys. *)
Definition EqualAddressAndBlsKey (v b : ValidatorMetadata) : bool :=
  (v_Address v =? v_Address b) && bool_decide (v_BlsKey v = v_BlsKey b).

Definition v_Equals (v b : ValidatorMetadata) : bool :=
  EqualAddressAndBlsKey v b && (v_VotingPower v =? v_VotingPower b) && Bool.eqb (v_IsActive v) (v_IsActive b).

(** A key that cannot be decoded again is lost. *)
Definition v_Copy (v : ValidatorMetadata) : option ValidatorMetadata :=
  key ← v_BlsKey v;
  let key := match UnmarshalPublicKey (pk_Marshal key) with Ok key => Some key | Err _ => None end in
  Some (mkValidator (v_Address v) key (v_VotingPower v) (v_IsActive v)).

(** An [AccountSet] is a slice of validators. *)
Fixpoint as_Equals (a other : list ValidatorMetadata) : bool :=
  match a, other with
  | [], [] => true
  | v :: a, w :: other => v_Equals v w && as_Equals a other
  | _, _ => false
  end.

Definition GetAddresses (a : list ValidatorMetadata) : list Address := v_Address <$> a.
Definition GetAddressesAsSet (a : list ValidatorMetadata) : gset Address := list_to_set (v_Address <$> a).
Definition GetBlsKeys (a : list ValidatorMetadata) : list (option PublicKey) := v_BlsKey <$> a.

(** The first validator with the address. *)
Definition as_Index (a : list ValidatorMetadata) (addr : Address) : option nat :=
  fst <$> list_find (fun v => v_Address v = addr) a.

Definition ContainsAddress (a : list ValidatorMetadata) (addr : Address) : bool :=
  match as_Index a addr with Some _ => true | None => false end.

Definition GetValidatorMetadata (a : list ValidatorMetadata) (addr : Address) : option ValidatorMetadata :=
  i ← as_Index a addr; a !! i.

Definition as_Copy (a : list ValidatorMetadata) : option (list ValidatorMetadata) := mapM v_Copy a.

Definition GetFilteredValidators (a : list ValidatorMetadata) (bitmap : Bitmap) : result SetErr (list ValidatorMetadata) :=
  match a with
  | [] => Ok []
  | _ =>
      let n := Z.of_nat (length a) in
      if (n <? bm_Len bitmap) && existsb (bm_IsSet bitmap) (seqZ n (bm_Len bitmap - n)) then Err ErrBitmapFilter
      else Ok (snd <$> filter (fun p => Is_true (bm_IsSet bitmap (Z.of_nat p.1))) (imap pair a))
  end.

Definition as_GetTotalVotingPower (a : list ValidatorMetadata) : Z := fold_left (fun s v => s + v_VotingPower v) a 0.

(** ** Changes of a set *)

Record ValidatorSetDelta := mkDelta { Added : list ValidatorMetadata; Updated : list ValidatorMetadata; Removed : Bitmap }.

Definition d_IsEmpty (d : ValidatorSetDelta) : bool :=
  (length (Added d) =? 0)%nat && (length (Updated d) =? 0)%nat && (bm_Len (Removed d) =? 0).

Definition d_Equals (d other : ValidatorSetDelta) : bool :=
  as_Equals (Added d) (Added other) && as_Equals (Updated d) (Updated other) && bool_decide (Removed d = Removed other).

(** [Copy] leaves the updated validators out. *)
Definition d_Copy (d : ValidatorSetDelta) : option ValidatorSetDelta :=
  added ← as_Copy (Added d); Some (mkDelta added [] (Removed d)).

Definition kept (d : ValidatorSetDelta) (i : nat) (v : ValidatorMetadata) : bool :=
  negb (bm_IsSet (Removed d) (Z.of_nat i)) || ContainsAddress (Added d) (v_Address v).

Fixpoint append_added (validators added : list ValidatorMetadata) : result SetErr (list ValidatorMetadata) :=
  match added with
  | [] => Ok validators
  | v :: added =>
      if ContainsAddress validators (v_Address v) then Err ErrAlreadyPresent
      else append_added (validators ++ [v]) added
  end.

Fixpoint apply_updated (validators updated : list ValidatorMetadata) : result SetErr (list ValidatorMetadata) :=
  match updated with
  | [] => Ok validators
  | v :: updated =>
      match as_Index validators (v_Address v) with
      | None => Err ErrUpdatedNotFound
      | Some i => apply_updated (<[i := v]> validators) updated
      end
  end.

Definition ApplyDelta (a : list ValidatorMetadata) (delta : option ValidatorSetDelta) : option (result SetErr (list ValidatorMetadata)) :=
  match delta with
  | None => Ok <$> as_Copy a
  | Some d =>
      if d_IsEmpty d then Ok <$> as_Copy a
      else
        let validators := snd <$> filter (fun p => Is_true (kept d p.1 p.2)) (imap pair a) in
        Some (match append_added validators (Added d) with
              | Err e => Err e
              | Ok validators => apply_updated validators (Updated d)
              end)
  end.

(** One validator of the new set: the indices still to be removed, the added and the
    updated validators. *)
Definition delta_step (oldMap : gmap Address ValidatorMetadata)
    (acc : result SetErr (gmap Address nat * list ValidatorMetadata * list ValidatorMetadata)) (v : ValidatorMetadata)
    : result SetErr (gmap Address nat * list ValidatorMetadata * list ValidatorMetadata) :=
  match acc with
  | Err e => Err e
  | Ok (removed, added, updated) =>
      match oldMap !! v_Address v with
      | Some old =>
          if negb (EqualAddressAndBlsKey old v) then Err ErrKeysDiffer
          else Ok (delete (v_Address v) removed, added, if v_Equals old v then updated else updated ++ [v])
      | None => Ok (removed, added ++ [v], updated)
      end
  end.

(** Indices and validators by address; the zero address is skipped. *)
Definition old_maps (old : list ValidatorMetadata) : gmap Address nat * gmap Address ValidatorMetadata :=
  fold_left (fun '(removed, m) '(i, v) =>
    if v_Address v =? ZeroAddress then (removed, m) else (<[v_Address v := i]> removed, <[v_Address v := v]> m))
    (imap pair old) (∅, ∅).

(** The map of removed validators is walked in an order of its own. *)
Definition createValidatorSetDelta (oldValidatorSet newValidatorSet : list ValidatorMetadata) : result SetErr ValidatorSetDelta :=
  let '(removed, oldMap) := old_maps oldValidatorSet in
  match fold_left (delta_step oldMap) newValidatorSet (Ok (removed, [], [])) with
  | Err e => Err e
  | Ok (removed, added, updated) =>
      Ok (mkDelta added updated (foldr (fun p b => bm_Set b (Z.of_nat p.2)) [] (map_to_list removed)))
  end.

(** ** [validator_set.go] *)

Definition BigIntDivCeil (a b : Z) : Z := (a + b - 1) / b.
Definition getQuorumSize (totalVotingPower : Z) : Z := BigIntDivCeil (totalVotingPower * 2) 3.

Record validatorSet := mkValidatorSet {
  vs_validators : list ValidatorMetadata; votingPowerMap : gmap Address Z; totalVotingPower : Z; quorumSize : Z }.

Definition NewValidatorSet (valz : list ValidatorMetadata) : validatorSet :=
  let total := as_GetTotalVotingPower valz in
  mkValidatorSet valz (fold_left (fun m v => <[v_Address v := v_VotingPower v]> m) valz ∅) total (getQuorumSize total).

Definition HasQuorum (vs : validatorSet) (signers : gset Address) : bool :=
  quorumSize vs <=? fold_left (fun s a => s + default 0 (votingPowerMap vs !! a)) (elements signers) 0.

Definition Includes (vs : validatorSet) (addr : Address) : bool := ContainsAddress (vs_validators vs) addr.

(** ** [Signature.Verify] of [extra.go] *)

Record AggSignature := mkAggSignature { AggregatedSignature : list Z; s_Bitmap : list Z }.

(** Aggregating a nil key panics. *)
Definition Verify (s : AggSignature) (validators : list ValidatorMetadata) (hash : Hash) (domain : list Z) : option (result SetErr unit) :=
  match GetFilteredValidators validators (s_Bitmap s) with
  | Err e => Some (Err e)
  | Ok signers =>
      if negb (HasQuorum (NewValidatorSet validators) (GetAddressesAsSet signers)) then Some (Err ErrQuorum)
      else
        match UnmarshalSignature (AggregatedSignature s) with
        | Err e => Some (Err (ErrSignature e))
        | Ok aggs =>
            blsPublicKeys ← mapM v_BlsKey signers;
            ok ← VerifyAggregated aggs blsPublicKeys (be_bytes 32 hash) domain;
            Some (if (ok : bool) then Ok tt else Err ErrVerify)
        end
  end.

End Sets.
