(* ===== verification/ValidatorsProps.v ===== *)
(** * Properties of validator sets

    Bitmaps are sets of indices, the delta between two sets leads from one to the other,
    and two quorums have a correct validator in common. *)

From stdpp Require Import gmap.
From S2P Require Import Prelude ChainTypes BigInt Bls Validators.
Local Open Scope go_scope.

(** ** Bitmaps *)

Definition bitmap_ok (b : Bitmap) : Prop := Z.of_nat (length b) * 8 < two64.

Lemma land_bit x k : 0 <= k -> (Z.land x (2 ^ k) =? 2 ^ k) = Z.testbit x k.
Proof.
  intros Hk. destruct (Z.testbit x k) eqn:E.
  - apply Z.eqb_eq, Z.bits_inj'. intros n Hn. rewrite Z.land_spec, Z.pow2_bits_eqb by done. destruct (Z.eqb_spec k n) as [->|].
    + by rewrite E.
    + apply andb_false_r.
  - apply Z.eqb_neq. intros Heq. assert (Z.testbit (Z.land x (2 ^ k)) k = true) as Ht by (rewrite Heq; by apply Z.pow2_bits_true).
    rewrite Z.land_spec, E in Ht. done.
Qed.

Definition bit_at (b : Bitmap) (i : Z) : bool := Z.testbit (default 0 (b !! Z.to_nat (i / 8))) (i mod 8).

Lemma bm_IsSet_bit b i : bitmap_ok b -> 0 <= i -> bm_IsSet b i = bit_at b i.
Proof.
  intros Hb Hi. unfold bm_IsSet, bm_Len, bit_at. rewrite u64_small by (unfold bitmap_ok in Hb; lia).
  rewrite land_bit by (apply Z.mod_pos_bound; lia). destruct (Z.of_nat (length b) * 8 <=? i) eqn:E; [|done].
  rewrite (lookup_ge_None_2 b); [cbn; by rewrite Z.testbit_0_l|].
  assert (Z.of_nat (length b) <= i / 8) by (apply Z.div_le_lower_bound; lia). lia.
Qed.

Lemma bit_at_Set b i j : 0 <= i -> 0 <= j -> bit_at (bm_Set b i) j = (i =? j) || bit_at b j.
Proof.
  intros Hi Hj. unfold bit_at, bm_Set.
  set (p := Z.to_nat (i / 8)). set (q := Z.to_nat (j / 8)).
  pose proof (Z.div_mod i 8 ltac:(lia)). pose proof (Z.div_mod j 8 ltac:(lia)).
  pose proof (Z.mod_pos_bound i 8 ltac:(lia)). pose proof (Z.mod_pos_bound j 8 ltac:(lia)).
  assert (0 <= i / 8) by (apply Z.div_pos; lia). assert (0 <= j / 8) by (apply Z.div_pos; lia).
  assert (Hext : forall k, default 0 (bm_extend b (S p) !! k) = default 0 (b !! k)).
  { intros k. unfold bm_extend. destruct (decide (k < length b)%nat); [by rewrite lookup_app_l|].
    rewrite lookup_app_r, (lookup_ge_None_2 b) by lia.
    destruct (replicate _ 0 !! _) eqn:E; [|done]. by apply lookup_replicate in E as [-> _]. }
  destruct (decide (p = q)) as [Epq|Epq].
  - subst q. rewrite <- Epq. rewrite list_lookup_alter.
    assert (Hlt : (p < length (bm_extend b (S p)))%nat) by (unfold bm_extend; rewrite length_app, length_replicate; lia).
    destruct (lookup_lt_is_Some_2 _ _ Hlt) as [x Hx]. pose proof (Hext p) as Hp. rewrite Hx in Hp |- *. change (x = default 0 (b !! p)) in Hp. cbn [fmap option_fmap option_map].
    rewrite decide_True by done. change (Z.testbit (Z.lor x (2 ^ (i mod 8))) (j mod 8) = (i =? j) || Z.testbit (default 0 (b !! p)) (j mod 8)).
    rewrite Z.lor_spec, Z.pow2_bits_eqb by lia. rewrite orb_comm, <- Hp. f_equal.
    apply eq_true_iff_eq. rewrite !Z.eqb_eq. lia.
  - rewrite list_lookup_alter_ne by done. rewrite Hext. replace (i =? j) with false by lia. done.
Qed.

(** ** Quorums *)

Section Sets.
Context `{Bn256} `{!EqDecision G2}.

(** The voting power of the validators with the given addresses. *)
Definition power (l : list ValidatorMetadata) (P : Address -> Prop) `{forall a, Decision (P a)} : Z :=
  zsum ((fun v => if decide (P (v_Address v)) then v_VotingPower v else 0) <$> l).

Definition validators_ok (l : list ValidatorMetadata) : Prop :=
  NoDup (v_Address <$> l) /\ Forall (fun v => 0 <= v_VotingPower v) l.

Lemma fold_sum {A} (f : A -> Z) l s : fold_left (fun s a => s + f a) l s = s + zsum (f <$> l).
Proof using Type. revert s. induction l as [|a l IH]; intros s; cbn; [lia|]. rewrite IH. unfold zsum, fmap. cbn. lia. Qed.

Lemma total_power l : as_GetTotalVotingPower l = power l (fun _ => True).
Proof using Type. unfold as_GetTotalVotingPower, power. by rewrite fold_sum. Qed.

Lemma power_nonneg l P `{forall a, Decision (P a)} : Forall (fun v => 0 <= v_VotingPower v) l -> 0 <= power l P.
Proof using Type.
  intros Hl. apply zsum_nonneg, Forall_fmap. eapply Forall_impl; [exact Hl|]. intros v Hv. cbn. by case_decide.
Qed.

Lemma power_mono l P Q `{forall a, Decision (P a)} `{forall a, Decision (Q a)} :
  Forall (fun v => 0 <= v_VotingPower v) l -> (forall v, v ∈ l -> P (v_Address v) -> Q (v_Address v)) -> power l P <= power l Q.
Proof using Type.
  unfold power. induction 1 as [|v l Hv Hl IH]; intros Hpq; cbn; [lia|].
  assert (Hl' : forall w, w ∈ l -> P (v_Address w) -> Q (v_Address w)) by (intros; apply Hpq; [by right|done]).
  specialize (IH Hl'). specialize (Hpq v (list_elem_of_here _ _)). unfold zsum, fmap in *.
  do 2 case_decide; try lia. tauto.
Qed.

Lemma power_union l P Q `{forall a, Decision (P a)} `{forall a, Decision (Q a)} :
  Forall (fun v => 0 <= v_VotingPower v) l ->
  power l P + power l Q <= power l (fun _ => True) + power l (fun a => P a /\ Q a).
Proof using Type.
  unfold power. induction 1 as [|v l Hv Hl IH]; cbn; [lia|]. unfold zsum, fmap in *.
  repeat case_decide; (tauto || lia).
Qed.

(** The sum over the map of a quorum check. *)
Definition map_power (m : gmap Address Z) (X : gset Address) : Z := zsum ((fun a => default 0 (m !! a)) <$> elements X).

Lemma map_power_insert m X a p :
  m !! a = None -> map_power (<[a := p]> m) X = map_power m X + if decide (a ∈ X) then p else 0.
Proof using Type.
  intros Hm. unfold map_power.
  assert (Hgen : forall l, NoDup l -> zsum ((fun a' => default 0 (<[a := p]> m !! a')) <$> l) =
    zsum ((fun a' => default 0 (m !! a')) <$> l) + if decide (a ∈ l) then p else 0).
  { induction 1 as [|x l Hx Hl IH]; [done|]. cbn. unfold zsum, fmap in IH |- *. rewrite IH. clear IH.
    destruct (decide (x = a)) as [->|Hne].
    - rewrite lookup_insert_eq, Hm. rewrite (decide_False (P := a ∈ l)) by done. rewrite decide_True by apply list_elem_of_here. cbn. lia.
    - rewrite lookup_insert_ne by done. destruct (decide (a ∈ l)).
      + rewrite decide_True by (by apply list_elem_of_further). lia.
      + rewrite decide_False; [lia|]. by intros [?|?]%elem_of_cons. }
  rewrite Hgen by apply NoDup_elements. f_equal. destruct (decide (a ∈ X)).
  - rewrite decide_True; [done|]. by apply elem_of_elements.
  - rewrite decide_False; [done|]. by rewrite elem_of_elements.
Qed.

Lemma quorum_power l X :
  NoDup (v_Address <$> l) -> HasQuorum (NewValidatorSet l) X = (getQuorumSize (power l (fun _ => True)) <=? power l (fun a => a ∈ X)).
Proof using Type.
  intros Hn. unfold HasQuorum, NewValidatorSet. cbn [quorumSize votingPowerMap]. rewrite total_power, fold_sum, Z.add_0_l. f_equal.
  assert (Hgen : forall l m, NoDup (v_Address <$> l) -> (forall v, v ∈ l -> m !! v_Address v = None) ->
    map_power (fold_left (fun m v => <[v_Address v := v_VotingPower v]> m) l m) X = map_power m X + power l (fun a => a ∈ X)).
  { clear l Hn. induction l as [|v l IH]; intros m Hn Hm; cbn [fold_left]; [unfold power; cbn; lia|].
    rewrite fmap_cons in Hn. apply NoDup_cons in Hn as [Hv Hn]. rewrite IH; [|done|].
    - rewrite map_power_insert by (apply Hm, list_elem_of_here). unfold power, zsum. cbn. unfold fmap. lia.
    - intros w Hw. rewrite lookup_insert_ne; [apply Hm; by right|]. intros E. apply Hv. rewrite E. by apply list_elem_of_fmap_2. }
  fold (map_power (fold_left (fun m v => <[v_Address v := v_VotingPower v]> m) l ∅) X).
  rewrite Hgen; [|done|done]. unfold map_power at 1.
  replace (zsum _) with 0; [done|]. induction (elements X) as [|x k IH]; [done|]. rewrite fmap_cons, zsum_cons, <- IH. done.
Qed.

Lemma filtered_signers l bitmap signers a :
  GetFilteredValidators l bitmap = Ok signers -> a ∈ GetAddressesAsSet signers ->
  exists i v, l !! i = Some v /\ bm_IsSet bitmap (Z.of_nat i) = true /\ v_Address v = a.
Proof using Type.
  intros Hf Ha. apply elem_of_list_to_set, list_elem_of_fmap in Ha as (v & -> & Hv).
  assert (Hs : signers = snd <$> filter (fun p => Is_true (bm_IsSet bitmap (Z.of_nat p.1))) (imap pair l)).
  { unfold GetFilteredValidators in Hf. destruct l; [by injection Hf as <-|]. by case_match; [|injection Hf as <-]. }
  rewrite Hs in Hv. apply list_elem_of_fmap in Hv as ([i w] & -> & [Hb Hw]%list_elem_of_filter).
  apply elem_of_lookup_imap in Hw as (j & x & [= <- <-] & Hx). exists i, w. split; [done|]. split; [|done].
  cbn in Hb. by destruct (bm_IsSet bitmap (Z.of_nat i)).
Qed.

Lemma Verify_quorum s l hash domain :
  NoDup (v_Address <$> l) -> Verify s l hash domain = Some (Ok tt) ->
  exists signers, GetFilteredValidators l (s_Bitmap s) = Ok signers /\
    getQuorumSize (power l (fun _ => True)) <= power l (fun a => a ∈ GetAddressesAsSet signers).
Proof using Type.
  intros Hn. unfold Verify. destruct (GetFilteredValidators l (s_Bitmap s)) as [signers|]; [|done].
  rewrite quorum_power by done. destruct (_ <=? _) eqn:E; [|done]. intros _. exists signers. split; [done|]. lia.
Qed.

(** A quorum whose aggregated signature passes the pairing check is accepted. *)
Lemma Verify_accepts s l hash domain signers aggs keys point neg :
  GetFilteredValidators l (s_Bitmap s) = Ok signers -> HasQuorum (NewValidatorSet l) (GetAddressesAsSet signers) = true ->
  Bls.UnmarshalSignature (AggregatedSignature s) = Ok aggs -> mapM v_BlsKey signers = Some keys ->
  hashToPoint (be_bytes 32 hash) domain = Some (Ok point) -> negG2Point = Some neg ->
  Bls.PairingCheck [aggs; point] [neg; pk_Aggregate keys] = true -> Verify s l hash domain = Some (Ok tt).
Proof using Type.
  intros Hf Hq Hu Hk Hp Hn Hc. unfold Verify. rewrite Hf, Hq, Hu, Hk. cbn [mbind option_bind negb].
  unfold Bls.VerifyAggregated, sig_Verify. rewrite Hp, Hn. cbn [mbind option_bind].
  exact (f_equal (fun ok : bool => Some (if ok then Ok tt else Err ErrVerify)) Hc).
Qed.

(** Two blocks that are both accepted for the same validators, whatever hashes they
    sign, have a signer in common outside any set of validators of less than a third of the
    voting power: if such a set covers the faulty ones, a correct validator signed both. *)
Lemma quorum_intersection (validators : list ValidatorMetadata) (s1 s2 : AggSignature) (h1 h2 : Hash) (domain : list Z)
    (faulty : gset Address) :
  validators_ok validators ->
  Verify s1 validators h1 domain = Some (Ok tt) -> Verify s2 validators h2 domain = Some (Ok tt) ->
  3 * power validators (fun a => a ∈ faulty) < as_GetTotalVotingPower validators ->
  exists i v, validators !! i = Some v /\ bm_IsSet (s_Bitmap s1) (Z.of_nat i) = true /\
    bm_IsSet (s_Bitmap s2) (Z.of_nat i) = true /\ v_Address v ∉ faulty.
Proof using Type.
  intros [Hn Hpos] Hv1 Hv2 Hf. rewrite total_power in Hf.
  destruct (Verify_quorum _ _ _ _ Hn Hv1) as (q1 & F1 & Q1). destruct (Verify_quorum _ _ _ _ Hn Hv2) as (q2 & F2 & Q2).
  pose proof (power_union validators (fun a => a ∈ GetAddressesAsSet q1) (fun a => a ∈ GetAddressesAsSet q2) Hpos) as Hu.
  set (T := power validators (fun _ => True)) in *. unfold getQuorumSize, BigIntDivCeil in Q1, Q2.
  assert (Hq : 2 * T <= 3 * ((T * 2 + 3 - 1) / 3)).
  { pose proof (Z.div_mod (T * 2 + 3 - 1) 3 ltac:(lia)). pose proof (Z.mod_pos_bound (T * 2 + 3 - 1) 3 ltac:(lia)). lia. }
  destruct (decide (Exists (fun v => (v_Address v ∈ GetAddressesAsSet q1 /\ v_Address v ∈ GetAddressesAsSet q2) /\ v_Address v ∉ faulty) validators))
    as [(v & Hv & (Hv1' & Hv2') & Hnf)%Exists_exists|Hall].
  - destruct (filtered_signers _ _ _ _ F1 Hv1') as (i & v1 & Hi & Hb1 & E1).
    destruct (filtered_signers _ _ _ _ F2 Hv2') as (j & v2 & Hj & Hb2 & E2).
    assert (i = j) as <-.
    { apply (NoDup_lookup (v_Address <$> validators) i j (v_Address v) Hn); rewrite list_lookup_fmap; [rewrite Hi|rewrite Hj]; cbn; congruence. }
    exists i, v1. rewrite E1. auto.
  - exfalso. match type of Hu with _ <= _ + ?p => assert (Hle : p <= power validators (fun a => a ∈ faulty)) end.
    { apply power_mono; [done|]. intros v Hv Hv'. destruct (decide (v_Address v ∈ faulty)); [done|]. exfalso. apply Hall, Exists_exists. by exists v. }
    lia.
Qed.

(** ** Changes of a set *)

Abbreviation addrs l := (v_Address <$> l).

Lemma ContainsAddress_spec l a : ContainsAddress l a = bool_decide (a ∈ addrs l).
Proof using Type.
  unfold ContainsAddress, as_Index. destruct (list_find _ l) as [[i v]|] eqn:E; cbn.
  - apply list_find_Some in E as (Hl & <- & _). symmetry. apply bool_decide_eq_true. apply list_elem_of_fmap_2.
    by eapply list_elem_of_lookup_2.
  - apply list_find_None in E. symmetry. apply bool_decide_eq_false. intros (v & -> & Hv)%list_elem_of_fmap.
    rewrite Forall_forall in E. by eapply E.
Qed.

Lemma Index_spec l i v : NoDup (addrs l) -> l !! i = Some v -> as_Index l (v_Address v) = Some i.
Proof using Type.
  intros Hn Hi. unfold as_Index. destruct (list_find _ l) as [[j w]|] eqn:E; cbn.
  - apply list_find_Some in E as (Hj & E & _). f_equal. apply (NoDup_lookup (addrs l) j i (v_Address v) Hn); rewrite list_lookup_fmap.
    + rewrite Hj. cbn. by rewrite E.
    + by rewrite Hi.
  - apply list_find_None in E. rewrite Forall_forall in E. exfalso. eapply E; [by eapply list_elem_of_lookup_2|done].
Qed.

Lemma GetValidatorMetadata_spec l v : NoDup (addrs l) -> v ∈ l -> GetValidatorMetadata l (v_Address v) = Some v.
Proof using Type.
  intros Hn Hv. apply list_elem_of_lookup_1 in Hv as [i Hi]. unfold GetValidatorMetadata. by rewrite (Index_spec l i v).
Qed.

Lemma GetValidatorMetadata_none l a : a ∉ addrs l -> GetValidatorMetadata l a = None.
Proof using Type.
  intros Ha. unfold GetValidatorMetadata. pose proof (ContainsAddress_spec l a) as Hc. unfold ContainsAddress in Hc.
  rewrite bool_decide_eq_false_2 in Hc by done. by destruct (as_Index l a).
Qed.

Lemma append_added_spec vs added : NoDup (addrs (vs ++ added)) -> append_added vs added = Ok (vs ++ added).
Proof using Type.
  revert vs. induction added as [|v added IH]; intros vs Hn; cbn; [by rewrite app_nil_r|].
  rewrite ContainsAddress_spec, bool_decide_eq_false_2.
  - rewrite IH; [by rewrite <- app_assoc|by rewrite <- app_assoc].
  - rewrite fmap_app in Hn. apply NoDup_app in Hn as (_ & Hd & _). intros Ha. apply (Hd _ Ha). apply list_elem_of_here.
Qed.

(** The newest data of a validator. *)
Definition newest (us : list ValidatorMetadata) (v : ValidatorMetadata) : ValidatorMetadata :=
  default v (GetValidatorMetadata us (v_Address v)).

Lemma GetValidatorMetadata_cons u us a : GetValidatorMetadata (u :: us) a = if decide (v_Address u = a) then Some u else GetValidatorMetadata us a.
Proof using Type.
  unfold GetValidatorMetadata, as_Index. cbn [list_find]. case_decide; [done|].
  destruct (list_find _ us) as [[i w]|]; done.
Qed.

Lemma apply_updated_spec vs us :
  NoDup (addrs vs) -> NoDup (addrs us) -> (forall u, u ∈ us -> v_Address u ∈ addrs vs) -> apply_updated vs us = Ok (newest us <$> vs).
Proof using Type.
  revert vs. induction us as [|u us IH]; intros vs Hv Hu Hin; cbn [apply_updated].
  { f_equal. symmetry. rewrite <- (list_fmap_id vs) at 2. apply list_fmap_ext. done. }
  rewrite fmap_cons in Hu. apply NoDup_cons in Hu as [Hun Hu].
  destruct (list_elem_of_fmap_1 _ _ _ (Hin u (list_elem_of_here _ _))) as (w & Ew & Hw).
  apply list_elem_of_lookup_1 in Hw as [i Hi]. rewrite Ew, (Index_spec vs i w) by done.
  set (f := fun v => if decide (v_Address v = v_Address u) then u else v).
  assert (Hf : <[i := u]> vs = f <$> vs).
  { apply list_eq. intros j. rewrite list_lookup_fmap. destruct (decide (j = i)) as [->|Hne].
    - rewrite list_lookup_insert_eq by (by eapply lookup_lt_Some). rewrite Hi. cbn. unfold f. by rewrite decide_True by congruence.
    - rewrite list_lookup_insert_ne by done. destruct (vs !! j) as [x|] eqn:Hj; [|done]. cbn. f_equal. unfold f.
      rewrite decide_False; [done|]. intros E. apply Hne.
      apply (NoDup_lookup (addrs vs) j i (v_Address u) Hv); rewrite list_lookup_fmap; [rewrite Hj|rewrite Hi]; cbn; congruence. }
  assert (Ha : addrs (f <$> vs) = addrs vs).
  { rewrite <- list_fmap_compose. apply list_fmap_ext. intros j x _. cbn. unfold f. by case_decide. }
  rewrite Hf, IH; [|by rewrite Ha|done|intros x Hx; rewrite Ha; apply Hin; by right].
  f_equal. rewrite <- list_fmap_compose. apply list_fmap_ext. intros j x _. change (newest us (f x) = newest (u :: us) x). unfold newest, f.
  rewrite GetValidatorMetadata_cons. case_decide as E.
  - rewrite decide_True by done. by rewrite GetValidatorMetadata_none.
  - by rewrite decide_False by congruence.
Qed.

Lemma v_Equals_eq v w : v_Equals v w = true <-> v = w.
Proof using Type.
  unfold v_Equals, EqualAddressAndBlsKey. rewrite !andb_true_iff, Z.eqb_eq, bool_decide_eq_true, Z.eqb_eq, Bool.eqb_true_iff.
  destruct v, w; cbn. split; [by intros [[[-> ->] ->] ->]|by intros [= -> -> -> ->]].
Qed.

Lemma old_maps_spec old :
  NoDup (addrs old) -> Forall (fun v => v_Address v <> ZeroAddress) old ->
  (forall a i, fst (old_maps old) !! a = Some i <-> exists v, old !! i = Some v /\ v_Address v = a) /\
  (forall a v, snd (old_maps old) !! a = Some v <-> v ∈ old /\ v_Address v = a).
Proof using Type.
  unfold old_maps. induction old as [|v old IH] using rev_ind; intros Hn Hz.
  { split; intros a x; cbn; rewrite lookup_empty; [split; [done|by intros (? & ? & _)]|]. split; [done|]. by intros [?%not_elem_of_nil _]. }
  rewrite fmap_app in Hn. apply NoDup_app in Hn as (Hn & Hd & _). apply Forall_app in Hz as [Hz Hzv]. apply (proj1 (Forall_singleton _ _)) in Hzv.
  assert (Hv : v_Address v ∉ addrs old) by (intros Ha; apply (Hd _ Ha), list_elem_of_here).
  destruct (IH Hn Hz) as [IHr IHm]. rewrite imap_app, fold_left_app. cbn [imap fold_left]. rewrite Nat.add_0_r.
  destruct (fold_left _ (imap pair old) (∅, ∅)) as [r m]. cbn [fst snd] in *.
  rewrite (proj2 (Z.eqb_neq _ _) Hzv). cbn [fst snd]. split; intros a x.
  - destruct (decide (a = v_Address v)) as [->|Hne].
    + rewrite lookup_insert_eq. split.
      * intros [= <-]. exists v. split; [|done]. rewrite lookup_app_r by lia. by rewrite Nat.sub_diag.
      * intros (w & Hw & E). f_equal. apply lookup_app_Some in Hw as [Hw|[Hge Hw]].
        -- exfalso. apply Hv. rewrite <- E. apply list_elem_of_fmap_2. by eapply list_elem_of_lookup_2.
        -- apply lookup_lt_Some in Hw. cbn in Hw. lia.
    + rewrite lookup_insert_ne, IHr by done. split.
      * intros (w & Hw & E). exists w. by rewrite (lookup_app_l_Some _ _ _ _ Hw).
      * intros (w & Hw & E). exists w. split; [|done]. apply lookup_app_Some in Hw as [Hw|[_ Hw]]; [done|].
        apply list_lookup_singleton_Some in Hw as [_ ->]. congruence.
  - destruct (decide (a = v_Address v)) as [->|Hne].
    + rewrite lookup_insert_eq. split.
      * intros [= <-]. split; [|done]. apply elem_of_app. right. apply list_elem_of_here.
      * intros [[Hw|Hw%list_elem_of_singleton]%elem_of_app E]; [|by subst].
        exfalso. apply Hv. rewrite <- E. by apply list_elem_of_fmap_2.
    + rewrite lookup_insert_ne, IHm by done. rewrite elem_of_app, list_elem_of_singleton. split; [tauto|].
      intros [[?| ->] E]; [done|congruence].
Qed.

(** What changes from the old validators. *)
Definition changed (m : gmap Address ValidatorMetadata) (v : ValidatorMetadata) : Prop :=
  match m !! v_Address v with Some old => old <> v | None => False end.

#[local] Instance changed_dec m v : Decision (changed m v).
Proof using EqDecision0.
  unfold changed. destruct (m !! v_Address v) as [old|]; [|apply _].
  destruct (v_Equals old v) eqn:E; [right|left].
  - apply v_Equals_eq in E. tauto.
  - intros ->. assert (v_Equals v v = true) by (by apply v_Equals_eq). congruence.
Defined.

Lemma delta_fold_spec m r new :
  (forall a, is_Some (r !! a) -> is_Some (m !! a)) ->
  (forall v old, v ∈ new -> m !! v_Address v = Some old -> EqualAddressAndBlsKey old v = true) ->
  exists r', fold_left (delta_step m) new (Ok (r, [], [])) =
      Ok (r', filter (fun v => m !! v_Address v = None) new, filter (changed m) new) /\
    forall a, r' !! a = if decide (a ∈ addrs new) then None else r !! a.
Proof using Type.
  intros Hdom. induction new as [|v new IH] using rev_ind; intros Hkeys.
  { exists r. split; [done|]. intros a. rewrite decide_False; [done|]. by intros ?%not_elem_of_nil. }
  destruct IH as (r' & E & Hr'); [intros; eapply Hkeys; [apply elem_of_app; by left|done]|].
  rewrite fold_left_app, E. cbn [fold_left delta_step]. rewrite !filter_app. cbn [filter list_filter].
  assert (Ha : forall a, a ∈ addrs (new ++ [v]) <-> a ∈ addrs new \/ a = v_Address v).
  { intros a. rewrite fmap_app, elem_of_app. cbn. by rewrite list_elem_of_singleton. }
  destruct (m !! v_Address v) as [old|] eqn:Em.
  - rewrite (Hkeys v old) by (done || (apply elem_of_app; right; apply list_elem_of_here)). cbn [negb].
    exists (delete (v_Address v) r'). split.
    + rewrite (decide_False (P := Some old = None)) by done. rewrite app_nil_r. f_equal. f_equal.
      destruct (v_Equals old v) eqn:Ev.
      * rewrite decide_False; [by rewrite app_nil_r|]. unfold changed. rewrite Em. apply v_Equals_eq in Ev. tauto.
      * rewrite decide_True; [done|]. unfold changed. rewrite Em. intros ->. assert (v_Equals v v = true) by (by apply v_Equals_eq). congruence.
    + intros a. destruct (decide (a = v_Address v)) as [->|Hne].
      * rewrite lookup_delete_eq, decide_True; [done|]. apply Ha. by right.
      * rewrite lookup_delete_ne, Hr' by done. destruct (decide (a ∈ addrs new)).
        -- rewrite decide_True; [done|]. apply Ha. by left.
        -- rewrite decide_False; [done|]. rewrite Ha. tauto.
  - exists r'. split.
    + rewrite decide_True by done. rewrite (decide_False (P := changed m v)); [by rewrite app_nil_r|]. unfold changed. rewrite Em. tauto.
    + intros a. rewrite Hr'. destruct (decide (a ∈ addrs new)).
      * rewrite decide_True; [done|]. apply Ha. by left.
      * destruct (decide (a = v_Address v)) as [->|Hne].
        -- rewrite decide_True by (apply Ha; by right). destruct (r !! v_Address v) eqn:Er; [|done].
           destruct (Hdom (v_Address v)); [by rewrite Er|congruence].
        -- rewrite decide_False; [done|]. rewrite Ha. tauto.
Qed.

Lemma removed_bits (l : list (Address * nat)) j :
  0 <= j -> bit_at (foldr (fun p b => bm_Set b (Z.of_nat p.2)) [] l) j = bool_decide (Z.to_nat j ∈ snd <$> l).
Proof using Type.
  intros Hj. induction l as [|[a i] l IH]; cbn [foldr].
  - rewrite bool_decide_eq_false_2 by (by intros ?%not_elem_of_nil). unfold bit_at. by rewrite Z.testbit_0_l.
  - rewrite bit_at_Set, IH by (cbn; lia). apply eq_true_iff_eq. rewrite orb_true_iff, Z.eqb_eq, !bool_decide_eq_true, fmap_cons, elem_of_cons. cbn.
    split; (intros [?|?]; [left; lia|by right]).
Qed.

Lemma removed_length (l : list (Address * nat)) n :
  Forall (fun p => (p.2 < n)%nat) l -> Z.of_nat (length (foldr (fun p b => bm_Set b (Z.of_nat p.2)) [] l)) <= Z.of_nat n.
Proof using Type.
  induction 1 as [|[a i] l Hi Hl IH]; cbn [foldr]; [cbn; lia|]. cbn [snd] in *.
  set (F := foldr _ [] l) in *. clearbody F. unfold bm_Set. rewrite length_alter. unfold bm_extend.
  rewrite length_app, length_replicate.
  assert (Z.of_nat i / 8 <= Z.of_nat i) by (apply Z.div_le_upper_bound; lia).
  assert (0 <= Z.of_nat i / 8) by (apply Z.div_pos; lia). lia.
Qed.

(** The validators that stay, with their new data, in the old order, then the added ones. *)
Definition merged (old new : list ValidatorMetadata) : list ValidatorMetadata :=
  (newest new <$> filter (fun v => v_Address v ∈ addrs new) old) ++ filter (fun v => v_Address v ∉ addrs old) new.

Lemma newest_addr new v : NoDup (addrs new) -> v_Address (newest new v) = v_Address v.
Proof using Type.
  intros Hn. unfold newest. destruct (decide (v_Address v ∈ addrs new)) as [(w & E & Hw)%list_elem_of_fmap|Hv].
  - rewrite E, GetValidatorMetadata_spec by done. done.
  - by rewrite GetValidatorMetadata_none.
Qed.

Lemma merged_perm old new : NoDup (addrs old) -> NoDup (addrs new) -> merged old new ≡ₚ new.
Proof using Type.
  intros Ho Hn. unfold merged. apply NoDup_Permutation.
  - apply NoDup_app. split; [|split].
    + apply (NoDup_fmap_1 v_Address). rewrite <- list_fmap_compose.
      rewrite (list_fmap_ext _ v_Address) by (intros; cbn; by apply newest_addr).
      eapply sublist_NoDup; [exact Ho|]. apply fmap_sublist, sublist_filter.
    + intros x (v & -> & [Hv Hvo]%list_elem_of_filter)%list_elem_of_fmap [Hx _]%list_elem_of_filter. apply Hx.
      rewrite newest_addr by done. by apply list_elem_of_fmap_2.
    + apply NoDup_filter. by apply NoDup_fmap_1 in Hn.
  - by apply NoDup_fmap_1 in Hn.
  - intros x. rewrite elem_of_app, list_elem_of_filter. split.
    + intros [(v & -> & [(w & E & Hw)%list_elem_of_fmap Hvo]%list_elem_of_filter)%list_elem_of_fmap|[_ ?]]; [|done].
      unfold newest. rewrite E, GetValidatorMetadata_spec by done. done.
    + intros Hx. destruct (decide (v_Address x ∈ addrs old)) as [(v & E & Hv)%list_elem_of_fmap|?]; [left|by right].
      apply list_elem_of_fmap. exists v. split.
      * unfold newest. by rewrite <- E, GetValidatorMetadata_spec.
      * apply list_elem_of_filter. split; [|done]. rewrite <- E. by apply list_elem_of_fmap_2.
Qed.

Lemma merged_nodup old new :
  NoDup (addrs old) -> NoDup (addrs new) ->
  NoDup (addrs (filter (fun v => v_Address v ∈ addrs new) old ++ filter (fun v => v_Address v ∉ addrs old) new)).
Proof using Type.
  intros Ho Hn. rewrite fmap_app. apply NoDup_app. split; [|split].
  - eapply sublist_NoDup; [exact Ho|]. apply fmap_sublist, sublist_filter.
  - intros a (v & -> & [_ Hv]%list_elem_of_filter)%list_elem_of_fmap (w & E & [Hw _]%list_elem_of_filter)%list_elem_of_fmap.
    apply Hw. rewrite <- E. by apply list_elem_of_fmap_2.
  - eapply sublist_NoDup; [exact Hn|]. apply fmap_sublist, sublist_filter.
Qed.

(** A delta as it is created. *)
Record delta_of (old new : list ValidatorMetadata) (d : ValidatorSetDelta) : Prop := {
  do_added : Added d = filter (fun v => v_Address v ∉ addrs old) new;
  do_updated v : v ∈ Updated d <-> v ∈ new /\ exists w, w ∈ old /\ v_Address w = v_Address v /\ w <> v;
  do_updated_addrs : NoDup (addrs (Updated d));
  do_removed i v : old !! i = Some v -> bm_IsSet (Removed d) (Z.of_nat i) = bool_decide (v_Address v ∉ addrs new);
  do_empty : Removed d = [] -> forall v, v ∈ old -> v_Address v ∈ addrs new;
}.

Lemma createValidatorSetDelta_spec old new :
  NoDup (addrs old) -> NoDup (addrs new) -> Forall (fun v => v_Address v <> ZeroAddress) old ->
  (forall v w, v ∈ old -> w ∈ new -> v_Address v = v_Address w -> v_BlsKey v = v_BlsKey w) ->
  Z.of_nat (length old) < 2 ^ 60 ->
  exists d, createValidatorSetDelta old new = Ok d /\ delta_of old new d /\ (bm_Len (Removed d) <> 0 \/ Removed d = []).
Proof using Type.
  intros Ho Hn Hz Hkeys Hlen. unfold createValidatorSetDelta. destruct (old_maps_spec old Ho Hz) as [Hr Hm].
  destruct (old_maps old) as [r m]. cbn [fst snd] in *.
  assert (Hnone : forall a, m !! a = None <-> a ∉ addrs old).
  { intros a. split.
    - intros E (v & -> & Hv)%list_elem_of_fmap. assert (m !! v_Address v = Some v) by (by apply Hm). congruence.
    - intros Ha. destruct (m !! a) as [v|] eqn:E; [|done]. apply Hm in E as [Hv <-]. exfalso. by apply Ha, list_elem_of_fmap_2. }
  destruct (delta_fold_spec m r new) as (r' & E & Hr').
  { intros a [i Hi]. apply Hr in Hi as (v & Hv & <-). exists v. apply Hm. split; [by eapply list_elem_of_lookup_2|done]. }
  { intros v w Hv Hw. apply Hm in Hw as [Hw E]. unfold EqualAddressAndBlsKey. rewrite E, Z.eqb_refl. cbn. apply bool_decide_eq_true. by apply Hkeys. }
  rewrite E. eexists. split; [done|].
  set (l := map_to_list r'). set (B := foldr _ [] l).
  assert (Hin : forall i, i ∈ snd <$> l <-> exists v, old !! i = Some v /\ v_Address v ∉ addrs new).
  { intros i. rewrite list_elem_of_fmap. split.
    - intros ([a j] & -> & Ha%elem_of_map_to_list). rewrite Hr' in Ha. case_decide as Hd; [done|]. apply Hr in Ha as (v & Hv & <-). by exists v.
    - intros (v & Hv & Hnew). exists (v_Address v, i). split; [done|]. apply elem_of_map_to_list. rewrite Hr', decide_False by done. apply Hr. by exists v. }
  assert (Hok : bitmap_ok B).
  { unfold bitmap_ok. pose proof (removed_length l (length old)) as Hlb. fold B in Hlb. assert (Z.of_nat (length B) <= Z.of_nat (length old)); [|unfold two64; lia].
    apply Hlb, Forall_forall. intros [a i] Hi. destruct (proj1 (Hin i)) as (v & Hv & _); [apply list_elem_of_fmap; by exists (a, i)|].
    cbn. by eapply lookup_lt_Some. }
  split; [|cbn [Removed]; unfold bm_Len; rewrite u64_small by (unfold bitmap_ok in Hok; lia); destruct B; [by right|left; cbn; lia]].
  split; cbn [Added Updated Removed].
  - apply list_filter_iff. intros v. apply Hnone.
  - intros v. rewrite list_elem_of_filter. unfold changed. split.
    + intros [Hc Hv]. split; [done|]. destruct (m !! v_Address v) as [w|] eqn:Ew; [|done]. apply Hm in Ew as [? ?]. by exists w.
    + intros [Hv (w & Hw & Ew & Hne)]. split; [|done]. by rewrite (proj2 (Hm (v_Address v) w)).
  - eapply sublist_NoDup; [exact Hn|]. apply fmap_sublist, sublist_filter.
  - intros i v Hv. rewrite bm_IsSet_bit by (done || lia). unfold B. rewrite removed_bits, Nat2Z.id by lia. apply bool_decide_ext. rewrite Hin. split.
    + intros (w & Hw & ?). congruence.
    + intros ?. by exists v.
  - intros HB v Hv. destruct (decide (v_Address v ∈ addrs new)) as [|Hnew]; [done|]. exfalso.
    apply list_elem_of_lookup_1 in Hv as [i Hi]. assert (bit_at B (Z.of_nat i) = true) as Hb.
    { unfold B. rewrite removed_bits, Nat2Z.id by lia. apply bool_decide_eq_true, Hin. by exists v. }
    rewrite HB in Hb. unfold bit_at in Hb. cbn in Hb. by rewrite Z.testbit_0_l in Hb.
Qed.

Lemma filter_imap (P : nat -> ValidatorMetadata -> bool) (Q : ValidatorMetadata -> Prop) `{forall v, Decision (Q v)} l :
  (forall i v, l !! i = Some v -> Is_true (P i v) <-> Q v) ->
  snd <$> filter (fun p : nat * ValidatorMetadata => Is_true (P p.1 p.2)) (imap pair l) = filter Q l.
Proof using Type.
  induction l as [|v l IH] using rev_ind; intros HPQ; [done|]. rewrite imap_app, !filter_app, fmap_app, IH.
  - f_equal. cbn. rewrite Nat.add_0_r. assert (Hv : Is_true (P (length l) v) <-> Q v).
    { apply HPQ. rewrite lookup_app_r by lia. by rewrite Nat.sub_diag. }
    unfold filter. cbn. do 2 case_decide; (done || tauto).
  - intros i w Hw. apply HPQ. by apply lookup_app_l_Some.
Qed.

Lemma filter_all (P : ValidatorMetadata -> Prop) `{forall v, Decision (P v)} (l : list ValidatorMetadata) : (forall v, v ∈ l -> P v) -> filter P l = l.
Proof using Type.
  induction l as [|v l IH]; intros HP; [done|]. unfold filter in *. cbn. rewrite decide_True by (apply HP, list_elem_of_here).
  f_equal. apply IH. intros w Hw. apply HP. by right.
Qed.

(** A set whose keys survive a copy. *)
Definition copyable (l : list ValidatorMetadata) : Prop := as_Copy l = Some l.

Lemma stays_newest old new d v :
  NoDup (addrs old) -> NoDup (addrs new) -> delta_of old new d -> v ∈ old -> v_Address v ∈ addrs new -> newest (Updated d) v = newest new v.
Proof using EqDecision0.
  intros Ho Hn Hd Hv (w & Ew & Hw)%list_elem_of_fmap. unfold newest. rewrite Ew, (GetValidatorMetadata_spec new) by done.
  destruct (v_Equals v w) eqn:E.
  - apply v_Equals_eq in E. subst w. rewrite GetValidatorMetadata_none; [done|]. intros (u & Eu & Hu)%list_elem_of_fmap.
    apply (do_updated _ _ _ Hd) in Hu as (Hun & x & Hx & Ex & Hne).
    assert (x = v).
    { apply (f_equal (GetValidatorMetadata old)) in Ex. rewrite <- Eu in Ex. rewrite !GetValidatorMetadata_spec in Ex by done. congruence. }
    assert (u = v). { apply (f_equal (GetValidatorMetadata new)) in Eu. rewrite !GetValidatorMetadata_spec in Eu by done. congruence. }
    congruence.
  - rewrite (GetValidatorMetadata_spec (Updated d) w); [done|apply Hd|]. apply (do_updated _ _ _ Hd). split; [done|]. exists v. split; [done|]. split; [done|].
    intros ->. assert (v_Equals w w = true) by (by apply v_Equals_eq). congruence.
Qed.

Lemma ApplyDelta_spec old new d :
  NoDup (addrs old) -> NoDup (addrs new) -> copyable old -> delta_of old new d -> bm_Len (Removed d) <> 0 \/ Removed d = [] ->
  ApplyDelta old (Some d) = Some (Ok (merged old new)).
Proof using EqDecision0.
  intros Ho Hn Hcopy Hd Hlen. pose proof Hd as [Hadd Hupd Hua Hrem Hemp]. unfold ApplyDelta.
  assert (Hnewest : newest (Updated d) <$> filter (fun v => v_Address v ∈ addrs new) old = newest new <$> filter (fun v => v_Address v ∈ addrs new) old).
  { apply list_fmap_ext. intros i v Hv%list_elem_of_lookup_2. apply list_elem_of_filter in Hv as [Hv Hvo]. by apply (stays_newest old). }
  destruct (d_IsEmpty d) eqn:Ee.
  - unfold d_IsEmpty in Ee. rewrite !andb_true_iff, !Nat.eqb_eq, Z.eqb_eq in Ee. destruct Ee as [[Ea Eu] Er].
    apply nil_length_inv in Ea, Eu. destruct Hlen as [?|Hr]; [done|]. rewrite Hcopy. change (Ok <$> Some old) with (Some (Ok (E := SetErr) old)). do 2 f_equal. unfold merged.
    rewrite <- Hadd, Ea, app_nil_r, <- Hnewest, Eu. rewrite filter_all by (intros; by apply Hemp).
    rewrite <- (list_fmap_id old) at 1. by apply list_fmap_ext.
  - assert (Hkept : snd <$> filter (fun p => Is_true (kept d p.1 p.2)) (imap pair old) = filter (fun v => v_Address v ∈ addrs new) old).
    { apply filter_imap. intros i v Hv. unfold kept. rewrite (Hrem i v Hv), ContainsAddress_spec, (bool_decide_eq_false_2 (_ ∈ addrs (Added d))).
      - rewrite orb_false_r. destruct (decide (v_Address v ∈ addrs new)) as [Ha|Ha].
        + rewrite bool_decide_eq_false_2 by tauto. done.
        + rewrite bool_decide_eq_true_2 by done. done.
      - rewrite Hadd. intros (u & Eu & [Hu _]%list_elem_of_filter)%list_elem_of_fmap. apply Hu. rewrite <- Eu. apply list_elem_of_fmap_2.
        by eapply list_elem_of_lookup_2. }
    rewrite Hkept, append_added_spec.
    + rewrite apply_updated_spec; [|rewrite Hadd; by apply merged_nodup|done|].
      * do 2 f_equal. rewrite fmap_app, Hnewest. unfold merged. f_equal. rewrite Hadd. rewrite <- list_fmap_id. apply list_fmap_ext.
        intros i v Hv%list_elem_of_lookup_2. apply list_elem_of_filter in Hv as [Hv _]. unfold newest. rewrite GetValidatorMetadata_none; [done|].
        intros (u & Eu & Hu)%list_elem_of_fmap. apply Hupd in Hu as (_ & x & Hx & Ex & _). apply Hv. rewrite Eu, <- Ex. by apply list_elem_of_fmap_2.
      * intros u Hu. apply Hupd in Hu as (Hu & x & Hx & Ex & _). rewrite fmap_app, elem_of_app. left. rewrite <- Ex. apply list_elem_of_fmap_2.
        apply list_elem_of_filter. split; [|done]. rewrite Ex. by apply list_elem_of_fmap_2.
    + rewrite Hadd. by apply merged_nodup.
Qed.

(** C22. The delta between two validator sets leads from the one to the other: for sets of
    distinct validators, with the keys of those in both unchanged and no zero address in
    the old set, the delta is created without an error, applying it to the old set succeeds,
    and the result has the validators of the new set, those that stay in their old order
    with their new data, followed by the added ones. *)
Theorem delta_roundtrip (old new : list ValidatorMetadata) :
  NoDup (addrs old) -> NoDup (addrs new) -> Forall (fun v => v_Address v <> ZeroAddress) old -> copyable old ->
  (forall v w, v ∈ old -> w ∈ new -> v_Address v = v_Address w -> v_BlsKey v = v_BlsKey w) ->
  Z.of_nat (length old) < 2 ^ 60 ->
  exists d, createValidatorSetDelta old new = Ok d /\ ApplyDelta old (Some d) = Some (Ok (merged old new)) /\
    merged old new ≡ₚ new.
Proof using Type.
  intros Ho Hn Hz Hcopy Hkeys Hlen. destruct (createValidatorSetDelta_spec old new Ho Hn Hz Hkeys Hlen) as (d & Hc & Hd & Hl).
  exists d. split; [done|]. split; [by apply ApplyDelta_spec|by apply merged_perm].
Qed.

End Sets.

(** ** Samples

    Four validators with the secret keys 1 to 4, over the curve of the BLS samples. *)

#[local] Existing Instance sample_curve.
#[local] Instance sample_points_eq : EqDecision G2 := Z.eq_dec.

Ltac by_computation := refine (bool_decide_eq_true_1 _ _); vm_cast_no_check (@eq_refl bool true).

Definition sample_validator (k power : Z) : ValidatorMetadata := mkValidator (100 + k) (Some (k : G2)) power true.
Definition sample_validators : list ValidatorMetadata := (fun k => sample_validator k (10 * k)) <$> [1; 2; 3; 4].
Definition sample_keys (signers : list Z) : list G2 := (fun i => i + 1) <$> signers.

(** The aggregated signature of the validators of the indices. *)
Definition sample_signature (signers : list Z) : AggSignature :=
  mkAggSignature (be_bytes 64 (sample_point * foldr Z.add 0 (sample_keys signers))) (foldl bm_Set [] signers).

(** The hash function of the samples sends all messages to the same point. *)
Lemma sample_hashes hash : hashToPoint (be_bytes 32 hash) [4] = Some (Ok sample_point).
Proof.
  rewrite <- sample_hash. unfold hashToPoint.
  assert (hashToFpXMDSHA256 (be_bytes 32 hash) [4] 2 = hashToFpXMDSHA256 [1; 2; 3] [4] 2) as ->; reflexivity.
Qed.

Lemma sample_verifies hash signers :
  signers ∈ [[2; 3]; [0; 1; 3]] -> Verify (sample_signature signers) sample_validators hash [4] = Some (Ok tt).
Proof.
  intros Hs.
  apply (@Verify_accepts sample_curve _ _ _ _ ((fun i => sample_validator (i + 1) (10 * (i + 1))) <$> signers)
    (sample_point * foldr Z.add 0 (sample_keys signers)) (sample_keys signers) sample_point (-1)).
  all: try exact (sample_hashes hash).
  all: set_unfold in Hs; destruct Hs as [->| [->|[]]].
  all: try (match goal with |- @eq bool _ _ => idtac end; vm_cast_no_check (@eq_refl bool true)).
  all: reflexivity.
Qed.

Lemma sample_validators_ok : validators_ok sample_validators.
Proof. split; [by_computation|by repeat constructor]. Qed.

(** The second validator leaves, the third is given more power, and a fifth joins. *)
Definition sample_next : list ValidatorMetadata :=
  [sample_validator 5 50; sample_validator 1 10; sample_validator 3 90; sample_validator 4 40].

Lemma sample_copyable : copyable sample_validators.
Proof. reflexivity. Qed.

Lemma delta_roundtrip_witness :
  exists d, createValidatorSetDelta sample_validators sample_next = Ok d /\
    ApplyDelta sample_validators (Some d) = Some (Ok (merged sample_validators sample_next)).
Proof.
  destruct (@delta_roundtrip sample_curve sample_points_eq sample_validators sample_next) as (d & Hc & Ha & _).
  - by_computation.
  - by_computation.
  - by_computation.
  - exact sample_copyable.
  - assert (Hk : Forall (fun v => Forall (fun w => v_Address v = v_Address w -> v_BlsKey v = v_BlsKey w) sample_next) sample_validators)
      by by_computation.
    intros v w Hv Hw. rewrite list.Forall_forall in Hk. specialize (Hk v Hv). rewrite list.Forall_forall in Hk. by apply Hk.
  - by_computation.
  - by exists d.
Defined.

(** * Aggregating the signatures of validators

    The seals of a block and the votes for a commitment are put together in the same way: a
    bit for the index of each signer and the sum of the signatures. If each signature
    verifies under the key of its signer and the signers are distinct, the sum verifies under
    the keys the bitmap selects. *)
Local Open Scope go_scope.

Section Bitmaps.
Context `{Bn256} `{!EqDecision G2}.

Definition bits (idxs : list nat) : Bitmap := foldl (fun b i => bm_Set b (Z.of_nat i)) [] idxs.

Lemma bits_snoc idxs i : bits (idxs ++ [i]) = bm_Set (bits idxs) (Z.of_nat i).
Proof using Type. unfold bits. by rewrite foldl_app. Qed.

Lemma bit_at_bits idxs j : 0 <= j -> bit_at (bits idxs) j = bool_decide (Z.to_nat j ∈ idxs).
Proof using Type.
  intros Hj. induction idxs as [|i idxs IH] using rev_ind.
  - unfold bit_at. cbn. rewrite Z.testbit_0_l. symmetry. apply bool_decide_eq_false. apply not_elem_of_nil.
  - rewrite bits_snoc, bit_at_Set, IH by lia. apply eq_true_iff_eq. rewrite orb_true_iff, Z.eqb_eq, !bool_decide_eq_true, elem_of_app, list_elem_of_singleton.
    split; (intros [?|?]; [right|left]; (done || lia)).
Qed.

Lemma bm_Set_length b i n : 0 <= i < n -> Z.of_nat (length b) <= n -> Z.of_nat (length (bm_Set b i)) <= n.
Proof using Type.
  intros Hi Hb. unfold bm_Set. rewrite length_alter. unfold bm_extend. rewrite length_app, length_replicate.
  assert (i / 8 <= i) by (apply Z.div_le_upper_bound; lia). assert (0 <= i / 8) by (apply Z.div_pos; lia). lia.
Qed.

Lemma bits_length idxs n : Forall (fun i => (i < n)%nat) idxs -> Z.of_nat (length (bits idxs)) <= Z.of_nat n.
Proof using Type.
  induction idxs as [|i idxs IH] using rev_ind; [cbn; lia|]. intros [Hs Hi]%Forall_app. rewrite Forall_singleton in Hi. rewrite bits_snoc.
  apply bm_Set_length; [lia|by apply IH].
Qed.

(** The bits of indices in range select exactly the validators at them. *)
Lemma filtered_bits (l : list ValidatorMetadata) idxs :
  Forall (fun i => (i < length l)%nat) idxs -> Z.of_nat (length l) * 8 < two64 ->
  GetFilteredValidators l (bits idxs) = Ok (snd <$> filter (fun p : nat * ValidatorMetadata => p.1 ∈ idxs) (imap pair l)).
Proof using Type.
  intros Hin Hlen. assert (Hok : bitmap_ok (bits idxs)) by (unfold bitmap_ok; pose proof (bits_length _ _ Hin); lia).
  assert (Hset : forall j, 0 <= j -> bm_IsSet (bits idxs) j = bool_decide (Z.to_nat j ∈ idxs)) by (intros j Hj; by rewrite bm_IsSet_bit, bit_at_bits).
  unfold GetFilteredValidators. destruct l as [|v l]; [done|]. set (k := v :: l) in *.
  assert (Hno : existsb (bm_IsSet (bits idxs)) (seqZ (Z.of_nat (length k)) (bm_Len (bits idxs) - Z.of_nat (length k))) = false).
  { apply not_true_iff_false. intros (j & Hj%list_elem_of_In & Hb)%existsb_exists. apply elem_of_seqZ in Hj. rewrite Hset in Hb by lia. apply bool_decide_eq_true in Hb.
    rewrite Forall_forall in Hin. specialize (Hin _ Hb). cbn beta in Hin. lia. }
  rewrite Hno, andb_false_r. f_equal. f_equal. apply list_filter_iff. intros [i w]. cbn. rewrite Hset by lia. rewrite Nat2Z.id. by rewrite bool_decide_spec.
Qed.

Lemma imap_pair_elem {A} (l : list A) i v : (i, v) ∈ imap pair l <-> l !! i = Some v.
Proof using Type.
  rewrite list_elem_of_lookup. split.
  - intros [j Hj]. rewrite list_lookup_imap in Hj. destruct (l !! j) as [w|] eqn:E; [|done]. cbn in Hj. by injection Hj as <- <-.
  - intros Hi. exists i. by rewrite list_lookup_imap, Hi.
Qed.

Lemma imap_pair_NoDup {A} (l : list A) : NoDup (imap pair l).
Proof using Type.
  apply NoDup_alt. intros i j [k v] Hi Hj. rewrite list_lookup_imap in Hi, Hj. destruct (l !! i), (l !! j); try done. cbn in *. congruence.
Qed.

(** They are those of the signers, up to the order. *)
Lemma selected_perm {A} (l : list A) (idxs : list nat) vs :
  NoDup idxs -> Forall2 (fun i v => l !! i = Some v) idxs vs ->
  snd <$> filter (fun p : nat * A => p.1 ∈ idxs) (imap pair l) ≡ₚ vs.
Proof using Type.
  intros Hn Hv. assert (Hlen : length idxs = length vs) by (by eapply Forall2_length).
  assert (Hz : (zip idxs vs).*2 = vs) by (apply snd_zip; lia). rewrite <- Hz at 1. apply fmap_Permutation, NoDup_Permutation.
  - apply NoDup_filter, imap_pair_NoDup.
  - apply (NoDup_fmap_1 fst). by rewrite fst_zip by lia.
  - intros [i v]. rewrite list_elem_of_filter, imap_pair_elem. cbn. split.
    + intros [Hi Hl]. apply list_elem_of_lookup_1 in Hi as [j Hj]. destruct (Forall2_lookup_l _ _ _ _ _ Hv Hj) as (w & Hw & E). assert (w = v) as -> by congruence.
      apply list_elem_of_lookup. exists j. rewrite lookup_zip_with, Hj. cbn. by rewrite Hw.
    + intros [j Hj]%list_elem_of_lookup_1. rewrite lookup_zip_with in Hj. destruct (idxs !! j) as [i'|] eqn:Ei; [|done]. cbn in Hj.
      destruct (vs !! j) as [w|] eqn:Ew; [|done]. cbn in Hj. injection Hj as -> ->. split; [by eapply list_elem_of_lookup_2|].
      destruct (Forall2_lookup_l _ _ _ _ _ Hv Ei) as (w & Hw & E). congruence.
Qed.

Lemma mapM_perm {A B} (f : A -> option B) l k a : l ≡ₚ k -> mapM f l = Some a -> exists b, mapM f k = Some b /\ a ≡ₚ b.
Proof using Type.
  intros Hp. revert a. induction Hp as [|x l k _ IH|x y l|l k m _ IH1 _ IH2]; intros a; cbn.
  - intros [= <-]. by exists [].
  - destruct (f x) as [u|]; [|done]. cbn. destruct (mapM f l) as [us|]; [|done]. cbn. intros [= <-]. destruct (IH us eq_refl) as (b & -> & Hb). exists (u :: b). by rewrite Hb.
  - destruct (f y) as [v|]; [|done]. cbn. destruct (f x) as [u|]; [|done]. cbn. destruct (mapM f l) as [us|]; [|done]. cbn. intros [= <-]. exists (u :: v :: us).
    split; [done|]. apply Permutation_swap.
  - intros (b & Hb & Hab)%IH1. destruct (IH2 b Hb) as (c & Hc & Hbc). exists c. split; [done|]. by rewrite Hab.
Qed.

End Bitmaps.

Section Aggregates.
Context `{Hlaws : Bn256Laws} `{!EqDecision G2}.

Lemma foldr_gt_perm (x : GT) (l k : list GT) : l ≡ₚ k -> foldr gt_mul x l = foldr gt_mul x k.
Proof using Type.
  induction 1 as [|a l k _ IH|a b l|l k m _ IH1 _ IH2]; cbn; [done|by rewrite IH|apply gt_swap|by rewrite IH1].
Qed.

Lemma pk_Aggregate_pairing h (pks pks' : list PublicKey) : pks ≡ₚ pks' -> pairing h (pk_Aggregate pks) = pairing h (pk_Aggregate pks').
Proof using Hlaws.
  intros Hp. unfold pk_Aggregate. rewrite !pairing_fold_r. apply foldr_gt_perm. by apply fmap_Permutation.
Qed.

(** The sum of signatures that verify one by one verifies. *)
Lemma verify_sum msg domain (sigs : list Bls.Signature) (pks : list PublicKey) :
  sigs <> [] -> Forall2 (fun s pk => sig_Verify s pk msg domain = Some true) sigs pks ->
  VerifyAggregated (sig_Aggregate sigs) pks msg domain = Some true.
Proof using Hlaws.
  intros Hne Hs. unfold VerifyAggregated, sig_Verify in *.
  assert (Hp : exists point neg, hashToPoint msg domain = Some (Ok point) /\ negG2Point = Some neg).
  { destruct Hs as [|s pk sigs pks Hs _]; [done|]. destruct (hashToPoint msg domain) as [[point|]|]; [|done..]. cbn in Hs. destruct negG2Point as [neg|]; [|done]. by exists point, neg. }
  destruct Hp as (point & neg & Hp & Hg). rewrite Hp, Hg. cbn [mbind option_bind]. f_equal. apply PairingCheck_spec. cbn [zip_with foldr].
  rewrite (gt_mul_comm _ gt_one), gt_mul_one. unfold sig_Aggregate, pk_Aggregate. rewrite pairing_fold, pairing_fold_r, pairing_zero_l, pairing_zero_r. clear Hne.
  induction Hs as [|s pk sigs pks Hs _ IH]; [apply gt_mul_one|]. cbn [fmap list_fmap foldr]. rewrite <- gt_mul_assoc, (gt_swap _ (pairing point pk)), IH.
  rewrite Hp, Hg in Hs. cbn [mbind option_bind] in Hs. injection Hs as Hone. apply PairingCheck_spec in Hone. cbn [zip_with foldr] in Hone. exact Hone.
Qed.

Lemma VerifyAggregated_perm s (pks pks' : list PublicKey) msg domain :
  pks ≡ₚ pks' -> VerifyAggregated s pks msg domain = Some true -> VerifyAggregated s pks' msg domain = Some true.
Proof using Hlaws.
  intros Hp. unfold VerifyAggregated, sig_Verify. destruct (hashToPoint msg domain) as [[point|]|]; [|done..]. cbn [mbind option_bind]. destruct negG2Point as [neg|]; [|done].
  cbn [mbind option_bind]. intros Hc. injection Hc as Hc'. f_equal.
  apply PairingCheck_spec in Hc'. apply PairingCheck_spec. cbn [zip_with foldr] in *. by rewrite <- (pk_Aggregate_pairing _ _ _ Hp).
Qed.

(** A signature of the validator at an index. *)
Definition signed_by (l : list ValidatorMetadata) (msg domain : list Z) (i : nat) (s : Bls.Signature) : Prop :=
  exists v key, l !! i = Some v /\ v_BlsKey v = Some key /\ sig_Verify s key msg domain = Some true.

Lemma aggregate_accepted (l : list ValidatorMetadata) idxs sigs msg domain :
  NoDup idxs -> idxs <> [] -> Z.of_nat (length l) * 8 < two64 -> Forall2 (signed_by l msg domain) idxs sigs ->
  exists signers keys, GetFilteredValidators l (bits idxs) = Ok signers /\ mapM v_BlsKey signers = Some keys /\
    VerifyAggregated (sig_Aggregate sigs) keys msg domain = Some true /\ (forall v, v ∈ signers <-> exists i, i ∈ idxs /\ l !! i = Some v).
Proof using Hlaws.
  intros Hn Hne Hlen Hs.
  assert (Hvs : exists vs keys, Forall2 (fun i v => l !! i = Some v) idxs vs /\ mapM v_BlsKey vs = Some keys /\
    Forall2 (fun s pk => sig_Verify s pk msg domain = Some true) sigs keys).
  { clear Hn Hne. induction Hs as [|i s idxs sigs (v & key & Hv & Hk & Hsig) _ (vs & keys & Hvs & Hkeys & Hall)]; [exists [], []; repeat split; constructor|].
    exists (v :: vs), (key :: keys). split; [by constructor|]. split; [|by constructor]. cbn. by rewrite Hk, Hkeys. }
  destruct Hvs as (vs & keys & Hvs & Hkeys & Hall). pose proof (selected_perm l idxs vs Hn Hvs) as Hperm.
  assert (Hin : Forall (fun i => (i < length l)%nat) idxs).
  { apply Forall_forall. intros i [j Hj]%list_elem_of_lookup_1. destruct (Forall2_lookup_l _ _ _ _ _ Hvs Hj) as (v & _ & Hv). by eapply lookup_lt_Some. }
  set (signers := snd <$> filter (fun p : nat * ValidatorMetadata => p.1 ∈ idxs) (imap pair l)) in *.
  destruct (mapM_perm v_BlsKey vs signers keys) as (keys' & Hk' & Hkp); [by symmetry|done|].
  exists signers, keys'. split; [by apply filtered_bits|]. split; [done|]. split.
  - apply (VerifyAggregated_perm _ keys); [done|]. apply verify_sum; [|done]. intros ->. apply Forall2_nil_inv_r in Hs. done.
  - intros v. unfold signers. rewrite list_elem_of_fmap. split.
    + intros ([i w] & -> & [Hi Hw%imap_pair_elem]%list_elem_of_filter). eauto.
    + intros (i & Hi & Hw). exists (i, v). split; [done|]. apply list_elem_of_filter. by rewrite imap_pair_elem.
Qed.

End Aggregates.
