(* ===== verification/PlgExtra.v ===== *)
(** * Consensus data of a header ([consensus/plgbft/extra.go], [hash.go])

    The extra field of a header: the change of the validator set, the signatures of the
    block and of its parent, and the checkpoint. Its RLP form, its validation, and the hash
    of a header without its own signatures. [None] is a panic. *)

From stdpp Require Import gmap.
From S2P Require Import Prelude ChainTypes BigInt Runtime Receipts Rlp ChainRlp Bls Validators.
Local Open Scope go_scope.

Record CheckpointData := mkCheckpoint {
  BlockRound : Z; EpochNumber : Z; CurrentValidatorsHash : Hash; NextValidatorsHash : Hash; EventRoot : Hash }.

(** The errors of the validation. *)
Inductive ExtraErr :=
  | ErrNoCommitted | ErrNoCheckpoint | ErrHash | ErrValidators | ErrCommitted (e : SetErr) | ErrParentExtra (e : RlpErr)
  | ErrNoParent | ErrParentSignature (e : SetErr) | ErrEpoch | ErrCurrentHash | ErrNextHash | ErrDelta (e : SetErr) | ErrDeltaDiffers
  | ErrCurrentDiffers | ErrNextDiffers | ErrEpochEnding.

(** The encoder of [ethgo/abi] on the two types of this package: a checkpoint (chain
    identifier, number and hash of the block, and the fields of the checkpoint) and a list
    of validators (address, key, voting power). *)
Class AbiCodec := {
  abi_checkpoint : Z -> Z -> Hash -> CheckpointData -> option (list Z);
  abi_validators : list (Address * list Z * Z) -> option (list Z);
}.

(** Two more accessors of [fastrlp]. *)
Class RlpAccess := {
  rlp_Len : rlp -> Z;
  rlp_GetBool : rlp -> option bool;
}.

Class RlpAccessLaws `{RlpAccess} := {
  Len_bytes b : rlp_Len (RBytes b) = Z.of_nat (length b);
  GetBool_norm b : rlp_GetBool (norm (VBool b)) = Some b;
}.

(** The consensus engine as the rest of the package sees it: the validators of the block
    after the given one, with the headers of the batch that are not in the chain yet. *)
Class plgbftBackend `{Bn256} := { GetValidators : Z -> list Header -> option (list ValidatorMetadata) }.

Section Extra.
Context `{Bn256} `{!EqDecision G2} `{Fastrlp} `{RlpAccess} `{AbiCodec}.

Record Extra := mkExtra {
  e_Validators : option ValidatorSetDelta; e_Seal : list Z; e_Parent : option AggSignature;
  e_Committed : option AggSignature; e_Checkpoint : option CheckpointData }.

(** ** Encoders

    A validator without a key makes them panic. *)

Definition v_MarshalRLPWith (v : ValidatorMetadata) : option Value :=
  key ← v_BlsKey v;
  Some (VArray [addr_value (v_Address v); VBytes (pk_Marshal key); VBigInt (v_VotingPower v); VBool (v_IsActive v)]).

Definition d_MarshalRLPWith (d : ValidatorSetDelta) : option Value :=
  added ← mapM v_MarshalRLPWith (Added d);
  updated ← mapM v_MarshalRLPWith (Updated d);
  Some (VArray [VArray added; VArray updated; VBytes (Removed d)]).

Definition s_MarshalRLPWith (s : AggSignature) : Value := VArray [VBytes (AggregatedSignature s); VBytes (s_Bitmap s)].

Definition c_MarshalRLPWith (c : CheckpointData) : Value :=
  VArray [VUint (BlockRound c); VUint (EpochNumber c); hash_value (CurrentValidatorsHash c);
          hash_value (NextValidatorsHash c); hash_value (EventRoot c)].

Definition or_null_array {A} (f : A -> Value) (o : option A) : Value := match o with None => VNullArray | Some a => f a end.

Definition e_MarshalRLPWith (e : Extra) : option Value :=
  validators ← match e_Validators e with None => Some VNullArray | Some d => d_MarshalRLPWith d end;
  Some (VArray [validators; match e_Seal e with [] => VNull | seal => VBytes seal end;
                or_null_array s_MarshalRLPWith (e_Parent e); or_null_array s_MarshalRLPWith (e_Committed e);
                or_null_array c_MarshalRLPWith (e_Checkpoint e)]).

Definition e_MarshalRLPTo (e : Extra) : option (list Z) := fastrlp_MarshalTo <$> e_MarshalRLPWith e.

(** ** Decoders *)

Definition exactly (n : nat) (elems : list rlp) : Dec unit :=
  if (length elems =? n)%nat then mret tt else fail (ErrElems n (length elems)).

Definition v_UnmarshalRLPWith (val : rlp) : Dec ValidatorMetadata :=
  elems ← GetElems val;
  _ ← exactly 4 elems;
  address ← elem elems 0 ≫= (fun v => lift (rlp_GetBytes v));
  blsKeyRaw ← elem elems 1 ≫= (fun v => lift (rlp_GetBytes v));
  blsKey ← match Bls.UnmarshalPublicKey blsKeyRaw with Ok key => mret key | Err _ => fail ErrRlp end;
  votingPower ← elem elems 2 ≫= (fun v => lift (rlp_GetBigInt v));
  isActive ← elem elems 3 ≫= (fun v => lift (rlp_GetBool v));
  mret (mkValidator (BytesToAddress address) (Some blsKey) votingPower isActive).

Definition unmarshalValidators (validatorsRaw : list rlp) : Dec (list ValidatorMetadata) := each v_UnmarshalRLPWith validatorsRaw.

Definition d_UnmarshalRLPWith (v : rlp) : Dec ValidatorSetDelta :=
  elems ← GetElems v;
  match elems with
  | [] => mret (mkDelta [] [] [])
  | _ =>
      _ ← exactly 3 elems;
      added ← elem elems 0 ≫= (fun v => GetElems v ≫= unmarshalValidators);
      updated ← elem elems 1 ≫= (fun v => GetElems v ≫= unmarshalValidators);
      removed ← elem elems 2 ≫= (fun v => lift (rlp_GetBytes v));
      mret (mkDelta added updated removed)
  end.

Definition s_UnmarshalRLPWith (v : rlp) : Dec AggSignature :=
  vals ← GetElems v;
  _ ← exactly 2 vals;
  aggregated ← elem vals 0 ≫= (fun v => lift (rlp_GetBytes v));
  bitmap ← elem vals 1 ≫= (fun v => lift (rlp_GetBytes v));
  mret (mkAggSignature aggregated bitmap).

Definition c_UnmarshalRLPWith (v : rlp) : Dec CheckpointData :=
  vals ← GetElems v;
  _ ← exactly 5 vals;
  blockRound ← elem vals 0 ≫= (fun v => lift (rlp_GetUint64 v));
  epochNumber ← elem vals 1 ≫= (fun v => lift (rlp_GetUint64 v));
  current ← elem vals 2 ≫= (fun v => lift (rlp_GetBytes v));
  next ← elem vals 3 ≫= (fun v => lift (rlp_GetBytes v));
  eventRoot ← elem vals 4 ≫= (fun v => lift (rlp_GetBytes v));
  mret (mkCheckpoint blockRound epochNumber (BytesToHash current) (BytesToHash next) (BytesToHash eventRoot)).

(** [Value.Elems] is the number of elements, none for a byte string. *)
Definition rlp_Elems (v : rlp) : nat := match v with RArray l => length l | RBytes _ => 0 end.

Definition if_elems {A} (f : rlp -> Dec A) (v : rlp) : Dec (option A) :=
  if (0 <? rlp_Elems v)%nat then x ← f v; mret (Some x) else mret None.

Definition e_UnmarshalRLPWith (v : rlp) : Dec Extra :=
  elems ← GetElems v;
  _ ← exactly 5 elems;
  validators ← elem elems 0 ≫= if_elems d_UnmarshalRLPWith;
  seal ← elem elems 1 ≫= (fun v => if 0 <? rlp_Len v then lift (rlp_GetBytes v) else mret []);
  parent ← elem elems 2 ≫= if_elems s_UnmarshalRLPWith;
  committed ← elem elems 3 ≫= if_elems s_UnmarshalRLPWith;
  checkpoint ← elem elems 4 ≫= if_elems c_UnmarshalRLPWith;
  mret (mkExtra validators seal parent committed checkpoint).

Definition e_UnmarshalRLP (input : list Z) : Dec Extra := UnmarshalRlp e_UnmarshalRLPWith input.

(** ** The extra field of a header *)

Definition ExtraVanity : nat := 32.

Definition GetIbftExtra (extraB : list Z) : Dec Extra :=
  if (length extraB <? ExtraVanity)%nat then fail ErrRlp
  else
    extra ← e_UnmarshalRLP (drop ExtraVanity extraB);
    mret (match e_Validators extra with
          | Some _ => extra
          | None => mkExtra (Some (mkDelta [] [] [])) (e_Seal extra) (e_Parent extra) (e_Committed extra) (e_Checkpoint extra)
          end).

(** The extra field without the signatures of the block itself. *)
Definition GetIbftExtraClean (extraRaw : list Z) : Dec (list Z) :=
  extra ← GetIbftExtra extraRaw;
  match e_MarshalRLPTo (mkExtra (e_Validators extra) [] (e_Parent extra) (Some (mkAggSignature [] [])) (e_Checkpoint extra)) with
  | None => None
  | Some raw => mret raw
  end.

Definition set_hExtraData (extra : list Z) (h : Header) : Header :=
  mkHeader (h_ParentHash h) (h_Sha3Uncles h) (h_Miner h) (h_StateRoot h) (h_TxRoot h) (h_ReceiptsRoot h) (h_LogsBloom h)
    (h_Difficulty h) (h_Number h) (h_GasLimit h) (h_GasUsed h) (h_Timestamp h) extra (h_MixHash h) (h_Nonce h) (h_Hash h).

(** The hash function [setupHeaderHashFunc] installs. *)
Definition plgBFTHeaderHash (h : Header) : option Hash :=
  match GetIbftExtraClean (h_ExtraData h) with
  | None => None
  | Some (Err _) => Some 0
  | Some (Ok extra) => Some (defHeaderHash (set_hExtraData extra h))
  end.

(** ** Checkpoints *)

Definition c_Hash (c : CheckpointData) (chainID blockNumber : Z) (blockHash : Hash) : option Hash :=
  abiEncoded ← abi_checkpoint chainID blockNumber blockHash c;
  Some (BytesToHash (keccak256 abiEncoded)).

Definition ToAPIBinding (a : list ValidatorMetadata) : option (list (Address * list Z * Z)) :=
  mapM (fun v => key ← v_BlsKey v; blsKey ← pk_ToBigInt key; Some (v_Address v, blsKey, v_VotingPower v)) a.

(** The outer option is the panic, the inner one the error. *)
Definition as_Hash (a : list ValidatorMetadata) : option (option Hash) :=
  binding ← ToAPIBinding a;
  Some (abiEncoded ← abi_validators binding; Some (BytesToHash (keccak256 abiEncoded))).

Definition ValidateBasic (c parentCheckpoint : CheckpointData) : result ExtraErr unit :=
  if negb (EpochNumber c =? EpochNumber parentCheckpoint) && negb (EpochNumber c =? EpochNumber parentCheckpoint +u 1) then Err ErrEpoch
  else if CurrentValidatorsHash c =? 0 then Err ErrCurrentHash
  else if NextValidatorsHash c =? 0 then Err ErrNextHash
  else Ok tt.

Definition Validate (c parentCheckpoint : CheckpointData) (currentValidators nextValidators : list ValidatorMetadata)
    : option (result ExtraErr unit) :=
  match ValidateBasic c parentCheckpoint with
  | Err e => Some (Err e)
  | Ok _ =>
      current ← as_Hash currentValidators;
      match current with
      | None => Some (Err ErrHash)
      | Some currentValidatorsHash =>
          if negb (currentValidatorsHash =? CurrentValidatorsHash c) then Some (Err ErrCurrentDiffers)
          else
            next ← as_Hash nextValidators;
            match next with
            | None => Some (Err ErrHash)
            | Some nextValidatorsHash =>
                Some (if negb (nextValidatorsHash =? NextValidatorsHash c) then Err ErrNextDiffers
                      else if negb (as_Equals currentValidators nextValidators) && negb (EpochNumber c =? EpochNumber parentCheckpoint)
                      then Err ErrEpochEnding else Ok tt)
            end
      end
  end.

(** ** Validation of a finalized header *)

Definition ValidateDelta (i : Extra) (oldValidators newValidators : list ValidatorMetadata) : option (result ExtraErr unit) :=
  match createValidatorSetDelta oldValidators newValidators with
  | Err e => Some (Err (ErrDelta e))
  | Ok delta => d ← e_Validators i; Some (if d_Equals d delta then Ok tt else Err ErrDeltaDiffers)
  end.

Context `{!plgbftBackend}.

(** The checkpoint hash of the header, signed by the validators of the block. *)
Definition verify_checkpoint (s : AggSignature) (c : CheckpointData) (chainID : Z) (h : Header) (validators : list ValidatorMetadata)
    (domain : list Z) (err : SetErr -> ExtraErr) : option (result ExtraErr unit) :=
  match c_Hash c chainID (h_Number h) (h_Hash h) with
  | None => Some (Err ErrHash)
  | Some hash =>
      r ← Verify s validators hash domain;
      Some (match r with Ok _ => Ok tt | Err e => Err (err e) end)
  end.

Definition ValidateParentSignatures (i : Extra) (blockNumber : Z) (parents : list Header) (parent : Header) (parentExtra : Extra)
    (chainID : Z) (domain : list Z) : option (result ExtraErr unit) :=
  if blockNumber <=? 1 then Some (Ok tt)
  else
    match e_Parent i with
    | None => Some (Err ErrNoParent)
    | Some signature =>
        match GetValidators (blockNumber -u 2) parents with
        | None => Some (Err ErrValidators)
        | Some parentValidators =>
            checkpoint ← e_Checkpoint parentExtra;
            verify_checkpoint signature checkpoint chainID parent parentValidators domain ErrParentSignature
        end
    end.

Definition ValidateFinalizedData (i : Extra) (header parent : Header) (parents : list Header) (chainID : Z) (domain : list Z)
    : option (result ExtraErr unit) :=
  match e_Committed i, e_Checkpoint i with
  | None, _ => Some (Err ErrNoCommitted)
  | Some _, None => Some (Err ErrNoCheckpoint)
  | Some committed, Some checkpoint =>
      match c_Hash checkpoint chainID (h_Number header) (h_Hash header), GetValidators (h_Number header -u 1) parents with
      | None, _ => Some (Err ErrHash)
      | Some _, None => Some (Err ErrValidators)
      | Some _, Some validators =>
          r ← verify_checkpoint committed checkpoint chainID header validators domain ErrCommitted;
          match r with
          | Err e => Some (Err e)
          | Ok _ =>
              parentExtra ← GetIbftExtra (h_ExtraData parent);
              match parentExtra with
              | Err e => Some (Err (ErrParentExtra e))
              | Ok parentExtra =>
                  r ← ValidateParentSignatures i (h_Number header) parents parent parentExtra chainID domain;
                  match r with
                  | Err e => Some (Err e)
                  | Ok _ => parentCheckpoint ← e_Checkpoint parentExtra; Some (ValidateBasic checkpoint parentCheckpoint)
                  end
              end
          end
      end
  end.

(** ** Blocks of the chain ([runtime_helpers.go]) *)

Inductive BlockDataErr := ErrNoBlock | ErrBadExtra.

(** [chain] is [GetHeaderByNumber] of the blockchain. *)
Definition getBlockData (chain : Z -> option Header) (blockNumber : Z) : option (result BlockDataErr Extra) :=
  match chain blockNumber with
  | None => Some (Err ErrNoBlock)
  | Some blockHeader =>
      extra ← GetIbftExtra (h_ExtraData blockHeader);
      Some (match extra with Ok e => Ok e | Err _ => Err ErrBadExtra end)
  end.

(** A block without a checkpoint makes it panic. *)
Definition isEpochEndingBlock (chain : Z -> option Header) (blockNumber : Z) (extra : Extra) : option (result BlockDataErr bool) :=
  d ← e_Validators extra;
  if negb (d_IsEmpty d) then Some (Ok true)
  else
    next ← getBlockData chain (blockNumber +u 1);
    match next with
    | Err e => Some (Err e)
    | Ok nextBlockExtra =>
        checkpoint ← e_Checkpoint extra;
        nextCheckpoint ← e_Checkpoint nextBlockExtra;
        Some (Ok (negb (EpochNumber checkpoint =? EpochNumber nextCheckpoint)))
    end.

End Extra.
