(* ===== verification/PlgExtraProps.v ===== *)
(** * Properties of the consensus data of a header

    The extra field is decoded to what was encoded, the hash of a header covers all of it
    but the vanity and the signatures of the block, and two finalized headers of a height
    are the same unless a third of the voting power is faulty. *)

From stdpp Require Import gmap.
From S2P Require Import Prelude ChainTypes BigInt Runtime Receipts Rlp ChainRlp TrieSample ChainRlpProps Bls Validators ValidatorsProps PlgExtra.
Local Open Scope go_scope.

Section Extra.
Context `{Bn256} `{!EqDecision G2} `{Fastrlp} `{!CodecLaws} `{!FastrlpLaws} `{RlpAccess} `{!RlpAccessLaws} `{AbiCodec}.

(** ** Data that fits its Go types *)

Record validator_fits (v : ValidatorMetadata) : Prop := {
  vf_address : addr_ok (v_Address v); vf_power : 0 <= v_VotingPower v;
  vf_key : exists key, v_BlsKey v = Some key /\ bytes_ok (pk_Marshal key) /\ Bls.UnmarshalPublicKey (pk_Marshal key) = Ok key }.

Record delta_fits (d : ValidatorSetDelta) : Prop := {
  df_added : Forall validator_fits (Added d); df_updated : Forall validator_fits (Updated d); df_removed : bytes_ok (Removed d) }.

Definition signature_fits (s : AggSignature) : Prop := bytes_ok (AggregatedSignature s) /\ bytes_ok (s_Bitmap s).

Record checkpoint_fits (c : CheckpointData) : Prop := {
  cf_round : is_u64 (BlockRound c); cf_epoch : is_u64 (EpochNumber c); cf_current : word (CurrentValidatorsHash c);
  cf_next : word (NextValidatorsHash c); cf_root : word (EventRoot c) }.

Definition all_of {A} (P : A -> Prop) (o : option A) : Prop := match o with Some a => P a | None => True end.

Record extra_fits (e : Extra) : Prop := {
  xf_validators : all_of delta_fits (e_Validators e); xf_seal : bytes_ok (e_Seal e);
  xf_parent : all_of signature_fits (e_Parent e); xf_committed : all_of signature_fits (e_Committed e);
  xf_checkpoint : all_of checkpoint_fits (e_Checkpoint e) }.

(** ** Round trips of the parts *)

Ltac array_ok :=
  apply value_ok_array;
  repeat match goal with |- Forall value_ok [] => apply List.Forall_nil | |- Forall value_ok (_ :: _) => apply List.Forall_cons end; try done.

Lemma exactly_then {B} l n (k : list rlp -> Dec B) r :
  length l = n -> k (map norm l) = r -> (elems ← GetElems (norm (VArray l)); _ ← exactly n elems; k elems) = r.
Proof using Type. intros Hn <-. cbn. unfold exactly. by rewrite length_map, Hn, Nat.eqb_refl. Qed.

Lemma get_then {A B} (get : rlp -> option A) elems i v a (k : A -> Dec B) r :
  elems !! i = Some v -> get v = Some a -> k a = r -> ((elem elems i ≫= (fun v => lift (get v))) ≫= k) = r.
Proof using Type. unfold elem. intros -> Ha <-. cbn. by rewrite Ha. Qed.

Lemma validator_roundtrip v : validator_fits v ->
  exists x, v_MarshalRLPWith v = Some x /\ value_ok x /\ v_UnmarshalRLPWith (norm x) = Some (Ok v).
Proof using All.
  intros [Ha Hp (key & Hk & Hb & Hu)]. unfold v_MarshalRLPWith. rewrite Hk. eexists. split; [reflexivity|]. split.
  - array_ok. apply be_bytes_ok.
  - unfold v_UnmarshalRLPWith. apply exactly_then; [done|].
    eapply get_then; [reflexivity|apply GetBytes_value|]. eapply get_then; [reflexivity|apply GetBytes_value|].
    rewrite Hu, mret_bind. eapply get_then; [reflexivity|by apply GetBigInt_value|].
    eapply get_then; [reflexivity|apply GetBool_norm|]. rewrite address_bytes by done. rewrite <- Hk. by destruct v.
Qed.

Lemma validators_roundtrip l : Forall validator_fits l ->
  exists xs, mapM v_MarshalRLPWith l = Some xs /\ Forall value_ok xs /\ unmarshalValidators (map norm xs) = Some (Ok l).
Proof using All.
  induction 1 as [|v l Hv _ (xs & Hm & Hok & Hu)]; [by exists []|].
  destruct (validator_roundtrip v Hv) as (x & Hx & Hxok & Hxu). exists (x :: xs). cbn. rewrite Hx. cbn. rewrite Hm.
  split; [done|]. split; [by constructor|]. unfold unmarshalValidators in *. cbn. by rewrite Hxu, ret_bind, Hu.
Qed.

Lemma delta_decode a u r :
  d_UnmarshalRLPWith (RArray [RArray a; RArray u; RBytes r]) =
  (added ← unmarshalValidators a; updated ← unmarshalValidators u; removed ← lift (rlp_GetBytes (RBytes r)); mret (mkDelta added updated removed)).
Proof using Type. reflexivity. Qed.

Lemma delta_rlp d : delta_fits d ->
  exists x l, d_MarshalRLPWith d = Some x /\ value_ok x /\ norm x = RArray l /\ l <> [] /\ d_UnmarshalRLPWith (norm x) = Some (Ok d).
Proof using All.
  intros [Ha Hu Hr]. destruct (validators_roundtrip _ Ha) as (xa & Ma & Oa & Ua). destruct (validators_roundtrip _ Hu) as (xu & Mu & Ou & Uu).
  unfold d_MarshalRLPWith. rewrite Ma, Mu. cbn [mbind option_bind]. eexists _, _. split; [reflexivity|].
  split; [array_ok; by apply value_ok_array|]. split; [reflexivity|]. split; [done|].
  change (d_UnmarshalRLPWith (RArray [RArray (map norm xa); RArray (map norm xu); RBytes (Removed d)]) = Some (Ok d)).
  rewrite delta_decode, Ua, ret_bind, Uu, ret_bind, GetBytes_norm. by destruct d.
Qed.

Lemma signature_rlp s : signature_fits s -> value_ok (s_MarshalRLPWith s) /\ s_UnmarshalRLPWith (norm (s_MarshalRLPWith s)) = Some (Ok s).
Proof using All.
  intros [Ha Hb]. split; [array_ok|]. unfold s_UnmarshalRLPWith. apply exactly_then; [done|].
  eapply get_then; [reflexivity|apply GetBytes_value|]. eapply get_then; [reflexivity|apply GetBytes_value|]. by destruct s.
Qed.

Lemma checkpoint_rlp c : checkpoint_fits c -> value_ok (c_MarshalRLPWith c) /\ c_UnmarshalRLPWith (norm (c_MarshalRLPWith c)) = Some (Ok c).
Proof using All.
  intros [Hr He Hc Hn Ht]. split.
  - array_ok; apply be_bytes_ok.
  - unfold c_UnmarshalRLPWith. apply exactly_then; [done|].
    eapply get_then; [reflexivity|by apply GetUint64_value|]. eapply get_then; [reflexivity|by apply GetUint64_value|].
    do 3 (eapply get_then; [reflexivity|apply GetBytes_value|]). rewrite !BytesToHash_bytes by done. by destruct c.
Qed.

Lemma if_elems_null {A} (f : A -> Value) (g : rlp -> Dec A) (P : A -> Prop) (o : option A) :
  (forall a, P a -> value_ok (f a) /\ (exists l, norm (f a) = RArray l /\ l <> []) /\ g (norm (f a)) = Some (Ok a)) -> all_of P o ->
  value_ok (or_null_array f o) /\ if_elems g (norm (or_null_array f o)) = Some (Ok o).
Proof using Type.
  intros Hf Ho. destruct o as [a|]; [|done]. destruct (Hf a Ho) as (Hok & (l & Hl & Hne) & Hg). split; [done|]. cbn [or_null_array].
  unfold if_elems. rewrite Hg. unfold rlp_Elems. rewrite Hl. by destruct l.
Qed.

Lemma extra_decode v s p c k :
  e_UnmarshalRLPWith (RArray [v; s; p; c; k]) =
  (validators ← if_elems d_UnmarshalRLPWith v; seal ← (if 0 <? rlp_Len s then lift (rlp_GetBytes s) else mret []);
   parent ← if_elems s_UnmarshalRLPWith p; committed ← if_elems s_UnmarshalRLPWith c; checkpoint ← if_elems c_UnmarshalRLPWith k;
   mret (mkExtra validators seal parent committed checkpoint)).
Proof using Type. reflexivity. Qed.

Lemma extra_rlp e : extra_fits e ->
  exists x, e_MarshalRLPWith e = Some x /\ value_ok x /\ e_UnmarshalRLPWith (norm x) = Some (Ok e).
Proof using All.
  intros [Hv Hs Hp Hc Hk].
  assert (exists x, match e_Validators e with None => Some VNullArray | Some d => d_MarshalRLPWith d end = Some x /\ value_ok x /\
    if_elems d_UnmarshalRLPWith (norm x) = Some (Ok (e_Validators e))) as (xv & Mv & Ov & Uv).
  { destruct (e_Validators e) as [d|]; [|by exists VNullArray]. destruct (delta_rlp d Hv) as (x & l & Hm & Ho & Hl & Hne & Hu).
    exists x. split; [done|]. split; [done|]. unfold if_elems. rewrite Hu. unfold rlp_Elems. rewrite Hl. by destruct l. }
  destruct (if_elems_null s_MarshalRLPWith s_UnmarshalRLPWith signature_fits (e_Parent e)) as [Op Up]; [|done|].
  { intros a Ha. destruct (signature_rlp a Ha). split; [done|]. split; [|done]. by eexists _. }
  destruct (if_elems_null s_MarshalRLPWith s_UnmarshalRLPWith signature_fits (e_Committed e)) as [Oc Uc]; [|done|].
  { intros a Ha. destruct (signature_rlp a Ha). split; [done|]. split; [|done]. by eexists _. }
  destruct (if_elems_null c_MarshalRLPWith c_UnmarshalRLPWith checkpoint_fits (e_Checkpoint e)) as [Ok' Uk]; [|done|].
  { intros a Ha. destruct (checkpoint_rlp a Ha). split; [done|]. split; [|done]. by eexists _. }
  unfold e_MarshalRLPWith. rewrite Mv. eexists. split; [reflexivity|]. split.
  - array_ok. by destruct (e_Seal e).
  - cbn [norm map]. rewrite extra_decode, Uv, ret_bind.
    assert (Hseal : (if 0 <? rlp_Len (norm match e_Seal e with [] => VNull | z :: l => VBytes (z :: l) end)
      then lift (rlp_GetBytes (norm match e_Seal e with [] => VNull | z :: l => VBytes (z :: l) end)) else mret []) = Some (Ok (e_Seal e)) :> Dec _).
    { destruct (e_Seal e) as [|b seal]; cbn [norm]; rewrite Len_bytes; [done|]. rewrite GetBytes_norm. done. }
    rewrite Hseal, ret_bind, Up, ret_bind, Uc, ret_bind, Uk, ret_bind. by destruct e.
Qed.

(** ** The extra field *)

Definition empty_delta : ValidatorSetDelta := mkDelta [] [] [].

Definition with_validators (e : Extra) : Extra :=
  mkExtra (Some (default empty_delta (e_Validators e))) (e_Seal e) (e_Parent e) (e_Committed e) (e_Checkpoint e).

Lemma GetIbftExtra_encoded e x vanity :
  extra_fits e -> e_MarshalRLPWith e = Some x -> length vanity = ExtraVanity ->
  GetIbftExtra (vanity ++ fastrlp_MarshalTo x) = Some (Ok (with_validators e)).
Proof using All.
  intros He Hx Hv. destruct (extra_rlp e He) as (x' & Hx' & Hok & Hu). rewrite Hx' in Hx. injection Hx as ->.
  unfold GetIbftExtra. rewrite length_app, Hv. rewrite (proj2 (Nat.ltb_ge _ _)) by lia.
  rewrite <- Hv, drop_app_length. unfold e_UnmarshalRLP, UnmarshalRlp. rewrite Parse_MarshalTo by done. cbn [lift]. rewrite mret_bind, Hu, ret_bind.
  unfold with_validators. by destruct e as [[d|] seal parent committed checkpoint].
Qed.

(** C38. The extra field of a header is read back from its encoding behind the vanity bytes,
    for validators, signatures, seal and checkpoint alike; a missing change of the
    validators is read as an empty one. *)
Theorem extra_roundtrip (e : Extra) (vanity : list Z) :
  extra_fits e -> length vanity = ExtraVanity ->
  exists raw, e_MarshalRLPTo e = Some raw /\ bytes_ok raw /\ e_UnmarshalRLP raw = Some (Ok e) /\
    GetIbftExtra (vanity ++ raw) = Some (Ok (with_validators e)).
Proof using All.
  intros He Hv. destruct (extra_rlp e He) as (x & Hx & Hok & Hu). exists (fastrlp_MarshalTo x). unfold e_MarshalRLPTo. rewrite Hx.
  split; [done|]. split; [by apply MarshalTo_bytes|]. split.
  - unfold e_UnmarshalRLP, UnmarshalRlp. rewrite Parse_MarshalTo by done. cbn [lift]. by rewrite mret_bind.
  - by apply GetIbftExtra_encoded.
Qed.

(** ** The header hash *)

(** What is hashed of an extra field. *)
Definition covered (e : Extra) : ValidatorSetDelta * option AggSignature * option CheckpointData :=
  (default empty_delta (e_Validators e), e_Parent e, e_Checkpoint e).

Definition clean (e : Extra) : Extra :=
  mkExtra (Some (default empty_delta (e_Validators e))) [] (e_Parent e) (Some (mkAggSignature [] [])) (e_Checkpoint e).

Lemma clean_fits e : extra_fits e -> extra_fits (clean e).
Proof using Type.
  intros [Hv Hs Hp Hc Hk]. split; cbn; try done.
  - destruct (e_Validators e); [done|]. split; apply List.Forall_nil.
  - apply List.Forall_nil.
  - split; apply List.Forall_nil.
Qed.

(** The bytes that are hashed. *)
Definition hashed_form (h : Header) (e : Extra) : list Z :=
  header_MarshalRLP (set_hExtraData (default [] (e_MarshalRLPTo (clean e))) h).

(** A header without its extra field and its hash. *)
Definition bare (h : Header) : Header := set_hExtraData [] (set_hHash 0 h).

Lemma header_inj h1 h2 :
  header_ok h1 -> header_ok h2 -> header_MarshalRLP h1 = header_MarshalRLP h2 -> set_hHash 0 h1 = set_hHash 0 h2.
Proof using All.
  intros H1' H2' Heq. unfold header_MarshalRLP in Heq.
  assert (Hn : norm (header_MarshalRLPWith h1) = norm (header_MarshalRLPWith h2)).
  { apply (f_equal fastrlp_Parse) in Heq. rewrite !Parse_MarshalTo in Heq by by apply header_value_ok. exact (inj Some _ _ Heq). }
  pose proof (header_decode h1 H1') as D1. rewrite Hn, (header_decode h2 H2') in D1. apply (inj Some) in D1.
  assert (D2 : h_ComputeHash h2 = h_ComputeHash h1) by congruence. apply (f_equal (set_hHash 0)) in D2. exact (eq_sym D2).
Qed.

Lemma clean_inj e1 e2 :
  extra_fits e1 -> extra_fits e2 -> e_MarshalRLPTo (clean e1) = e_MarshalRLPTo (clean e2) -> covered e1 = covered e2.
Proof using All.
  intros H1' H2' Heq. destruct (extra_rlp _ (clean_fits _ H1')) as (x1 & M1 & O1 & U1). destruct (extra_rlp _ (clean_fits _ H2')) as (x2 & M2 & O2 & U2).
  unfold e_MarshalRLPTo in Heq. rewrite M1, M2 in Heq. apply (inj Some) in Heq. apply (f_equal fastrlp_Parse) in Heq.
  rewrite !Parse_MarshalTo in Heq by done. apply (inj Some) in Heq. rewrite Heq, U2 in U1. unfold covered. unfold clean in U1. congruence.
Qed.

(** *** No panics *)

Lemma exactly_safe n l : exactly n l <> None.
Proof using Type. unfold exactly. by destruct (_ =? _)%nat. Qed.

Lemma exactly_length n l u : exactly n l = Some (Ok u) -> length l = n.
Proof using Type. unfold exactly. destruct (length l =? n)%nat eqn:E; [|done]. intros _. by apply Nat.eqb_eq in E. Qed.

Lemma bind_inv {A B} (m : Dec A) (f : A -> Dec B) b : (m ≫= f) = Some (Ok b) -> exists a, m = Some (Ok a) /\ f a = Some (Ok b).
Proof using Type. destruct m as [[a|]|]; [|done..]. by exists a. Qed.

Ltac safe_parts :=
  repeat first
    [ done
    | apply lift_safe
    | apply bind_safe; [first [apply lift_safe|apply GetElems_safe|apply exactly_safe|apply elem_safe; lia|eassumption]|intros]
    | match goal with Ha : exactly _ _ = Some (Ok _) |- _ => apply exactly_length in Ha end
    | apply bind_safe; [apply bind_safe; [apply elem_safe; lia|intros; safe_parts]|intros] ].

Lemma validator_safe v : v_UnmarshalRLPWith v <> None.
Proof using Type.
  unfold v_UnmarshalRLPWith. safe_parts. apply bind_safe; [by destruct (Bls.UnmarshalPublicKey _)|intros]. safe_parts.
Qed.

Lemma validator_has_key v m : v_UnmarshalRLPWith v = Some (Ok m) -> is_Some (v_BlsKey m).
Proof using Type.
  unfold v_UnmarshalRLPWith. intros Hm. repeat (apply bind_inv in Hm as (? & _ & Hm)). injection Hm as <-. by eexists.
Qed.

Lemma each_Forall {A B} (f : A -> Dec B) (P : B -> Prop) l bs :
  (forall a b, f a = Some (Ok b) -> P b) -> each f l = Some (Ok bs) -> Forall P bs.
Proof using Type.
  intros Hf. revert bs. induction l as [|a l IH]; intros bs Hb; cbn in Hb; [injection Hb as <-; apply List.Forall_nil|].
  apply bind_inv in Hb as (b & Ha & Hb). apply bind_inv in Hb as (bs' & Hl & Hb). injection Hb as <-.
  apply List.Forall_cons; [by eapply Hf|by apply IH].
Qed.

Lemma delta_safe v : d_UnmarshalRLPWith v <> None.
Proof using Type.
  unfold d_UnmarshalRLPWith. apply bind_safe; [apply GetElems_safe|]. intros [|x l] _; [done|]. safe_parts.
  all: intros; unfold unmarshalValidators; apply each_safe, validator_safe.
Qed.

Definition keyed (d : ValidatorSetDelta) : Prop :=
  Forall (fun v => is_Some (v_BlsKey v)) (Added d) /\ Forall (fun v => is_Some (v_BlsKey v)) (Updated d).

Lemma delta_keyed v d : d_UnmarshalRLPWith v = Some (Ok d) -> keyed d.
Proof using Type.
  unfold d_UnmarshalRLPWith. intros Hd. apply bind_inv in Hd as ([|x l] & _ & Hd); [injection Hd as <-; split; apply List.Forall_nil|].
  apply bind_inv in Hd as (? & _ & Hd). apply bind_inv in Hd as (added & Ha & Hd). apply bind_inv in Hd as (updated & Hu & Hd).
  apply bind_inv in Hd as (? & _ & Hd). injection Hd as <-.
  split; cbn; [apply bind_inv in Ha as (? & _ & Ha); apply bind_inv in Ha as (? & _ & Ha)|apply bind_inv in Hu as (? & _ & Hu); apply bind_inv in Hu as (? & _ & Hu)];
    (eapply each_Forall; [apply validator_has_key|eassumption]).
Qed.

Lemma if_elems_safe {A} (f : rlp -> Dec A) v : f v <> None -> if_elems f v <> None.
Proof using Type. intros Hf. unfold if_elems. destruct (_ <? _)%nat; [|done]. by apply bind_safe. Qed.

Lemma signature_safe v : s_UnmarshalRLPWith v <> None.
Proof using Type. unfold s_UnmarshalRLPWith. safe_parts. Qed.

Lemma checkpoint_safe v : c_UnmarshalRLPWith v <> None.
Proof using Type. unfold c_UnmarshalRLPWith. safe_parts. Qed.

Lemma extra_safe v : e_UnmarshalRLPWith v <> None.
Proof using Type.
  unfold e_UnmarshalRLPWith. safe_parts.
  all: intros; try (apply if_elems_safe; first [apply delta_safe|apply signature_safe|apply checkpoint_safe]).
  destruct (_ <? _); [apply lift_safe|done].
Qed.

Lemma extra_keyed v e : e_UnmarshalRLPWith v = Some (Ok e) -> all_of keyed (e_Validators e).
Proof using Type.
  unfold e_UnmarshalRLPWith. intros He. do 2 (apply bind_inv in He as (? & _ & He)). apply bind_inv in He as (o & Ho & He).
  repeat (apply bind_inv in He as (? & _ & He)). injection He as <-. cbn. apply bind_inv in Ho as (w & _ & Ho).
  unfold if_elems in Ho. destruct (_ <? _)%nat; [|by injection Ho as <-]. apply bind_inv in Ho as (d & Hd & Ho). injection Ho as <-. by eapply delta_keyed.
Qed.

Lemma keyed_marshals d : keyed d -> is_Some (d_MarshalRLPWith d).
Proof using Type.
  assert (Hm : forall l, Forall (fun v => is_Some (v_BlsKey v)) l -> is_Some (mapM v_MarshalRLPWith l)).
  { intros l Hl. apply mapM_is_Some. eapply Forall_impl; [exact Hl|]. intros v [key Hk]. change (is_Some (v_MarshalRLPWith v)). unfold v_MarshalRLPWith. rewrite Hk. by eexists. }
  intros [[a Ha]%Hm [u Hu]%Hm]. unfold d_MarshalRLPWith. rewrite Ha. cbn. rewrite Hu. by eexists.
Qed.

Lemma GetIbftExtra_safe raw : GetIbftExtra raw <> None.
Proof using Type.
  unfold GetIbftExtra. destruct (_ <? _)%nat; [done|]. apply bind_safe; [|done]. unfold e_UnmarshalRLP, UnmarshalRlp.
  apply bind_safe; [apply lift_safe|]. intros. apply extra_safe.
Qed.

Lemma GetIbftExtraClean_safe raw : GetIbftExtraClean raw <> None.
Proof using Type.
  apply bind_safe; [apply GetIbftExtra_safe|]. intros e He. unfold e_MarshalRLPTo, e_MarshalRLPWith. cbn [e_Validators].
  assert (Hk : all_of keyed (e_Validators e)).
  { unfold GetIbftExtra in He. destruct (_ <? _)%nat; [done|]. apply bind_inv in He as (e' & He' & He). injection He as <-.
    apply bind_inv in He' as (v & _ & He'). apply extra_keyed in He'. destruct (e_Validators e') eqn:E; cbn; [by rewrite E|]. split; apply List.Forall_nil. }
  destruct (e_Validators e) as [d|]; [|done]. by destruct (keyed_marshals d Hk) as [x ->].
Qed.

Lemma header_ok_extra h raw : header_ok h -> bytes_ok raw -> header_ok (set_hExtraData raw h).
Proof using Type. by intros [] Hraw. Qed.

Lemma hashed_form_iff h h' e e' :
  header_ok h -> header_ok h' -> extra_fits e -> extra_fits e' ->
  hashed_form h e = hashed_form h' e' <-> bare h = bare h' /\ covered e = covered e'.
Proof using All.
  intros Hh Hh' He He'. unfold hashed_form. split.
  - intros Heq. pose proof (clean_inj e e' He He') as Hinj. revert Heq Hinj. unfold e_MarshalRLPTo.
    destruct (extra_rlp _ (clean_fits _ He)) as (x & -> & Hx & _). destruct (extra_rlp _ (clean_fits _ He')) as (x' & -> & Hx' & _).
    intros Heq Hinj. apply header_inj in Heq; [|by apply header_ok_extra; [|by apply MarshalTo_bytes]..]. split.
    + exact (f_equal (set_hExtraData []) Heq).
    + apply Hinj. exact (f_equal Some (f_equal h_ExtraData Heq)).
  - intros [Hb Hc]. assert (clean e = clean e') as -> by (unfold clean, covered in *; congruence).
    exact (f_equal (fun h => header_MarshalRLP (set_hExtraData (default [] (e_MarshalRLPTo (clean e'))) h)) Hb).
Qed.

(** C21. The hash of a header never panics. It is the Keccak hash of a form of the header
    that determines all header fields and, of the extra field, the change of the
    validators, the signatures of the parent and the checkpoint, and nothing else: neither
    the seal, the signatures of the block nor the first 32 bytes. *)
Theorem header_hash (h : Header) (e : Extra) (vanity raw : list Z) :
  header_ok h -> extra_fits e -> length vanity = ExtraVanity -> e_MarshalRLPTo e = Some raw ->
  plgBFTHeaderHash (set_hExtraData (vanity ++ raw) h) = Some (be_val (keccak256 (hashed_form h e))) /\
  (forall h' e', header_ok h' -> extra_fits e' ->
    hashed_form h e = hashed_form h' e' <-> bare h = bare h' /\ covered e = covered e') /\
  (forall h', plgBFTHeaderHash h' <> None).
Proof using All.
  intros Hh He Hv Hraw. unfold e_MarshalRLPTo in Hraw. destruct (e_MarshalRLPWith e) as [x|] eqn:Hx; [|done]. apply (inj Some) in Hraw as <-. split; [|split].
  - unfold plgBFTHeaderHash, GetIbftExtraClean. cbn [h_ExtraData set_hExtraData]. rewrite (GetIbftExtra_encoded e x vanity He Hx Hv), ret_bind.
    change (mkExtra (e_Validators (with_validators e)) [] (e_Parent (with_validators e)) (Some (mkAggSignature [] [])) (e_Checkpoint (with_validators e))) with (clean e).
    unfold hashed_form, e_MarshalRLPTo. by destruct (extra_rlp _ (clean_fits _ He)) as (y & -> & _).
  - intros h' e' Hh' He'. by apply hashed_form_iff.
  - intros h'. unfold plgBFTHeaderHash. pose proof (GetIbftExtraClean_safe (h_ExtraData h')). by destruct (GetIbftExtraClean _) as [[]|].
Qed.

(** The hash function as the one the chain is built on. *)
#[local] Instance plg_hasher : HeaderHasher.
Proof using H H0 H1 H2 H4.
  refine {| HeaderHash h := default 0 (plgBFTHeaderHash h) |}; [done|]. intros h. unfold plgBFTHeaderHash.
  destruct (GetIbftExtraClean _) as [[extra|]|]; [apply keccak_word|split; vm_compute; done..].
Defined.

(** ** Finalized headers *)

Context `{!plgbftBackend}.

(** The validator at the address signed the proposal of the header, as its committed
    signatures show. *)
Definition signer (e : Extra) (h : Header) (chainID : Z) (domain : list Z) (validators : list ValidatorMetadata) (a : Address) (hash : Hash) : Prop :=
  exists s c i v, e_Committed e = Some s /\ e_Checkpoint e = Some c /\ c_Hash c chainID (h_Number h) (h_Hash h) = Some hash /\
    Verify s validators hash domain = Some (Ok tt) /\ validators !! i = Some v /\ v_Address v = a /\ bm_IsSet (s_Bitmap s) (Z.of_nat i) = true.

Lemma finalized_signed e h parent parents chainID domain validators :
  GetValidators (h_Number h -u 1) parents = Some validators ->
  ValidateFinalizedData e h parent parents chainID domain = Some (Ok tt) ->
  exists s c hash, e_Committed e = Some s /\ e_Checkpoint e = Some c /\ c_Hash c chainID (h_Number h) (h_Hash h) = Some hash /\
    Verify s validators hash domain = Some (Ok tt).
Proof using Type.
  intros Hv. unfold ValidateFinalizedData. destruct (e_Committed e) as [s|]; [|done]. destruct (e_Checkpoint e) as [c|]; [|done]. rewrite Hv.
  unfold verify_checkpoint. destruct (c_Hash c chainID (h_Number h) (h_Hash h)) as [hash|] eqn:Hh; [|done].
  destruct (Verify s validators hash domain) as [[[]|]|] eqn:Hs; [|done..]. intros _. by exists s, c, hash.
Qed.

(** C9. If two headers of the same height are accepted as finalized, whatever they contain,
    some validator outside any set of less than a third of the voting power signed both of
    their proposals. Hence, if the faulty validators have less than a third and correct ones
    sign one proposal of a height, no two different proposals are finalized. *)
Theorem finality (validators : list ValidatorMetadata) (faulty : gset Address) (chainID : Z) (domain : list Z)
    (e1 e2 : Extra) (h1 h2 parent1 parent2 : Header) (parents1 parents2 : list Header) :
  validators_ok validators -> 3 * power validators (fun a => a ∈ faulty) < as_GetTotalVotingPower validators ->
  h_Number h1 = h_Number h2 ->
  GetValidators (h_Number h1 -u 1) parents1 = Some validators -> GetValidators (h_Number h2 -u 1) parents2 = Some validators ->
  ValidateFinalizedData e1 h1 parent1 parents1 chainID domain = Some (Ok tt) ->
  ValidateFinalizedData e2 h2 parent2 parents2 chainID domain = Some (Ok tt) ->
  exists a hash1 hash2, (a ∉ faulty) /\ signer e1 h1 chainID domain validators a hash1 /\ signer e2 h2 chainID domain validators a hash2.
Proof using Type.
  intros Hok Hf _ Hv1 Hv2 A1 A2.
  destruct (finalized_signed _ _ _ _ _ _ _ Hv1 A1) as (s1 & c1 & x1 & Hs1 & Hc1 & Hx1 & V1).
  destruct (finalized_signed _ _ _ _ _ _ _ Hv2 A2) as (s2 & c2 & x2 & Hs2 & Hc2 & Hx2 & V2).
  destruct (quorum_intersection validators s1 s2 x1 x2 domain faulty Hok V1 V2 Hf) as (i & v & Hi & B1 & B2 & Hnf).
  exists (v_Address v), x1, x2. split; [done|]. split; [by exists s1, c1, i, v|by exists s2, c2, i, v].
Qed.

End Extra.

(** ** Samples *)

#[local] Existing Instance sample_curve.
#[local] Existing Instance sample_points_eq.
#[local] Existing Instance ser_codec.
#[local] Existing Instance ser_rlp.

#[local] Instance sample_access : RlpAccess := {|
  rlp_Len v := match v with RBytes b => Z.of_nat (length b) | RArray l => Z.of_nat (length l) end;
  rlp_GetBool v := match v with RBytes [1] => Some true | RBytes [] => Some false | _ => None end |}.

#[local] Instance sample_access_laws : RlpAccessLaws.
Proof. split; [done|]. by intros []. Qed.

#[local] Instance sample_abi : AbiCodec := {|
  abi_checkpoint chainID number hash c := Some (be_bytes 32 hash ++ be_bytes 8 number ++ be_bytes 8 (EpochNumber c));
  abi_validators l := Some (concat ((fun '(a, _, _) => be_bytes 20 a) <$> l)) |}.

#[local] Instance sample_backend : plgbftBackend := {| GetValidators := fun _ _ => Some sample_validators |}.

Definition sample_delta : ValidatorSetDelta := mkDelta [sample_validator 5 50] [sample_validator 3 90] [2].
Definition sample_checkpoint : CheckpointData := mkCheckpoint 2 1 77 78 79.
Definition sample_extra (signers : list Z) : Extra :=
  mkExtra (Some sample_delta) [] (Some (sample_signature [2; 3])) (Some (sample_signature signers)) (Some sample_checkpoint).

Ltac fits_by_eval := split; [split; vm_compute; done|done|].

Lemma sample_delta_fits : delta_fits sample_delta.
Proof.
  split; [apply List.Forall_cons; [|apply List.Forall_nil]..|].
  - fits_by_eval. exists 5. split; [done|]. split; [exact (be_bytes_ok 128 5)|reflexivity].
  - fits_by_eval. exists 3. split; [done|]. split; [exact (be_bytes_ok 128 3)|reflexivity].
  - apply (bool_decide_unpack _). vm_compute. exact I.
Qed.

Lemma sample_signature_fits signers : signers ∈ [[2; 3]; [0; 1; 3]] -> signature_fits (sample_signature signers).
Proof.
  intros Hs. split; [apply be_bytes_ok|]. set_unfold in Hs. destruct Hs as [->| [->|[]]]; apply (bool_decide_unpack _); vm_compute; exact I.
Qed.

Lemma sample_extra_fits signers : signers ∈ [[2; 3]; [0; 1; 3]] -> extra_fits (sample_extra signers).
Proof.
  intros Hs. split.
  - exact sample_delta_fits.
  - apply List.Forall_nil.
  - apply sample_signature_fits. by_computation.
  - by apply sample_signature_fits.
  - split; split; vm_compute; done.
Qed.

Lemma extra_roundtrip_witness :
  exists raw, e_MarshalRLPTo (sample_extra [2; 3]) = Some raw /\ GetIbftExtra (replicate 32 7 ++ raw) = Some (Ok (sample_extra [2; 3])).
Proof.
  destruct (extra_roundtrip (sample_extra [2; 3]) (replicate 32 7)) as (raw & Hm & _ & _ & Hg).
  - apply sample_extra_fits. by_computation.
  - reflexivity.
  - exists raw. split; [exact Hm|exact Hg].
Defined.

Lemma header_hash_witness :
  exists raw, plgBFTHeaderHash (set_hExtraData (replicate 32 7 ++ raw) sample_header) = Some (be_val (keccak256 (hashed_form sample_header (sample_extra [2; 3])))).
Proof.
  destruct (extra_rlp (sample_extra [2; 3])) as (x & Hx & _); [apply sample_extra_fits; by_computation|].
  exists (fastrlp_MarshalTo x).
  apply (header_hash sample_header (sample_extra [2; 3]) (replicate 32 7) (fastrlp_MarshalTo x)).
  - exact sample_header_ok.
  - apply sample_extra_fits. by_computation.
  - reflexivity.
  - unfold e_MarshalRLPTo. by rewrite Hx.
Defined.

(** The first block after the genesis, proposed twice. *)
Definition first_header (hash : Hash) : Header :=
  mkHeader 1 EmptyUncleHash [] 4 5 6 (replicate BloomByteLength 0) 1 1 10000000 0 1600000000 [] 0 0 hash.

Lemma sample_finalized hash signers : signers ∈ [[2; 3]; [0; 1; 3]] ->
  exists parent, ValidateFinalizedData (sample_extra signers) (first_header hash) parent [] 100 [4] = Some (Ok tt).
Proof.
  intros Hs. destruct (extra_rlp (sample_extra [2; 3])) as (x & Hx & _); [apply sample_extra_fits; by_computation|].
  exists (set_hExtraData (replicate 32 0 ++ fastrlp_MarshalTo x) sample_header). unfold ValidateFinalizedData.
  cbn [e_Committed e_Checkpoint sample_extra]. unfold verify_checkpoint. cbn [c_Hash]. unfold c_Hash. cbn [abi_checkpoint sample_abi mbind option_bind].
  change (GetValidators (h_Number (first_header hash) -u 1) []) with (Some sample_validators). cbv iota.
  rewrite sample_verifies by done. cbn [mbind option_bind]. cbn [h_ExtraData set_hExtraData].
  rewrite (GetIbftExtra_encoded (sample_extra [2; 3]) x) by (first [apply sample_extra_fits; by_computation|done]). reflexivity.
Qed.

Lemma finality_witness :
  exists a hash1 hash2, a ∉ ({[103]} : gset Address) /\ signer (sample_extra [2; 3]) (first_header 501) 100 [4] sample_validators a hash1 /\
    signer (sample_extra [0; 1; 3]) (first_header 502) 100 [4] sample_validators a hash2.
Proof.
  destruct (sample_finalized 501 [2; 3]) as [parent1 A1]; [by_computation|]. destruct (sample_finalized 502 [0; 1; 3]) as [parent2 A2]; [by_computation|].
  apply (finality sample_validators {[103]} 100 [4] (sample_extra [2; 3]) (sample_extra [0; 1; 3])
    (first_header 501) (first_header 502) parent1 parent2 [] []).
  - exact sample_validators_ok.
  - by_computation.
  - reflexivity.
  - reflexivity.
  - reflexivity.
  - exact A1.
  - exact A2.
Defined.
