(* ===== verification/Hex.v ===== *)
(** * Addresses as text ([types/types.go], [helper/hex])

    Texts are lists of character codes. *)

From S2P Require Import Prelude ChainTypes BigInt Runtime.
Local Open Scope go_scope.

Definition hex_digit (n : Z) : Z := if n <? 10 then 48 + n else 87 + n.

(** [hex.EncodeToString], and [EncodeToHex] with the prefix. *)
Definition hex_EncodeToString (b : list Z) : list Z := b ≫= (fun x => [hex_digit (x / 16); hex_digit (x mod 16)]).
Definition EncodeToHex (b : list Z) : list Z := [48; 120] ++ hex_EncodeToString b.

Definition ToUpper (ch : Z) : Z := if (97 <=? ch) && (ch <=? 122) then ch - 32 else ch.

Section Text.
Context `{Codec}.

(** The address with the checksum of EIP-55: a letter is a capital if the digit of the
    hash at its place is above 7. *)
Definition checksumEncode (a : Address) : list Z :=
  let lowercaseHex := drop 2 (EncodeToHex (be_bytes 20 a)) in
  let hashedAddress := drop 2 (EncodeToHex (keccak256 lowercaseHex)) in
  [48; 120] ++ imap (fun idx ch =>
    let hashed := default 48 (hashedAddress !! idx) in
    if ((48 <=? ch) && (ch <=? 57)) || ((48 <=? hashed) && (hashed <=? 55)) then ch else ToUpper ch) lowercaseHex.

Definition addr_String (a : Address) : list Z := checksumEncode a.

(** ** The text determines the address *)

Definition ToLower (ch : Z) : Z := if (65 <=? ch) && (ch <=? 90) then ch + 32 else ch.

Definition lower_hex (ch : Z) : Prop := 48 <= ch <= 57 \/ 97 <= ch <= 102.

Lemma hex_digit_lower n : 0 <= n < 16 -> lower_hex (hex_digit n).
Proof using Type. intros Hn. unfold lower_hex, hex_digit. destruct (Z.ltb_spec n 10); lia. Qed.

Lemma hex_digit_inj m n : 0 <= m < 16 -> 0 <= n < 16 -> hex_digit m = hex_digit n -> m = n.
Proof using Type. unfold hex_digit. intros. destruct (Z.ltb_spec m 10), (Z.ltb_spec n 10); lia. Qed.

Lemma byte_digits x : byte_ok x -> 0 <= x / 16 < 16 /\ 0 <= x mod 16 < 16.
Proof using Type.
  intros [H0 H1]. split; [|apply Z.mod_pos_bound; lia]. split; [apply Z.div_pos; lia|apply Z.div_lt_upper_bound; lia].
Qed.

Lemma hex_lower b : bytes_ok b -> Forall lower_hex (hex_EncodeToString b).
Proof using Type.
  induction 1 as [|x b Hx _ IH]; [constructor|]. destruct (byte_digits x Hx). by do 2 (constructor; [by apply hex_digit_lower|]).
Qed.

Lemma hex_inj b c : bytes_ok b -> bytes_ok c -> hex_EncodeToString b = hex_EncodeToString c -> b = c.
Proof using Type.
  intros Hb. revert c. induction Hb as [|x b Hx _ IH]; intros [|y c] Hc Heq; [done|done|done|].
  apply Forall_cons in Hc as [Hy Hc]. injection Heq as H1 H2 Heq. destruct (byte_digits x Hx), (byte_digits y Hy).
  apply hex_digit_inj in H1; [|done..]. apply hex_digit_inj in H2; [|done..].
  rewrite (IH c Hc Heq), (Z.div_mod x 16), (Z.div_mod y 16) by lia. by rewrite H1, H2.
Qed.

Lemma lower_upper ch : lower_hex ch -> ToLower (ToUpper ch) = ch /\ ToLower ch = ch.
Proof using Type. unfold lower_hex, ToLower, ToUpper. intros Hc. split; repeat case_match; lia. Qed.

Lemma lower_imap (f : nat -> Z -> bool) l :
  Forall lower_hex l -> ToLower <$> imap (fun i ch => if f i ch then ch else ToUpper ch) l = l.
Proof using Type.
  intros Hl. revert f. induction Hl as [|ch l Hch _ IH]; intros f; [done|]. rewrite imap_cons, fmap_cons.
  f_equal; [|exact (IH (fun i => f (S i)))]. destruct (lower_upper ch Hch). by destruct (f 0%nat ch).
Qed.

Lemma checksum_lower a : ToLower <$> drop 2 (addr_String a) = hex_EncodeToString (be_bytes 20 a).
Proof using Type. apply lower_imap, hex_lower, be_bytes_ok. Qed.

Lemma addr_String_inj a b : addr_ok a -> addr_ok b -> addr_String a = addr_String b -> a = b.
Proof using Type.
  intros Ha Hb Heq. apply (f_equal (fun l => ToLower <$> drop 2 l)) in Heq. rewrite !checksum_lower in Heq.
  apply hex_inj in Heq; [|apply be_bytes_ok..]. apply (f_equal be_val) in Heq. rewrite !be_val_bytes in Heq.
  change (256 ^ Z.of_nat 20) with (2 ^ 160) in Heq. by rewrite !Z.mod_small in Heq.
Qed.

End Text.
