(* ===== verification/Proposer.v ===== *)
(** * Proposer rotation ([consensus/plgbft/proposer_calculator.go])

    The validators of a height with their priorities. Priorities are [big.Int] values
    behind pointers; [Copy] of a snapshot copies the pointers and the normalisation writes
    through them, so snapshots can share priorities. Memory is a list of cells, a pointer is
    an index. [None] is a panic. *)

From stdpp Require Import gmap.
From S2P Require Import Prelude ChainTypes BigInt Runtime Receipts Rlp ChainRlp Hex Bls Validators PlgExtra.
Local Open Scope go_scope.

Abbreviation Cells := (list Z).

Inductive PropErr :=
  | ErrPropHeight | ErrNoSet | ErrTimes | ErrNoProposer | ErrWrongBlock | ErrBlockData | ErrGetValidators | ErrSave.

(** The headers of the chain, and whether a write to the store at a block succeeds. *)
Class ProposerEnv := {
  proposer_chain : Z -> option Header;
  snapshot_saved : Z -> bool;
}.

Section Proposer.
Context `{Bn256} `{Fastrlp} `{RlpAccess}.

Record PrioritizedValidator := mkPrioritized { Metadata : ValidatorMetadata; ProposerPriority : nat }.

Record ProposerSnapshot := mkSnapshot {
  ps_Height : Z; ps_Round : Z; ps_Proposer : option PrioritizedValidator; ps_Validators : list PrioritizedValidator }.

Definition priority (c : Cells) (v : PrioritizedValidator) : Z := default 0 (c !! ProposerPriority v).
Definition set_priority (c : Cells) (v : PrioritizedValidator) (p : Z) : Cells := <[ProposerPriority v := p]> c.
Definition with_validators (s : ProposerSnapshot) (l : list PrioritizedValidator) : ProposerSnapshot :=
  mkSnapshot (ps_Height s) (ps_Round s) (ps_Proposer s) l.

(** ** Snapshots *)

(** A validator with a new cell. *)
Definition alloc (acc : Cells * list PrioritizedValidator) (v : ValidatorMetadata) (p : Z) : Cells * list PrioritizedValidator :=
  (acc.1 ++ [p], acc.2 ++ [mkPrioritized v (length acc.1)]).

Definition NewProposerSnapshot (c : Cells) (height : Z) (validators : list ValidatorMetadata) : Cells * ProposerSnapshot :=
  let '(c, l) := fold_left (fun acc v => alloc acc v 0) validators (c, []) in
  (c, mkSnapshot height 0 None l).

Definition GetTotalVotingPower (s : ProposerSnapshot) : Z :=
  fold_left (fun t v => t + v_VotingPower (Metadata v)) (ps_Validators s) 0.

(** The copied validators share the cells. Of several with the address of the proposer,
    the last is the proposer of the copy. *)
Definition p_Copy (s : ProposerSnapshot) : option ProposerSnapshot :=
  valCopy ← mapM (fun v => m ← v_Copy (Metadata v); Some (mkPrioritized m (ProposerPriority v))) (ps_Validators s);
  let proposer := match ps_Proposer s with
    | None => None
    | Some p => last (filter (fun v => v_Address (Metadata v) = v_Address (Metadata p)) valCopy)
    end in
  Some (mkSnapshot (ps_Height s) (ps_Round s) proposer valCopy).

Definition toMap (s : ProposerSnapshot) : gmap Address PrioritizedValidator :=
  fold_left (fun m v => <[v_Address (Metadata v) := v]> m) (ps_Validators s) ∅.

(** ** Normalisation *)

Definition computeMaxMinPriorityDiff (c : Cells) (validators : list PrioritizedValidator) : option Z :=
  match validators with
  | [] => None
  | v :: rest =>
      let '(min, max) := fold_left (fun '(min, max) v =>
        (if priority c v <? min then priority c v else min, if max <? priority c v then priority c v else max))
        rest (priority c v, priority c v) in
      let diff := max - min in
      Some (if diff <? 0 then - diff else diff)
  end.

(** The division by [diffMax] panics if the validators have no voting power. *)
Definition rescalePriorities (c : Cells) (s : ProposerSnapshot) (totalVotingPower : Z) : option (result PropErr Cells) :=
  match ps_Validators s with
  | [] => Some (Err ErrNoSet)
  | validators =>
      let diffMax := 2 * totalVotingPower in
      diff ← computeMaxMinPriorityDiff c validators;
      if diffMax =? 0 then None
      else
        let ratio := BigIntDivCeil diff diffMax in
        Some (Ok (if diffMax <? diff then fold_left (fun c v => set_priority c v (Z.quot (priority c v) ratio)) validators c else c))
  end.

Definition computeAvgProposerPriority (c : Cells) (s : ProposerSnapshot) : result PropErr Z :=
  match ps_Validators s with
  | [] => Err ErrNoSet
  | validators => Ok (fold_left (fun sum v => sum + priority c v) validators 0 / Z.of_nat (length validators))
  end.

Definition shiftByAvgProposerPriority (c : Cells) (s : ProposerSnapshot) : result PropErr Cells :=
  match computeAvgProposerPriority c s with
  | Err e => Err e
  | Ok avg => Ok (fold_left (fun c v => set_priority c v (priority c v - avg)) (ps_Validators s) c)
  end.

Definition updateWithChangeSet (c : Cells) (s : ProposerSnapshot) (totalVotingPower : Z) : option (result PropErr Cells) :=
  r ← rescalePriorities c s totalVotingPower;
  match r with
  | Err e => Some (Err e)
  | Ok c => Some (shiftByAvgProposerPriority c s)
  end.

(** ** Rounds *)

(** The priorities are compared by value, and then by pointer. *)
Definition isBetterProposer (c : Cells) (a : PrioritizedValidator) (b : option PrioritizedValidator) : bool :=
  match b with
  | None => true
  | Some b =>
      if priority c b <? priority c a then true
      else if (ProposerPriority a =? ProposerPriority b)%nat then v_Address (Metadata a) <=? v_Address (Metadata b)
      else false
  end.

Definition getValWithMostPriority (c : Cells) (s : ProposerSnapshot) : option PrioritizedValidator :=
  fold_left (fun r curr => if isBetterProposer c curr r then Some curr else r) (ps_Validators s) None.

(** Each validator gets a new cell, then the one with most priority is written to. *)
Definition incrementProposerPriority (c : Cells) (s : ProposerSnapshot) (totalVotingPower : Z)
    : result PropErr (Cells * ProposerSnapshot * PrioritizedValidator) :=
  let '(c, l) := fold_left (fun acc v => alloc acc (Metadata v) (priority acc.1 v + v_VotingPower (Metadata v))) (ps_Validators s) (c, []) in
  let s := with_validators s l in
  match getValWithMostPriority c s with
  | None => Err ErrNoSet
  | Some mostest => Ok (set_priority c mostest (priority c mostest - totalVotingPower), s, mostest)
  end.

Fixpoint increments (times : nat) (c : Cells) (s : ProposerSnapshot) (totalVotingPower : Z) (proposer : option PrioritizedValidator)
    : result PropErr (Cells * ProposerSnapshot * option PrioritizedValidator) :=
  match times with
  | O => Ok (c, s, proposer)
  | S times =>
      match incrementProposerPriority c s totalVotingPower with
      | Err e => Err e
      | Ok (c, s, p) => increments times c s totalVotingPower (Some p)
      end
  end.

Definition incrementProposerPriorityNTimes (c : Cells) (s : ProposerSnapshot) (times : Z)
    : option (result PropErr (Cells * ProposerSnapshot * PrioritizedValidator)) :=
  match ps_Validators s with
  | [] => Some (Err ErrNoSet)
  | _ =>
      if times <=? 0 then Some (Err ErrTimes)
      else
        let tvp := GetTotalVotingPower s in
        r ← updateWithChangeSet c s tvp;
        match r with
        | Err e => Some (Err e)
        | Ok c =>
            match increments (Z.to_nat times) c s tvp None with
            | Err e => Some (Err e)
            | Ok (c, s, None) => None
            | Ok (c, s, Some p) => Some (Ok (c, mkSnapshot (ps_Height s) (times -u 1) (Some p) (ps_Validators s), p))
            end
        end
  end.

(** The memory and the snapshot change only if a proposer is found. *)
Definition CalcProposer (c : Cells) (pcs : ProposerSnapshot) (round height : Z) : option (Cells * ProposerSnapshot * result PropErr Address) :=
  if negb (height =? ps_Height pcs) then Some (c, pcs, Err ErrPropHeight)
  else
    match (if ps_Round pcs =? round then ps_Proposer pcs else None) with
    | Some p => Some (c, pcs, Ok (v_Address (Metadata p)))
    | None =>
        copy ← p_Copy pcs;
        r ← incrementProposerPriorityNTimes c copy (round +u 1);
        match r with
        | Err e => Some (c, pcs, Err e)
        | Ok (c, _, proposer) =>
            Some (c, mkSnapshot (ps_Height pcs) round (Some proposer) (ps_Validators pcs), Ok (v_Address (Metadata proposer)))
        end
    end.

(** A nil snapshot is dereferenced for the error message. *)
Definition GetLatestProposer (pcs : option ProposerSnapshot) (round height : Z) : option (result PropErr Address) :=
  pcs ← pcs;
  Some (match ps_Proposer pcs with
        | Some p =>
            if negb (ps_Round pcs =? round) || negb (ps_Height pcs =? height) then Err ErrNoProposer else Ok (v_Address (Metadata p))
        | None => Err ErrNoProposer
        end).

(** ** Change of the validators *)

Definition ContainsNodeID (a : list ValidatorMetadata) (nodeID : list Z) : bool :=
  existsb (fun v => bool_decide (addr_String (v_Address v) = nodeID)) a.

(** The total is increased with each validator that is added. *)
Definition place (snapshotValidators : gmap Address PrioritizedValidator) (acc : Cells * list PrioritizedValidator * Z) (v : ValidatorMetadata)
    : Cells * list PrioritizedValidator * Z :=
  let '(c, l, tvp) := acc in
  match snapshotValidators !! v_Address v with
  | Some val => (c, l ++ [mkPrioritized v (ProposerPriority val)], tvp)
  | None =>
      let tvp := tvp + tvp / 8 in
      (alloc (c, l) v (- tvp), tvp)
  end.

Definition updateValidators (c : Cells) (s : ProposerSnapshot) (newValidatorSet : list ValidatorMetadata)
    : option (result PropErr (Cells * ProposerSnapshot)) :=
  match newValidatorSet with
  | [] => Some (Ok (c, s))
  | _ =>
      let snapshotValidators := toMap s in
      let removed := fold_right (fun p t => if ContainsNodeID newValidatorSet (addr_String p.1) then t else t + v_VotingPower (Metadata p.2)) 0
        (map_to_list snapshotValidators) in
      let added := fold_left (fun t v => t + v_VotingPower v) newValidatorSet 0 in
      let '(c, l, _) := fold_left (place snapshotValidators) newValidatorSet (c, [], added + removed) in
      let s := with_validators s l in
      r ← updateWithChangeSet c s (GetTotalVotingPower s);
      Some (match r with Err e => Err e | Ok c => Ok (c, s) end)
  end.
(** ** The calculator

    A stored snapshot has the priorities by value (it is written as JSON). *)

Record StoredSnapshot := mkStored {
  st_Height : Z; st_Round : Z; st_Proposer : option (ValidatorMetadata * Z); st_Validators : list (ValidatorMetadata * Z) }.

Definition valued (c : Cells) (v : PrioritizedValidator) : ValidatorMetadata * Z := (Metadata v, priority c v).

Definition writeProposerSnapshot (c : Cells) (s : ProposerSnapshot) : StoredSnapshot :=
  mkStored (ps_Height s) (ps_Round s) (valued c <$> ps_Proposer s) (valued c <$> ps_Validators s).

Definition getProposerSnapshot (c : Cells) (st : StoredSnapshot) : Cells * ProposerSnapshot :=
  let '(c, proposer) := match st_Proposer st with
    | None => (c, None)
    | Some (v, p) => (c ++ [p], Some (mkPrioritized v (length c)))
    end in
  let '(c, l) := fold_left (fun acc p => alloc acc p.1 p.2) (st_Validators st) (c, []) in
  (c, mkSnapshot (st_Height st) (st_Round st) proposer l).

Record ProposerCalculator := mkCalculator { pc_snapshot : ProposerSnapshot; pc_store : option StoredSnapshot }.

Context `{!plgbftBackend} `{!ProposerEnv}.

(** From the store, or with the validators of the genesis block. *)
Definition NewProposerSnapshotFromState (c : Cells) (store : option StoredSnapshot) : result PropErr (Cells * ProposerSnapshot) :=
  match store with
  | Some st => Ok (getProposerSnapshot c st)
  | None =>
      match GetValidators 0 [] with
      | None => Err ErrGetValidators
      | Some genesisValidatorsSet => Ok (NewProposerSnapshot c 1 genesisValidatorsSet)
      end
  end.

Definition NewProposerCalculator (c : Cells) (store : option StoredSnapshot) : result PropErr (Cells * ProposerCalculator) :=
  match NewProposerSnapshotFromState c store with
  | Err e => Err e
  | Ok (c, s) => Ok (c, mkCalculator s store)
  end.

Definition GetSnapshot (pc : ProposerCalculator) : option ProposerSnapshot := p_Copy (pc_snapshot pc).

(** The validators after the block, none if they do not change. *)
Definition block_validators (extra : Extra) (blockNumber : Z) : result PropErr (list ValidatorMetadata) :=
  match e_Validators extra with
  | Some d => if d_IsEmpty d then Ok [] else match GetValidators blockNumber [] with None => Err ErrGetValidators | Some l => Ok l end
  | None => Ok []
  end.

Definition updatePerBlock (c : Cells) (s : ProposerSnapshot) (blockNumber : Z) : option (Cells * ProposerSnapshot * result PropErr unit) :=
  if negb (ps_Height s =? blockNumber) then Some (c, s, Err ErrWrongBlock)
  else
    r ← getBlockData proposer_chain blockNumber;
    match r with
    | Err _ => Some (c, s, Err ErrBlockData)
    | Ok extra =>
        match block_validators extra blockNumber with
        | Err e => Some (c, s, Err e)
        | Ok newValidatorSet =>
            checkpoint ← e_Checkpoint extra;
            r ← incrementProposerPriorityNTimes c s (BlockRound checkpoint +u 1);
            match r with
            | Err e => Some (c, s, Err e)
            | Ok (c, s, _) =>
                r ← updateValidators c s newValidatorSet;
                match r with
                | Err e => Some (c, s, Err e)
                | Ok (c, s) => Some (c, mkSnapshot (blockNumber +u 1) 0 None (ps_Validators s), Ok tt)
                end
            end
        end
    end.

(** The blocks from the height of the snapshot on. *)
Fixpoint update_blocks (n : nat) (c : Cells) (s : ProposerSnapshot) (height : Z) : option (Cells * ProposerSnapshot * result PropErr unit) :=
  match n with
  | O => Some (c, s, Ok tt)
  | S n =>
      r ← updatePerBlock c s height;
      match r with
      | (c, s, Err e) => Some (c, s, Err e)
      | (c, s, Ok _) => update_blocks n c s (height + 1)
      end
  end.

Definition PostBlock (c : Cells) (pc : ProposerCalculator) (blockNumber : Z) : option (Cells * ProposerCalculator * result PropErr unit) :=
  let from := ps_Height (pc_snapshot pc) in
  r ← update_blocks (Z.to_nat (blockNumber - from + 1)) c (pc_snapshot pc) from;
  match r with
  | (c, s, Err e) => Some (c, mkCalculator s (pc_store pc), Err e)
  | (c, s, Ok _) =>
      if snapshot_saved blockNumber then Some (c, mkCalculator s (Some (writeProposerSnapshot c s)), Ok tt)
      else Some (c, mkCalculator s (pc_store pc), Err ErrSave)
  end.

End Proposer.
