(* ===== verification/ProposerSpec.v ===== *)
(** * Proposer rotation on lists of priorities

    What the calculator computes, without memory: priorities are normalised to a window
    around zero, in each round every validator gains its voting power and the first of
    those with the highest priority pays the total. Over the rounds of a height each
    validator is chosen in proportion to its voting power. *)

From S2P Require Import Prelude ChainTypes BigInt Validators.
Local Open Scope go_scope.

(** ** Definitions *)

Definition lmax (l : list Z) : Z := foldr Z.max (hd 0 l) l.
Definition lmin (l : list Z) : Z := foldr Z.min (hd 0 l) l.
Definition spread (l : list Z) : Z := lmax l - lmin l.

Definition rescale (T : Z) (ps : list Z) : list Z :=
  if 2 * T <? spread ps then (fun p => Z.quot p (BigIntDivCeil (spread ps) (2 * T))) <$> ps else ps.

Definition shift (ps : list Z) : list Z := (fun p => p - zsum ps / Z.of_nat (length ps)) <$> ps.

Definition normalise (T : Z) (ps : list Z) : list Z := shift (rescale T ps).

(** The index of the first maximum. *)
Fixpoint best (l : list Z) : nat :=
  match l with
  | [] => 0
  | p :: l => if forallb (fun q => q <=? p) l then 0%nat else S (best l)
  end.

Definition raised (ws ps : list Z) : list Z := zip_with Z.add ps ws.
Definition winner (ws ps : list Z) : nat := best (raised ws ps).
Definition pay (T : Z) (ws ps : list Z) : list Z := alter (fun p => p - T) (winner ws ps) (raised ws ps).

Fixpoint after (T : Z) (ws : list Z) (k : nat) (ps : list Z) : list Z :=
  match k with O => ps | S k => pay T ws (after T ws k ps) end.

(** The proposer of a round, from normalised priorities. *)
Definition proposer_at (T : Z) (ws ps : list Z) (round : nat) : nat := winner ws (after T ws round ps).

(** How often a validator is proposer in the first [k] rounds. *)
Definition turns (T : Z) (ws ps : list Z) (i k : nat) : Z :=
  Z.of_nat (length (filter (fun r => proposer_at T ws ps r = i) (seq 0 k))).

(** ** Maximum and minimum *)

Lemma foldr_max_ge d l : d <= foldr Z.max d l /\ Forall (fun p => p <= foldr Z.max d l) l.
Proof.
  induction l as [|p l [IH1 IH2]]; cbn; [split; [lia|constructor]|]. split; [lia|]. constructor; [lia|].
  eapply Forall_impl; [exact IH2|]. intros q Hq. cbn in Hq. lia.
Qed.

Lemma foldr_min_le d l : foldr Z.min d l <= d /\ Forall (fun p => foldr Z.min d l <= p) l.
Proof.
  induction l as [|p l [IH1 IH2]]; cbn; [split; [lia|constructor]|]. split; [lia|]. constructor; [lia|].
  eapply Forall_impl; [exact IH2|]. intros q Hq. cbn in Hq. lia.
Qed.

Lemma foldr_max_in d l : foldr Z.max d l = d \/ foldr Z.max d l ∈ l.
Proof. induction l as [|p l IH]; cbn; [by left|]. destruct (Z.max_spec p (foldr Z.max d l)) as [[_ ->]|[_ ->]]; [|right; left]. destruct IH as [IH|IH]; [by left|right; by right]. Qed.

Lemma foldr_min_in d l : foldr Z.min d l = d \/ foldr Z.min d l ∈ l.
Proof. induction l as [|p l IH]; cbn; [by left|]. destruct (Z.min_spec p (foldr Z.min d l)) as [[_ ->]|[_ ->]]; [right; left|]. destruct IH as [IH|IH]; [by left|right; by right]. Qed.

Lemma lmax_ge l p : p ∈ l -> p <= lmax l.
Proof. intros Hp. unfold lmax. destruct (foldr_max_ge (hd 0 l) l) as [_ Hl]. by eapply list.Forall_forall in Hl. Qed.

Lemma lmin_le l p : p ∈ l -> lmin l <= p.
Proof. intros Hp. unfold lmin. destruct (foldr_min_le (hd 0 l) l) as [_ Hl]. by eapply list.Forall_forall in Hl. Qed.

Lemma lmax_in l : l <> [] -> lmax l ∈ l.
Proof. intros Hl. unfold lmax. destruct (foldr_max_in (hd 0 l) l) as [->|]; [|done]. destruct l; [done|left]. Qed.

Lemma lmin_in l : l <> [] -> lmin l ∈ l.
Proof. intros Hl. unfold lmin. destruct (foldr_min_in (hd 0 l) l) as [->|]; [|done]. destruct l; [done|left]. Qed.

(** The spread is the least bound of the distances. *)
Lemma spread_le l B : l <> [] -> (forall p q, p ∈ l -> q ∈ l -> p - q <= B) -> spread l <= B.
Proof. intros Hl HB. unfold spread. apply HB; [by apply lmax_in|by apply lmin_in]. Qed.

Lemma spread_ge l p q : p ∈ l -> q ∈ l -> p - q <= spread l.
Proof. intros Hp%lmax_ge Hq%lmin_le. unfold spread. lia. Qed.

(** ** Normalised priorities *)

(** What the normalisation establishes. *)
Record centred (T : Z) (ps : list Z) : Prop := {
  ce_window : forall p q, p ∈ ps -> q ∈ ps -> p - q <= 2 * T;
  ce_sum : 0 <= zsum ps < Z.of_nat (length ps) }.

Lemma quot_window r a b B : 0 < r -> 0 <= B -> a - b <= B * r -> Z.quot a r - Z.quot b r <= B.
Proof.
  intros Hr HB Hab. assert (Hn : forall x, Z.quot x r = - Z.quot (- x) r) by (intros x; rewrite Z.quot_opp_l by lia; lia).
  assert (Hd : forall x, 0 <= x -> Z.quot x r * r <= x < Z.quot x r * r + r /\ 0 <= Z.quot x r).
  { intros x Hx. rewrite Z.quot_div_nonneg by lia. pose proof (Z.div_mod x r ltac:(lia)). pose proof (Z.mod_pos_bound x r Hr).
    pose proof (Z.div_pos x r Hx Hr). lia. }
  destruct (Z.le_gt_cases 0 a) as [Ha|Ha], (Z.le_gt_cases 0 b) as [Hb|Hb].
  - pose proof (Hd a Ha). pose proof (Hd b Hb). nia.
  - rewrite (Hn b). pose proof (Hd a Ha). pose proof (Hd (- b) ltac:(lia)). nia.
  - rewrite (Hn a). pose proof (Hd (- a) ltac:(lia)). pose proof (Hd b Hb). lia.
  - rewrite (Hn a), (Hn b). pose proof (Hd (- a) ltac:(lia)). pose proof (Hd (- b) ltac:(lia)). nia.
Qed.

Lemma DivCeil_bound a b : 0 < a -> 0 < b -> 0 < BigIntDivCeil a b /\ a <= b * BigIntDivCeil a b.
Proof.
  intros Ha Hb. unfold BigIntDivCeil. pose proof (Z.div_mod (a + b - 1) b ltac:(lia)). pose proof (Z.mod_pos_bound (a + b - 1) b Hb).
  split; [|lia]. apply Z.div_str_pos. lia.
Qed.

Lemma rescale_window T ps p q : 0 < T -> p ∈ rescale T ps -> q ∈ rescale T ps -> p - q <= 2 * T.
Proof.
  intros HT. unfold rescale. destruct (2 * T <? spread ps) eqn:E.
  - destruct (DivCeil_bound (spread ps) (2 * T) ltac:(lia) ltac:(lia)) as [Hr Hb].
    intros (a & -> & Ha)%list_elem_of_fmap (b & -> & Hb')%list_elem_of_fmap. apply quot_window; [done|lia|].
    pose proof (spread_ge ps a b Ha Hb'). lia.
  - intros Hp Hq. pose proof (spread_ge ps p q Hp Hq). lia.
Qed.

Lemma length_rescale T ps : length (rescale T ps) = length ps.
Proof. unfold rescale. case_match; [apply length_fmap|done]. Qed.

Lemma length_shift ps : length (shift ps) = length ps.
Proof. apply length_fmap. Qed.

Lemma length_normalise T ps : length (normalise T ps) = length ps.
Proof. unfold normalise. by rewrite length_shift, length_rescale. Qed.

Lemma zsum_sub a ps : zsum ((fun p => p - a) <$> ps) = zsum ps - a * Z.of_nat (length ps).
Proof. induction ps as [|p ps IH]; [cbn; lia|]. rewrite fmap_cons, !zsum_cons, IH. cbn [length]. lia. Qed.

Lemma shift_sum ps : ps <> [] -> 0 <= zsum (shift ps) < Z.of_nat (length ps).
Proof.
  intros Hps. unfold shift. rewrite zsum_sub. assert (0 < Z.of_nat (length ps)) by (destruct ps; [done|cbn; lia]).
  pose proof (Z.div_mod (zsum ps) (Z.of_nat (length ps)) ltac:(lia)). pose proof (Z.mod_pos_bound (zsum ps) (Z.of_nat (length ps)) ltac:(lia)). lia.
Qed.

Lemma normalise_centred T ps : 0 < T -> ps <> [] -> centred T (normalise T ps).
Proof.
  intros HT Hps. assert (rescale T ps <> []) by (intros E; apply (f_equal length) in E; rewrite length_rescale in E; by destruct ps). split.
  - unfold normalise, shift. intros p q (a & -> & Ha)%list_elem_of_fmap (b & -> & Hb)%list_elem_of_fmap.
    pose proof (rescale_window T ps a b HT Ha Hb). lia.
  - rewrite length_normalise, <- (length_rescale T ps). by apply shift_sum.
Qed.

Lemma centred_normalise T ps : ps <> [] -> centred T ps -> normalise T ps = ps.
Proof.
  intros Hps [Hw Hs]. unfold normalise.
  assert (rescale T ps = ps) as -> by (unfold rescale; rewrite (proj2 (Z.ltb_ge _ _)); [done|]; by apply spread_le).
  unfold shift. rewrite Z.div_small by done. rewrite <- (list_fmap_id ps) at 2. apply list_fmap_ext. intros. cbn. lia.
Qed.

(** Normalising twice changes nothing more. *)
Lemma normalise_idem T ps : 0 < T -> ps <> [] -> normalise T (normalise T ps) = normalise T ps.
Proof.
  intros HT Hps. apply centred_normalise; [|by apply normalise_centred].
  intros E. apply (f_equal length) in E. rewrite length_normalise in E. by destruct ps.
Qed.

(** ** The first maximum *)

Lemma best_lt l : l <> [] -> (best l < length l)%nat.
Proof. induction l as [|p l IH]; [done|]. intros _. cbn. destruct (forallb _ l) eqn:E; [lia|]. destruct l; [done|]. specialize (IH ltac:(done)). cbn [length] in *. lia. Qed.

Lemma forallb_le p l : forallb (fun q => q <=? p) l = true <-> Forall (fun q => q <= p) l.
Proof. rewrite forallb_forall, List.Forall_forall. split; intros Hl q Hq; specialize (Hl q Hq); lia. Qed.

(** It is at least as high as all, and higher than those before it. *)
Lemma best_max l m : l !! best l = Some m -> Forall (fun q => q <= m) l.
Proof.
  induction l as [|p l IH]; [done|]. cbn. destruct (forallb _ l) eqn:E; cbn.
  - intros [= <-]. constructor; [lia|by apply forallb_le].
  - intros Hm. specialize (IH Hm). constructor; [|done]. apply not_true_iff_false in E. rewrite forallb_le in E.
    destruct (decide (p <= m)); [done|]. exfalso. apply E. eapply Forall_impl; [exact IH|]. intros q Hq. cbn in *. lia.
Qed.

Lemma best_first l i p m : l !! i = Some p -> l !! best l = Some m -> (i < best l)%nat -> p < m.
Proof.
  revert i. induction l as [|x l IH]; [done|]. intros i. cbn. destruct (forallb _ l) eqn:E; [lia|]. cbn. intros Hi Hm Hlt.
  destruct i as [|i]; cbn in Hi.
  - injection Hi as ->. apply not_true_iff_false in E. rewrite forallb_le in E. pose proof (best_max l m Hm) as Hall.
    destruct (decide (p < m)); [done|]. exfalso. apply E. eapply Forall_impl; [exact Hall|]. intros q Hq. cbn in *. lia.
  - apply (IH i); [done..|lia].
Qed.

(** ** Sums *)

Lemma zsum_upper m l : Forall (fun q => q <= m) l -> zsum l <= m * Z.of_nat (length l).
Proof. induction 1; [cbn; lia|]. rewrite zsum_cons. cbn [length]. lia. Qed.

Lemma zsum_lower b l : Forall (fun q => b <= q) l -> b * Z.of_nat (length l) <= zsum l.
Proof. induction 1; [cbn; lia|]. rewrite zsum_cons. cbn [length]. lia. Qed.

Lemma zsum_raised ws ps : length ws = length ps -> zsum (raised ws ps) = zsum ps + zsum ws.
Proof. revert ws. induction ps as [|p ps IH]; intros [|w ws] Hl; [done..|]. injection Hl as Hl.
  change (raised (w :: ws) (p :: ps)) with (p + w :: raised ws ps). rewrite !zsum_cons, IH by done. lia.
Qed.

Lemma zsum_alter i T (l : list Z) : (i < length l)%nat -> zsum (alter (fun p => p - T) i l) = zsum l - T.
Proof. revert i. induction l as [|p l IH]; intros [|i] Hi; cbn [length] in Hi; [lia|lia|cbn; unfold zsum; lia|].
  change (alter (fun p => p - T) (S i) (p :: l)) with (p :: alter (fun p => p - T) i l). rewrite !zsum_cons, IH by lia. lia.
Qed.

Lemma length_raised ws ps : length ws = length ps -> length (raised ws ps) = length ps.
Proof. intros Hl. unfold raised. rewrite length_zip_with. lia. Qed.

(** One is bounded by what the others lack. *)
Lemma zsum_one b l i p : l !! i = Some p -> Forall (fun q => b <= q) l -> p <= zsum l - b * (Z.of_nat (length l) - 1).
Proof.
  intros Hi Hb. pose proof (delete_Permutation l i p Hi) as Hperm. rewrite (zsum_perm _ _ Hperm), zsum_cons.
  rewrite Hperm in Hb. apply Forall_cons in Hb as [_ Hb]. apply zsum_lower in Hb.
  rewrite (length_delete l i) in Hb by by eexists. apply lookup_lt_Some in Hi.
  replace (Z.of_nat (length l - 1)) with (Z.of_nat (length l) - 1) in Hb by lia. lia.
Qed.

(** ** Rounds *)

Section Rounds.
Context (T : Z) (ws ps : list Z).
Context (HT : 0 < T) (Hws : zsum ws = T) (Hpos : Forall (fun w => 0 <= w) ws) (Hlen : length ws = length ps) (Hps : centred T ps).

Lemma rounds_nonempty : ps <> [].
Proof using All. intros ->. destruct ws; [|done]. cbn in Hws. lia. Qed.

Lemma length_after k : length (after T ws k ps) = length ps.
Proof using Hlen. induction k as [|k IH]; [done|]. cbn. unfold pay. rewrite length_alter, length_raised; [done|congruence]. Qed.

Lemma winner_lt l : length ws = length l -> (winner ws l < length ps)%nat.
Proof using All.
  intros Hl. unfold winner. assert (E : length (raised ws l) = length ps) by (rewrite length_raised by done; congruence). rewrite <- E.
  apply best_lt. intros E'. rewrite E' in E. apply rounds_nonempty. by destruct ps.
Qed.

(** The sum does not change, and no priority falls below the window. *)
Lemma after_inv k : zsum (after T ws k ps) = zsum ps /\ Forall (fun p => - (2 * T) <= p) (after T ws k ps).
Proof using All.
  induction k as [|k [IHs IHl]]; cbn.
  - split; [done|]. destruct Hps as [Hw Hs]. apply list.Forall_forall. intros p Hp.
    destruct (decide (0 <= lmax ps)) as [Hm|Hm].
    + pose proof (Hw (lmax ps) p (lmax_in _ rounds_nonempty) Hp). lia.
    + exfalso. pose proof (zsum_upper (lmax ps) ps) as Hu. assert (zsum ps <= lmax ps * Z.of_nat (length ps)); [|nia].
      apply Hu, list.Forall_forall. apply lmax_ge.
  - set (l := after T ws k ps) in *. assert (Hl : length ws = length l) by (unfold l; rewrite length_after; done).
    assert (Hw : (winner ws l < length (raised ws l))%nat) by (rewrite length_raised by done; rewrite <- Hl, Hlen; by apply winner_lt).
    split; [unfold pay; rewrite zsum_alter, zsum_raised by done; lia|].
    destruct (lookup_lt_is_Some_2 _ _ Hw) as [m Hm]. pose proof (best_max _ _ Hm) as Hmax. apply zsum_upper in Hmax.
    rewrite zsum_raised, length_raised in Hmax by done. destruct Hps as [_ Hs].
    apply Forall_lookup. intros i p Hi. unfold pay in Hi. destruct (decide (i = winner ws l)) as [->|Hne].
    + rewrite list_lookup_alter, decide_True, Hm in Hi by done. cbn in Hi. injection Hi as <-. assert (0 < m); [|lia]. nia.
    + rewrite list_lookup_alter_ne in Hi by done. unfold raised in Hi. apply lookup_zip_with_Some in Hi as (x & w & -> & Hx & Hw').
      rewrite Forall_lookup in IHl, Hpos. specialize (IHl _ _ Hx). specialize (Hpos _ _ Hw'). cbn in *. lia.
Qed.

Lemma after_upper k i p : after T ws k ps !! i = Some p -> - (2 * T) <= p <= zsum ps + 2 * T * (Z.of_nat (length ps) - 1).
Proof using All.
  intros Hi. destruct (after_inv k) as [Hs Hl]. split; [rewrite Forall_lookup in Hl; by apply (Hl i)|].
  pose proof (zsum_one _ _ _ _ Hi Hl) as Hu. rewrite Hs, length_after in Hu. lia.
Qed.

(** A priority is what was gained less what was paid. *)
Lemma after_balance k i w p :
  ws !! i = Some w -> ps !! i = Some p -> after T ws k ps !! i = Some (p + Z.of_nat k * w - T * turns T ws ps i k).
Proof using All.
  intros Hw Hp. induction k as [|k IH]; [cbn; rewrite Hp; f_equal; unfold turns; cbn; lia|]. cbn. unfold pay.
  set (l := after T ws k ps) in *. assert (Hr : raised ws l !! i = Some (p + Z.of_nat k * w - T * turns T ws ps i k + w)).
  { unfold raised. rewrite lookup_zip_with, IH. cbn. by rewrite Hw. }
  assert (Ht : turns T ws ps i (S k) = turns T ws ps i k + if decide (winner ws l = i) then 1 else 0).
  { unfold turns. rewrite seq_S, filter_app, length_app, Nat2Z.inj_add. f_equal. cbn [plus]. rewrite filter_cons, filter_nil.
    change (proposer_at T ws ps k) with (winner ws l). by destruct (decide (winner ws l = i)). }
  rewrite Ht. destruct (decide (winner ws l = i)) as [<-|Hne].
  - rewrite list_lookup_alter, decide_True, Hr by done. cbn. f_equal. lia.
  - rewrite list_lookup_alter_ne, Hr by done. f_equal. lia.
Qed.

(** Over any number of rounds the turns of a validator, weighted by the total voting power,
    stay within a fixed distance of the rounds weighted by its own. *)
Lemma turns_fair k i w : ws !! i = Some w -> Z.abs (T * turns T ws ps i k - Z.of_nat k * w) <= Z.of_nat (length ps) * (2 * T + 1).
Proof using All.
  intros Hw. assert (is_Some (ps !! i)) as [p Hp] by (apply lookup_lt_is_Some; rewrite <- Hlen; by eapply lookup_lt_Some).
  pose proof (after_balance k i w p Hw Hp) as Hk. apply after_upper in Hk. pose proof (after_upper 0 i p Hp) as H0. destruct Hps as [_ Hs]. lia.
Qed.

End Rounds.
