(* ===== verification/ProposerRefine.v ===== *)
(** * The calculator computes the rotation on lists

    The operations on shared cells against [ProposerSpec]: which priorities they leave in
    the cells of a snapshot, and that they touch no others. *)

From stdpp Require Import gmap.
From S2P Require Import Prelude ChainTypes BigInt Runtime Receipts Rlp ChainRlp Hex Bls Validators PlgExtra Proposer ProposerSpec.
Local Open Scope go_scope.

Section Refine.
Context `{Bn256} `{Codec}.

Definition cells_of (s : ProposerSnapshot) : list nat := ProposerPriority <$> ps_Validators s.
Definition metas (s : ProposerSnapshot) : list ValidatorMetadata := Metadata <$> ps_Validators s.
Definition powers (l : list ValidatorMetadata) : list Z := v_VotingPower <$> l.
Definition prios (c : Cells) (s : ProposerSnapshot) : list Z := priority c <$> ps_Validators s.

(** Distinct cells of the memory. *)
Definition owned (c : Cells) (l : list PrioritizedValidator) : Prop :=
  NoDup (ProposerPriority <$> l) /\ Forall (fun v => (ProposerPriority v < length c)%nat) l.

(** Cells outside of a list are left alone. *)
Definition keeps (cells : list nat) (c c' : Cells) : Prop := length c' = length c /\ forall i, i ∉ cells -> c' !! i = c !! i.

(** Memory has grown, the old cells are as before. *)
Definition extends (c c' : Cells) : Prop := (length c <= length c')%nat /\ forall i, (i < length c)%nat -> c' !! i = c !! i.

Lemma keeps_trans cells c c' c'' : keeps cells c c' -> keeps cells c' c'' -> keeps cells c c''.
Proof using Type. intros [L1 K1] [L2 K2]. split; [congruence|]. intros i Hi. by rewrite K2, K1. Qed.

Lemma extends_trans c c' c'' : extends c c' -> extends c' c'' -> extends c c''.
Proof using Type. intros [L1 K1] [L2 K2]. split; [lia|]. intros i Hi. rewrite K2, K1 by lia. done. Qed.

Lemma priority_ext c c' v : c' !! ProposerPriority v = c !! ProposerPriority v -> priority c' v = priority c v.
Proof using Type. intros E. unfold priority. by rewrite E. Qed.

Lemma priorities_ext c c' (l : list PrioritizedValidator) :
  (forall v, v ∈ l -> c' !! ProposerPriority v = c !! ProposerPriority v) -> priority c' <$> l = priority c <$> l.
Proof using Type. intros E. apply list_fmap_ext. intros i v Hv. apply priority_ext, E. by eapply list_elem_of_lookup_2. Qed.

Lemma owned_cons c v l : owned c (v :: l) <-> (ProposerPriority v < length c)%nat /\ (ProposerPriority v ∉ ProposerPriority <$> l) /\ owned c l.
Proof using Type. unfold owned. rewrite fmap_cons, NoDup_cons, Forall_cons. tauto. Qed.

Lemma owned_length c c' l : (length c <= length c')%nat -> owned c l -> owned c' l.
Proof using Type. intros Hl [Hn Hf]. split; [done|]. eapply Forall_impl; [exact Hf|]. cbn. intros; lia. Qed.

(** ** Writing through the cells *)

Lemma fold_write (f : Z -> Z) l c :
  owned c l ->
  let c' := fold_left (fun c v => set_priority c v (f (priority c v))) l c in
  priority c' <$> l = f <$> (priority c <$> l) /\ keeps (ProposerPriority <$> l) c c'.
Proof using Type.
  revert c. induction l as [|v l IH]; intros c Ho; [done|]. apply owned_cons in Ho as (Hv & Hni & Ho). cbn [fold_left].
  set (c1 := set_priority c v (f (priority c v))).
  assert (L1 : length c1 = length c) by apply length_insert.
  assert (K1 : forall i, i <> ProposerPriority v -> c1 !! i = c !! i) by (intros i Hi; unfold c1, set_priority; by rewrite list_lookup_insert_ne).
  destruct (IH c1) as [Hp [Lk Kk]]; [eapply owned_length; [|exact Ho]; lia|]. split.
  - rewrite !fmap_cons. f_equal.
    + unfold priority at 1. rewrite Kk by done. unfold c1, set_priority. rewrite list_lookup_insert_eq by done. done.
    + rewrite Hp. f_equal. apply priorities_ext. intros w Hw. apply K1. intros E. apply Hni. rewrite <- E. by apply list_elem_of_fmap_2.
  - split; [congruence|]. intros i Hi. rewrite fmap_cons, not_elem_of_cons in Hi. destruct Hi as [Hi Hi']. rewrite Kk by done. by apply K1.
Qed.

(** ** Normalisation *)

Lemma fold_min_max (g : PrioritizedValidator -> Z) l a b :
  fold_left (fun '(min, max) v => (if g v <? min then g v else min, if max <? g v then g v else max)) l (a, b) =
  (foldr Z.min a (g <$> l), foldr Z.max b (g <$> l)).
Proof using Type.
  revert a b. induction l as [|v l IH]; intros a b; [done|]. cbn [fold_left]. rewrite IH, fmap_cons. cbn [foldr].
  assert (Hmin : forall x d ps, foldr Z.min (Z.min x d) ps = Z.min x (foldr Z.min d ps)) by (intros x d ps; induction ps as [|q ps IHq]; cbn; lia).
  assert (Hmax : forall x d ps, foldr Z.max (Z.max x d) ps = Z.max x (foldr Z.max d ps)) by (intros x d ps; induction ps as [|q ps IHq]; cbn; lia).
  rewrite <- Hmin, <- Hmax. f_equal; f_equal; case_match; lia.
Qed.

Lemma computeMaxMin_spec c l : l <> [] -> computeMaxMinPriorityDiff c l = Some (spread (priority c <$> l)).
Proof using Type.
  destruct l as [|v l]; [done|]. intros _. unfold computeMaxMinPriorityDiff. rewrite fold_min_max. f_equal. unfold spread, lmax, lmin. rewrite fmap_cons. cbn [hd foldr].
  destruct (foldr_max_ge (priority c v) (priority c <$> l)) as [Hx _]. destruct (foldr_min_le (priority c v) (priority c <$> l)) as [Hn _].
  rewrite Z.max_r, Z.min_r by done. case_match; lia.
Qed.

Lemma fold_priorities (g : PrioritizedValidator -> Z) l t : fold_left (fun t v => t + g v) l t = t + zsum (g <$> l).
Proof using Type. revert t. induction l as [|v l IH]; intros t; [cbn; lia|]. cbn [fold_left]. rewrite IH, fmap_cons, zsum_cons. lia. Qed.

Lemma total_powers s : GetTotalVotingPower s = zsum (powers (metas s)).
Proof using Type. unfold GetTotalVotingPower. rewrite fold_priorities. unfold powers, metas. rewrite <- list_fmap_compose. done. Qed.

Lemma updateWithChangeSet_spec c s T :
  T <> 0 -> ps_Validators s <> [] -> owned c (ps_Validators s) ->
  exists c', updateWithChangeSet c s T = Some (Ok c') /\ prios c' s = normalise T (prios c s) /\ keeps (cells_of s) c c'.
Proof using Type.
  intros HT Hne Ho. unfold updateWithChangeSet, rescalePriorities. destruct (ps_Validators s) as [|v l] eqn:El; [done|]. rewrite <- El in *.
  rewrite (computeMaxMin_spec c _ Hne). cbn [mbind option_bind]. rewrite (proj2 (Z.eqb_neq _ _)) by lia. cbn [mbind option_bind].
  fold (prios c s). set (r := BigIntDivCeil (spread (prios c s)) (2 * T)).
  assert (exists c1, (if 2 * T <? spread (prios c s) then fold_left (fun c v => set_priority c v (Z.quot (priority c v) r)) (ps_Validators s) c else c) = c1 /\
    prios c1 s = rescale T (prios c s) /\ keeps (cells_of s) c c1) as (c1 & -> & Hp1 & Hk1).
  { unfold rescale. destruct (2 * T <? spread (prios c s)); eexists; (split; [reflexivity|]).
    - destruct (fold_write (fun p => Z.quot p r) _ c Ho) as [Hp Hk]. by split.
    - by split. }
  unfold shiftByAvgProposerPriority, computeAvgProposerPriority. rewrite El. rewrite <- El. rewrite fold_priorities, Z.add_0_l.
  destruct (fold_write (fun p => p - zsum (priority c1 <$> ps_Validators s) / Z.of_nat (length (ps_Validators s))) (ps_Validators s) c1) as [Hp2 Hk2].
  { eapply owned_length; [|exact Ho]. by rewrite (proj1 Hk1). }
  eexists. split; [reflexivity|]. split.
  - unfold prios at 1. rewrite Hp2. fold (prios c1 s). unfold normalise, shift. rewrite Hp1. rewrite length_rescale. unfold prios at 4. by rewrite length_fmap.
  - eapply keeps_trans; [exact Hk1|exact Hk2].
Qed.

(** ** Allocation *)

Lemma fold_alloc {A} (m : A -> ValidatorMetadata) (g : Cells -> A -> Z) l c acc :
  (forall x, x ∈ l -> forall ext, g (c ++ ext) x = g c x) ->
  fold_left (fun acc x => alloc acc (m x) (g acc.1 x)) l (c, acc) =
  (c ++ (g c <$> l), acc ++ imap (fun i x => mkPrioritized (m x) (length c + i)) l).
Proof using Type.
  revert c acc. induction l as [|x l IH]; intros c acc Hg; [cbn; by rewrite !app_nil_r|]. cbn [fold_left]. unfold alloc at 2. cbn [fst snd].
  assert (Hg' : forall y ext, y ∈ l -> g (c ++ ext) y = g c y) by (intros; apply Hg; by right).
  rewrite IH.
  - rewrite <- !app_assoc. f_equal; f_equal.
    + rewrite fmap_cons. cbn. f_equal. apply list_fmap_ext. intros i y Hy. apply Hg'. by eapply list_elem_of_lookup_2.
    + rewrite imap_cons, length_app. cbn [app length]. f_equal; [f_equal; lia|]. apply imap_ext. intros i y _. cbn. f_equal. lia.
  - intros y Hy ext. rewrite <- app_assoc, !Hg' by done. done.
Qed.

(** Newly allocated validators. *)
Definition fresh_validators (n : nat) (l : list ValidatorMetadata) : list PrioritizedValidator := imap (fun i v => mkPrioritized v (n + i)) l.

Lemma fresh_lookup n l i : fresh_validators n l !! i = (fun v => mkPrioritized v (n + i)) <$> l !! i.
Proof using Type. apply list_lookup_imap. Qed.

Lemma fresh_metas n l : Metadata <$> fresh_validators n l = l.
Proof using Type. apply list_eq. intros i. rewrite list_lookup_fmap, fresh_lookup. by destruct (l !! i). Qed.

Lemma fresh_owned c ps l : length ps = length l -> owned (c ++ ps) (fresh_validators (length c) l).
Proof using Type.
  intros Hl. split.
  - apply NoDup_alt. intros i j x Hi Hj. rewrite list_lookup_fmap, fresh_lookup in Hi, Hj. destruct (l !! i), (l !! j); try done. cbn in Hi, Hj.
    injection Hi as <-. injection Hj as E. lia.
  - apply Forall_lookup. intros i v Hv. rewrite fresh_lookup in Hv. destruct (l !! i) eqn:E; [|done]. injection Hv as <-. cbn.
    rewrite length_app. apply lookup_lt_Some in E. lia.
Qed.

Lemma fresh_priorities c ps l : length ps = length l -> priority (c ++ ps) <$> fresh_validators (length c) l = ps.
Proof using Type.
  intros Hl. apply list_eq. intros i. rewrite list_lookup_fmap, fresh_lookup. destruct (l !! i) as [v|] eqn:E; cbn.
  - unfold priority. cbn. rewrite lookup_app_r, Nat.add_comm, Nat.add_sub by lia. apply lookup_lt_Some in E. rewrite <- Hl in E.
    by destruct (lookup_lt_is_Some_2 _ _ E) as [p ->].
  - apply lookup_ge_None in E. symmetry. apply lookup_ge_None. lia.
Qed.

(** ** Rounds *)

Lemma most_priority c l v :
  ProposerPriority v ∉ ProposerPriority <$> l -> NoDup (ProposerPriority <$> l) ->
  fold_left (fun r curr => if isBetterProposer c curr r then Some curr else r) l (Some v) =
  if forallb (fun q => q <=? priority c v) (priority c <$> l) then Some v else l !! best (priority c <$> l).
Proof using Type.
  revert v. induction l as [|x l IH]; intros v Hv Hn; [done|]. rewrite fmap_cons, not_elem_of_cons in Hv. destruct Hv as [Hvx Hv].
  rewrite fmap_cons, NoDup_cons in Hn. destruct Hn as [Hx Hn]. rewrite fmap_cons. cbn [fold_left forallb best].
  unfold isBetterProposer at 2. rewrite (proj2 (Nat.eqb_neq _ _)) by congruence. destruct (Z.ltb_spec (priority c v) (priority c x)) as [Hlt|Hge].
  - rewrite (proj2 (Z.leb_gt _ _)) by done. cbn [andb]. rewrite IH by done. by destruct (forallb _ _).
  - rewrite (proj2 (Z.leb_le _ _)) by done. cbn [andb]. rewrite IH by done. destruct (forallb (fun q => q <=? priority c v) _) eqn:E; [done|].
    destruct (forallb (fun q => q <=? priority c x) (priority c <$> l)) eqn:E'; [|done]. exfalso. apply not_true_iff_false in E. apply E.
    apply forallb_le in E'. apply forallb_le. eapply Forall_impl; [exact E'|]. cbn. lia.
Qed.

Lemma getValWithMostPriority_spec c s :
  ps_Validators s <> [] -> NoDup (cells_of s) -> getValWithMostPriority c s = ps_Validators s !! best (prios c s).
Proof using Type.
  intros Hne Hn. unfold getValWithMostPriority, prios. unfold cells_of in Hn. destruct (ps_Validators s) as [|v l]; [done|]. cbn [fold_left].
  rewrite fmap_cons, NoDup_cons in Hn. destruct Hn as [Hv Hn]. change (isBetterProposer c v None) with true. cbv iota. rewrite most_priority by done.
  rewrite fmap_cons. cbn [best]. by destruct (forallb _ _).
Qed.

Lemma priority_app c ext v : (ProposerPriority v < length c)%nat -> priority (c ++ ext) v = priority c v.
Proof using Type. intros Hv. apply priority_ext. by apply lookup_app_l. Qed.

Lemma raised_fmap c l : (fun v => priority c v + v_VotingPower (Metadata v)) <$> l = raised (powers (Metadata <$> l)) (priority c <$> l).
Proof using Type. induction l as [|v l IH]; [done|]. rewrite !fmap_cons, IH. done. Qed.

Lemma pay_cell c ps m i T :
  (i < length ps)%nat ->
  let v := mkPrioritized m (length c + i) in
  set_priority (c ++ ps) v (priority (c ++ ps) v - T) = c ++ alter (fun p => p - T) i ps.
Proof using Type.
  intros Hi v. destruct (lookup_lt_is_Some_2 _ _ Hi) as [p Hp]. unfold set_priority, priority, v. cbn.
  rewrite lookup_app_r, Nat.add_comm, Nat.add_sub, Hp by lia. rewrite (Nat.add_comm i), insert_app_r. f_equal. cbn.
  apply list_eq. intros j. destruct (decide (i = j)) as [<-|].
  - rewrite list_lookup_insert_eq by done. rewrite list_lookup_alter, decide_True, Hp by done. done.
  - by rewrite list_lookup_insert_ne, list_lookup_alter_ne.
Qed.

Lemma incrementProposerPriority_spec c s T :
  ps_Validators s <> [] -> owned c (ps_Validators s) ->
  exists c' s' p, incrementProposerPriority c s T = Ok (c', s', p) /\ extends c c' /\ owned c' (ps_Validators s') /\
    s' = with_validators s (fresh_validators (length c) (metas s)) /\
    prios c' s' = pay T (powers (metas s)) (prios c s) /\ metas s !! winner (powers (metas s)) (prios c s) = Some (Metadata p).
Proof using Type.
  intros Hne [Hn Hf]. unfold incrementProposerPriority.
  rewrite (fold_alloc Metadata (fun c v => priority c v + v_VotingPower (Metadata v))).
  2: { intros v Hv ext. rewrite priority_app; [done|]. by eapply list.Forall_forall in Hf. }
  cbn [app]. rewrite raised_fmap. fold (metas s) (prios c s). set (ps := raised (powers (metas s)) (prios c s)).
  assert (Hl : length ps = length (metas s)).
  { unfold ps, raised, prios, powers, metas. rewrite length_zip_with, !length_fmap. lia. }
  assert (imap (fun i v => mkPrioritized (Metadata v) (length c + i)) (ps_Validators s) = fresh_validators (length c) (metas s)) as ->.
  { apply list_eq. intros i. rewrite fresh_lookup, list_lookup_imap. unfold metas. rewrite list_lookup_fmap. by destruct (ps_Validators s !! i). }
  set (s' := with_validators s (fresh_validators (length c) (metas s))).
  pose proof (fresh_owned c ps (metas s) Hl) as Ho. pose proof (fresh_priorities c ps (metas s) Hl) as Hp.
  assert (Hne' : ps_Validators s' <> []).
  { cbn. unfold fresh_validators, metas. by destruct (ps_Validators s). }
  rewrite (getValWithMostPriority_spec (c ++ ps) s' Hne' (proj1 Ho)). assert (prios (c ++ ps) s' = ps) as -> by exact Hp.
  assert (Hlt : (best ps < length (metas s))%nat) by (rewrite <- Hl; apply best_lt; intros E; rewrite E in Hl; unfold metas in Hl; by destruct (ps_Validators s)).
  destruct (lookup_lt_is_Some_2 _ _ Hlt) as [m Hm]. change (ps_Validators s') with (fresh_validators (length c) (metas s)).
  rewrite fresh_lookup, Hm. cbn [fmap option_fmap option_map]. rewrite (pay_cell c ps m (best ps) T) by lia.
  assert (Hl' : length (alter (fun p => p - T) (best ps) ps) = length (metas s)) by by rewrite length_alter.
  eexists _, s', _. split; [reflexivity|]. split; [|split; [by apply fresh_owned|split; [done|split; [by apply fresh_priorities|exact Hm]]]].
  split; [rewrite length_app; lia|]. intros i Hi. by apply lookup_app_l.
Qed.

Lemma after_shift T ws k ps : after T ws (S k) ps = after T ws k (pay T ws ps).
Proof using Type. induction k as [|k IH]; [done|]. cbn [after] in *. by rewrite IH. Qed.

Lemma proposer_at_shift T ws ps k : proposer_at T ws ps (S k) = proposer_at T ws (pay T ws ps) k.
Proof using Type. unfold proposer_at. by rewrite after_shift. Qed.

(** All cells are at or above a bound. *)
Definition fresh_from (n : nat) (s : ProposerSnapshot) : Prop := Forall (fun v => (n <= ProposerPriority v)%nat) (ps_Validators s).

Lemma fresh_validators_from n l : Forall (fun v => (n <= ProposerPriority v)%nat) (fresh_validators n l).
Proof using Type. apply Forall_lookup. intros i v Hv. rewrite fresh_lookup in Hv. destruct (l !! i); [|done]. injection Hv as <-. cbn. lia. Qed.

Lemma metas_nonempty s : ps_Validators s <> [] <-> metas s <> [].
Proof using Type. unfold metas. by destruct (ps_Validators s). Qed.

Lemma increments_spec n c s T p0 :
  ps_Validators s <> [] -> owned c (ps_Validators s) ->
  exists c' l p, increments (S n) c s T p0 = Ok (c', with_validators s l, Some p) /\ extends c c' /\ owned c' l /\
    Forall (fun v => (length c <= ProposerPriority v)%nat) l /\ Metadata <$> l = metas s /\
    priority c' <$> l = after T (powers (metas s)) (S n) (prios c s) /\
    metas s !! proposer_at T (powers (metas s)) (prios c s) n = Some (Metadata p).
Proof using Type.
  revert c s p0. induction n as [|n IH]; intros c s p0 Hne Ho.
  - destruct (incrementProposerPriority_spec c s T Hne Ho) as (c1 & s1 & p & Hi & He & Ho1 & -> & Hp & Hm). cbn [increments]. rewrite Hi.
    eexists _, _, _. split; [reflexivity|]. split; [done|]. split; [done|]. split; [apply fresh_validators_from|]. split; [apply fresh_metas|]. split; [exact Hp|done].
  - destruct (incrementProposerPriority_spec c s T Hne Ho) as (c1 & s1 & p & Hi & He & Ho1 & Hs1 & Hp & Hm).
    assert (Hms : metas s1 = metas s) by (rewrite Hs1; apply fresh_metas).
    destruct (IH c1 s1 (Some p)) as (c' & l & q & Hinc & He' & Ho' & Hf & Hmt & Hpr & Hq); [apply metas_nonempty; rewrite Hms; by apply metas_nonempty|done|].
    exists c', l, q. split.
    + change (increments (S (S n)) c s T p0) with (match incrementProposerPriority c s T with Err e => Err e | Ok (c, s, p) => increments (S n) c s T (Some p) end).
      rewrite Hi, Hinc, Hs1. done.
    + split; [by eapply extends_trans|]. split; [done|]. split; [eapply Forall_impl; [exact Hf|]; destruct He; cbn; intros; lia|].
      rewrite Hms in *. split; [done|]. rewrite Hp in Hpr, Hq. split; [by rewrite after_shift|by rewrite proposer_at_shift].
Qed.

(** ** The proposer of a round *)

Section Snapshot.
Context (s : ProposerSnapshot) (T : Z) (ws : list Z).
Context (HT : T = zsum (powers (metas s))) (Hws : ws = powers (metas s)) (Hpos : T <> 0).

Lemma NTimes_spec c times :
  ps_Validators s <> [] -> owned c (ps_Validators s) -> 0 < times < two64 ->
  exists c1 c' l p,
    incrementProposerPriorityNTimes c s times = Some (Ok (c', mkSnapshot (ps_Height s) (times - 1) (Some p) l, p)) /\
    keeps (cells_of s) c c1 /\ prios c1 s = normalise T (prios c s) /\ extends c1 c' /\ owned c' l /\
    Forall (fun v => (length c <= ProposerPriority v)%nat) l /\ Metadata <$> l = metas s /\
    priority c' <$> l = after T ws (Z.to_nat times) (normalise T (prios c s)) /\
    metas s !! proposer_at T ws (normalise T (prios c s)) (Z.to_nat (times - 1)) = Some (Metadata p).
Proof using HT Hws Hpos.
  intros Hne Ho Ht. destruct (updateWithChangeSet_spec c s T Hpos Hne Ho) as (c1 & Hu & Hp1 & Hk1).
  destruct (increments_spec (Z.to_nat (times - 1)) c1 s T None Hne) as (c' & l & p & Hi & He & Ho' & Hf & Hm & Hp & Hw).
  { eapply owned_length; [|exact Ho]. by rewrite (proj1 Hk1). }
  exists c1, c', l, p. unfold incrementProposerPriorityNTimes. destruct (ps_Validators s) as [|v0 l0] eqn:El; [done|].
  rewrite (proj2 (Z.leb_gt _ _)) by lia. rewrite total_powers, <- HT, Hu. cbn [mbind option_bind].
  assert (Z.to_nat times = S (Z.to_nat (times - 1))) as Hn by lia. rewrite Hn, Hi. rewrite u64_small by lia.
  split; [done|]. split; [done|]. split; [done|]. split; [done|]. split; [done|]. split; [by rewrite <- (proj1 Hk1)|]. split; [done|].
  rewrite <- Hws, Hp1 in *. done.
Qed.

End Snapshot.

(** ** Change of the validators *)

Definition addrs (l : list ValidatorMetadata) : list Address := v_Address <$> l.

Fixpoint old_priority (ms : list ValidatorMetadata) (ps : list Z) (a : Address) : option Z :=
  match ms, ps with
  | m :: ms, p :: ps => if v_Address m =? a then Some p else old_priority ms ps a
  | _, _ => None
  end.

(** Those that stay keep their priority, the added ones start behind, each by an eighth
    further than the one before. *)
Fixpoint placed (ms : list ValidatorMetadata) (ps : list Z) (new : list ValidatorMetadata) (t : Z) : list Z :=
  match new with
  | [] => []
  | v :: new =>
      match old_priority ms ps (v_Address v) with
      | Some p => p :: placed ms ps new t
      | None => let t := t + t / 8 in - t :: placed ms ps new t
      end
  end.

Definition removed_power (ms new : list ValidatorMetadata) : Z :=
  zsum ((fun v => if bool_decide (v_Address v ∈ addrs new) then 0 else v_VotingPower v) <$> ms).

Definition changed (ms : list ValidatorMetadata) (ps : list Z) (new : list ValidatorMetadata) : list Z :=
  normalise (zsum (powers new)) (placed ms ps new (zsum (powers new) + removed_power ms new)).

Definition by_address (l : list PrioritizedValidator) (a : Address) : option PrioritizedValidator :=
  head (filter (fun v => v_Address (Metadata v) = a) l).

Lemma by_address_cons v l a : by_address (v :: l) a = if decide (v_Address (Metadata v) = a) then Some v else by_address l a.
Proof using Type. unfold by_address. rewrite filter_cons. by destruct (decide _). Qed.

Lemma by_address_Some l a v : NoDup (addrs (Metadata <$> l)) -> by_address l a = Some v <-> v ∈ l /\ v_Address (Metadata v) = a.
Proof using Type.
  induction l as [|x l IH]; intros Hn; [unfold by_address; cbn; split; [done|]; intros [Hv _]; by apply not_elem_of_nil in Hv|].
  unfold addrs in Hn. rewrite !fmap_cons, NoDup_cons in Hn. destruct Hn as [Hx Hn]. specialize (IH Hn). rewrite by_address_cons, elem_of_cons.
  destruct (decide _) as [Ha|Ha].
  - split; [intros [= <-]; auto|]. intros [[->|Hv] Hv']; [done|]. exfalso. apply Hx. rewrite Ha, <- Hv'. by apply list_elem_of_fmap_2, list_elem_of_fmap_2.
  - rewrite IH. split; [intros []; auto|]. intros [[->|Hv] Hv']; [done|]. done.
Qed.

Lemma toMap_lookup s a : NoDup (addrs (metas s)) -> toMap s !! a = by_address (ps_Validators s) a.
Proof using Type.
  unfold toMap, metas. intros Hn. set (l := ps_Validators s) in *. clearbody l. clear s.
  assert (Hgen : forall m : gmap Address PrioritizedValidator, fold_left (fun m v => <[v_Address (Metadata v) := v]> m) l m !! a =
    match by_address l a with Some v => Some v | None => m !! a end); [|rewrite Hgen, lookup_empty; by destruct (by_address l a)].
  induction l as [|x l IH]; intros m; [done|]. unfold addrs in Hn. rewrite !fmap_cons, NoDup_cons in Hn. destruct Hn as [Hx Hn].
  cbn [fold_left]. rewrite (IH Hn), by_address_cons. destruct (decide _) as [<-|Ha].
  - destruct (by_address l (v_Address (Metadata x))) as [v|] eqn:E; [|by rewrite lookup_insert_eq]. exfalso. apply by_address_Some in E as [Hv Hv']; [|done].
    apply Hx. rewrite <- Hv'. by apply list_elem_of_fmap_2, list_elem_of_fmap_2.
  - destruct (by_address l a); [done|]. by rewrite lookup_insert_ne.
Qed.

Lemma old_priority_by_address c l a : old_priority (Metadata <$> l) (priority c <$> l) a = priority c <$> by_address l a.
Proof using Type.
  induction l as [|v l IH]; [done|]. rewrite !fmap_cons, by_address_cons. cbn [old_priority]. destruct (decide _) as [->|Ha].
  - by rewrite Z.eqb_refl.
  - rewrite (proj2 (Z.eqb_neq _ _)) by done. done.
Qed.

Lemma map_of_validators s : NoDup (addrs (metas s)) ->
  map_to_list (toMap s) ≡ₚ (fun v => (v_Address (Metadata v), v)) <$> ps_Validators s.
Proof using Type.
  intros Hn. apply NoDup_Permutation.
  - apply NoDup_map_to_list.
  - apply (NoDup_fmap_1 fst). rewrite <- list_fmap_compose. unfold addrs, metas in Hn. rewrite <- list_fmap_compose in Hn. exact Hn.
  - intros [a v]. rewrite elem_of_map_to_list, toMap_lookup, by_address_Some by done. rewrite list_elem_of_fmap. split.
    + intros [Hv <-]. by exists v.
    + by intros (w & [= -> ->] & Hw).
Qed.

Lemma ContainsNodeID_spec new a :
  Forall addr_ok (addrs new) -> addr_ok a -> ContainsNodeID new (addr_String a) = bool_decide (a ∈ addrs new).
Proof using Type.
  intros Hn Ha. unfold ContainsNodeID. apply Bool.eq_iff_eq_true. rewrite existsb_exists, bool_decide_eq_true. unfold addrs. rewrite list_elem_of_fmap. split.
  - intros (v & Hv & E). apply bool_decide_eq_true in E. apply list_elem_of_In in Hv. exists v. split; [|done].
    rewrite list.Forall_forall in Hn. symmetry. apply addr_String_inj; [|done..]. apply Hn. by apply list_elem_of_fmap_2.
  - intros (v & -> & Hv). exists v. split; [by apply list_elem_of_In|by apply bool_decide_eq_true].
Qed.

Lemma removed_spec s new :
  NoDup (addrs (metas s)) -> Forall addr_ok (addrs new) -> Forall addr_ok (addrs (metas s)) ->
  fold_right (fun p t => if ContainsNodeID new (addr_String p.1) then t else t + v_VotingPower (Metadata p.2)) 0 (map_to_list (toMap s)) =
  removed_power (metas s) new.
Proof using Type.
  intros Hn Hnew Hold.
  assert (Hfold : forall L : list (Address * PrioritizedValidator),
    fold_right (fun p t => if ContainsNodeID new (addr_String p.1) then t else t + v_VotingPower (Metadata p.2)) 0 L =
    zsum ((fun p => if ContainsNodeID new (addr_String p.1) then 0 else v_VotingPower (Metadata p.2)) <$> L)).
  { induction L as [|p L IH]; [done|]. cbn [fold_right]. rewrite IH, fmap_cons, zsum_cons. destruct (ContainsNodeID _ _); lia. }
  rewrite Hfold, (map_of_validators s Hn). unfold removed_power, metas. rewrite <- !list_fmap_compose. f_equal. apply list_fmap_ext.
  intros i v Hv. unfold compose. cbn [fst snd]. rewrite ContainsNodeID_spec; [done|done|]. rewrite list.Forall_forall in Hold. apply Hold.
  unfold addrs, metas. apply list_elem_of_fmap_2, list_elem_of_fmap_2. by eapply list_elem_of_lookup_2.
Qed.

Section Place.
Context (c : Cells) (old : list PrioritizedValidator) (m : gmap Address PrioritizedValidator).
Context (Hn : NoDup (addrs (Metadata <$> old))) (Ho : owned c old) (Hm : forall a, m !! a = by_address old a).

Lemma old_cell a v : m !! a = Some v -> (ProposerPriority v < length c)%nat.
Proof using Hn Ho Hm. rewrite Hm. intros [Hv _]%by_address_Some; [|done]. destruct Ho as [_ Hf]. by eapply list.Forall_forall in Hf. Qed.

Lemma old_cell_inj a b u v : m !! a = Some u -> m !! b = Some v -> ProposerPriority u = ProposerPriority v -> a = b.
Proof using Hn Ho Hm.
  rewrite !Hm. intros [Hu <-]%by_address_Some [Hv <-]%by_address_Some E; [|done..]. f_equal. f_equal. destruct Ho as [Hd _].
  apply list_elem_of_lookup_1 in Hu as [i Hi]. apply list_elem_of_lookup_1 in Hv as [j Hj].
  assert (i = j) as <-; [|congruence]. eapply NoDup_lookup; [exact Hd|by rewrite list_lookup_fmap, Hi|by rewrite list_lookup_fmap, Hj, E].
Qed.

(** The cell of a placed validator is its old one, or new. *)
Definition placed_cell (lo hi : nat) (v : PrioritizedValidator) : Prop :=
  (exists u, m !! v_Address (Metadata v) = Some u /\ ProposerPriority v = ProposerPriority u) \/ (lo <= ProposerPriority v < hi)%nat.

Lemma fold_place new c1 l1 t :
  (length c <= length c1)%nat -> (forall i, (i < length c)%nat -> c1 !! i = c !! i) -> NoDup (addrs new) ->
  exists ext l2 t', fold_left (place m) new (c1, l1, t) = (c1 ++ ext, l1 ++ l2, t') /\ Metadata <$> l2 = new /\
    priority (c1 ++ ext) <$> l2 = placed (Metadata <$> old) (priority c <$> old) new t /\
    NoDup (ProposerPriority <$> l2) /\ Forall (placed_cell (length c1) (length (c1 ++ ext))) l2.
Proof using Hn Ho Hm.
  revert c1 l1 t. induction new as [|v new IH]; intros c1 l1 t Hl Hc1 Hnew.
  { exists [], [], t. cbn. rewrite !app_nil_r. repeat split; constructor. }
  unfold addrs in Hnew. rewrite fmap_cons, NoDup_cons in Hnew. destruct Hnew as [Hv Hnew]. cbn [fold_left placed]. unfold place at 2.
  rewrite old_priority_by_address, <- Hm. destruct (m !! v_Address v) as [u|] eqn:Eu; cbn [fmap option_fmap option_map].
  - destruct (IH c1 (l1 ++ [mkPrioritized v (ProposerPriority u)]) t Hl Hc1 Hnew) as (ext & l2 & t' & Hf & Hmt & Hp & Hd & Hpl).
    exists ext, (mkPrioritized v (ProposerPriority u) :: l2), t'. rewrite Hf, <- app_assoc. split; [done|]. rewrite !fmap_cons, Hmt, Hp. split; [done|].
    pose proof (old_cell _ _ Eu) as Hu. split; [f_equal; unfold priority; cbn [ProposerPriority]; by rewrite lookup_app_l, Hc1 by lia|]. split.
    + apply NoDup_cons. split; [|done]. intros (w & E & Hw)%list_elem_of_fmap. rewrite list.Forall_forall in Hpl. cbn in E.
      destruct (Hpl w Hw) as [(u' & Hu' & E')|Hr]; [|lia]. assert (v_Address v = v_Address (Metadata w)) as Ew by (eapply old_cell_inj; [done..|congruence]).
      apply Hv. rewrite Ew, <- Hmt. by apply list_elem_of_fmap_2, list_elem_of_fmap_2.
    + constructor; [|done]. left. exists u. by split.
  - set (t1 := t + t / 8). destruct (IH (c1 ++ [- t1]) (l1 ++ [mkPrioritized v (length c1)]) t1) as (ext & l2 & t' & Hf & Hmt & Hp & Hd & Hpl).
    { rewrite length_app. lia. }
    { intros i Hi. rewrite lookup_app_l by lia. by apply Hc1. }
    { done. }
    exists ([- t1] ++ ext), (mkPrioritized v (length c1) :: l2), t'. unfold alloc. cbn [fst snd]. rewrite Hf, <- !app_assoc. split; [done|].
    rewrite <- !app_assoc in Hp, Hpl. rewrite !fmap_cons, Hmt, Hp. split; [done|]. split; [|split].
    + f_equal. unfold priority. cbn. rewrite lookup_app_r, Nat.sub_diag by done. done.
    + apply NoDup_cons. split; [|done]. intros (w & E & Hw)%list_elem_of_fmap. rewrite list.Forall_forall in Hpl. cbn in E.
      destruct (Hpl w Hw) as [(u' & Hu' & E')|Hr]; [apply old_cell in Hu'; lia|rewrite length_app in Hr; cbn in Hr; lia].
    + constructor; [right; cbn; rewrite length_app; cbn; lia|]. eapply Forall_impl; [exact Hpl|]. intros w [Hw|Hw]; [by left|right].
      rewrite !length_app in *. cbn in *. lia.
Qed.

End Place.

Lemma updateValidators_spec c s new :
  new <> [] -> NoDup (addrs new) -> NoDup (addrs (metas s)) -> Forall addr_ok (addrs new) -> Forall addr_ok (addrs (metas s)) ->
  owned c (ps_Validators s) -> zsum (powers new) <> 0 ->
  exists c' l, updateValidators c s new = Some (Ok (c', with_validators s l)) /\ Metadata <$> l = new /\ owned c' l /\
    priority c' <$> l = changed (metas s) (prios c s) new /\ (length c <= length c')%nat /\
    (forall i, (i < length c)%nat -> i ∉ cells_of s -> c' !! i = c !! i) /\
    Forall (fun v => ProposerPriority v ∈ cells_of s \/ (length c <= ProposerPriority v)%nat) l.
Proof using Type.
  intros Hne Hnn Hno Han Hao Ho HT. unfold updateValidators. destruct new as [|v0 new0] eqn:Enew; [done|]. rewrite <- Enew in *.
  rewrite removed_spec by done. assert (fold_left (fun t v => t + v_VotingPower v) new 0 = zsum (powers new)) as ->.
  { assert (Hf : forall l t, fold_left (fun t v => t + v_VotingPower v) l t = t + zsum (powers l)); [|by rewrite Hf, Z.add_0_l].
    induction l as [|x l IH]; intros t; [cbn; lia|]. cbn [fold_left]. rewrite IH. unfold powers. rewrite fmap_cons, zsum_cons. lia. }
  destruct (fold_place c (ps_Validators s) (toMap s) Hno Ho (fun a => toMap_lookup s a Hno) new c [] (zsum (powers new) + removed_power (metas s) new))
    as (ext & l & t' & -> & Hmt & Hp & Hd & Hpl); [done..|]. cbn [app].
  assert (Hol : owned (c ++ ext) l).
  { split; [done|]. eapply Forall_impl; [exact Hpl|]. intros v [(u & Hu & E)|Hr]; [|lia]. rewrite E, length_app.
    pose proof (old_cell c (ps_Validators s) (toMap s) Hno Ho (fun a => toMap_lookup s a Hno) _ _ Hu). lia. }
  assert (Hms : metas (with_validators s l) = new) by exact Hmt.
  destruct (updateWithChangeSet_spec (c ++ ext) (with_validators s l) (zsum (powers new)) HT) as (c' & Hu & Hpr & Hlk & Hk).
  { intros E. cbn in E. subst l. done. }
  { done. }
  rewrite total_powers, Hms, Hu. cbn [mbind option_bind]. exists c', l. split; [done|]. split; [done|].
  split; [eapply owned_length; [|exact Hol]; lia|]. split; [unfold prios in Hpr; cbn in Hpr; rewrite Hpr, Hp; done|].
  rewrite length_app in Hlk. split; [lia|].
  assert (Hin : Forall (fun v => ProposerPriority v ∈ cells_of s \/ (length c <= ProposerPriority v)%nat) l).
  { eapply Forall_impl; [exact Hpl|]. intros v [(u & Hu' & ->)|Hr]; [left|right; lia]. rewrite toMap_lookup in Hu' by done.
    apply by_address_Some in Hu' as [Hu' _]; [|done]. by apply list_elem_of_fmap_2. }
  split; [|done]. intros i Hi Hni. rewrite Hk; [by apply lookup_app_l|]. intros (v & -> & Hv)%list_elem_of_fmap. rewrite list.Forall_forall in Hin.
  destruct (Hin v Hv) as [|]; [done|lia].
Qed.

End Refine.
