(* ===== verification/ProposerProps.v ===== *)
(** * Properties of the proposer rotation

    Whatever snapshots were handed out and asked for proposers in between, the proposer of a
    height and round is that of [ProposerSpec]; turns are proportional to voting power. *)

From stdpp Require Import gmap.
From S2P Require Import Prelude ChainTypes BigInt Runtime Receipts Rlp ChainRlp TrieSample ChainRlpProps Hex Bls Validators ValidatorsProps PlgExtra PlgExtraProps Proposer ProposerSpec ProposerRefine.
Local Open Scope go_scope.

Section Props.
Context `{Bn256} `{Fastrlp} `{RlpAccess}.

(** ** Validator sets *)

Record valid_set (l : list ValidatorMetadata) : Prop := {
  vs_addresses : NoDup (addrs l); vs_fit : Forall addr_ok (addrs l); vs_powers : Forall (fun w => 0 <= w) (powers l);
  vs_total : 0 < zsum (powers l); vs_copies : Forall (fun v => v_Copy v = Some v) l }.

Lemma valid_nonempty l : valid_set l -> l <> [].
Proof using Type. intros [_ _ _ Ht _] ->. cbn in Ht. lia. Qed.

Lemma copy_valid s : valid_set (metas s) ->
  p_Copy s = Some (mkSnapshot (ps_Height s) (ps_Round s)
    (match ps_Proposer s with None => None | Some p => last (filter (fun v => v_Address (Metadata v) = v_Address (Metadata p)) (ps_Validators s)) end)
    (ps_Validators s)).
Proof using Type.
  intros [_ _ _ _ Hc]. unfold p_Copy.
  assert (mapM (fun v => m ← v_Copy (Metadata v); Some (mkPrioritized m (ProposerPriority v))) (ps_Validators s) = Some (ps_Validators s)) as ->; [|done].
  unfold metas in Hc. induction (ps_Validators s) as [|v l IH]; [done|]. rewrite fmap_cons in Hc. apply Forall_cons in Hc as [Hv Hc]. cbn [mapM].
  rewrite Hv. cbn [mbind option_bind]. rewrite (IH Hc). by destruct v.
Qed.

(** ** Snapshots and what they stand for *)

Record ASnapshot := mkA { a_Height : Z; a_metas : list ValidatorMetadata; a_prios : list Z; a_last : option Z }.

Definition a_total (a : ASnapshot) : Z := zsum (powers (a_metas a)).
Definition a_normal (a : ASnapshot) : list Z := normalise (a_total a) (a_prios a).

Definition a_proposer (a : ASnapshot) (round : Z) : option ValidatorMetadata :=
  a_metas a !! proposer_at (a_total a) (powers (a_metas a)) (a_normal a) (Z.to_nat round).

(** Priorities matter up to normalisation; a remembered proposer is the right one. *)
Record rep (c : Cells) (s : ProposerSnapshot) (a : ASnapshot) : Prop := {
  re_height : ps_Height s = a_Height a; re_metas : metas s = a_metas a; re_valid : valid_set (a_metas a);
  re_length : length (a_prios a) = length (a_metas a); re_owned : owned c (ps_Validators s);
  re_prios : normalise (a_total a) (prios c s) = a_normal a;
  re_last : match ps_Proposer s with
            | None => a_last a = None
            | Some p => a_last a = Some (ps_Round s) /\ 0 <= ps_Round s < two64 - 1 /\ a_proposer a (ps_Round s) = Some (Metadata p)
            end }.

(** Two snapshots have the same cells, or none in common. *)
Definition compatible (s s' : ProposerSnapshot) : Prop :=
  cells_of s = cells_of s' /\ metas s = metas s' \/ (forall i, i ∈ cells_of s -> i ∈ cells_of s' -> False).

Lemma compatible_sym s s' : compatible s s' -> compatible s' s.
Proof using Type. intros [[]|Hd]; [by left|]. right. intros i Hi Hi'. by apply (Hd i). Qed.

Definition read (c : Cells) (i : nat) : Z := default 0 (c !! i).

Lemma prios_read c s : prios c s = read c <$> cells_of s.
Proof using Type. unfold prios, cells_of. by rewrite <- list_fmap_compose. Qed.

Lemma cells_bound c s i : owned c (ps_Validators s) -> i ∈ cells_of s -> (i < length c)%nat.
Proof using Type. intros [_ Hf] (v & -> & Hv)%list_elem_of_fmap. by eapply list.Forall_forall in Hf. Qed.

(** Normalising one snapshot and allocating leaves all others as they were. *)
Lemma rep_frame c c1 c' s0 s a :
  keeps (cells_of s0) c c1 -> prios c1 s0 = normalise (zsum (powers (metas s0))) (prios c s0) -> extends c1 c' ->
  compatible s0 s -> rep c s a -> rep c' s a.
Proof using Type.
  intros [L1 K1] Hn [L2 K2] Hc [Hh Hm Hv Hl Ho Hp Hla]. split; try done.
  - eapply owned_length; [|exact Ho]. lia.
  - assert (Hr : prios c' s = prios c1 s).
    { apply priorities_ext. intros v Hv'. apply K2. rewrite L1. destruct Ho as [_ Hf]. by eapply list.Forall_forall in Hf. }
    rewrite Hr, <- Hp. destruct Hc as [[Hcells Hmetas]|Hd].
    + rewrite (prios_read c1 s), <- Hcells, <- prios_read, Hn. rewrite (prios_read c s0), Hcells, <- prios_read.
      unfold a_total. rewrite Hmetas, Hm. apply normalise_idem; [by apply Hv|]. intros E. apply (f_equal length) in E. unfold prios in E. rewrite length_fmap in E.
      apply (valid_nonempty _ Hv). rewrite <- Hm. unfold metas. by destruct (ps_Validators s).
    + f_equal. apply priorities_ext. intros v Hv'. apply K1. intros Hi. eapply Hd; [exact Hi|]. by apply list_elem_of_fmap_2.
Qed.

Lemma valid_validators s a : metas s = a_metas a -> valid_set (a_metas a) -> ps_Validators s <> [].
Proof using Type. intros Hm Hv. apply metas_nonempty. rewrite Hm. by apply valid_nonempty. Qed.

Lemma filter_one {A} (f : ValidatorMetadata -> A) `{!EqDecision A} (l : list PrioritizedValidator) v (x : A) :
  NoDup (f <$> (Metadata <$> l)) -> v ∈ l -> f (Metadata v) = x -> filter (fun w => f (Metadata w) = x) l = [v].
Proof using Type.
  intros Hn Hv <-. induction l as [|w l IH]; [by apply not_elem_of_nil in Hv|]. rewrite !fmap_cons, NoDup_cons in Hn. destruct Hn as [Hw Hn].
  rewrite filter_cons. apply elem_of_cons in Hv as [->|Hv].
  - rewrite decide_True by done. f_equal. destruct (filter _ l) as [|u l'] eqn:E; [done|].
    assert (Hu : u ∈ filter (fun w0 => f (Metadata w0) = f (Metadata w)) l) by (rewrite E; left).
    apply list_elem_of_filter in Hu as [Eu Hu]. exfalso. apply Hw. rewrite <- Eu. by apply list_elem_of_fmap_2, list_elem_of_fmap_2.
  - rewrite decide_False; [by apply IH|]. intros E. apply Hw. rewrite E. by apply list_elem_of_fmap_2, list_elem_of_fmap_2.
Qed.

(** ** Asking for a proposer *)

Definition a_calc (a : ASnapshot) (round height : Z) : ASnapshot * result PropErr Address :=
  if negb (height =? a_Height a) then (a, Err ErrPropHeight)
  else if round +u 1 =? 0 then (a, Err ErrTimes)
  else match a_proposer a round with
       | None => (a, Err ErrNoSet)
       | Some v => (mkA (a_Height a) (a_metas a) (a_prios a) (Some round), Ok (v_Address v))
       end.

(** Other snapshots stand for what they did. *)
Definition undisturbed (c c' : Cells) (s0 : ProposerSnapshot) : Prop := forall s a, compatible s0 s -> rep c s a -> rep c' s a.

Lemma undisturbed_refl c s : undisturbed c c s.
Proof using Type. by intros s' a _. Qed.

Lemma proposer_valid a round : valid_set (a_metas a) -> length (a_prios a) = length (a_metas a) -> is_Some (a_proposer a round).
Proof using Type.
  intros Hv Hl. apply lookup_lt_is_Some. unfold proposer_at. pose proof (valid_nonempty _ Hv) as Hne. destruct Hv as [_ _ Hw Ht _].
  assert (Hn : a_prios a <> []) by (intros E; rewrite E in Hl; by destruct (a_metas a)).
  assert (Hln : length (powers (a_metas a)) = length (a_normal a)).
  { unfold powers, a_normal. by rewrite length_fmap, length_normalise. }
  rewrite <- Hl, <- (length_normalise (a_total a) (a_prios a)).
  apply (winner_lt (a_total a) (powers (a_metas a)) (a_normal a)); try done; [by apply normalise_centred|]. by rewrite length_after.
Qed.

Lemma snapshot_step c s a round :
  rep c s a -> 0 <= round < two64 - 1 ->
  exists c' l p, incrementProposerPriorityNTimes c s (round + 1) = Some (Ok (c', mkSnapshot (ps_Height s) round (Some p) l, p)) /\
    undisturbed c c' s /\ (length c <= length c')%nat /\ owned c' l /\ Forall (fun v => (length c <= ProposerPriority v)%nat) l /\
    Metadata <$> l = a_metas a /\ priority c' <$> l = after (a_total a) (powers (a_metas a)) (Z.to_nat (round + 1)) (a_normal a) /\
    a_proposer a round = Some (Metadata p).
Proof using Type.
  intros [Hh Hm Hv Hl Ho Hp Hla] Hround.
  destruct (NTimes_spec s (a_total a) (powers (a_metas a))) with (c := c) (times := round + 1) as (c1 & c' & l & p & HN & Hk & Hn & He & Ho' & Hf & Hmt & Hpr & Hw).
  { unfold a_total. by rewrite Hm. }
  { by rewrite Hm. }
  { destruct Hv. unfold a_total. lia. }
  { by eapply valid_validators. }
  { done. }
  { lia. }
  replace (round + 1 - 1) with round in * by lia. rewrite Hp in *. rewrite Hm in *. exists c', l, p. split; [done|]. split.
  - intros s2 a2 Hc2 Hr2. eapply rep_frame; [exact Hk| |exact He|exact Hc2|exact Hr2]. rewrite Hn, <- Hp, Hm. done.
  - split; [destruct Hk as [Lk _], He as [Le _]; lia|]. done.
Qed.

(** A copy has the same cells and stands for the same. *)
Lemma copy_rep c s a : rep c s a -> exists s', p_Copy s = Some s' /\ ps_Validators s' = ps_Validators s /\ rep c s' a.
Proof using Type.
  intros [Hh Hm Hv Hl Ho Hp Hla]. eexists. split; [apply copy_valid; by rewrite Hm|]. split; [done|]. split; try done. cbn [ps_Proposer ps_Round].
  destruct (ps_Proposer s) as [p|]; [|done]. destruct Hla as (Ha & Hb & Hq).
  assert (exists v, v ∈ ps_Validators s /\ Metadata v = Metadata p) as (v & Hv' & Em).
  { unfold a_proposer in Hq. apply list_elem_of_lookup_2 in Hq. rewrite <- Hm in Hq. unfold metas in Hq. apply list_elem_of_fmap in Hq as (v & E & Hv'). by exists v. }
  assert (Hf : filter (fun w => v_Address (Metadata w) = v_Address (Metadata p)) (ps_Validators s) = [v]).
  { apply (filter_one v_Address (ps_Validators s)); [|done|congruence]. destruct Hv as [Hn _ _ _ _]. by rewrite <- Hm in Hn. }
  rewrite Hf. cbn. rewrite Em. done.
Qed.

Lemma CalcProposer_spec c s a round height :
  rep c s a -> is_u64 round ->
  exists c' s', CalcProposer c s round height = Some (c', s', (a_calc a round height).2) /\ undisturbed c c' s /\
    ps_Validators s' = ps_Validators s /\ rep c' s' (a_calc a round height).1.
Proof using Type.
  intros Hr Hround. pose proof Hr as [Hh Hm Hv Hl Ho Hp Hla]. unfold CalcProposer, a_calc. rewrite Hh.
  destruct (height =? a_Height a); cbn [negb]; [|exists c, s; split_and!; try done; apply undisturbed_refl].
  destruct (if ps_Round s =? round then ps_Proposer s else None) as [p|] eqn:Ep.
  - destruct (Z.eqb_spec (ps_Round s) round) as [<-|]; [|done]. rewrite Ep in Hla. destruct Hla as (Ha & Hb & Hq). exists c, s.
    rewrite u64_small by lia. rewrite (proj2 (Z.eqb_neq _ _)) by lia. rewrite Hq. split; [done|]. split; [apply undisturbed_refl|]. split; [done|].
    cbn. rewrite <- Ha. by destruct a.
  - destruct (copy_rep c s a Hr) as (copy & -> & Hcv & Hrc). cbn [mbind option_bind]. unfold is_u64 in Hround.
    destruct (decide (round = two64 - 1)) as [->|Hne].
    + exists c, s. change (two64 - 1 +u 1) with 0. cbn [Z.eqb]. unfold incrementProposerPriorityNTimes. rewrite Hcv.
      pose proof (valid_validators s a Hm Hv) as Hnv. destruct (ps_Validators s); [done|]. cbn [Z.leb Z.compare mbind option_bind].
      split_and!; try done; apply undisturbed_refl.
    + rewrite u64_small by lia. rewrite (proj2 (Z.eqb_neq _ _)) by lia.
      destruct (snapshot_step c copy a round Hrc) as (c' & l & p & -> & Hu & Hlen & _ & _ & _ & _ & Hq); [lia|]. cbn [mbind option_bind]. rewrite Hq.
      eexists _, _. split; [reflexivity|]. assert (Hcc : forall s2, compatible s s2 -> compatible copy s2).
      { intros s2. unfold compatible, cells_of, metas. by rewrite Hcv. }
      split; [intros s2 a2 Hc2; by apply Hu, Hcc|]. split; [done|].
      destruct (Hu s a) as [Hh' Hm' Hv' Hl' Ho' Hp' _]; [left; unfold cells_of, metas; by rewrite Hcv|done|].
      split; try done. cbn. split; [done|]. split; [lia|exact Hq].
Qed.

(** ** Blocks *)

Context `{!plgbftBackend} `{!ProposerEnv}.

(** The validators of the chain are valid sets, its blocks have checkpoints, and no round is
    the last one a [uint64] can count. *)
Class ProposerEnvLaws : Prop := {
  validators_valid n l : GetValidators n [] = Some l -> valid_set l;
  rounds_fit n e : getBlockData proposer_chain n = Some (Ok e) -> exists cp, e_Checkpoint e = Some cp /\ 0 <= BlockRound cp < two64 - 1;
}.

Definition a_block (a : ASnapshot) : ASnapshot * result PropErr unit :=
  match getBlockData proposer_chain (a_Height a) with
  | None | Some (Err _) => (a, Err ErrBlockData)
  | Some (Ok e) =>
      match block_validators e (a_Height a) with
      | Err err => (a, Err err)
      | Ok new =>
          let round := match e_Checkpoint e with Some cp => BlockRound cp | None => 0 end in
          let ps := after (a_total a) (powers (a_metas a)) (Z.to_nat (round + 1)) (a_normal a) in
          match new with
          | [] => (mkA (a_Height a + 1) (a_metas a) ps None, Ok tt)
          | _ => (mkA (a_Height a + 1) new (changed (a_metas a) ps new) None, Ok tt)
          end
      end
  end.

(** The other snapshots stand for what they did, and share with the new one or not at all. *)
Definition moves (c : Cells) (s : ProposerSnapshot) (c' : Cells) (s' : ProposerSnapshot) : Prop :=
  forall s2 a2, compatible s s2 -> rep c s2 a2 -> rep c' s2 a2 /\ compatible s' s2.

Lemma moves_refl c s : moves c s c s.
Proof using Type. by intros s2 a2 Hc Hr. Qed.

Lemma moves_trans c s c1 s1 c2 s2 : moves c s c1 s1 -> moves c1 s1 c2 s2 -> moves c s c2 s2.
Proof using Type. intros M1 M2 s' a' Hc Hr. destruct (M1 s' a' Hc Hr) as [Hr1 Hc1]. by apply M2. Qed.

Lemma rep_same c c' s a : (length c <= length c')%nat -> (forall i, i ∈ cells_of s -> c' !! i = c !! i) -> rep c s a -> rep c' s a.
Proof using Type.
  intros Hl Hk [Hh Hm Hv Hla Ho Hp Hlast]. split; try done; [by eapply owned_length|]. rewrite <- Hp. f_equal. apply priorities_ext.
  intros v Hv'. apply Hk. by apply list_elem_of_fmap_2.
Qed.

(** A snapshot whose cells are all new has none in common with the old ones. *)
Lemma fresh_compatible c s s' : owned c (ps_Validators s) -> (forall i, i ∈ cells_of s' -> (length c <= i)%nat) -> compatible s' s.
Proof using Type. intros Ho Hf. right. intros i Hi Hi'. pose proof (cells_bound c s i Ho Hi'). specialize (Hf i Hi). lia. Qed.

Lemma changed_length ms ps new : length (changed ms ps new) = length new.
Proof using Type.
  unfold changed. rewrite length_normalise. generalize (zsum (powers new) + removed_power ms new). induction new as [|v new IH]; intros t; [done|].
  cbn [placed]. destruct (old_priority _ _ _); cbn [length]; by rewrite IH.
Qed.

Lemma after_length a k : valid_set (a_metas a) -> length (a_prios a) = length (a_metas a) ->
  length (after (a_total a) (powers (a_metas a)) k (a_normal a)) = length (a_metas a).
Proof using Type.
  intros Hv Hl. rewrite length_after; [unfold a_normal; by rewrite length_normalise|]. unfold a_normal, powers. by rewrite length_normalise, length_fmap.
Qed.

Lemma updatePerBlock_spec `{!ProposerEnvLaws} c s a :
  rep c s a -> 0 <= a_Height a < two64 - 1 ->
  exists c' s', updatePerBlock c s (a_Height a) = Some (c', s', (a_block a).2) /\ rep c' s' (a_block a).1 /\ moves c s c' s'.
Proof using Type.
  intros Hr Hh. pose proof Hr as [Eh Hm Hv Hl Ho Hp Hla]. unfold updatePerBlock, a_block. rewrite Eh, Z.eqb_refl. cbn [negb].
  assert (Hsafe : getBlockData proposer_chain (a_Height a) <> None).
  { unfold getBlockData. destruct (proposer_chain _) as [h|]; [|done]. pose proof (GetIbftExtra_safe (h_ExtraData h)). by destruct (GetIbftExtra _) as [[]|]. }
  destruct (getBlockData proposer_chain (a_Height a)) as [[e|]|] eqn:Ee; [|exists c, s; split_and!; try done; apply moves_refl|done]. cbn [mbind option_bind].
  destruct (block_validators e (a_Height a)) as [new|err] eqn:Enew; [|exists c, s; split_and!; try done; apply moves_refl].
  destruct (rounds_fit _ _ Ee) as (cp & -> & Hround). cbn [mbind option_bind]. rewrite (u64_small (BlockRound cp + 1)) by lia.
  destruct (snapshot_step c s a (BlockRound cp) Hr Hround) as (c1 & l & p & -> & Hu & Hlen & Ho1 & Hf & Hmt & Hpr & _). cbn [mbind option_bind].
  set (s1 := mkSnapshot (ps_Height s) (BlockRound cp) (Some p) l). rewrite (u64_small (a_Height a + 1)) by lia. destruct new as [|v0 new0].
  - cbn. eexists _, _. split; [reflexivity|]. split.
    + split; cbn; try done; [by apply after_length|]. unfold a_normal at 1. cbn. unfold a_total. cbn. unfold prios. cbn. by rewrite Hpr.
    + intros s2 a2 Hc2 Hr2. split; [by apply Hu|]. eapply fresh_compatible; [apply Hr2|]. intros i (v & -> & Hv')%list_elem_of_fmap. cbn in Hv'.
      by eapply list.Forall_forall in Hf.
  - assert (Hnew : valid_set (v0 :: new0)).
    { unfold block_validators in Enew. destruct (e_Validators e) as [d|]; [|done]. destruct (d_IsEmpty d); [done|].
      destruct (GetValidators (a_Height a) []) as [l'|] eqn:Eg; [|done]. injection Enew as ->. by eapply validators_valid. }
    assert (Hm1 : metas s1 = a_metas a) by exact Hmt. assert (Hp1 : prios c1 s1 = after (a_total a) (powers (a_metas a)) (Z.to_nat (BlockRound cp + 1)) (a_normal a)) by exact Hpr.
    destruct (updateValidators_spec c1 s1 (v0 :: new0)) as (c2 & l2 & -> & Hmt2 & Ho2 & Hpr2 & Hlen2 & Hk2 & Hf2); try apply Hnew; try (rewrite Hm1; apply Hv); try done.
    { pose proof (vs_total _ Hnew). lia. }
    rewrite Hp1, Hm1 in Hpr2. cbn [mbind option_bind]. eexists _, _. split; [reflexivity|]. split.
    + split; cbn [fst a_Height a_metas a_prios a_last ps_Height ps_Round ps_Proposer ps_Validators]; try done.
      * by rewrite changed_length.
      * unfold a_normal, a_total. cbn [a_metas a_prios]. f_equal. exact Hpr2.
    + intros s2 a2 Hc2 Hr2. assert (Hlow : forall i, i ∈ cells_of s1 -> (length c <= i)%nat).
      { intros i (v & -> & Hv')%list_elem_of_fmap. cbn in Hv'. by eapply list.Forall_forall in Hf. }
      split.
      * eapply rep_same; [exact Hlen2| |by apply Hu]. intros i Hi. pose proof (cells_bound c s2 i (re_owned _ _ _ Hr2) Hi) as Hb. apply Hk2; [lia|].
        intros Hi'. apply Hlow in Hi'. lia.
      * eapply fresh_compatible; [apply Hr2|]. intros i (v & -> & Hv')%list_elem_of_fmap. cbn in Hv'. rewrite list.Forall_forall in Hf2.
        destruct (Hf2 v Hv') as [Hc|Hc]; [by apply Hlow|lia].
Qed.

Fixpoint a_blocks (n : nat) (a : ASnapshot) : ASnapshot * result PropErr unit :=
  match n with
  | O => (a, Ok tt)
  | S n => match a_block a with (a, Err e) => (a, Err e) | (a, Ok _) => a_blocks n a end
  end.

Lemma a_block_ok a u : (a_block a).2 = Ok u -> a_Height (a_block a).1 = a_Height a + 1 /\ a_last (a_block a).1 = None.
Proof using Type. unfold a_block. destruct (getBlockData _ _) as [[e|]|]; [|done..]. destruct (block_validators _ _) as [[|]|]; [done..|]. done. Qed.

Lemma a_block_err a e : (a_block a).2 = Err e -> (a_block a).1 = a.
Proof using Type. unfold a_block. destruct (getBlockData _ _) as [[e'|]|]; [|done..]. destruct (block_validators _ _) as [[|]|]; [done..|]. done. Qed.

Lemma update_blocks_spec `{!ProposerEnvLaws} n c s a :
  rep c s a -> 0 <= a_Height a -> a_Height a + Z.of_nat n < two64 ->
  exists c' s', update_blocks n c s (a_Height a) = Some (c', s', (a_blocks n a).2) /\ rep c' s' (a_blocks n a).1 /\ moves c s c' s'.
Proof using Type.
  revert c s a. induction n as [|n IH]; intros c s a Hr H0' Hh; [exists c, s; split_and!; try done; apply moves_refl|].
  destruct (updatePerBlock_spec c s a Hr) as (c1 & s1 & Hu & Hr1 & Hm1); [lia|]. cbn [update_blocks a_blocks]. rewrite Hu. cbn [mbind option_bind].
  destruct (a_block a) as [a1 [[]|e]] eqn:Eb; cbn [fst snd] in *; [|by exists c1, s1].
  destruct (a_block_ok a tt) as [Hh1 _]; [by rewrite Eb|]. rewrite Eb in Hh1. cbn in Hh1. rewrite <- Hh1.
  destruct (IH c1 s1 a1 Hr1) as (c2 & s2 & Hu2 & Hr2 & Hm2); [lia..|]. exists c2, s2. split; [done|]. split; [done|]. by eapply moves_trans.
Qed.

Lemma a_blocks_inv n a : a_last a = None -> 0 <= a_Height a -> a_Height a + Z.of_nat n < two64 ->
  a_last (a_blocks n a).1 = None /\ a_Height a <= a_Height (a_blocks n a).1 <= a_Height a + Z.of_nat n.
Proof using Type.
  revert a. induction n as [|n IH]; intros a Hl Hge Hh; [split; [done|cbn; lia]|]. cbn [a_blocks]. destruct (a_block a) as [a1 [[]|e]] eqn:Eb.
  - destruct (a_block_ok a tt) as [Hh1 Hl1]; [by rewrite Eb|]. rewrite Eb in Hh1, Hl1. cbn in Hh1, Hl1. destruct (IH a1); [done|lia|lia|]. split; [done|]. lia.
  - pose proof (a_block_err a e) as Hs. rewrite Eb in Hs. cbn in *. rewrite Hs by done. split; [done|lia].
Qed.

(** ** The system

    The calculator, its store and the snapshots it handed out, on one memory. A restart
    loses the memory. *)

Record Sys := mkSys { sys_mem : Cells; sys_calc : ProposerCalculator; sys_copies : list ProposerSnapshot }.

Inductive op := OGet | OCalc (i : nat) (round height : Z) | OLatest (i : nat) (round height : Z) | OPost (blockNumber : Z) | ORestart.

Inductive answer := ANothing | AAddress (r : result PropErr Address) | ADone (r : result PropErr unit).

Definition exec (y : Sys) (o : op) : option (Sys * answer) :=
  match o with
  | OGet => copy ← GetSnapshot (sys_calc y); Some (mkSys (sys_mem y) (sys_calc y) (sys_copies y ++ [copy]), ANothing)
  | OCalc i round height =>
      match sys_copies y !! i with
      | None => Some (y, ANothing)
      | Some s => r ← CalcProposer (sys_mem y) s round height; Some (mkSys r.1.1 (sys_calc y) (<[i := r.1.2]> (sys_copies y)), AAddress r.2)
      end
  | OLatest i round height =>
      match sys_copies y !! i with
      | None => Some (y, ANothing)
      | Some s => r ← GetLatestProposer (Some s) round height; Some (y, AAddress r)
      end
  | OPost blockNumber =>
      r ← PostBlock (sys_mem y) (sys_calc y) blockNumber; Some (mkSys r.1.1 r.1.2 (sys_copies y), ADone r.2)
  | ORestart =>
      match NewProposerCalculator [] (pc_store (sys_calc y)) with
      | Err e => Some (y, ADone (Err e))
      | Ok (c, pc) => Some (mkSys c pc [], ANothing)
      end
  end.

(** What they should answer: a request for a proposer changes nothing but the last round
    asked for. *)
Record ASys := mkASys { as_calc : ASnapshot; as_store : option ASnapshot; as_copies : list ASnapshot }.

Definition a_latest (a : ASnapshot) (round height : Z) : result PropErr Address :=
  match a_last a, a_proposer a round with
  | Some r, Some v => if (r =? round) && (a_Height a =? height) then Ok (v_Address v) else Err ErrNoProposer
  | _, _ => Err ErrNoProposer
  end.

Definition a_genesis (genesis : list ValidatorMetadata) : ASnapshot := mkA 1 genesis (replicate (length genesis) 0) None.

Definition a_exec (genesis : list ValidatorMetadata) (z : ASys) (o : op) : ASys * answer :=
  match o with
  | OGet => (mkASys (as_calc z) (as_store z) (as_copies z ++ [as_calc z]), ANothing)
  | OCalc i round height =>
      match as_copies z !! i with
      | None => (z, ANothing)
      | Some a => (mkASys (as_calc z) (as_store z) (<[i := (a_calc a round height).1]> (as_copies z)), AAddress (a_calc a round height).2)
      end
  | OLatest i round height =>
      match as_copies z !! i with None => (z, ANothing) | Some a => (z, AAddress (a_latest a round height)) end
  | OPost blockNumber =>
      match a_blocks (Z.to_nat (blockNumber - a_Height (as_calc z) + 1)) (as_calc z) with
      | (a, Err e) => (mkASys a (as_store z) (as_copies z), ADone (Err e))
      | (a, Ok _) =>
          if snapshot_saved blockNumber then (mkASys a (Some a) (as_copies z), ADone (Ok tt))
          else (mkASys a (as_store z) (as_copies z), ADone (Err ErrSave))
      end
  | ORestart => (mkASys (default (a_genesis genesis) (as_store z)) (as_store z) [], ANothing)
  end.

Definition op_ok (o : op) : Prop :=
  match o with
  | OCalc _ round _ => is_u64 round
  | OPost blockNumber => 0 <= blockNumber < two64 - 1
  | _ => True
  end.

Record stored_rep (st : StoredSnapshot) (a : ASnapshot) : Prop := {
  so_height : st_Height st = a_Height a; so_metas : fst <$> st_Validators st = a_metas a; so_valid : valid_set (a_metas a);
  so_length : length (a_prios a) = length (a_metas a); so_prios : normalise (a_total a) (snd <$> st_Validators st) = a_normal a;
  so_proposer : st_Proposer st = None; so_last : a_last a = None; so_fits : 0 <= a_Height a < two64 }.

Record sys_rep (y : Sys) (z : ASys) : Prop := {
  sr_calc : rep (sys_mem y) (pc_snapshot (sys_calc y)) (as_calc z);
  sr_last : a_last (as_calc z) = None;
  sr_height : 0 <= a_Height (as_calc z) < two64;
  sr_copies : Forall2 (rep (sys_mem y)) (sys_copies y) (as_copies z);
  sr_shared : forall s, s ∈ sys_copies y -> compatible (pc_snapshot (sys_calc y)) s;
  sr_pairs : forall s s', s ∈ sys_copies y -> s' ∈ sys_copies y -> compatible s s';
  sr_store : match pc_store (sys_calc y), as_store z with None, None => True | Some st, Some a => stored_rep st a | _, _ => False end }.

(** *** The calculator from its store *)

Lemma new_rep c h l (ps : list Z) :
  valid_set l -> length ps = length l ->
  rep (c ++ ps) (mkSnapshot h 0 None (fresh_validators (length c) l)) (mkA h l ps None).
Proof using Type.
  intros Hv Hl. split; cbn; try done; [apply fresh_metas|by apply fresh_owned|]. unfold a_normal. cbn. f_equal. by apply fresh_priorities.
Qed.

Lemma NewProposerSnapshot_spec c h l :
  NewProposerSnapshot c h l = (c ++ replicate (length l) 0, mkSnapshot h 0 None (fresh_validators (length c) l)).
Proof using Type.
  unfold NewProposerSnapshot. rewrite (fold_alloc (fun v => v) (fun _ _ => 0)) by done. cbn [app]. do 2 f_equal.
  induction l as [|v l IH]; [done|]. cbn. by rewrite IH.
Qed.

Lemma getProposerSnapshot_spec c st :
  st_Proposer st = None ->
  getProposerSnapshot c st = (c ++ (snd <$> st_Validators st), mkSnapshot (st_Height st) (st_Round st) None (fresh_validators (length c) (fst <$> st_Validators st))).
Proof using Type.
  intros Hn. unfold getProposerSnapshot. rewrite Hn. rewrite (fold_alloc fst (fun _ p => snd p)) by done. cbn [app]. do 2 f_equal.
  apply list_eq. intros i. rewrite fresh_lookup, list_lookup_imap, list_lookup_fmap. by destruct (st_Validators st !! i).
Qed.

Lemma stored_restored st a : stored_rep st a ->
  rep (fst (getProposerSnapshot [] st)) (snd (getProposerSnapshot [] st)) a.
Proof using Type.
  intros [Hh Hm Hv Hl Hp Hpr Hla _]. rewrite getProposerSnapshot_spec by done. cbn [fst snd].
  assert (Hlen : length (snd <$> st_Validators st) = length (fst <$> st_Validators st)) by by rewrite !length_fmap. split; cbn; try done.
  - by rewrite fresh_metas.
  - by apply (fresh_owned []).
  - rewrite <- Hp. f_equal. exact (fresh_priorities [] _ _ Hlen).
Qed.

(** *** Every operation *)

Lemma compatible_validators s s' s2 : ps_Validators s' = ps_Validators s -> compatible s s2 -> compatible s' s2.
Proof using Type. intros E. unfold compatible, cells_of, metas. by rewrite E. Qed.

Lemma in_insert {A} (l : list A) i x y : y ∈ <[i := x]> l -> y = x \/ y ∈ l.
Proof using Type.
  intros (j & Hj)%list_elem_of_lookup_1. destruct (decide (i = j)) as [<-|Hne].
  - destruct (decide (i < length l)%nat); [rewrite list_lookup_insert_eq in Hj by done; left; congruence|].
    rewrite list_insert_ge in Hj by lia. right. by eapply list_elem_of_lookup_2.
  - rewrite list_lookup_insert_ne in Hj by done. right. by eapply list_elem_of_lookup_2.
Qed.

Lemma Forall2_rep c c' ss zs :
  (forall s a, s ∈ ss -> rep c s a -> rep c' s a) -> Forall2 (rep c) ss zs -> Forall2 (rep c') ss zs.
Proof using Type.
  intros Hf. induction 1 as [|s a ss zs Hr _ IH]; constructor; [apply Hf; [left|done]|]. apply IH. intros s' a' Hs'. apply Hf. by right.
Qed.

Lemma exec_get y z genesis :
  sys_rep y z -> exists y', exec y OGet = Some (y', ANothing) /\ sys_rep y' (a_exec genesis z OGet).1.
Proof using Type.
  intros [Hc Hla Hh Hcs Hsh Hps Hst]. destruct (copy_rep _ _ _ Hc) as (copy & Hcopy & Hv & Hr). cbn [exec]. unfold GetSnapshot. rewrite Hcopy. cbn [mbind option_bind].
  eexists. split; [reflexivity|]. assert (Hcc : compatible (pc_snapshot (sys_calc y)) copy) by (left; unfold cells_of, metas; by rewrite Hv).
  split; cbn; try done.
  - apply Forall2_app; [done|]. apply List.Forall2_cons; [exact Hr|apply List.Forall2_nil].
  - intros s [Hs| ->%list_elem_of_singleton]%elem_of_app; [by apply Hsh|done].
  - intros s s' [Hs| ->%list_elem_of_singleton]%elem_of_app [Hs'| ->%list_elem_of_singleton]%elem_of_app.
    + by apply Hps.
    + apply compatible_sym. eapply compatible_validators; [exact Hv|]. by apply Hsh.
    + eapply compatible_validators; [exact Hv|]. by apply Hsh.
    + by left.
Qed.

Lemma exec_calc y z genesis i round height :
  sys_rep y z -> is_u64 round ->
  exists y', exec y (OCalc i round height) = Some (y', (a_exec genesis z (OCalc i round height)).2) /\ sys_rep y' (a_exec genesis z (OCalc i round height)).1.
Proof using Type.
  intros Hrep Hround. pose proof Hrep as [Hc Hla Hh Hcs Hsh Hps Hst]. cbn [exec a_exec]. destruct (sys_copies y !! i) as [s|] eqn:Es.
  - destruct (Forall2_lookup_l _ _ _ _ _ Hcs Es) as (a & Ea & Hr). rewrite Ea. pose proof (list_elem_of_lookup_2 _ _ _ Es) as Hin.
    destruct (CalcProposer_spec _ s a round height Hr Hround) as (c' & s' & -> & Hu & Hv & Hr'). cbn [mbind option_bind fst snd].
    eexists. split; [reflexivity|]. split; cbn; try done.
    + apply Hu; [|done]. apply compatible_sym. by apply Hsh.
    + apply Forall2_insert; [|done]. eapply Forall2_rep; [|exact Hcs]. intros s2 a2 Hs2 Hr2. apply Hu; [|done]. by apply Hps.
    + intros s2 [->|Hs2]%in_insert; [|by apply Hsh]. apply compatible_sym. eapply compatible_validators; [exact Hv|]. apply compatible_sym. by apply Hsh.
    + intros s1 s2 [->|H1']%in_insert [->|H2']%in_insert.
      * by left.
      * eapply compatible_validators; [exact Hv|]. by apply Hps.
      * apply compatible_sym. eapply compatible_validators; [exact Hv|]. by apply Hps.
      * by apply Hps.
  - assert (as_copies z !! i = None) as ->; [|by exists y]. apply lookup_ge_None. apply lookup_ge_None in Es. apply Forall2_length in Hcs. lia.
Qed.

Lemma exec_latest y z genesis i round height :
  sys_rep y z ->
  exists y', exec y (OLatest i round height) = Some (y', (a_exec genesis z (OLatest i round height)).2) /\ sys_rep y' (a_exec genesis z (OLatest i round height)).1.
Proof using Type.
  intros Hrep. pose proof Hrep as [Hc Hla Hh Hcs Hsh Hps Hst]. cbn [exec a_exec]. destruct (sys_copies y !! i) as [s|] eqn:Es.
  - destruct (Forall2_lookup_l _ _ _ _ _ Hcs Es) as (a & -> & Hr). destruct Hr as [Eh _ Hv Hl _ _ Hlast]. exists y. cbn. split; [|done].
    do 3 f_equal. unfold a_latest. destruct (ps_Proposer s) as [p|].
    + destruct Hlast as (-> & _ & Hp). rewrite Eh. destruct (proposer_valid a round Hv Hl) as [v Ev]. rewrite Ev.
      destruct (Z.eqb_spec (ps_Round s) round) as [<-|]; cbn; [|done]. rewrite Hp in Ev. injection Ev as <-. by destruct (a_Height a =? height).
    + by rewrite Hlast.
  - assert (as_copies z !! i = None) as ->; [|by exists y]. apply lookup_ge_None. apply lookup_ge_None in Es. apply Forall2_length in Hcs. lia.
Qed.

Lemma stored_written c s a : rep c s a -> a_last a = None -> 0 <= a_Height a < two64 -> stored_rep (writeProposerSnapshot c s) a.
Proof using Type.
  intros [Hh Hm Hv Hl Ho Hp Hla] Hn Hf. split; cbn; try done.
  - rewrite <- list_fmap_compose. exact Hm.
  - rewrite <- list_fmap_compose. exact Hp.
  - rewrite Hn in Hla. destruct (ps_Proposer s) as [p|]; [by destruct Hla|done].
Qed.

Lemma exec_post `{!ProposerEnvLaws} y z genesis b :
  sys_rep y z -> 0 <= b < two64 - 1 ->
  exists y', exec y (OPost b) = Some (y', (a_exec genesis z (OPost b)).2) /\ sys_rep y' (a_exec genesis z (OPost b)).1.
Proof using Type.
  intros Hrep Hb. pose proof Hrep as [Hc Hla Hh Hcs Hsh Hps Hst]. cbn [exec a_exec]. unfold PostBlock. rewrite (re_height _ _ _ Hc).
  set (n := Z.to_nat (b - a_Height (as_calc z) + 1)).
  destruct (update_blocks_spec n (sys_mem y) (pc_snapshot (sys_calc y)) (as_calc z) Hc) as (c' & s' & -> & Hr & Hm); [lia|lia|].
  destruct (a_blocks_inv n (as_calc z) Hla) as [Hla' Hh']; [lia|lia|]. cbn [mbind option_bind].
  destruct (a_blocks n (as_calc z)) as [a r] eqn:Ea. cbn [fst snd] in *.
  assert (Hcs' : Forall2 (rep c') (sys_copies y) (as_copies z)).
  { eapply Forall2_rep; [|exact Hcs]. intros s2 a2 Hs2 Hr2. apply (Hm s2 a2); [by apply Hsh|done]. }
  assert (Hsh' : forall s, s ∈ sys_copies y -> compatible s' s).
  { intros s2 Hs2. destruct (list_elem_of_lookup_1 _ _ Hs2) as [j Hj]. destruct (Forall2_lookup_l _ _ _ _ _ Hcs Hj) as (a2 & _ & Hr2).
    apply (Hm s2 a2); [by apply Hsh|done]. }
  assert (Hfit : 0 <= a_Height a < two64) by lia.
  destruct r as [[]|e]; [destruct (snapshot_saved b)|]; cbn [mbind option_bind fst snd]; (eexists; split; [reflexivity|]); split; cbn; try done.
  by apply stored_written.
Qed.

Lemma sys_fresh c s st a o :
  rep c s a -> a_last a = None -> 0 <= a_Height a < two64 ->
  match st, o with None, None => True | Some st, Some a => stored_rep st a | _, _ => False end ->
  sys_rep (mkSys c (mkCalculator s st) []) (mkASys a o []).
Proof using Type.
  intros Hr Hl Hh Hst. split; cbn; try done.
  - intros s1 Hs1. by apply not_elem_of_nil in Hs1.
  - intros s1 s2 Hs1. by apply not_elem_of_nil in Hs1.
Qed.

Lemma exec_restart `{!ProposerEnvLaws} y z genesis :
  GetValidators 0 [] = Some genesis -> sys_rep y z ->
  exists y', exec y ORestart = Some (y', ANothing) /\ sys_rep y' (a_exec genesis z ORestart).1.
Proof using Type.
  intros Hg [_ _ _ _ _ _ Hst]. cbn [exec a_exec fst]. unfold NewProposerCalculator, NewProposerSnapshotFromState.
  destruct (pc_store (sys_calc y)) as [st|], (as_store z) as [a|]; try done.
  - pose proof (stored_restored st a Hst) as Hr. destruct (getProposerSnapshot [] st) as [c s]. cbn [fst snd default] in *.
    eexists. split; [reflexivity|]. apply sys_fresh; [done|by destruct Hst..|done].
  - rewrite Hg, NewProposerSnapshot_spec. eexists. split; [reflexivity|].
    pose proof (new_rep [] 1 genesis (replicate (length genesis) 0) (validators_valid _ _ Hg) (length_replicate _ _)) as Hr.
    by apply sys_fresh.
Qed.

Fixpoint run (y : Sys) (ops : list op) : option (Sys * list answer) :=
  match ops with
  | [] => Some (y, [])
  | o :: ops => r ← exec y o; r' ← run r.1 ops; Some (r'.1, r.2 :: r'.2)
  end.

Fixpoint a_run (genesis : list ValidatorMetadata) (z : ASys) (ops : list op) : ASys * list answer :=
  match ops with
  | [] => (z, [])
  | o :: ops => let r := a_exec genesis z o in let r' := a_run genesis r.1 ops in (r'.1, r.2 :: r'.2)
  end.

Lemma run_rep `{!ProposerEnvLaws} genesis ops y z :
  GetValidators 0 [] = Some genesis -> sys_rep y z -> Forall op_ok ops ->
  exists y', run y ops = Some (y', (a_run genesis z ops).2) /\ sys_rep y' (a_run genesis z ops).1.
Proof using Type.
  intros Hg Hr Hops. revert y z Hr. induction Hops as [|o ops Ho _ IH]; intros y z Hr; [by exists y|].
  assert (exists y', exec y o = Some (y', (a_exec genesis z o).2) /\ sys_rep y' (a_exec genesis z o).1) as (y1 & He & Hr1).
  { destruct o as [|i round height|i round height|b|]; [by apply exec_get|by apply exec_calc|by apply exec_latest|by apply exec_post|by apply exec_restart]. }
  destruct (IH y1 _ Hr1) as (y2 & Hrun & Hr2). exists y2. cbn [run a_run]. rewrite He. cbn [mbind option_bind fst snd]. rewrite Hrun. done.
Qed.

(** The calculator of a new node. *)
Definition sys_start (genesis : list ValidatorMetadata) : Sys :=
  let '(c, s) := NewProposerSnapshot [] 1 genesis in mkSys c (mkCalculator s None) [].

Definition a_start (genesis : list ValidatorMetadata) : ASys := mkASys (a_genesis genesis) None [].

(** C13. Whatever snapshots are handed out, asked for proposers of whatever rounds, while
    blocks are processed, updates fail and the node restarts, nothing panics and every
    answer is that of the specification in which a request changes no priorities: although
    copies of a snapshot share priorities with it and calculating a proposer writes to them,
    the proposer of a height and round depends on the chain alone. *)
Theorem proposer_refinement `{!ProposerEnvLaws} (genesis : list ValidatorMetadata) (ops : list op) :
  GetValidators 0 [] = Some genesis -> Forall op_ok ops ->
  exists y, run (sys_start genesis) ops = Some (y, (a_run genesis (a_start genesis) ops).2).
Proof using Type.
  intros Hg Hops. destruct (run_rep genesis ops (sys_start genesis) (a_start genesis) Hg) as (y & Hy & _); [|done|by exists y].
  unfold sys_start. rewrite NewProposerSnapshot_spec. pose proof (validators_valid _ _ Hg) as Hv.
  pose proof (new_rep [] 1 genesis (replicate (length genesis) 0) Hv (length_replicate _ _)) as Hr.
  by apply sys_fresh.
Qed.

(** ** Fairness *)

Definition asked (c : Cells) (s : ProposerSnapshot) (round : Z) : option Address :=
  match CalcProposer c s round (ps_Height s) with Some (_, _, Ok a) => Some a | _ => None end.

(** How often an address is among the proposers. *)
Definition times (a : Address) (l : list Address) : Z := Z.of_nat (length (filter (fun b => b = a) l)).

Lemma asked_spec c s round :
  owned c (ps_Validators s) -> valid_set (metas s) -> ps_Proposer s = None -> 0 <= round < two64 - 1 ->
  exists v, a_proposer (mkA (ps_Height s) (metas s) (prios c s) None) round = Some v /\ asked c s round = Some (v_Address v).
Proof using Type.
  intros Ho Hv Hn Hr. set (a := mkA (ps_Height s) (metas s) (prios c s) None).
  assert (Hl : length (a_prios a) = length (a_metas a)) by (cbn; unfold prios, metas; by rewrite !length_fmap).
  assert (Hrep : rep c s a) by (split; try done; by rewrite Hn). destruct (proposer_valid a round Hv Hl) as [v Ev]. exists v. split; [done|].
  destruct (CalcProposer_spec c s a round (ps_Height s) Hrep) as (c' & s' & Hc & _); [unfold is_u64; lia|]. unfold asked. rewrite Hc.
  unfold a_calc. cbn [a_Height a]. rewrite Z.eqb_refl. cbn [negb]. rewrite u64_small by lia. rewrite (proj2 (Z.eqb_neq _ _)) by lia. by rewrite Ev.
Qed.

Lemma mapM_snoc {A B} (f : A -> option B) l x ys y : mapM f l = Some ys -> f x = Some y -> mapM f (l ++ [x]) = Some (ys ++ [y]).
Proof using Type.
  intros Hl Hx. revert ys Hl. induction l as [|z l IH]; intros ys Hl; cbn in *; [injection Hl as <-; by rewrite Hx|].
  destruct (f z) as [w|]; [|done]. cbn in *. destruct (mapM f l) as [ws|]; [|done]. cbn in *. injection Hl as <-. by rewrite (IH ws).
Qed.

Lemma asked_times c s k i v :
  owned c (ps_Validators s) -> valid_set (metas s) -> ps_Proposer s = None -> Z.of_nat k < two64 - 1 -> metas s !! i = Some v ->
  exists l, mapM (fun r => asked c s (Z.of_nat r)) (seq 0 k) = Some l /\
    times (v_Address v) l = turns (zsum (powers (metas s))) (powers (metas s)) (normalise (zsum (powers (metas s))) (prios c s)) i k.
Proof using Type.
  intros Ho Hv Hn. induction k as [|k IH]; intros Hk Hi; [by exists []|]. destruct IH as (l & Hl & Ht); [lia|done|].
  destruct (asked_spec c s (Z.of_nat k) Ho Hv Hn) as (w & Hw & Ha); [lia|]. exists (l ++ [v_Address w]). rewrite seq_S. split.
  - by apply mapM_snoc.
  - unfold times, turns in *. rewrite filter_app, length_app, Nat2Z.inj_add, Ht, seq_S, filter_app, length_app, Nat2Z.inj_add. f_equal.
    rewrite !filter_cons, !filter_nil. unfold a_proposer in Hw. cbn in Hw. rewrite Nat2Z.id in Hw.
    change (a_normal (mkA (ps_Height s) (metas s) (prios c s) None)) with (normalise (zsum (powers (metas s))) (prios c s)) in Hw.
    unfold a_total in Hw. cbn [a_metas] in Hw. cbn [plus]. set (j := proposer_at _ _ _ k) in *.
    destruct (decide (v_Address w = v_Address v)) as [E|E], (decide (j = i)) as [E'|E']; try done; exfalso.
    + apply E'. eapply NoDup_lookup; [apply Hv|unfold addrs; by rewrite list_lookup_fmap, Hw|unfold addrs; by rewrite list_lookup_fmap, Hi, E].
    + apply E. congruence.
Qed.

(** C14. In the rounds of a height every round has a proposer, and the turns of each validator
    are proportional to its voting power: weighted by the total they differ from the rounds
    weighted by its own power by at most [n * (2 * T + 1)], for [n] validators with total
    power [T]. So within that many rounds every validator with voting power is proposer. *)
Theorem proposer_fairness (c : Cells) (s : ProposerSnapshot) (k : nat) :
  owned c (ps_Validators s) -> valid_set (metas s) -> ps_Proposer s = None -> Z.of_nat k < two64 - 1 ->
  let T := GetTotalVotingPower s in
  let bound := Z.of_nat (length (ps_Validators s)) * (2 * T + 1) in
  exists proposers, mapM (fun r => asked c s (Z.of_nat r)) (seq 0 k) = Some proposers /\
    forall v, v ∈ metas s ->
      Z.abs (T * times (v_Address v) proposers - Z.of_nat k * v_VotingPower v) <= bound /\
      (0 < v_VotingPower v -> bound < Z.of_nat k -> v_Address v ∈ proposers).
Proof using Type.
  intros Ho Hv Hn Hk T bound. pose proof (valid_nonempty _ Hv) as Hne.
  assert (HT : T = zsum (powers (metas s))) by apply total_powers.
  assert (exists proposers, mapM (fun r => asked c s (Z.of_nat r)) (seq 0 k) = Some proposers) as (l & Hl).
  { destruct (metas s) as [|v0 ms] eqn:E; [done|]. destruct (asked_times c s k 0 v0) as (l & Hl & _); rewrite ?E; try done. by exists l. }
  exists l. split; [done|]. intros v Hin. destruct (list_elem_of_lookup_1 _ _ Hin) as [i Hi].
  assert (Hfair : Z.abs (T * times (v_Address v) l - Z.of_nat k * v_VotingPower v) <= bound).
  { destruct (asked_times c s k i v) as (l' & Hl' & Ht); try done. assert (l' = l) as -> by congruence. rewrite Ht. clear Ht Hl'. unfold bound. rewrite HT.
    assert (Hlen : length (ps_Validators s) = length (normalise (zsum (powers (metas s))) (prios c s))) by (rewrite length_normalise; unfold prios; by rewrite length_fmap).
    rewrite Hlen. apply turns_fair; try done; try apply Hv.
    - rewrite <- Hlen. unfold powers, metas. by rewrite !length_fmap.
    - apply normalise_centred; [apply Hv|]. unfold prios. apply metas_nonempty in Hne. by destruct (ps_Validators s).
    - unfold powers. by rewrite list_lookup_fmap, Hi. }
  split; [done|]. intros Hw Hb. destruct (decide (v_Address v ∈ l)) as [|Hni]; [done|]. exfalso.
  assert (times (v_Address v) l = 0) as Ht; [|rewrite Ht in Hfair; nia].
  unfold times. destruct (filter _ l) as [|x l'] eqn:E; [done|]. exfalso. apply Hni.
  assert (Hx : x ∈ filter (fun b => b = v_Address v) l) by (rewrite E; left). apply list_elem_of_filter in Hx as [-> Hx]. done.
Qed.

End Props.

(** ** Samples *)

#[local] Existing Instance sample_curve.
#[local] Existing Instance sample_points_eq.
#[local] Existing Instance ser_codec.
#[local] Existing Instance ser_rlp.
#[local] Existing Instance sample_access.
#[local] Existing Instance sample_access_laws.
#[local] Existing Instance sample_abi.

(** The validators change with block 2, and the snapshot of block 3 cannot be saved. *)
#[local] Instance rotation_backend : plgbftBackend := {| GetValidators := fun n _ => Some (if n <? 2 then sample_validators else sample_next) |}.

Definition rotation_extra (n : Z) : Extra :=
  mkExtra (Some (if n =? 2 then sample_delta else mkDelta [] [] [])) [] None None (Some (mkCheckpoint (n mod 3) 1 77 78 79)).

#[local] Instance rotation_env : ProposerEnv := {|
  proposer_chain n := Some (set_hExtraData (replicate 32 0 ++ default [] (e_MarshalRLPTo (rotation_extra n))) sample_header);
  snapshot_saved n := negb (n =? 3) |}.

Lemma rotation_extra_fits n : extra_fits (rotation_extra n).
Proof.
  split; try done.
  - cbn. destruct (n =? 2); [exact sample_delta_fits|]. split; apply List.Forall_nil.
  - apply List.Forall_nil.
  - pose proof (Z.mod_pos_bound n 3 ltac:(lia)). split; split; cbn; unfold two64; lia.
Qed.

Lemma rotation_decodes n : GetIbftExtra (replicate 32 0 ++ default [] (e_MarshalRLPTo (rotation_extra n))) = Some (Ok (rotation_extra n)).
Proof.
  pose proof (rotation_extra_fits n) as Hf. destruct (extra_rlp (rotation_extra n) Hf) as (x & Hx & _). unfold e_MarshalRLPTo. rewrite Hx.
  exact (GetIbftExtra_encoded (rotation_extra n) x (replicate 32 0) Hf Hx eq_refl).
Qed.

Lemma rotation_data n : getBlockData proposer_chain n = Some (Ok (rotation_extra n)).
Proof. unfold getBlockData. cbn [proposer_chain rotation_env h_ExtraData set_hExtraData]. by rewrite rotation_decodes. Qed.

Ltac valid_by_eval := split; [by_computation|by_computation|by_computation|by_computation|repeat (apply List.Forall_cons; [reflexivity|]); apply List.Forall_nil].

Lemma sample_valid : valid_set sample_validators.
Proof. valid_by_eval. Qed.

Lemma sample_next_valid : valid_set sample_next.
Proof. valid_by_eval. Qed.

#[local] Instance rotation_laws : ProposerEnvLaws.
Proof.
  split.
  - intros n l E. cbn [GetValidators rotation_backend] in E. destruct (n <? 2); apply (inj Some) in E as <-; [exact sample_valid|exact sample_next_valid].
  - intros n e E. rewrite rotation_data in E. assert (e = rotation_extra n) as -> by congruence. eexists. split; [reflexivity|]. cbn.
    pose proof (Z.mod_pos_bound n 3 ltac:(lia)). unfold two64. lia.
Qed.

Lemma proposer_refinement_witness :
  exists y answers, run (sys_start sample_validators) [OGet; OCalc 0 0 1; OCalc 0 3 1; OPost 1; OGet; OCalc 1 0 2; OCalc 0 0 1; OPost 3; ORestart; OPost 4; OGet; OCalc 0 1 5]
    = Some (y, answers).
Proof.
  destruct (proposer_refinement sample_validators
    [OGet; OCalc 0 0 1; OCalc 0 3 1; OPost 1; OGet; OCalc 1 0 2; OCalc 0 0 1; OPost 3; ORestart; OPost 4; OGet; OCalc 0 1 5]) as (y & Hy).
  - reflexivity.
  - repeat (apply List.Forall_cons; [by vm_compute|]). apply List.Forall_nil.
  - exists y. eexists. exact Hy.
Defined.

Definition sample_start : Cells * ProposerSnapshot := NewProposerSnapshot [] 1 sample_validators.

Lemma proposer_fairness_witness :
  exists proposers, mapM (fun r => asked sample_start.1 sample_start.2 (Z.of_nat r)) (seq 0 1000) = Some proposers /\
    forall v, v ∈ metas sample_start.2 -> v_Address v ∈ proposers.
Proof.
  destruct (proposer_fairness sample_start.1 sample_start.2 1000) as (l & Hl & Hf).
  - split; [by_computation|by_computation].
  - exact sample_valid.
  - reflexivity.
  - by vm_compute.
  - exists l. split; [exact Hl|]. assert (Hp : Forall (fun v => 0 < v_VotingPower v) (metas sample_start.2)) by by_computation.
    rewrite list.Forall_forall in Hp. intros v Hv. apply (Hf v Hv); [by apply Hp|by vm_compute].
Defined.
