(* ===== verification/ValidatorSnapshots.v ===== *)
(** * Validator snapshots ([consensus/plgbft/validators_snapshot.go], [state_store_epoch.go])

    The validators of each epoch, computed from the changes in the epoch-ending blocks and
    kept in memory and in a database, which writes without errors. [None] is a panic, or
    fuel too small for the search of an epoch-ending block. *)

From stdpp Require Import gmap.
From S2P Require Import Prelude ChainTypes BigInt Runtime Receipts Rlp TrieSample ChainRlp ChainRlpProps Bls Validators ValidatorsProps PlgExtra PlgExtraProps.
Local Open Scope go_scope.

Inductive SnapErr := ErrSnapData (e : BlockDataErr) | ErrUnknownBlock | ErrDecodeExtra | ErrApplyDelta (e : SetErr).

Definition validatorSnapshotLimit : nat := 100.
Definition numberOfSnapshotsToLeaveInMemory : nat := 12.
Definition numberOfSnapshotsToLeaveInDB : nat := 20.

Section Snapshots.
Context `{Bn256} `{Fastrlp} `{RlpAccess}.

Record validatorSnapshot := mkVSnapshot { vs_Epoch : Z; vs_EpochEndingBlock : Z; vs_Snapshot : list ValidatorMetadata }.

Definition vs_copy (vs : validatorSnapshot) : option validatorSnapshot :=
  copiedAccountSet ← as_Copy (vs_Snapshot vs);
  Some (mkVSnapshot (vs_Epoch vs) (vs_EpochEndingBlock vs) copiedAccountSet).

Record validatorsSnapshotCache := mkCache { snapshots : gmap Z validatorSnapshot; epochStore : gmap Z validatorSnapshot }.

Definition newValidatorsSnapshotCache (db : gmap Z validatorSnapshot) : validatorsSnapshotCache := mkCache ∅ db.

(** The highest epoch of a map, if any. *)
Definition last_epoch (m : gmap Z validatorSnapshot) : option Z :=
  foldr (fun p acc => Some (match acc with None => p.1 | Some e => Z.max e p.1 end)) None (map_to_list m).

(** [EpochStore.getLastSnapshot]: keys are ordered. *)
Definition getLastSnapshot (db : gmap Z validatorSnapshot) : option validatorSnapshot := e ← last_epoch db; db !! e.

(** The loop down from an epoch to 0. *)
Fixpoint scan_down (n : nat) (m : gmap Z validatorSnapshot) (epoch : Z) : option validatorSnapshot :=
  match m !! epoch with
  | Some s => Some s
  | None => match n with O => None | S n => scan_down n m (epoch - 1) end
  end.

Definition getLastCachedSnapshot (v : validatorsSnapshotCache) (currentEpoch : Z) : option (validatorsSnapshotCache * option validatorSnapshot) :=
  match snapshots v !! currentEpoch with
  | Some s => Some (v, Some s)
  | None =>
      let cachedSnapshot := scan_down (Z.to_nat currentEpoch) (snapshots v) currentEpoch in
      match getLastSnapshot (epochStore v) with
      | None => Some (v, cachedSnapshot)
      | Some dbSnapshot =>
          if match cachedSnapshot with None => true | Some s => vs_Epoch s <? vs_Epoch dbSnapshot end then
            copy ← vs_copy dbSnapshot;
            Some (mkCache (<[vs_Epoch dbSnapshot := copy]> (snapshots v)) (epochStore v), Some dbSnapshot)
          else Some (v, cachedSnapshot)
      end
  end.

(** The database keeps the epochs from the given one down, as long as they are there; a
    missing one is looked for again. *)
Fixpoint kept_epochs (n : nat) (db : gmap Z validatorSnapshot) (epoch : Z) : gmap Z validatorSnapshot :=
  match n with
  | O => ∅
  | S n =>
      match db !! epoch with
      | None => kept_epochs n db epoch
      | Some s => <[epoch := s]> (kept_epochs n db (epoch -u 1))
      end
  end.

Definition cleanValidatorSnapshotsFromDB (db : gmap Z validatorSnapshot) (epoch : Z) : gmap Z validatorSnapshot :=
  kept_epochs numberOfSnapshotsToLeaveInDB db epoch.

(** The snapshots that stay in memory. *)
Fixpoint left_in_memory (n : nat) (m : gmap Z validatorSnapshot) (startEpoch : Z) : gmap Z validatorSnapshot :=
  match n with
  | O => ∅
  | S n =>
      let rest := left_in_memory n m (startEpoch -u 1) in
      match m !! startEpoch with Some s => <[startEpoch := s]> rest | None => rest end
  end.

Definition vc_cleanup (v : validatorsSnapshotCache) : validatorsSnapshotCache :=
  if (validatorSnapshotLimit <=? size (snapshots v))%nat then
    let latestEpoch := Z.max 0 (default 0 (last_epoch (snapshots v))) in
    mkCache (left_in_memory numberOfSnapshotsToLeaveInMemory (snapshots v) latestEpoch)
      (cleanValidatorSnapshotsFromDB (epochStore v) latestEpoch)
  else v.

Definition storeSnapshot (v : validatorsSnapshotCache) (snapshot : validatorSnapshot) : option validatorsSnapshotCache :=
  copySnap ← vs_copy snapshot;
  Some (mkCache (<[vs_Epoch copySnap := copySnap]> (snapshots v)) (<[vs_Epoch copySnap := copySnap]> (epochStore v))).

Section Chain.
Context (chain : Z -> option Header).

(** The search for a block of another epoch. *)
Fixpoint epoch_end (fuel : nat) (startEpoch blockNumber : Z) : option (result SnapErr Z) :=
  match fuel with
  | O => None
  | S fuel =>
      let blockNumber := blockNumber +u 1 in
      r ← getBlockData chain blockNumber;
      match r with
      | Err ErrNoBlock => Some (Ok (blockNumber -u 1))
      | Err e => Some (Err (ErrSnapData e))
      | Ok extra =>
          checkpoint ← e_Checkpoint extra;
          if startEpoch =? EpochNumber checkpoint then epoch_end fuel startEpoch blockNumber else Some (Ok (blockNumber -u 1))
      end
  end.

Definition getNextEpochEndingBlock (fuel : nat) (latestEpochEndingBlock : Z) : option (result SnapErr Z) :=
  let blockNumber := latestEpochEndingBlock +u 1 in
  r ← getBlockData chain blockNumber;
  match r with
  | Err e => Some (Err (ErrSnapData e))
  | Ok extra => checkpoint ← e_Checkpoint extra; epoch_end fuel (EpochNumber checkpoint) blockNumber
  end.

Definition computeSnapshot (existingSnapshot : option validatorSnapshot) (nextEpochEndBlockNumber : Z) (parents : list Header)
    : option (result SnapErr validatorSnapshot) :=
  let header := match last (filter (fun h => h_Number h = nextEpochEndBlockNumber) parents) with
    | Some h => Some h
    | None => chain nextEpochEndBlockNumber
    end in
  match header with
  | None => Some (Err ErrUnknownBlock)
  | Some header =>
      extra ← GetIbftExtra (h_ExtraData header);
      match extra with
      | Err _ => Some (Err ErrDecodeExtra)
      | Ok extra =>
          let '(snapshot, snapshotEpoch) := match existingSnapshot with
            | None => ([], 0)
            | Some s => (vs_Snapshot s, vs_Epoch s +u 1)
            end in
          r ← ApplyDelta snapshot (e_Validators extra);
          Some (match r with
                | Err e => Err (ErrApplyDelta e)
                | Ok snapshot => Ok (mkVSnapshot snapshotEpoch nextEpochEndBlockNumber snapshot)
                end)
      end
  end.

(** The deltas from a snapshot to an epoch; with an error the snapshots stored so far
    remain. *)
Fixpoint apply_deltas (n fuel : nat) (v : validatorsSnapshotCache) (latest : validatorSnapshot) (epoch : Z) (parents : list Header)
    : option (validatorsSnapshotCache * result SnapErr validatorSnapshot) :=
  if negb (vs_Epoch latest <? epoch) then Some (v, Ok latest)
  else
    match n with
    | O => None
    | S n =>
        r ← getNextEpochEndingBlock fuel (vs_EpochEndingBlock latest);
        match r with
        | Err e => Some (v, Err e)
        | Ok nextEpochEndBlockNumber =>
            r ← computeSnapshot (Some latest) nextEpochEndBlockNumber parents;
            match r with
            | Err e => Some (v, Err e)
            | Ok snapshot => v ← storeSnapshot v snapshot; apply_deltas n fuel v snapshot epoch parents
            end
        end
    end.

Definition vc_GetSnapshot (fuel : nat) (v : validatorsSnapshotCache) (blockNumber : Z) (parents : list Header)
    : option (validatorsSnapshotCache * result SnapErr (list ValidatorMetadata)) :=
  r ← getBlockData chain blockNumber;
  match r with
  | Err e => Some (v, Err (ErrSnapData e))
  | Ok extra =>
      ending ← isEpochEndingBlock chain blockNumber extra;
      match (match ending with Ok b => Ok b | Err ErrNoBlock => Ok false | Err e => Err e end) with
      | Err e => Some (v, Err (ErrSnapData e))
      | Ok ending =>
          checkpoint ← e_Checkpoint extra;
          let epochToGetSnapshot := if (ending : bool) then EpochNumber checkpoint else EpochNumber checkpoint -u 1 in
          r ← getLastCachedSnapshot v epochToGetSnapshot;
          let '(v, latest) := r in
          match (match latest with Some s => if vs_Epoch s =? epochToGetSnapshot then Some s else None | None => None end) with
          | Some s => Some (v, Ok (vs_Snapshot s))
          | None =>
              start ← match latest with
                | Some s => Some (v, Ok s)
                | None =>
                    r ← computeSnapshot None 0 parents;
                    match r with
                    | Err e => Some (v, Err e)
                    | Ok genesis => v ← storeSnapshot v genesis; Some (v, Ok genesis)
                    end
                end;
              match start with
              | (v, Err e) => Some (v, Err e)
              | (v, Ok s) =>
                  r ← apply_deltas (Z.to_nat epochToGetSnapshot + 1) fuel v s epochToGetSnapshot parents;
                  match r with
                  | (v, Err e) => Some (v, Err e)
                  | (v, Ok s) => Some (vc_cleanup v, Ok (vs_Snapshot s))
                  end
              end
          end
      end
  end.

End Chain.

End Snapshots.

(** * Properties of the validator snapshots

    A request for the validators of a block is answered with the changes of all blocks up to
    it applied in order, unless the database has a newer epoch and memory does not have the
    one asked for. *)
Local Open Scope go_scope.

Section Snapshots.
Context `{Bn256} `{Fastrlp} `{RlpAccess}.

(** ** The history of a chain

    The epoch of each block up to the head, the change of the validators in it and the
    validators after it. *)

Record History := mkHistory {
  head : Z; epoch_of : Z -> Z; delta_in : Z -> ValidatorSetDelta; set_of : Z -> list ValidatorMetadata }.

Definition changes (hist : History) (n : Z) : bool := negb (d_IsEmpty (delta_in hist n)).

Record history_ok (hist : History) (chain : Z -> option Header) : Prop := {
  hi_head : 0 <= head hist < two64 - 2;
  hi_blocks n : 0 <= n <= head hist ->
    exists e cp, getBlockData chain n = Some (Ok e) /\ e_Validators e = Some (delta_in hist n) /\ e_Checkpoint e = Some cp /\ EpochNumber cp = epoch_of hist n;
  hi_end n : head hist < n -> chain n = None;
  hi_genesis : epoch_of hist 0 = 0 /\ changes hist 0 = true;
  hi_epochs n : 0 <= n < head hist -> epoch_of hist n <= epoch_of hist (n + 1) <= epoch_of hist n + 1;
  hi_changes n : 0 <= n < head hist -> changes hist n = true -> epoch_of hist (n + 1) = epoch_of hist n + 1;
  hi_first : ApplyDelta [] (Some (delta_in hist 0)) = Some (Ok (set_of hist 0));
  hi_next n : 0 <= n < head hist -> ApplyDelta (set_of hist n) (Some (delta_in hist (n + 1))) = Some (Ok (set_of hist (n + 1)));
  hi_copies n : 0 <= n <= head hist -> as_Copy (set_of hist n) = Some (set_of hist n) }.

(** The last blocks of the epochs. *)
Definition ends (hist : History) (n : Z) : Prop :=
  0 <= n <= head hist /\ (changes hist n = true \/ n < head hist /\ epoch_of hist (n + 1) <> epoch_of hist n).

Record snapshot_ok (hist : History) (s : validatorSnapshot) : Prop := {
  so_ends : ends hist (vs_EpochEndingBlock s); so_epoch : epoch_of hist (vs_EpochEndingBlock s) = vs_Epoch s;
  so_set : vs_Snapshot s = set_of hist (vs_EpochEndingBlock s) }.

Definition snapshots_ok (hist : History) (m : gmap Z validatorSnapshot) : Prop :=
  forall e s, m !! e = Some s -> vs_Epoch s = e /\ snapshot_ok hist s.

Definition cache_ok (hist : History) (v : validatorsSnapshotCache) : Prop := snapshots_ok hist (snapshots v) /\ snapshots_ok hist (epochStore v).

(** ** Epochs *)

Section History.
Context (hist : History) (chain : Z -> option Header) (Hok : history_ok hist chain).

Lemma epoch_mono m n : 0 <= m <= n -> n <= head hist -> epoch_of hist m <= epoch_of hist n <= epoch_of hist m + (n - m).
Proof using Hok.
  intros Hm Hn. assert (exists k, n = m + Z.of_nat k) as [k ->] by (exists (Z.to_nat (n - m)); lia). destruct Hm as [Hm _]. revert Hn.
  induction k as [|k IH]; intros Hn; [replace (m + Z.of_nat 0) with m by lia; lia|].
  pose proof (hi_epochs _ _ Hok (m + Z.of_nat k) ltac:(lia)) as He. replace (m + Z.of_nat (S k)) with (m + Z.of_nat k + 1) by lia. specialize (IH ltac:(lia)). lia.
Qed.

Lemma ends_next n : ends hist n -> n < head hist -> epoch_of hist (n + 1) = epoch_of hist n + 1.
Proof using Hok.
  intros [Hn [Hc|[_ Hc]]] Hlt; [by apply (hi_changes _ _ Hok); [lia|]|]. pose proof (hi_epochs _ _ Hok n ltac:(lia)). lia.
Qed.

Lemma ends_lt m n : ends hist m -> 0 <= n <= head hist -> m < n -> epoch_of hist m < epoch_of hist n.
Proof using Hok.
  intros Hm Hn Hlt. pose proof Hm as [Hm' _]. pose proof (ends_next m Hm ltac:(lia)). pose proof (epoch_mono (m + 1) n ltac:(lia) ltac:(lia)). lia.
Qed.

Lemma ends_unique m n : ends hist m -> ends hist n -> epoch_of hist m = epoch_of hist n -> m = n.
Proof using Hok.
  intros Hm Hn E. pose proof Hm as [Hm' _]. pose proof Hn as [Hn' _].
  destruct (Z.lt_trichotomy m n) as [L|[L|L]]; [pose proof (ends_lt m n Hm Hn' L); lia|done|pose proof (ends_lt n m Hn Hm' L); lia].
Qed.

Lemma genesis_ends : ends hist 0.
Proof using Hok. destruct (hi_head _ _ Hok), (hi_genesis _ _ Hok). split; [lia|by left]. Qed.

Lemma epoch_pos n : 1 <= n <= head hist -> 1 <= epoch_of hist n.
Proof using Hok. intros Hn. pose proof (ends_lt 0 n genesis_ends ltac:(lia) ltac:(lia)). destruct (hi_genesis _ _ Hok). lia. Qed.

(** Blocks that do not end an epoch change nothing. *)
Lemma set_quiet m n : 0 <= m <= n -> n <= head hist -> (forall k, m < k <= n -> changes hist k = false) -> set_of hist n = set_of hist m.
Proof using Hok.
  intros Hm Hn. assert (exists k, n = m + Z.of_nat k) as [k ->] by (exists (Z.to_nat (n - m)); lia). destruct Hm as [Hm _]. revert Hn.
  induction k as [|k IH]; intros Hn Hq; [f_equal; lia|]. rewrite <- IH by (intros; try apply Hq; lia).
  replace (m + Z.of_nat (S k)) with (m + Z.of_nat k + 1) in * by lia.
  pose proof (hi_next _ _ Hok (m + Z.of_nat k) ltac:(lia)) as Ha. pose proof (Hq (m + Z.of_nat k + 1) ltac:(lia)) as Hc.
  unfold changes in Hc. apply negb_false_iff in Hc. unfold ApplyDelta in Ha. cbn [mbind option_bind] in Ha. rewrite Hc in Ha.
  rewrite (hi_copies _ _ Hok) in Ha by lia. cbn in Ha. congruence.
Qed.

(** Between the end of an epoch and a block of the next one there are no changes. *)
Lemma quiet_epoch b n k : ends hist b -> b < n <= head hist -> epoch_of hist n = epoch_of hist b + 1 -> b < k < n -> changes hist k = false.
Proof using Hok.
  intros Hb Hn He Hk. pose proof Hb as [Hb' _]. destruct (changes hist k) eqn:Ec; [|done].
  pose proof (ends_lt k n ltac:(split; [lia|by left]) ltac:(lia) ltac:(lia)). pose proof (ends_lt b k Hb ltac:(lia) ltac:(lia)). lia.
Qed.

Lemma set_step b n : ends hist b -> b < n <= head hist -> epoch_of hist n = epoch_of hist b + 1 ->
  ApplyDelta (set_of hist b) (Some (delta_in hist n)) = Some (Ok (set_of hist n)).
Proof using Hok.
  intros Hb Hn He. pose proof Hb as [Hb' _]. replace n with (n - 1 + 1) by lia. rewrite <- (set_quiet b (n - 1)).
  - apply (hi_next _ _ Hok). lia.
  - lia.
  - lia.
  - intros k Hk. apply (quiet_epoch b n); [done|lia|done|lia].
Qed.

(** ** The epoch of a request *)

Definition ending (n : Z) : bool := changes hist n || (n <? head hist) && negb (epoch_of hist n =? epoch_of hist (n + 1)).

Definition epoch_to_get (n : Z) : Z := if ending n then epoch_of hist n else epoch_of hist n - 1.

Lemma ending_ends n : 0 <= n <= head hist -> ending n = true <-> ends hist n.
Proof using.
  intros Hn. unfold ending, ends. rewrite orb_true_iff, andb_true_iff, Z.ltb_lt, negb_true_iff, Z.eqb_neq.
  split.
  - intros [?|[??]]; (split; [lia|]); [by left|right; split; [lia|congruence]].
  - intros [_ [?|[??]]]; [by left|right; split; [lia|congruence]].
Qed.

Lemma ends_dec n : 0 <= n <= head hist -> {ends hist n} + {ending n = false /\ (~ ends hist n)}.
Proof using.
  intros Hn. destruct (ending n) eqn:E; [left; by apply ending_ends|right]. split; [done|]. intros He%ending_ends; [congruence|done].
Qed.

(** The snapshot of the epoch asked for is the one of the block. *)
Lemma set_asked s n : 0 <= n <= head hist -> snapshot_ok hist s -> vs_Epoch s = epoch_to_get n -> vs_Snapshot s = set_of hist n.
Proof using Hok.
  intros Hn [Hb He Hs] E. rewrite Hs. unfold epoch_to_get in E. destruct (ends_dec n Hn) as [Hd|[Ed Hd]].
  - rewrite (proj2 (ending_ends n Hn) Hd) in E. f_equal. apply ends_unique; [done|done|lia].
  - rewrite Ed in E. pose proof Hb as [Hb' _]. assert (vs_EpochEndingBlock s < n).
    { destruct (Z.le_gt_cases n (vs_EpochEndingBlock s)) as [L|L]; [|done]. pose proof (epoch_mono n (vs_EpochEndingBlock s) ltac:(lia) ltac:(lia)). lia. }
    symmetry. apply set_quiet; [lia|lia|]. intros k Hk. destruct (decide (k = n)) as [->|Hne].
    + destruct (changes hist n) eqn:Ec; [|done]. destruct Hd. split; [done|by left].
    + apply (quiet_epoch (vs_EpochEndingBlock s) n); [done|lia|lia|lia].
Qed.

Lemma asked_range n : 0 <= n <= head hist -> 0 <= epoch_to_get n <= n.
Proof using Hok.
  intros Hn. destruct (hi_genesis _ _ Hok) as [E0 _]. pose proof (epoch_mono 0 n ltac:(lia) ltac:(lia)). unfold epoch_to_get.
  destruct (ends_dec n Hn) as [Hd|[Ed Hd]]; [rewrite (proj2 (ending_ends n Hn) Hd); lia|rewrite Ed].
  assert (n <> 0) by (intros ->; by apply Hd, genesis_ends). pose proof (epoch_pos n ltac:(lia)). lia.
Qed.

(** The last block of an epoch up to the one asked for is an end. *)
Lemma asked_ends n b m : 0 <= n <= head hist -> ends hist b -> epoch_of hist b < epoch_to_get n -> b < m <= head hist ->
  epoch_of hist m = epoch_of hist b + 1 -> (m < head hist -> epoch_of hist (m + 1) <> epoch_of hist m) -> ends hist m.
Proof using Hok.
  intros Hn Hb Hlt Hm He Hd. pose proof Hb as [Hb' _]. split; [lia|]. destruct (decide (m < head hist)) as [L|L]; [by right; auto|]. left.
  assert (m = head hist) as -> by lia. clear L Hd. pose proof (epoch_mono n (head hist) ltac:(lia) ltac:(lia)). unfold epoch_to_get in Hlt.
  destruct (ends_dec n Hn) as [Hd|[Ed Hd]]; [rewrite (proj2 (ending_ends n Hn) Hd) in Hlt|rewrite Ed in Hlt; lia].
  destruct (decide (n = head hist)) as [->|Hne]; [destruct Hd as [_ [?|[??]]]; [done|lia]|]. pose proof (ends_lt n (head hist) Hd ltac:(lia) ltac:(lia)). lia.
Qed.

(** ** The searches *)

Lemma block_data n : 0 <= n <= head hist ->
  exists e cp, getBlockData chain n = Some (Ok e) /\ e_Validators e = Some (delta_in hist n) /\ e_Checkpoint e = Some cp /\ EpochNumber cp = epoch_of hist n.
Proof using Hok. apply (hi_blocks _ _ Hok). Qed.

Lemma no_block n : head hist < n -> getBlockData chain n = Some (Err ErrNoBlock).
Proof using Hok. intros Hn. unfold getBlockData. by rewrite (hi_end _ _ Hok). Qed.

Lemma isEpochEndingBlock_spec n e cp : 0 <= n <= head hist -> e_Validators e = Some (delta_in hist n) -> e_Checkpoint e = Some cp ->
  EpochNumber cp = epoch_of hist n -> exists r, isEpochEndingBlock chain n e = Some r /\
  match r with Ok b => Ok b | Err ErrNoBlock => Ok false | Err x => Err x end = Ok (ending n).
Proof using Hok.
  intros Hn Hv Hc He. destruct (hi_head _ _ Hok) as [_ Hh]. unfold isEpochEndingBlock, ending, changes. rewrite Hv. cbn [mbind option_bind].
  destruct (negb (d_IsEmpty (delta_in hist n))); [by eexists|]. rewrite u64_small by (unfold two64 in *; lia).
  destruct (Z.ltb_spec n (head hist)) as [L|L].
  - destruct (block_data (n + 1) ltac:(lia)) as (e' & cp' & -> & _ & Hc' & He'). cbn [mbind option_bind]. rewrite Hc, Hc'. cbn [mbind option_bind].
    rewrite He, He'. by eexists.
  - rewrite no_block by lia. by eexists.
Qed.

Lemma epoch_end_spec fuel b : 0 <= b <= head hist -> head hist - b < Z.of_nat fuel ->
  exists m, epoch_end chain fuel (epoch_of hist b) b = Some (Ok m) /\ b <= m <= head hist /\ epoch_of hist m = epoch_of hist b /\
  (m < head hist -> epoch_of hist (m + 1) <> epoch_of hist m).
Proof using Hok.
  destruct (hi_head _ _ Hok) as [_ Hh]. revert b. induction fuel as [|fuel IH]; intros b Hb Hf; [lia|]. cbn [epoch_end].
  rewrite (u64_small (b + 1)) by (unfold two64 in *; lia). rewrite (u64_small (b + 1 - 1)) by (unfold two64 in *; lia). replace (b + 1 - 1) with b by lia.
  destruct (decide (b < head hist)) as [L|L].
  - destruct (block_data (b + 1) ltac:(lia)) as (e & cp & -> & _ & Hc & He). cbn [mbind option_bind]. rewrite Hc. cbn [mbind option_bind]. rewrite He.
    destruct (Z.eqb_spec (epoch_of hist b) (epoch_of hist (b + 1))) as [E|E]; [|exists b; repeat split; (lia || congruence)].
    destruct (IH (b + 1) ltac:(lia) ltac:(lia)) as (m & Hm & ? & ? & ?). rewrite E. exists m. repeat split; (done || lia || congruence).
  - rewrite no_block by lia. exists b. repeat split; (done || lia).
Qed.

(** ** One more epoch *)

Lemma computeSnapshot_spec s0 b parents (Hp : forall p, p ∈ parents -> chain (h_Number p) = Some p) : 0 <= b <= head hist ->
  computeSnapshot chain s0 b parents =
  (r ← ApplyDelta (from_option vs_Snapshot [] s0) (Some (delta_in hist b));
   Some (match r with
         | Err e => Err (ErrApplyDelta e)
         | Ok l => Ok (mkVSnapshot (from_option (fun s => vs_Epoch s +u 1) 0 s0) b l)
         end)).
Proof using Hok.
  intros Hb. destruct (block_data b Hb) as (e & cp & Hd & Hv & _). unfold getBlockData in Hd. unfold computeSnapshot.
  assert (Hh : match last (filter (fun h => h_Number h = b) parents) with Some h => Some h | None => chain b end = chain b).
  { destruct (last _) as [h|] eqn:El; [|done]. apply last_Some_elem_of, list_elem_of_filter in El as [<- Hin]. by rewrite Hp. }
  rewrite Hh. destruct (chain b) as [h|]; [|congruence]. destruct (GetIbftExtra _) as [[x|x]|]; cbn [mbind option_bind] in *; [|congruence..].
  assert (x = e) as -> by congruence. rewrite Hv. by destruct s0.
Qed.

Lemma vs_copy_ok s : snapshot_ok hist s -> vs_copy s = Some s.
Proof using Hok.
  intros [[Hb _] _ Hs]. unfold vs_copy. rewrite Hs, (hi_copies _ _ Hok) by done. cbn. rewrite <- Hs. by destruct s.
Qed.

Lemma snapshots_insert m s : snapshots_ok hist m -> snapshot_ok hist s -> snapshots_ok hist (<[vs_Epoch s := s]> m).
Proof using. intros Hm Hs e s' [[<- <-]|[_ ?]]%lookup_insert_Some; auto. Qed.

(** The newest epoch of the database. *)
Definition newest_upto (v : validatorsSnapshotCache) (e : Z) : Prop := forall e', is_Some (epochStore v !! e') -> e' <= e.

Lemma storeSnapshot_ok v s : cache_ok hist v -> snapshot_ok hist s -> 
  exists v', storeSnapshot v s = Some v' /\ cache_ok hist v' /\ forall e, vs_Epoch s <= e -> newest_upto v e -> newest_upto v' e.
Proof using Hok.
  intros [Hm Hd] Hs. unfold storeSnapshot. rewrite vs_copy_ok by done. eexists; split; [done|]. split; [split; by apply snapshots_insert|].
  intros e He Hn e' [x Hx]. cbn in Hx. apply lookup_insert_Some in Hx as [[<- _]|[_ ?]]; [done|apply Hn; by exists x].
Qed.

(** ** The cache *)

Lemma last_epoch_spec m : match last_epoch m with
  | None => m = ∅
  | Some e => is_Some (m !! e) /\ forall e', is_Some (m !! e') -> e' <= e
  end.
Proof using.
  unfold last_epoch.
  assert (Hl : forall l : list (Z * validatorSnapshot), match foldr (fun p acc => Some (match acc with None => p.1 | Some e => Z.max e p.1 end)) None l with
    | None => l = []
    | Some e => (exists s, (e, s) ∈ l) /\ forall e' s', (e', s') ∈ l -> e' <= e end).
  { induction l as [|[e s] l IH]; [done|]. cbn [foldr]. destruct (foldr _ _ l) as [x|] eqn:E; cbn [fst].
    - destruct IH as [[sx Hx] Hall]. split.
      + destruct (Z.max_spec x e) as [[? ->]|[? ->]]; [exists s; apply elem_of_cons; by left|exists sx; apply elem_of_cons; by right].
      + intros e' s' [[= -> ->]|Hin]%elem_of_cons; [lia|]. pose proof (Hall _ _ Hin). lia.
    - subst l. split; [exists s; apply elem_of_cons; by left|]. intros e' s' [[= -> ->]|Hin]%elem_of_cons; [lia|by apply elem_of_nil in Hin]. }
  specialize (Hl (map_to_list m)). destruct (foldr _ _ _) as [e|] eqn:Ef.
  - destruct Hl as [[s Hin] Hall]. split; [exists s; by apply elem_of_map_to_list|]. intros e' [s' Hs']. by eapply Hall, elem_of_map_to_list.
  - by apply map_to_list_empty_iff.
Qed.

Lemma getLastSnapshot_ok db : snapshots_ok hist db -> match getLastSnapshot db with
  | None => db = ∅
  | Some s => snapshot_ok hist s /\ forall e, is_Some (db !! e) -> e <= vs_Epoch s
  end.
Proof using.
  intros Hdb. unfold getLastSnapshot. pose proof (last_epoch_spec db) as Hl. destruct (last_epoch db) as [e|]; [|done]. cbn.
  destruct Hl as [[s Hs] Hall]. rewrite Hs. destruct (Hdb e s Hs) as [<- ?]. done.
Qed.

Lemma scan_down_ok k m e : snapshots_ok hist m -> match scan_down k m e with Some s => snapshot_ok hist s /\ vs_Epoch s <= e | None => True end.
Proof using.
  intros Hm. revert e. induction k as [|k IH]; intros e; cbn; destruct (m !! e) as [s|] eqn:E; [destruct (Hm _ _ E) as [<- ?]; split; [done|lia]|done|..].
  - destruct (Hm _ _ E) as [<- ?]; split; [done|lia].
  - specialize (IH (e - 1)). destruct (scan_down k m (e - 1)); [|done]. destruct IH. split; [done|lia].
Qed.

Lemma kept_epochs_sub k db e : kept_epochs k db e ⊆ db.
Proof using.
  revert e. induction k as [|k IH]; intros e; cbn; [apply map_empty_subseteq|]. destruct (db !! e) as [s|] eqn:E; [|done]. by apply insert_subseteq_l.
Qed.

Lemma left_in_memory_sub k m e : left_in_memory k m e ⊆ m.
Proof using.
  revert e. induction k as [|k IH]; intros e; cbn; [apply map_empty_subseteq|]. destruct (m !! e) as [s|] eqn:E; [|done]. by apply insert_subseteq_l.
Qed.

Lemma snapshots_sub m m' : m ⊆ m' -> snapshots_ok hist m' -> snapshots_ok hist m.
Proof using. intros Hs Hm e s He. by apply Hm, (lookup_weaken _ _ _ _ He). Qed.

Lemma vc_cleanup_ok v : cache_ok hist v -> cache_ok hist (vc_cleanup v).
Proof using.
  intros [Hm Hd]. unfold vc_cleanup. destruct (_ <=? _)%nat; [|done]. split; [eapply snapshots_sub, Hm; apply left_in_memory_sub|eapply snapshots_sub, Hd; apply kept_epochs_sub].
Qed.

Lemma vc_cleanup_newest v e : newest_upto v e -> newest_upto (vc_cleanup v) e.
Proof using.
  intros Hn. unfold vc_cleanup. destruct (_ <=? _)%nat; [|done]. intros e' [x Hx]. apply Hn. exists x. eapply lookup_weaken; [exact Hx|apply kept_epochs_sub].
Qed.

(** The database has a newer epoch, and memory does not have the one asked for. *)
Definition outdated (v : validatorsSnapshotCache) (e : Z) : option validatorSnapshot :=
  match snapshots v !! e, getLastSnapshot (epochStore v) with
  | None, Some s => if e <? vs_Epoch s then Some s else None
  | _, _ => None
  end.

Lemma getLastCachedSnapshot_spec v e : cache_ok hist v ->
  exists v' r, getLastCachedSnapshot v e = Some (v', r) /\ cache_ok hist v' /\ epochStore v' = epochStore v /\
  match outdated v e with
  | Some x => r = Some x /\ snapshot_ok hist x /\ e < vs_Epoch x
  | None => forall s, r = Some s -> snapshot_ok hist s /\ vs_Epoch s <= e
  end.
Proof using Hok.
  intros Hv. pose proof Hv as [Hm Hd]. unfold getLastCachedSnapshot, outdated. destruct (snapshots v !! e) as [s|] eqn:Es.
  { exists v, (Some s). split; [done|]. split; [done|]. split; [done|]. intros ? [= <-]. destruct (Hm _ _ Es) as [<- ?]. split; [done|lia]. }
  pose proof (scan_down_ok (Z.to_nat e) _ e Hm) as Hsc. pose proof (getLastSnapshot_ok _ Hd) as Hl.
  destruct (getLastSnapshot (epochStore v)) as [x|].
  - destruct Hl as [Hx _]. set (c := scan_down _ _ _) in *. destruct (match c with Some s => _ | None => true end) eqn:En.
    + rewrite (vs_copy_ok x Hx). cbn [mbind option_bind]. eexists _, _. split; [done|]. split; [split; [by apply snapshots_insert|done]|]. split; [done|].
      destruct (Z.ltb_spec e (vs_Epoch x)); [done|]. by intros ? [= <-].
    + exists v, c. destruct c as [s|]; [|done]. apply Z.ltb_ge in En. destruct (Z.ltb_spec e (vs_Epoch x)); [lia|].
      split; [done|]. split; [done|]. split; [done|]. by intros ? [= <-].
  - exists v, (scan_down (Z.to_nat e) (snapshots v) e). split; [done|]. split; [done|]. split; [done|].
    intros s Es'. by rewrite Es' in Hsc.
Qed.

Lemma outdated_newest v e : snapshots_ok hist (epochStore v) -> newest_upto v e -> outdated v e = None.
Proof using.
  intros Hd Hn. unfold outdated. destruct (snapshots v !! e); [done|]. unfold getLastSnapshot. pose proof (last_epoch_spec (epochStore v)) as Hl.
  destruct (last_epoch (epochStore v)) as [x|]; cbn; [|done]. destruct Hl as [[s Hs] _]. rewrite Hs. destruct (Hd _ _ Hs) as [-> _].
  pose proof (Hn x ltac:(by exists s)). by destruct (Z.ltb_spec e x); [lia|].
Qed.

(** ** The epochs up to a request *)

Context (fuel : nat) (parents : list Header).
Context (Hfuel : head hist <= Z.of_nat fuel) (Hparents : forall p, p ∈ parents -> chain (h_Number p) = Some p).

Lemma next_snapshot n s : 0 <= n <= head hist -> snapshot_ok hist s -> vs_Epoch s < epoch_to_get n ->
  exists m s', getNextEpochEndingBlock chain fuel (vs_EpochEndingBlock s) = Some (Ok m) /\
  computeSnapshot chain (Some s) m parents = Some (Ok s') /\ snapshot_ok hist s' /\ vs_Epoch s' = vs_Epoch s + 1.
Proof using Hok Hfuel Hparents.
  intros Hn [Hb He Hs] Hlt. destruct (hi_head _ _ Hok) as [_ Hh]. pose proof Hb as [Hb' _]. set (b := vs_EpochEndingBlock s) in *.
  pose proof (asked_range n Hn) as Hr. destruct (hi_genesis _ _ Hok) as [E0 _]. pose proof (epoch_mono 0 b ltac:(lia) ltac:(lia)) as Hb0.
  assert (Hbh : b < head hist).
  { destruct (Z.lt_ge_cases b (head hist)) as [L|L]; [done|]. assert (b = head hist) as Eb by lia.
    pose proof (epoch_mono n b ltac:(lia) ltac:(lia)). unfold epoch_to_get in Hlt. destruct (ending n); lia. }
  destruct (block_data (b + 1) ltac:(lia)) as (e & cp & Hd & _ & Hc & Hcp).
  destruct (epoch_end_spec fuel (b + 1) ltac:(lia) ltac:(lia)) as (m & Hm & Hbm & Em & Hlast). rewrite (ends_next b Hb Hbh) in Em.
  exists m, (mkVSnapshot (vs_Epoch s + 1) m (set_of hist m)). split; [|split; [|split]].
  - unfold getNextEpochEndingBlock. rewrite u64_small by (unfold two64 in *; lia). rewrite Hd. cbn [mbind option_bind]. rewrite Hc. cbn [mbind option_bind].
    by rewrite Hcp.
  - rewrite (computeSnapshot_spec _ _ _ Hparents) by lia. cbn [from_option]. rewrite Hs, (set_step b m Hb) by lia. cbn [mbind option_bind].
    by rewrite u64_small by (unfold two64 in *; lia).
  - constructor; cbn; [|lia|done]. apply (asked_ends n b); (done || lia).
  - done.
Qed.

Lemma apply_deltas_spec n k v s : 0 <= n <= head hist -> cache_ok hist v -> snapshot_ok hist s -> vs_Epoch s <= epoch_to_get n ->
  epoch_to_get n - vs_Epoch s <= Z.of_nat k ->
  exists v' s', apply_deltas chain k fuel v s (epoch_to_get n) parents = Some (v', Ok s') /\ cache_ok hist v' /\ snapshot_ok hist s' /\
  vs_Epoch s' = epoch_to_get n /\ (newest_upto v (epoch_to_get n) -> newest_upto v' (epoch_to_get n)).
Proof using Hok Hfuel Hparents.
  intros Hn. revert v s. induction k as [|k IH]; intros v s Hv Hs Hle Hk.
  - exists v, s. cbn [apply_deltas]. destruct (Z.ltb_spec (vs_Epoch s) (epoch_to_get n)); [lia|]. (split; [done|split; [done|split; [done|split; [lia|done]]]]).
  - cbn [apply_deltas]. destruct (Z.ltb_spec (vs_Epoch s) (epoch_to_get n)) as [L|L]; cbn [negb].
    + destruct (next_snapshot n s Hn Hs L) as (m & s' & -> & Hc & Hs' & E'). cbn [mbind option_bind]. rewrite Hc. cbn [mbind option_bind].
      destruct (storeSnapshot_ok v s' Hv Hs') as (v' & -> & Hv' & Hnew). cbn [mbind option_bind].
      destruct (IH v' s' Hv' Hs' ltac:(lia) ltac:(lia)) as (v2 & s2 & ? & ? & ? & ? & Hnew2). exists v2, s2. repeat (split; [done|]). intros. by apply Hnew2, Hnew; [lia|].
    + exists v, s. (split; [done|split; [done|split; [done|split; [lia|done]]]]).
Qed.

Lemma first_snapshot : exists s, computeSnapshot chain None 0 parents = Some (Ok s) /\ snapshot_ok hist s /\ vs_Epoch s = 0.
Proof using Hok Hparents.
  clear Hfuel fuel. destruct (hi_head _ _ Hok), (hi_genesis _ _ Hok) as [E0 _]. exists (mkVSnapshot 0 0 (set_of hist 0)).
  rewrite (computeSnapshot_spec _ _ _ Hparents) by lia. cbn [from_option]. rewrite (hi_first _ _ Hok). split; [done|]. split; [|done].
  by constructor; [apply genesis_ends| |].
Qed.

(** ** A request *)

Definition answer (v : validatorsSnapshotCache) (n : Z) : list ValidatorMetadata :=
  match outdated v (epoch_to_get n) with Some s => vs_Snapshot s | None => set_of hist n end.

Lemma GetSnapshot_spec v n : cache_ok hist v -> 0 <= n <= head hist ->
  exists v', vc_GetSnapshot chain fuel v n parents = Some (v', Ok (answer v n)) /\ cache_ok hist v' /\ (newest_upto v (epoch_to_get n) -> newest_upto v' (epoch_to_get n)).
Proof using Hok Hfuel Hparents.
  intros Hv Hn. destruct (block_data n Hn) as (e & cp & Hd & Hdl & Hc & He). unfold vc_GetSnapshot. rewrite Hd. cbn [mbind option_bind].
  destruct (isEpochEndingBlock_spec n e cp Hn Hdl Hc He) as (r & -> & Hr). cbn [mbind option_bind]. rewrite Hr, Hc. cbn [mbind option_bind].
  pose proof (asked_range n Hn) as Hrange. destruct (hi_head _ _ Hok) as [_ Hh].
  assert (Ea : (if ending n then EpochNumber cp else EpochNumber cp -u 1) = epoch_to_get n).
  { unfold epoch_to_get in *. rewrite He. destruct (ending n); [done|]. apply u64_small. unfold two64 in *. lia. }
  rewrite Ea. unfold answer. destruct (getLastCachedSnapshot_spec v (epoch_to_get n) Hv) as (v1 & l & -> & Hv1 & Est & Hl).
  assert (Hn1 : newest_upto v (epoch_to_get n) -> newest_upto v1 (epoch_to_get n)) by (unfold newest_upto; by rewrite Est). cbn [mbind option_bind].
  destruct (outdated v (epoch_to_get n)) as [x|].
  { destruct Hl as (-> & Hx & Hlt). destruct (Z.eqb_spec (vs_Epoch x) (epoch_to_get n)); [lia|]. cbn [mbind option_bind].
    rewrite Nat.add_1_r. cbn [apply_deltas]. destruct (Z.ltb_spec (vs_Epoch x) (epoch_to_get n)); [lia|]. cbn [negb mbind option_bind].
    eexists; split; [done|]. split; [by apply vc_cleanup_ok|]. intros. by apply vc_cleanup_newest, Hn1. }
  assert (Hfin : forall v2 s, cache_ok hist v2 -> snapshot_ok hist s -> 0 <= vs_Epoch s <= epoch_to_get n -> exists v',
    (r0 ← apply_deltas chain (Z.to_nat (epoch_to_get n) + 1) fuel v2 s (epoch_to_get n) parents;
     match r0 with (v0, Ok s0) => Some (vc_cleanup v0, Ok (vs_Snapshot s0)) | (v0, Err e0) => Some (v0, Err e0) end) = Some (v', Ok (set_of hist n)) /\ cache_ok hist v' /\
    (newest_upto v2 (epoch_to_get n) -> newest_upto v' (epoch_to_get n))).
  { intros v2 s Hv2 Hs Hle. destruct (apply_deltas_spec n (Z.to_nat (epoch_to_get n) + 1) v2 s Hn Hv2 Hs ltac:(lia) ltac:(lia)) as (v3 & s3 & -> & Hv3 & Hs3 & E3 & Hn3).
    cbn [mbind option_bind]. rewrite (set_asked s3 n Hn Hs3 E3). eexists; split; [done|]. split; [by apply vc_cleanup_ok|]. intros. by apply vc_cleanup_newest, Hn3. }
  destruct l as [s|].
  - destruct (Hl s eq_refl) as [Hs Hle]. destruct (Z.eqb_spec (vs_Epoch s) (epoch_to_get n)) as [E|E].
    + rewrite (set_asked s n Hn Hs E). by exists v1.
    + cbn [mbind option_bind]. destruct (Hfin v1 s Hv1 Hs) as (v' & ? & ? & ?); [|exists v'; split; [done|split; [done|auto]]].
      split; [|done]. destruct Hs as [[Hb _] <- _]. destruct (hi_genesis _ _ Hok) as [E0 _].
      pose proof (epoch_mono 0 (vs_EpochEndingBlock s) ltac:(lia) ltac:(lia)). lia.
  - cbn [mbind option_bind]. destruct first_snapshot as (s & -> & Hs & E0). cbn [mbind option_bind].
    destruct (storeSnapshot_ok v1 s Hv1 Hs) as (v2 & -> & Hv2 & Hn2). cbn [mbind option_bind].
    destruct (Hfin v2 s Hv2 Hs ltac:(lia)) as (v' & ? & ? & Hn'). exists v'. split; [done|]. split; [done|]. intros. apply Hn', Hn2; [lia|auto].
Qed.

End History.

(** ** Chains that grow *)

Record grows (old new : History) : Prop := {
  gr_head : head old <= head new; gr_epoch n : 0 <= n <= head old -> epoch_of new n = epoch_of old n;
  gr_delta n : 0 <= n <= head old -> delta_in new n = delta_in old n; gr_set n : 0 <= n <= head old -> set_of new n = set_of old n }.

Section Grows.
Context (old new : History) (chain : Z -> option Header) (Hgrows : grows old new) (Hok : history_ok new chain).

Lemma ends_grows n : ends old n -> ends new n.
Proof using Hgrows.
  intros [Hn He]. pose proof (gr_head _ _ Hgrows). split; [lia|]. unfold changes in *. rewrite (gr_delta _ _ Hgrows) by done. destruct He as [?|[? He]]; [by left|right].
  rewrite !(gr_epoch _ _ Hgrows) by lia. split; [lia|done].
Qed.

Lemma snapshots_grow m : snapshots_ok old m -> snapshots_ok new m.
Proof using Hgrows.
  intros Hm e s Es. destruct (Hm e s Es) as [He [Hb Hep Hs]]. split; [done|]. pose proof Hb as [Hb' _].
  constructor; [by apply ends_grows|by rewrite (gr_epoch _ _ Hgrows)|by rewrite (gr_set _ _ Hgrows)].
Qed.

Lemma asked_grows m n : 0 <= m <= head old -> m <= n <= head new -> epoch_to_get old m <= epoch_to_get new n.
Proof using Hgrows Hok.
  intros Hm Hn. pose proof (gr_head _ _ Hgrows). pose proof (epoch_mono new chain Hok m n ltac:(lia) ltac:(lia)) as Hmono. pose proof (gr_epoch _ _ Hgrows m Hm) as Em.
  unfold epoch_to_get. destruct (ends_dec old m Hm) as [Hd|[-> _]]; [|destruct (ending new n); lia].
  rewrite (proj2 (ending_ends old m Hm) Hd). pose proof (ends_grows m Hd) as Hd'. destruct (decide (m = n)) as [<-|Hne].
  - rewrite (proj2 (ending_ends new m ltac:(lia)) Hd'). lia.
  - pose proof (ends_lt new chain Hok m n Hd' ltac:(lia) ltac:(lia)). destruct (ending new n); lia.
Qed.

End Grows.

(** A request, the chain it is made on, and whether the node restarted before it. *)
Record Request := mkRequest { rq_hist : History; rq_chain : Z -> option Header; rq_block : Z; rq_parents : list Header; rq_restart : bool }.

(** Requests for later and later blocks of a growing chain. *)
Fixpoint follows (fuel : nat) (hist : History) (n : Z) (l : list Request) : Prop :=
  match l with
  | [] => True
  | r :: l =>
      history_ok (rq_hist r) (rq_chain r) /\ grows hist (rq_hist r) /\ n <= rq_block r <= head (rq_hist r) /\ head (rq_hist r) <= Z.of_nat fuel /\
      (forall p, p ∈ rq_parents r -> rq_chain r (h_Number p) = Some p) /\ follows fuel (rq_hist r) (rq_block r) l
  end.

Fixpoint serve (fuel : nat) (v : validatorsSnapshotCache) (l : list Request) : option (list (result SnapErr (list ValidatorMetadata))) :=
  match l with
  | [] => Some []
  | r :: l =>
      '(v, x) ← vc_GetSnapshot (rq_chain r) fuel (if rq_restart r then newValidatorsSnapshotCache (epochStore v) else v) (rq_block r) (rq_parents r);
      xs ← serve fuel v l;
      Some (x :: xs)
  end.

Lemma serve_spec fuel hist n v l : follows fuel hist n l -> 0 <= n <= head hist -> cache_ok hist v -> newest_upto v (epoch_to_get hist n) ->
  serve fuel v l = Some ((fun r => Ok (set_of (rq_hist r) (rq_block r))) <$> l).
Proof using.
  revert hist n v. induction l as [|r l IH]; intros hist n v; [done|]. intros (Hok & Hg & Hn & Hf & Hp & Hl) Hn0 [Hm Hd] Hnew. cbn [serve].
  set (v0 := if rq_restart r then _ else v). pose proof (asked_grows _ _ _ Hg Hok n (rq_block r) Hn0 Hn) as Hle.
  assert (Hv0 : cache_ok (rq_hist r) v0 /\ newest_upto v0 (epoch_to_get (rq_hist r) (rq_block r))).
  { assert (Hn' : newest_upto v (epoch_to_get (rq_hist r) (rq_block r))) by (intros e He; pose proof (Hnew e He); lia).
    unfold v0. destruct (rq_restart r); split; try done; (split; [|by eapply snapshots_grow]); [intros ??; cbn; by rewrite lookup_empty|by eapply snapshots_grow]. }
  destruct Hv0 as [Hv0 Hn']. destruct (GetSnapshot_spec _ _ Hok fuel (rq_parents r) Hf Hp v0 (rq_block r) Hv0 ltac:(lia)) as (v1 & -> & Hv1 & Hn1).
  cbn [mbind option_bind]. rewrite (IH _ _ v1 Hl ltac:(lia) Hv1 (Hn1 Hn')). cbn. unfold answer.
  by rewrite (outdated_newest (rq_hist r)) by (done || apply Hv0).
Qed.

(** C35. The validators of any block: on a chain whose epochs follow each other and whose
    validators change only in the last blocks of epochs, whatever correct snapshots memory
    and database have, and with as much fuel as the chain has blocks, a request for the
    validators of a block returns, and the snapshots stay correct. The answer is the changes
    of all blocks up to it applied in order to the empty set, or, if memory does not have the
    epoch asked for and the newest epoch of the database is a later one, the validators of
    that later epoch. *)
Theorem validator_snapshots hist chain fuel parents v n : history_ok hist chain -> head hist <= Z.of_nat fuel ->
  (forall p, p ∈ parents -> chain (h_Number p) = Some p) -> cache_ok hist v -> 0 <= n <= head hist ->
  exists v', vc_GetSnapshot chain fuel v n parents = Some (v', Ok (match outdated v (epoch_to_get hist n) with Some s => vs_Snapshot s | None => set_of hist n end)) /\
    cache_ok hist v'.
Proof using.
  intros Hok Hf Hp Hv Hn. destruct (GetSnapshot_spec hist chain Hok fuel parents Hf Hp v n Hv Hn) as (v' & ? & ? & _). by exists v'.
Qed.

(** C15. A node that follows the chain gets the right validators: as the chain grows and with
    restarts in between, requests for later and later blocks, the first on an empty
    database, are all answered with the changes of all blocks up to the one asked for
    applied in order. *)
Theorem validator_snapshots_followed fuel hist l : follows fuel hist 0 l -> 0 <= head hist ->
  serve fuel (newValidatorsSnapshotCache ∅) l = Some ((fun r => Ok (set_of (rq_hist r) (rq_block r))) <$> l).
Proof using.
  intros Hl Hh. apply (serve_spec fuel hist 0); [done|lia| |intros e [s Hs]; cbn in Hs; by rewrite lookup_empty in Hs].
  split; intros ??; cbn; by rewrite lookup_empty.
Qed.

End Snapshots.

(** ** A chain of three epochs *)

#[local] Existing Instance sample_curve.
#[local] Existing Instance ser_codec.
#[local] Existing Instance ser_rlp.
#[local] Existing Instance sample_access.
#[local] Existing Instance sample_access_laws.
#[local] Existing Instance sample_abi.

Definition epochs_delta (n : Z) : ValidatorSetDelta :=
  if n =? 0 then mkDelta sample_validators [] [] else if n =? 2 then sample_delta else mkDelta [] [] [].

Definition epochs_history (last : Z) : History :=
  mkHistory last (fun n => (n + 1) / 2) epochs_delta
    (fun n => if n <? 2 then sample_validators else [sample_validator 1 10; sample_validator 3 90; sample_validator 4 40; sample_validator 5 50]).

Definition epochs_extra (n : Z) : Extra := mkExtra (Some (epochs_delta n)) [] None None (Some (mkCheckpoint 1 ((n + 1) / 2) 77 78 79)).

Definition epochs_header (n : Z) : Header :=
  mkHeader 1 EmptyUncleHash [1; 2; 3] 4 5 6 (replicate BloomByteLength 0) 1 n 10000000 21000 1600000000
    (replicate 32 0 ++ default [] (e_MarshalRLPTo (epochs_extra n))) 0 0 0.

Definition epochs_chain (last n : Z) : option Header := if (0 <=? n) && (n <=? last) then Some (epochs_header n) else None.

Ltac sample_fits k := apply List.Forall_cons; [fits_by_eval; exists k; split; [done|]; split; [exact (be_bytes_ok 128 k)|reflexivity]|].

Lemma epochs_extra_fits n : 0 <= n <= 5 -> extra_fits (epochs_extra n).
Proof.
  intros Hn. split; try done.
  - cbn. unfold epochs_delta. destruct (n =? 0); [|destruct (n =? 2); [exact sample_delta_fits|]].
    + split; [|apply List.Forall_nil|apply List.Forall_nil]. sample_fits 1. sample_fits 2. sample_fits 3. sample_fits 4. apply List.Forall_nil.
    + split; apply List.Forall_nil.
  - apply List.Forall_nil.
  - pose proof (Z.div_le_mono (n + 1) 6 2 ltac:(lia) ltac:(lia)). pose proof (Z.div_pos (n + 1) 2 ltac:(lia) ltac:(lia)).
    change (6 / 2) with 3 in *. split; split; cbn [BlockRound EpochNumber CurrentValidatorsHash NextValidatorsHash EventRoot]; unfold two64; (lia || done).
Qed.

Lemma epochs_decodes n : 0 <= n <= 5 -> GetIbftExtra (replicate 32 0 ++ default [] (e_MarshalRLPTo (epochs_extra n))) = Some (Ok (epochs_extra n)).
Proof.
  intros Hn. pose proof (epochs_extra_fits n Hn) as Hf. destruct (extra_rlp (epochs_extra n) Hf) as (x & Hx & _). unfold e_MarshalRLPTo. rewrite Hx.
  exact (GetIbftExtra_encoded (epochs_extra n) x (replicate 32 0) Hf Hx eq_refl).
Qed.

Lemma epochs_data last n : 0 <= n <= last -> last <= 5 -> getBlockData (epochs_chain last) n = Some (Ok (epochs_extra n)).
Proof.
  intros Hn Hl. unfold getBlockData, epochs_chain. rewrite (proj2 (Z.leb_le 0 n)), (proj2 (Z.leb_le n last)) by lia. cbn [andb epochs_header h_ExtraData].
  by rewrite epochs_decodes by lia.
Qed.

Ltac epochs_cases n := assert (n = 0 \/ n = 1 \/ n = 2 \/ n = 3 \/ n = 4 \/ n = 5) as Hcases by lia; destruct_or! Hcases; subst n.

Lemma epochs_ok last : 0 <= last <= 5 -> history_ok (epochs_history last) (epochs_chain last).
Proof.
  intros Hl. split; cbn [head epoch_of delta_in set_of epochs_history].
  - unfold two64. lia.
  - intros n Hn. rewrite epochs_data by lia. by eexists _, _.
  - intros n Hn. unfold epochs_chain. by rewrite (proj2 (Z.leb_gt n last)), andb_false_r by lia.
  - done.
  - intros n Hn. pose proof (Z.div_le_mono (n + 1) (n + 1 + 1) 2 ltac:(lia) ltac:(lia)).
    pose proof (Z.div_le_mono (n + 1 + 1) (n + 1 + 1 * 2) 2 ltac:(lia) ltac:(lia)) as Hd. rewrite Z.div_add in Hd by done. lia.
  - intros n Hn. epochs_cases n; (done || lia).
  - reflexivity.
  - intros n Hn. epochs_cases n; (reflexivity || lia).
  - intros n Hn. epochs_cases n; reflexivity.
Qed.

(** The database of a node that had the snapshot after block 2, and restarted. *)
Definition epochs_restarted : validatorsSnapshotCache := newValidatorsSnapshotCache {[ 1 := mkVSnapshot 1 2 (set_of (epochs_history 5) 2) ]}.

Lemma epochs_restarted_ok : cache_ok (epochs_history 5) epochs_restarted.
Proof.
  split; intros e s Es; cbn [snapshots epochStore epochs_restarted newValidatorsSnapshotCache] in Es; [by rewrite lookup_empty in Es|].
  apply lookup_singleton_Some in Es as [<- <-]. split; [done|]. split; [|done|done].
  split; [done|by left].
Qed.

Lemma validator_snapshots_witness :
  exists v', vc_GetSnapshot (epochs_chain 5) 6 epochs_restarted 1 [] = Some (v', Ok (set_of (epochs_history 5) 2)) /\
    v_Address <$> set_of (epochs_history 5) 1 = [101; 102; 103; 104] /\ v_Address <$> set_of (epochs_history 5) 2 = [101; 103; 104; 105].
Proof.
  destruct (validator_snapshots (epochs_history 5) (epochs_chain 5) 6 [] epochs_restarted 1) as (v' & Hv' & _).
  - apply epochs_ok. lia.
  - cbn. lia.
  - by intros p Hp%elem_of_nil.
  - exact epochs_restarted_ok.
  - cbn. lia.
  - exists v'. split; [exact Hv'|]. split; reflexivity.
Defined.

Definition epochs_requests : list Request :=
  [ mkRequest (epochs_history 2) (epochs_chain 2) 1 [] false; mkRequest (epochs_history 2) (epochs_chain 2) 2 [epochs_header 2] false;
    mkRequest (epochs_history 5) (epochs_chain 5) 3 [] true; mkRequest (epochs_history 5) (epochs_chain 5) 5 [epochs_header 2; epochs_header 4] false ].

Lemma epochs_grow m n : m <= n -> grows (epochs_history m) (epochs_history n).
Proof. by split. Qed.

Lemma epochs_parents last ns p : Forall (fun n => 0 <= n <= last) ns -> p ∈ epochs_header <$> ns -> epochs_chain last (h_Number p) = Some p.
Proof.
  intros Hns (n & -> & Hin)%list_elem_of_fmap. cbn [h_Number epochs_header]. rewrite list.Forall_forall in Hns. specialize (Hns n Hin).
  unfold epochs_chain. by rewrite (proj2 (Z.leb_le 0 n)), (proj2 (Z.leb_le n last)) by lia.
Qed.

Lemma epochs_follow m last b k ns restart l : 0 <= last <= 5 -> m <= last -> k <= b <= last -> Forall (fun n => 0 <= n <= last) ns ->
  follows 6 (epochs_history last) b l ->
  follows 6 (epochs_history m) k (mkRequest (epochs_history last) (epochs_chain last) b (epochs_header <$> ns) restart :: l).
Proof.
  intros Hl Hm Hb Hns Hf. split; [by apply epochs_ok|]. split; [by apply epochs_grow|]. split; [done|]. split; [cbn; lia|]. split; [|done].
  intros p. by apply epochs_parents.
Qed.

Lemma validator_snapshots_followed_witness :
  serve 6 (newValidatorsSnapshotCache ∅) epochs_requests = Some ((fun r => Ok (set_of (rq_hist r) (rq_block r))) <$> epochs_requests).
Proof.
  apply (validator_snapshots_followed 6 (epochs_history 0) epochs_requests); [|done]. unfold epochs_requests.
  apply (epochs_follow 0 2 1 0 []); [lia..|by constructor|]. apply (epochs_follow 2 2 2 1 [2]); [lia..|repeat constructor; lia|].
  apply (epochs_follow 2 5 3 2 []); [lia..|by constructor|]. apply (epochs_follow 5 5 5 3 [2; 4]); [lia..|repeat constructor; lia|]. exact I.
Defined.
