(* ===== verification/Merkle.v ===== *)
(** * The Merkle tree ([merkle-tree/merkle_tree.go])

    Nodes live in an arena and point to each other by their indices, since their parents
    are set after they are made. A hasher is the bytes written to it since its last reset.
    [None] is a nil dereference. *)

From S2P Require Import Prelude ChainTypes BigInt Runtime TrieSample Snapshot.
Inductive MerkleErr := ErrNoLeaves | errLeafNotFound | ErrNotInTree | ErrEmptyLeaf | ErrInvalidIndex | ErrNotMember.

Record MerkleNode := mkNode {
  mn_left : option nat; mn_right : option nat; mn_parent : option nat; mn_data : list Z; mn_hash : Hash }.

Record Arena := mkArena { ar_nodes : list MerkleNode; ar_hasher : list Z }.

Record MerkleTree := mkTree { mt_arena : Arena; mt_rootNode : nat; mt_leafNodes : list nat }.

Definition set_parent (p : nat) (n : MerkleNode) : MerkleNode := mkNode (mn_left n) (mn_right n) (Some p) (mn_data n) (mn_hash n).

Section Merkle.
Context `{Codec}.

(** [hasher.Sum(nil)]. *)
Definition hasher_sum (hasher : list Z) : list Z := keccak256 hasher.

Definition node_hash (m : Arena) (i : option nat) : option Hash := i ← i; mn_hash <$> ar_nodes m !! i.

Definition newMerkleNode (lnode rnode : option nat) (data : list Z) (m : Arena) : option (nat * Arena) :=
  dataToHash ← match lnode, rnode with
    | None, None => Some data
    | _, _ => l ← node_hash m lnode; r ← node_hash m rnode; Some (be_bytes 32 l ++ be_bytes 32 r)
    end;
  let node := mkNode lnode rnode None data (BytesToHash (hasher_sum dataToHash)) in
  Some (length (ar_nodes m), mkArena (ar_nodes m ++ [node]) dataToHash).

Definition set_parents (lnode rnode parent : nat) (m : Arena) : Arena :=
  mkArena (alter (set_parent parent) rnode (alter (set_parent parent) lnode (ar_nodes m))) (ar_hasher m).

Fixpoint new_leaves (data : list (list Z)) (m : Arena) : option (list nat * Arena) :=
  match data with
  | [] => Some ([], m)
  | d :: data =>
      '(n, m) ← newMerkleNode None None d m;
      '(ns, m) ← new_leaves data m;
      Some (n :: ns, m)
  end.

(** One level above the given nodes; a last node without a partner is paired with itself. *)
Fixpoint new_level (nodes : list nat) (m : Arena) : option (list nat * Arena) :=
  match nodes with
  | [] => Some ([], m)
  | lnode :: rest =>
      let rnode := match rest with next :: _ => next | [] => lnode end in
      '(parent, m) ← newMerkleNode (Some lnode) (Some rnode) [] m;
      let m := set_parents lnode rnode parent m in
      match rest with
      | [] => Some ([parent], m)
      | _ :: rest => '(ns, m) ← new_level rest m; Some (parent :: ns, m)
      end
  end.

(** The loop over the levels. *)
Fixpoint new_levels (fuel : nat) (nodes : list nat) (m : Arena) : option (list nat * Arena) :=
  if negb (1 <? Z.of_nat (length nodes)) then Some (nodes, m)
  else match fuel with O => None | S fuel => '(nodes, m) ← new_level nodes m; new_levels fuel nodes m end.

Definition NewMerkleTreeWithHashing (data : list (list Z)) (hasher : list Z) : option (result MerkleErr MerkleTree) :=
  if Z.of_nat (length data) =? 0 then Some (Err ErrNoLeaves)
  else
    '(leafNodes, m) ← new_leaves data (mkArena [] hasher);
    '(nodes, m) ← new_levels (length data) leafNodes m;
    rootNode ← nodes !! 0%nat;
    Some (Ok (mkTree m rootNode leafNodes)).

Definition NewMerkleTree (data : list (list Z)) : option (result MerkleErr MerkleTree) := NewMerkleTreeWithHashing data [].

Definition node_of (t : MerkleTree) (i : nat) : option MerkleNode := ar_nodes (mt_arena t) !! i.

Fixpoint leaf_index (t : MerkleTree) (leaf : list Z) (i : Z) (nodes : list nat) : option (result MerkleErr Z) :=
  match nodes with
  | [] => Some (Err errLeafNotFound)
  | n :: nodes =>
      leafNode ← node_of t n;
      if decide (mn_data leafNode = leaf) then Some (Ok (u64 i)) else leaf_index t leaf (i + 1) nodes
  end.

Definition LeafIndex (t : MerkleTree) (leaf : list Z) : option (result MerkleErr Z) := leaf_index t leaf 0 (mt_leafNodes t).

Definition mt_Hash (t : MerkleTree) : option Hash := mn_hash <$> node_of t (mt_rootNode t).

(** [math.Ceil(math.Log2(n))] in floating point, exact for less than 2^47 leaves. *)
Definition Depth (t : MerkleTree) : Z := Z.log2_up (Z.of_nat (length (mt_leafNodes t))).

Fixpoint find_leaf (t : MerkleTree) (leaf : list Z) (nodes : list nat) : option (option nat) :=
  match nodes with
  | [] => Some None
  | n :: nodes =>
      leafNode ← node_of t n;
      if decide (mn_data leafNode = leaf) then Some (Some n) else find_leaf t leaf nodes
  end.

Definition findLeafNode (t : MerkleTree) (leaf : list Z) : option (option nat) := find_leaf t leaf (mt_leafNodes t).

(** The way up to the first node that has the hash of the root. *)
Fixpoint climb (fuel : nat) (t : MerkleTree) (root : Hash) (node : nat) (proof : list Hash) : option (list Hash) :=
  n ← node_of t node;
  if decide (mn_hash n = root) then Some proof
  else
    match fuel with
    | O => None
    | S fuel =>
        p ← mn_parent n;
        parent ← node_of t p;
        lnode ← node_hash (mt_arena t) (mn_left parent);
        rnode ← node_hash (mt_arena t) (mn_right parent);
        climb fuel t root p (proof ++ [if decide (lnode = mn_hash n) then rnode else lnode])
    end.

Definition GenerateProof (t : MerkleTree) (leaf : list Z) : option (result MerkleErr (list Hash)) :=
  leafNode ← findLeafNode t leaf;
  match leafNode with
  | None => Some (Err ErrNotInTree)
  | Some node => root ← mt_Hash t; Ok <$> climb (length (ar_nodes (mt_arena t))) t root node []
  end.

Fixpoint proof_hash (index : Z) (computedHash : list Z) (proof : list Hash) : list Z :=
  match proof with
  | [] => computedHash
  | p :: proof =>
      let written := if index mod 2 =? 0 then computedHash ++ be_bytes 32 p else be_bytes 32 p ++ computedHash in
      proof_hash (index / 2) (hasher_sum written) proof
  end.

(** The hasher is not reset before the leaf is written. *)
Definition getProofHash (index : Z) (leaf : list Z) (proof : list Hash) (hasher : list Z) : list Z :=
  proof_hash index (hasher_sum (hasher ++ leaf)) proof.

(** The result of converting a floating-point number of 2^63 and more to [int] depends on
    the machine. *)
Definition int_of_pow2 (overflow : Z) (n : nat) : Z := if Z.of_nat n <? 63 then 2 ^ Z.of_nat n else overflow.

Definition VerifyProofUsing (overflow index : Z) (leaf : list Z) (proof : list Hash) (root : Hash) (hasher : list Z) : result MerkleErr () :=
  if Z.of_nat (length leaf) =? 0 then Err ErrEmptyLeaf
  else if int_of_pow2 overflow (length proof) <=? i64 index then Err ErrInvalidIndex
  else
    let computedHash := getProofHash index leaf proof hasher in
    if decide (be_bytes 32 root = computedHash) then Ok () else Err ErrNotMember.

Definition VerifyProof (overflow index : Z) (leaf : list Z) (proof : list Hash) (root : Hash) : result MerkleErr () :=
  VerifyProofUsing overflow index leaf proof root [].

End Merkle.

(** * Properties of the Merkle tree

    The arena of a tree is its levels one after the other. Generated proofs are verified, a
    verified proof of full length names a leaf, and the shape of the tree leaves known
    ambiguities. *)
Local Open Scope go_scope.

(** Induction over a list in pairs. *)
Lemma pairs_ind {A} (P : list A -> Prop) : P [] -> (forall a, P [a]) -> (forall a b l, P l -> P (a :: b :: l)) -> forall l, P l.
Proof.
  intros H0 H1 H2 l. assert (Hl : P l /\ forall a, P (a :: l)); [|apply Hl]. induction l as [|b l [IH1 IH2]]; split; auto.
Qed.

Section Merkle.
Context `{Codec}.

(** ** The tree as levels of hashes *)

Definition leaf_hash (d : list Z) : Hash := BytesToHash (keccak256 d).
Definition pair_hash (a b : Hash) : Hash := BytesToHash (keccak256 (be_bytes 32 a ++ be_bytes 32 b)).

Fixpoint pair_up (l : list Hash) : list Hash :=
  match l with
  | [] => []
  | [a] => [pair_hash a a]
  | a :: b :: l => pair_hash a b :: pair_up l
  end.

Fixpoint root_of (fuel : nat) (l : list Hash) : Hash :=
  match fuel, l with
  | S fuel, _ :: _ :: _ => root_of fuel (pair_up l)
  | _, _ => hd 0 l
  end.

Definition sibling (l : list Hash) (j : nat) : Hash :=
  if Nat.even j then default (default 0 (l !! j)) (l !! S j) else default 0 (l !! pred j).

Fixpoint path (fuel : nat) (l : list Hash) (j : nat) : list Hash :=
  match fuel, l with
  | S fuel, _ :: _ :: _ => sibling l j :: path fuel (pair_up l) (Nat.div2 j)
  | _, _ => []
  end.

(** The hashes below the root. *)
Fixpoint below (fuel : nat) (l : list Hash) : list Hash :=
  match fuel, l with
  | S fuel, _ :: _ :: _ => l ++ below fuel (pair_up l)
  | _, _ => []
  end.

Fixpoint height (fuel : nat) (l : list Hash) : nat :=
  match fuel, l with
  | S fuel, _ :: _ :: _ => S (height fuel (pair_up l))
  | _, _ => 0%nat
  end.

Lemma pair_up_length l : length (pair_up l) = Nat.div2 (S (length l)).
Proof. induction l as [| |a b l IH] using pairs_ind; [done..|]. cbn in *. by rewrite IH. Qed.

Lemma pair_up_lookup l j h : l !! j = Some h ->
  pair_up l !! Nat.div2 j = Some (if Nat.even j then pair_hash h (sibling l j) else pair_hash (sibling l j) h).
Proof.
  revert j. induction l as [| |a b l IH] using pairs_ind; intros j Hj; [done| |].
  - destruct j as [|[|j]]; [|done..]. by cbn in *; simplify_eq.
  - destruct j as [|[|j]]; [by cbn in *; simplify_eq..|]. cbn in Hj. change (pair_up (a :: b :: l) !! Nat.div2 (S (S j))) with (pair_up l !! Nat.div2 j). rewrite (IH j Hj).
    change (Nat.even (S (S j))) with (Nat.even j). unfold sibling. cbn. destruct (Nat.even j) eqn:E; [done|]. destruct j as [|j]; [done|]. done.
Qed.

Lemma path_length fuel l j : length (path fuel l j) = height fuel l.
Proof. revert l j. induction fuel as [|fuel IH]; intros [|a [|b l]] j; cbn; [done..|]. by rewrite IH. Qed.

Lemma div2_lt n : (2 <= n)%nat -> (Nat.div2 (S n) < n)%nat.
Proof. intros Hn. rewrite Nat.div2_div. apply Nat.Div0.div_lt_upper_bound. lia. Qed.

Lemma pair_up_shrinks (a b : Hash) l fuel : (length (a :: b :: l) <= S fuel)%nat -> (length (pair_up (a :: b :: l)) <= fuel)%nat.
Proof. intros Hl. rewrite pair_up_length. pose proof (div2_lt (length (a :: b :: l)) ltac:(cbn; lia)). lia. Qed.

Lemma height_log fuel l : (length l <= fuel)%nat -> l <> [] -> Z.of_nat (height fuel l) = Z.log2_up (Z.of_nat (length l)).
Proof.
  revert l. induction fuel as [|fuel IH]; intros l Hl Hne; [destruct l; [done|cbn in Hl; lia]|]. destruct l as [|a [|b l]]; [done..|].
  cbn [height]. rewrite Nat2Z.inj_succ, IH; [|exact (pair_up_shrinks a b l fuel Hl)|discriminate].
  rewrite pair_up_length, Nat.div2_div. set (n := length (a :: b :: l)). assert (Hn : (2 <= n)%nat) by (unfold n; cbn; lia).
  rewrite Nat2Z.inj_div. destruct (Nat.Even_or_Odd n) as [[k ->]|[k ->]].
  - replace (Z.of_nat (S (2 * k)) / Z.of_nat 2) with (Z.of_nat k) by (apply Z.div_unique with 1; lia).
    rewrite Nat2Z.inj_mul. symmetry. apply Z.log2_up_double. lia.
  - replace (Z.of_nat (S (2 * k + 1)) / Z.of_nat 2) with (Z.of_nat k + 1) by (apply Z.div_unique with 0; lia).
    rewrite (Z.log2_up_eqn (Z.of_nat (2 * k + 1))), (Z.log2_up_eqn (Z.of_nat k + 1)) by lia.
    replace (Z.pred (Z.of_nat (2 * k + 1))) with (2 * Z.of_nat k) by lia. replace (Z.pred (Z.of_nat k + 1)) with (Z.of_nat k) by lia.
    by rewrite Z.log2_double by lia.
Qed.

(** ** The arena *)

Fixpoint with_parents (p : nat) (nodes : list MerkleNode) : list MerkleNode :=
  match nodes with
  | [] => []
  | [a] => [set_parent p a]
  | a :: b :: nodes => set_parent p a :: set_parent p b :: with_parents (S p) nodes
  end.

Fixpoint inner_nodes (c : nat) (l : list Hash) : list MerkleNode :=
  match l with
  | [] => []
  | [a] => [mkNode (Some c) (Some c) None [] (pair_hash a a)]
  | a :: b :: l => mkNode (Some c) (Some (S c)) None [] (pair_hash a b) :: inner_nodes (S (S c)) l
  end.

Fixpoint layout (fuel base : nat) (nodes : list MerkleNode) : list MerkleNode :=
  match fuel, nodes with
  | S fuel, _ :: _ :: _ =>
      let next := (base + length nodes)%nat in
      with_parents next nodes ++ layout fuel next (inner_nodes base (mn_hash <$> nodes))
  | _, _ => nodes
  end.

Lemma inner_hashes c l : mn_hash <$> inner_nodes c l = pair_up l.
Proof. revert c. induction l as [| |a b l IH] using pairs_ind; intros c; cbn; [done..|]. by rewrite IH. Qed.

Lemma inner_length c l : length (inner_nodes c l) = Nat.div2 (S (length l)).
Proof. rewrite <- pair_up_length, <- (inner_hashes c l). by rewrite length_fmap. Qed.

Lemma with_parents_length p nodes : length (with_parents p nodes) = length nodes.
Proof. revert p. induction nodes as [| |a b l IH] using pairs_ind; intros p; cbn; [done..|]. by rewrite IH. Qed.

Lemma with_parents_lookup p nodes j : with_parents p nodes !! j = set_parent (p + Nat.div2 j) <$> nodes !! j.
Proof.
  revert p j. induction nodes as [|a|a b l IH] using pairs_ind; intros p j; [done| |].
  - destruct j as [|j]; cbn; [by rewrite Nat.add_0_r|]. by destruct j.
  - destruct j as [|[|j]]; cbn; [by rewrite Nat.add_0_r..|]. rewrite IH. by replace (S p + Nat.div2 j)%nat with (p + S (Nat.div2 j))%nat by lia.
Qed.

Lemma inner_lookup c l j h : l !! j = Some h ->
  inner_nodes c l !! Nat.div2 j =
  Some (mkNode (Some (c + 2 * Nat.div2 j)%nat) (Some (if l !! S (2 * Nat.div2 j)%nat is Some _ then S (c + 2 * Nat.div2 j) else (c + 2 * Nat.div2 j)%nat))
    None [] (default 0 (pair_up l !! Nat.div2 j))).
Proof.
  revert c j. induction l as [|a|a b l IH] using pairs_ind; intros c j Hj; [done| |].
  - destruct j as [|[|j]]; [|done..]. cbn. by rewrite Nat.add_0_r.
  - destruct j as [|[|j]]; [cbn; by rewrite Nat.add_0_r..|]. change (inner_nodes c (a :: b :: l) !! Nat.div2 (S (S j))) with (inner_nodes (S (S c)) l !! Nat.div2 j).
    rewrite (IH (S (S c)) j Hj). change (Nat.div2 (S (S j))) with (S (Nat.div2 j)). change (pair_up (a :: b :: l) !! S (Nat.div2 j)) with (pair_up l !! Nat.div2 j).
    replace (S (2 * S (Nat.div2 j)))%nat with (S (S (S (2 * Nat.div2 j)))) by lia. cbn [lookup list_lookup].
    replace (c + 2 * S (Nat.div2 j))%nat with (S (S c) + 2 * Nat.div2 j)%nat by lia. done.
Qed.

Definition leaf_node (d : list Z) : MerkleNode := mkNode None None None d (leaf_hash d).

Lemma new_leaves_spec data m : exists h,
  new_leaves data m = Some (seq (length (ar_nodes m)) (length data), mkArena (ar_nodes m ++ (leaf_node <$> data)) h).
Proof.
  revert m. induction data as [|d data IH]; intros [nodes hasher]; [exists hasher; by rewrite app_nil_r|]. cbn.
  destruct (IH (mkArena (nodes ++ [leaf_node d]) d)) as [h Hh]. unfold leaf_node, leaf_hash in *. exists h. unfold hasher_sum. rewrite Hh. cbn.
  by rewrite length_app, Nat.add_1_r, <- app_assoc.
Qed.

Lemma alter_at (f : MerkleNode -> MerkleNode) pre n post : alter f (length pre) (pre ++ n :: post) = pre ++ f n :: post.
Proof. induction pre as [|x pre IH]; cbn; [done|]. f_equal. exact IH. Qed.

Lemma alter_next (f : MerkleNode -> MerkleNode) pre n m post : alter f (S (length pre)) (pre ++ n :: m :: post) = pre ++ n :: f m :: post.
Proof. induction pre as [|x pre IH]; cbn; [done|]. f_equal. exact IH. Qed.

Lemma lookup_next (pre : list MerkleNode) n m post : (pre ++ n :: m :: post) !! S (length pre) = Some m.
Proof. induction pre as [|x pre IH]; cbn; [done|]. exact IH. Qed.

Definition pair_node (c : nat) (a b : Hash) : MerkleNode := mkNode (Some c) (Some (S c)) None [] (pair_hash a b).

Lemma new_pair pre a b post hasher : let p := (length pre + 2 + length post)%nat in
  exists h, ('(parent, m) ← newMerkleNode (Some (length pre)) (Some (S (length pre))) [] (mkArena (pre ++ a :: b :: post) hasher);
   Some (parent, set_parents (length pre) (S (length pre)) parent m)) =
  Some (p, mkArena (pre ++ set_parent p a :: set_parent p b :: post ++ [pair_node (length pre) (mn_hash a) (mn_hash b)]) h).
Proof.
  intros p. eexists. unfold newMerkleNode, node_hash. cbn [mbind option_bind ar_nodes]. rewrite (list_lookup_middle pre _ a (length pre)) by done. rewrite lookup_next.
  cbn [fmap option_fmap option_map mbind option_bind]. unfold set_parents. cbn [ar_nodes ar_hasher]. rewrite <- app_assoc. cbn [app].
  rewrite alter_at, alter_next. rewrite length_app. cbn [length]. replace (length pre + S (S (length post)))%nat with p by (unfold p; lia). reflexivity.
Qed.

(** One level: the nodes at hand lie between what was there before and the parents made so far. *)
Lemma new_level_spec pre nodes made hasher : exists h,
  new_level (seq (length pre) (length nodes)) (mkArena (pre ++ nodes ++ made) hasher) =
  let next := (length pre + length nodes + length made)%nat in
  Some (seq next (Nat.div2 (S (length nodes))),
    mkArena (pre ++ with_parents next nodes ++ made ++ inner_nodes (length pre) (mn_hash <$> nodes)) h).
Proof.
  revert pre made hasher. induction nodes as [|a|a b nodes IH] using pairs_ind; intros pre made hasher.
  - exists hasher. cbn. by rewrite app_nil_r.
  - eexists. cbn [length seq new_level]. unfold newMerkleNode, node_hash. cbn [mbind option_bind ar_nodes app].
    rewrite list_lookup_middle by done. cbn [fmap option_fmap option_map mbind option_bind]. unfold set_parents. cbn [ar_nodes ar_hasher].
    rewrite <- !app_assoc. cbn [app]. rewrite !alter_at, !length_app. cbn. replace (length pre + S (length made))%nat with (length pre + 1 + length made)%nat by lia.
    reflexivity.
  - destruct (new_pair pre a b (nodes ++ made) hasher) as [h1 Hp]. set (p := (length pre + 2 + length (nodes ++ made))%nat) in *.
    destruct (IH (pre ++ [set_parent p a; set_parent p b]) (made ++ [pair_node (length pre) (mn_hash a) (mn_hash b)]) h1) as [h Hh].
    exists h. cbn [length seq new_level app]. destruct (newMerkleNode _ _ _ _) as [[q m]|]; [|done]. cbn [mbind option_bind] in *.
    apply (inj Some) in Hp. pose proof (f_equal fst Hp) as Hq. pose proof (f_equal snd Hp) as Hm. cbn [fst snd] in Hq, Hm. subst q. rewrite Hm. rewrite length_app in Hh. cbn [length] in Hh. rewrite Nat.add_comm in Hh. cbn [Nat.add] in Hh.
    rewrite <- !app_assoc in Hh. cbn [app] in Hh. rewrite <- app_assoc. rewrite Hh. cbn [mbind option_bind].
    assert (Ep : p = (length pre + S (S (length nodes)) + length made)%nat) by (unfold p; rewrite length_app; lia).
    rewrite length_app. cbn [length]. replace (S (S (length pre + length nodes + (length made + 1))))%nat with (S p) by lia. rewrite <- Ep. cbn [with_parents inner_nodes fmap list_fmap].
    reflexivity.
Qed.

Lemma new_levels_spec fuel pre nodes hasher : (length nodes <= fuel)%nat -> nodes <> [] -> exists h r,
  new_levels fuel (seq (length pre) (length nodes)) (mkArena (pre ++ nodes) hasher) = Some ([r], mkArena (pre ++ layout fuel (length pre) nodes) h) /\
  mn_hash <$> ((pre ++ layout fuel (length pre) nodes) !! r) = Some (root_of fuel (mn_hash <$> nodes)).
Proof.
  revert pre nodes hasher. induction fuel as [|fuel IH]; intros pre nodes hasher Hl Hne; [destruct nodes; [done|cbn in Hl; lia]|].
  destruct nodes as [|a [|b nodes]]; [done| |].
  - exists hasher, (length pre). cbn. by rewrite list_lookup_middle.
  - destruct (new_level_spec pre (a :: b :: nodes) [] hasher) as [h1 H1]. rewrite app_nil_r in H1. cbn [length] in H1 |- *. cbn [new_levels]. rewrite length_seq.
    destruct (Z.ltb_spec 1 (Z.of_nat (S (S (length nodes))))); [|lia]. cbn [negb]. rewrite H1. cbn [mbind option_bind].
    set (next := (length pre + S (S (length nodes)) + 0)%nat). set (inner := inner_nodes (length pre) (mn_hash <$> a :: b :: nodes)).
    destruct (IH (pre ++ with_parents next (a :: b :: nodes)) inner h1) as (h & r & Hr & Hroot).
    { unfold inner. rewrite inner_length, length_fmap. pose proof (div2_lt (length (a :: b :: nodes)) ltac:(cbn; lia)). cbn [length] in *. lia. }
    { done. }
    rewrite length_app, with_parents_length in Hr, Hroot. unfold inner in Hr at 1. rewrite inner_length, length_fmap in Hr. rewrite <- !app_assoc in Hr, Hroot.
    cbn [length] in Hr, Hroot. replace (length pre + S (S (length nodes)))%nat with next in Hr, Hroot by (unfold next; lia).
    rewrite <- (app_assoc pre _ (layout fuel next inner)) in Hr.
    exists h, r. cbn [layout length]. replace (length pre + S (S (length nodes)))%nat with next by (unfold next; lia). split; [exact Hr|].
    unfold inner in Hroot at 2. rewrite inner_hashes in Hroot. exact Hroot.
Qed.

(** A tree made from the data. *)
Record tree_of (data : list (list Z)) (t : MerkleTree) : Prop := {
  to_nodes : ar_nodes (mt_arena t) = layout (length data) 0 (leaf_node <$> data);
  to_leaves : mt_leafNodes t = seq 0 (length data);
  to_root : mt_Hash t = Some (root_of (length data) (leaf_hash <$> data)) }.

Lemma leaf_hashes (data : list (list Z)) : mn_hash <$> (leaf_node <$> data) = leaf_hash <$> data.
Proof. by rewrite <- list_fmap_compose. Qed.

Lemma NewMerkleTree_spec data hasher : data <> [] -> exists t, NewMerkleTreeWithHashing data hasher = Some (Ok t) /\ tree_of data t.
Proof.
  intros Hne. unfold NewMerkleTreeWithHashing. destruct (Z.eqb_spec (Z.of_nat (length data)) 0) as [E|_]; [by destruct data|].
  destruct (new_leaves_spec data (mkArena [] hasher)) as [h1 ->]. cbn [mbind option_bind ar_nodes length app].
  destruct (new_levels_spec (length data) [] (leaf_node <$> data) h1) as (h & r & Hr & Hroot); [by rewrite length_fmap|by destruct data|].
  rewrite length_fmap in Hr. cbn [length app] in Hr. rewrite Hr. cbn [mbind option_bind lookup list_lookup]. eexists. split; [done|].
  split; [done|done|]. rewrite leaf_hashes in Hroot. exact Hroot.
Qed.

Lemma layout_lookup fuel base nodes j n : nodes !! j = Some n -> exists p,
  layout fuel base nodes !! j = Some (mkNode (mn_left n) (mn_right n) p (mn_data n) (mn_hash n)).
Proof.
  intros Hj. destruct fuel as [|fuel]; [exists (mn_parent n); cbn; by destruct n|]. destruct nodes as [|a [|b nodes]]; [done| |].
  - exists (mn_parent n). cbn [layout]. rewrite Hj. by destruct n.
  - cbn [layout]. rewrite lookup_app_l by (rewrite with_parents_length; by eapply lookup_lt_Some). rewrite with_parents_lookup, Hj. by eexists.
Qed.

(** ** Generated proofs *)

Section Tree.
Context (t : MerkleTree) (root : Hash).

Lemma level_hash fuel pre nodes i : ar_nodes (mt_arena t) = pre ++ layout fuel (length pre) nodes -> (i < length nodes)%nat ->
  node_hash (mt_arena t) (Some (length pre + i)%nat) = (mn_hash <$> nodes) !! i.
Proof.
  intros Ht Hi. destruct (lookup_lt_is_Some_2 nodes i Hi) as [n Hn]. unfold node_hash. cbn [mbind option_bind]. rewrite Ht, lookup_app_r by lia.
  replace (length pre + i - length pre)%nat with i by lia. destruct (layout_lookup fuel (length pre) nodes i n Hn) as [p ->]. by rewrite list_lookup_fmap, Hn.
Qed.

(** The hash that goes into the proof. *)
Lemma sibling_spec (l : list Hash) j h : l !! j = Some h -> exists a b, l !! (2 * Nat.div2 j)%nat = Some a /\
  (if l !! S (2 * Nat.div2 j) is Some _ then l !! S (2 * Nat.div2 j) else l !! (2 * Nat.div2 j)%nat) = Some b /\ (if decide (a = h) then b else a) = sibling l j.
Proof.
  intros Hj. pose proof (Nat.div2_odd j) as Hd. rewrite <- Nat.negb_even in Hd. unfold sibling. rewrite Hj. cbn [default from_option]. destruct (Nat.even j) eqn:E; cbn [negb Nat.b2n] in Hd.
  - replace (2 * Nat.div2 j)%nat with j by lia. rewrite Hj. exists h. destruct (l !! S j) as [b|]; [exists b|exists h]; (split; [done|split; [done|by rewrite decide_True]]).
  - replace (S (2 * Nat.div2 j)) with j by lia. rewrite Hj. replace (pred j) with (2 * Nat.div2 j)%nat by lia.
    destruct (lookup_lt_is_Some_2 l (2 * Nat.div2 j)) as [a Ha]; [apply lookup_lt_Some in Hj; lia|]. rewrite Ha. exists a, h. split; [done|split; [done|]].
    by destruct (decide (a = h)).
Qed.

Lemma climb_spec fuel k pre nodes j proof : ar_nodes (mt_arena t) = pre ++ layout fuel (length pre) nodes -> (length nodes <= fuel <= k)%nat ->
  (j < length nodes)%nat -> root = root_of fuel (mn_hash <$> nodes) -> root ∉ below fuel (mn_hash <$> nodes) ->
  climb k t root (length pre + j) proof = Some (proof ++ path fuel (mn_hash <$> nodes) j).
Proof.
  revert k pre nodes j proof. induction fuel as [|fuel IH]; intros k pre nodes j proof Ht Hl Hj Hroot Hbelow; [lia|].
  assert (Hlook : forall i, node_of t (length pre + i) = layout (S fuel) (length pre) nodes !! i).
  { intros i. unfold node_of. rewrite Ht, lookup_app_r by lia. f_equal. lia. }
  destruct (lookup_lt_is_Some_2 nodes j Hj) as [n Hn].
  destruct nodes as [|a [|b nodes]]; [cbn in Hj; lia| |].
  - destruct j as [|j]; [|cbn in Hj; lia]. destruct k as [|k]; cbn [climb]; rewrite Hlook; cbn; rewrite decide_True by done; by rewrite app_nil_r.
  - pose proof (fun i => level_hash (S fuel) pre (a :: b :: nodes) i Ht) as Hlev. set (l := mn_hash <$> a :: b :: nodes) in *.
    set (next := (length pre + length (a :: b :: nodes))%nat).
    assert (Hh : l !! j = Some (mn_hash n)) by (unfold l; by rewrite list_lookup_fmap, Hn). assert (Hll : length l = length (a :: b :: nodes)) by apply length_fmap.
    destruct k as [|k]; [lia|]. cbn [climb]. rewrite Hlook. cbn [layout]. rewrite lookup_app_l by (by rewrite with_parents_length).
    rewrite with_parents_lookup, Hn. cbn [fmap option_fmap option_map mbind option_bind mn_hash mn_parent set_parent]. fold next.
    rewrite decide_False by (intros E; apply Hbelow; cbn [below l fmap list_fmap]; apply elem_of_app; left; rewrite <- E; by eapply list_elem_of_lookup_2).
    change (layout (S fuel) (length pre) (a :: b :: nodes)) with (with_parents next (a :: b :: nodes) ++ layout fuel next (inner_nodes (length pre) l)) in Ht.
    rewrite app_assoc in Ht. set (pre' := pre ++ with_parents next (a :: b :: nodes)) in *.
    assert (Hp' : length pre' = next) by (unfold pre'; by rewrite length_app, with_parents_length). rewrite <- Hp' in Ht.
    pose proof (inner_lookup (length pre) l j _ Hh) as Hin. destruct (layout_lookup fuel next _ _ _ Hin) as [p Hpn].
    unfold node_of at 1. rewrite Ht, lookup_app_r by (rewrite Hp'; apply Nat.le_add_r). rewrite Hp'. rewrite Nat.add_comm, Nat.add_sub, Hpn.
    cbn [mbind option_bind mn_left mn_right]. destruct (sibling_spec l j _ Hh) as (x & y & Hx & Hy & Hs).
    rewrite Hlev by (rewrite <- Hll; exact (lookup_lt_Some _ _ _ Hx)). rewrite Hx. cbn [mbind option_bind].
    replace (node_hash (mt_arena t) (Some (if l !! S (2 * Nat.div2 j) is Some _ then S (length pre + 2 * Nat.div2 j) else (length pre + 2 * Nat.div2 j)%nat))) with (Some y).
    2: { rewrite <- Hy. destruct (l !! S (2 * Nat.div2 j)) as [z|] eqn:Ez.
         - rewrite <- Ez. rewrite <- Hlev by (rewrite <- Hll; exact (lookup_lt_Some _ _ _ Ez)). f_equal. f_equal. lia.
         - rewrite Hlev by (rewrite <- Hll; exact (lookup_lt_Some _ _ _ Hx)). done. }
    cbn [mbind option_bind]. rewrite Hs. rewrite <- Hp', (Nat.add_comm _ (length pre')). rewrite (IH k pre' (inner_nodes (length pre) l) (Nat.div2 j)).
    + rewrite inner_hashes, <- app_assoc. done.
    + exact Ht.
    + rewrite inner_length, Hll. pose proof (div2_lt (length (a :: b :: nodes)) ltac:(cbn; lia)). lia.
    + by eapply lookup_lt_Some.
    + rewrite inner_hashes. exact Hroot.
    + rewrite inner_hashes. intros Hin'. apply Hbelow. cbn [below l fmap list_fmap]. apply elem_of_app. by right.
Qed.

Context (data : list (list Z)) (Ht : tree_of data t).

Lemma leaf_data i d : data !! i = Some d -> exists n, node_of t i = Some n /\ mn_data n = d.
Proof using Ht.
  intros Hi. unfold node_of. rewrite (to_nodes _ _ Ht). destruct (layout_lookup (length data) 0 (leaf_node <$> data) i (leaf_node d)) as [p ->].
  - by rewrite list_lookup_fmap, Hi.
  - by eexists.
Qed.

Lemma leaf_search leaf pre suf : data = pre ++ suf -> Z.of_nat (length data) < two64 ->
  match list_find (fun d => d = leaf) suf with
  | Some (i, _) => leaf_index t leaf (Z.of_nat (length pre)) (seq (length pre) (length suf)) = Some (Ok (Z.of_nat (length pre + i))) /\
      find_leaf t leaf (seq (length pre) (length suf)) = Some (Some (length pre + i)%nat)
  | None => leaf_index t leaf (Z.of_nat (length pre)) (seq (length pre) (length suf)) = Some (Err errLeafNotFound) /\
      find_leaf t leaf (seq (length pre) (length suf)) = Some None
  end.
Proof using Ht.
  revert pre. induction suf as [|d suf IH]; intros pre Ed Hlen; [done|]. cbn [length seq leaf_index find_leaf list_find].
  destruct (leaf_data (length pre) d) as (n & -> & Hn); [rewrite Ed; by apply list_lookup_middle|]. cbn [mbind option_bind]. rewrite Hn.
  destruct (decide (d = leaf)) as [->|Hne].
  - rewrite Nat.add_0_r, u64_small; [done|]. split; [lia|]. rewrite Ed, length_app in Hlen. lia.
  - specialize (IH (pre ++ [d]) ltac:(rewrite <- app_assoc; exact Ed) Hlen). rewrite length_app, Nat.add_1_r in IH. cbn [length] in IH.
    replace (Z.of_nat (length pre) + 1) with (Z.of_nat (S (length pre))) by lia.
    destruct (list_find (fun d => d = leaf) suf) as [[i d']|]; cbn [fmap option_fmap option_map prod_map fst]; [|exact IH].
    replace (length pre + S i)%nat with (S (length pre) + i)%nat by lia. exact IH.
Qed.

End Tree.

(** ** Verified proofs *)

Context `{!CodecLaws}.

Lemma keccak_hash b : be_bytes 32 (BytesToHash (keccak256 b)) = keccak256 b.
Proof. apply be_bytes_hash; [apply keccak256_bytes|apply keccak256_length]. Qed.

Lemma index_even j : (Z.of_nat j mod 2 =? 0) = Nat.even j.
Proof.
  pose proof (Nat.div2_odd j) as Hd. rewrite <- Nat.negb_even in Hd. destruct (Nat.even j); cbn [negb Nat.b2n] in Hd.
  - apply Z.eqb_eq. rewrite Hd. rewrite Nat2Z.inj_add, Nat2Z.inj_mul, Z.add_0_r, Z.mul_comm. apply Z_mod_mult.
  - apply Z.eqb_neq. rewrite Hd. rewrite Nat2Z.inj_add, Nat2Z.inj_mul, Z.add_comm, Z.mul_comm, Z_mod_plus_full. done.
Qed.

Lemma proof_hash_path fuel l j h : l !! j = Some h -> (length l <= fuel)%nat ->
  proof_hash (Z.of_nat j) (be_bytes 32 h) (path fuel l j) = be_bytes 32 (root_of fuel l).
Proof.
  revert l j h. induction fuel as [|fuel IH]; intros l j h Hj Hl; [destruct l; [done|cbn in Hl; lia]|].
  destruct l as [|a [|b l]]; [done| |].
  - destruct j as [|j]; [|done]. by cbn in *; simplify_eq.
  - cbn [path proof_hash root_of]. rewrite <- (IH (pair_up (a :: b :: l)) (Nat.div2 j) _ (pair_up_lookup _ _ _ Hj)) by by apply pair_up_shrinks.
    rewrite index_even, Nat.div2_div, Nat2Z.inj_div. f_equal. unfold hasher_sum, pair_hash. by destruct (Nat.even j); rewrite keccak_hash.
Qed.

(** The byte strings that are hashed to make the nodes above a level, and to make a tree. *)
Fixpoint pair_inputs (l : list Hash) : list (list Z) :=
  match l with
  | [] => []
  | [a] => [be_bytes 32 a ++ be_bytes 32 a]
  | a :: b :: l => (be_bytes 32 a ++ be_bytes 32 b) :: pair_inputs l
  end.

Fixpoint level_inputs (fuel : nat) (l : list Hash) : list (list Z) :=
  match fuel, l with
  | S fuel, _ :: _ :: _ => pair_inputs l ++ level_inputs fuel (pair_up l)
  | _, _ => []
  end.

Definition tree_inputs (data : list (list Z)) : list (list Z) := data ++ level_inputs (length data) (leaf_hash <$> data).

(** Those that are hashed when a proof is verified. *)
Fixpoint proof_inputs (index : Z) (h : list Z) (proof : list Hash) : list (list Z) :=
  match proof with
  | [] => []
  | p :: proof =>
      let written := if index mod 2 =? 0 then h ++ be_bytes 32 p else be_bytes 32 p ++ h in
      written :: proof_inputs (index / 2) (hasher_sum written) proof
  end.

Definition verify_inputs (index : Z) (leaf : list Z) (proof : list Hash) : list (list Z) := leaf :: proof_inputs index (hasher_sum leaf) proof.

(** Two different strings, one of each list, have the same hash. *)
Definition collides (xs ys : list (list Z)) : Prop := Exists (fun x => Exists (fun y => x <> y /\ keccak256 x = keccak256 y) ys) xs.

Lemma collides_spec xs ys : collides xs ys <-> exists x y, x ∈ xs /\ y ∈ ys /\ x <> y /\ keccak256 x = keccak256 y.
Proof.
  unfold collides. rewrite Exists_exists. setoid_rewrite Exists_exists. split.
  - intros (x & Hx & y & Hy & Hc). by exists x, y.
  - intros (x & y & Hx & Hy & Hc). exists x. split; [done|]. by exists y.
Qed.

Lemma collides_mono xs ys xs' ys' : xs ⊆ xs' -> ys ⊆ ys' -> collides xs ys -> collides xs' ys'.
Proof. rewrite !collides_spec. intros Hx Hy (x & y & ? & ? & Hc). exists x, y. auto. Qed.

Lemma sub_cons {A} (x : A) l : l ⊆ x :: l.
Proof. intros y. by right. Qed.

Lemma sub_app_l {A} (l k : list A) : l ⊆ l ++ k.
Proof. intros y Hy. apply elem_of_app. by left. Qed.

Lemma sub_app_r {A} (l k : list A) : k ⊆ l ++ k.
Proof. intros y Hy. apply elem_of_app. by right. Qed.

Lemma keccak_inj xs ys x y : x ∈ xs -> y ∈ ys -> keccak256 x = keccak256 y -> x = y \/ collides xs ys.
Proof. intros Hx Hy E. destruct (decide (x = y)) as [|Hne]; [by left|right]. apply collides_spec. by exists x, y. Qed.

Lemma pair_hash_word a b : word (pair_hash a b).
Proof. unfold pair_hash, BytesToHash. rewrite be_val_last_bytes by apply keccak256_bytes. apply Z.mod_pos_bound. done. Qed.

Lemma pair_up_words l : Forall word (pair_up l).
Proof. induction l as [| |a b l IH] using pairs_ind; cbn; repeat constructor; (done || apply pair_hash_word). Qed.

(** Where a node of the level above comes from. *)
Lemma pair_up_inv l k h : pair_up l !! k = Some h -> exists a b, l !! (2 * k)%nat = Some a /\
  (if l !! S (2 * k) is Some _ then l !! S (2 * k) else l !! (2 * k)%nat) = Some b /\ h = pair_hash a b /\
  be_bytes 32 a ++ be_bytes 32 b ∈ pair_inputs l.
Proof.
  revert k. induction l as [|a|a b l IH] using pairs_ind; intros k Hk; [done| |].
  - destruct k as [|k]; [|done]. cbn in *. simplify_eq. exists a, a. split; [done|]. split; [done|]. split; [done|]. apply list_elem_of_here.
  - destruct k as [|k]; [cbn in *; simplify_eq; exists a, b; split; [done|]; split; [done|]; split; [done|]; apply list_elem_of_here|].
    destruct (IH k Hk) as (x & y & Hx & Hy & -> & Hin). exists x, y. replace (2 * S k)%nat with (S (S (2 * k))) by lia. split; [done|]. split; [done|]. split; [done|].
    by apply list_elem_of_further.
Qed.

Lemma proof_hash_length index h proof : length h = 32%nat -> length (proof_hash index h proof) = 32%nat.
Proof. revert index h. induction proof as [|p proof IH]; intros index h Hh; cbn; [done|]. apply IH, keccak256_length. Qed.

Lemma mod_pow2_S index n : 0 <= index -> index mod 2 ^ Z.of_nat (S n) = 2 * ((index / 2) mod 2 ^ Z.of_nat n) + index mod 2.
Proof.
  intros Hi. rewrite Nat2Z.inj_succ, Z.pow_succ_r by lia. rewrite Z.rem_mul_r by (try apply Z.pow_nonzero; lia). lia.
Qed.

(** A position of the level: the one of the index, if the level has it. *)
Definition at_index (l : list Hash) (n : nat) (index : Z) (j : nat) : Prop :=
  index mod 2 ^ Z.of_nat n < Z.of_nat (length l) -> Z.of_nat j = index mod 2 ^ Z.of_nat n.

Lemma at_index_up l n index j j' : 0 <= index -> at_index (pair_up l) n (index / 2) j' ->
  (2 * Z.of_nat j' + index mod 2 < Z.of_nat (length l) -> Z.of_nat j = 2 * Z.of_nat j' + index mod 2) -> at_index l (S n) index j.
Proof.
  intros Hi Hj' Hj Hlt. rewrite mod_pow2_S in * by done. pose proof (Z.mod_pos_bound index 2 ltac:(lia)) as Hm.
  assert (Hq : (index / 2) mod 2 ^ Z.of_nat n + 1 <= Z.of_nat (S (length l)) / 2) by (apply Z.div_le_lower_bound; lia).
  assert (Ej : Z.of_nat j' = (index / 2) mod 2 ^ Z.of_nat n).
  { apply Hj'. rewrite pair_up_length, Nat.div2_div, Nat2Z.inj_div. change (Z.of_nat 2) with 2. lia. }
  rewrite <- Ej in *. by apply Hj.
Qed.

Lemma proof_sound fuel l index h proof : 0 <= index -> Forall word l -> l <> [] -> (length l <= fuel)%nat -> Forall word proof ->
  length h = 32%nat -> length proof = height fuel l -> proof_hash index h proof = be_bytes 32 (root_of fuel l) ->
  collides (level_inputs fuel l) (proof_inputs index h proof) \/ exists j x, l !! j = Some x /\ h = be_bytes 32 x /\ at_index l (length proof) index j.
Proof.
  revert l index h proof. induction fuel as [|fuel IH]; intros l index h proof Hi Hw Hne Hl Hp Hh Hlen E; [destruct l; [done|cbn in Hl; lia]|].
  destruct l as [|a0 [|b0 l0]]; [done| |].
  { destruct proof; [|done]. right. exists 0%nat, a0. split; [done|]. split; [exact E|]. intros _. cbn. by rewrite Z.mod_1_r. }
  set (l := a0 :: b0 :: l0) in *. destruct proof as [|p proof]; [done|]. injection Hlen as Hlen. apply Forall_cons_1 in Hp as [Hwp Hwproof].
  cbn [proof_hash root_of l] in E. fold l in E.
  destruct (IH (pair_up l) (index / 2) _ proof (Z.div_pos index 2 Hi ltac:(lia)) (pair_up_words l) ltac:(done) ltac:(by apply pair_up_shrinks) Hwproof
    (keccak256_length _) Hlen E) as [Hc|(j' & x' & Hj' & Hx' & Hat)];
    [left; refine (collides_mono _ _ _ _ _ _ Hc); [apply sub_app_r|apply sub_cons]|].
  destruct (pair_up_inv l j' x' Hj') as (a & b & Ha & Hb & -> & Hin). unfold pair_hash in Hx'. rewrite keccak_hash in Hx'. symmetry in Hx'.
  apply (keccak_inj (level_inputs (S fuel) l) (proof_inputs index h (p :: proof))) in Hx' as [Hx'|]; [|by left|apply sub_app_l, Hin|apply list_elem_of_here].
  right. symmetry in Hx'.
  assert (Hwa : word a) by exact (proj1 (Forall_lookup word l) Hw _ _ Ha). assert (Hwb : word b).
  { destruct (l !! S (2 * j')) eqn:Eb; [rewrite Hb in Eb; exact (proj1 (Forall_lookup word l) Hw _ _ Eb)|exact (proj1 (Forall_lookup word l) Hw _ _ Hb)]. }
  destruct (Z.eqb_spec (index mod 2) 0) as [Ei|Ei]; apply app_inj_1 in Hx' as [H1 H2]; rewrite ?be_bytes_length; try done.
  - exists (2 * j')%nat, a. split; [done|]. split; [done|]. eapply at_index_up; [done|exact Hat|]. intros _. lia.
  - destruct (l !! S (2 * j')) as [b'|] eqn:Eb.
    + exists (S (2 * j')), b. split; [congruence|]. split; [done|]. eapply at_index_up; [done|exact Hat|]. intros _. pose proof (Z.mod_pos_bound index 2 ltac:(lia)). lia.
    + exists (2 * j')%nat, b. split; [congruence|]. split; [done|]. eapply at_index_up; [done|exact Hat|]. intros Hlt.
      apply lookup_ge_None in Eb. pose proof (Z.mod_pos_bound index 2 ltac:(lia)). lia.
Qed.

(** ** Roots *)

Definition merkle_root (data : list (list Z)) : Hash := root_of (length data) (leaf_hash <$> data).

Lemma leaf_hash_word d : word (leaf_hash d).
Proof. unfold leaf_hash, BytesToHash. rewrite be_val_last_bytes by apply keccak256_bytes. apply Z.mod_pos_bound. done. Qed.

Lemma leaf_words data : Forall word (leaf_hash <$> data).
Proof. apply Forall_fmap, Forall_true. intros d. apply leaf_hash_word. Qed.

Lemma default_word (l : list Hash) j h : Forall word l -> word h -> word (default h (l !! j)).
Proof. intros Hl Hh. destruct (l !! j) as [x|] eqn:E; cbn; [exact (proj1 (Forall_lookup word l) Hl _ _ E)|done]. Qed.

Lemma path_words fuel l j : Forall word l -> Forall word (path fuel l j).
Proof.
  assert (Hz : word 0) by (split; done). revert l j. induction fuel as [|fuel IH]; intros [|a [|b l]] j Hl; cbn [path]; try apply List.Forall_nil.
  apply List.Forall_cons; [|apply IH, pair_up_words]. unfold sibling. destruct (Nat.even j); auto using default_word.
Qed.

Lemma hash_inj xs ys x y : x ∈ xs -> y ∈ ys -> BytesToHash (keccak256 x) = BytesToHash (keccak256 y) -> x = y \/ collides xs ys.
Proof. intros Hx Hy E. apply keccak_inj; [done..|]. rewrite <- (keccak_hash x), <- (keccak_hash y). by rewrite E. Qed.

Lemma pair_up_inj l l' : length l = length l' -> Forall word l -> Forall word l' -> pair_up l = pair_up l' ->
  l = l' \/ collides (pair_inputs l) (pair_inputs l').
Proof.
  revert l'. induction l as [|a|a b l IH] using pairs_ind; intros [|a' [|b' l']] Hlen Hw Hw' E; try done; [by left|..].
  - injection E as E. apply (hash_inj (pair_inputs [a]) (pair_inputs [a'])) in E as [E|?]; [left|by right|apply list_elem_of_here..].
    apply app_inj_1 in E as [E _]; [|by rewrite !be_bytes_length]. apply Forall_cons_1 in Hw as [? _], Hw' as [? _]. f_equal. by apply be_bytes_word.
  - injection E as E E'. injection Hlen as Hlen. apply Forall_cons_1 in Hw as [? Hw], Hw' as [? Hw']. apply Forall_cons_1 in Hw as [? Hw], Hw' as [? Hw'].
    apply (hash_inj (pair_inputs (a :: b :: l)) (pair_inputs (a' :: b' :: l'))) in E as [E|?]; [|by right|apply list_elem_of_here..].
    apply app_inj_1 in E as [E1 E2]; [|by rewrite !be_bytes_length].
    destruct (IH l' Hlen Hw Hw' E') as [->|Hc]; [left|right; refine (collides_mono _ _ _ _ _ _ Hc); apply sub_cons].
    by rewrite (be_bytes_word a a'), (be_bytes_word b b') by done.
Qed.

Lemma root_of_inj fuel l l' : length l = length l' -> (length l <= fuel)%nat -> Forall word l -> Forall word l' -> root_of fuel l = root_of fuel l' ->
  l = l' \/ collides (level_inputs fuel l) (level_inputs fuel l').
Proof.
  revert l l'. induction fuel as [|fuel IH]; intros l l' Hlen Hl Hw Hw' E; [destruct l, l'; cbn in *; try lia; by left|].
  destruct l as [|a [|b l]], l' as [|a' [|b' l']]; try done; [by left|by cbn in E; subst; left|].
  cbn [root_of] in E. assert (Hl2 : length (pair_up (a :: b :: l)) = length (pair_up (a' :: b' :: l'))) by (by rewrite (pair_up_length (a :: b :: l)), (pair_up_length (a' :: b' :: l')), Hlen).
  cbn [level_inputs]. destruct (IH _ _ Hl2 (pair_up_shrinks a b l fuel Hl) (pair_up_words _) (pair_up_words _) E) as [E'|Hc].
  - destruct (pair_up_inj _ _ Hlen Hw Hw' E') as [->|Hc]; [by left|right]. refine (collides_mono _ _ _ _ _ _ Hc); apply sub_app_l.
  - right. refine (collides_mono _ _ _ _ _ _ Hc); apply sub_app_r.
Qed.

Lemma leaf_hash_inj (data data' : list (list Z)) : leaf_hash <$> data = leaf_hash <$> data' -> data = data' \/ collides data data'.
Proof.
  revert data'. induction data as [|d data IH]; intros [|d' data'] E; try done; [by left|]. injection E as E1 E2.
  destruct (hash_inj (d :: data) (d' :: data') _ _ (list_elem_of_here _ _) (list_elem_of_here _ _) E1) as [->|?]; [|by right].
  destruct (IH _ E2) as [->|Hc]; [by left|right]. refine (collides_mono _ _ _ _ _ _ Hc); apply sub_cons.
Qed.

(** ** Theorems *)

Lemma pow2_height n : (0 < n)%nat -> Z.of_nat n < 2 ^ 62 -> Z.log2_up (Z.of_nat n) < 63 /\ Z.of_nat n <= 2 ^ Z.log2_up (Z.of_nat n).
Proof.
  intros Hpos Hn. split; [|destruct (decide (n = 1%nat)) as [->|]; [done|apply Z.log2_up_spec; lia]].
  pose proof (Z.log2_up_le_mono (Z.of_nat n) (2 ^ 62) ltac:(lia)) as Hm. rewrite Z.log2_up_pow2 in Hm by lia. lia.
Qed.

Lemma int_small z : 0 <= z < 2 ^ 63 -> i64 z = z.
Proof. intros Hz. unfold i64. rewrite Z.mod_small; [lia|]. unfold two64. lia. Qed.

Lemma layout_length fuel base nodes : (length nodes <= length (layout fuel base nodes))%nat.
Proof. destruct fuel, nodes as [|a [|b nodes]]; cbn [layout]; try lia. rewrite length_app, with_parents_length. lia. Qed.

Lemma verify_path overflow data i leaf : data !! i = Some leaf -> Z.of_nat (length data) < 2 ^ 62 ->
  VerifyProof overflow (Z.of_nat i) leaf (path (length data) (leaf_hash <$> data) i) (merkle_root data) = if decide (leaf = []) then Err ErrEmptyLeaf else Ok ().
Proof.
  intros Hi Hlen. assert (Hil : (i < length data)%nat) by (by eapply lookup_lt_Some). unfold VerifyProof, VerifyProofUsing.
  destruct (Z.eqb_spec (Z.of_nat (length leaf)) 0) as [E|E]; [by destruct leaf|]. rewrite (decide_False (P := leaf = [])) by (by intros ->).
  destruct (pow2_height (length data) ltac:(lia) Hlen) as [Hh Hp].
  assert (Hdep : Z.of_nat (length (path (length data) (leaf_hash <$> data) i)) = Z.log2_up (Z.of_nat (length data))).
  { rewrite path_length, height_log by (rewrite ?length_fmap; by destruct data). by rewrite length_fmap. }
  unfold int_of_pow2. rewrite Hdep. rewrite (proj2 (Z.ltb_lt _ _) Hh), int_small by lia. rewrite (proj2 (Z.leb_gt _ _)) by lia.
  apply decide_True. unfold getProofHash, hasher_sum. cbn [app]. rewrite <- (keccak_hash leaf). symmetry.
  apply (proof_hash_path (length data) (leaf_hash <$> data) i (leaf_hash leaf)); [by rewrite list_lookup_fmap, Hi|by rewrite length_fmap].
Qed.

Lemma VerifyProof_hash overflow index leaf proof root : VerifyProof overflow index leaf proof root = Ok () ->
  proof_hash index (keccak256 leaf) proof = be_bytes 32 root.
Proof.
  unfold VerifyProof, VerifyProofUsing, getProofHash, hasher_sum. destruct (_ =? 0); [done|]. destruct (_ <=? _); [done|]. by destruct (decide _).
Qed.

(** C17. The Merkle tree proves its leaves: a tree of at least one and less than 2^62 leaves
    is made, unless a node below the root has the hash of the root the proof of a leaf is
    generated without a nil dereference, has as many hashes as the tree is deep, and is
    verified at the index of the first such leaf (an empty leaf is made but always refused);
    for other data both the index and the proof are refused. *)
Theorem merkle_proofs data overflow : data <> [] -> Z.of_nat (length data) < 2 ^ 62 -> merkle_root data ∉ below (length data) (leaf_hash <$> data) ->
  exists t, NewMerkleTree data = Some (Ok t) /\ mt_Hash t = Some (merkle_root data) /\ forall leaf,
  match list_find (fun d => d = leaf) data with
  | None => LeafIndex t leaf = Some (Err errLeafNotFound) /\ GenerateProof t leaf = Some (Err ErrNotInTree)
  | Some (i, _) => LeafIndex t leaf = Some (Ok (Z.of_nat i)) /\ exists proof,
      GenerateProof t leaf = Some (Ok proof) /\ Z.of_nat (length proof) = Depth t /\
      VerifyProof overflow (Z.of_nat i) leaf proof (merkle_root data) = if decide (leaf = []) then Err ErrEmptyLeaf else Ok ()
  end.
Proof.
  intros Hne Hlen Hbelow. destruct (NewMerkleTree_spec data [] Hne) as (t & Ht & Hof). exists t. split; [exact Ht|]. split; [apply Hof|]. intros leaf.
  pose proof (leaf_search t data Hof leaf [] data eq_refl ltac:(unfold two64; lia)) as Hs. cbn [length] in Hs. unfold LeafIndex, GenerateProof, findLeafNode.
  rewrite (to_leaves _ _ Hof). destruct (list_find (fun d => d = leaf) data) as [[i d]|] eqn:Ef; destruct Hs as [Hi Hf]; (split; [exact Hi|]); rewrite Hf; [|done].
  apply list_find_Some in Ef as (Hd & -> & _). rewrite (to_root _ _ Hof). cbn [mbind option_bind].
  assert (Hnl : length (leaf_node <$> data) = length data) by apply length_fmap.
  assert (Hh : (leaf_hash <$> data) !! i = Some (leaf_hash leaf)) by (by rewrite list_lookup_fmap, Hd).
  assert (Hc : climb (length (ar_nodes (mt_arena t))) t (merkle_root data) i [] = Some (path (length data) (leaf_hash <$> data) i)).
  { rewrite <- leaf_hashes. apply (climb_spec t (merkle_root data) (length data) _ [] (leaf_node <$> data) i []).
    - exact (to_nodes _ _ Hof).
    - rewrite (to_nodes _ _ Hof), Hnl. pose proof (layout_length (length data) 0 (leaf_node <$> data)). lia.
    - rewrite Hnl. by eapply lookup_lt_Some.
    - by rewrite leaf_hashes.
    - by rewrite leaf_hashes. }
  fold (merkle_root data). cbn [length Nat.add]. rewrite Hc. exists (path (length data) (leaf_hash <$> data) i). split; [done|]. split; [|by apply verify_path].
  rewrite path_length, height_log by (rewrite ?length_fmap; by destruct data). unfold Depth. by rewrite (to_leaves _ _ Hof), length_seq, length_fmap.
Qed.

(** C16. Merkle proofs are sound and roots commit to the leaves: a verified proof with as many
    hashes as the tree is deep is the proof of a leaf of the tree, namely the one at the index
    modulo 2^depth if the tree has it, unless a string hashed in the verification and a
    different one hashed when the tree was made have the same Keccak hash; and trees of
    equally many leaves with the same root have the same leaves, unless two different strings
    hashed when they were made have the same hash. *)
Theorem merkle_soundness data overflow t root : NewMerkleTree data = Some (Ok t) -> mt_Hash t = Some root ->
  (forall index leaf proof, is_u64 index -> Forall word proof -> Z.of_nat (length proof) = Depth t -> VerifyProof overflow index leaf proof root = Ok () ->
    collides (tree_inputs data) (verify_inputs index leaf proof) \/
    exists j, data !! j = Some leaf /\ (index mod 2 ^ Depth t < Z.of_nat (length data) -> Z.of_nat j = index mod 2 ^ Depth t)) /\
  (forall data' t', NewMerkleTree data' = Some (Ok t') -> length data' = length data -> mt_Hash t' = Some root ->
    collides (tree_inputs data) (tree_inputs data') \/ data' = data).
Proof.
  intros Ht Hroot. assert (Hne : data <> []) by (by intros ->).
  assert (Hof : forall d u, NewMerkleTree d = Some (Ok u) -> tree_of d u).
  { intros d u Hu. destruct (NewMerkleTree_spec d [] ltac:(by intros ->)) as (u' & Hu' & Hof). unfold NewMerkleTree in Hu. congruence. }
  pose proof (to_root _ _ (Hof _ _ Ht)) as Hr. assert (root = merkle_root data) as -> by (unfold merkle_root; congruence).
  assert (Hl : length (leaf_hash <$> data) = length data) by apply length_fmap. split.
  - intros index leaf proof Hi Hp Hlen Hv. apply VerifyProof_hash in Hv as E.
    assert (Hlen' : length proof = height (length data) (leaf_hash <$> data)).
    { apply Nat2Z.inj. rewrite Hlen, height_log by (rewrite ?Hl; by destruct data). unfold Depth. by rewrite (to_leaves _ _ (Hof _ _ Ht)), length_seq, Hl. }
    destruct (proof_sound (length data) (leaf_hash <$> data) index (keccak256 leaf) proof) as [Hc|(j & x & Hj & Hx & Hat)];
      try done; try apply keccak256_length; [apply Hi|apply leaf_words|by destruct data|by rewrite Hl|left; refine (collides_mono _ _ _ _ _ _ Hc); [apply sub_app_r|apply sub_cons]|].
    rewrite list_lookup_fmap in Hj. destruct (data !! j) as [d|] eqn:Ed; [|done]. apply (inj Some) in Hj as <-. unfold leaf_hash in Hx. rewrite keccak_hash in Hx. symmetry in Hx.
    destruct (keccak_inj (tree_inputs data) (verify_inputs index leaf proof) d leaf) as [->|?]; [apply sub_app_l; by eapply list_elem_of_lookup_2|apply list_elem_of_here|done| |by left].
    right. exists j. split; [done|]. rewrite <- Hlen. unfold at_index in Hat. by rewrite Hl in Hat.
  - intros data' t' Ht' Hl' Hr'. pose proof (to_root _ _ (Hof _ _ Ht')) as Hr2. rewrite Hl' in Hr2.
    assert (E2 : root_of (length data) (leaf_hash <$> data) = root_of (length data) (leaf_hash <$> data')) by (unfold merkle_root in Hr'; congruence).
    apply root_of_inj in E2 as [[->|Hc]%leaf_hash_inj|Hc]; [by right|left; refine (collides_mono _ _ _ _ _ _ Hc); apply sub_app_l|left; unfold tree_inputs; rewrite Hl'; refine (collides_mono _ _ _ _ _ _ Hc); apply sub_app_r| | |apply leaf_words..].
    + by rewrite !length_fmap.
    + by rewrite length_fmap.
Qed.

Lemma root_of_fuel fuel fuel' l : (length l <= fuel)%nat -> (length l <= fuel')%nat -> root_of fuel l = root_of fuel' l.
Proof.
  revert fuel' l. induction fuel as [|fuel IH]; intros fuel' l Hl Hl'; [destruct l; [|cbn in Hl; lia]; by destruct fuel'|].
  destruct l as [|a [|b l]]; [by destruct fuel'..|]. destruct fuel' as [|fuel']; [cbn in Hl'; lia|]. cbn [root_of].
  apply IH; by apply pair_up_shrinks.
Qed.

Lemma pair_up_repeat l x : Nat.even (length l) = true -> pair_up (l ++ [x]) = pair_up (l ++ [x; x]).
Proof. induction l as [| |a b l IH] using pairs_ind; intros He; [done..|]. cbn [app pair_up]. f_equal. by apply IH. Qed.

Lemma root_repeat data x : data <> [] -> Nat.even (length data) = true -> merkle_root (data ++ [x]) = merkle_root (data ++ [x; x]).
Proof.
  intros Hne He. unfold merkle_root. rewrite !fmap_app, !length_app. destruct data as [|a data]; [done|].
  assert (Hs : forall l, l <> [] -> root_of (length (a :: data) + length l) ((leaf_hash <$> a :: data) ++ l) =
    root_of (length data + length l) (pair_up ((leaf_hash <$> a :: data) ++ l))).
  { intros l Hl. cbn [length fmap list_fmap app Nat.add root_of]. destruct data; [by destruct l|done]. }
  etransitivity; [exact (Hs [leaf_hash x] ltac:(done))|]. etransitivity; [|symmetry; exact (Hs [leaf_hash x; leaf_hash x] ltac:(done))]. rewrite (pair_up_repeat _ (leaf_hash x)) by (by rewrite length_fmap).
  apply root_of_fuel; rewrite pair_up_length, length_app, length_fmap; cbn [length]; rewrite Nat.div2_div; apply Nat.lt_succ_r, Nat.Div0.div_lt_upper_bound;
    (destruct data; [done|cbn [length]; lia]).
Qed.

(** Only the lowest bits of the index matter. *)
Lemma proof_hash_mod index index' h proof : 0 <= index -> 0 <= index' ->
  index mod 2 ^ Z.of_nat (length proof) = index' mod 2 ^ Z.of_nat (length proof) -> proof_hash index h proof = proof_hash index' h proof.
Proof.
  revert index index' h. induction proof as [|p proof IH]; intros index index' h Hi Hi' E; [done|]. cbn [length] in E. rewrite !mod_pow2_S in E by done.
  pose proof (Z.mod_pos_bound index 2 ltac:(lia)). pose proof (Z.mod_pos_bound index' 2 ltac:(lia)). cbn [proof_hash].
  assert (index mod 2 = index' mod 2) as -> by lia. apply IH; [apply Z.div_pos; lia..|lia].
Qed.

(** C37. What a Merkle root leaves open, for all trees and proofs: the trees of a list of an
    odd number of at least three leaves and of the list with its last leaf repeated have the
    same root; the node above a verified leaf, given as what is hashed for it, is verified
    itself as a leaf by the rest of the proof; a proof verified at an index is verified at
    every index of 2^63 and more with the same lowest bits; a hasher that was written to is
    not reset, so what it holds counts as the beginning of the leaf; and where the conversion
    of 2^63 gives the least integer, proofs of 63 hashes and more are refused. *)
Theorem merkle_ambiguities data x overflow index leaf p proof root hasher :
  (data <> [] -> Nat.even (length data) = true -> exists t t', NewMerkleTree (data ++ [x]) = Some (Ok t) /\
    NewMerkleTree (data ++ [x; x]) = Some (Ok t') /\ mt_Hash t = mt_Hash t') /\
  (0 <= index < 2 ^ 63 -> (length proof < 62)%nat -> VerifyProof overflow index leaf (p :: proof) root = Ok () ->
    let node := if index mod 2 =? 0 then keccak256 leaf ++ be_bytes 32 p else be_bytes 32 p ++ keccak256 leaf in
    VerifyProof overflow (index / 2) node proof root = Ok ()) /\
  (0 <= index < 2 ^ 63 -> (length proof < 63)%nat -> VerifyProof overflow index leaf proof root = Ok () ->
    forall index', 2 ^ 63 <= index' < 2 ^ 64 -> index' mod 2 ^ Z.of_nat (length proof) = index ->
    VerifyProof overflow index' leaf proof root = Ok ()) /\
  (leaf <> [] -> VerifyProofUsing overflow index leaf proof root hasher = VerifyProof overflow index (hasher ++ leaf) proof root) /\
  (leaf <> [] -> (63 <= length proof)%nat -> VerifyProof (- 2 ^ 63) index leaf proof root = Err ErrInvalidIndex).
Proof.
  assert (Hempty : forall l : list Z, l <> [] -> (Z.of_nat (length l) =? 0) = false) by (intros [|? l] Hl; [done|apply Z.eqb_neq; cbn [length]; lia]).
  assert (Hpow : forall n, (n < 63)%nat -> int_of_pow2 overflow n = 2 ^ Z.of_nat n) by (intros n Hn; unfold int_of_pow2; by rewrite (proj2 (Z.ltb_lt _ _)) by lia).
  split; [|split; [|split; [|split]]].
  - intros Hne He. destruct (NewMerkleTree_spec (data ++ [x]) [] ltac:(by destruct data)) as (t & Ht & Hof).
    destruct (NewMerkleTree_spec (data ++ [x; x]) [] ltac:(by destruct data)) as (t' & Ht' & Hof'). exists t, t'. split; [exact Ht|]. split; [exact Ht'|].
    rewrite (to_root _ _ Hof), (to_root _ _ Hof'). f_equal. by apply root_repeat.
  - intros Hi Hlen Hv node. apply VerifyProof_hash in Hv as E. unfold VerifyProof, VerifyProofUsing in *. destruct (_ =? 0); [done|].
    rewrite Hpow in Hv by (cbn; lia). rewrite int_small in Hv by done. destruct (Z.leb_spec (2 ^ Z.of_nat (length (p :: proof))) index) as [|Hlt]; [done|].
    cbn [length] in Hlt. rewrite Nat2Z.inj_succ, Z.pow_succ_r in Hlt by lia. assert (Hd : 0 <= index / 2 < 2 ^ Z.of_nat (length proof)) by (split; [apply Z.div_pos|apply Z.div_lt_upper_bound]; lia).
    assert (Hn : node <> []).
    { unfold node. intros Hn. apply (f_equal length) in Hn. destruct (index mod 2 =? 0); rewrite length_app, keccak256_length, be_bytes_length in Hn; done. }
    rewrite Hempty, Hpow, int_small by (done || lia || (split; [lia|apply Z.le_lt_trans with index; [apply Z.div_le_upper_bound; lia|lia]])).
    rewrite (proj2 (Z.leb_gt _ _)) by lia. apply decide_True. rewrite <- E. reflexivity.
  - intros Hi Hlen Hv index' Hi' Em. apply VerifyProof_hash in Hv as E. unfold VerifyProof, VerifyProofUsing in *. destruct (_ =? 0); [done|]. rewrite Hpow by done.
    assert (Hneg : i64 index' = index' - two64).
    { unfold i64. replace (index' + 9223372036854775808) with (index' - 9223372036854775808 + 1 * two64) by (unfold two64; lia).
      rewrite Z_mod_plus_full, Z.mod_small by (unfold two64; lia). unfold two64. lia. }
    pose proof (Z.pow_nonneg 2 (Z.of_nat (length proof)) ltac:(lia)).
    rewrite Hneg, (proj2 (Z.leb_gt _ _)) by (unfold two64; lia). apply decide_True. unfold getProofHash, hasher_sum. cbn [app]. rewrite <- E.
    apply proof_hash_mod; [lia..|]. rewrite <- Em. by rewrite Zmod_mod.
  - intros Hl. unfold VerifyProof, VerifyProofUsing. rewrite !Hempty by (done || by destruct hasher). reflexivity.
  - intros Hl Hlen. unfold VerifyProof, VerifyProofUsing. rewrite Hempty by done. unfold int_of_pow2. destruct (Z.ltb_spec (Z.of_nat (length proof)) 63); [lia|].
    rewrite (proj2 (Z.leb_le _ _)); [done|]. pose proof (Z.mod_pos_bound (index + 9223372036854775808) two64 ltac:(done)). unfold i64. lia.
Qed.

End Merkle.

(** ** A tree of three leaves *)

#[local] Existing Instance ser_codec.
#[local] Existing Instance ser_codec_laws.

Definition sample_leaves : list (list Z) := [[1]; [2; 2]; [3]].

Lemma sample_root_apart : merkle_root sample_leaves ∉ below (length sample_leaves) (leaf_hash <$> sample_leaves).
Proof. apply (bool_decide_unpack _). vm_compute. exact I. Qed.

Lemma merkle_proofs_witness : exists t proof, NewMerkleTree sample_leaves = Some (Ok t) /\ LeafIndex t [3] = Some (Ok 2) /\
  GenerateProof t [3] = Some (Ok proof) /\ VerifyProof 0 2 [3] proof (merkle_root sample_leaves) = Ok ().
Proof.
  destruct (merkle_proofs sample_leaves 0) as (t & Ht & _ & Hl).
  - done.
  - done.
  - exact sample_root_apart.
  - destruct (Hl [3]) as (Hi & proof & Hg & _ & Hv). exists t, proof. split; [exact Ht|]. split; [exact Hi|]. split; [exact Hg|exact Hv].
Defined.

Definition two_leaves : list (list Z) := [[1]; [2; 2]].

Lemma sample_no_collision : ~ collides (tree_inputs two_leaves) (verify_inputs 1 [2; 2] (path 2 (leaf_hash <$> two_leaves) 1)).
Proof. apply (bool_decide_unpack _). vm_compute. exact I. Qed.

Lemma merkle_soundness_witness : exists t j, NewMerkleTree two_leaves = Some (Ok t) /\ two_leaves !! j = Some [2; 2] /\
  (1 mod 2 ^ Depth t < 2 -> Z.of_nat j = 1 mod 2 ^ Depth t).
Proof.
  destruct (NewMerkleTree_spec two_leaves [] ltac:(done)) as (t & Ht & Hof). exists t.
  destruct (proj1 (merkle_soundness two_leaves 0 t (merkle_root two_leaves) Ht (to_root _ _ Hof)) 1 [2; 2] (path 2 (leaf_hash <$> two_leaves) 1)) as [Hc|(j & Hj & Hat)].
  - unfold is_u64, two64. lia.
  - apply path_words, leaf_words.
  - unfold Depth. rewrite (to_leaves _ _ Hof). reflexivity.
  - exact (verify_path 0 two_leaves 1 [2; 2] eq_refl ltac:(done)).
  - destruct (sample_no_collision Hc).
  - exists j. split; [exact Ht|]. split; [exact Hj|exact Hat].
Defined.

Lemma merkle_ambiguities_witness : exists t t', NewMerkleTree [[1]; [2]; [3]] = Some (Ok t) /\ NewMerkleTree [[1]; [2]; [3]; [3]] = Some (Ok t') /\ mt_Hash t = mt_Hash t' /\
  VerifyProof 0 (2 ^ 63 + 2) [3] (path 3 (leaf_hash <$> sample_leaves) 2) (merkle_root sample_leaves) = Ok ().
Proof.
  destruct (merkle_ambiguities [[1]; [2]] [3] 0 2 [3] 0 (path 3 (leaf_hash <$> sample_leaves) 2) (merkle_root sample_leaves) []) as (H1 & _ & H3 & _).
  destruct (H1 ltac:(done) eq_refl) as (t & t' & Ht & Ht' & E). exists t, t'. split; [exact Ht|]. split; [exact Ht'|]. split; [exact E|].
  apply H3; [lia|cbn; lia|exact (verify_path 0 sample_leaves 2 [3] eq_refl ltac:(done))|lia|reflexivity].
Defined.
