(* ===== verification/VoteStore.v ===== *)
(** * Validators of the IBFT consensus ([validators])

    Validators with or without a BLS key, and sets of them in the order they were added. *)

From stdpp Require Import strings.
From S2P Require Import Prelude ChainTypes BigInt Receipts Rlp ChainRlp.
Inductive VoterErr :=
| ErrInvalidValidatorType | ErrMismatchValidatorType | ErrMismatchValidatorsType | ErrValidatorAlreadyExists | ErrValidatorNotFound
| ErrDecodeValidator | ErrInvalidNonce | ErrSnapshotNotFound | ErrUnauthorizedProposer | ErrIncorrectNonce | ErrAlreadyCandidate
| ErrCandidateIsValidator | ErrCandidateNotExistInSet | ErrAlreadyVoted | ErrMultipleVotesBySameValidator | ErrFromSigner | ErrNoSigner | ErrNoHeader.

Definition ECDSAValidatorType : string := "ecdsa".
Definition BLSValidatorType : string := "bls".

Inductive Validator := ECDSAValidator (addr : Address) | BLSValidator (addr : Address) (BLSPublicKey : list Z).

#[global] Instance Validator_eq_dec : EqDecision Validator.
Proof. solve_decision. Defined.

Definition NewValidatorFromType (t : string) : result VoterErr Validator :=
  if decide (t = ECDSAValidatorType) then Ok (ECDSAValidator ZeroAddress)
  else if decide (t = BLSValidatorType) then Ok (BLSValidator ZeroAddress [])
  else Err ErrInvalidValidatorType.

Definition val_Type (v : Validator) : string := match v with ECDSAValidator _ => ECDSAValidatorType | BLSValidator _ _ => BLSValidatorType end.

Definition Addr (v : Validator) : Address := match v with ECDSAValidator a => a | BLSValidator a _ => a end.

Definition val_Equal (v vr : Validator) : bool :=
  match v, vr with
  | ECDSAValidator a, ECDSAValidator b => a =? b
  | BLSValidator a k, BLSValidator b l => (a =? b) && bool_decide (k = l)
  | _, _ => false
  end.

(** ** Sets *)

Record VoterSet := mkVoterSet { set_Type : string; set_Validators : list Validator }.

Definition set_Len (s : VoterSet) : Z := Z.of_nat (length (set_Validators s)).

Fixpoint all_equal (l k : list Validator) : bool :=
  match l, k with
  | [], _ => true
  | v :: l, w :: k => val_Equal v w && all_equal l k
  | _, [] => false
  end.

Definition set_Equal (s ss : VoterSet) : bool :=
  if decide (set_Type s <> set_Type ss) then false
  else if negb (set_Len s =? set_Len ss) then false
  else all_equal (set_Validators s) (set_Validators ss).

Fixpoint index_from (i : Z) (addr : Address) (l : list Validator) : Z :=
  match l with
  | [] => -1
  | v :: l => if Addr v =? addr then i else index_from (i + 1) addr l
  end.

Definition set_Index (s : VoterSet) (addr : Address) : Z := index_from 0 addr (set_Validators s).

Definition set_Includes (s : VoterSet) (addr : Address) : bool := negb (set_Index s addr =? -1).

Definition set_Add (s : VoterSet) (v : Validator) : result VoterErr VoterSet :=
  if decide (set_Type s <> val_Type v) then Err ErrMismatchValidatorType
  else if set_Includes s (Addr v) then Err ErrValidatorAlreadyExists
  else Ok (mkVoterSet (set_Type s) (set_Validators s ++ [v])).

Definition set_Del (s : VoterSet) (v : Validator) : result VoterErr VoterSet :=
  if decide (set_Type s <> val_Type v) then Err ErrMismatchValidatorType
  else
    let index := set_Index s (Addr v) in
    if index =? -1 then Err ErrValidatorNotFound
    else Ok (mkVoterSet (set_Type s) (take (Z.to_nat index) (set_Validators s) ++ drop (Z.to_nat index + 1) (set_Validators s))).

(** The loop of [Merge]; what was added before an error remains. *)
Fixpoint merge_from (s : VoterSet) (l : list Validator) : VoterSet * result VoterErr () :=
  match l with
  | [] => (s, Ok ())
  | v :: l =>
      if set_Includes s (Addr v) then merge_from s l
      else match set_Add s v with Ok s => merge_from s l | Err e => (s, Err e) end
  end.

Definition set_Merge (s ss : VoterSet) : VoterSet * result VoterErr () :=
  if decide (set_Type s <> set_Type ss) then (s, Err ErrMismatchValidatorsType) else merge_from s (set_Validators ss).

(** ** RLP forms *)

Section Rlp.
Context `{Fastrlp}.

Definition val_MarshalRLPWith (v : Validator) : Value :=
  match v with
  | ECDSAValidator a => VBytes (be_bytes 20 a)
  | BLSValidator a k => VArray [VBytes (be_bytes 20 a); VBytes k]
  end.

(** Into a validator of the given kind. *)
Definition val_UnmarshalRLPFrom (into : Validator) (v : rlp) : Dec Validator :=
  match into with
  | ECDSAValidator _ => a ← lift (rlp_GetAddr v); mret (ECDSAValidator a)
  | BLSValidator _ _ =>
      elems ← GetElems v;
      _ ← atLeast 2 elems;
      a ← field rlp_GetAddr elems 0;
      k ← field rlp_GetBytes elems 1;
      mret (BLSValidator a k)
  end.

Definition val_Bytes (v : Validator) : list Z :=
  match v with ECDSAValidator a => be_bytes 20 a | BLSValidator _ _ => fastrlp_MarshalTo (val_MarshalRLPWith v) end.

Definition SetFromBytes (into : Validator) (input : list Z) : Dec Validator :=
  match into with
  | ECDSAValidator _ => mret (ECDSAValidator (BytesToAddress input))
  | BLSValidator _ _ => UnmarshalRlp (val_UnmarshalRLPFrom into) input
  end.

Definition set_MarshalRLPWith (s : VoterSet) : Value := VArray (val_MarshalRLPWith <$> set_Validators s).

Definition set_UnmarshalRLPFrom (t : string) (v : rlp) : option (result VoterErr VoterSet) :=
  r ← GetElems v;
  match r with
  | Err _ => Some (Err ErrDecodeValidator)
  | Ok elems =>
      match NewValidatorFromType t with
      | Err e => Some (if Z.of_nat (length elems) =? 0 then Ok (mkVoterSet t []) else Err e)
      | Ok into =>
          r ← each (val_UnmarshalRLPFrom into) elems;
          Some (match r with Ok l => Ok (mkVoterSet t l) | Err _ => Err ErrDecodeValidator end)
      end
  end.

End Rlp.

(** * Votes on validators ([validators/store/snapshot])

    Proposers vote in the headers of their blocks on who joins and leaves the validators of
    the IBFT consensus. A store keeps the set and the open votes after the blocks that
    changed them. [None] is a panic: an index out of range or an epoch of zero blocks. *)
Local Open Scope go_scope.

Definition preservedEpochs : Z := 2.
Definition nonceAuthVote : Z := two64 - 1.
Definition nonceDropVote : Z := 0.

Record Vote := mkVote { vt_Validator : Address; vt_Candidate : Validator; vt_Authorize : bool }.

Definition vote_Equal (v vv : Vote) : bool :=
  if negb (vt_Validator v =? vt_Validator vv) then false
  else if negb (val_Equal (vt_Candidate v) (vt_Candidate vv)) then false
  else Bool.eqb (vt_Authorize v) (vt_Authorize vv).

Record Candidate := mkCandidate { cd_Validator : Validator; cd_Authorize : bool }.

(** The text of the hash is the hash. *)
Record Snapshot := mkSnapshot { sn_Number : Z; sn_Hash : Hash; sn_Votes : list Vote; sn_Set : VoterSet }.

Record snapshotStore := mkStore { lastNumber : Z; snap_list : list Snapshot }.

(** [sort.Sort] by number, not guaranteed to be stable. *)
Class SnapshotSort := { sort_Sort : list Snapshot -> list Snapshot }.
Class SnapshotSortLaws `{SnapshotSort} := {
  sort_perm l : sort_Sort l ≡ₚ l;
  sort_sorted l : StronglySorted (fun s t => sn_Number s <= sn_Number t) (sort_Sort l);
}.

(** The signer of a height, and the chain. *)
Record Signer := mkSigner {
  signer_Type : string; EcrecoverFromHeader : Header -> result () Address; signer_GetValidators : Header -> result () VoterSet }.

(** ** Snapshots *)

Fixpoint votes_equal (l k : list Vote) : bool :=
  match l, k with
  | [], _ => true
  | v :: l, w :: k => vote_Equal v w && votes_equal l k
  | _, [] => false
  end.

Definition sn_Equal (s ss : Snapshot) : bool :=
  if negb (Z.of_nat (length (sn_Votes s)) =? Z.of_nat (length (sn_Votes ss))) then false
  else if negb (votes_equal (sn_Votes s) (sn_Votes ss)) then false
  else set_Equal (sn_Set s) (sn_Set ss).

Definition sn_Count (h : Vote -> bool) (s : Snapshot) : Z := Z.of_nat (length (filter (fun v => h v = true) (sn_Votes s))).

Definition with_votes (votes : list Vote) (s : Snapshot) : Snapshot := mkSnapshot (sn_Number s) (sn_Hash s) votes (sn_Set s).
Definition with_set (set : VoterSet) (s : Snapshot) : Snapshot := mkSnapshot (sn_Number s) (sn_Hash s) (sn_Votes s) set.

Definition AddVote (voter : Address) (candidate : Validator) (authorize : bool) (s : Snapshot) : Snapshot :=
  with_votes (sn_Votes s ++ [mkVote voter candidate authorize]) s.

(** Number and hash are not copied. *)
Definition sn_Copy (s : Snapshot) : Snapshot := mkSnapshot 0 ZeroHash (sn_Votes s) (sn_Set s).

Definition CountByVoterAndCandidate (voter : Address) (candidate : Validator) (s : Snapshot) : Z :=
  sn_Count (fun v => (vt_Validator v =? voter) && val_Equal (vt_Candidate v) candidate) s.

Definition CountByCandidate (candidate : Validator) (s : Snapshot) : Z := sn_Count (fun v => val_Equal (vt_Candidate v) candidate) s.

Definition RemoveVotes (shouldRemoveFn : Vote -> bool) (s : Snapshot) : Snapshot :=
  with_votes (filter (fun v => shouldRemoveFn v = false) (sn_Votes s)) s.

Definition RemoveVotesByVoter (address : Address) : Snapshot -> Snapshot := RemoveVotes (fun v => vt_Validator v =? address).
Definition RemoveVotesByCandidate (candidate : Validator) : Snapshot -> Snapshot := RemoveVotes (fun v => val_Equal (vt_Candidate v) candidate).

(** ** One vote *)

Definition isAuthorize (nonce : Z) : result VoterErr bool :=
  if nonce =? nonceAuthVote then Ok true else if nonce =? nonceDropVote then Ok false else Err ErrIncorrectNonce.

Definition shouldProcessVote (validators : VoterSet) (candidate : Address) (voteAction : bool) : bool :=
  negb (Bool.eqb voteAction (set_Includes validators candidate)).

Definition addsOrDelsCandidate (validators : VoterSet) (candidate : Validator) (updateAction : bool) : result VoterErr VoterSet :=
  if updateAction then set_Add validators candidate else set_Del validators candidate.

Section Votes.
Context `{Fastrlp} `{SnapshotSort}.

Definition validatorToMiner (validator : Validator) : list Z :=
  match validator with
  | ECDSAValidator a => be_bytes 20 a
  | BLSValidator _ _ => val_Bytes validator
  end.

Definition minerToValidator (validatorType : string) (miner : list Z) : option (result VoterErr Validator) :=
  match NewValidatorFromType validatorType with
  | Err e => Some (Err e)
  | Ok (ECDSAValidator _) => Some (Ok (ECDSAValidator (BytesToAddress miner)))
  | Ok validator =>
      r ← SetFromBytes validator miner;
      Some (match r with Ok v => Ok v | Err _ => Err ErrDecodeValidator end)
  end.

(** The vote for a candidate in the snapshot. *)
Definition cast_vote (snapshot : Snapshot) (candidate : Validator) (authorize : bool) (proposer : Address) : result VoterErr Snapshot :=
  if negb (shouldProcessVote (sn_Set snapshot) (Addr candidate) authorize) then Ok snapshot
  else
    let voteCount := CountByVoterAndCandidate proposer candidate snapshot in
    if 1 <? voteCount then Err ErrMultipleVotesBySameValidator
    else
      let snapshot := if voteCount =? 0 then AddVote proposer candidate authorize snapshot else snapshot in
      let totalVotes := CountByCandidate candidate snapshot in
      if set_Len (sn_Set snapshot) / 2 <? totalVotes then
        let? set := addsOrDelsCandidate (sn_Set snapshot) candidate authorize in
        let snapshot := with_set set snapshot in
        let snapshot := if authorize then snapshot else RemoveVotesByVoter (Addr candidate) snapshot in
        Ok (RemoveVotesByCandidate candidate snapshot)
      else Ok snapshot.

Definition processVote (snapshot : Snapshot) (header : Header) (candidateType : string) (proposer : Address) : option (result VoterErr Snapshot) :=
  match isAuthorize (h_Nonce header) with
  | Err e => Some (Err e)
  | Ok authorize =>
      r ← minerToValidator candidateType (h_Miner header);
      Some (let? candidate := r in cast_vote snapshot candidate authorize proposer)
  end.

(** ** The store *)

Definition updateLastBlock (num : Z) (s : snapshotStore) : snapshotStore := mkStore num (snap_list s).

(** [sort.Search]: a binary search for the least index with a monotone property. *)
Fixpoint search_from (fuel : nat) (f : nat -> bool) (i j : nat) : nat :=
  match fuel with
  | O => i
  | S fuel =>
      if (i <? j)%nat then
        let h := Nat.div2 (i + j) in
        if negb (f h) then search_from fuel f (S h) j else search_from fuel f i h
      else i
  end.

Definition sort_Search (n : nat) (f : nat -> bool) : nat := search_from n f 0 n.

(** The property of the element at an index below the length. *)
Definition number_at (l : list Snapshot) (p : Z -> bool) (i : nat) : bool := match l !! i with Some s => p (sn_Number s) | None => false end.

Definition store_find (num : Z) (s : snapshotStore) : option Snapshot :=
  last ← last (snap_list s);
  if sn_Number last <? num then Some last
  else
    let i := sort_Search (length (snap_list s)) (number_at (snap_list s) (fun n => num <=? n)) in
    found ← snap_list s !! i;
    if (i =? 0)%nat then Some found
    else if sn_Number found =? num then Some found
    else snap_list s !! pred i.

Definition store_add (snap : Snapshot) (s : snapshotStore) : snapshotStore := mkStore (lastNumber s) (sort_Sort (snap_list s ++ [snap])).

Definition putByNumber (snap : Snapshot) (s : snapshotStore) : snapshotStore :=
  let i := sort_Search (length (snap_list s)) (number_at (snap_list s) (fun n => n =? sn_Number snap)) in
  if (i <? length (snap_list s))%nat then mkStore (lastNumber s) (<[i := snap]> (snap_list s)) else store_add snap s.

Definition number_of (l : list Snapshot) (i : Z) : option Z := if i <? 0 then None else sn_Number <$> l !! Z.to_nat i.

Fixpoint closest_from (fuel : nat) (l : list Snapshot) (blockNum low high : Z) : option Z :=
  if low <=? high then
    match fuel with
    | O => None
    | S fuel =>
        let mid := (high + low) / 2 in
        n ← number_of l mid;
        if blockNum <? n then closest_from fuel l blockNum low (mid - 1)
        else if n <? blockNum then closest_from fuel l blockNum (mid + 1) high
        else Some mid
    end
  else
    above ← number_of l low;
    under ← number_of l high;
    Some (if above -u blockNum <? blockNum -u under then high else low).

Definition findClosestSnapshotIndex (blockNum : Z) (s : snapshotStore) : option Z :=
  first ← head (snap_list s);
  last ← last (snap_list s);
  let high := Z.of_nat (length (snap_list s)) - 1 in
  if blockNum <? sn_Number first then Some 0
  else if sn_Number last <? blockNum then Some high
  else closest_from (length (snap_list s)) (snap_list s) blockNum 0 high.

Definition deleteLower (num : Z) (s : snapshotStore) : option snapshotStore :=
  pruneIndex ← findClosestSnapshotIndex num s;
  Some (mkStore (lastNumber s) (drop (Z.to_nat pruneIndex) (snap_list s))).

Definition newSnapshotStore (metadata : option Z) (snapshots : list Snapshot) : snapshotStore :=
  fold_left (fun s snap => store_add snap s) snapshots (mkStore (default 0 metadata) []).

(** ** The validator store *)

Section Store.
Context (getSigner : Z -> result () (option Signer)) (GetHeaderByNumber : Z -> option Header) (epochSize : Z).

Record SnapshotValidatorStore := mkVStore { vst_store : snapshotStore; vst_candidates : list Candidate }.

Definition on_store (s : SnapshotValidatorStore) (store : snapshotStore) : SnapshotValidatorStore := mkVStore store (vst_candidates s).

Definition GetValidatorsByHeight (height : Z) (s : SnapshotValidatorStore) : result VoterErr VoterSet :=
  match store_find height (vst_store s) with None => Err ErrSnapshotNotFound | Some snapshot => Ok (sn_Set snapshot) end.

Definition store_Votes (height : Z) (s : SnapshotValidatorStore) : result VoterErr (list Vote) :=
  match store_find height (vst_store s) with None => Err ErrSnapshotNotFound | Some snapshot => Ok (sn_Votes snapshot) end.

Definition UpdateValidatorSet (newValidators : VoterSet) (fromHeight : Z) (s : SnapshotValidatorStore) : SnapshotValidatorStore * result VoterErr () :=
  match GetHeaderByNumber (fromHeight -u 1) with
  | None => (s, Err ErrNoHeader)
  | Some header => (on_store s (putByNumber (mkSnapshot (h_Number header) (h_Hash header) [] newValidators) (vst_store s)), Ok ())
  end.

Definition cleanObsoleteCandidates (set : VoterSet) (candidates : list Candidate) : list Candidate :=
  filter (fun c => cd_Authorize c <> set_Includes set (Addr (cd_Validator c))) candidates.

Fixpoint pickOneCandidate (snap : Snapshot) (proposer : Address) (candidates : list Candidate) : option Candidate :=
  match candidates with
  | [] => None
  | c :: candidates =>
      if sn_Count (fun v => (Addr (vt_Candidate v) =? Addr (cd_Validator c)) && (vt_Validator v =? proposer)) snap =? 0 then Some c
      else pickOneCandidate snap proposer candidates
  end.

Definition getNextCandidate (snap : Snapshot) (proposer : Address) (s : SnapshotValidatorStore) : SnapshotValidatorStore * option Candidate :=
  let candidates := cleanObsoleteCandidates (sn_Set snap) (vst_candidates s) in
  (mkVStore (vst_store s) candidates, pickOneCandidate snap proposer candidates).

Definition with_miner (miner : list Z) (nonce : Z) (h : Header) : Header :=
  mkHeader (h_ParentHash h) (h_Sha3Uncles h) miner (h_StateRoot h) (h_TxRoot h) (h_ReceiptsRoot h) (h_LogsBloom h) (h_Difficulty h)
    (h_Number h) (h_GasLimit h) (h_GasUsed h) (h_Timestamp h) (h_ExtraData h) (h_MixHash h) nonce (h_Hash h).

Definition ModifyHeader (header : Header) (proposer : Address) (s : SnapshotValidatorStore) : SnapshotValidatorStore * result VoterErr Header :=
  match store_find (h_Number header) (vst_store s) with
  | None => (s, Err ErrSnapshotNotFound)
  | Some snapshot =>
      let '(s, candidate) := getNextCandidate snapshot proposer s in
      (s, Ok (match candidate with
              | None => header
              | Some c => with_miner (validatorToMiner (cd_Validator c)) (if cd_Authorize c then nonceAuthVote else nonceDropVote) header
              end))
  end.

Definition VerifyHeader (header : Header) : result VoterErr () :=
  if negb (h_Nonce header =? nonceAuthVote) && negb (h_Nonce header =? nonceDropVote) then Err ErrInvalidNonce else Ok ().

Definition saveSnapshotIfChanged (parentSnapshot snapshot : Snapshot) (header : Header) (s : snapshotStore) : snapshotStore :=
  if sn_Equal snapshot parentSnapshot then s
  else store_add (mkSnapshot (h_Number header) (h_Hash header) (sn_Votes snapshot) (sn_Set snapshot)) s.

Definition resetSnapshot (parentSnapshot snapshot : Snapshot) (header : Header) (s : snapshotStore) : snapshotStore :=
  saveSnapshotIfChanged parentSnapshot (with_votes [] snapshot) header s.

Definition removeLowerSnapshots (currentHeight : Z) (s : snapshotStore) : option snapshotStore :=
  let currentEpoch := currentHeight / epochSize in
  if currentEpoch <? preservedEpochs then Some s
  else deleteLower ((currentEpoch - preservedEpochs) *u epochSize) s.

(** With an error the store is as it was. *)
Definition ProcessHeader (header : Header) (s : snapshotStore) : option (result VoterErr snapshotStore) :=
  match getSigner (h_Number header) with
  | Err _ => Some (Err ErrFromSigner)
  | Ok None => Some (Err ErrNoSigner)
  | Ok (Some signer) =>
      match EcrecoverFromHeader signer header with
      | Err _ => Some (Err ErrFromSigner)
      | Ok proposer =>
          match store_find (h_Number header -u 1) s with
          | None => Some (Err ErrSnapshotNotFound)
          | Some parentSnap =>
              if negb (set_Includes (sn_Set parentSnap) proposer) then Some (Err ErrUnauthorizedProposer)
              else
                let snap := sn_Copy parentSnap in
                if epochSize =? 0 then None
                else if h_Number header mod epochSize =? 0 then
                  s ← removeLowerSnapshots (h_Number header) (resetSnapshot parentSnap snap header s);
                  Some (Ok (updateLastBlock (h_Number header) s))
                else if decide (h_Miner header = replicate 20 0) then Some (Ok (updateLastBlock (h_Number header) s))
                else
                  r ← processVote snap header (signer_Type signer) proposer;
                  Some (let? snap := r in Ok (saveSnapshotIfChanged parentSnap snap header (updateLastBlock (h_Number header) s)))
          end
      end
  end.

(** The fuel is the number of headers; with an error the headers before it stay processed. *)
Fixpoint headers_in_range (fuel : nat) (i to : Z) (s : snapshotStore) : option (snapshotStore * result VoterErr ()) :=
  if i <=? to then
    match fuel with
    | O => None
    | S fuel =>
        if i =? 0 then headers_in_range fuel (i +u 1) to s
        else
          match GetHeaderByNumber i with
          | None => Some (s, Err ErrNoHeader)
          | Some header =>
              r ← ProcessHeader header s;
              match r with Err e => Some (s, Err e) | Ok s => headers_in_range fuel (i +u 1) to s end
          end
    end
  else Some (s, Ok ()).

Definition ProcessHeadersInRange (from to : Z) (s : snapshotStore) : option (snapshotStore * result VoterErr ()) :=
  headers_in_range (Z.to_nat (to - from + 1)) from to s.

Definition addHeaderSnap (header : Header) (s : snapshotStore) : result VoterErr snapshotStore :=
  match getSigner (h_Number header) with
  | Err _ => Err ErrFromSigner
  | Ok None => Err ErrNoSigner
  | Ok (Some signer) =>
      match signer_GetValidators signer header with
      | Err _ => Err ErrFromSigner
      | Ok validators => Ok (store_add (mkSnapshot (h_Number header) (h_Hash header) [] validators) s)
      end
  end.

(** [initialize] on the latest header. *)
Definition vs_initialize (header : Header) (s : snapshotStore) : option (result VoterErr snapshotStore) :=
  let meta := lastNumber s in
  match (if h_Number header =? 0 then addHeaderSnap header s else Ok s) with
  | Err e => Some (Err e)
  | Ok s =>
      if epochSize =? 0 then None
      else
        let currentEpoch := h_Number header / epochSize in
        let metaEpoch := meta / epochSize in
        let restored :=
          if match store_find (h_Number header) s with None => true | Some _ => metaEpoch <? currentEpoch end then
            let beginHeight := currentEpoch *u epochSize in
            match GetHeaderByNumber beginHeight with
            | None => Err ErrNoHeader
            | Some beginHeader => let? s := addHeaderSnap beginHeader s in Ok (updateLastBlock beginHeight s, beginHeight)
            end
          else Ok (s, meta) in
        match restored with
        | Err e => Some (Err e)
        | Ok (s, lastBlock) =>
            if lastBlock <? h_Number header then
              r ← ProcessHeadersInRange (lastBlock +u 1) (h_Number header) s;
              match r with (_, Err e) => Some (Err e) | (s, Ok _) => Some (Ok s) end
            else Some (Ok s)
        end
  end.

Definition NewSnapshotValidatorStore (latest : Header) (metadata : option Z) (snapshots : list Snapshot) : option (result VoterErr SnapshotValidatorStore) :=
  r ← vs_initialize latest (newSnapshotStore metadata snapshots);
  Some (let? s := r in Ok (mkVStore s [])).

Definition addCandidate (validators : VoterSet) (candidate : Validator) (authorize : bool) (s : SnapshotValidatorStore)
    : SnapshotValidatorStore * result VoterErr () :=
  if authorize then (mkVStore (vst_store s) (vst_candidates s ++ [mkCandidate candidate authorize]), Ok ())
  else
    match set_Validators validators !! Z.to_nat (set_Index validators (Addr candidate)) with
    | Some v => if set_Index validators (Addr candidate) =? -1 then (s, Err ErrCandidateNotExistInSet)
                else (mkVStore (vst_store s) (vst_candidates s ++ [mkCandidate v authorize]), Ok ())
    | None => (s, Err ErrCandidateNotExistInSet)
    end.

Definition Propose (candidate : Validator) (auth : bool) (proposer : Address) (s : SnapshotValidatorStore) : SnapshotValidatorStore * result VoterErr () :=
  if existsb (fun c => Addr (cd_Validator c) =? Addr candidate) (vst_candidates s) then (s, Err ErrAlreadyCandidate)
  else
    match store_find (lastNumber (vst_store s)) (vst_store s) with
    | None => (s, Err ErrSnapshotNotFound)
    | Some snap =>
        let included := set_Includes (sn_Set snap) (Addr candidate) in
        if auth && included then (s, Err ErrCandidateIsValidator)
        else if negb auth && negb included then (s, Err ErrCandidateNotExistInSet)
        else if CountByVoterAndCandidate proposer candidate snap =? 1 then (s, Err ErrAlreadyVoted)
        else addCandidate (sn_Set snap) candidate auth s
    end.

End Store.

End Votes.
