(* ===== verification/VoteSpec.v ===== *)
(** * Votes block by block

    What the validators and the open votes are after each block, without a store, and the
    invariant of this state: votes are those of current validators, at most one for each
    candidate, and none has a majority yet. *)

From stdpp Require Import strings.
From S2P Require Import Prelude ChainTypes BigInt Receipts Rlp ChainRlp VoteStore.
Local Open Scope go_scope.

(** ** Sets *)

Definition voters (s : VoterSet) : list Address := Addr <$> set_Validators s.

Lemma index_from_spec i a l : 0 <= i ->
  (index_from i a l = -1 /\ a ∉ Addr <$> l) \/
  (exists k pre v post, index_from i a l = i + Z.of_nat k /\ l = pre ++ v :: post /\ length pre = k /\ Addr v = a /\ a ∉ Addr <$> pre).
Proof.
  revert i. induction l as [|v l IH]; intros i Hi; cbn [index_from]; [left; split; [done|by apply not_elem_of_nil]|].
  destruct (Z.eqb_spec (Addr v) a) as [E|E].
  - right. exists 0%nat, [], v, l. split; [lia|]. split; [done|]. split; [done|]. split; [done|]. by apply not_elem_of_nil.
  - destruct (IH (i + 1) ltac:(lia)) as [[Hm Hn]|(k & pre & w & post & Hk & -> & Hl & Hw & Hn)].
    + left. split; [done|]. cbn. rewrite elem_of_cons. intros [->|?]; done.
    + right. exists (S k), (v :: pre), w, post. split; [lia|]. split; [done|]. split; [by cbn; rewrite Hl|]. split; [done|].
      cbn. rewrite elem_of_cons. intros [->|?]; done.
Qed.

Lemma Includes_spec s a : set_Includes s a = bool_decide (a ∈ voters s).
Proof.
  unfold set_Includes, set_Index, voters. destruct (index_from_spec 0 a (set_Validators s) ltac:(lia)) as [[-> Hn]|(k & pre & v & post & -> & -> & _ & <- & _)].
  - by rewrite bool_decide_eq_false_2.
  - rewrite bool_decide_eq_true_2 by (rewrite fmap_app, elem_of_app; right; by left). destruct (Z.eqb_spec (0 + Z.of_nat k) (-1)); [lia|done].
Qed.

Lemma val_Equal_spec v w : val_Equal v w = bool_decide (v = w).
Proof.
  destruct v as [a|a k], w as [b|b l]; cbn; try by rewrite bool_decide_eq_false_2.
  - destruct (Z.eqb_spec a b) as [->|?]; [by rewrite bool_decide_eq_true_2|rewrite bool_decide_eq_false_2; congruence].
  - destruct (Z.eqb_spec a b) as [->|?]; cbn; [|rewrite bool_decide_eq_false_2; congruence]. apply bool_decide_ext. split; congruence.
Qed.

Lemma all_equal_spec l k : length l = length k -> all_equal l k = bool_decide (l = k).
Proof.
  revert k. induction l as [|v l IH]; intros [|w k] Hl; try done. injection Hl as Hl. cbn. rewrite val_Equal_spec, IH by done.
  repeat case_bool_decide; subst; try done; congruence.
Qed.

Lemma set_Equal_spec s ss : set_Equal s ss = true <-> s = ss.
Proof.
  destruct s as [t l], ss as [t' l']. unfold set_Equal, set_Len. cbn [set_Type set_Validators]. case_decide as Ht; [split; congruence|]. subst t'.
  destruct (Z.eqb_spec (Z.of_nat (length l)) (Z.of_nat (length l'))) as [E|E]; cbn [negb]; [|split; [done|intros [= ->]; lia]].
  rewrite all_equal_spec by lia. rewrite bool_decide_eq_true. split; congruence.
Qed.

Lemma set_Add_spec s v : set_Type s = val_Type v -> Addr v ∉ voters s -> set_Add s v = Ok (mkVoterSet (set_Type s) (set_Validators s ++ [v])).
Proof.
  intros Ht Hn. unfold set_Add. rewrite decide_False by (intros H; by apply H). by rewrite Includes_spec, bool_decide_eq_false_2.
Qed.

Lemma filter_outside (a : Address) (l : list Validator) : a ∉ Addr <$> l -> filter (fun v => Addr v <> a) l = l.
Proof.
  induction l as [|v l IH]; intros Hn; [done|]. cbn in Hn. rewrite elem_of_cons in Hn. rewrite filter_cons, decide_True by (intros E; apply Hn; by left).
  f_equal. apply IH. intros H. apply Hn. by right.
Qed.

Lemma set_Del_spec s v : set_Type s = val_Type v -> Addr v ∈ voters s -> NoDup (voters s) ->
  set_Del s v = Ok (mkVoterSet (set_Type s) (filter (fun w => Addr w <> Addr v) (set_Validators s))).
Proof.
  intros Ht Hin Hnd. unfold set_Del. rewrite decide_False by (intros H; by apply H). unfold set_Index. unfold voters in *.
  destruct (index_from_spec 0 (Addr v) (set_Validators s) ltac:(lia)) as [[_ Hn]|(k & pre & w & post & -> & El & Hk & Ew & Hn)]; [done|].
  destruct (Z.eqb_spec (0 + Z.of_nat k) (-1)); [lia|]. do 2 f_equal. rewrite El in *. replace (Z.to_nat (0 + Z.of_nat k)) with k by lia. subst k.
  rewrite take_app_length, Nat.add_1_r. rewrite drop_app_ge, Nat.sub_succ_l, Nat.sub_diag by lia. cbn [drop].
  rewrite filter_app, filter_cons, decide_False by (intros H; by apply H).
  rewrite fmap_app in Hnd. cbn in Hnd. apply NoDup_app in Hnd as (_ & _ & Hnd). apply NoDup_cons in Hnd as [Hnp _]. rewrite Ew in Hnp.
  by rewrite !filter_outside.
Qed.

(** ** Counting votes *)

Definition count_votes (P : Vote -> Prop) `{forall v, Decision (P v)} (votes : list Vote) : Z := Z.of_nat (length (filter P votes)).

Lemma sn_Count_spec h (P : Vote -> Prop) `{forall v, Decision (P v)} s : (forall v, h v = true <-> P v) -> sn_Count h s = count_votes P (sn_Votes s).
Proof. intros Hp. unfold sn_Count, count_votes. f_equal. f_equal. by apply list_filter_iff. Qed.

Lemma RemoveVotes_spec h (P : Vote -> Prop) `{forall v, Decision (P v)} s : (forall v, h v = false <-> P v) -> RemoveVotes h s = with_votes (filter P (sn_Votes s)) s.
Proof. intros Hp. unfold RemoveVotes. f_equal. by apply list_filter_iff. Qed.

(** ** The state after a block *)

Record VoteState := mkVState { vs_set : VoterSet; vs_votes : list Vote }.

Definition content (s : Snapshot) : VoteState := mkVState (sn_Set s) (sn_Votes s).

Definition for_candidate (c : Validator) (v : Vote) : Prop := vt_Candidate v = c.
#[global] Instance for_candidate_dec c v : Decision (for_candidate c v).
Proof. unfold for_candidate. apply _. Defined.

Definition by_voter (p : Address) (c : Validator) (v : Vote) : Prop := vt_Validator v = p /\ vt_Candidate v = c.
#[global] Instance by_voter_dec p c v : Decision (by_voter p c v).
Proof. unfold by_voter. apply _. Defined.

(** The votes with the one of a voter, if it has not voted for the candidate before. *)
Definition with_vote (p : Address) (c : Validator) (auth : bool) (votes : list Vote) : list Vote :=
  if decide (Exists (by_voter p c) votes) then votes else votes ++ [mkVote p c auth].

Definition cast (st : VoteState) (c : Validator) (auth : bool) (p : Address) : VoteState :=
  let set := vs_set st in
  if bool_decide (Addr c ∈ voters set) then if auth then st else
    let votes := with_vote p c auth (vs_votes st) in
    if set_Len set / 2 <? count_votes (for_candidate c) votes then
      mkVState (mkVoterSet (set_Type set) (filter (fun w => Addr w <> Addr c) (set_Validators set)))
        (filter (fun v => ~ for_candidate c v) (filter (fun v => vt_Validator v <> Addr c) votes))
    else mkVState set votes
  else if auth then
    let votes := with_vote p c auth (vs_votes st) in
    if set_Len set / 2 <? count_votes (for_candidate c) votes then
      mkVState (mkVoterSet (set_Type set) (set_Validators set ++ [c])) (filter (fun v => ~ for_candidate c v) votes)
    else mkVState set votes
  else st.

Record votes_ok (t : string) (st : VoteState) : Prop := {
  vo_type : set_Type (vs_set st) = t;
  vo_types : Forall (fun v => val_Type v = t) (set_Validators (vs_set st));
  vo_nodup : NoDup (voters (vs_set st));
  vo_votes : Forall (fun v => vt_Validator v ∈ voters (vs_set st) /\ val_Type (vt_Candidate v) = t) (vs_votes st);
  vo_once : NoDup ((fun v => (vt_Validator v, vt_Candidate v)) <$> vs_votes st) }.

(** For candidates without keys: votes are for what is not the case yet. *)
Definition votes_open (st : VoteState) : Prop :=
  Forall (fun v => vt_Authorize v = negb (bool_decide (Addr (vt_Candidate v) ∈ voters (vs_set st)))) (vs_votes st).

Lemma filter_votes_nil (P : Vote -> Prop) `{forall v, Decision (P v)} (l : list Vote) : (forall v, v ∈ l -> ~ P v) -> filter P l = [].
Proof.
  induction l as [|v l IH]; intros Hn; [done|]. rewrite filter_cons, decide_False by (apply Hn; by left). apply IH. intros w Hw. apply Hn. by right.
Qed.

Lemma once_count t st p c : votes_ok t st ->
  count_votes (by_voter p c) (vs_votes st) = if decide (Exists (by_voter p c) (vs_votes st)) then 1 else 0.
Proof.
  intros Hok. pose proof (vo_once _ _ Hok) as Hnd. unfold count_votes. induction (vs_votes st) as [|v l IH]; [done|].
  cbn in Hnd. apply NoDup_cons in Hnd as [Hv Hnd]. rewrite filter_cons. destruct (decide (by_voter p c v)) as [Hb|Hb].
  - rewrite decide_True by (by left). assert (filter (by_voter p c) l = []) as ->; [|done]. apply filter_votes_nil.
    intros w Hw [Hp Hc]. apply Hv. destruct Hb as [<- <-]. rewrite <- Hp, <- Hc. by apply (list_elem_of_fmap_2 (fun v => (vt_Validator v, vt_Candidate v))).
  - rewrite (IH Hnd). destruct (decide (Exists (by_voter p c) l)) as [He|He].
    + by rewrite decide_True by (by right).
    + rewrite decide_False; [done|]. intros [?|?]%Exists_cons; done.
Qed.

Lemma with_vote_ok t st p c auth : votes_ok t st -> p ∈ voters (vs_set st) -> val_Type c = t -> votes_ok t (mkVState (vs_set st) (with_vote p c auth (vs_votes st))).
Proof.
  intros [Ht Hts Hnd Hv Ho] Hp Hc. unfold with_vote. case_decide as He; [by split|]. split; cbn; try done.
  - apply Forall_app. split; [done|]. by apply List.Forall_cons; [|apply List.Forall_nil].
  - rewrite fmap_app. apply NoDup_app. split; [done|]. split; [|by apply NoDup_singleton]. intros x Hx Hx'%list_elem_of_singleton. subst x. apply He.
    apply list_elem_of_fmap in Hx as (v & [= E1 E2] & Hin). apply Exists_exists. exists v. by split.
Qed.

Lemma filter_voters a s : voters (mkVoterSet (set_Type s) (filter (fun w => Addr w <> a) (set_Validators s))) = filter (fun x => x <> a) (voters s).
Proof. unfold voters. cbn. induction (set_Validators s) as [|v l IH]; [done|]. cbn [fmap list_fmap]. rewrite !filter_cons. case_decide; cbn [fmap list_fmap]; by rewrite IH. Qed.

Lemma votes_sub t set votes votes' : votes_ok t (mkVState set votes) -> votes' `sublist_of` votes -> votes_ok t (mkVState set votes').
Proof.
  intros [Ht Hts Hnd Hv Ho] Hs. split; cbn in *; try done; [|eapply sublist_NoDup; [exact Ho|by apply fmap_sublist]].
  apply list.Forall_forall. intros v Hin. rewrite list.Forall_forall in Hv. apply Hv. eapply elem_of_submseteq; [exact Hin|by apply sublist_submseteq].
Qed.

(** A change of the set that keeps the voters of the remaining votes. *)
Lemma change_set t set set' votes votes' : votes_ok t (mkVState set votes) -> set_Type set' = t -> Forall (fun v => val_Type v = t) (set_Validators set') ->
  NoDup (voters set') -> votes' `sublist_of` votes -> (forall v, v ∈ votes' -> vt_Validator v ∈ voters set -> vt_Validator v ∈ voters set') ->
  votes_ok t (mkVState set' votes').
Proof.
  intros Hok Ht Hts Hnd Hs Hv. destruct (votes_sub _ _ _ _ Hok Hs) as [_ _ _ Hvotes Ho]. split; cbn in *; try done.
  rewrite list.Forall_forall in *. intros v Hin. destruct (Hvotes v Hin). split; [by apply Hv|done].
Qed.

Lemma cast_ok t st p c auth : votes_ok t st -> p ∈ voters (vs_set st) -> val_Type c = t -> votes_ok t (cast st c auth p).
Proof.
  intros Hok Hp Hc. pose proof (with_vote_ok t st p c auth Hok Hp Hc) as Hw. pose proof Hok as [Ht Hts Hnd _ _]. unfold cast.
  case_bool_decide as Hin; destruct auth; try done; destruct (_ <? _); try done.
  - apply (change_set t _ _ _ _ Hw); cbn [set_Type set_Validators].
    + done.
    + apply Forall_forall. intros v [_ Hv]%list_elem_of_filter. rewrite Forall_forall in Hts. by apply Hts.
    + rewrite filter_voters. by apply NoDup_filter.
    + etrans; apply sublist_filter.
    + intros v [_ [Hv _]%list_elem_of_filter]%list_elem_of_filter Hvs. rewrite filter_voters. by apply list_elem_of_filter.
  - apply (change_set t _ _ _ _ Hw); cbn [set_Type set_Validators].
    + done.
    + apply Forall_app. split; [done|]. by apply List.Forall_cons; [|apply List.Forall_nil].
    + unfold voters. cbn [set_Validators]. rewrite fmap_app. apply NoDup_app. split; [done|]. split; [|by apply NoDup_singleton].
      intros x Hx Hx'%list_elem_of_singleton. by subst x.
    + apply sublist_filter.
    + intros v _ Hv. unfold voters. cbn [set_Validators]. rewrite fmap_app, elem_of_app. by left.
Qed.

Lemma with_vote_elem p c auth votes v : v ∈ with_vote p c auth votes -> v ∈ votes \/ v = mkVote p c auth.
Proof. unfold with_vote. case_decide; [by left|]. intros [?|?%list_elem_of_singleton]%elem_of_app; [by left|by right]. Qed.

(** With ECDSA validators a candidate is its address. *)
Lemma ecdsa_addr c d : val_Type c = ECDSAValidatorType -> val_Type d = ECDSAValidatorType -> Addr c = Addr d -> c = d.
Proof. destruct c, d; cbn; intros; try done; congruence. Qed.

Lemma cast_open st p c auth : votes_ok ECDSAValidatorType st -> val_Type c = ECDSAValidatorType -> votes_open st -> votes_open (cast st c auth p).
Proof.
  intros Hok Hc Ho. assert (Hfor : forall v, v ∈ vs_votes st -> val_Type (vt_Candidate v) = ECDSAValidatorType).
  { intros v Hv. pose proof (vo_votes _ _ Hok) as Hf. rewrite Forall_forall in Hf. by apply Hf. }
  unfold votes_open in *. rewrite list.Forall_forall in Ho. unfold cast.
  case_bool_decide as Hin; destruct auth; try (by apply list.Forall_forall); destruct (_ <? _); cbn [vs_set vs_votes]; apply list.Forall_forall; intros v Hv.
  - apply list_elem_of_filter in Hv as [Hne Hv]. apply list_elem_of_filter in Hv as [_ Hv]. apply with_vote_elem in Hv as [Hv| ->]; [|by destruct Hne].
    rewrite (Ho v Hv). f_equal. rewrite filter_voters. apply bool_decide_ext. rewrite list_elem_of_filter. split; [|tauto]. intros Hx. split; [|done].
    intros E. apply Hne. apply ecdsa_addr; [by apply Hfor|done|done].
  - apply with_vote_elem in Hv as [Hv| ->]; [by apply Ho|]. cbn. by rewrite bool_decide_eq_true_2.
  - apply list_elem_of_filter in Hv as [Hne Hv]. apply with_vote_elem in Hv as [Hv| ->]; [|by destruct Hne].
    rewrite (Ho v Hv). f_equal. unfold voters. cbn. apply bool_decide_ext. rewrite fmap_app, elem_of_app. split; [by left|]. intros [?|Hx]; [done|].
    cbn in Hx. apply list_elem_of_singleton in Hx. destruct Hne. apply ecdsa_addr; [by apply Hfor|done|done].
  - apply with_vote_elem in Hv as [Hv| ->]; [by apply Ho|]. cbn. by rewrite bool_decide_eq_false_2.
Qed.

(** ** The code casts votes like this *)

Lemma Count_by_voter p c s : CountByVoterAndCandidate p c s = count_votes (by_voter p c) (sn_Votes s).
Proof. apply sn_Count_spec. intros v. rewrite val_Equal_spec, andb_true_iff, Z.eqb_eq, bool_decide_eq_true. done. Qed.

Lemma Count_by_candidate c s : CountByCandidate c s = count_votes (for_candidate c) (sn_Votes s).
Proof. apply sn_Count_spec. intros v. by rewrite val_Equal_spec, bool_decide_eq_true. Qed.

Lemma cast_vote_spec t s p c auth : votes_ok t (content s) -> val_Type c = t ->
  exists s', cast_vote s c auth p = Ok s' /\ content s' = cast (content s) c auth p.
Proof.
  intros Hok Hc. pose proof Hok as [Ht _ Hnd _ _]. cbn in Ht, Hnd. unfold cast_vote, shouldProcessVote. rewrite Includes_spec, Count_by_voter.
  pose proof (once_count t (content s) p c Hok) as Hcnt. cbn [vs_votes content] in Hcnt. rewrite Hcnt.
  assert (Hwv : (if (if decide (Exists (by_voter p c) (sn_Votes s)) then 1 else 0) =? 0 then AddVote p c auth s else s) = with_votes (with_vote p c auth (sn_Votes s)) s).
  { unfold with_vote. case_decide; cbn; [by destruct s|done]. }
  rewrite Hwv. replace (1 <? _) with false by (by case_decide). rewrite Count_by_candidate. unfold cast. cbn [vs_set vs_votes content sn_Set sn_Votes with_votes].
  case_bool_decide as Hin; destruct auth; cbn [Bool.eqb negb]; try (by eexists); destruct (_ <? _); try (by eexists); unfold addsOrDelsCandidate.
  - rewrite set_Del_spec by congruence. cbn. unfold RemoveVotesByCandidate, RemoveVotesByVoter.
    rewrite (RemoveVotes_spec (fun v => vt_Validator v =? Addr c) (fun v => vt_Validator v <> Addr c)) by (intros v; by rewrite Z.eqb_neq).
    rewrite (RemoveVotes_spec (fun v => val_Equal (vt_Candidate v) c) (fun v => ~ for_candidate c v)) by (intros v; by rewrite val_Equal_spec, bool_decide_eq_false). by eexists.
  - rewrite set_Add_spec by congruence. cbn. unfold RemoveVotesByCandidate.
    rewrite (RemoveVotes_spec (fun v => val_Equal (vt_Candidate v) c) (fun v => ~ for_candidate c v)) by (intros v; by rewrite val_Equal_spec, bool_decide_eq_false). by eexists.
Qed.

(** ** Headers *)

Section Replay.
Context `{Fastrlp}.

Ltac decoded := eexists; split; [reflexivity|]; by intros c [=<-].

Lemma minerToValidator_safe t miner : exists r, minerToValidator t miner = Some r /\ forall c, r = Ok c -> val_Type c = t.
Proof.
  unfold minerToValidator, NewValidatorFromType. case_decide as E1; [decoded|]. case_decide as E2; [|decoded].
  unfold SetFromBytes, UnmarshalRlp. destruct (fastrlp_Parse miner) as [[b|elems]|]; [decoded| |decoded].
  destruct elems as [|x [|y elems]]; [decoded..|]. cbn. unfold Dec_bind, field, elem. cbn.
  destruct (rlp_GetAddr x); [|decoded]. destruct (rlp_GetBytes y); decoded.
Qed.

Context (getSigner : Z -> result () (option Signer)) (epochSize : Z).

(** One header, on the state after its parent. *)
Definition apply_header (header : Header) (st : VoteState) : option (result VoterErr VoteState) :=
  match getSigner (h_Number header) with
  | Err _ => Some (Err ErrFromSigner)
  | Ok None => Some (Err ErrNoSigner)
  | Ok (Some signer) =>
      match EcrecoverFromHeader signer header with
      | Err _ => Some (Err ErrFromSigner)
      | Ok proposer =>
          if bool_decide (proposer ∉ voters (vs_set st)) then Some (Err ErrUnauthorizedProposer)
          else if h_Number header mod epochSize =? 0 then Some (Ok (mkVState (vs_set st) []))
          else if decide (h_Miner header = replicate 20 0) then Some (Ok st)
          else
            match isAuthorize (h_Nonce header) with
            | Err e => Some (Err e)
            | Ok authorize =>
                r ← minerToValidator (signer_Type signer) (h_Miner header);
                Some (let? candidate := r in Ok (cast st candidate authorize proposer))
            end
      end
  end.

Context (t : string) (Htype : forall n signer, getSigner n = Ok (Some signer) -> signer_Type signer = t).

Lemma apply_header_ok header st st' : votes_ok t st -> apply_header header st = Some (Ok st') ->
  votes_ok t st' /\ (t = ECDSAValidatorType -> votes_open st -> votes_open st').
Proof using Htype.
  intros Hok. unfold apply_header. destruct (getSigner (h_Number header)) as [[signer|]|] eqn:Es; [|done..]. pose proof (Htype _ _ Es) as Ht.
  destruct (EcrecoverFromHeader signer header) as [p|]; [|done]. case_bool_decide as Hp; [done|].
  destruct (_ =? 0); [|case_decide; [|destruct (isAuthorize (h_Nonce header)) as [auth|]; [|done]]].
  - intros [= <-]. split; [|by intros; apply List.Forall_nil]. destruct Hok as [? ? ? _ _]. split; try done; apply List.Forall_nil || apply NoDup_nil_2.
  - by intros [= <-].
  - destruct (minerToValidator_safe (signer_Type signer) (h_Miner header)) as (r & -> & Hr). cbn [mbind option_bind]. destruct r as [c|]; [|done]. intros [= <-].
    specialize (Hr c eq_refl). split; [apply cast_ok; congruence|]. intros -> Ho. apply cast_open; congruence.
Qed.

End Replay.
