(* ===== verification/VoteProps.v ===== *)
(** * Properties of the votes on validators

    The store of snapshots answers like the replay of all headers, down to the oldest
    snapshot it keeps; validators change by majorities of the current ones. *)

From stdpp Require Import strings.
From S2P Require Import Prelude ChainTypes BigInt Receipts Rlp ChainRlp TrieSample VoteStore VoteSpec.
Local Open Scope go_scope.

(** ** Searches *)

Lemma search_from_spec n fuel f i j : (i <= j <= n)%nat -> (j - i <= fuel)%nat -> (forall a b, (a <= b < n)%nat -> f a = true -> f b = true) ->
  let r := search_from fuel f i j in (i <= r <= j)%nat /\ (forall k, (i <= k < r)%nat -> f k = false) /\ ((r < j)%nat -> f r = true).
Proof.
  intros Hij Hf Hmono. revert i j Hij Hf. induction fuel as [|fuel IH]; intros i j Hij Hf; cbn [search_from].
  - split; [lia|]. split; [lia|]. lia.
  - destruct (Nat.ltb_spec i j) as [L|L]; [|split; [lia|]; split; lia]. set (h := Nat.div2 (i + j)).
    assert (Hh : (i <= h < j)%nat) by (unfold h; rewrite Nat.div2_div; split; [apply Nat.div_le_lower_bound|apply Nat.Div0.div_lt_upper_bound]; lia).
    destruct (f h) eqn:Eh; cbn [negb].
    + destruct (IH i h ltac:(lia) ltac:(lia)) as (Hr & Hbelow & Hat). split; [lia|]. split; [done|]. intros Hlt.
      destruct (decide (search_from fuel f i h < h)%nat) as [|Hge]; [by apply Hat|]. eapply (Hmono h); [lia|exact Eh].
    + destruct (IH (S h) j ltac:(lia) ltac:(lia)) as (Hr & Hbelow & Hat). split; [lia|]. split; [|done]. intros k Hk.
      destruct (decide (k <= h)%nat) as [Hle|Hgt]; [|apply Hbelow; lia]. destruct (f k) eqn:Ek; [|done]. rewrite (Hmono k h ltac:(lia) Ek) in Eh. done.
Qed.

(** Snapshots by increasing number. *)
Definition increasing (l : list Snapshot) : Prop := StronglySorted (fun s t => sn_Number s < sn_Number t) l.

Lemma increasing_lookup l i j s t : increasing l -> l !! i = Some s -> l !! j = Some t -> (i < j)%nat -> sn_Number s < sn_Number t.
Proof.
  intros Hs. revert i j. induction Hs as [|x l Hl IH Hx]; intros i j Hi Hj Hij; [done|]. destruct j as [|j]; [lia|]. cbn in Hj.
  destruct i as [|i]; cbn in Hi; [|eapply IH; [done|done|lia]]. simplify_eq. rewrite list.Forall_forall in Hx. apply Hx. by eapply list_elem_of_lookup_2.
Qed.

Lemma increasing_app l k : increasing (l ++ k) -> increasing l /\ increasing k.
Proof.
  induction l as [|x l IH]; cbn; intros Hs; [split; [constructor|done]|]. inversion Hs as [|?? Hl Hx]; subst. destruct (IH Hl). split; [|done].
  constructor; [done|]. by apply Forall_app in Hx as [? _].
Qed.

Lemma increasing_snoc l x : increasing l -> (forall s, s ∈ l -> sn_Number s < sn_Number x) -> increasing (l ++ [x]).
Proof.
  intros Hs Hx. induction Hs as [|y l Hl IH Hy]; cbn; [repeat constructor|]. constructor; [apply IH; intros s Hin; apply Hx; by right|].
  apply Forall_app. split; [done|]. constructor; [apply Hx; by left|constructor].
Qed.

(** The sorted permutation of increasing snapshots is themselves. *)
Lemma sorted_unique l k : increasing l -> k ≡ₚ l -> StronglySorted (fun s t => sn_Number s <= sn_Number t) k -> k = l.
Proof.
  intros Hl. revert k. induction Hl as [|x l Hl IH Hx]; intros k Hp Hk; [by apply Permutation_nil_r in Hp|]. rewrite list.Forall_forall in Hx.
  destruct k as [|y k]; [by apply Permutation_nil_l in Hp|]. inversion Hk as [|?? Hk' Hy]; subst. rewrite list.Forall_forall in Hy.
  assert (y = x) as ->.
  { assert (Hin : y ∈ x :: l) by (rewrite <- Hp; by left). apply elem_of_cons in Hin as [|Hin]; [done|].
    assert (Hin' : x ∈ y :: k) by (rewrite Hp; by left). apply elem_of_cons in Hin' as [|Hin']; [done|]. specialize (Hx y Hin). specialize (Hy x Hin'). lia. }
  f_equal. apply IH; [by apply Permutation_cons_inv in Hp|done].
Qed.

(** The last snapshot up to a number. *)
Definition latest_upto (num : Z) (l : list Snapshot) : option Snapshot := last (filter (fun s => sn_Number s <= num) l).

Lemma filter_le_all num (l : list Snapshot) : (forall s, s ∈ l -> sn_Number s <= num) -> filter (fun s => sn_Number s <= num) l = l.
Proof.
  induction l as [|x l IH]; intros Hx; [done|]. rewrite filter_cons, decide_True by (apply Hx; by left). f_equal. apply IH. intros s Hs. apply Hx. by right.
Qed.

Lemma filter_le_none num (l : list Snapshot) : (forall s, s ∈ l -> num < sn_Number s) -> filter (fun s => sn_Number s <= num) l = [].
Proof.
  induction l as [|x l IH]; intros Hx; [done|]. rewrite filter_cons, decide_False by (specialize (Hx x ltac:(by left)); lia). apply IH. intros s Hs. apply Hx. by right.
Qed.

Lemma increasing_last l z x : increasing l -> last l = Some z -> x ∈ l -> sn_Number x <= sn_Number z.
Proof.
  intros Hs Hz Hx. rewrite last_lookup in Hz. apply list_elem_of_lookup_1 in Hx as [i Hi]. pose proof (lookup_lt_Some _ _ _ Hi).
  destruct (decide (i = pred (length l))) as [->|]; [assert (x = z) by congruence; subst; lia|].
  pose proof (increasing_lookup l i (pred (length l)) x z Hs Hi Hz ltac:(lia)). lia.
Qed.

Lemma increasing_first l z x : increasing l -> head l = Some z -> x ∈ l -> sn_Number z <= sn_Number x.
Proof.
  intros Hs Hz Hx. destruct Hs as [|y l Hl Hy]; [done|]. cbn in Hz. simplify_eq. apply elem_of_cons in Hx as [->|Hx]; [lia|].
  rewrite list.Forall_forall in Hy. specialize (Hy x Hx). lia.
Qed.

Lemma search_number num l z : increasing l -> last l = Some z -> num <= sn_Number z ->
  exists i found, sort_Search (length l) (number_at l (fun n => num <=? n)) = i /\ l !! i = Some found /\ num <= sn_Number found /\
  forall s, s ∈ take i l -> sn_Number s < num.
Proof.
  intros Hs Hz Hnum. unfold sort_Search. rewrite last_lookup in Hz.
  destruct (search_from_spec (length l) (length l) (number_at l (fun n => num <=? n)) 0 (length l) ltac:(lia) ltac:(lia)) as (Hr & Hbelow & Hat).
  { intros a b [Hab Hb]. unfold number_at. destruct (l !! a) as [x|] eqn:Ea; [|done]. destruct (lookup_lt_is_Some_2 l b Hb) as [y Ey]. rewrite Ey, !Z.leb_le.
    destruct (decide (a = b)) as [->|]; [by simplify_eq|]. pose proof (increasing_lookup l a b x y Hs Ea Ey ltac:(lia)). lia. }
  set (i := search_from _ _ _ _) in *. pose proof (lookup_lt_Some _ _ _ Hz) as Hpos.
  assert (Hi : (i < length l)%nat).
  { destruct (decide (i < length l)%nat) as [|Hge]; [done|]. specialize (Hbelow (pred (length l)) ltac:(lia)). unfold number_at in Hbelow. rewrite Hz in Hbelow.
    apply Z.leb_gt in Hbelow. lia. }
  destruct (lookup_lt_is_Some_2 l i Hi) as [found Ef]. exists i, found. split; [done|]. split; [done|].
  specialize (Hat Hi). unfold number_at in Hat. rewrite Ef in Hat. apply Z.leb_le in Hat. split; [done|].
  intros s [k Hk]%list_elem_of_lookup_1. apply lookup_take_Some in Hk as [Hk Hki]. specialize (Hbelow k ltac:(lia)). unfold number_at in Hbelow. rewrite Hk in Hbelow.
  by apply Z.leb_gt in Hbelow.
Qed.

Lemma store_find_spec num s : increasing (snap_list s) ->
  store_find num s = match latest_upto num (snap_list s) with Some x => Some x | None => head (snap_list s) end.
Proof.
  destruct s as [n l]. unfold store_find, latest_upto. cbn [snap_list]. intros Hs. destruct (last l) as [z|] eqn:El; [|by apply last_None in El as ->]. cbn [mbind option_bind].
  destruct (Z.ltb_spec (sn_Number z) num) as [L|L].
  - rewrite filter_le_all; [by rewrite El|]. intros x Hx. pose proof (increasing_last l z x Hs El Hx). lia.
  - destruct (search_number num l z Hs El L) as (i & found & -> & Ef & Hf & Hbelow). rewrite Ef. cbn [mbind option_bind].
    rewrite <- (take_drop_middle l i found Ef) at 2. rewrite filter_app, filter_le_all by (intros s Hin; specialize (Hbelow s Hin); lia).
    rewrite filter_cons, filter_le_none.
    2: { intros s [k Hk]%list_elem_of_lookup_1. rewrite lookup_drop in Hk. pose proof (increasing_lookup l i _ found s Hs Ef Hk ltac:(lia)). lia. }
    destruct (Nat.eqb_spec i 0) as [->|Hi].
    + cbn [take app]. rewrite head_lookup, Ef. by case_decide.
    + destruct (Z.eqb_spec (sn_Number found) num) as [E|E]; [rewrite decide_True by lia; by rewrite last_snoc|rewrite decide_False by lia].
      rewrite app_nil_r, last_lookup, length_take. pose proof (lookup_lt_Some _ _ _ Ef). rewrite Nat.min_l by lia.
      destruct (lookup_lt_is_Some_2 l (pred i) ltac:(lia)) as [w Hw]. rewrite lookup_take_lt by lia. by rewrite Hw.
Qed.

(** The other search ends at an index of the list. *)
Lemma number_of_lookup l i : 0 <= i < Z.of_nat (length l) -> exists s, l !! Z.to_nat i = Some s /\ number_of l i = Some (sn_Number s).
Proof.
  intros Hi. destruct (lookup_lt_is_Some_2 l (Z.to_nat i) ltac:(lia)) as [s Hs]. exists s. split; [done|]. unfold number_of.
  destruct (Z.ltb_spec i 0); [lia|]. by rewrite Hs.
Qed.

Lemma closest_from_spec fuel l num low high : increasing l -> 0 <= low -> high < Z.of_nat (length l) -> low <= high + 1 -> high - low < Z.of_nat fuel ->
  (exists s, l !! 0%nat = Some s /\ sn_Number s <= num) -> (exists s, last l = Some s /\ num <= sn_Number s) ->
  (forall i s, l !! i = Some s -> Z.of_nat i < low -> sn_Number s < num) -> (forall i s, l !! i = Some s -> high < Z.of_nat i -> num < sn_Number s) ->
  exists i, closest_from fuel l num low high = Some i /\ 0 <= i < Z.of_nat (length l).
Proof.
  intros Hs. revert low high. induction fuel as [|fuel IH]; intros low high Hlow Hhigh Hlh Hfuel Hfirst Hlast Hbelow Habove.
  all: cbn [closest_from]; destruct (Z.leb_spec low high) as [L|L]; try lia.
  2: { set (mid := (high + low) / 2). assert (Hmid : low <= mid <= high) by (unfold mid; split; [apply Z.div_le_lower_bound|apply Z.div_le_upper_bound]; lia).
    destruct (number_of_lookup l mid ltac:(lia)) as (s & Es & ->). cbn [mbind option_bind]. destruct (Z.ltb_spec num (sn_Number s)) as [L1|L1].
    - apply IH; try lia; try done. intros i x Hx Hi. destruct (decide (i = Z.to_nat mid)) as [->|]; [by simplify_eq|].
      pose proof (increasing_lookup l (Z.to_nat mid) i s x Hs Es Hx ltac:(lia)). lia.
    - destruct (Z.ltb_spec (sn_Number s) num) as [L2|L2]; [|exists mid; split; [done|lia]]. apply IH; try lia; try done. intros i x Hx Hi.
      destruct (decide (i = Z.to_nat mid)) as [->|]; [by simplify_eq|]. pose proof (increasing_lookup l i (Z.to_nat mid) x s Hs Hx Es ltac:(lia)). lia. }
  all: destruct Hfirst as (s0 & E0 & H0), Hlast as (sn & En & Hn); rewrite last_lookup in En; pose proof (lookup_lt_Some _ _ _ En).
  all: assert (0 <= high) by (destruct (Z.lt_ge_cases high 0); [|done]; specialize (Habove 0%nat s0 E0 ltac:(lia)); lia).
  all: assert (low < Z.of_nat (length l)) by (destruct (Z.lt_ge_cases low (Z.of_nat (length l))); [done|]; specialize (Hbelow _ _ En ltac:(lia)); lia).
  all: destruct (number_of_lookup l low ltac:(lia)) as (x & _ & ->), (number_of_lookup l high ltac:(lia)) as (y & _ & ->); cbn [mbind option_bind].
  all: eexists; split; [done|]; destruct (_ <? _); lia.
Qed.

Lemma deleteLower_spec num s : increasing (snap_list s) -> snap_list s <> [] ->
  exists i, deleteLower num s = Some (mkStore (lastNumber s) (drop i (snap_list s))) /\ (i < length (snap_list s))%nat.
Proof.
  intros Hs Hne. unfold deleteLower, findClosestSnapshotIndex. destruct (snap_list s) as [|x l] eqn:E; [done|]. cbn [head mbind option_bind].
  destruct (last (x :: l)) as [z|] eqn:El; [|by apply last_None in El]. cbn [mbind option_bind].
  destruct (Z.ltb_spec num (sn_Number x)); [exists 0%nat; split; [done|cbn; lia]|].
  destruct (Z.ltb_spec (sn_Number z) num); [cbn [mbind option_bind]; eexists; split; [done|cbn [length]; lia]|].
  destruct (closest_from_spec (length (x :: l)) (x :: l) num 0 (Z.of_nat (length (x :: l)) - 1)) as (i & -> & Hi); try lia; try done.
  - by exists x.
  - by exists z.
  - intros i s' Hi Hlt. apply lookup_lt_Some in Hi. lia.
  - cbn [mbind option_bind]. eexists; split; [done|lia].
Qed.

(** ** The store and the states after the blocks *)

Section Store.
Context `{Fastrlp} `{SnapshotSort} {Hsort : SnapshotSortLaws}.

Record store_ok (sts : list VoteState) (s : snapshotStore) : Prop := {
  so_last : lastNumber s = Z.of_nat (length sts) - 1;
  so_increasing : increasing (snap_list s);
  so_some : snap_list s <> [];
  so_states x : x ∈ snap_list s -> 0 <= sn_Number x /\ sts !! Z.to_nat (sn_Number x) = Some (content x);
  so_cover k x : head (snap_list s) = Some x -> sn_Number x <= k < Z.of_nat (length sts) ->
    exists y, latest_upto k (snap_list s) = Some y /\ sts !! Z.to_nat k = Some (content y) }.

Lemma store_find_ok sts s k x : store_ok sts s -> head (snap_list s) = Some x -> 0 <= k < Z.of_nat (length sts) ->
  exists y, store_find k s = Some y /\ sts !! Z.to_nat (Z.max k (sn_Number x)) = Some (content y).
Proof.
  intros Hok Hx Hk. rewrite store_find_spec by apply Hok. destruct (Z.le_gt_cases (sn_Number x) k) as [L|L].
  - destruct (so_cover _ _ Hok k x Hx ltac:(lia)) as (y & -> & Hy). exists y. by rewrite Z.max_l.
  - unfold latest_upto. rewrite filter_le_none. 2: { intros y Hy. pose proof (increasing_first _ x y (so_increasing _ _ Hok) Hx Hy). lia. }
    cbn. rewrite Hx. exists x. split; [done|]. rewrite Z.max_r by lia. apply (so_states _ _ Hok). destruct (snap_list s); [done|]. cbn in Hx. simplify_eq. by left.
Qed.

Lemma store_numbers sts s x : store_ok sts s -> x ∈ snap_list s -> sn_Number x < Z.of_nat (length sts).
Proof. intros Hok Hx. destruct (so_states _ _ Hok x Hx) as [? E]. apply lookup_lt_Some in E. lia. Qed.

(** A new block without a change, and with one. *)
Lemma store_same sts s st n : store_ok sts s -> last sts = Some st -> n = Z.of_nat (length sts) -> store_ok (sts ++ [st]) (updateLastBlock n s).
Proof.
  intros Hok Hst ->. split; cbn [updateLastBlock lastNumber snap_list].
  - rewrite length_app. cbn. lia.
  - apply Hok.
  - apply Hok.
  - intros x Hx. destruct (so_states _ _ Hok x Hx) as [? E]. split; [done|]. rewrite lookup_app_l; [done|by eapply lookup_lt_Some].
  - intros k x Hx Hk. rewrite length_app in Hk. cbn in Hk. destruct (Z.lt_ge_cases k (Z.of_nat (length sts))) as [L|L].
    + destruct (so_cover _ _ Hok k x Hx ltac:(lia)) as (y & Hy & E). exists y. split; [done|]. rewrite lookup_app_l; [done|by eapply lookup_lt_Some].
    + assert (Hin : x ∈ snap_list s) by (destruct (snap_list s); [done|]; cbn in Hx; simplify_eq; by left). pose proof (store_numbers _ _ _ Hok Hin).
      destruct (so_cover _ _ Hok (Z.of_nat (length sts) - 1) x Hx ltac:(lia)) as (y & Hy & E). exists y. split.
      * rewrite <- Hy. unfold latest_upto. rewrite !filter_le_all; [done|..]; intros z Hz; pose proof (store_numbers _ _ _ Hok Hz); lia.
      * rewrite last_lookup in Hst. replace (Z.to_nat k) with (length sts) by lia. rewrite list_lookup_middle by done.
        replace (Z.to_nat (Z.of_nat (length sts) - 1)) with (pred (length sts)) in E by lia. congruence.
Qed.

Lemma store_grow sts s x n : store_ok sts s -> sn_Number x = Z.of_nat (length sts) -> n = Z.of_nat (length sts) ->
  store_ok (sts ++ [content x]) (store_add x (updateLastBlock n s)).
Proof.
  intros Hok Hx ->. assert (Hinc : increasing (snap_list s ++ [x])).
  { apply increasing_snoc; [apply Hok|]. intros y Hy. rewrite Hx. by eapply store_numbers. }
  assert (Esort : sort_Sort (snap_list s ++ [x]) = snap_list s ++ [x]) by (apply sorted_unique; [done|apply sort_perm|apply sort_sorted]).
  unfold store_add. split; cbn [updateLastBlock lastNumber snap_list]; rewrite ?Esort.
  - rewrite length_app. cbn. lia.
  - done.
  - by destruct (snap_list s).
  - intros y [Hy| ->%list_elem_of_singleton]%elem_of_app.
    + destruct (so_states _ _ Hok y Hy) as [? E]. split; [done|]. rewrite lookup_app_l; [done|by eapply lookup_lt_Some].
    + split; [lia|]. apply list_lookup_middle. lia.
  - intros k y Hy Hk. rewrite length_app in Hk. cbn in Hk. unfold latest_upto. rewrite filter_app. destruct (Z.lt_ge_cases k (Z.of_nat (length sts))) as [L|L].
    + rewrite (filter_le_none k [x]), app_nil_r by (intros z ->%list_elem_of_singleton; lia).
      pose proof (so_some _ _ Hok). destruct (snap_list s) as [|z l] eqn:El; [done|]. cbn in Hy. simplify_eq. rewrite <- El in *.
      destruct (so_cover _ _ Hok k y ltac:(by rewrite El) ltac:(lia)) as (w & Hw & E). exists w. split; [done|]. rewrite lookup_app_l; [done|by eapply lookup_lt_Some].
    + exists x. split; [|replace (Z.to_nat k) with (length sts) by lia; by apply list_lookup_middle].
      rewrite (filter_le_all k [x]) by (intros z ->%list_elem_of_singleton; lia). apply last_snoc.
Qed.

(** Dropping the oldest snapshots. *)
Lemma store_drop sts s i : store_ok sts s -> (i < length (snap_list s))%nat -> store_ok sts (mkStore (lastNumber s) (drop i (snap_list s))).
Proof.
  intros Hok Hi. destruct (lookup_lt_is_Some_2 _ _ Hi) as [z Hz]. pose proof (drop_S _ _ _ Hz) as Hd. split; cbn [lastNumber snap_list].
  - apply Hok.
  - pose proof (so_increasing _ _ Hok) as Hs. rewrite <- (take_drop i (snap_list s)) in Hs. by apply increasing_app in Hs as [_ ?].
  - by rewrite Hd.
  - intros x Hx. apply (so_states _ _ Hok). rewrite <- (take_drop i (snap_list s)). apply elem_of_app. by right.
  - intros k x Hx Hk. rewrite Hd in Hx. cbn in Hx. simplify_eq. pose proof (so_some _ _ Hok).
    destruct (head (snap_list s)) as [x0|] eqn:E0; [|by destruct (snap_list s)].
    assert (Hle : sn_Number x0 <= sn_Number x) by (eapply increasing_first; [apply Hok|done|by eapply list_elem_of_lookup_2]).
    destruct (so_cover _ _ Hok k x0 E0 ltac:(lia)) as (y & Hy & E). exists y. split; [|done]. rewrite <- Hy. unfold latest_upto.
    rewrite <- (take_drop i (snap_list s)) at 2. rewrite filter_app, last_app.
    destruct (last (filter (fun s0 => sn_Number s0 <= k) (drop i (snap_list s)))) eqn:El; [done|]. apply last_None in El.
    rewrite Hd, filter_cons, decide_True in El by lia. done.
Qed.

(** ** Processing a header *)

Lemma sn_Equal_spec s ss : sn_Equal s ss = true <-> content s = content ss.
Proof.
  assert (Hv : forall v w, vote_Equal v w = true <-> v = w).
  { intros [p c b] [p' c' b']. unfold vote_Equal. cbn. rewrite val_Equal_spec. destruct (Z.eqb_spec p p') as [->|]; cbn; [|split; congruence].
    case_bool_decide; cbn; [subst|split; congruence]. rewrite Bool.eqb_true_iff. split; congruence. }
  assert (Hl : forall l k, length l = length k -> votes_equal l k = true <-> l = k).
  { induction l as [|v l IH]; intros [|w k] Hlen; try done. cbn. rewrite andb_true_iff, Hv, IH by (cbn in Hlen; lia). split; [intros [-> ->]; done|intros [= -> ->]; done]. }
  destruct s as [n h votes set], ss as [n' h' votes' set']. unfold sn_Equal, content. cbn.
  destruct (Z.eqb_spec (Z.of_nat (length votes)) (Z.of_nat (length votes'))) as [E|E]; cbn; [|split; [done|intros [= -> ->]; lia]].
  specialize (Hl votes votes' ltac:(lia)). destruct (votes_equal votes votes'); cbn.
  - rewrite set_Equal_spec. rewrite (proj1 Hl eq_refl). split; [by intros ->|by intros [= ->]].
  - split; [done|]. intros [= _ Ev]. by apply Hl in Ev.
Qed.

Context (getSigner : Z -> result () (option Signer)) (epochSize : Z) (t : string).
Context (Htype : forall n signer, getSigner n = Ok (Some signer) -> signer_Type signer = t) (Hepoch : 0 < epochSize).

Lemma save_ok sts s parent snap header st : store_ok sts s -> last sts = Some (content parent) -> content snap = st ->
  h_Number header = Z.of_nat (length sts) ->
  store_ok (sts ++ [st]) (saveSnapshotIfChanged parent snap header (updateLastBlock (h_Number header) s)).
Proof using Hsort.
  intros Hok Hlast <- Hn. unfold saveSnapshotIfChanged. destruct (sn_Equal snap parent) eqn:E.
  - apply sn_Equal_spec in E. rewrite E. by apply store_same.
  - exact (store_grow sts s (mkSnapshot (h_Number header) (h_Hash header) (sn_Votes snap) (sn_Set snap)) (h_Number header) Hok Hn Hn).
Qed.

Lemma save_updated parent snap header s : updateLastBlock (h_Number header) (saveSnapshotIfChanged parent snap header s) = saveSnapshotIfChanged parent snap header (updateLastBlock (h_Number header) s).
Proof. unfold saveSnapshotIfChanged. by destruct (sn_Equal snap parent). Qed.

Lemma ProcessHeader_spec sts s st header : store_ok sts s -> last sts = Some st -> votes_ok t st -> h_Number header = Z.of_nat (length sts) -> h_Number header < two64 ->
  match apply_header getSigner epochSize header st with
  | Some (Ok st') => exists s', ProcessHeader getSigner epochSize header s = Some (Ok s') /\ store_ok (sts ++ [st']) s'
  | Some (Err e) => ProcessHeader getSigner epochSize header s = Some (Err e)
  | None => False
  end.
Proof using Hsort Htype Hepoch.
  intros Hok Hlast Hvotes Hn Hlt. unfold apply_header, ProcessHeader. destruct (getSigner (h_Number header)) as [[signer|]|] eqn:Es; [|done..].
  destruct (EcrecoverFromHeader signer header) as [p|]; [|done]. pose proof (so_some _ _ Hok) as Hne. destruct (head (snap_list s)) as [x|] eqn:Ex; [|by destruct (snap_list s)].
  assert (Hx : x ∈ snap_list s) by (destruct (snap_list s); [done|]; cbn in Ex; simplify_eq; by left).
  pose proof (store_numbers _ _ _ Hok Hx). pose proof (proj1 (so_states _ _ Hok x Hx)). rewrite u64_small by lia.
  destruct (store_find_ok sts s (h_Number header - 1) x Hok Ex ltac:(lia)) as (parent & -> & Hp). rewrite Z.max_l in Hp by lia.
  rewrite last_lookup in Hlast. replace (Z.to_nat (h_Number header - 1)) with (pred (length sts)) in Hp by lia.
  assert (st = content parent) as -> by congruence. rewrite <- last_lookup in Hlast. rewrite Includes_spec. cbn [vs_set content].
  destruct (decide (p ∈ voters (sn_Set parent))) as [Hin|Hin]; [rewrite bool_decide_eq_false_2, bool_decide_eq_true_2 by tauto|by rewrite bool_decide_eq_true_2, bool_decide_eq_false_2]. cbn [negb].
  destruct (Z.eqb_spec epochSize 0); [lia|]. destruct (_ =? 0).
  - unfold resetSnapshot, removeLowerSnapshots. destruct (_ <? _); cbn [mbind option_bind].
    + eexists. split; [done|]. rewrite save_updated. by apply save_ok.
    + pose proof (save_ok sts s parent (with_votes [] (sn_Copy parent)) header (mkVState (sn_Set parent) []) Hok Hlast eq_refl Hn) as Hs.
      rewrite <- save_updated in Hs. set (s1 := saveSnapshotIfChanged _ _ _ _) in *.
      destruct (deleteLower_spec ((h_Number header / epochSize - preservedEpochs) *u epochSize) s1 (so_increasing _ _ Hs) (so_some _ _ Hs)) as (i & -> & Hi).
      cbn [mbind option_bind]. eexists. split; [done|]. exact (store_drop _ _ i Hs Hi).
  - case_decide; [eexists; split; [done|]; by apply store_same|]. unfold processVote. destruct (isAuthorize (h_Nonce header)) as [auth|e]; [|done].
    destruct (minerToValidator_safe (signer_Type signer) (h_Miner header)) as (r & -> & Hr). cbn [mbind option_bind]. destruct r as [c|e]; [|done].
    destruct (cast_vote_spec t (sn_Copy parent) p c auth) as (snap & -> & Hsnap); [done|by rewrite Hr, (Htype _ _ Es)|].
    eexists. split; [done|]. by apply save_ok.
Qed.

(** ** Ranges of headers *)

(** The states after the headers, up to the first error. *)
Fixpoint replay (hs : list Header) (sts : list VoteState) (st : VoteState) : option (list VoteState * result VoterErr ()) :=
  match hs with
  | [] => Some (sts, Ok ())
  | h :: hs =>
      r ← apply_header getSigner epochSize h st;
      match r with Ok st' => replay hs (sts ++ [st']) st' | Err e => Some (sts, Err e) end
  end.

Definition numbered (i : nat) (hs : list Header) : Prop := forall j h, hs !! j = Some h -> h_Number h = Z.of_nat (i + j).

Lemma numbered_cons i h hs : numbered i (h :: hs) -> h_Number h = Z.of_nat i /\ numbered (S i) hs.
Proof. intros Hn. split; [rewrite (Hn 0%nat h eq_refl); lia|]. intros j x Hx. rewrite (Hn (S j) x Hx). lia. Qed.

Lemma replay_prefix hs sts st sts' r : replay hs sts st = Some (sts', r) -> exists new, sts' = sts ++ new.
Proof.
  revert sts st. induction hs as [|h hs IH]; cbn; intros sts st E; [exists []; rewrite app_nil_r; congruence|].
  destruct (apply_header getSigner epochSize h st) as [[st'|e]|]; cbn in E; [|exists []; rewrite app_nil_r; congruence|done].
  destruct (IH _ _ E) as [new ->]. exists ([st'] ++ new). by rewrite app_assoc.
Qed.

Context (GetHeaderByNumber : Z -> option Header).

Lemma headers_in_range_spec hs sts s st fuel : store_ok sts s -> last sts = Some st -> votes_ok t st -> numbered (length sts) hs -> (length hs <= fuel)%nat ->
  (forall j h, hs !! j = Some h -> GetHeaderByNumber (Z.of_nat (length sts + j)) = Some h) -> Z.of_nat (length sts + length hs) < two64 ->
  exists s' sts' r, headers_in_range getSigner GetHeaderByNumber epochSize fuel (Z.of_nat (length sts)) (Z.of_nat (length sts + length hs) - 1) s = Some (s', r) /\
  replay hs sts st = Some (sts', r) /\ store_ok sts' s' /\ Forall (votes_ok t) (drop (length sts) sts').
Proof using Hsort Htype Hepoch.
  revert sts s st fuel. induction hs as [|h hs IH]; intros sts s st fuel Hok Hlast Hvotes Hn Hf Hget Hlt.
  - exists s, sts, (Ok ()). split; [|split; [done|split; [done|rewrite drop_all; apply List.Forall_nil]]].
    destruct fuel; cbn [headers_in_range]; rewrite (proj2 (Z.leb_gt _ _)) by (cbn; lia); done.
  - destruct fuel as [|fuel]; [cbn in Hf; lia|]. apply numbered_cons in Hn as [Hh Hn]. cbn [length] in *. cbn [headers_in_range replay].
    assert (Hpos : (0 < length sts)%nat) by (destruct sts; [done|cbn; lia]).
    rewrite (proj2 (Z.leb_le _ _)) by lia. rewrite (proj2 (Z.eqb_neq _ _)) by lia. pose proof (Hget 0%nat h eq_refl) as Hg. rewrite Nat.add_0_r in Hg. rewrite Hg.
    pose proof (ProcessHeader_spec sts s st h Hok Hlast Hvotes Hh ltac:(lia)) as Hp. destruct (apply_header getSigner epochSize h st) as [[st'|e]|] eqn:Ea; [| |done].
    + destruct Hp as (s1 & -> & Hok1). cbn [mbind option_bind]. destruct (apply_header_ok getSigner epochSize t Htype h st st' Hvotes Ea) as [Hv1 _].
      assert (El : length (sts ++ [st']) = S (length sts)) by (rewrite length_app; cbn; lia).
      destruct (IH (sts ++ [st']) s1 st' fuel Hok1 ltac:(apply last_snoc) Hv1) as (s' & sts' & r & Hr1 & Hr2 & Hr3 & Hr4); rewrite ?El; try lia.
      * done.
      * intros j x Hx. specialize (Hget (S j) x Hx). by replace (S (length sts) + j)%nat with (length sts + S j)%nat by lia.
      * exists s', sts', r. rewrite El in Hr1, Hr4. rewrite u64_small by lia. replace (Z.of_nat (length sts) + 1) with (Z.of_nat (S (length sts))) by lia.
        replace (length sts + S (length hs))%nat with (S (length sts) + length hs)%nat by lia. split; [done|]. split; [done|]. split; [done|].
        destruct (replay_prefix _ _ _ _ _ Hr2) as [new ->]. rewrite <- app_assoc, drop_app_length. rewrite drop_app_ge in Hr4 by lia.
        replace (S (length sts) - length (sts ++ [st']))%nat with 0%nat in Hr4 by lia. by constructor.
    + rewrite Hp. cbn [mbind option_bind]. exists s, sts, (Err e). split; [done|]. split; [done|]. split; [done|]. rewrite drop_all. apply List.Forall_nil.
Qed.

(** ** The first block *)

Definition genesis_state (g : VoterSet) : VoteState := mkVState g [].

Definition genesis_ok (genesis : Header) (g : VoterSet) : Prop :=
  h_Number genesis = 0 /\ (exists signer, getSigner 0 = Ok (Some signer) /\ signer_GetValidators signer genesis = Ok g) /\
  set_Type g = t /\ Forall (fun v => val_Type v = t) (set_Validators g) /\ NoDup (voters g).

Lemma genesis_votes genesis g : genesis_ok genesis g -> votes_ok t (mkVState g []).
Proof. intros (_ & _ & ? & ? & ?). split; try done; (apply List.Forall_nil || apply NoDup_nil_2). Qed.

Lemma genesis_store genesis g : genesis_ok genesis g -> exists s,
  NewSnapshotValidatorStore getSigner GetHeaderByNumber epochSize genesis None [] = Some (Ok (mkVStore s [])) /\ store_ok [mkVState g []] s.
Proof using Hsort Hepoch.
  intros (Hn & (signer & Hs & Hg) & _). set (x := mkSnapshot 0 (h_Hash genesis) [] g).
  assert (Esort : sort_Sort [x] = [x]) by (apply sorted_unique; [repeat constructor|apply sort_perm|apply sort_sorted]).
  exists (mkStore 0 [x]). split.
  - unfold NewSnapshotValidatorStore, vs_initialize, newSnapshotStore, addHeaderSnap, store_add. rewrite Hn, Hs, Hg. cbn [fold_left default lastNumber snap_list app].
    cbn [Z.eqb]. fold x. rewrite Esort. destruct (Z.eqb_spec epochSize 0); [lia|]. unfold store_find. cbn. by rewrite Z.ltb_irrefl.
  - split; cbn; try done.
    + repeat constructor.
    + intros y ->%list_elem_of_singleton. done.
    + intros k y [= <-] Hk. assert (k = 0) as -> by (cbn in Hk; lia). by exists x.
Qed.
(** ** Where votes come from *)

(** The vote in a header. *)
Definition ballot (header : Header) : option Vote :=
  match getSigner (h_Number header) with
  | Ok (Some signer) =>
      match EcrecoverFromHeader signer header, isAuthorize (h_Nonce header), minerToValidator (signer_Type signer) (h_Miner header) with
      | Ok p, Ok auth, Some (Ok c) => Some (mkVote p c auth)
      | _, _, _ => None
      end
  | _ => None
  end.

Lemma apply_header_cases header st st' : apply_header getSigner epochSize header st = Some (Ok st') ->
  (h_Number header mod epochSize = 0 /\ st' = mkVState (vs_set st) []) \/
  (h_Number header mod epochSize <> 0 /\ (st' = st \/ exists v, ballot header = Some v /\ vt_Validator v ∈ voters (vs_set st) /\ val_Type (vt_Candidate v) = t /\
     st' = cast st (vt_Candidate v) (vt_Authorize v) (vt_Validator v))).
Proof using Htype.
  unfold apply_header, ballot. destruct (getSigner (h_Number header)) as [[signer|]|] eqn:Es; [|done..]. destruct (EcrecoverFromHeader signer header) as [p|]; [|done].
  case_bool_decide as Hp; [done|]. destruct (Z.eqb_spec (h_Number header mod epochSize) 0) as [E|E]; [intros [= <-]; by left|]. right. split; [done|].
  case_decide; [left; congruence|]. destruct (isAuthorize (h_Nonce header)) as [auth|]; [|done].
  destruct (minerToValidator_safe (signer_Type signer) (h_Miner header)) as (r & Er & Hr). rewrite Er in *. cbn [mbind option_bind] in *. destruct r as [c|]; [|done].
  right. exists (mkVote p c auth). cbn. split; [done|]. split; [done|]. split; [rewrite <- (Htype _ _ Es); by apply Hr|congruence].
Qed.

(** Every open vote was cast in a header of the epoch. *)
Definition votes_cast (hs : list Header) (n : nat) (st : VoteState) : Prop :=
  forall v, v ∈ vs_votes st -> exists m h, (1 <= m <= n)%nat /\ Z.of_nat m / epochSize = Z.of_nat n / epochSize /\ hs !! pred m = Some h /\ ballot h = Some v.

Lemma cast_votes_sub st c auth p v : v ∈ vs_votes (cast st c auth p) -> v ∈ vs_votes st \/ v = mkVote p c auth.
Proof.
  unfold cast. case_bool_decide; destruct auth; try (by left); destruct (_ <? _); cbn [vs_votes]; intros Hv; repeat (apply list_elem_of_filter in Hv as [_ Hv]); by apply with_vote_elem.
Qed.

Lemma same_epoch n : (S n <> 0)%nat -> Z.of_nat (S n) mod epochSize <> 0 -> Z.of_nat (S n) / epochSize = Z.of_nat n / epochSize.
Proof using Hepoch.
  intros _ Hm. pose proof (Z.div_mod (Z.of_nat (S n)) epochSize ltac:(lia)) as Hd. pose proof (Z.mod_pos_bound (Z.of_nat (S n)) epochSize Hepoch).
  apply (Z.div_unique_pos (Z.of_nat n) epochSize _ (Z.of_nat (S n) mod epochSize - 1)); lia.
Qed.

Lemma votes_cast_step hs n h st st' : votes_cast hs n st -> hs !! n = Some h -> h_Number h = Z.of_nat (S n) ->
  apply_header getSigner epochSize h st = Some (Ok st') -> votes_cast hs (S n) st'.
Proof using Htype Hepoch.
  intros Hc Hh Hn [[_ ->]|[Hm Hst]]%apply_header_cases v Hv; [by apply elem_of_nil in Hv|]. rewrite Hn in Hm. pose proof (same_epoch n ltac:(lia) Hm) as He.
  assert (Hold : v ∈ vs_votes st -> exists m h, (1 <= m <= S n)%nat /\ Z.of_nat m / epochSize = Z.of_nat (S n) / epochSize /\ hs !! pred m = Some h /\ ballot h = Some v).
  { intros Hv'. destruct (Hc v Hv') as (m & h' & Hle & Hep & Hl & Hb). exists m, h'. split; [lia|]. by rewrite He. }
  destruct Hst as [->|(w & Hb & _ & _ & ->)]; [by apply Hold|]. apply cast_votes_sub in Hv as [Hv| ->]; [by apply Hold|].
  exists (S n), h. split; [lia|]. split; [done|]. split; [done|]. rewrite Hb. by destruct w.
Qed.

(** A decision needs a majority. *)
Definition decided (set set' : VoterSet) (c : Validator) (auth : bool) : Prop :=
  if auth then set_Add set c = Ok set' else set_Del set c = Ok set'.

Lemma cast_decides st c auth p : votes_ok ECDSAValidatorType st -> votes_open st -> val_Type c = ECDSAValidatorType -> p ∈ voters (vs_set st) ->
  vs_set (cast st c auth p) <> vs_set st -> decided (vs_set st) (vs_set (cast st c auth p)) c auth /\
  exists ps, NoDup ps /\ set_Len (vs_set st) < 2 * Z.of_nat (length ps) /\
  forall a, a ∈ ps -> a ∈ voters (vs_set st) /\ (mkVote a c auth ∈ vs_votes st \/ a = p).
Proof.
  intros Hok Ho Hc Hp Hne. pose proof (with_vote_ok _ _ p c auth Hok Hp Hc) as Hw.
  assert (Hps : forall b, b = bool_decide (Addr c ∈ voters (vs_set st)) -> auth = negb b -> set_Len (vs_set st) / 2 < count_votes (for_candidate c) (with_vote p c auth (vs_votes st)) ->
    exists ps, NoDup ps /\ set_Len (vs_set st) < 2 * Z.of_nat (length ps) /\ forall a, a ∈ ps -> a ∈ voters (vs_set st) /\ (mkVote a c auth ∈ vs_votes st \/ a = p)).
  { intros b Hb Ha Hmaj. exists (vt_Validator <$> filter (for_candidate c) (with_vote p c auth (vs_votes st))). split; [|split].
    - apply (NoDup_fmap_1 (fun a => (a, c))). rewrite <- list_fmap_compose. eapply sublist_NoDup; [exact (vo_once _ _ Hw)|]. cbn [vs_votes].
      rewrite (list_fmap_ext _ (fun v => (vt_Validator v, vt_Candidate v)) (filter (for_candidate c) _)).
      + apply fmap_sublist, sublist_filter.
      + intros i v Hv%list_elem_of_lookup_2. apply list_elem_of_filter in Hv as [<- _]. done.
    - rewrite length_fmap. unfold count_votes in Hmaj. pose proof (Z.div_mod (set_Len (vs_set st)) 2 ltac:(lia)). pose proof (Z.mod_pos_bound (set_Len (vs_set st)) 2 ltac:(lia)). lia.
    - intros a (v & -> & [Hvc Hv]%list_elem_of_filter)%list_elem_of_fmap. pose proof (vo_votes _ _ Hw) as Hf. rewrite list.Forall_forall in Hf. split; [by apply Hf|].
      apply with_vote_elem in Hv as [Hv| ->]; [left|by right]. unfold votes_open in Ho. rewrite list.Forall_forall in Ho. specialize (Ho v Hv). unfold for_candidate in Hvc.
      rewrite Hvc, <- Hb, <- Ha in Ho. destruct v as [x y z]. cbn in *. by subst. }
  revert Hne. unfold cast. case_bool_decide as Hin; destruct auth; try done; match goal with |- context [?a <? ?b] => destruct (Z.ltb_spec a b) end; try done; intros _.
  - split; [apply set_Del_spec; [by rewrite (vo_type _ _ Hok)|done|apply Hok]|]. by apply (Hps true).
  - split; [apply set_Add_spec; [by rewrite (vo_type _ _ Hok)|done]|]. by apply (Hps false).
Qed.

(** ** All headers of a chain *)

Lemma replay_steps hs sts st sts' r : last sts = Some st -> replay hs sts st = Some (sts', r) -> forall j st1 st2, (length sts <= S j)%nat ->
  sts' !! j = Some st1 -> sts' !! S j = Some st2 -> exists h, hs !! (S j - length sts)%nat = Some h /\ apply_header getSigner epochSize h st1 = Some (Ok st2).
Proof.
  revert sts st. induction hs as [|h hs IH]; cbn; intros sts st Hlast E j st1 st2 Hj H1j H2j.
  { assert (sts' = sts) as -> by congruence. apply lookup_lt_Some in H2j. lia. }
  destruct (apply_header getSigner epochSize h st) as [[st'|e]|] eqn:Ea; cbn in E; [|assert (sts' = sts) as -> by congruence; apply lookup_lt_Some in H2j; lia|done].
  assert (El : length (sts ++ [st']) = S (length sts)) by (rewrite length_app; cbn; lia).
  destruct (decide (length sts = S j)) as [Ej|Hne].
  - exists h. rewrite Ej, Nat.sub_diag. split; [done|]. destruct (replay_prefix _ _ _ _ _ E) as [new ->]. rewrite last_lookup, Ej in Hlast. cbn in Hlast.
    rewrite <- app_assoc, lookup_app_l in H1j by lia. rewrite <- app_assoc in H2j. cbn [app] in H2j. rewrite list_lookup_middle in H2j by lia. congruence.
  - destruct (IH _ _ ltac:(apply last_snoc) E j st1 st2 ltac:(lia) H1j H2j) as (h' & Hh' & Ha). exists h'. split; [|done].
    rewrite El in Hh'. replace (S j - length sts)%nat with (S (S j - S (length sts))) by lia. done.
Qed.

Definition refusals : list VoterErr := [ErrFromSigner; ErrNoSigner; ErrUnauthorizedProposer; ErrIncorrectNonce; ErrDecodeValidator; ErrInvalidValidatorType].

Lemma apply_header_errors h st e : apply_header getSigner epochSize h st = Some (Err e) -> e ∈ refusals.
Proof.
  unfold apply_header, refusals. destruct (getSigner (h_Number h)) as [[signer|]|]; [|intros [= <-]; in_list..]. destruct (EcrecoverFromHeader signer h); [|intros [= <-]; in_list].
  case_bool_decide; [intros [= <-]; in_list|]. destruct (_ =? 0); [done|]. case_decide; [done|]. unfold isAuthorize. destruct (_ =? _); [|destruct (_ =? _); [|intros [= <-]; in_list]].
  all: unfold minerToValidator, NewValidatorFromType; repeat case_decide; cbn; try done; try (intros [= <-]; in_list).
  all: destruct (UnmarshalRlp _ _) as [[?|?]|]; cbn; try done; intros [= <-]; in_list.
Qed.

Lemma replay_errors hs sts st sts' e : replay hs sts st = Some (sts', Err e) -> e ∈ refusals.
Proof.
  revert sts st. induction hs as [|h hs IH]; cbn; intros sts st E; [done|]. destruct (apply_header getSigner epochSize h st) as [[st'|e']|] eqn:Ea; cbn in E; [|..|done].
  - by eapply IH.
  - assert (e' = e) as -> by congruence. by eapply apply_header_errors.
Qed.

Context (genesis : Header) (g : VoterSet) (hs : list Header).
Context (Hgenesis : genesis_ok genesis g) (Hnumbers : numbered 1 hs) (Hsmall : Z.of_nat (length hs) < two64 - 1).
Context (Hchain : forall j h, hs !! j = Some h -> GetHeaderByNumber (Z.of_nat (1 + j)) = Some h).

Lemma run_spec : exists s0 s sts r,
  NewSnapshotValidatorStore getSigner GetHeaderByNumber epochSize genesis None [] = Some (Ok (mkVStore s0 [])) /\
  ProcessHeadersInRange getSigner GetHeaderByNumber epochSize 1 (Z.of_nat (length hs)) s0 = Some (s, r) /\
  replay hs [genesis_state g] (genesis_state g) = Some (sts, r) /\ store_ok sts s /\ Forall (votes_ok t) sts.
Proof using Hsort Htype Hepoch Hgenesis Hnumbers Hsmall Hchain.
  destruct (genesis_store genesis g Hgenesis) as (s0 & Hnew & Hok). pose proof (genesis_votes _ _ Hgenesis) as Hv.
  destruct (headers_in_range_spec hs [genesis_state g] s0 (genesis_state g) (length hs) Hok eq_refl Hv Hnumbers ltac:(done) Hchain ltac:(cbn; lia)) as (s & sts & r & Hp & Hr & Hs & Hvs).
  exists s0, s, sts, r. split; [done|]. split; [|split; [done|split; [done|]]].
  - unfold ProcessHeadersInRange. replace (Z.to_nat (Z.of_nat (length hs) - 1 + 1)) with (length hs) by lia. rewrite <- Hp. f_equal. cbn [length]. lia.
  - destruct (replay_prefix _ _ _ _ _ Hr) as [new ->]. cbn in Hvs |- *. by constructor.
Qed.

Lemma sts_open sts r : t = ECDSAValidatorType -> replay hs [genesis_state g] (genesis_state g) = Some (sts, r) -> Forall (votes_ok t) sts -> forall n st, sts !! n = Some st -> votes_open st /\ votes_cast hs n st.
Proof using Htype Hepoch Hnumbers.
  intros Et Hr Hvs n. induction n as [|n IH]; intros st Hst.
  - destruct (replay_prefix _ _ _ _ _ Hr) as [new ->]. cbn in Hst. simplify_eq. split; [apply List.Forall_nil|]. intros v Hv. by apply elem_of_nil in Hv.
  - destruct (lookup_lt_is_Some_2 sts n ltac:(apply lookup_lt_Some in Hst; lia)) as [st1 H1n]. destruct (IH st1 H1n) as [Ho Hc].
    destruct (replay_steps _ _ _ _ _ (eq_refl : last [genesis_state g] = Some (genesis_state g)) Hr n st1 st ltac:(cbn; lia) H1n Hst) as (h & Hh & Ha). cbn in Hh. rewrite Nat.sub_0_r in Hh.
    rewrite Forall_lookup in Hvs. destruct (apply_header_ok getSigner epochSize t Htype h st1 st (Hvs n st1 H1n) Ha) as [_ Hopen]. split; [by apply Hopen|].
    eapply votes_cast_step; [done|done| |done]. by rewrite (Hnumbers n h Hh).
Qed.

Lemma answers sts s : store_ok sts s -> exists oldest, 0 <= oldest < Z.of_nat (length sts) /\ forall k, 0 <= k < Z.of_nat (length sts) -> exists st,
  sts !! Z.to_nat (Z.max k oldest) = Some st /\ GetValidatorsByHeight k (mkVStore s []) = Ok (vs_set st) /\ store_Votes k (mkVStore s []) = Ok (vs_votes st).
Proof.
  intros Hok. destruct (head (snap_list s)) as [x|] eqn:Ex; [|pose proof (so_some _ _ Hok); by destruct (snap_list s)].
  assert (Hx : x ∈ snap_list s) by (destruct (snap_list s); [done|]; cbn in Ex; simplify_eq; by left).
  exists (sn_Number x). split; [split; [apply (so_states _ _ Hok x Hx)|by eapply store_numbers]|]. intros k Hk.
  destruct (store_find_ok sts s k x Hok Ex Hk) as (y & Hy & Hc). exists (content y). split; [done|]. unfold GetValidatorsByHeight, store_Votes. cbn [vst_store]. by rewrite Hy.
Qed.

(** C18. The store of snapshots agrees with the replay of the headers: started on the genesis
    block it processes the headers of the chain up to the first one that is refused, with
    the error of the replay, and then answers requests for validators and votes of any
    height up to the last block with those after the block, for heights below its oldest
    snapshot with those of that snapshot. Nothing panics. *)
Theorem vote_store_replays : exists s0 s sts r oldest,
  NewSnapshotValidatorStore getSigner GetHeaderByNumber epochSize genesis None [] = Some (Ok (mkVStore s0 [])) /\
  ProcessHeadersInRange getSigner GetHeaderByNumber epochSize 1 (Z.of_nat (length hs)) s0 = Some (s, r) /\
  replay hs [genesis_state g] (genesis_state g) = Some (sts, r) /\ lastNumber s = Z.of_nat (length sts) - 1 /\ 0 <= oldest <= lastNumber s /\
  forall k, 0 <= k <= lastNumber s -> exists st, sts !! Z.to_nat (Z.max k oldest) = Some st /\
    GetValidatorsByHeight k (mkVStore s []) = Ok (vs_set st) /\ store_Votes k (mkVStore s []) = Ok (vs_votes st).
Proof using Hsort Htype Hepoch Hgenesis Hnumbers Hsmall Hchain.
  destruct run_spec as (s0 & s & sts & r & Hnew & Hp & Hr & Hok & _). destruct (answers sts s Hok) as (oldest & Ho & Ha). pose proof (so_last _ _ Hok) as Hl.
  exists s0, s, sts, r, oldest. split; [done|]. split; [done|]. split; [done|]. split; [done|]. split; [lia|]. intros k Hk. apply Ha. lia.
Qed.

(** C20. The snapshots are well-formed: whatever headers are processed, in every snapshot of
    the store the validators have distinct addresses and the type of the set, every open
    vote is by a current validator, who has no other vote for the candidate, and without
    BLS keys it is for admitting an address outside the set or for removing one inside;
    a header is only refused for its signature, its proposer, its nonce or its candidate. *)
Theorem vote_snapshots_ok s0 s r :
  NewSnapshotValidatorStore getSigner GetHeaderByNumber epochSize genesis None [] = Some (Ok (mkVStore s0 [])) ->
  ProcessHeadersInRange getSigner GetHeaderByNumber epochSize 1 (Z.of_nat (length hs)) s0 = Some (s, r) ->
  (forall x, x ∈ snap_list s -> votes_ok t (content x) /\ (t = ECDSAValidatorType -> votes_open (content x))) /\
  (forall e, r = Err e -> e ∈ refusals).
Proof using Hsort Htype Hepoch Hgenesis Hnumbers Hsmall Hchain.
  intros Hn' Hp'. destruct run_spec as (s1 & s2 & sts & r2 & Hnew & Hp & Hr & Hok & Hvs). assert (s1 = s0) as -> by congruence. assert (s2 = s) as -> by congruence.
  assert (r2 = r) as -> by congruence. split; [|intros e ->; by eapply replay_errors]. intros x Hx. destruct (so_states _ _ Hok x Hx) as [_ E].
  split; [rewrite Forall_lookup in Hvs; by eapply Hvs|]. intros Et. by eapply sts_open.
Qed.

(** C19. Validators change by majority: on a chain of validators without BLS keys, if the
    validators after some block are not those before it, one candidate was admitted or
    removed, and more than half of the validators before the block voted for just that in
    headers they signed in the epoch of the block. *)
Theorem vote_majorities s0 s r k set set' : t = ECDSAValidatorType ->
  NewSnapshotValidatorStore getSigner GetHeaderByNumber epochSize genesis None [] = Some (Ok (mkVStore s0 [])) ->
  ProcessHeadersInRange getSigner GetHeaderByNumber epochSize 1 (Z.of_nat (length hs)) s0 = Some (s, r) ->
  0 <= k < lastNumber s -> GetValidatorsByHeight k (mkVStore s []) = Ok set -> GetValidatorsByHeight (k + 1) (mkVStore s []) = Ok set' -> set <> set' ->
  exists c auth ps, decided set set' c auth /\ NoDup ps /\ set_Len set < 2 * Z.of_nat (length ps) /\
  forall a, a ∈ ps -> a ∈ voters set /\ exists m h, 1 <= m <= k + 1 /\ m / epochSize = (k + 1) / epochSize /\
    GetHeaderByNumber m = Some h /\ ballot h = Some (mkVote a c auth).
Proof using Hsort Htype Hepoch Hgenesis Hnumbers Hsmall Hchain.
  intros Et Hn' Hp' Hk Hset Hset' Hne. destruct run_spec as (s1 & s2 & sts & r2 & Hnew & Hp & Hr & Hok & Hvs). assert (s1 = s0) as -> by congruence.
  assert (s2 = s) as -> by congruence. pose proof (so_last _ _ Hok) as Hlast. destruct (answers sts s Hok) as (oldest & Ho & Ha).
  destruct (Ha k ltac:(lia)) as (st & Hst & Hv & _), (Ha (k + 1) ltac:(lia)) as (st' & Hst' & Hv' & _).
  assert (set = vs_set st) as -> by congruence. assert (set' = vs_set st') as -> by congruence.
  destruct (Z.lt_ge_cases k oldest) as [L|L]; [rewrite Z.max_r in Hst, Hst' by lia; congruence|]. rewrite Z.max_l in Hst, Hst' by lia.
  set (n := Z.to_nat k) in *. replace (Z.to_nat (k + 1)) with (S n) in Hst' by lia.
  destruct (replay_steps _ _ _ _ _ (eq_refl : last [genesis_state g] = Some (genesis_state g)) Hr n st st' ltac:(cbn; lia) Hst Hst') as (h & Hh & Hap). cbn in Hh. rewrite Nat.sub_0_r in Hh.
  destruct (sts_open sts _ Et Hr Hvs n st Hst) as [Hopen Hcast]. rewrite Forall_lookup in Hvs. pose proof (Hvs n st Hst) as Hvo.
  pose proof (Hnumbers n h Hh) as Hnum. apply apply_header_cases in Hap as [[_ ->]|[Hm [->|(v & Hb & Hin & Hty & ->)]]]; [done..|].
  destruct (cast_decides st (vt_Candidate v) (vt_Authorize v) (vt_Validator v)) as (Hd & ps & Hnd & Hlen & Hps); [congruence..|].
  exists (vt_Candidate v), (vt_Authorize v), ps. split; [done|]. split; [done|]. split; [done|]. intros a Hina. destruct (Hps a Hina) as [Hav Hvote]. split; [done|].
  assert (He : Z.of_nat (S n) / epochSize = Z.of_nat n / epochSize) by (apply same_epoch; [lia|]; by rewrite Hnum in Hm).
  replace (k + 1) with (Z.of_nat (S n)) by lia. destruct Hvote as [Hvote| ->].
  - destruct (Hcast _ Hvote) as (m & h' & Hle & Hep & Hh' & Hb'). exists (Z.of_nat m), h'. split; [lia|]. split; [by rewrite He|]. split; [|done].
    replace m with (1 + pred m)%nat by lia. by apply Hchain.
  - exists (Z.of_nat (S n)), h. split; [lia|]. split; [done|]. split; [by apply Hchain|]. rewrite Hb. by destruct v.
Qed.

End Store.

(** ** Samples *)

Definition by_number (s t : Snapshot) : Prop := sn_Number s <= sn_Number t.
#[local] Instance by_number_dec s t : Decision (by_number s t).
Proof. unfold by_number. apply _. Defined.

#[local] Instance by_number_trans : Transitive by_number.
Proof. intros a b c. unfold by_number. lia. Qed.
#[local] Instance by_number_total : Total by_number.
Proof. intros a b. unfold by_number. lia. Qed.

#[local] Instance number_sort : SnapshotSort := {| sort_Sort := merge_sort by_number |}.

#[local] Instance number_sort_laws : SnapshotSortLaws.
Proof.
  split; intros l; [apply merge_sort_Permutation|]. apply (StronglySorted_merge_sort by_number).
Qed.

#[local] Existing Instance ser_codec.
#[local] Existing Instance ser_rlp.

(** The proposer of a header is in one of its fields. *)
Definition ecdsa_signer (g : VoterSet) : Signer := mkSigner ECDSAValidatorType (fun h => Ok (h_GasUsed h)) (fun _ => Ok g).

Definition three_voters : VoterSet := mkVoterSet ECDSAValidatorType [ECDSAValidator 1; ECDSAValidator 2; ECDSAValidator 3].

Definition vote_header (n proposer candidate nonce : Z) : Header :=
  mkHeader 0 EmptyUncleHash (be_bytes 20 candidate) 0 0 0 [] 1 n 0 proposer 0 [] 0 nonce (1000 + n).

(** Voters 1 and 2 admit 9. *)
Definition vote_chain : list Header := [vote_header 1 1 9 nonceAuthVote; vote_header 2 2 9 nonceAuthVote; vote_header 3 3 0 0].

Definition vote_signer (n : Z) : result () (option Signer) := Ok (Some (ecdsa_signer three_voters)).
Definition vote_headers (n : Z) : option Header := if n <=? 0 then None else vote_chain !! Z.to_nat (n - 1).

Lemma vote_signer_type n signer : vote_signer n = Ok (Some signer) -> signer_Type signer = ECDSAValidatorType.
Proof. by intros [= <-]. Qed.

Lemma vote_genesis_ok : genesis_ok vote_signer ECDSAValidatorType (vote_header 0 0 0 0) three_voters.
Proof.
  split; [done|]. split; [by exists (ecdsa_signer three_voters)|]. split; [done|]. split; [repeat constructor|]. apply (bool_decide_unpack _). by vm_compute.
Qed.

Lemma vote_numbered : numbered 1 vote_chain.
Proof. intros j h Hj. destruct j as [|[|[|j]]]; cbn in Hj; [simplify_eq; done..|done]. Qed.

Lemma vote_headers_ok j h : vote_chain !! j = Some h -> vote_headers (Z.of_nat (1 + j)) = Some h.
Proof. intros Hj. unfold vote_headers. destruct (Z.leb_spec (Z.of_nat (1 + j)) 0); [lia|]. by replace (Z.to_nat (Z.of_nat (1 + j) - 1)) with j by lia. Qed.

Lemma vote_store_replays_witness : exists s0 s,
  NewSnapshotValidatorStore vote_signer vote_headers 10 (vote_header 0 0 0 0) None [] = Some (Ok (mkVStore s0 [])) /\
  ProcessHeadersInRange vote_signer vote_headers 10 1 3 s0 = Some (s, Ok ()).
Proof.
  destruct (vote_store_replays vote_signer 10 ECDSAValidatorType vote_signer_type ltac:(done) vote_headers (vote_header 0 0 0 0) three_voters vote_chain
    vote_genesis_ok vote_numbered ltac:(done) vote_headers_ok) as (s0 & s & sts & r & oldest & Hnew & Hp & Hr & _).
  assert (r = Ok ()) as -> by (vm_compute in Hr; congruence). exists s0, s. split; [exact Hnew|exact Hp].
Defined.

Definition vote_s0 : snapshotStore := mkStore 0 [mkSnapshot 0 1000 [] three_voters].
Definition vote_s : snapshotStore := mkStore 3
  [ mkSnapshot 0 1000 [] three_voters; mkSnapshot 1 1001 [mkVote 1 (ECDSAValidator 9) true] three_voters;
    mkSnapshot 2 1002 [] (mkVoterSet ECDSAValidatorType [ECDSAValidator 1; ECDSAValidator 2; ECDSAValidator 3; ECDSAValidator 9]) ].

Lemma vote_started : NewSnapshotValidatorStore vote_signer vote_headers 10 (vote_header 0 0 0 0) None [] = Some (Ok (mkVStore vote_s0 [])).
Proof. vm_compute. reflexivity. Qed.

Lemma vote_processed : ProcessHeadersInRange vote_signer vote_headers 10 1 3 vote_s0 = Some (vote_s, Ok ()).
Proof. vm_compute. reflexivity. Qed.

Lemma vote_snapshots_ok_witness : exists x, snap_list vote_s !! 0%nat = Some x /\ votes_ok ECDSAValidatorType (content x) /\ votes_open (content x).
Proof.
  destruct (snap_list vote_s !! 0%nat) as [x|] eqn:E; [|discriminate E]. exists x. split; [reflexivity|].
  destruct (vote_snapshots_ok vote_signer 10 ECDSAValidatorType vote_signer_type ltac:(done) vote_headers (vote_header 0 0 0 0) three_voters vote_chain
    vote_genesis_ok vote_numbered ltac:(done) vote_headers_ok vote_s0 vote_s (Ok ()) vote_started vote_processed) as [Hs _].
  destruct (Hs x ltac:(by eapply list_elem_of_lookup_2)) as [Hv Ho]. split; [exact Hv|by apply Ho].
Defined.

Lemma vote_majorities_witness : exists c auth (ps : list Address), decided three_voters (mkVoterSet ECDSAValidatorType [ECDSAValidator 1; ECDSAValidator 2; ECDSAValidator 3; ECDSAValidator 9]) c auth /\
  NoDup ps /\ 3 < 2 * Z.of_nat (length ps).
Proof.
  destruct (vote_majorities vote_signer 10 ECDSAValidatorType vote_signer_type ltac:(done) vote_headers (vote_header 0 0 0 0) three_voters vote_chain
    vote_genesis_ok vote_numbered ltac:(done) vote_headers_ok vote_s0 vote_s (Ok ()) 1 three_voters
    (mkVoterSet ECDSAValidatorType [ECDSAValidator 1; ECDSAValidator 2; ECDSAValidator 3; ECDSAValidator 9])
    eq_refl vote_started vote_processed ltac:(cbn; lia) eq_refl eq_refl ltac:(done)) as (c & auth & ps & Hd & Hnd & Hlen & _).
  exists c, auth, ps. split; [exact Hd|]. split; [exact Hnd|exact Hlen].
Defined.
