(* ===== verification/BlockBuilder.v ===== *)
(** * Building and replaying blocks ([consensus/plgbft/block_builder.go],
      [blockchain_wrapper.go], [consensus/utils.go])

    A proposer writes transactions to a state transition and builds a block from it; a
    validator replays the transactions of a block. The executor and the transaction pool are
    seen through interfaces. Instants and durations are integers of nanoseconds. [None] is a
    panic. *)

From S2P Require Import Prelude ChainTypes BigInt Runtime Receipts Rlp ChainRlp Trie Buildroot Executor.
Local Open Scope go_scope.

(** ** Interfaces *)

(** [state.Executor] and its transitions. *)
Class TransitionOps (T : Type) := {
  ex_BeginTxn : Hash -> Header -> Address -> option T;
  tr_Write : T -> Transaction -> option (option TransitionApplicationError * T);
  tr_WriteFailedReceipt : T -> Transaction -> option (option TransitionApplicationError * T);
  tr_Call2 : T -> Address -> Address -> list Z -> Z -> Z -> option (ExecutionResult * T);
  tr_Commit : T -> option (Hash * T);
  tr_TotalGas : T -> Z;
  tr_Receipts : T -> list Receipt;
}.

(** [txPoolInterface]. *)
Class PoolOps (P : Type) := {
  pool_Prepare : P -> P;
  pool_Peek : P -> option Transaction * P;
  pool_Pop : P -> Transaction -> option P;
  pool_Drop : P -> Transaction -> option P;
  pool_Demote : P -> Transaction -> option P;
}.

Inductive WriteErr := ErrBlockLimitExceeded | ErrApply (e : TransitionApplicationError).

(** ** The block builder *)

Record BlockBuilderParams := mkBuilderParams {
  bp_Parent : Header; bp_Coinbase : Address; bp_GasLimit : Z; bp_BlockTime : Z }.

Record BlockBuilder (T : Type) := mkBuilder {
  bb_params : BlockBuilderParams; bb_header : option Header; bb_txns : list Transaction;
  bb_block : option Block; bb_state : option T }.
Arguments mkBuilder {T}. Arguments bb_params {T}. Arguments bb_header {T}. Arguments bb_txns {T}.
Arguments bb_block {T}. Arguments bb_state {T}.

Definition second : Z := 1000000000.

(** The time of the next block; the clock is read once for the comparison and once more
    for the value. *)
Definition header_time (parentTimestamp blockTime now now' : Z) : Z :=
  let headerTime := i64 parentTimestamp * second + blockTime in
  u64 ((if headerTime <? now then now' else headerTime) / second).

Definition set_roots (stateRoot txRoot receiptsRoot uncles : Hash) (gasUsed : Z) (h : Header) : Header :=
  mkHeader (h_ParentHash h) uncles (h_Miner h) stateRoot txRoot receiptsRoot (h_LogsBloom h) (h_Difficulty h) (h_Number h)
    (h_GasLimit h) gasUsed (h_Timestamp h) (h_ExtraData h) (h_MixHash h) (h_Nonce h) (h_Hash h).

Section Builder.
Context `{Fastrlp} `{HeaderHasher} {T : Type} `{TransitionOps T} {P : Type} `{PoolOps P}.

(** [consensus.BuildBlock]. *)
Definition BuildBlock (header : Header) (txs : list Transaction) (receipts : list Receipt) : option Block :=
  txRoot ← match txs with [] => Some EmptyRootHash | _ => CalculateTransactionsRoot txs end;
  receiptsRoot ← match receipts with [] => Some EmptyRootHash | _ => CalculateReceiptsRoot receipts end;
  let header := set_roots (h_StateRoot header) txRoot receiptsRoot EmptyUncleHash (h_GasUsed header) header in
  Some (mkBlock (h_ComputeHash header) txs []).

Definition NewBlockBuilder (params : BlockBuilderParams) : BlockBuilder T := mkBuilder params None [] None None.

(** The header [Reset] starts from. *)
Definition fresh_header (params : BlockBuilderParams) (now now' : Z) : Header :=
  let parent := bp_Parent params in
  mkHeader (h_Hash parent) EmptyUncleHash (be_bytes 20 (bp_Coinbase params)) EmptyRootHash EmptyRootHash EmptyRootHash
    (replicate BloomByteLength 0) 1 (h_Number parent +u 1) (bp_GasLimit params) 0
    (header_time (h_Timestamp parent) (bp_BlockTime params) now now') [] ZeroHash 0 ZeroHash.

(** The error of [BeginTxn] is the boolean; the new header stays. *)
Definition Reset (b : BlockBuilder T) (now now' : Z) : bool * BlockBuilder T :=
  let params := bb_params b in
  let header := fresh_header params now now' in
  match ex_BeginTxn (h_StateRoot (bp_Parent params)) header (bp_Coinbase params) with
  | None => (false, mkBuilder params (Some header) (bb_txns b) (bb_block b) (bb_state b))
  | Some t => (true, mkBuilder params (Some header) [] None (Some t))
  end.

Definition with_state (b : BlockBuilder T) (t : T) : BlockBuilder T :=
  mkBuilder (bb_params b) (bb_header b) (bb_txns b) (bb_block b) (Some t).

Definition WriteTx (b : BlockBuilder T) (tx : Transaction) : option (option WriteErr * BlockBuilder T) :=
  t ← bb_state b;
  if ExceedsBlockGasLimit tx (bp_GasLimit (bb_params b)) then
    '(err, t) ← tr_WriteFailedReceipt t tx;
    Some (match err with Some e => Some (ErrApply e) | None => Some ErrBlockLimitExceeded end, with_state b t)
  else
    '(err, t) ← tr_Write t tx;
    match err with
    | Some e => Some (Some (ErrApply e), with_state b t)
    | None => Some (None, mkBuilder (bb_params b) (bb_header b) (bb_txns b ++ [tx]) (bb_block b) (Some t))
    end.

(** Whether the block is full or the pool empty. *)
Definition writeTxPoolTransaction (b : BlockBuilder T) (p : P) (tx : option Transaction) : option (bool * BlockBuilder T * P) :=
  match tx with
  | None => Some (true, b, p)
  | Some tx =>
      '(err, b) ← WriteTx b tx;
      match err with
      | None => (fun p => (false, b, p)) <$> pool_Pop p tx
      | Some (ErrApply e) =>
          if gasLimitReached e then Some (true, b, p)
          else (fun p => (false, b, p)) <$> (if IsRecoverable e then pool_Demote p tx else pool_Drop p tx)
      | Some ErrBlockLimitExceeded => (fun p => (false, b, p)) <$> pool_Drop p tx
      end
  end.

(** The loop; the timer fires after [ticks] transactions. *)
Fixpoint fill_loop (ticks : nat) (b : BlockBuilder T) (p : P) : option (BlockBuilder T * P) :=
  match ticks with
  | O => Some (b, p)
  | S ticks =>
      let '(tx, p) := pool_Peek p in
      '(finished, b, p) ← writeTxPoolTransaction b p tx;
      if (finished : bool) then Some (b, p) else fill_loop ticks b p
  end.

Definition Fill (ticks : nat) (b : BlockBuilder T) (p : P) : option (BlockBuilder T * P) := fill_loop ticks b (pool_Prepare p).

(** The handler edits the header in place. *)
Definition Build (b : BlockBuilder T) (handler : Header -> Header) : option (FullBlock * BlockBuilder T) :=
  header ← bb_header b;
  t ← bb_state b;
  let header := handler header in
  '(stateRoot, t) ← tr_Commit t;
  let header := set_roots stateRoot (h_TxRoot header) (h_ReceiptsRoot header) (h_Sha3Uncles header) (tr_TotalGas t) header in
  block ← BuildBlock header (bb_txns b) (tr_Receipts t);
  let block := mkBlock (h_ComputeHash (b_Header block)) (b_Transactions block) (b_Uncles block) in
  Some (mkFullBlock block (tr_Receipts t), mkBuilder (bb_params b) (Some (b_Header block)) (bb_txns b) (Some block) (Some t)).

(** ** Replaying a block *)

Inductive ProcessErr (E : Type) := ErrBegin | ErrTx (e : TransitionApplicationError) | ErrCallback (e : E) | ErrStateRoot.
#[global] Arguments ErrBegin {E}. #[global] Arguments ErrTx {E}. #[global] Arguments ErrCallback {E}. #[global] Arguments ErrStateRoot {E}.

(** [transition.Write] of each transaction, up to the first error. *)
Fixpoint write_all (t : T) (txs : list Transaction) : option (result TransitionApplicationError T) :=
  match txs with
  | [] => Some (Ok t)
  | tx :: txs => '(err, t) ← tr_Write t tx; match err with Some e => Some (Err e) | None => write_all t txs end
  end.

(** [blockchainWrapper.ProcessBlock]; the callback works on the transition. *)
Definition wrapper_ProcessBlock {E} (parent : Header) (block : Block) (callback : T -> option (result E T))
    : option (result (ProcessErr E) FullBlock) :=
  let header := b_Header block in
  match ex_BeginTxn (h_StateRoot parent) header (BytesToAddress (h_Miner header)) with
  | None => Some (Err ErrBegin)
  | Some t =>
      written ← write_all t (b_Transactions block);
      match written with
      | Err e => Some (Err (ErrTx e))
      | Ok t =>
          called ← callback t;
          match called with
          | Err e => Some (Err (ErrCallback e))
          | Ok t =>
              '(root, t) ← tr_Commit t;
              if negb (root =? h_StateRoot header) then Some (Err ErrStateRoot)
              else
                builtBlock ← BuildBlock header (b_Transactions block) (tr_Receipts t);
                Some (Ok (mkFullBlock builtBlock (tr_Receipts t)))
          end
      end
  end.

(** [stateProvider.Call]. *)
Definition provider_Call (t : T) (addr : Address) (input : list Z) : option (result VMErr (list Z) * T) :=
  '(r, t) ← tr_Call2 t SystemCaller addr input 0 10000000;
  Some (match ResErr r with Some e => Err e | None => Ok (ReturnValue r) end, t).

End Builder.
