(* ===== verification/StateTx.v ===== *)
(** * State transactions ([consensus/plgbft/state_transaction.go], [contractsapi])

    The commitments to bridge events and the two kinds of transactions the consensus engine
    itself puts into blocks: the registration of a commitment and the end of an epoch. The
    ABI encoder is a parameter. [None] is a panic. *)

From S2P Require Import Prelude ChainTypes BigInt Runtime Receipts Executor Rlp ChainRlp Bls Validators Merkle BlockBuilder.
Local Open Scope go_scope.

Record StateSyncCommitment := mkCommitment { StartID : Z; EndID : Z; Root : Hash }.

Record StateSyncedEvent := mkEvent { ev_ID : Z; ev_Sender : Address; ev_Receiver : Address; ev_Data : list Z }.

Record PendingCommitment := mkPending { pc_Commitment : StateSyncCommitment; pc_MerkleTree : MerkleTree; pc_Epoch : Z }.

Record CommitmentMessageSigned := mkSigned {
  cm_Message : StateSyncCommitment; cm_AggSignature : AggSignature; cm_PublicKeys : list (list Z) }.

Record Epoch := mkEpoch { StartBlock : Z; EndBlock : Z; EpochRoot : Hash }.
Record Uptime := mkUptime { u_EpochID : Z; UptimeData : list (Address * Z); TotalBlocks : Z }.
Record CommitEpochChildValidatorSetFn := mkCommitEpoch { ce_ID : Z; ce_Epoch : Epoch; ce_Uptime : Uptime }.

Record CommitStateReceiverFn := mkCommitFn {
  cf_Commitment : StateSyncCommitment; cf_Signature : list Z; cf_Bitmap : list Z }.

(** [ethgo/abi] with the methods and types of the system contracts. Decoders get the data
    behind the identifier of the method. A decoded tuple is a map whose entries can be of
    other types than expected. *)
Class BridgeAbi := {
  abi_commitment : StateSyncCommitment -> option (list Z);
  abi_event : StateSyncedEvent -> option (list Z);
  abi_bls : list (list Z) -> list Z -> option (list Z);
  abi_bls_decode : list Z -> option (option (option (list (list Z)) * option (list Z)));
  commit_ID : list Z;
  commit_inputs : CommitStateReceiverFn -> option (list Z);
  commit_inputs_decode : list Z -> option CommitStateReceiverFn;
  commitEpoch_ID : list Z;
  commitEpoch_inputs : CommitEpochChildValidatorSetFn -> option (list Z);
  commitEpoch_inputs_decode : list Z -> option CommitEpochChildValidatorSetFn;
}.

Class BridgeAbiLaws `{BridgeAbi} := {
  commit_ID_length : length commit_ID = 4%nat;
  commitEpoch_ID_length : length commitEpoch_ID = 4%nat;
  method_IDs : commit_ID <> commitEpoch_ID;
  abi_bls_roundtrip keys bitmap raw : abi_bls keys bitmap = Some raw -> abi_bls_decode raw = Some (Some (Some keys, Some bitmap));
  commit_roundtrip f raw : commit_inputs f = Some raw -> commit_inputs_decode raw = Some f;
  commitEpoch_roundtrip f raw : commitEpoch_inputs f = Some raw -> commitEpoch_inputs_decode raw = Some f;
}.

Inductive StateTxErr := ErrLength | ErrPrefix | ErrAbi | ErrBlsPart | ErrKeysPart | ErrBitmapPart | ErrUnknown | ErrTree (e : MerkleErr)
  | ErrNoEvent | ErrEventID.

Definition abiMethodIDLength : nat := 4.

Section StateTx.
Context `{Codec} `{BridgeAbi}.

(** [method.Encode]. *)
Definition encode_method (id : list Z) (inputs : option (list Z)) : option (list Z) := app id <$> inputs.

Definition decodeMethod {A} (id : list Z) (decode : list Z -> option A) (input : list Z) : result StateTxErr A :=
  if (length input <? abiMethodIDLength)%nat then Err ErrLength
  else if negb (bool_decide (take (length id) input = id)) then Err ErrPrefix
  else match decode (drop abiMethodIDLength input) with None => Err ErrAbi | Some a => Ok a end.

Definition commitFn_EncodeAbi (f : CommitStateReceiverFn) : option (list Z) := encode_method commit_ID (commit_inputs f).
Definition commitFn_DecodeAbi (raw : list Z) : result StateTxErr CommitStateReceiverFn := decodeMethod commit_ID commit_inputs_decode raw.
Definition commitEpochFn_EncodeAbi (f : CommitEpochChildValidatorSetFn) : option (list Z) := encode_method commitEpoch_ID (commitEpoch_inputs f).
Definition commitEpochFn_DecodeAbi (raw : list Z) : result StateTxErr CommitEpochChildValidatorSetFn :=
  decodeMethod commitEpoch_ID commitEpoch_inputs_decode raw.

(** ** Commitments *)

Fixpoint encode_events (events : list StateSyncedEvent) : option (list (list Z)) :=
  match events with [] => Some [] | e :: events => data ← abi_event e; rest ← encode_events events; Some (data :: rest) end.

Definition createMerkleTree (events : list StateSyncedEvent) : option (result StateTxErr MerkleTree) :=
  match encode_events events with
  | None => Some (Err ErrAbi)
  | Some ssh => tree ← NewMerkleTree ssh; Some (match tree with Ok t => Ok t | Err e => Err (ErrTree e) end)
  end.

Definition NewPendingCommitment (epoch : Z) (events : list StateSyncedEvent) : option (result StateTxErr PendingCommitment) :=
  tree ← createMerkleTree events;
  match tree with
  | Err e => Some (Err e)
  | Ok tree =>
      first ← head events;
      lst ← last events;
      root ← mt_Hash tree;
      Some (Ok (mkPending (mkCommitment (ev_ID first) (ev_ID lst) root) tree epoch))
  end.

(** The hash of the commitment, of a pending as of a signed one; [None] is the error. *)
Definition commitment_Hash (c : StateSyncCommitment) : option Hash :=
  data ← abi_commitment c; Some (BytesToHash (keccak256 data)).

(** Identifiers are compared by their lowest 64 bits. *)
Definition VerifyStateSyncProof (overflow : Z) (cm : CommitmentMessageSigned) (proof : list Hash) (stateSync : option StateSyncedEvent)
    : result StateTxErr unit :=
  match stateSync with
  | None => Err ErrNoEvent
  | Some e =>
      let start := u64 (StartID (cm_Message cm)) in
      if (u64 (ev_ID e) <? start) || (u64 (EndID (cm_Message cm)) <? u64 (ev_ID e)) then Err ErrEventID
      else
        match abi_event e with
        | None => Err ErrAbi
        | Some hash =>
            match VerifyProof overflow (u64 (ev_ID e) -u start) hash proof (Root (cm_Message cm)) with
            | Ok _ => Ok tt
            | Err e => Err (ErrTree e)
            end
        end
  end.

Definition ContainsStateSync (cm : CommitmentMessageSigned) (stateSyncID : Z) : bool :=
  (u64 (StartID (cm_Message cm)) <=? stateSyncID) && (stateSyncID <=? u64 (EndID (cm_Message cm))).

Definition cm_EncodeAbi (cm : CommitmentMessageSigned) : option (list Z) :=
  blsVerificationPart ← abi_bls (cm_PublicKeys cm) (s_Bitmap (cm_AggSignature cm));
  commitFn_EncodeAbi (mkCommitFn (cm_Message cm) (AggregatedSignature (cm_AggSignature cm)) blsVerificationPart).

Definition cm_DecodeAbi (txData : list Z) : result StateTxErr CommitmentMessageSigned :=
  if (length txData <? abiMethodIDLength)%nat then Err ErrLength
  else
    match commitFn_DecodeAbi txData with
    | Err e => Err e
    | Ok commit =>
        match abi_bls_decode (cf_Bitmap commit) with
        | None => Err ErrAbi
        | Some None => Err ErrBlsPart
        | Some (Some (None, _)) => Err ErrKeysPart
        | Some (Some (Some _, None)) => Err ErrBitmapPart
        | Some (Some (Some publicKeys, Some bitmap)) =>
            Ok (mkSigned (cf_Commitment commit) (mkAggSignature (cf_Signature commit) bitmap) publicKeys)
        end
    end.

(** ** State transactions *)

Inductive StateTransactionInput :=
  | InCommitment (cm : CommitmentMessageSigned)
  | InCommitEpoch (f : CommitEpochChildValidatorSetFn).

Definition decodeStateTransaction (txData : list Z) : result StateTxErr StateTransactionInput :=
  if (length txData <? abiMethodIDLength)%nat then Err ErrLength
  else
    let sig := take abiMethodIDLength txData in
    if bool_decide (sig = commit_ID) then match cm_DecodeAbi txData with Ok cm => Ok (InCommitment cm) | Err e => Err e end
    else if bool_decide (sig = commitEpoch_ID) then match commitEpochFn_DecodeAbi txData with Ok f => Ok (InCommitEpoch f) | Err e => Err e end
    else Err ErrUnknown.

(** The commitment of the first transaction that registers one. *)
Fixpoint getCommitmentMessageSignedTx (txs : list Transaction) : result StateTxErr (option CommitmentMessageSigned) :=
  match txs with
  | [] => Ok None
  | tx :: txs =>
      if negb (TxType tx =? StateTx) || (length (Input tx) <? abiMethodIDLength)%nat ||
         negb (bool_decide (take abiMethodIDLength (Input tx) = commit_ID))
      then getCommitmentMessageSignedTx txs
      else match cm_DecodeAbi (Input tx) with Ok obj => Ok (Some obj) | Err e => Err e end
  end.

End StateTx.

(** * System contracts ([consensus/plgbft/system_state.go])

    Queries of the validator-set and bridge contracts on a state transition. The ABI
    encoder of the calls is a parameter. [None] is a panic. *)
Local Open Scope go_scope.

Definition ValidatorSetContract : Address := 0x101.
Definition StateReceiverContract : Address := 0x1001.

(** [ethgo/contract] encodes the call of a method and decodes its output: a map whose
    entries can be of other types than expected, or an error. *)
Class SystemAbi := {
  in_getCurrentValidatorSet : list Z;
  in_getValidator : Address -> list Z;
  in_currentEpochId : list Z;
  in_lastCommittedId : list Z;
  out_addresses : list Z -> option (option (list Address));
  out_validator : list Z -> option (option (list Z) * option Z * option bool);
  out_uint : list Z -> option (option Z);
}.

Inductive SystemErr := ErrCall (e : VMErr) | ErrOutput | ErrAddresses | ErrBlsKey | ErrUnmarshalKey (e : BlsErr) | ErrStake | ErrActive | ErrUint.

Section SystemState.
Context `{Bn256} {T : Type} `{TransitionOps T} `{SystemAbi}.

Definition contract_Call {A} (decode : list Z -> option A) (addr : Address) (input : list Z) (t : T) : option (result SystemErr A * T) :=
  '(r, t) ← provider_Call t addr input;
  Some (match r with Err e => Err (ErrCall e) | Ok raw => match decode raw with None => Err ErrOutput | Some a => Ok a end end, t).

(** The checks on the output of [getValidator], in their order. *)
Definition read_validator (addr : Address) (output : option (list Z) * option Z * option bool) : result SystemErr ValidatorMetadata :=
  let '(blsKey, totalStake, active) := output in
  match blsKey with
  | None => Err ErrBlsKey
  | Some blsKey =>
      match UnmarshalPublicKeyFromBigInt blsKey with
      | Err e => Err (ErrUnmarshalKey e)
      | Ok pubKey =>
          match totalStake, active with
          | None, _ => Err ErrStake
          | _, None => Err ErrActive
          | Some totalStake, Some isActive => Ok (mkValidator addr (Some pubKey) totalStake isActive)
          end
      end
  end.

Definition queryValidator (addr : Address) (t : T) : option (result SystemErr ValidatorMetadata * T) :=
  '(output, t) ← contract_Call out_validator ValidatorSetContract (in_getValidator addr) t;
  Some (match output with Err e => Err e | Ok output => read_validator addr output end, t).

Fixpoint query_all (addresses : list Address) (res : list ValidatorMetadata) (t : T) : option (result SystemErr (list ValidatorMetadata) * T) :=
  match addresses with
  | [] => Some (Ok res, t)
  | addr :: addresses =>
      '(val, t) ← queryValidator addr t;
      match val with
      | Err e => Some (Err e, t)
      | Ok val => query_all addresses (if negb (v_IsActive val) then res else res ++ [val]) t
      end
  end.

Definition GetValidatorSet (t : T) : option (result SystemErr (list ValidatorMetadata) * T) :=
  '(output, t) ← contract_Call out_addresses ValidatorSetContract in_getCurrentValidatorSet t;
  match output with
  | Err e => Some (Err e, t)
  | Ok None => Some (Err ErrAddresses, t)
  | Ok (Some addresses) => query_all addresses [] t
  end.

Definition get_uint (addr : Address) (input : list Z) (f : Z -> Z) (t : T) : option (result SystemErr Z * T) :=
  '(rawResult, t) ← contract_Call out_uint addr input t;
  Some (match rawResult with Err e => Err e | Ok None => Err ErrUint | Ok (Some n) => Ok (f n) end, t).

Definition GetEpoch (t : T) : option (result SystemErr Z * T) := get_uint ValidatorSetContract in_currentEpochId u64 t.

Definition GetNextCommittedIndex (t : T) : option (result SystemErr Z * T) :=
  get_uint StateReceiverContract in_lastCommittedId (fun n => u64 n +u 1) t.

End SystemState.
