(* ===== verification/Fsm.v ===== *)
(** * The consensus state machine of one block ([consensus/plgbft/fsm.go])

    What a validator does for one height: build a proposal or validate the one of the
    proposer, check the seals of others, and insert the block once enough validators have
    sealed it. The executor, the pool and the chain are seen through interfaces. [None] is a
    panic. *)

From stdpp Require Import gmap strings.
From S2P Require Import Prelude ChainTypes BigInt Runtime Receipts Rlp ChainRlp Trie Buildroot Executor BlockBuilder.
From S2P Require Import Bls Validators PlgExtra Merkle StateTx.
Local Open Scope go_scope.

Definition PlgBFTMixDigest : Hash := 0xadce6e5230abe012342a44e4e9b6d05997d6f015387ae0e59be924afc7ec70c1.

Inductive HeaderErr := ErrParentHash | ErrNumber | ErrTimestamp | ErrMixDigest | ErrDifficulty | ErrHeaderHash.

Inductive StateTxsErr :=
  | ErrUnknownStateTx (e : StateTxErr) | ErrCommitmentNotExpected | ErrCommitmentTwice | ErrSigners (e : SetErr) | ErrNoQuorum
  | ErrAggSignature (e : BlsErr) | ErrCommitmentHash | ErrBadSignature | errCommitEpochTxSingleExpected | ErrEpochEncode
  | ErrEpochTxDiffers | errCommitEpochTxNotExpected | errCommitEpochTxDoesNotExist.

Inductive ExtraDataErr := ErrCurrentValidators (e : SystemErr) | ErrExtraData (e : ExtraErr) | ErrTransition (e : SetErr).

Inductive FsmErr :=
  | ErrExtra (e : RlpErr) | ErrReset | ErrEncode | ErrWrite (e : WriteErr) | ErrSystem (e : SystemErr) | ErrSetDelta (e : SetErr)
  | ErrSetHash | ErrProposalHash | ErrDecodeBlock (e : RlpErr) | ErrHeader (e : HeaderErr) | ErrMissingCheckpoint
  | ErrMissingParentCheckpoint | ErrParentSignatures (e : ExtraErr) | ErrStateTxs (e : StateTxsErr) | ErrTraceValidators
  | ErrProcess (e : ProcessErr ExtraDataErr) | errProposalDontMatch | ErrNodeID (a : Address) | ErrSeal (e : BlsErr) | ErrCommitBlock
  | ErrNoValidator | ErrCommitSignature | ErrPayload | ErrRecover | ErrFrom | ErrNotIncluded.

(** A message of [plg-ibft]: its payload without the signature, or the error of computing it. *)
Record ProtoMessage := mkMessage { m_From : list Z; m_Signature : list Z; PayloadNoSig : option (list Z) }.
Record CommittedSeal := mkSeal { cs_Signer : list Z; cs_Signature : list Z }.

(** The sender of a signed digest. *)
Class MessageSigner := { ecrecover : list Z -> list Z -> option Address }.

Record fsm (T : Type) `{Bn256} := mkFsm {
  f_bridge : bool;
  f_chainID : Z;
  f_parent : Header;
  f_validators : validatorSet;
  f_blockBuilder : BlockBuilder T;
  f_epochNumber : Z;
  f_commitEpochInput : CommitEpochChildValidatorSetFn;
  f_isEndOfEpoch : bool;
  f_isEndOfSprint : bool;
  f_proposerCommitmentToRegister : option CommitmentMessageSigned;
  f_target : option FullBlock;
  f_exitEventRootHash : Hash;
  f_debug : bool;
  f_trace : bool;
}.
Arguments mkFsm {T _}. Arguments f_bridge {T _}. Arguments f_chainID {T _}. Arguments f_parent {T _}. Arguments f_validators {T _}.
Arguments f_blockBuilder {T _}. Arguments f_epochNumber {T _}. Arguments f_commitEpochInput {T _}. Arguments f_isEndOfEpoch {T _}.
Arguments f_isEndOfSprint {T _}. Arguments f_proposerCommitmentToRegister {T _}. Arguments f_target {T _}. Arguments f_exitEventRootHash {T _}.
Arguments f_debug {T _}. Arguments f_trace {T _}.

Definition set_builder {T} `{Bn256} (b : BlockBuilder T) (f : fsm T) : fsm T :=
  mkFsm (f_bridge f) (f_chainID f) (f_parent f) (f_validators f) b (f_epochNumber f) (f_commitEpochInput f) (f_isEndOfEpoch f)
    (f_isEndOfSprint f) (f_proposerCommitmentToRegister f) (f_target f) (f_exitEventRootHash f) (f_debug f) (f_trace f).

Definition set_target {T} `{Bn256} (t : option FullBlock) (f : fsm T) : fsm T :=
  mkFsm (f_bridge f) (f_chainID f) (f_parent f) (f_validators f) (f_blockBuilder f) (f_epochNumber f) (f_commitEpochInput f) (f_isEndOfEpoch f)
    (f_isEndOfSprint f) (f_proposerCommitmentToRegister f) t (f_exitEventRootHash f) (f_debug f) (f_trace f).

(** ** Effects: a state, errors and panics *)

Definition FsmM (S A : Type) : Type := S -> option (result FsmErr A * S).
#[global] Instance FsmM_ret S : MRet (FsmM S) := fun A a s => Some (Ok a, s).
#[global] Instance FsmM_bind S : MBind (FsmM S) := fun A B k m s =>
  match m s with None => None | Some (Err e, s) => Some (Err e, s) | Some (Ok a, s) => k a s end.

Definition raise {S A} (e : FsmErr) : FsmM S A := fun s => Some (Err e, s).
Definition deref {S A} (o : option A) : FsmM S A := fun s => match o with None => None | Some a => Some (Ok a, s) end.
Definition try {S E A} (err : E -> FsmErr) (r : result E A) : FsmM S A := match r with Ok a => mret a | Err e => raise (err e) end.
Definition some_or {S A} (err : FsmErr) (o : option A) : FsmM S A := match o with Some a => mret a | None => raise err end.
Definition attempt {S E A} (err : E -> FsmErr) (o : option (result E A)) : FsmM S A := r ← deref o; try err r.

Section Fsm.
Context `{Bn256} `{!EqDecision G2} `{Fastrlp} `{RlpAccess} `{AbiCodec} `{!plgbftBackend} `{HeaderHasher}.
Context `{BridgeAbi} `{SystemAbi} {T : Type} `{TransitionOps T}.

Definition string_bytes (s : String.string) : list Z := (fun c => Z.of_N (Ascii.N_of_ascii c)) <$> String.list_ascii_of_string s.
Definition DomainCheckpointManager : list Z := keccak256 (string_bytes "DOMAIN_CHECKPOINT_MANAGER"%string).
Definition DomainStateReceiver : list Z := keccak256 (string_bytes "DOMAIN_STATE_RECEIVER"%string).

Definition Accounts (f : fsm T) : list ValidatorMetadata := vs_validators (f_validators f).

Definition Height (f : fsm T) : Z := h_Number (f_parent f) +u 1.

Definition createStateTransactionWithData (target : Address) (inputData : list Z) : Transaction :=
  ComputeHash (mkTx 0 0 StateTransactionGasLimit (Some target) 0 inputData 0 0 0 ZeroHash SystemCaller StateTx).

Definition createCommitEpochTx (f : fsm T) : option Transaction :=
  input ← commitEpochFn_EncodeAbi (f_commitEpochInput f);
  Some (createStateTransactionWithData ValidatorSetContract input).

Definition createBridgeCommitmentTx (cm : CommitmentMessageSigned) : option Transaction :=
  inputData ← cm_EncodeAbi cm;
  Some (createStateTransactionWithData StateReceiverContract inputData).

Definition getValidatorsTransition (f : fsm T) (delta : option ValidatorSetDelta) : option (result SetErr (list ValidatorMetadata)) :=
  ApplyDelta (Accounts f) delta.

(** ** Proposals *)

Section Proposer.
Context {P : Type} `{PoolOps P}.

Abbreviation M := (FsmM (fsm T * P)).

Definition get_fsm : M (fsm T) := fun s => Some (Ok (fst s), s).
Definition on_builder (b : BlockBuilder T) : M unit := fun s => Some (Ok tt, (set_builder b (fst s), snd s)).

Definition builder_Reset (now now' : Z) : M unit :=
  f ← get_fsm;
  let '(ok, b) := Reset (f_blockBuilder f) now now' in
  _ ← on_builder b;
  if (ok : bool) then mret tt else raise ErrReset.

Definition builder_WriteTx (tx : Transaction) : M unit :=
  f ← get_fsm;
  '(err, b) ← deref (WriteTx (f_blockBuilder f) tx);
  _ ← on_builder b;
  match err with Some e => raise (ErrWrite e) | None => mret tt end.

Definition builder_Fill (ticks : nat) : M unit := fun '(f, p) =>
  match Fill ticks (f_blockBuilder f) p with None => None | Some (b, p) => Some (Ok tt, (set_builder b f, p)) end.

(** [getCurrentValidators] on the state of the builder. *)
Definition builder_validators : M (list ValidatorMetadata) :=
  f ← get_fsm;
  t ← deref (bb_state (f_blockBuilder f));
  '(r, t) ← deref (GetValidatorSet t);
  _ ← on_builder (with_state (f_blockBuilder f) t);
  try ErrSystem r.

Definition applyBridgeCommitmentTx : M unit :=
  f ← get_fsm;
  match f_proposerCommitmentToRegister f with
  | None => mret tt
  | Some cm => tx ← some_or ErrEncode (createBridgeCommitmentTx cm); builder_WriteTx tx
  end.

(** The change of the validator set and the next validators. *)
Definition next_validators : M (option ValidatorSetDelta * list ValidatorMetadata) :=
  f ← get_fsm;
  if f_isEndOfEpoch f then
    nextValidators ← builder_validators;
    validatorsDelta ← try ErrSetDelta (createValidatorSetDelta (Accounts f) nextValidators);
    nextValidators ← attempt ErrSetDelta (getValidatorsTransition f (Some validatorsDelta));
    mret (Some validatorsDelta, nextValidators)
  else mret (None, Accounts f).

Definition set_proposal (raw : list Z) (h : Header) : Header :=
  mkHeader (h_ParentHash h) (h_Sha3Uncles h) (h_Miner h) (h_StateRoot h) (h_TxRoot h) (h_ReceiptsRoot h) (h_LogsBloom h)
    (h_Difficulty h) (h_Number h) (h_GasLimit h) (h_GasUsed h) (h_Timestamp h) (replicate ExtraVanity 0 ++ raw) PlgBFTMixDigest
    (h_Nonce h) (h_Hash h).

Definition builder_Build (raw : list Z) : M FullBlock :=
  f ← get_fsm;
  '(stateBlock, b) ← deref (Build (f_blockBuilder f) (set_proposal raw));
  _ ← on_builder b;
  mret stateBlock.

Definition save_target (b : FullBlock) : M unit := fun s => Some (Ok tt, (set_target (Some b) (fst s), snd s)).

Definition BuildProposal (currentRound now now' : Z) (ticks : nat) : M (list Z) :=
  f ← get_fsm;
  extraParent ← attempt ErrExtra (GetIbftExtra (h_ExtraData (f_parent f)));
  _ ← builder_Reset now now';
  _ ← (if f_isEndOfEpoch f then tx ← some_or ErrEncode (createCommitEpochTx f); builder_WriteTx tx else mret tt);
  _ ← (if f_bridge f then applyBridgeCommitmentTx else mret tt);
  _ ← builder_Fill ticks;
  '(delta, nextValidators) ← next_validators;
  currentHash ← deref (as_Hash (Accounts f));
  currentValidatorsHash ← some_or ErrSetHash currentHash;
  nextHash ← deref (as_Hash nextValidators);
  nextValidatorsHash ← some_or ErrSetHash nextHash;
  let checkpoint := mkCheckpoint currentRound (f_epochNumber f) currentValidatorsHash nextValidatorsHash (f_exitEventRootHash f) in
  raw ← deref (e_MarshalRLPTo (mkExtra delta [] (e_Committed extraParent) None (Some checkpoint)));
  stateBlock ← builder_Build raw;
  _ ← (if f_debug f then _ ← some_or ErrProposalHash (c_Hash checkpoint (f_chainID f) (Height f) (h_Hash (b_Header (fb_Block stateBlock)))); mret tt
       else mret tt);
  _ ← save_target stateBlock;
  mret (block_MarshalRLP (fb_Block stateBlock)).

End Proposer.

(** ** Validation of a proposal *)

Definition validateHeaderFields (parent header : Header) : result HeaderErr unit :=
  if negb (h_Hash parent =? h_ParentHash header) then Err ErrParentHash
  else if negb (h_Number header =? h_Number parent +u 1) then Err ErrNumber
  else if h_Timestamp header <=? h_Timestamp parent then Err ErrTimestamp
  else if negb (h_MixHash header =? PlgBFTMixDigest) then Err ErrMixDigest
  else if h_Difficulty header <=? 0 then Err ErrDifficulty
  else if negb (h_Hash header =? HeaderHash header) then Err ErrHeaderHash
  else Ok tt.

Definition verifyCommitEpochTx (f : fsm T) (commitEpochTx : Transaction) : result StateTxsErr unit :=
  if f_isEndOfEpoch f then
    match createCommitEpochTx f with
    | None => Err ErrEpochEncode
    | Some localCommitEpochTx => if negb (TxHash commitEpochTx =? TxHash localCommitEpochTx) then Err ErrEpochTxDiffers else Ok tt
    end
  else Err errCommitEpochTxNotExpected.

(** The checks of a commitment once it is the only one of the block. *)
Definition verify_commitment (f : fsm T) (cm : CommitmentMessageSigned) : option (result StateTxsErr unit) :=
  match GetFilteredValidators (Accounts f) (s_Bitmap (cm_AggSignature cm)) with
  | Err e => Some (Err (ErrSigners e))
  | Ok signers =>
      if negb (HasQuorum (f_validators f) (GetAddressesAsSet signers)) then Some (Err ErrNoQuorum)
      else
        match Bls.UnmarshalSignature (AggregatedSignature (cm_AggSignature cm)) with
        | Err e => Some (Err (ErrAggSignature e))
        | Ok aggs =>
            match commitment_Hash (cm_Message cm) with
            | None => Some (Err ErrCommitmentHash)
            | Some hash =>
                keys ← mapM v_BlsKey signers;
                verified ← Bls.VerifyAggregated aggs keys (be_bytes 32 hash) DomainStateReceiver;
                Some (if negb verified then Err ErrBadSignature else Ok tt)
            end
        end
  end.

(** The loop, with the flags for the two kinds of transactions. *)
Fixpoint verify_txs (f : fsm T) (commitmentTxExists commitEpochTxExists : bool) (txs : list Transaction) : option (result StateTxsErr unit) :=
  match txs with
  | [] => Some (if f_isEndOfEpoch f && negb commitEpochTxExists then Err errCommitEpochTxDoesNotExist else Ok tt)
  | tx :: txs =>
      if negb (TxType tx =? StateTx) then verify_txs f commitmentTxExists commitEpochTxExists txs
      else
        match decodeStateTransaction (Input tx) with
        | Err e => Some (Err (ErrUnknownStateTx e))
        | Ok (InCommitment cm) =>
            if negb (f_isEndOfSprint f) then Some (Err ErrCommitmentNotExpected)
            else if commitmentTxExists then Some (Err ErrCommitmentTwice)
            else
              r ← verify_commitment f cm;
              match r with Err e => Some (Err e) | Ok _ => verify_txs f true commitEpochTxExists txs end
        | Ok (InCommitEpoch _) =>
            if commitEpochTxExists then Some (Err errCommitEpochTxSingleExpected)
            else
              match verifyCommitEpochTx f tx with
              | Err e => Some (Err e)
              | Ok _ => verify_txs f commitmentTxExists true txs
              end
        end
  end.

Definition VerifyStateTransactions (f : fsm T) (transactions : list Transaction) : option (result StateTxsErr unit) :=
  verify_txs f false false transactions.

(** [validateExtraData], on the state after the transactions. *)
Definition validateExtraData (f : fsm T) (extra : Extra) (checkpoint parentCheckpoint : CheckpointData) (t : T)
    : option (result ExtraDataErr T) :=
  '(next, t) ← (if f_isEndOfEpoch f then GetValidatorSet t else Some (Ok (Accounts f), t));
  match next with
  | Err e => Some (Err (ErrCurrentValidators e))
  | Ok nextValidators =>
      r ← ValidateDelta extra (Accounts f) nextValidators;
      match r with
      | Err e => Some (Err (ErrExtraData e))
      | Ok _ =>
          r ← getValidatorsTransition f (e_Validators extra);
          match r with
          | Err e => Some (Err (ErrTransition e))
          | Ok nextValidators =>
              r ← PlgExtra.Validate checkpoint parentCheckpoint (Accounts f) nextValidators;
              Some (match r with Err e => Err (ErrExtraData e) | Ok _ => Ok t end)
          end
      end
  end.

Definition keep_target (b : FullBlock) : FsmM (fsm T) unit := fun f => Some (Ok tt, set_target (Some b) f).

Definition fsm_Validate (proposal : list Z) : FsmM (fsm T) unit := fun f =>
  (block ← attempt ErrDecodeBlock (block_UnmarshalRLP proposal);
   let header := b_Header block in
   _ ← try ErrHeader (validateHeaderFields (f_parent f) header);
   extra ← attempt ErrExtra (GetIbftExtra (h_ExtraData header));
   parentExtra ← attempt ErrExtra (GetIbftExtra (h_ExtraData (f_parent f)));
   checkpoint ← some_or ErrMissingCheckpoint (e_Checkpoint extra);
   parentCheckpoint ← some_or ErrMissingParentCheckpoint (e_Checkpoint parentExtra);
   _ ← attempt ErrParentSignatures
         (ValidateParentSignatures extra (h_Number header) [] (f_parent f) parentExtra (f_chainID f) DomainCheckpointManager);
   _ ← attempt ErrStateTxs (VerifyStateTransactions f (b_Transactions block));
   _ ← (if f_trace f && (1 <? h_Number header) then _ ← some_or ErrTraceValidators (GetValidators (h_Number header -u 2) []); mret tt else mret tt);
   stateBlock ← attempt ErrProcess (wrapper_ProcessBlock (f_parent f) block (validateExtraData f extra checkpoint parentCheckpoint));
   _ ← (if f_debug f then _ ← some_or ErrProposalHash (c_Hash checkpoint (f_chainID f) (h_Number header) (h_Hash header)); mret tt else mret tt);
   keep_target stateBlock) f.

(** ** Messages and seals *)

Definition ValidateCommit (f : fsm T) (signer seal proposalHash : list Z) : option (result FsmErr unit) :=
  match GetValidatorMetadata (Accounts f) (BytesToAddress signer) with
  | None => Some (Err ErrNoValidator)
  | Some validator =>
      match Bls.UnmarshalSignature seal with
      | Err e => Some (Err (ErrSeal e))
      | Ok signature =>
          key ← v_BlsKey validator;
          ok ← sig_Verify signature key proposalHash DomainCheckpointManager;
          Some (if (ok : bool) then Ok tt else Err ErrCommitSignature)
      end
  end.

Definition RecoverAddressFromSignature `{MessageSigner} (sig rawContent : list Z) : option Address := ecrecover sig (keccak256 rawContent).

Definition ValidateSender `{MessageSigner} (f : fsm T) (msg : ProtoMessage) : result FsmErr unit :=
  match PayloadNoSig msg with
  | None => Err ErrPayload
  | Some msgNoSig =>
      match RecoverAddressFromSignature (m_Signature msg) msgNoSig with
      | None => Err ErrRecover
      | Some signerAddress =>
          if negb (bool_decide (m_From msg = be_bytes 20 signerAddress)) then Err ErrFrom
          else if negb (Includes (f_validators f) signerAddress) then Err ErrNotIncluded
          else Ok tt
      end
  end.

(** ** Insertion *)

Definition nodeIDIndexMap (addresses : list Address) : gmap Address nat :=
  fold_left (fun m '(i, addr) => <[addr := i]> m) (imap pair addresses) ∅.

(** The bitmap and the signatures of the seals. *)
Fixpoint collect_seals (m : gmap Address nat) (seals : list CommittedSeal) (bitmap : Bitmap) (signatures : list Bls.Signature)
    : result FsmErr (Bitmap * list Bls.Signature) :=
  match seals with
  | [] => Ok (bitmap, signatures)
  | commSeal :: seals =>
      let signerAddr := BytesToAddress (cs_Signer commSeal) in
      match m !! signerAddr with
      | None => Err (ErrNodeID signerAddr)
      | Some index =>
          match Bls.UnmarshalSignature (cs_Signature commSeal) with
          | Err e => Err (ErrSeal e)
          | Ok s => collect_seals m seals (bm_Set bitmap (Z.of_nat index)) (signatures ++ [s])
          end
      end
  end.

Definition seal_block (raw : list Z) (b : FullBlock) : FullBlock :=
  let block := fb_Block b in
  mkFullBlock (mkBlock (set_hExtraData (replicate ExtraVanity 0 ++ raw) (b_Header block)) (b_Transactions block) (b_Uncles block)) (fb_Receipts b).

(** [CommitBlock] writes a block to the chain, in the state [B]; the boolean is its success. *)
Section Inserter.
Context {B : Type} (CommitBlock : FullBlock -> B -> bool * B).

Definition commit_block (newBlock : FullBlock) : FsmM (fsm T * B) FullBlock := fun '(f, chain) =>
  let '(ok, chain) := CommitBlock newBlock chain in
  Some (if (ok : bool) then Ok newBlock else Err ErrCommitBlock, (set_target (Some newBlock) f, chain)).

Definition Insert (proposal : list Z) (committedSeals : list CommittedSeal)
    : FsmM (fsm T * B) FullBlock := fun '(f, chain) =>
  (proposedBlock ← attempt ErrDecodeBlock (block_UnmarshalRLP proposal);
   newBlock ← some_or errProposalDontMatch (f_target f);
   if negb (h_Hash (b_Header (fb_Block newBlock)) =? h_Hash (b_Header proposedBlock)) then raise errProposalDontMatch
   else
     extra ← attempt ErrExtra (GetIbftExtra (h_ExtraData (b_Header (fb_Block newBlock))));
     '(bitmap, signatures) ← try id (collect_seals (nodeIDIndexMap (GetAddresses (Accounts f))) committedSeals [] []);
     let committed := mkAggSignature (G1_Marshal (sig_Aggregate signatures)) bitmap in
     raw ← deref (e_MarshalRLPTo (mkExtra (e_Validators extra) (e_Seal extra) (e_Parent extra) (Some committed) (e_Checkpoint extra)));
     commit_block (seal_block raw newBlock)) (f, chain).

End Inserter.

End Fsm.
