(* ===== verification/FsmLemmas.v ===== *)
(** * Built blocks are replayed

    What the executor and the pool promise to builder and validators ([Node] shows that those
    of the code keep it), and that a block made by the builder, from whatever transactions of
    the pool succeed, is replayed to the same state. *)

From stdpp Require Import gmap strings.
From S2P Require Import Prelude ChainTypes BigInt Runtime Receipts Executor Rlp Trie ChainRlp ChainRlpProps Buildroot Bls Validators ValidatorsProps.
From S2P Require Import PlgExtra PlgExtraProps Merkle BlockBuilder StateTx Fsm.
Local Open Scope go_scope.

(** ** What the executor promises *)

(** The fields of a header that the execution depends on. *)
Definition same_env (h h' : Header) : Prop :=
  h_Number h = h_Number h' /\ h_Timestamp h = h_Timestamp h' /\ h_GasLimit h = h_GasLimit h' /\
  h_Difficulty h = h_Difficulty h' /\ h_ParentHash h = h_ParentHash h'.

Class TransitionEnv (T : Type) `{TransitionOps T} : Prop := {
  begin_env root h h' coinbase : same_env h h' -> ex_BeginTxn root h coinbase = ex_BeginTxn root h' coinbase;
}.

(** [replays full t r]: a transition that has seen failed transactions, and one that has not;
    with [full] they have the same receipts. A transition is [settled] between transactions.
    A transaction is [sent] if its hash is right and its sender is the one that is recovered
    from its signature; it is [paid] if its gas covers at least its intrinsic cost. *)
Class TransitionLaws (T : Type) `{Codec} `{TransitionOps T} := {
  laws_env :: TransitionEnv T;
  replays : bool -> T -> T -> Prop;
  settled : T -> Prop;
  sent : Transaction -> Prop;
  paid : Transaction -> Prop;
  sent_state tx : TxType tx = StateTx -> ComputeHash tx = tx -> sent tx;
  settled_begin root h coinbase t : ex_BeginTxn root h coinbase = Some t -> settled t;
  replays_refl t : replays true t t;
  replays_less full t r : replays true t r -> replays full t r;
  replays_write full t r tx t' : replays full t r -> settled t -> sent tx -> tr_Write t tx = Some (None, t') ->
    exists r', tr_Write r (received tx) = Some (None, r') /\ replays full t' r' /\ settled t';
  replays_failed full t r tx e t' : replays full t r -> settled t -> sent tx -> paid tx -> tr_Write t tx = Some (Some e, t') ->
    replays full t' r /\ settled t';
  replays_over full t r tx err t' : replays full t r -> settled t -> tr_WriteFailedReceipt t tx = Some (err, t') ->
    replays false t' r /\ settled t';
  replays_call full t r from to input value gas res t' : replays full t r -> tr_Call2 t from to input value gas = Some (res, t') ->
    exists r', tr_Call2 r from to input value gas = Some (res, r') /\ replays full t' r';
  replays_commit full t r root t' : replays full t r -> tr_Commit t = Some (root, t') ->
    exists r', tr_Commit r = Some (root, r') /\ replays full t' r';
  replays_receipts t r : replays true t r -> tr_Receipts r = tr_Receipts t;
}.

(** ** What the pool promises: it offers transactions with the property [Q] *)

Class PoolLaws (P : Type) `{PoolOps P} (Q : Transaction -> Prop) := {
  pool_ok : P -> Prop;
  ok_Prepare p : pool_ok p -> pool_ok (pool_Prepare p);
  ok_Peek p tx : pool_ok p -> fst (pool_Peek p) = Some tx -> Q tx;
  ok_Peek_pool p : pool_ok p -> pool_ok (snd (pool_Peek p));
  ok_Pop p tx p' : pool_ok p -> pool_Pop p tx = Some p' -> pool_ok p';
  ok_Drop p tx p' : pool_ok p -> pool_Drop p tx = Some p' -> pool_ok p';
  ok_Demote p tx p' : pool_ok p -> pool_Demote p tx = Some p' -> pool_ok p';
}.

(** A transaction of a pool that can be put into a block. *)
Definition offered `{Codec} {T} `{TransitionLaws T} (tx : Transaction) : Prop := sent tx /\ paid tx /\ TxType tx = LegacyTx.

Section Builder.
Context `{Fastrlp} `{HeaderHasher} {T : Type} `{TransitionOps T} `{!TransitionLaws T} {P : Type} `{PoolOps P}.

Lemma marshal_received tx : tx_MarshalRLPWith (received tx) = tx_MarshalRLPWith tx.
Proof using Type.
  unfold received, ComputeHash. destruct (TxType tx =? StateTx) eqn:E; destruct tx; [done|]. unfold tx_MarshalRLPWith. cbn in *. by rewrite E.
Qed.

Lemma received_type tx : TxType (received tx) = TxType tx.
Proof using Type. unfold received, ComputeHash. by destruct (TxType tx =? StateTx), tx. Qed.

Lemma received_state tx : TxType tx = StateTx -> ComputeHash tx = tx -> received tx = tx.
Proof using Type. unfold received. intros -> Hh. by rewrite Z.eqb_refl. Qed.

Lemma received_twice tx : received (received tx) = received tx.
Proof using Type.
  unfold received at 1. rewrite received_type. destruct (TxType tx =? StateTx) eqn:E; unfold received; rewrite E; [by destruct tx|].
  destruct tx. unfold ComputeHash, tx_MarshalRLPWith. cbn in *. by rewrite E.
Qed.

Lemma ComputeHash_twice tx : ComputeHash (ComputeHash tx) = ComputeHash tx.
Proof using Type. by destruct tx. Qed.

Lemma TransactionsRoot_received txs : CalculateTransactionsRoot (received <$> txs) = CalculateTransactionsRoot txs.
Proof using Type.
  unfold CalculateTransactionsRoot. rewrite <- list_fmap_compose. f_equal. apply list_fmap_ext. intros i tx _. apply marshal_received.
Qed.

Lemma BuildBlock_received h txs rs b : BuildBlock h txs rs = Some b ->
  b_Transactions b = txs /\ b_Uncles b = [] /\
  BuildBlock h (received <$> txs) rs = Some (mkBlock (b_Header b) (received <$> txs) []).
Proof using Type.
  unfold BuildBlock. intros Hb.
  assert (Ht : match received <$> txs with [] => Some EmptyRootHash | _ => CalculateTransactionsRoot (received <$> txs) end =
               match txs with [] => Some EmptyRootHash | _ => CalculateTransactionsRoot txs end).
  { rewrite TransactionsRoot_received. by destruct txs. }
  rewrite Ht. destruct (match txs with [] => _ | _ => _ end); [|done]. cbn [mbind option_bind] in *.
  destruct (match rs with [] => _ | _ => _ end); [|done]. cbn [mbind option_bind] in *. by injection Hb as <-.
Qed.

(** The roots do not depend on those the header had. *)
Lemma BuildBlock_rebuilt h txs rs b : BuildBlock h txs rs = Some b ->
  BuildBlock (b_Header b) txs rs = Some b /\ h_ComputeHash (b_Header b) = b_Header b.
Proof using Type.
  unfold BuildBlock. intros Hb. destruct (match txs with [] => _ | _ => _ end); [|done]. cbn [mbind option_bind] in *.
  destruct (match rs with [] => _ | _ => _ end); [|done]. cbn [mbind option_bind] in *. injection Hb as <-. cbn [b_Header].
  unfold h_ComputeHash. split; [|by rewrite HeaderHash_hash]. do 2 f_equal.
  change (set_roots (h_StateRoot (set_hHash ?x ?y)) ?a ?b ?c ?d ?e) with (set_roots (h_StateRoot y) a b c d e).
  set (h1 := set_roots _ _ _ _ _ h) in *. change (set_roots _ _ _ _ _ (set_hHash (HeaderHash h1) h1)) with (set_hHash (HeaderHash h1) h1).
  rewrite HeaderHash_hash. done.
Qed.

(** ** The builder along its operations

    The header it started from, the transition [r0] a validator starts from, and the
    transactions written so far. *)
Record building (params : BlockBuilderParams) (h0 : Header) (r0 : T) (full : bool) (b : BlockBuilder T) : Prop := {
  bu_params : bb_params b = params;
  bu_header : bb_header b = Some h0;
  bu_state : exists t r, bb_state b = Some t /\ write_all r0 (received <$> bb_txns b) = Some (Ok r) /\ replays full t r /\ settled t;
}.

Lemma write_all_app r0 txs txs' r : write_all r0 txs = Some (Ok r) -> write_all r0 (txs ++ txs') = write_all r txs'.
Proof using Type.
  revert r0. induction txs as [|tx txs IH]; intros r0; cbn; [by intros [= ->]|]. destruct (tr_Write r0 tx) as [[[e|] t]|]; [done| |done].
  cbn. apply IH.
Qed.

Lemma Reset_building full b now now' b' : Reset b now now' = (true, b') -> forall h, same_env (fresh_header (bb_params b) now now') h ->
  exists r0, ex_BeginTxn (h_StateRoot (bp_Parent (bb_params b))) h (bp_Coinbase (bb_params b)) = Some r0 /\
    building (bb_params b) (fresh_header (bb_params b) now now') r0 full b' /\ bb_txns b' = [].
Proof using Type.
  unfold Reset. intros Hr h Hh. destruct (ex_BeginTxn _ _ _) as [t|] eqn:E in Hr; [|done]. injection Hr as <-.
  rewrite (begin_env _ _ _ _ Hh) in E. exists t. split; [done|]. split; [|done].
  split; [done..|]. exists t, t. split; [done|]. split; [done|]. split; [apply replays_less, replays_refl|by eapply settled_begin].
Qed.

(** A transaction above the gas limit leaves a receipt only the builder has. *)
Lemma WriteTx_building params h0 r0 full b tx err b' :
  building params h0 r0 full b -> sent tx -> paid tx \/ err = None -> (full = true -> Gas tx <= bp_GasLimit params) -> WriteTx b tx = Some (err, b') ->
  building params h0 r0 full b' /\ bb_txns b' = (match err with Some _ => bb_txns b | None => bb_txns b ++ [tx] end).
Proof using Type.
  intros [Hp Hh (t & r & Hs & Hr & Htr & Hset)] Hsent Hpaid Hgas. unfold WriteTx. rewrite Hs, Hp. cbn [mbind option_bind].
  unfold ExceedsBlockGasLimit. destruct (Z.ltb_spec (bp_GasLimit params) (Gas tx)) as [Hover|_].
  - destruct full; [specialize (Hgas eq_refl); lia|]. destruct (tr_WriteFailedReceipt t tx) as [[e t']|] eqn:Ew; [|done]. cbn [mbind option_bind].
    destruct (replays_over _ _ _ _ _ _ Htr Hset Ew) as [Htr' Hset'].
    assert (Hb : building params h0 r0 false (with_state b t')) by (split; [done..|]; exists t', r; done).
    destruct e; intros [= <- <-]; done.
  - destruct (tr_Write t tx) as [[[e|] t']|] eqn:Ew; [..|done]; intros [= <- <-].
    + destruct Hpaid as [Hpaid|]; [|done]. destruct (replays_failed _ _ _ _ _ _ Htr Hset Hsent Hpaid Ew) as [Htr' Hset']. split; [|done]. split; [done..|]. by exists t', r.
    + destruct (replays_write _ _ _ _ _ Htr Hset Hsent Ew) as (r' & Hw & Htr' & Hset'). split; [|done].
      split; [done..|]. exists t', r'. split; [done|]. split; [|done]. cbn [bb_txns]. rewrite fmap_app, (write_all_app _ _ _ _ Hr). cbn. by rewrite Hw.
Qed.

Lemma fill_building params h0 r0 full ticks b p b' p' (Q : Transaction -> Prop) `{!PoolLaws P Q} :
  (forall tx, Q tx -> offered tx) -> (full = true -> forall tx, Q tx -> Gas tx <= bp_GasLimit params) ->
  building params h0 r0 full b -> pool_ok p -> fill_loop ticks b p = Some (b', p') ->
  building params h0 r0 full b' /\ exists txs, bb_txns b' = bb_txns b ++ txs /\ Forall (fun tx => TxType tx = LegacyTx) txs.
Proof using Type.
  intros HQ Hlim. revert b p. induction ticks as [|ticks IH]; intros b p Hb Hp; cbn [fill_loop].
  { intros [= <- <-]. split; [done|]. exists []. by rewrite app_nil_r. }
  pose proof (ok_Peek_pool _ Hp) as Hp1. destruct (pool_Peek p) as [otx p1] eqn:Epk. cbn [snd] in Hp1.
  destruct otx as [tx|]; cbn [writeTxPoolTransaction mbind option_bind].
  2: { intros [= <- <-]. split; [done|]. exists []. by rewrite app_nil_r. }
  pose proof (ok_Peek p tx Hp ltac:(by rewrite Epk)) as Htx. destruct (HQ tx Htx) as (Hs & Hpd & Hl).
  destruct (WriteTx b tx) as [[err b1]|] eqn:Ew; [|done]. cbn [mbind option_bind].
  destruct (WriteTx_building _ _ _ _ _ _ _ _ Hb Hs (or_introl Hpd) (fun Hf => Hlim Hf tx Htx) Ew) as [Hb1 Etx]. intros Hfill.
  assert (Hdone : building params h0 r0 full b1 /\ exists txs, bb_txns b1 = bb_txns b ++ txs /\ Forall (fun tx => TxType tx = LegacyTx) txs).
  { split; [done|]. rewrite Etx. destruct err; [exists []; by rewrite app_nil_r|exists [tx]; split; [done|by apply Forall_singleton]]. }
  assert (Hmore : forall p2, pool_ok p2 -> fill_loop ticks b1 p2 = Some (b', p') ->
    building params h0 r0 full b' /\ exists txs, bb_txns b' = bb_txns b ++ txs /\ Forall (fun tx => TxType tx = LegacyTx) txs).
  { intros p2 Hp2 Hf. destruct (IH b1 p2 Hb1 Hp2 Hf) as (Hb' & txs & Etxs & Htxs). split; [done|].
    destruct Hdone as (_ & txs0 & E0 & H0'). exists (txs0 ++ txs). rewrite Etxs, E0, <- app_assoc. split; [done|]. by apply Forall_app. }
  destruct err as [[|e]|]; cbn [fmap option_fmap option_map] in Hfill.
  - destruct (pool_Drop p1 tx) as [p2|] eqn:E2; [|done]. exact (Hmore _ (ok_Drop _ _ _ Hp1 E2) Hfill).
  - destruct (gasLimitReached e); [by injection Hfill as <- <-|]. destruct (IsRecoverable e).
    + destruct (pool_Demote p1 tx) as [p2|] eqn:E2; [|done]. exact (Hmore _ (ok_Demote _ _ _ Hp1 E2) Hfill).
    + destruct (pool_Drop p1 tx) as [p2|] eqn:E2; [|done]. exact (Hmore _ (ok_Drop _ _ _ Hp1 E2) Hfill).
  - destruct (pool_Pop p1 tx) as [p2|] eqn:E2; [|done]. exact (Hmore _ (ok_Pop _ _ _ Hp1 E2) Hfill).
Qed.

(** What [Build] makes, and what a validator makes of it. *)
Lemma Build_replayed full b handler fb b' h0 t r :
  bb_header b = Some h0 -> bb_state b = Some t -> replays full t r -> Build b handler = Some (fb, b') ->
  let block := fb_Block fb in
  (exists root txRoot receiptsRoot gas, b_Header block = h_ComputeHash (set_roots root txRoot receiptsRoot EmptyUncleHash gas (handler h0))) /\
  b_Transactions block = bb_txns b /\ b_Uncles block = [] /\ h_ComputeHash (b_Header block) = b_Header block /\
  exists r', tr_Commit r = Some (h_StateRoot (b_Header block), r') /\ (full = true -> tr_Receipts r' = fb_Receipts fb) /\
    BuildBlock (b_Header block) (received <$> bb_txns b) (fb_Receipts fb) = Some (mkBlock (b_Header block) (received <$> bb_txns b) []).
Proof using Type.
  intros Hh Hs Htr. unfold Build. rewrite Hh, Hs. cbn [mbind option_bind]. destruct (tr_Commit t) as [[root t']|] eqn:Ec; [|done]. cbn [mbind option_bind].
  set (h1 := set_roots root _ _ _ _ _). destruct (BuildBlock h1 (bb_txns b) (tr_Receipts t')) as [blk|] eqn:Eb; [|done]. cbn [mbind option_bind].
  destruct (BuildBlock_received _ _ _ _ Eb) as (Etx & Eun & _). destruct (BuildBlock_rebuilt _ _ _ _ Eb) as [Hagain Hhash].
  destruct (BuildBlock_received _ _ _ _ Hagain) as (_ & _ & Hrec). rewrite Hhash, Etx, Eun. intros [= <- <-]. cbn [fb_Block fb_Receipts b_Header b_Transactions b_Uncles].
  assert (Hform : exists txRoot receiptsRoot, b_Header blk = h_ComputeHash (set_roots root txRoot receiptsRoot EmptyUncleHash (tr_TotalGas t') (handler h0))).
  { unfold BuildBlock in Eb. destruct (match bb_txns b with [] => _ | _ => _ end) as [a|]; [|done]. cbn [mbind option_bind] in Eb.
    destruct (match tr_Receipts t' with [] => _ | _ => _ end) as [c|]; [|done]. cbn [mbind option_bind] in Eb. injection Eb as <-. by exists a, c. }
  destruct Hform as (a & c & Hform). split; [by exists root, a, c, (tr_TotalGas t')|]. split; [done|]. split; [done|]. split; [done|].
  destruct (replays_commit _ _ _ _ _ Htr Ec) as (r' & Hr & Htr'). exists r'.
  split; [by rewrite Hform|]. split; [|done]. intros ->. by apply replays_receipts.
Qed.

(** The time of a block is later than that of its parent, if a block takes a second or more
    and the clock does not go back. *)
Lemma header_time_later ts blockTime now now' :
  0 <= ts -> second <= blockTime -> now <= now' -> ts * second + blockTime < 2 ^ 63 * second -> now' < 2 ^ 63 * second ->
  ts < header_time ts blockTime now now'.
Proof using Type.
  intros Hts Hb Hn Ht Hn'. unfold header_time, second in *.
  assert (Hsmall : i64 ts = ts) by (unfold i64; rewrite Z.mod_small; unfold two64; lia).
  rewrite Hsmall. rewrite u64_small.
  - apply Z.lt_le_trans with ((ts * 1000000000 + 1000000000) / 1000000000).
    + replace (ts * 1000000000 + 1000000000) with ((ts + 1) * 1000000000) by lia. rewrite Z.div_mul by lia. lia.
    + apply Z.div_le_mono; [lia|]. destruct (Z.ltb_spec (ts * 1000000000 + blockTime) now); lia.
  - split; [apply Z.div_pos; [|lia]|apply Z.div_lt_upper_bound; [lia|]]; destruct (Z.ltb_spec (ts * 1000000000 + blockTime) now); unfold two64; lia.
Qed.

End Builder.

(** * Lemmas on the consensus state machine

    Inversion of the effects, the queries of the system contracts on a replayed transition,
    what a proposal is made of, and state transactions read back. *)
Local Open Scope go_scope.

(** ** Effects *)

Lemma fbind_ok {S A B} (m : FsmM S A) (k : A -> FsmM S B) s b s'' :
  (m ≫= k) s = Some (Ok b, s'') -> exists a s', m s = Some (Ok a, s') /\ k a s' = Some (Ok b, s'').
Proof. unfold mbind, FsmM_bind. destruct (m s) as [[[a|e] s']|]; [|done..]. eauto. Qed.

Lemma fbind_then {S A B} (m : FsmM S A) (k : A -> FsmM S B) s a s' : m s = Some (Ok a, s') -> (m ≫= k) s = k a s'.
Proof. unfold mbind, FsmM_bind. by intros ->. Qed.

Lemma deref_ok {S A} (o : option A) (s : S) a s' : deref o s = Some (Ok a, s') -> o = Some a /\ s' = s.
Proof. unfold deref. destruct o; [|done]. by intros [= -> ->]. Qed.

Lemma try_ok {S E A} (err : E -> FsmErr) (r : result E A) (s : S) a s' : try err r s = Some (Ok a, s') -> r = Ok a /\ s' = s.
Proof. unfold try. destruct r; [|done]. by intros [= -> ->]. Qed.

Lemma some_or_ok {S A} err (o : option A) (s : S) a s' : some_or err o s = Some (Ok a, s') -> o = Some a /\ s' = s.
Proof. unfold some_or. destruct o; [|done]. by intros [= -> ->]. Qed.

Lemma attempt_ok {S E A} (err : E -> FsmErr) (o : option (result E A)) (s : S) a s' :
  attempt err o s = Some (Ok a, s') -> o = Some (Ok a) /\ s' = s.
Proof. unfold attempt. intros (r & s1 & [-> ->]%deref_ok & [-> ->]%try_ok)%fbind_ok. done. Qed.

(** One step of a run that succeeds: its value and what is known of it. *)
Tactic Notation "finv" hyp(Hm) "as" ident(a) ident(H) :=
  let s := fresh "s" in
  apply fbind_ok in Hm as (a & s & H & Hm);
  lazymatch type of H with
  | deref _ _ = _ => apply deref_ok in H as [H ->]
  | try _ _ _ = _ => apply try_ok in H as [H ->]
  | some_or _ _ _ = _ => apply some_or_ok in H as [H ->]
  | attempt _ _ _ = _ => apply attempt_ok in H as [H ->]
  | get_fsm _ = _ => injection H as <- <-
  | on_builder _ _ = _ => injection H as <- <-
  | save_target _ _ = _ => injection H as <- <-
  | mret _ _ = _ => injection H as <- <-
  | _ => idtac
  end.

Section Lemmas.
Context `{Bn256} `{!EqDecision G2} `{Fastrlp} `{RlpAccess} `{AbiCodec} `{!plgbftBackend} `{HeaderHasher}.
Context `{BridgeAbi} `{SystemAbi} {T : Type} `{TransitionOps T}.

(** ** The steps of a proposal *)

Section Proposer.
Context {P : Type} `{PoolOps P}.
Implicit Types (f : fsm T) (p : P).

Lemma builder_WriteTx_ok tx f p s u : builder_WriteTx tx (f, p) = Some (Ok u, s) ->
  exists b, WriteTx (f_blockBuilder f) tx = Some (None, b) /\ s = (set_builder b f, p).
Proof using Type.
  unfold builder_WriteTx. intros Hm. finv Hm as f' Hf. finv Hm as eb Hw. destruct eb as [err b]. finv Hm as u' Hu. destruct err; [done|].
  injection Hm as <- <-. by exists b.
Qed.

(** The transactions of the engine itself, from the builder [b] to [b']. *)
Definition state_writes f (b b' : BlockBuilder T) : Prop :=
  exists b1, (if f_isEndOfEpoch f then exists tx, createCommitEpochTx f = Some tx /\ WriteTx b tx = Some (None, b1) else b1 = b) /\
  match f_bridge f, f_proposerCommitmentToRegister f with
  | true, Some cm => exists tx, createBridgeCommitmentTx cm = Some tx /\ WriteTx b1 tx = Some (None, b')
  | _, _ => b' = b1
  end.

(** The validators of the next block, with the builder after they have been asked for. *)
Definition nexts f (b b' : BlockBuilder T) (delta : option ValidatorSetDelta) (next : list ValidatorMetadata) : Prop :=
  if f_isEndOfEpoch f then
    exists t t' new d, bb_state b = Some t /\ GetValidatorSet t = Some (Ok new, t') /\ b' = with_state b t' /\ delta = Some d /\
      createValidatorSetDelta (Accounts f) new = Ok d /\ getValidatorsTransition f (Some d) = Some (Ok next)
  else b' = b /\ delta = None /\ next = Accounts f.

Lemma builder_validators_ok f p s new : builder_validators (f, p) = Some (Ok new, s) ->
  exists t t', bb_state (f_blockBuilder f) = Some t /\ GetValidatorSet t = Some (Ok new, t') /\
    s = (set_builder (with_state (f_blockBuilder f) t') f, p).
Proof using Type.
  unfold builder_validators. intros Hm. finv Hm as f' Hf. finv Hm as t Ht. finv Hm as rt Hr. destruct rt as [r t']. finv Hm as u Hu.
  apply try_ok in Hm as [-> ->]. by exists t, t'.
Qed.

Lemma next_validators_ok f p s r : next_validators (f, p) = Some (Ok r, s) ->
  exists b, nexts f (f_blockBuilder f) b (fst r) (snd r) /\ s = (set_builder b f, p).
Proof using Type.
  unfold next_validators, nexts. intros Hm. finv Hm as f' Hf. destruct (f_isEndOfEpoch f).
  - finv Hm as new Hn. apply builder_validators_ok in Hn as (t & t' & Ht & Hn & ->). finv Hm as d Hd. finv Hm as next Hx. injection Hm as <- <-.
    eexists. split; [|done]. by exists t, t', new, d.
  - injection Hm as <- <-. exists (f_blockBuilder f). split; [done|]. by destruct f.
Qed.

Lemma builder_Reset_ok now now' f p s u : builder_Reset now now' (f, p) = Some (Ok u, s) ->
  exists b, Reset (f_blockBuilder f) now now' = (true, b) /\ s = (set_builder b f, p).
Proof using Type.
  unfold builder_Reset. intros Hm. finv Hm as f' Hf. destruct (Reset _ now now') as [ok b] eqn:Er. finv Hm as u' Hu. destruct ok; [|done].
  injection Hm as <- <-. by exists b.
Qed.

(** Both kinds of state transactions. *)
Lemma state_writes_ok f p b s1 s2 (u1 u2 : unit) :
  (if f_isEndOfEpoch f then tx ← some_or ErrEncode (createCommitEpochTx f); builder_WriteTx tx else mret tt) (set_builder b f, p) = Some (Ok u1, s1) ->
  (if f_bridge f then applyBridgeCommitmentTx else mret tt) s1 = Some (Ok u2, s2) ->
  exists b', state_writes f b b' /\ s2 = (set_builder b' f, p).
Proof using Type.
  intros Hm1 Hm2. assert (Hw1 : exists b1, (if f_isEndOfEpoch f then exists tx, createCommitEpochTx f = Some tx /\ WriteTx b tx = Some (None, b1) else b1 = b) /\
    s1 = (set_builder b1 f, p)).
  { destruct (f_isEndOfEpoch f); [|injection Hm1 as <- <-; by exists b]. finv Hm1 as tx Htx. apply builder_WriteTx_ok in Hm1 as (b1 & Hw & ->). eauto. }
  destruct Hw1 as (b1 & Hw1 & ->). unfold state_writes. destruct (f_bridge f); [|injection Hm2 as <- <-; exists b1; split; [by exists b1|done]].
  unfold applyBridgeCommitmentTx in Hm2. finv Hm2 as f' Hf. cbn [f_proposerCommitmentToRegister set_builder fst] in Hm2.
  destruct (f_proposerCommitmentToRegister f) as [cm|]; [|injection Hm2 as <- <-; exists b1; split; [by exists b1|done]].
  finv Hm2 as tx Htx. apply builder_WriteTx_ok in Hm2 as (b2 & Hw & ->). exists b2. split; [|done]. exists b1. split; [done|]. eauto.
Qed.

Lemma builder_Build_ok x f p s fb : builder_Build x (f, p) = Some (Ok fb, s) ->
  exists b, Build (f_blockBuilder f) (set_proposal x) = Some (fb, b) /\ s = (set_builder b f, p).
Proof using Type.
  unfold builder_Build. intros Hm. finv Hm as f' Hf. finv Hm as r Hr. destruct r as [fb' b]. finv Hm as u Hu. injection Hm as <- <-. by exists b.
Qed.

Lemma BuildProposal_inv f p round now now' ticks raw f' p' :
  BuildProposal round now now' ticks (f, p) = Some (Ok raw, (f', p')) ->
  exists pe b1 b2 b3 b4 b5 delta next current nxt x fb,
    GetIbftExtra (h_ExtraData (f_parent f)) = Some (Ok pe) /\
    Reset (f_blockBuilder f) now now' = (true, b1) /\ state_writes f b1 b2 /\ Fill ticks b2 p = Some (b3, p') /\
    nexts f b3 b4 delta next /\ as_Hash (Accounts f) = Some (Some current) /\ as_Hash next = Some (Some nxt) /\
    e_MarshalRLPTo (mkExtra delta [] (e_Committed pe) None
      (Some (mkCheckpoint round (f_epochNumber f) current nxt (f_exitEventRootHash f)))) = Some x /\
    Build b4 (set_proposal x) = Some (fb, b5) /\ raw = block_MarshalRLP (fb_Block fb) /\
    f' = set_target (Some fb) (set_builder b5 f).
Proof using Type.
  unfold BuildProposal. intros Hm. finv Hm as f0 Hf. cbn [fst] in Hm. finv Hm as pe Hpe. finv Hm as u1 Hr. apply builder_Reset_ok in Hr as (b1 & Hr & ->).
  finv Hm as u2 Hw1. finv Hm as u3 Hw2. destruct (state_writes_ok _ _ _ _ _ _ _ Hw1 Hw2) as (b2 & Hw & ->). clear Hw1 Hw2.
  finv Hm as u4 Hfill. unfold builder_Fill in Hfill. cbn [f_blockBuilder set_builder] in Hfill.
  destruct (Fill ticks b2 p) as [[b3 p3]|] eqn:Ef; [|done]. injection Hfill as <- <-. finv Hm as dn Hn. apply next_validators_ok in Hn as (b4 & Hn & ->).
  destruct dn as [delta next]. finv Hm as oc Hc. finv Hm as current Hcur. finv Hm as on Ho. finv Hm as nxt Hnxt. subst oc on.
  finv Hm as x Hx. finv Hm as fb Hb. apply builder_Build_ok in Hb as (b5 & Hb & ->). cbn [f_blockBuilder set_builder] in Hb. finv Hm as u5 Hdebug.
  match type of Hdebug with _ = Some (_, ?s') => assert (s' = (set_builder b5 f, p3)) as -> end.
  { destruct (f_debug f); [finv Hdebug as ph Hph|]; by injection Hdebug as <- <-. }
  finv Hm as u6 Ht. injection Hm as <- <- <-. exists pe, b1, b2, b3, b4, b5, delta, next, current, nxt, x, fb. repeat (split; [done|]). done.
Qed.

End Proposer.

(** ** The system contracts on a replayed transition *)

Section Replayed.
Context `{!TransitionLaws T}.

Lemma contract_Call_replays full {A} (decode : list Z -> option A) addr input t r res t' :
  replays full t r -> contract_Call decode addr input t = Some (res, t') ->
  exists r', contract_Call decode addr input r = Some (res, r') /\ replays full t' r'.
Proof using Type.
  unfold contract_Call, provider_Call. intros Htr Hc. destruct (tr_Call2 t _ _ _ _ _) as [[x t1]|] eqn:E; [|done].
  destruct (replays_call _ _ _ _ _ _ _ _ _ _ Htr E) as (r1 & Hr & Htr1). rewrite Hr. cbn [mbind option_bind] in *. injection Hc as <- <-. eauto.
Qed.

Lemma query_all_replays full addrs acc t r res t' :
  replays full t r -> query_all addrs acc t = Some (res, t') -> exists r', query_all addrs acc r = Some (res, r') /\ replays full t' r'.
Proof using Type.
  revert acc t r. induction addrs as [|a addrs IH]; intros acc t r Htr; cbn [query_all]; [intros [= <- <-]; eauto|].
  unfold queryValidator. destruct (contract_Call _ _ _ t) as [[x t1]|] eqn:E; [|done].
  destruct (contract_Call_replays _ _ _ _ _ _ _ _ Htr E) as (r1 & Hr & Htr1). rewrite Hr. cbn [mbind option_bind].
  destruct (match x with Ok o => read_validator a o | Err e => Err e end); [by apply IH|]. intros [= <- <-]. eauto.
Qed.

Lemma GetValidatorSet_replays full t r res t' :
  replays full t r -> GetValidatorSet t = Some (res, t') -> exists r', GetValidatorSet r = Some (res, r') /\ replays full t' r'.
Proof using Type.
  unfold GetValidatorSet. intros Htr. destruct (contract_Call _ _ _ t) as [[x t1]|] eqn:E; [|done].
  destruct (contract_Call_replays _ _ _ _ _ _ _ _ Htr E) as (r1 & Hr & Htr1). rewrite Hr. cbn [mbind option_bind].
  destruct x as [[addrs|]|e]; [by apply query_all_replays|intros [= <- <-]; eauto..].
Qed.

End Replayed.

(** ** Changes of the validator set *)

Abbreviation addrs l := (v_Address <$> l).

Lemma filter_none {A} (Q : A -> Prop) `{forall x, Decision (Q x)} (l : list A) : (forall x, x ∈ l -> ~ Q x) -> filter Q l = [].
Proof using Type.
  intros Hl. destruct (filter Q l) as [|x k] eqn:E; [done|]. assert (Hx : x ∈ filter Q l) by (rewrite E; apply list_elem_of_here).
  apply list_elem_of_filter in Hx as [HQ Hx]. by destruct (Hl x Hx).
Qed.

Lemma delta_members (m : gmap Address ValidatorMetadata) new acc removed added updated :
  fold_left (delta_step m) new acc = Ok (removed, added, updated) ->
  exists r0 a0 u0, acc = Ok (r0, a0, u0) /\ (forall v, v ∈ added -> v ∈ a0 \/ v ∈ new) /\ (forall v, v ∈ updated -> v ∈ u0 \/ v ∈ new).
Proof using Type.
  revert acc. induction new as [|v new IH]; intros acc; cbn [fold_left]; [intros ->; eauto 10|]. intros (r1 & a1 & u1 & Hstep & Ha & Hu)%IH.
  destruct acc as [[[r0 a0] u0]|]; [|done]. exists r0, a0, u0. split; [done|]. cbn [delta_step] in Hstep. destruct (m !! v_Address v) as [old|].
  - destruct (EqualAddressAndBlsKey old v); [|done]. cbn [negb] in Hstep. injection Hstep as <- <- <-. split.
    + intros w [?|?]%Ha; [by left|right; by right].
    + intros w [Hw|?]%Hu; [|right; by right]. destruct (v_Equals old v); [by left|]. apply elem_of_app in Hw as [?|Hw%list_elem_of_singleton]; [by left|]. subst w.
      right. apply list_elem_of_here.
  - injection Hstep as <- <- <-. split; [|intros w [?|?]%Hu; [by left|right; by right]].
    intros w [Hw|?]%Ha; [|right; by right]. apply elem_of_app in Hw as [?|Hw%list_elem_of_singleton]; [by left|]. subst w. right. apply list_elem_of_here.
Qed.

Lemma bm_Set_bytes b i : bytes_ok b -> bytes_ok (bm_Set b i).
Proof using Type.
  intros Hb. unfold bm_Set. apply Forall_alter.
  - apply Forall_app. split; [done|]. apply Forall_replicate. split; done.
  - intros x _ Hx. pose proof (Z.mod_pos_bound i 8 ltac:(lia)) as Hi.
    assert (Hbit : 0 <= 2 ^ (i mod 8) < 2 ^ 8) by (split; [apply Z.pow_nonneg; lia|apply Z.pow_lt_mono_r; lia]).
    split; [apply Z.lor_nonneg; split; [apply Hx|apply Hbit]|]. change 256 with (2 ^ 8).
    destruct (Z.eq_dec (Z.lor x (2 ^ (i mod 8))) 0) as [->|Hne]; [done|]. apply Z.log2_lt_pow2.
    + assert (0 <= Z.lor x (2 ^ (i mod 8))) by (apply Z.lor_nonneg; split; [apply Hx|apply Hbit]). lia.
    + rewrite Z.log2_lor by (apply Hx || apply Hbit). apply Z.max_lub_lt; [|rewrite Z.log2_pow2; lia].
      destruct (Z.eq_dec x 0) as [->|]; [done|]. apply Z.log2_lt_pow2; destruct Hx; lia.
Qed.

Lemma created_delta_fits old new d : createValidatorSetDelta old new = Ok d -> Forall validator_fits new -> delta_fits d.
Proof using Type.
  unfold createValidatorSetDelta. destruct (old_maps old) as [r m]. intros Hd Hn.
  destruct (fold_left _ _ _) as [[[removed added] updated]|] eqn:E; [|done]. injection Hd as <-. apply delta_members in E as (r0 & a0 & u0 & E & Ha & Hu).
  injection E as <- <- <-. rewrite Forall_forall in Hn. split; cbn.
  - apply Forall_forall. intros v [Hv%not_elem_of_nil|Hv]%Ha; [done|by apply Hn].
  - apply Forall_forall. intros v [Hv%not_elem_of_nil|Hv]%Hu; [done|by apply Hn].
  - generalize (map_to_list removed). intros l. induction l as [|p l IH]; [apply List.Forall_nil|]. by apply bm_Set_bytes.
Qed.

Lemma created_delta_same l : NoDup (addrs l) -> Forall (fun v => v_Address v <> ZeroAddress) l -> createValidatorSetDelta l l = Ok empty_delta.
Proof using Type.
  intros Hn Hz. unfold createValidatorSetDelta. destruct (old_maps_spec l Hn Hz) as [Hr Hm]. destruct (old_maps l) as [r m]. cbn [fst snd] in *.
  destruct (delta_fold_spec m r l) as (r' & -> & Hr').
  - intros a [i (v & Hv & <-)%Hr]. exists v. apply Hm. split; [by eapply list_elem_of_lookup_2|done].
  - intros v old Hv [Ho E]%Hm. assert (old = v) as ->.
    { apply list_elem_of_lookup_1 in Hv as [i Hi]. apply list_elem_of_lookup_1 in Ho as [j Hj].
      assert (i = j) as ->. { apply (NoDup_lookup (addrs l) i j (v_Address v) Hn); rewrite list_lookup_fmap; [by rewrite Hi|rewrite Hj; cbn; by rewrite E]. }
      congruence. }
    unfold EqualAddressAndBlsKey. by rewrite Z.eqb_refl, bool_decide_eq_true_2.
  - unfold empty_delta. f_equal. f_equal.
    + apply filter_none. intros v Hv E. assert (m !! v_Address v = Some v) by (by apply Hm). congruence.
    + apply filter_none. intros v Hv. unfold changed. assert (m !! v_Address v = Some v) as -> by (by apply Hm). by intros [].
    + assert (r' = ∅) as ->; [|by rewrite map_to_list_empty]. apply map_empty. intros a. rewrite Hr'. case_decide as Ha; [done|].
      destruct (r !! a) as [i|] eqn:E; [|done]. apply Hr in E as (v & Hv & <-). exfalso. apply Ha, list_elem_of_fmap_2. by eapply list_elem_of_lookup_2.
Qed.

End Lemmas.
