(* ===== verification/FsmSample.v ===== *)
(** * A small network, for witnesses

    The samples of the curve, the codec and the encoders of the other files, a state
    transition that is the list of the hashes of its transactions, a pool that is a list, and
    the proposer and a validator of a block that ends an epoch. [Node] has a block of the
    executor and the pool. *)

From stdpp Require Import gmap strings.
From S2P Require Import Prelude ChainTypes BigInt Runtime Receipts Rlp ChainRlp ChainRlpProps Trie TrieSample Buildroot Executor BlockBuilder FsmLemmas.
From S2P Require Import Bls Validators ValidatorsProps PlgExtra PlgExtraProps Merkle StateTx Fsm.
Local Open Scope go_scope.

#[local] Existing Instance sample_curve.
#[local] Existing Instance sample_curve_laws.
#[local] Existing Instance sample_points_eq.
#[local] Existing Instance ser_codec.
#[local] Existing Instance ser_rlp.
#[local] Existing Instance sample_access.
#[local] Existing Instance sample_access_laws.
#[local] Existing Instance sample_abi.
#[local] Existing Instance sample_backend.

#[local] Existing Instance plg_hasher | 0.

(** ** Encoders *)

#[global] Instance commitment_eq : EqDecision StateSyncCommitment.
Proof. solve_decision. Defined.
#[global] Instance commitFn_eq : EqDecision CommitStateReceiverFn.
Proof. solve_decision. Defined.
#[global] Instance epoch_eq : EqDecision Epoch.
Proof. solve_decision. Defined.
#[global] Instance uptime_eq : EqDecision Uptime.
Proof. solve_decision. Defined.
#[global] Instance commitEpochFn_eq : EqDecision CommitEpochChildValidatorSetFn.
Proof. solve_decision. Defined.

Definition word_rlp (z : Z) : rlp := RBytes (be_bytes 32 z).
Definition rlp_word (r : rlp) : Z := match r with RBytes b => be_val b | _ => 0 end.
Definition rlp_raw (r : rlp) : list Z := match r with RBytes b => b | _ => [] end.
Definition read_rlp (d : list Z) : option rlp := match parse (length d) d with Some (r, []) => Some r | _ => None end.

Definition commit_enc (f : CommitStateReceiverFn) : list Z :=
  let c := cf_Commitment f in
  ser (RArray [word_rlp (StartID c); word_rlp (EndID c); word_rlp (Root c); RBytes (cf_Signature f); RBytes (cf_Bitmap f)]).
Definition commit_dec (d : list Z) : option CommitStateReceiverFn :=
  match read_rlp d with
  | Some (RArray [a; b; c; s; m]) => Some (mkCommitFn (mkCommitment (rlp_word a) (rlp_word b) (rlp_word c)) (rlp_raw s) (rlp_raw m))
  | _ => None
  end.

Definition epoch_enc (f : CommitEpochChildValidatorSetFn) : list Z :=
  let e := ce_Epoch f in
  let u := ce_Uptime f in
  ser (RArray [word_rlp (ce_ID f); word_rlp (StartBlock e); word_rlp (EndBlock e); word_rlp (EpochRoot e); word_rlp (u_EpochID u);
    RArray ((fun '(a, n) => RArray [word_rlp a; word_rlp n]) <$> UptimeData u); word_rlp (TotalBlocks u)]).
Definition epoch_dec (d : list Z) : option CommitEpochChildValidatorSetFn :=
  match read_rlp d with
  | Some (RArray [i; s; e; r; x; RArray us; n]) =>
      Some (mkCommitEpoch (rlp_word i) (mkEpoch (rlp_word s) (rlp_word e) (rlp_word r))
        (mkUptime (rlp_word x) ((fun p => match p with RArray [a; n] => (rlp_word a, rlp_word n) | _ => (0, 0) end) <$> us) (rlp_word n)))
  | _ => None
  end.

(** An encoder fails on what it could not read back. *)
Definition checked {A} `{EqDecision A} (enc : A -> list Z) (dec : list Z -> option A) (a : A) : option (list Z) :=
  if decide (dec (enc a) = Some a) then Some (enc a) else None.

Definition bls_enc (keys : list (list Z)) (bitmap : list Z) : list Z := ser (RArray [RArray (RBytes <$> keys); RBytes bitmap]).

#[global] Instance sample_bridge : BridgeAbi := {|
  abi_commitment c := Some (be_bytes 32 (StartID c) ++ be_bytes 32 (EndID c) ++ be_bytes 32 (Root c));
  abi_event e := Some (be_bytes 32 (ev_ID e) ++ be_bytes 20 (ev_Sender e) ++ be_bytes 20 (ev_Receiver e) ++ ev_Data e);
  abi_bls keys bitmap := Some (bls_enc keys bitmap);
  abi_bls_decode d := match read_rlp d with Some (RArray [RArray ks; b]) => Some (Some (Some (rlp_raw <$> ks), Some (rlp_raw b))) | _ => None end;
  commit_ID := [1; 2; 3; 4];
  commit_inputs := checked commit_enc commit_dec;
  commit_inputs_decode := commit_dec;
  commitEpoch_ID := [5; 6; 7; 8];
  commitEpoch_inputs := checked epoch_enc epoch_dec;
  commitEpoch_inputs_decode := epoch_dec |}.

Lemma checked_roundtrip {A} `{EqDecision A} enc dec (a : A) raw : checked enc dec a = Some raw -> dec raw = Some a.
Proof. unfold checked. case_decide; [|done]. by intros [= <-]. Qed.

Lemma read_ser r : read_rlp (ser r) = Some r.
Proof. unfold read_rlp. pose proof (parse_ser (length (ser r)) r [] ltac:(done)) as Hp. rewrite app_nil_r in Hp. by rewrite Hp. Qed.

#[global] Instance sample_bridge_laws : BridgeAbiLaws.
Proof.
  split; [done..| |intros f raw; apply checked_roundtrip|intros f raw; apply checked_roundtrip].
  intros keys bitmap raw Hraw. unfold abi_bls, sample_bridge in Hraw. injection Hraw as <-. unfold abi_bls_decode, sample_bridge, bls_enc. rewrite read_ser.
  rewrite <- list_fmap_compose. do 4 f_equal. rewrite <- (list_fmap_id keys) at 2. by apply list_fmap_ext.
Qed.

(** ** Contracts: the output of a call is its input *)

#[global] Instance sample_system : SystemAbi := {|
  in_getCurrentValidatorSet := [1]; in_getValidator a := [2; a]; in_currentEpochId := [3]; in_lastCommittedId := [4];
  out_addresses d := Some (Some (v_Address <$> sample_next));
  out_validator d := match d with
    | [_; a] => v ← find (fun v => v_Address v =? a) sample_next;
        Some (k ← v_BlsKey v; Some [0; 0; k; 0], Some (v_VotingPower v), Some (v_IsActive v))
    | _ => None
    end;
  out_uint _ := Some (Some 1) |}.

(** ** Transitions *)

Definition sample_app_error : TransitionApplicationError := NewTransitionApplicationError ErrNonceIncorrect true.

(** Transactions with an odd value fail. *)
#[global] Instance sample_ops : TransitionOps (list Hash) := {|
  ex_BeginTxn root h c := Some [root];
  tr_Write t tx := Some (if Z.odd (TxValue tx) then (Some sample_app_error, t) else (None, t ++ [TxHash tx]));
  tr_WriteFailedReceipt t tx := Some (None, t);
  tr_Call2 t from to input value gas := Some (mkResult input 0 0 None ZeroAddress, t);
  tr_Commit t := Some (BytesToHash (keccak256 (concat (be_bytes 32 <$> t))), t);
  tr_TotalGas t := 21000 * Z.of_nat (length t);
  tr_Receipts t := [] |}.

#[global] Instance sample_env : TransitionEnv (list Hash).
Proof. by split. Qed.

#[global] Instance sample_transition_laws : TransitionLaws (list Hash).
Proof.
  refine {| replays _ := eq : list Hash -> list Hash -> Prop; settled _ := True; sent tx := TxHash (received tx) = TxHash tx; paid _ := True |}; try done.
  - intros tx Ht Hh. by rewrite received_state.
  - intros full t r tx t' <- _ Hs Hw. assert (Ev : TxValue (received tx) = TxValue tx) by (unfold received, ComputeHash; by destruct (TxType tx =? StateTx), tx).
    unfold tr_Write, sample_ops in *. rewrite Ev, Hs. destruct (Z.odd (TxValue tx)); [done|]. injection Hw as <-. eauto.
  - intros full t r tx e t' <- _ _ _. cbn. by destruct (Z.odd (TxValue tx)); intros [= _ <-].
  - intros full t r tx e t' <- _. by intros [= _ <-].
  - intros full t r from to input value gas res t' <- Hc. exists t'. by split.
  - intros full t r root t' <- Hc. exists t'. by split.
Defined.

#[global] Instance sample_pool : PoolOps (list Transaction) := {|
  pool_Prepare p := p; pool_Peek p := (head p, tail p); pool_Pop p _ := Some p; pool_Drop p _ := Some p; pool_Demote p _ := Some p |}.

Definition sample_limit : Z := 10000000.

Definition sample_offer (tx : Transaction) : Prop := offered tx /\ Gas tx <= sample_limit.

#[global] Instance sample_pool_laws : PoolLaws (list Transaction) sample_offer.
Proof.
  refine {| pool_ok := Forall sample_offer |}; try (intros p tx p' Hp [= <-]; exact Hp); [done| |].
  - intros [|x p] tx Hp E; [done|]. injection E as <-. by apply Forall_cons_1 in Hp as [? _].
  - intros [|x p] Hp; [done|]. by apply Forall_cons_1 in Hp as [_ ?].
Defined.

(** ** A proposer and a validator of a block that ends an epoch *)

Definition sample_extra_raw : list Z := replicate ExtraVanity 0 ++ default [] (e_MarshalRLPTo (sample_extra [2; 3])).

Definition sample_parent : Header :=
  h_ComputeHash (mkHeader 1 EmptyUncleHash [] 4 5 6 (replicate BloomByteLength 0) 1 7 sample_limit 21000 1600000000 sample_extra_raw PlgBFTMixDigest 0 0).

Definition sample_params : BlockBuilderParams := mkBuilderParams sample_parent 101 sample_limit (2 * second).
Definition sample_input : CommitEpochChildValidatorSetFn := mkCommitEpoch 1 (mkEpoch 1 8 0) (mkUptime 1 [(101, 7); (102, 6)] 7).

Definition sample_fsm (exitRoot : Hash) : fsm (list Hash) :=
  mkFsm true 100 sample_parent (NewValidatorSet sample_validators) (NewBlockBuilder sample_params) 1 sample_input true true None None exitRoot false true.

(** The second transaction fails. *)
Definition sample_pool_tx (value : Z) : Transaction := received (mkTx 3 1000 21000 (Some 77) value [1; 2] 27 11 12 0 99 LegacyTx).
Definition sample_txs : list Transaction := [sample_pool_tx 4; sample_pool_tx 5; sample_pool_tx 6].

Definition sample_proposal := BuildProposal 0 0 0 5 (sample_fsm 9, sample_txs).

(** ** Facts about them *)

Lemma sample_hashes_any msg domain : (length domain <= 255)%nat -> hashToPoint msg domain = Some (Ok sample_point).
Proof.
  intros Hd. rewrite <- sample_hash. unfold hashToPoint.
  assert (hashToFpXMDSHA256 msg domain 2 = hashToFpXMDSHA256 [1; 2; 3] [4] 2) as ->; [|done].
  unfold hashToFpXMDSHA256, expandMsgSHA256XMD. rewrite (proj2 (Nat.ltb_ge _ _)) by done. reflexivity.
Qed.

Lemma sample_seals hash domain : (length domain <= 255)%nat -> Verify (sample_signature [2; 3]) sample_validators hash domain = Some (Ok tt).
Proof.
  intros Hd. apply (@Verify_accepts sample_curve _ _ _ _ ((fun i => sample_validator (i + 1) (10 * (i + 1))) <$> [2; 3])
    (sample_point * foldr Z.add 0 (sample_keys [2; 3])) (sample_keys [2; 3]) sample_point (-1)).
  all: try exact (sample_hashes_any (be_bytes 32 hash) domain Hd).
  all: try (match goal with |- @eq bool _ _ => idtac end; vm_cast_no_check (@eq_refl bool true)).
  all: reflexivity.
Qed.

Lemma sample_contract t : GetValidatorSet t = Some (Ok sample_next, t) :> option (result SystemErr (list ValidatorMetadata) * list Hash).
Proof. reflexivity. Qed.

Lemma sample_raw_extra : GetIbftExtra sample_extra_raw = Some (Ok (sample_extra [2; 3])).
Proof.
  unfold sample_extra_raw. destruct (extra_rlp (sample_extra [2; 3])) as (x & Hx & _); [apply sample_extra_fits; by_computation|].
  unfold e_MarshalRLPTo. rewrite Hx. cbn [fmap option_fmap option_map default from_option]. unfold id.
  rewrite (GetIbftExtra_encoded (sample_extra [2; 3]) x) by (first [apply sample_extra_fits; by_computation|done]). done.
Qed.

Lemma sample_parent_extra : GetIbftExtra (h_ExtraData sample_parent) = Some (Ok (sample_extra [2; 3])).
Proof. assert (h_ExtraData sample_parent = sample_extra_raw) as -> by reflexivity. exact sample_raw_extra. Qed.

(** Blocks that fit their Go types, decided. *)
Definition in_range (n x : Z) : bool := (0 <=? x) && (x <? n).

Definition header_fits_b (h : Header) : bool :=
  forallb (in_range (2 ^ 256)) [h_ParentHash h; h_Sha3Uncles h; h_StateRoot h; h_TxRoot h; h_ReceiptsRoot h; h_MixHash h] &&
  forallb (in_range two64) [h_Difficulty h; h_Number h; h_GasLimit h; h_GasUsed h; h_Timestamp h; h_Nonce h] &&
  forallb (in_range 256) (h_Miner h ++ h_ExtraData h ++ h_LogsBloom h) && (length (h_LogsBloom h) =? BloomByteLength)%nat.

Definition tx_fits_b (t : Transaction) : bool :=
  forallb (in_range two64) [Nonce t; Gas t] && forallb (fun x => 0 <=? x) [GasPrice t; TxValue t; sigV t; sigR t; sigS t] &&
  forallb (in_range 256) (Input t) && in_range (2 ^ 160) (From t) && match To t with Some a => in_range (2 ^ 160) a | None => true end &&
  ((TxType t =? LegacyTx) || (TxType t =? StateTx)).

Definition block_fits_b (b : Block) : bool := header_fits_b (b_Header b) && forallb tx_fits_b (b_Transactions b) && (length (b_Uncles b) =? 0)%nat.

Ltac split_checks := repeat match goal with
  | Hc : _ && _ = true |- _ => apply andb_true_iff in Hc as [? ?]
  | Hc : in_range _ _ = true |- _ => unfold in_range in Hc
  | Hc : forallb _ (_ :: _) = true |- _ => cbn [forallb] in Hc
  end.

Lemma forallb_bytes l : forallb (in_range 256) l = true -> bytes_ok l.
Proof. intros Hl. apply Forall_forall. intros x Hx. rewrite forallb_forall in Hl. specialize (Hl x (proj1 (list_elem_of_In _ _) Hx)). unfold in_range, byte_ok in *. lia. Qed.

Lemma header_fits_sound h : header_fits_b h = true -> header_ok h.
Proof.
  unfold header_fits_b. rewrite !forallb_app. intros Hc. split_checks. split; unfold word, is_u64, bloom_fits; try lia; try by apply forallb_bytes.
  split; [by apply Nat.eqb_eq|by apply forallb_bytes].
Qed.

Lemma tx_fits_sound t : tx_fits_b t = true -> tx_fits t.
Proof.
  unfold tx_fits_b. intros Hc. split_checks. split; unfold is_u64, addr_ok; try lia; [|by apply forallb_bytes].
  intros a Ha. destruct (To t); [|done]. injection Ha as ->. unfold in_range in *. lia.
Qed.

Lemma block_fits_sound b : block_fits_b b = true -> block_fits b.
Proof.
  unfold block_fits_b. intros Hc. split_checks. split; [by apply header_fits_sound| |].
  - apply Forall_forall. intros t Ht. apply tx_fits_sound. match goal with Hf : forallb tx_fits_b _ = true |- _ => by apply (proj1 (forallb_forall _ _) Hf), list_elem_of_In end.
  - destruct (b_Uncles b); [apply List.Forall_nil|done].
Qed.

Lemma sample_proposal_check :
  match sample_proposal with Some (Ok _, (f, _)) => match f_target f with Some fb => block_fits_b (fb_Block fb) | None => false end | _ => false end = true.
Proof. vm_cast_no_check (@eq_refl bool true). Qed.

Lemma sample_proposal_made : exists raw f p fb, sample_proposal = Some (Ok raw, (f, p)) /\ f_target f = Some fb /\ block_fits (fb_Block fb).
Proof.
  pose proof sample_proposal_check as Hc. destruct sample_proposal as [[[raw|] [f p]]|]; [|discriminate Hc..]. destruct (f_target f) as [fb|] eqn:E; [|discriminate Hc].
  exists raw, f, p, fb. split; [done|]. split; [done|]. by apply block_fits_sound.
Qed.
