(* ===== verification/ProposalProps.v ===== *)
(** * Proposals of an honest proposer

    The steps of the validation of a block an honest proposer has built, against the
    interfaces of executor and pool: the two nodes run the same transactions on the same
    state, ask the same contracts and compute the same block. [Node] instantiates them. Of the
    header, the gas used is not looked at. *)

From stdpp Require Import gmap strings.
From S2P Require Import Prelude ChainTypes BigInt Runtime Receipts Rlp ChainRlp ChainRlpProps Trie Buildroot Executor BlockBuilder FsmLemmas.
From S2P Require Import Bls Validators ValidatorsProps PlgExtra PlgExtraProps Merkle StateTx Fsm FsmSample TrieSample.
Local Open Scope go_scope.

(** ** State transactions read back *)

Section StateTransactions.
Context `{Codec} `{BridgeAbi} `{!BridgeAbiLaws}.

Lemma encoded_length id inputs raw : length id = 4%nat -> encode_method id inputs = Some raw -> (length raw <? abiMethodIDLength)%nat = false.
Proof using Type.
  unfold encode_method. intros Hid Hraw. destruct inputs as [x|]; [|done]. injection Hraw as <-. rewrite length_app, Hid. by apply Nat.ltb_ge; unfold abiMethodIDLength; lia.
Qed.

Lemma decodeMethod_encoded {A} id (decode : list Z -> option A) (a : A) x : length id = 4%nat -> decode x = Some a -> decodeMethod id decode (id ++ x) = Ok a.
Proof using Type.
  intros Hid Ha. unfold decodeMethod. rewrite (encoded_length id (Some x)) by done. rewrite take_app_length. rewrite bool_decide_eq_true_2 by done. cbn [negb].
  change abiMethodIDLength with 4%nat. rewrite <- Hid, drop_app_length. by rewrite Ha.
Qed.

Lemma decode_commitEpoch fn raw : commitEpochFn_EncodeAbi fn = Some raw -> decodeStateTransaction raw = Ok (InCommitEpoch fn).
Proof using Type*.
  unfold commitEpochFn_EncodeAbi, decodeStateTransaction. intros Hraw. rewrite (encoded_length _ _ _ commitEpoch_ID_length Hraw).
  unfold encode_method in Hraw. destruct (commitEpoch_inputs fn) as [x|] eqn:E; [|done]. injection Hraw as <-.
  assert (Ht : take abiMethodIDLength (commitEpoch_ID ++ x) = commitEpoch_ID).
  { change abiMethodIDLength with 4%nat. by rewrite <- commitEpoch_ID_length, take_app_length. }
  rewrite Ht. rewrite bool_decide_eq_false_2 by (intros E'; by apply method_IDs). rewrite bool_decide_eq_true_2 by done.
  unfold commitEpochFn_DecodeAbi. rewrite (decodeMethod_encoded _ _ fn); [done|apply commitEpoch_ID_length|by apply commitEpoch_roundtrip].
Qed.

Lemma decode_commitment cm raw : cm_EncodeAbi cm = Some raw -> decodeStateTransaction raw = Ok (InCommitment cm).
Proof using Type*.
  unfold cm_EncodeAbi, decodeStateTransaction. destruct (abi_bls _ _) as [part|] eqn:Eb; [|done]. cbn [mbind option_bind]. intros Hraw.
  rewrite (encoded_length _ _ _ commit_ID_length Hraw). unfold cm_DecodeAbi. rewrite (encoded_length _ _ _ commit_ID_length Hraw).
  unfold commitFn_EncodeAbi, encode_method in Hraw. destruct (commit_inputs _) as [x|] eqn:E; [|done]. injection Hraw as <-.
  assert (Ht : take abiMethodIDLength (commit_ID ++ x) = commit_ID).
  { change abiMethodIDLength with 4%nat. by rewrite <- commit_ID_length, take_app_length. }
  rewrite Ht, bool_decide_eq_true_2 by done. unfold commitFn_DecodeAbi.
  rewrite (decodeMethod_encoded _ _ _ _ commit_ID_length (commit_roundtrip _ _ E)). cbn [cf_Bitmap]. rewrite (abi_bls_roundtrip _ _ _ Eb).
  cbn [cf_Commitment cf_Signature]. by destruct cm as [m [s b] k].
Qed.

Lemma created_tx target input : let tx := createStateTransactionWithData target input in
  TxType tx = StateTx /\ ComputeHash tx = tx /\ Input tx = input /\ Gas tx = StateTransactionGasLimit.
Proof using Type. done. Qed.

End StateTransactions.

Section Proposal.
Context `{Bn256} `{!EqDecision G2} `{Fastrlp} `{Hcodec : !CodecLaws} `{Hrlp : !FastrlpLaws} `{RlpAccess} `{Hacc : !RlpAccessLaws} `{AbiCodec} `{!plgbftBackend} `{HeaderHasher}.
Context `{BridgeAbi} `{Habi : !BridgeAbiLaws} `{SystemAbi} {T : Type} `{TransitionOps T} `{!TransitionLaws T} {P : Type} `{PoolOps P}.

(** The validator [g] works on the same height as the proposer [f]; the exit roots of the two
    need not be the same. *)
Record same_height (f g : fsm T) : Prop := {
  sh_parent : f_parent g = f_parent f; sh_validators : f_validators g = f_validators f; sh_chain : f_chainID g = f_chainID f;
  sh_epoch : f_isEndOfEpoch g = f_isEndOfEpoch f; sh_sprint : f_isEndOfSprint g = f_isEndOfSprint f;
  sh_input : f_commitEpochInput g = f_commitEpochInput f;
}.

(** The parent block is sealed by its validators, which those of its own parent are asked for. *)
Definition sealed_parent (f : fsm T) (pe : Extra) (pc : CheckpointData) : Prop :=
  Height f <= 1 \/
  exists s pv, e_Committed pe = Some s /\ GetValidators (Height f -u 2) [] = Some pv /\
    verify_checkpoint s pc (f_chainID f) (f_parent f) pv DomainCheckpointManager ErrParentSignature = Some (Ok tt).

(** The set of the block, or at the end of an epoch one that follows from a set of the contract. *)
Definition next_set (f : fsm T) (l : list ValidatorMetadata) : Prop :=
  l = Accounts f \/ f_isEndOfEpoch f = true /\ exists t t' new d, GetValidatorSet t = Some (Ok new, t') /\ createValidatorSetDelta (Accounts f) new = Ok d /\
    getValidatorsTransition f (Some d) = Some (Ok l).

(** A proposer that [FSM] has set up. *)
Record set_up (f g : fsm T) (pe : Extra) (pc : CheckpointData) (round : Z) : Prop := {
  su_builder : bp_Parent (bb_params (f_blockBuilder f)) = f_parent f;
  su_coinbase : addr_ok (bp_Coinbase (bb_params (f_blockBuilder f)));
  su_gas : StateTransactionGasLimit <= bp_GasLimit (bb_params (f_blockBuilder f));
  su_extra : GetIbftExtra (h_ExtraData (f_parent f)) = Some (Ok pe);
  su_committed : all_of signature_fits (e_Committed pe);
  su_checkpoint : e_Checkpoint pe = Some pc;
  su_sealed : sealed_parent g pe pc;
  su_epochs : f_epochNumber f = EpochNumber pc \/ f_isEndOfEpoch f = false /\ f_epochNumber f = EpochNumber pc +u 1;
  su_fits : is_u64 round /\ is_u64 (f_epochNumber f) /\ word (f_exitEventRootHash f);
  su_nodup : NoDup (v_Address <$> Accounts f);
  su_nonzero : Forall (fun v => v_Address v <> ZeroAddress) (Accounts f);
  su_copy : copyable (Accounts f);
  su_contract : f_isEndOfEpoch f = true -> forall t t' new, GetValidatorSet t = Some (Ok new, t') -> Forall validator_fits new;
  su_hashes : forall l, next_set f l -> as_Hash l <> Some (Some 0);
  su_commitment : forall cm, f_bridge f = true -> f_proposerCommitmentToRegister f = Some cm ->
    f_isEndOfSprint f = true /\ verify_commitment g cm = Some (Ok tt);
}.

(** ** The transactions of a proposal *)

Definition epoch_part (f : fsm T) (l : list Transaction) : Prop :=
  if f_isEndOfEpoch f then exists tx, createCommitEpochTx f = Some tx /\ l = [tx] else l = [].

Definition bridge_part (f : fsm T) (l : list Transaction) : Prop :=
  match f_bridge f, f_proposerCommitmentToRegister f with
  | true, Some cm => exists tx, createBridgeCommitmentTx cm = Some tx /\ l = [tx]
  | _, _ => l = []
  end.

Lemma state_tx_sent target input : sent (createStateTransactionWithData target input).
Proof using Type. by apply sent_state. Qed.

Lemma state_writes_building full f params h0 r0 b b' :
  StateTransactionGasLimit <= bp_GasLimit params -> building params h0 r0 full b -> bb_txns b = [] -> state_writes f b b' ->
  building params h0 r0 full b' /\ exists le lb, bb_txns b' = le ++ lb /\ epoch_part f le /\ bridge_part f lb.
Proof using Type.
  intros Hgas Hb Hnil (b1 & Hepoch & Hbridge). unfold epoch_part, bridge_part.
  assert (Hb1 : building params h0 r0 full b1 /\ exists le, bb_txns b1 = le /\
    if f_isEndOfEpoch f then exists tx, createCommitEpochTx f = Some tx /\ le = [tx] else le = []).
  { destruct (f_isEndOfEpoch f); [|subst b1; eauto]. destruct Hepoch as (tx & Htx & Hw). unfold createCommitEpochTx in Htx.
    destruct (commitEpochFn_EncodeAbi _) as [input|] eqn:Ei; [|done]. injection Htx as <-.
    destruct (WriteTx_building _ _ _ _ _ _ _ _ Hb (state_tx_sent _ _) (or_intror eq_refl) (fun _ => Hgas) Hw) as [Hb1 Etx]. split; [done|]. exists (bb_txns b1). split; [done|].
    rewrite Etx, Hnil. eexists. unfold createCommitEpochTx. by rewrite Ei. }
  destruct Hb1 as (Hb1 & le & Ele & Hle). destruct (f_bridge f); [|subst b'; split; [done|]; exists le, []; by rewrite app_nil_r].
  destruct (f_proposerCommitmentToRegister f) as [cm|]; [|subst b'; split; [done|]; exists le, []; by rewrite app_nil_r].
  destruct Hbridge as (tx & Htx & Hw). unfold createBridgeCommitmentTx in *. destruct (cm_EncodeAbi cm) as [input|] eqn:Ei; [|done].
  injection Htx as <-. destruct (WriteTx_building _ _ _ _ _ _ _ _ Hb1 (state_tx_sent _ _) (or_intror eq_refl) (fun _ => Hgas) Hw) as [Hb' Etx]. split; [done|].
  exists le. eexists. rewrite Etx, Ele. eauto.
Qed.

Lemma verify_legacy (g : fsm T) c e txs : Forall (fun tx => TxType tx = LegacyTx) txs ->
  verify_txs g c e txs = Some (if f_isEndOfEpoch g && negb e then Err errCommitEpochTxDoesNotExist else Ok tt).
Proof using Type. induction 1 as [|tx txs Htx _ IH]; [done|]. cbn [verify_txs]. rewrite Htx. exact IH. Qed.

Lemma verify_proposed f g le lb pool :
  same_height f g -> epoch_part f le -> bridge_part f lb -> Forall (fun tx => TxType tx = LegacyTx) pool ->
  (forall cm, f_bridge f = true -> f_proposerCommitmentToRegister f = Some cm ->
    f_isEndOfSprint f = true /\ verify_commitment g cm = Some (Ok tt)) ->
  VerifyStateTransactions g (received <$> ((le ++ lb) ++ pool)) = Some (Ok tt).
Proof using Habi.
  intros Hsame Hle Hlb Hpool Hcm. unfold VerifyStateTransactions.
  assert (Hrest : forall e, (f_isEndOfEpoch g = true -> e = true) -> verify_txs g false e (received <$> (lb ++ pool)) = Some (Ok tt)).
  { intros e He. rewrite fmap_app.
    assert (Hlast : forall c, verify_txs g c e (received <$> pool) = Some (Ok tt)).
    { intros c. rewrite verify_legacy.
      - destruct (f_isEndOfEpoch g); [by rewrite He|done].
      - apply Forall_fmap. eapply Forall_impl; [exact Hpool|]. intros tx Htx. change (TxType (received tx) = LegacyTx). by rewrite received_type. }
    unfold bridge_part in Hlb. destruct (f_bridge f); [|subst lb; apply Hlast]. destruct (f_proposerCommitmentToRegister f) as [cm|]; [|subst lb; apply Hlast].
    destruct Hlb as (tx & Htx & ->). unfold createBridgeCommitmentTx in Htx. destruct (cm_EncodeAbi cm) as [input|] eqn:Ei; [|done]. injection Htx as <-.
    cbn [fmap list_fmap app]. rewrite received_state by done. cbn [verify_txs].
    change (TxType (createStateTransactionWithData StateReceiverContract input)) with StateTx. rewrite Z.eqb_refl. cbn [negb].
    change (Input (createStateTransactionWithData StateReceiverContract input)) with input. rewrite (decode_commitment cm) by done.
    destruct (Hcm cm) as [Hsprint Hv]; [done..|]. rewrite (sh_sprint _ _ Hsame), Hsprint, Hv. cbn [negb mbind option_bind]. apply Hlast. }
  rewrite <- app_assoc, fmap_app. unfold epoch_part in Hle. destruct (f_isEndOfEpoch f) eqn:Ef; [|subst le; apply Hrest; by rewrite (sh_epoch _ _ Hsame), Ef].
  destruct Hle as (tx & Htx & ->).
  assert (Hlocal : createCommitEpochTx g = Some tx) by (unfold createCommitEpochTx in *; by rewrite (sh_input _ _ Hsame)).
  unfold createCommitEpochTx in Htx. destruct (commitEpochFn_EncodeAbi _) as [input|] eqn:Ei; [|done]. injection Htx as <-.
  cbn [fmap list_fmap app]. rewrite received_state by done. cbn [verify_txs].
  change (TxType (createStateTransactionWithData ValidatorSetContract input)) with StateTx. rewrite Z.eqb_refl. cbn [negb].
  change (Input (createStateTransactionWithData ValidatorSetContract input)) with input. rewrite (decode_commitEpoch _ _ Ei).
  unfold verifyCommitEpochTx. rewrite (sh_epoch _ _ Hsame), Ef, Hlocal, Z.eqb_refl. cbn [negb]. by apply Hrest.
Qed.

(** ** The extra field of a proposal *)

Lemma as_Hash_word l h : as_Hash l = Some (Some h) -> word h.
Proof using Hcodec.
  unfold as_Hash. destruct (ToAPIBinding l) as [b|]; [|done]. cbn [mbind option_bind]. destruct (abi_validators b) as [raw|]; [|done]. cbn [mbind option_bind].
  intros [= <-]. apply BytesToHash_word, keccak256_bytes.
Qed.

Lemma proposal_extra_fits (f : fsm T) b b' pe delta next round cur nxt :
  all_of signature_fits (e_Committed pe) -> is_u64 round /\ is_u64 (f_epochNumber f) /\ word (f_exitEventRootHash f) ->
  (f_isEndOfEpoch f = true -> forall t t' new, GetValidatorSet t = Some (Ok new, t') -> Forall validator_fits new) ->
  nexts f b b' delta next -> as_Hash (Accounts f) = Some (Some cur) -> as_Hash next = Some (Some nxt) ->
  extra_fits (mkExtra delta [] (e_Committed pe) None (Some (mkCheckpoint round (f_epochNumber f) cur nxt (f_exitEventRootHash f)))).
Proof using Hcodec.
  intros Hc (Hr & He & Hx) Hset Hn Hcur Hnxt. split; cbn; [|apply List.Forall_nil|done|done|].
  - unfold nexts in Hn. destruct (f_isEndOfEpoch f); [|by destruct Hn as (_ & -> & _)].
    destruct Hn as (t & t' & new & d & _ & Hv & _ & -> & Hd & _). by eapply created_delta_fits, (Hset eq_refl).
  - split; cbn; [done..|by eapply as_Hash_word|by eapply as_Hash_word|done].
Qed.

Lemma checkpoint_valid (f : fsm T) pc cur nxt next round :
  f_epochNumber f = EpochNumber pc \/ f_isEndOfEpoch f = false /\ f_epochNumber f = EpochNumber pc +u 1 ->
  (f_isEndOfEpoch f = false -> next = Accounts f) -> (forall l, next_set f l -> as_Hash l <> Some (Some 0)) -> next_set f next ->
  as_Hash (Accounts f) = Some (Some cur) -> as_Hash next = Some (Some nxt) ->
  PlgExtra.Validate (mkCheckpoint round (f_epochNumber f) cur nxt (f_exitEventRootHash f)) pc (Accounts f) next = Some (Ok tt).
Proof using Type.
  intros Hepoch Hnext Hnz Hns Hcur Hnxt. unfold PlgExtra.Validate, ValidateBasic. cbn [EpochNumber CurrentValidatorsHash NextValidatorsHash].
  assert (Hc0 : (cur =? 0) = false) by (apply Z.eqb_neq; intros ->; apply (Hnz (Accounts f)); [by left|done]).
  assert (Hn0 : (nxt =? 0) = false) by (apply Z.eqb_neq; intros ->; by apply (Hnz next)).
  assert (He : negb (f_epochNumber f =? EpochNumber pc) && negb (f_epochNumber f =? EpochNumber pc +u 1) = false).
  { destruct Hepoch as [->|[_ ->]]; rewrite Z.eqb_refl; [done|]. apply andb_false_r. }
  rewrite He, Hc0, Hn0, Hcur. cbn [mbind option_bind]. rewrite Z.eqb_refl. cbn [negb]. rewrite Hnxt. cbn [mbind option_bind]. rewrite Z.eqb_refl. cbn [negb].
  destruct Hepoch as [->|[Hend _]]; [by rewrite Z.eqb_refl, andb_false_r|]. rewrite (Hnext Hend).
  assert (Hrefl : as_Equals (Accounts f) (Accounts f) = true).
  { generalize (Accounts f). intros l. induction l as [|v l IH]; [done|]. cbn [as_Equals]. by rewrite (proj2 (v_Equals_eq v v) eq_refl). }
  by rewrite Hrefl.
Qed.

Lemma d_Equals_refl d : d_Equals d d = true.
Proof using Type.
  assert (Hrefl : forall l, as_Equals l l = true).
  { induction l as [|v l IH]; [done|]. cbn [as_Equals]. by rewrite (proj2 (v_Equals_eq v v) eq_refl). }
  unfold d_Equals. by rewrite !Hrefl, bool_decide_eq_true_2.
Qed.

Lemma extra_data_valid full f g pe pc round b b' t r delta next cur nxt :
  same_height f g -> set_up f g pe pc round -> bb_state b = Some t -> replays full t r -> nexts f b b' delta next ->
  as_Hash (Accounts f) = Some (Some cur) -> as_Hash next = Some (Some nxt) ->
  let checkpoint := mkCheckpoint round (f_epochNumber f) cur nxt (f_exitEventRootHash f) in
  exists t' r', bb_state b' = Some t' /\ replays full t' r' /\ bb_header b' = bb_header b /\ bb_txns b' = bb_txns b /\
    validateExtraData g (with_validators (mkExtra delta [] (e_Committed pe) None (Some checkpoint))) checkpoint pc r = Some (Ok r').
Proof using Type.
  intros Hsame Hup Ht Htr Hn Hcur Hnxt checkpoint. assert (HA : Accounts g = Accounts f) by (unfold Accounts; by rewrite (sh_validators _ _ Hsame)).
  assert (Hvalid : PlgExtra.Validate checkpoint pc (Accounts f) next = Some (Ok tt)).
  { unfold nexts in Hn. apply checkpoint_valid; [apply (su_epochs _ _ _ _ _ Hup)| |apply (su_hashes _ _ _ _ _ Hup)| |done..].
    - intros Hend. rewrite Hend in Hn. by destruct Hn as (_ & _ & ->).
    - destruct (f_isEndOfEpoch f) eqn:Ee; [|left; by destruct Hn as (_ & _ & ->)]. destruct Hn as (t0 & t' & new & d & _ & ? & _ & _ & ? & ?).
      right. split; [done|]. eauto 10. }
  unfold validateExtraData, ValidateDelta, getValidatorsTransition. rewrite (sh_epoch _ _ Hsame), HA. cbn [with_validators e_Validators].
  unfold nexts, getValidatorsTransition in Hn. destruct (f_isEndOfEpoch f).
  - destruct Hn as (t0 & t' & new & d & Ht0 & Hset & -> & -> & Hd & Hap). assert (t0 = t) as -> by congruence.
    destruct (GetValidatorSet_replays _ _ _ _ _ Htr Hset) as (r' & Hr' & Htr'). exists t', r'. do 4 (split; [done|]).
    rewrite Hr'. cbn [mbind option_bind]. rewrite Hd. cbn [mbind option_bind default from_option]. rewrite d_Equals_refl. cbn [id]. cbn [mbind option_bind]. rewrite Hap. cbn [mbind option_bind].
    by rewrite Hvalid.
  - destruct Hn as (-> & -> & ->). exists t, r. do 4 (split; [done|]). cbn [mbind option_bind].
    rewrite created_delta_same by apply Hup. cbn [mbind option_bind default from_option]. rewrite d_Equals_refl. cbn [mbind option_bind].
    unfold ApplyDelta. cbn [d_IsEmpty empty_delta]. change (d_IsEmpty empty_delta) with true. cbv iota. rewrite (su_copy _ _ _ _ _ Hup).
    cbn [fmap option_fmap option_map mbind option_bind]. by rewrite Hvalid.
Qed.

(** ** The block of a proposal *)

Lemma proposal_parent_signatures f g pe pc round delta checkpoint number :
  same_height f g -> set_up f g pe pc round -> number = Height g ->
  ValidateParentSignatures (with_validators (mkExtra delta [] (e_Committed pe) None (Some checkpoint))) number [] (f_parent g) pe (f_chainID g)
    DomainCheckpointManager = Some (Ok tt) /\ (1 < number -> is_Some (GetValidators (number -u 2) [])).
Proof using Type.
  intros Hsame Hup ->. unfold ValidateParentSignatures. destruct (su_sealed _ _ _ _ _ Hup) as [Hh|(s & pv & Hs & Hpv & Hv)].
  { rewrite (proj2 (Z.leb_le _ _) Hh). split; [reflexivity|lia]. }
  cbn [with_validators e_Parent]. rewrite Hs, Hpv, (su_checkpoint _ _ _ _ _ Hup). cbn [mbind option_bind]. rewrite Hv.
  split; [by destruct (_ <=? _)|intros _; by eexists].
Qed.

(** The state after the transactions of the proposal, as the validator runs them. *)
Lemma proposal_transactions full f g pe pc round now now' ticks p b1 b2 b3 p' h (Q : Transaction -> Prop) `{!PoolLaws P Q} :
  (forall tx, Q tx -> offered tx) -> (full = true -> forall tx, Q tx -> Gas tx <= bp_GasLimit (bb_params (f_blockBuilder f))) ->
  same_height f g -> set_up f g pe pc round -> pool_ok p -> same_env (fresh_header (bb_params (f_blockBuilder f)) now now') h ->
  Reset (f_blockBuilder f) now now' = (true, b1) -> state_writes f b1 b2 -> Fill ticks b2 p = Some (b3, p') ->
  exists r0 t r, ex_BeginTxn (h_StateRoot (f_parent f)) h (bp_Coinbase (bb_params (f_blockBuilder f))) = Some r0 /\
    write_all r0 (received <$> bb_txns b3) = Some (Ok r) /\ bb_state b3 = Some t /\ replays full t r /\
    bb_header b3 = Some (fresh_header (bb_params (f_blockBuilder f)) now now') /\
    VerifyStateTransactions g (received <$> bb_txns b3) = Some (Ok tt).
Proof using Habi.
  intros HQ Hlim Hsame Hup Hp Henv Hreset Hw Hfill. destruct (Reset_building full _ _ _ _ Hreset h Henv) as (r0 & Hr0 & Hb1 & Hnil).
  rewrite (su_builder _ _ _ _ _ Hup) in Hr0. destruct (state_writes_building full f _ _ _ _ _ (su_gas _ _ _ _ _ Hup) Hb1 Hnil Hw) as (Hb2 & le & lb & Etx & Hle & Hlb).
  destruct (fill_building _ _ _ _ ticks b2 (pool_Prepare p) b3 p' Q HQ Hlim Hb2 (ok_Prepare _ Hp) Hfill) as (Hb3 & pool & Epool & Hpool).
  destruct Hb3 as [_ Hh (t & r & Ht & Hr & Htr & _)]. exists r0, t, r. do 5 (split; [done|]). rewrite Epool, Etx.
  apply (verify_proposed f g le lb pool); [done..|]. apply (su_commitment _ _ _ _ _ Hup).
Qed.

(** The header of the block built. *)
Lemma proposal_header params now now' x h root txRoot receiptsRoot gas :
  h = h_ComputeHash (set_roots root txRoot receiptsRoot EmptyUncleHash gas (set_proposal x (fresh_header params now now'))) ->
  same_env (fresh_header params now now') h /\ h_ExtraData h = replicate ExtraVanity 0 ++ x /\ h_MixHash h = PlgBFTMixDigest /\
  h_Miner h = be_bytes 20 (bp_Coinbase params) /\ h_StateRoot h = root /\ h_ParentHash h = h_Hash (bp_Parent params) /\
  h_Number h = h_Number (bp_Parent params) +u 1 /\ h_Difficulty h = 1 /\
  h_Timestamp h = header_time (h_Timestamp (bp_Parent params)) (bp_BlockTime params) now now'.
Proof using Type. intros ->. done. Qed.

Lemma proposal_fields f g pe pc round now now' h :
  same_height f g -> set_up f g pe pc round ->
  h_Timestamp (f_parent f) < header_time (h_Timestamp (f_parent f)) (bp_BlockTime (bb_params (f_blockBuilder f))) now now' ->
  h_ComputeHash h = h -> h_MixHash h = PlgBFTMixDigest -> h_ParentHash h = h_Hash (f_parent f) -> h_Number h = h_Number (f_parent f) +u 1 ->
  h_Difficulty h = 1 -> h_Timestamp h = header_time (h_Timestamp (f_parent f)) (bp_BlockTime (bb_params (f_blockBuilder f))) now now' ->
  validateHeaderFields (f_parent g) h = Ok tt.
Proof using Type.
  intros Hsame Hup Htime Hhash Hm Hph Hnum Hd Ht. unfold validateHeaderFields. rewrite (sh_parent _ _ Hsame), Hph, Hnum, Ht, Hm, Hd, !Z.eqb_refl. cbn [negb].
  rewrite (proj2 (Z.leb_gt _ _)) by lia. cbn. assert (h_Hash h = HeaderHash h) as ->; [|by rewrite Z.eqb_refl]. by rewrite <- Hhash at 1.
Qed.

(** What a validation goes through: the facts for each of its steps, with the block that the
    replay gives ([None] if it panics). *)
Record processed (g : fsm T) (raw : list Z) (block : Block) (extra pe : Extra) (c pc : CheckpointData) (o : option FullBlock) : Prop := {
  va_decode : block_UnmarshalRLP raw = Some (Ok block);
  va_fields : validateHeaderFields (f_parent g) (b_Header block) = Ok tt;
  va_extra : GetIbftExtra (h_ExtraData (b_Header block)) = Some (Ok extra);
  va_parent : GetIbftExtra (h_ExtraData (f_parent g)) = Some (Ok pe);
  va_checkpoint : e_Checkpoint extra = Some c;
  va_parent_checkpoint : e_Checkpoint pe = Some pc;
  va_signatures : ValidateParentSignatures extra (h_Number (b_Header block)) [] (f_parent g) pe (f_chainID g) DomainCheckpointManager = Some (Ok tt);
  va_trace : 1 < h_Number (b_Header block) -> f_trace g = true -> is_Some (GetValidators (h_Number (b_Header block) -u 2) []);
  va_state : VerifyStateTransactions g (b_Transactions block) = Some (Ok tt);
  va_debug : f_debug g = true -> is_Some (c_Hash c (f_chainID g) (h_Number (b_Header block)) (h_Hash (b_Header block)));
  va_process : wrapper_ProcessBlock (f_parent g) block (validateExtraData g extra c pc) = Ok <$> o;
}.

Definition validated g raw block extra pe c pc (sb : FullBlock) : Prop := processed g raw block extra pe c pc (Some sb).

Lemma fsm_Validate_run g raw block extra pe c pc o :
  processed g raw block extra pe c pc o -> fsm_Validate raw g = (fun sb => (Ok tt, set_target (Some sb) g)) <$> o.
Proof using Type.
  intros [Hd Hf He Hp Hc Hpc Hs Ht Hv Hg Hb]. unfold fsm_Validate. cbv zeta. erewrite fbind_then; [|unfold attempt; rewrite Hd; reflexivity].
  erewrite fbind_then; [|rewrite Hf; reflexivity]. erewrite fbind_then; [|unfold attempt; rewrite He; reflexivity].
  erewrite fbind_then; [|unfold attempt; rewrite Hp; reflexivity]. erewrite fbind_then; [|rewrite Hc; reflexivity].
  erewrite fbind_then; [|rewrite Hpc; reflexivity]. erewrite fbind_then; [|unfold attempt; rewrite Hs; reflexivity].
  erewrite fbind_then; [|unfold attempt; rewrite Hv; reflexivity]. set (h := b_Header block) in *.
  assert (Ht' : (if f_trace g && (1 <? h_Number h) then _ ← some_or ErrTraceValidators (GetValidators (h_Number h -u 2) []); mret tt else mret tt) g = Some (Ok tt, g)).
  { destruct (f_trace g); [|done]. destruct (Z.ltb_spec 1 (h_Number h)); [|done]. destruct Ht as [pv ->]; done. }
  erewrite fbind_then; [|exact Ht']. destruct o as [sb|]; [|unfold mbind at 1, FsmM_bind at 1, attempt; by rewrite Hb].
  erewrite fbind_then; [|unfold attempt; rewrite Hb; reflexivity].
  assert (Hg' : (if f_debug g then _ ← some_or ErrProposalHash (c_Hash c (f_chainID g) (h_Number h) (h_Hash h)); mret tt else mret tt) g = Some (Ok tt, g)).
  { destruct (f_debug g); [|done]. by destruct Hg as [ph ->]. }
  by erewrite fbind_then; [|exact Hg'].
Qed.

Lemma fsm_Validate_ok g raw block extra pe c pc sb :
  validated g raw block extra pe c pc sb -> fsm_Validate raw g = Some (Ok tt, set_target (Some sb) g).
Proof using Type. apply fsm_Validate_run. Qed.

Lemma fsm_Validate_inv g raw g' : fsm_Validate raw g = Some (Ok tt, g') ->
  exists block extra pe c pc sb, validated g raw block extra pe c pc sb /\ g' = set_target (Some sb) g.
Proof using Type.
  unfold fsm_Validate. cbv zeta. intros Hm. finv Hm as block Hd. finv Hm as u1 Hf. finv Hm as extra He. finv Hm as pe Hp. finv Hm as c Hc. finv Hm as pc Hpc.
  finv Hm as u2 Hs. finv Hm as u3 Hv. destruct u1, u2, u3. set (h := b_Header block) in *. finv Hm as u4 Ht.
  match type of Ht with _ = Some (_, ?s') => assert (s' = g /\ (1 < h_Number h -> f_trace g = true -> is_Some (GetValidators (h_Number h -u 2) []))) as [-> Htr] end.
  { destruct (f_trace g); [|by injection Ht as <- <-]. destruct (Z.ltb_spec 1 (h_Number h)); [|injection Ht as <- <-; split; [done|lia]].
    cbn [andb] in Ht. finv Ht as pv Hpv. injection Ht as <- <-. split; [done|]. rewrite Hpv. by eexists. }
  finv Hm as sb Hb. finv Hm as u5 Hg.
  match type of Hg with _ = Some (_, ?s') => assert (s' = g /\ (f_debug g = true -> is_Some (c_Hash c (f_chainID g) (h_Number h) (h_Hash h)))) as [-> Hdb] end.
  { destruct (f_debug g); [|by injection Hg as <- <-]. finv Hg as ph Hph. injection Hg as <- <-. split; [done|]. rewrite Hph. by eexists. }
  injection Hm as <-. exists block, extra, pe, c, pc, sb. done.
Qed.

(** The validation of the block of an honest proposer, step by step; with [full], no
    transaction of the pool is above the gas limit. *)
Lemma proposal_processed full (f g f' : fsm T) (p p' : P) (pe : Extra) (pc : CheckpointData) (round now now' : Z) (ticks : nat) (raw : list Z)
    (Q : Transaction -> Prop) (Hpool : PoolLaws P Q) :
  (forall tx, Q tx -> offered tx) -> (full = true -> forall tx, Q tx -> Gas tx <= bp_GasLimit (bb_params (f_blockBuilder f))) ->
  same_height f g -> set_up f g pe pc round -> pool_ok p ->
  h_Timestamp (f_parent f) < header_time (h_Timestamp (f_parent f)) (bp_BlockTime (bb_params (f_blockBuilder f))) now now' ->
  (f_debug g = true -> forall c n h, is_Some (c_Hash c (f_chainID g) n h)) ->
  BuildProposal round now now' ticks (f, p) = Some (Ok raw, (f', p')) ->
  (forall fb, f_target f' = Some fb -> block_fits (fb_Block fb)) ->
  exists fb delta c receipts, f_target f' = Some fb /\ raw = block_MarshalRLP (fb_Block fb) /\ b_Uncles (fb_Block fb) = [] /\
    let block := mkBlock (b_Header (fb_Block fb)) (received <$> b_Transactions (fb_Block fb)) [] in
    let extra := mkExtra delta [] (e_Committed pe) None (Some c) in
    (full = true -> receipts = fb_Receipts fb) /\
    BuildBlock (b_Header block) (b_Transactions block) (fb_Receipts fb) = Some block /\
    extra_fits extra /\
    processed g raw block (with_validators extra) pe c pc
      ((fun sb => mkFullBlock sb receipts) <$> BuildBlock (b_Header block) (b_Transactions block) receipts).
Proof using Hcodec Hrlp Hacc Habi.
  intros HQ Hlim Hsame Hup Hp Htime Hdebug Hbuild Hfits.
  destruct (BuildProposal_inv _ _ _ _ _ _ _ _ _ Hbuild) as (pe' & b1 & b2 & b3 & b4 & b5 & delta & next & cur & nxt & x & fb & Hpe & Hreset & Hw & Hfill & Hn & Hcur & Hnxt & Hx & Hb & -> & ->).
  assert (pe' = pe) as -> by (rewrite (su_extra _ _ _ _ _ Hup) in Hpe; by injection Hpe).
  specialize (Hfits fb eq_refl). set (checkpoint := mkCheckpoint _ _ _ _ _) in Hx.
  pose proof (proposal_extra_fits f b3 b4 pe delta next round cur nxt (su_committed _ _ _ _ _ Hup) (su_fits _ _ _ _ _ Hup) (su_contract _ _ _ _ _ Hup) Hn Hcur Hnxt) as Hxf. fold checkpoint in Hxf.
  set (params := bb_params (f_blockBuilder f)) in *.
  (* the header of the block *)
  assert (Hform : exists root txRoot receiptsRoot gas, b_Header (fb_Block fb) =
    h_ComputeHash (set_roots root txRoot receiptsRoot EmptyUncleHash gas (set_proposal x (fresh_header params now now')))).
  { destruct (proposal_transactions full f g pe pc round now now' ticks p b1 b2 b3 p' _ Q HQ Hlim Hsame Hup Hp (conj eq_refl (conj eq_refl (conj eq_refl (conj eq_refl eq_refl)))) Hreset Hw Hfill)
      as (_ & t & r & _ & _ & Ht & Htr & Hh & _).
    destruct (extra_data_valid full f g pe pc round b3 b4 t r delta next cur nxt Hsame Hup Ht Htr Hn Hcur Hnxt) as (t4 & r4 & Ht4 & Htr4 & Hh4 & _ & _).
    rewrite Hh in Hh4. apply (Build_replayed full b4 _ fb b5 _ t4 r4 Hh4 Ht4 Htr4 Hb). }
  destruct Hform as (root & txRoot & receiptsRoot & gas & Hform). apply proposal_header in Hform as (Henv & Hxd & Hmix & Hminer & _ & Hph & Hnum & Hdiff & Hts).
  (* the transactions, the callback and the block *)
  destruct (proposal_transactions full f g pe pc round now now' ticks p b1 b2 b3 p' _ Q HQ Hlim Hsame Hup Hp Henv Hreset Hw Hfill)
    as (r0 & t & r & Hbegin & Hwrite & Ht & Htr & Hh & Hverify).
  destruct (extra_data_valid full f g pe pc round b3 b4 t r delta next cur nxt Hsame Hup Ht Htr Hn Hcur Hnxt) as (t4 & r4 & Ht4 & Htr4 & Hh4 & Etx4 & Hcall).
  rewrite Hh in Hh4. destruct (Build_replayed full b4 _ fb b5 _ t4 r4 Hh4 Ht4 Htr4 Hb) as (_ & Etx & Eun & Hhash & r5 & Hcommit & Hrec & Hbb).
  rewrite Etx4 in Etx, Hbb. exists fb, delta, checkpoint, (tr_Receipts r5). split; [done|]. split; [done|]. split; [done|].
  cbn [b_Header b_Transactions]. rewrite Etx. split; [exact Hrec|]. split; [exact Hbb|]. split; [exact Hxf|]. set (h := b_Header (fb_Block fb)) in *. fold checkpoint in Hcall.
  assert (Hparent : bp_Parent params = f_parent f) by apply Hup. rewrite Hparent in Hph, Hnum, Hts.
  assert (Hdecode : block_UnmarshalRLP (block_MarshalRLP (fb_Block fb)) = Some (Ok (mkBlock h (received <$> bb_txns b3) []))).
  { rewrite block_decode by done. rewrite Etx, Eun. fold h. by rewrite Hhash. }
  assert (Hextra : GetIbftExtra (h_ExtraData h) = Some (Ok (with_validators (mkExtra delta [] (e_Committed pe) None (Some checkpoint))))).
  { rewrite Hxd. unfold e_MarshalRLPTo in Hx. destruct (e_MarshalRLPWith _) as [v|] eqn:Ev; [|done]. injection Hx as <-. by apply GetIbftExtra_encoded. }
  assert (Hheight : h_Number h = Height g) by (unfold Height; by rewrite (sh_parent _ _ Hsame)).
  destruct (proposal_parent_signatures f g pe pc round delta checkpoint _ Hsame Hup Hheight) as [Hsig Htrace].
  assert (Hprocess : wrapper_ProcessBlock (f_parent g) (mkBlock h (received <$> bb_txns b3) [])
    (validateExtraData g (with_validators (mkExtra delta [] (e_Committed pe) None (Some checkpoint))) checkpoint pc) =
    Ok <$> ((fun sb => mkFullBlock sb (tr_Receipts r5)) <$> BuildBlock h (received <$> bb_txns b3) (tr_Receipts r5))).
  { unfold wrapper_ProcessBlock. cbn [b_Header b_Transactions]. rewrite Hminer, (sh_parent _ _ Hsame), address_bytes by apply Hup. fold params in Hbegin. rewrite Hbegin, Hwrite.
    cbn [mbind option_bind]. rewrite Hcall. cbn [mbind option_bind]. rewrite Hcommit. cbn [mbind option_bind]. rewrite Z.eqb_refl. cbn [negb].
    by destruct (BuildBlock h (received <$> bb_txns b3) (tr_Receipts r5)). }
  split; [done|by apply (proposal_fields f g pe pc round now now' h)|done|rewrite (sh_parent _ _ Hsame); apply Hup|done|apply Hup|done| |done| |done].
  - intros Hn1 _. by apply Htrace.
  - intros Hd. by apply Hdebug.
Qed.

(** Without transactions above the limit, the block is the one of the proposer. *)
Lemma proposal_validated (f g f' : fsm T) (p p' : P) (pe : Extra) (pc : CheckpointData) (round now now' : Z) (ticks : nat) (raw : list Z)
    (Q : Transaction -> Prop) (Hpool : PoolLaws P Q) :
  (forall tx, Q tx -> offered tx) -> (forall tx, Q tx -> Gas tx <= bp_GasLimit (bb_params (f_blockBuilder f))) ->
  same_height f g -> set_up f g pe pc round -> pool_ok p ->
  h_Timestamp (f_parent f) < header_time (h_Timestamp (f_parent f)) (bp_BlockTime (bb_params (f_blockBuilder f))) now now' ->
  (f_debug g = true -> forall c n h, is_Some (c_Hash c (f_chainID g) n h)) ->
  BuildProposal round now now' ticks (f, p) = Some (Ok raw, (f', p')) ->
  (forall fb, f_target f' = Some fb -> block_fits (fb_Block fb)) ->
  exists fb delta c, f_target f' = Some fb /\ raw = block_MarshalRLP (fb_Block fb) /\ b_Uncles (fb_Block fb) = [] /\
    let block := mkBlock (b_Header (fb_Block fb)) (received <$> b_Transactions (fb_Block fb)) [] in
    let extra := mkExtra delta [] (e_Committed pe) None (Some c) in
    extra_fits extra /\ validated g raw block (with_validators extra) pe c pc (mkFullBlock block (fb_Receipts fb)).
Proof using Hcodec Hrlp Hacc Habi.
  intros HQ Hlim Hsame Hup Hp Htime Hdebug Hbuild Hfits.
  destruct (proposal_processed true f g f' p p' pe pc round now now' ticks raw Q Hpool HQ (fun _ => Hlim) Hsame Hup Hp Htime Hdebug Hbuild Hfits)
    as (fb & delta & c & receipts & Ht & Hraw & Hun & Hrec & Hbb & Hx & Hv).
  exists fb, delta, c. split; [done|]. split; [done|]. split; [done|]. split; [exact Hx|]. rewrite (Hrec eq_refl), Hbb in Hv. exact Hv.
Qed.

End Proposal.

(** ** What a validation does not look at *)

Section Unchecked.
Context `{Bn256} `{!EqDecision G2} `{Fastrlp} `{Hcodec : !CodecLaws} `{Hrlp : !FastrlpLaws} `{RlpAccess} `{AbiCodec} `{!plgbftBackend} `{HeaderHasher}.
Context `{BridgeAbi} `{SystemAbi} {T : Type} `{TransitionOps T} `{Henv : !TransitionEnv T}.

Definition with_gas (gas : Z) (b : Block) : Block :=
  let h := b_Header b in
  mkBlock (set_roots (h_StateRoot h) (h_TxRoot h) (h_ReceiptsRoot h) (h_Sha3Uncles h) gas h) (b_Transactions b) (b_Uncles b).

Lemma with_gas_fits gas b : is_u64 gas -> block_fits b -> block_fits (with_gas gas b).
Proof using Type. intros Hg [[] Ht Hu]. split; [|done..]. by split. Qed.

Lemma process_gas gas (parent h : Header) txs {E} (callback : T -> option (result E T)) sb :
  let h' := h_ComputeHash (set_roots (h_StateRoot h) (h_TxRoot h) (h_ReceiptsRoot h) (h_Sha3Uncles h) gas h) in
  wrapper_ProcessBlock parent (mkBlock h txs []) callback = Some (Ok sb) ->
  exists sb', wrapper_ProcessBlock parent (mkBlock h' txs []) callback = Some (Ok sb') /\ h_GasUsed (b_Header (fb_Block sb')) = gas.
Proof using Henv.
  intros h'. unfold wrapper_ProcessBlock. cbn [b_Header b_Transactions].
  rewrite (begin_env (h_StateRoot parent) h h' _) by (by repeat split). change (h_Miner h') with (h_Miner h). change (h_StateRoot h') with (h_StateRoot h).
  destruct (ex_BeginTxn _ _ _) as [t|]; [|done]. destruct (write_all t txs) as [[r|]|]; [|done..]. cbn [mbind option_bind].
  destruct (callback r) as [[r1|]|]; [|done..]. cbn [mbind option_bind]. destruct (tr_Commit r1) as [[root r2]|]; [|done]. cbn [mbind option_bind].
  destruct (negb _); [done|]. unfold BuildBlock. destruct (match txs with [] => _ | _ => _ end) as [txRoot|]; [|done]. cbn [mbind option_bind].
  destruct (match tr_Receipts r2 with [] => _ | _ => _ end) as [rRoot|]; [|done]. cbn [mbind option_bind]. intros [= <-]. by eexists.
Qed.

(** C36. The gas used that the header of a proposal states is not validated: if a proposal is
    accepted, so is the same one with any other value, and the value is that of the block the
    validator goes on with. (Nodes that receive the finished block do reject it.) *)
Theorem gas_used_unchecked (g g' : fsm T) (b : Block) (gas : Z) :
  block_fits b -> is_u64 gas -> b_Uncles b = [] -> (f_debug g = true -> forall c n h, is_Some (c_Hash c (f_chainID g) n h)) ->
  fsm_Validate (block_MarshalRLP b) g = Some (Ok tt, g') ->
  exists sb, fsm_Validate (block_MarshalRLP (with_gas gas b)) g = Some (Ok tt, set_target (Some sb) g) /\ h_GasUsed (b_Header (fb_Block sb)) = gas.
Proof using Hcodec Hrlp Henv.
  intros Hb Hgas Hun Hdebug (block & extra & pe & c & pc & sb & [Hd Hf He Hp Hc Hpc Hs Ht Hv _ Hproc] & _)%fsm_Validate_inv.
  rewrite block_decode in Hd by done. injection Hd as <-. cbn [b_Header b_Transactions] in *. rewrite Hun in Hproc.
  destruct (process_gas gas _ _ _ _ _ Hproc) as (sb' & Hproc' & Hsb). exists sb'. split; [|done].
  set (h := b_Header b) in *.
  assert (Hh : h_ComputeHash (set_roots (h_StateRoot (h_ComputeHash h)) (h_TxRoot (h_ComputeHash h)) (h_ReceiptsRoot (h_ComputeHash h)) (h_Sha3Uncles (h_ComputeHash h)) gas (h_ComputeHash h)) =
    h_ComputeHash (b_Header (with_gas gas b))).
  { unfold with_gas. cbn [b_Header]. fold h.
    change (set_roots _ _ _ _ gas (h_ComputeHash h)) with (set_hHash (HeaderHash h) (set_roots (h_StateRoot h) (h_TxRoot h) (h_ReceiptsRoot h) (h_Sha3Uncles h) gas h)).
    apply h_ComputeHash_set. }
  rewrite Hh in Hproc'.
  apply (fsm_Validate_ok g _ (mkBlock (h_ComputeHash (b_Header (with_gas gas b))) (received <$> b_Transactions b) []) extra pe c pc).
  split; [rewrite block_decode by (by apply with_gas_fits); cbn; by rewrite Hun| |done..| |done].
  - unfold validateHeaderFields in *. unfold with_gas. cbn [b_Header]. fold h. cbn [h_ParentHash h_Number h_Timestamp h_MixHash h_Difficulty h_ComputeHash set_hHash set_roots] in *.
    destruct (negb (h_Hash (f_parent g) =? h_ParentHash h)); [done|]. destruct (negb (h_Number h =? _)); [done|]. destruct (h_Timestamp h <=? _); [done|].
    destruct (negb (h_MixHash h =? _)); [done|]. destruct (h_Difficulty h <=? 0); [done|]. unfold h_ComputeHash. rewrite HeaderHash_hash. cbn [h_Hash set_hHash]. by rewrite Z.eqb_refl.
  - intros Hdb. by apply Hdebug.
Qed.

End Unchecked.

(** ** Witnesses *)

#[local] Existing Instance sample_curve.
#[local] Existing Instance sample_curve_laws.
#[local] Existing Instance sample_points_eq.
#[local] Existing Instance ser_codec.
#[local] Existing Instance ser_rlp.
#[local] Existing Instance sample_access.
#[local] Existing Instance sample_access_laws.
#[local] Existing Instance sample_abi.
#[local] Existing Instance sample_backend.
#[local] Existing Instance plg_hasher | 0.

Lemma sample_same_height : same_height (sample_fsm 9) (sample_fsm 8).
Proof. by split. Qed.

Lemma sample_sealed : sealed_parent (sample_fsm 8) (sample_extra [2; 3]) sample_checkpoint.
Proof.
  right. exists (sample_signature [2; 3]), sample_validators. split; [reflexivity|]. split; [reflexivity|]. unfold verify_checkpoint, c_Hash.
  cbn [abi_checkpoint sample_abi mbind option_bind]. rewrite sample_seals; [reflexivity|]. unfold DomainCheckpointManager. rewrite keccak256_length. lia.
Qed.

Definition nonzero_hash (l : list ValidatorMetadata) : bool := match as_Hash l with Some (Some 0) => false | _ => true end.

Lemma nonzero_hash_spec l : nonzero_hash l = true -> as_Hash l <> Some (Some 0).
Proof. unfold nonzero_hash. intros Hl E. by rewrite E in Hl. Qed.

Lemma sample_hash_checks : nonzero_hash sample_validators &&
  match createValidatorSetDelta sample_validators sample_next with
  | Ok d => match ApplyDelta sample_validators (Some d) with Some (Ok l) => nonzero_hash l | _ => true end
  | Err _ => true
  end = true.
Proof. vm_cast_no_check (@eq_refl bool true). Qed.

Lemma sample_set_hashes (f : fsm (list Hash)) l : Accounts f = sample_validators -> next_set f l -> as_Hash l <> Some (Some 0).
Proof.
  pose proof sample_hash_checks as Hc. apply andb_true_iff in Hc as [Hc Hn]. intros HA Hl. apply nonzero_hash_spec.
  destruct Hl as [->|(_ & t & t' & new & d & Hs & Hd & Ha)]; [rewrite HA; exact Hc|].
  rewrite sample_contract in Hs. apply (f_equal (fun o => match o with Some (Ok l, _) => l | _ => [] end)) in Hs. subst new.
  unfold getValidatorsTransition in Ha. rewrite HA in Hd, Ha. rewrite Hd, Ha in Hn. exact Hn.
Qed.

Lemma sample_validators_fit : Forall validator_fits sample_next.
Proof.
  repeat (apply List.Forall_cons; [|]); [..|apply List.Forall_nil].
  all: split; [split; vm_compute; done|done|]; eexists; split; [reflexivity|]; split; [exact (be_bytes_ok 128 _)|reflexivity].
Qed.

Lemma sample_set_up : set_up (sample_fsm 9) (sample_fsm 8) (sample_extra [2; 3]) sample_checkpoint 0.
Proof.
  split.
  - reflexivity.
  - change (addr_ok 101). split; vm_compute; done.
  - change (StateTransactionGasLimit <= sample_limit). vm_compute. done.
  - exact sample_parent_extra.
  - apply sample_signature_fits. by_computation.
  - reflexivity.
  - exact sample_sealed.
  - by left.
  - change (is_u64 0 /\ is_u64 1 /\ word 9). split; [|split]; split; vm_compute; done.
  - apply sample_validators_ok.
  - change (Forall (fun v => v_Address v <> ZeroAddress) sample_validators). by_computation.
  - exact sample_copyable.
  - intros _ t t' new Hs. rewrite sample_contract in Hs. apply (f_equal (fun o => match o with Some (Ok l, _) => l | _ => [] end)) in Hs. subst new.
    exact sample_validators_fit.
  - intros l. by apply sample_set_hashes.
  - intros cm _ [=].
Qed.

Lemma sample_offered v : v ∈ [4; 5; 6] -> sample_offer (sample_pool_tx v).
Proof.
  intros Hv. enough (Hq : TxType (sample_pool_tx v) = LegacyTx /\ Gas (sample_pool_tx v) <= sample_limit) by (destruct Hq; split; [split; [|split]|]; [|done..];
    change (TxHash (received (sample_pool_tx v)) = TxHash (sample_pool_tx v)); unfold sample_pool_tx; by rewrite received_twice).
  set_unfold in Hv. destruct Hv as [->|[->|[->|[]]]]; split; vm_compute; done.
Qed.

Lemma sample_time : h_Timestamp (f_parent (sample_fsm 9)) < header_time (h_Timestamp (f_parent (sample_fsm 9))) (bp_BlockTime (bb_params (f_blockBuilder (sample_fsm 9)))) 0 0.
Proof. change (1600000000 < header_time 1600000000 (2 * second) 0 0). vm_compute. done. Qed.

Lemma sample_debug : f_debug (sample_fsm 8) = true -> forall c n h, is_Some (c_Hash c (f_chainID (sample_fsm 8)) n h).
Proof. intros [=]. Qed.

Lemma sample_pool_ok : Forall sample_offer sample_txs.
Proof. repeat (apply List.Forall_cons; [apply sample_offered; set_solver|]). apply List.Forall_nil. Qed.

Lemma sample_targets (f : fsm (list Hash)) fb : f_target f = Some fb -> block_fits (fb_Block fb) -> forall fb', f_target f = Some fb' -> block_fits (fb_Block fb').
Proof. intros Hf Hb fb'. rewrite Hf. intros [=]. by subst. Qed.

(** The proposal of the sample, with the facts about its validation. *)
Lemma sample_validated : exists fb delta c,
  let raw := block_MarshalRLP (fb_Block fb) in
  let block := mkBlock (b_Header (fb_Block fb)) (received <$> b_Transactions (fb_Block fb)) [] in
  let extra := mkExtra delta [] (Some (sample_signature [2; 3])) None (Some c) in
  block_fits (fb_Block fb) /\ b_Uncles (fb_Block fb) = [] /\ extra_fits extra /\
  validated (sample_fsm 8) raw block (with_validators extra) (sample_extra [2; 3]) c sample_checkpoint (mkFullBlock block (fb_Receipts fb)).
Proof.
  destruct sample_proposal_made as (raw & f & p & fb & Hrun & Ht & Hfits). unfold sample_proposal in Hrun. pose proof (sample_targets f fb Ht Hfits) as Hall.
  destruct (proposal_validated (sample_fsm 9) (sample_fsm 8) f sample_txs p (sample_extra [2; 3]) sample_checkpoint 0 0 0 5 raw sample_offer sample_pool_laws
    (fun _ Hq => proj1 Hq) (fun _ Hq => proj2 Hq) sample_same_height sample_set_up sample_pool_ok sample_time sample_debug Hrun Hall) as (fb' & delta & c & Ht' & Hraw & Hun & Hx & Hv).
  exists fb', delta, c. split; [exact (Hall fb' Ht')|]. split; [exact Hun|]. split; [exact Hx|]. rewrite <- Hraw. exact Hv.
Qed.

Lemma gas_used_unchecked_witness : exists b sb, fsm_Validate (block_MarshalRLP (with_gas 12345 b)) (sample_fsm 8) = Some (Ok tt, set_target (Some sb) (sample_fsm 8)) /\
  h_GasUsed (b_Header (fb_Block sb)) = 12345.
Proof.
  destruct sample_validated as (fb & delta & c & Hfits & Hun & _ & Hv). exists (fb_Block fb).
  exact (gas_used_unchecked (sample_fsm 8) _ (fb_Block fb) 12345 Hfits ltac:(split; vm_compute; done) Hun sample_debug (fsm_Validate_ok _ _ _ _ _ _ _ _ Hv)).
Defined.
