(* ===== verification/FsmProps.v ===== *)
(** * Sealed blocks and state transactions

    Which transactions of the engine a validator accepts in a proposal, and that a block
    sealed by enough validators is inserted with a signature that finalizes it. *)

From stdpp Require Import gmap strings.
From S2P Require Import Prelude ChainTypes BigInt Runtime Receipts Executor Rlp Trie TrieSample ChainRlp ChainRlpProps Buildroot Bls.
From S2P Require Import Validators ValidatorsProps PlgExtra PlgExtraProps Merkle BlockBuilder StateTx Fsm FsmLemmas FsmSample ProposalProps.
Local Open Scope go_scope.

Section StateTxs.
Context `{Bn256} `{!EqDecision G2} `{Fastrlp} `{BridgeAbi} {T : Type}.
Implicit Types f : fsm T.

(** What a state transaction is decoded to; [None] for other transactions. *)
Definition state_input (tx : Transaction) : option (result StateTxErr StateTransactionInput) :=
  if TxType tx =? StateTx then Some (decodeStateTransaction (Input tx)) else None.

Definition commitment_of (tx : Transaction) : option CommitmentMessageSigned :=
  match state_input tx with Some (Ok (InCommitment cm)) => Some cm | _ => None end.

Definition epoch_end_of (tx : Transaction) : option Transaction :=
  match state_input tx with Some (Ok (InCommitEpoch _)) => Some tx | _ => None end.

Definition readable (tx : Transaction) : Prop := match state_input tx with Some (Err _) => False | _ => True end.

(** The commitments a block may have. *)
Definition commitments_ok f (cms : list CommitmentMessageSigned) : Prop :=
  cms = [] \/ f_isEndOfSprint f = true /\ exists cm, cms = [cm] /\ verify_commitment f cm = Some (Ok tt).

(** The ends of the epoch a block must have. *)
Definition epoch_ends_ok f (txs : list Transaction) : Prop :=
  if f_isEndOfEpoch f then exists tx expected, txs = [tx] /\ createCommitEpochTx f = Some expected /\ TxHash tx = TxHash expected else txs = [].

Lemma verify_epoch_iff f tx : verifyCommitEpochTx f tx = Ok tt <->
  f_isEndOfEpoch f = true /\ exists expected, createCommitEpochTx f = Some expected /\ TxHash tx = TxHash expected.
Proof using Type.
  unfold verifyCommitEpochTx. destruct (f_isEndOfEpoch f); [|split; [done|by intros []]].
  destruct (createCommitEpochTx f) as [x|]; [|split; [done|by intros (_ & ? & ? & _)]]. destruct (Z.eqb_spec (TxHash tx) (TxHash x)) as [E|E].
  - split; [|done]. intros _. eauto.
  - split; [done|]. intros (_ & y & Hy & ?). congruence.
Qed.

Lemma verify_txs_iff f c e txs :
  verify_txs f c e txs = Some (Ok tt) <->
  Forall readable txs /\ (if c then omap commitment_of txs = [] else commitments_ok f (omap commitment_of txs)) /\
  (if e then omap epoch_end_of txs = [] else epoch_ends_ok f (omap epoch_end_of txs)).
Proof using Type.
  revert c e. induction txs as [|tx txs IH]; intros c e; cbn [verify_txs omap list_omap].
  { unfold commitments_ok, epoch_ends_ok. destruct e, c, (f_isEndOfEpoch f); cbn; split; try done.
    all: first [by intros (_ & _ & ? & ? & ? & _)|intros _; repeat split; auto]. }
  rewrite Forall_cons.
  assert (Hi : state_input tx = if TxType tx =? StateTx then Some (decodeStateTransaction (Input tx)) else None) by done.
  assert (Hcm : commitment_of tx = match state_input tx with Some (Ok (InCommitment cm)) => Some cm | _ => None end) by done.
  assert (Hee : epoch_end_of tx = match state_input tx with Some (Ok (InCommitEpoch _)) => Some tx | _ => None end) by done.
  assert (Hre : readable tx <-> match state_input tx with Some (Err _) => False | _ => True end) by done.
  destruct (TxType tx =? StateTx); rewrite Hi in Hcm, Hee, Hre; rewrite Hcm, Hee, Hre; cbn [negb]; [|rewrite IH; tauto].
  destruct (decodeStateTransaction (Input tx)) as [[cm|fn]|err]; [..|split; [done|by intros [[[] _] _]]].
  - unfold commitments_ok at 1. destruct (f_isEndOfSprint f) eqn:Es; cbn [negb].
    2: { split; [done|]. intros (_ & Hc & _). destruct c; [done|]. by destruct Hc as [|[? _]]. }
    destruct c; [split; [done|by intros (_ & ? & _)]|]. destruct (verify_commitment f cm) as [[[]|err]|] eqn:Ev; cbn [mbind option_bind].
    + rewrite IH. split.
      * intros (Hr & Hc & He). split; [done|]. split; [|done]. right. split; [done|]. exists cm. by rewrite Hc.
      * intros ([_ Hr] & [Hc|(_ & x & Hc & _)] & He); [done|]. split; [done|]. split; [|done]. congruence.
    + split; [done|]. intros (_ & [Hc|(_ & x & Hc & Hx)] & _); [done|]. injection Hc as -> _. congruence.
    + split; [done|]. intros (_ & [Hc|(_ & x & Hc & Hx)] & _); [done|]. injection Hc as -> _. congruence.
  - destruct e; [split; [done|by intros (_ & _ & ?)]|]. unfold epoch_ends_ok at 1. destruct (verifyCommitEpochTx f tx) as [[]|err] eqn:Ev.
    + rewrite IH. apply verify_epoch_iff in Ev as (Hend & x & Hx & E). rewrite Hend. split.
      * intros (Hr & Hc & He). split; [done|]. split; [done|]. exists tx, x. by rewrite He.
      * intros ([_ Hr] & Hc & (y & z & Hy & _)). split; [done|]. split; [done|]. congruence.
    + split; [done|]. intros (_ & _ & He). destruct (f_isEndOfEpoch f) eqn:Hend; [|done]. destruct He as (y & z & Hy & Hz & E). injection Hy as -> _.
      assert (verifyCommitEpochTx f y = Ok tt) by (apply verify_epoch_iff; eauto). congruence.
Qed.

(** A commitment that is accepted is signed by validators with two thirds of the power. *)
Lemma verify_commitment_quorum f cm :
  f_validators f = NewValidatorSet (Accounts f) -> NoDup (v_Address <$> Accounts f) -> verify_commitment f cm = Some (Ok tt) ->
  exists signers keys aggs hash, GetFilteredValidators (Accounts f) (s_Bitmap (cm_AggSignature cm)) = Ok signers /\ mapM v_BlsKey signers = Some keys /\
    2 * as_GetTotalVotingPower (Accounts f) <= 3 * power (Accounts f) (fun a => a ∈ GetAddressesAsSet signers) /\
    Bls.UnmarshalSignature (AggregatedSignature (cm_AggSignature cm)) = Ok aggs /\ commitment_Hash (cm_Message cm) = Some hash /\
    Bls.VerifyAggregated aggs keys (be_bytes 32 hash) DomainStateReceiver = Some true.
Proof using Type.
  intros Hv Hn. unfold verify_commitment. destruct (GetFilteredValidators _ _) as [signers|]; [|done]. rewrite Hv, quorum_power by done.
  destruct (Z.leb_spec (getQuorumSize (power (Accounts f) (fun _ => True))) (power (Accounts f) (fun a => a ∈ GetAddressesAsSet signers))) as [Hq|]; [|done]. cbn [negb].
  destruct (Bls.UnmarshalSignature _) as [aggs|]; [|done]. destruct (commitment_Hash _) as [hash|]; [|done]. destruct (mapM v_BlsKey signers) as [keys|] eqn:Hk; [|done]. cbn [mbind option_bind].
  destruct (Bls.VerifyAggregated aggs keys _ _) as [[|]|] eqn:Hver; [|done..]. intros _. exists signers, keys, aggs, hash. do 2 (split; [done|]). split; [|done].
  rewrite total_power. unfold getQuorumSize, BigIntDivCeil in Hq. pose proof (Z.div_mod (power (Accounts f) (fun _ => True) * 2 + 3 - 1) 3 ltac:(lia)).
  pose proof (Z.mod_pos_bound (power (Accounts f) (fun _ => True) * 2 + 3 - 1) 3 ltac:(lia)). lia.
Qed.

(** C12. The state transactions of a proposal are accepted if and only if all of them can be
    decoded; there is at most one commitment, only in the last block of a sprint, and it is
    valid; and the last block of an epoch has exactly one end of the epoch, with the hash of
    the one the validator computes itself, and other blocks have none. A valid commitment
    carries an aggregated signature on its hash by validators with two thirds of the power. *)
Theorem state_transactions (f : fsm T) (txs : list Transaction) :
  (VerifyStateTransactions f txs = Some (Ok tt) <->
   Forall readable txs /\ commitments_ok f (omap commitment_of txs) /\ epoch_ends_ok f (omap epoch_end_of txs)) /\
  (f_validators f = NewValidatorSet (Accounts f) -> NoDup (v_Address <$> Accounts f) -> VerifyStateTransactions f txs = Some (Ok tt) ->
   forall cm, cm ∈ omap commitment_of txs -> exists signers keys aggs hash,
     GetFilteredValidators (Accounts f) (s_Bitmap (cm_AggSignature cm)) = Ok signers /\ mapM v_BlsKey signers = Some keys /\
     2 * as_GetTotalVotingPower (Accounts f) <= 3 * power (Accounts f) (fun a => a ∈ GetAddressesAsSet signers) /\
     Bls.UnmarshalSignature (AggregatedSignature (cm_AggSignature cm)) = Ok aggs /\ commitment_Hash (cm_Message cm) = Some hash /\
     Bls.VerifyAggregated aggs keys (be_bytes 32 hash) DomainStateReceiver = Some true).
Proof using Type.
  split; [apply verify_txs_iff|]. intros Hv Hn Hok cm Hcm. apply verify_txs_iff in Hok as (_ & [E|(_ & x & E & Hx)] & _).
  - rewrite E in Hcm. by apply not_elem_of_nil in Hcm.
  - rewrite E in Hcm. apply list_elem_of_singleton in Hcm as ->. by apply verify_commitment_quorum.
Qed.

End StateTxs.

(** * Sealed blocks

    A validator that has validated a proposal and holds commit seals of a quorum inserts a
    block that every node accepts as final. *)
Local Open Scope go_scope.

Section Seals.
Context `{Hlaws : Bn256Laws} `{!EqDecision G2} `{Fastrlp} `{Hcodec : !CodecLaws} `{Hrlp : !FastrlpLaws} `{RlpAccess} `{Hacc : !RlpAccessLaws}.
Context `{AbiCodec} `{!plgbftBackend} `{BridgeAbi} `{SystemAbi} {T : Type} `{TransitionOps T}.

(** The hash function of this engine. *)
#[local] Existing Instance plg_hasher | 0.

Abbreviation addrs l := (v_Address <$> l).

(** ** The signers of the seals *)

Definition sealer (s : CommittedSeal) : Address := BytesToAddress (cs_Signer s).

Lemma nodeIDIndexMap_spec (l : list Address) a i : NoDup l -> l !! i = Some a -> nodeIDIndexMap l !! a = Some i.
Proof using Type.
  unfold nodeIDIndexMap. induction l as [|x l IH] using rev_ind; [done|]. intros (Hn & Hd & _)%NoDup_app Hi. rewrite imap_app, fold_left_app. cbn. rewrite Nat.add_0_r.
  destruct (decide (i < length l)%nat) as [Hlt|Hge].
  - rewrite lookup_app_l in Hi by done. rewrite lookup_insert_ne; [by apply IH|]. intros ->. apply (Hd a); [by eapply list_elem_of_lookup_2|apply list_elem_of_here].
  - rewrite lookup_app_r in Hi by lia. assert (i = length l) as -> by (apply lookup_lt_Some in Hi; cbn in Hi; lia).
    rewrite Nat.sub_diag in Hi. injection Hi as ->. by rewrite lookup_insert_eq.
Qed.

Lemma ValidateCommit_inv (f : fsm T) signer seal hash : ValidateCommit f signer seal hash = Some (Ok tt) ->
  exists i sig, addrs (Accounts f) !! i = Some (BytesToAddress signer) /\ Bls.UnmarshalSignature seal = Ok sig /\
    signed_by (Accounts f) hash DomainCheckpointManager i sig.
Proof using Type.
  unfold ValidateCommit, GetValidatorMetadata, as_Index. destruct (list_find _ _) as [[i v]|] eqn:E; [|done]. cbn [fmap option_fmap option_map fst mbind option_bind].
  apply list_find_Some in E as (Hi & Hv & _). rewrite Hi. destruct (Bls.UnmarshalSignature seal) as [sig|]; [|done].
  destruct (v_BlsKey v) as [key|] eqn:Ek; [|done]. cbn [mbind option_bind]. destruct (sig_Verify _ _ _ _) as [[|]|] eqn:Ev; [|done..]. intros _.
  exists i, sig. split; [rewrite list_lookup_fmap, Hi; cbn; by rewrite Hv|]. split; [done|]. by exists v, key.
Qed.

Lemma ValidateCommit_accepts (f : fsm T) signer seal hash v key sig :
  GetValidatorMetadata (Accounts f) (BytesToAddress signer) = Some v -> Bls.UnmarshalSignature seal = Ok sig -> v_BlsKey v = Some key ->
  sig_Verify sig key hash DomainCheckpointManager = Some true -> ValidateCommit f signer seal hash = Some (Ok tt).
Proof using Type. intros Hm Hs Hk Hv. unfold ValidateCommit. rewrite Hm, Hs, Hk. cbn [mbind option_bind]. by rewrite Hv. Qed.

Lemma seals_collected (f : fsm T) hash (seals : list CommittedSeal) :
  NoDup (addrs (Accounts f)) -> Forall (fun s => ValidateCommit f (cs_Signer s) (cs_Signature s) hash = Some (Ok tt)) seals ->
  exists idxs sigs, collect_seals (nodeIDIndexMap (GetAddresses (Accounts f))) seals [] [] = Ok (bits idxs, sigs) /\
    Forall2 (signed_by (Accounts f) hash DomainCheckpointManager) idxs sigs /\
    Forall2 (fun s i => addrs (Accounts f) !! i = Some (sealer s)) seals idxs.
Proof using Type.
  intros Hn Hs. assert (Hgen : forall seals idxs0 sigs0, Forall (fun s => ValidateCommit f (cs_Signer s) (cs_Signature s) hash = Some (Ok tt)) seals ->
    exists idxs sigs, collect_seals (nodeIDIndexMap (GetAddresses (Accounts f))) seals (bits idxs0) sigs0 = Ok (bits (idxs0 ++ idxs), sigs0 ++ sigs) /\
      Forall2 (signed_by (Accounts f) hash DomainCheckpointManager) idxs sigs /\
      Forall2 (fun s i => addrs (Accounts f) !! i = Some (sealer s)) seals idxs); [|apply (Hgen seals [] []); done].
  clear seals Hs. induction seals as [|s seals IH]; intros idxs0 sigs0 Hs; [exists [], []; rewrite !app_nil_r; done|].
  apply Forall_cons_1 in Hs as [(i & sig & Hi & Hu & Hsig)%ValidateCommit_inv Hs]. cbn [collect_seals]. fold (sealer s) in *.
  unfold GetAddresses. rewrite (nodeIDIndexMap_spec _ _ i Hn Hi), Hu. rewrite <- bits_snoc. destruct (IH (idxs0 ++ [i]) (sigs0 ++ [sig]) Hs) as (idxs & sigs & E & Hf & Hg).
  exists (i :: idxs), (sig :: sigs). unfold GetAddresses in E. rewrite E, <- !app_assoc. split; [done|]. by split; constructor.
Qed.

(** The seals of a quorum make a signature that verifies. *)
Lemma seals_verify (f : fsm T) (hash : Hash) (seals : list CommittedSeal) :
  NoDup (addrs (Accounts f)) -> Z.of_nat (length (Accounts f)) * 8 < two64 -> seals <> [] -> NoDup (sealer <$> seals) ->
  Forall (fun s => ValidateCommit f (cs_Signer s) (cs_Signature s) (be_bytes 32 hash) = Some (Ok tt)) seals ->
  HasQuorum (NewValidatorSet (Accounts f)) (list_to_set (sealer <$> seals)) = true ->
  exists idxs sigs, collect_seals (nodeIDIndexMap (GetAddresses (Accounts f))) seals [] [] = Ok (bits idxs, sigs) /\
    Forall2 (fun s sig => Bls.UnmarshalSignature (cs_Signature s) = Ok sig) seals sigs /\
    (Bls.UnmarshalSignature (G1_Marshal (sig_Aggregate sigs)) = Ok (sig_Aggregate sigs) ->
     Verify (mkAggSignature (G1_Marshal (sig_Aggregate sigs)) (bits idxs)) (Accounts f) hash DomainCheckpointManager = Some (Ok tt)).
Proof using Hlaws.
  intros Hn Hlen Hne Hnd Hs Hq. destruct (seals_collected f _ seals Hn Hs) as (idxs & sigs & Hc & Hsig & Hidx).
  exists idxs, sigs. split; [done|]. split.
  { clear Hnd Hq Hne Hsig Hidx. revert Hc. generalize (@nil Z). assert (Hgen : forall (seals : list CommittedSeal) b sigs0 b' sigs1,
      collect_seals (nodeIDIndexMap (GetAddresses (Accounts f))) seals b sigs0 = Ok (b', sigs1) ->
      exists sigs, sigs1 = sigs0 ++ sigs /\ Forall2 (fun s sig => Bls.UnmarshalSignature (cs_Signature s) = Ok sig) seals sigs).
    { clear. induction seals as [|s seals IH]; intros b sigs0 b' sigs1; cbn [collect_seals]; [intros [= -> ->]; exists []; by rewrite app_nil_r|].
      destruct (_ !! _); [|done]. destruct (Bls.UnmarshalSignature _) as [sig|] eqn:E; [|done]. intros (sigs & -> & Hf)%IH. exists (sig :: sigs). rewrite <- app_assoc. by split; [|constructor]. }
    intros b (sigs' & -> & Hf)%Hgen. done. }
  intros Hu. assert (Hnodup : NoDup idxs).
  { apply NoDup_alt. intros x y i Hx Hy. destruct (Forall2_lookup_r _ _ _ _ _ Hidx Hx) as (s1 & Hs1 & E1). destruct (Forall2_lookup_r _ _ _ _ _ Hidx Hy) as (s2 & Hs2 & E2).
    apply (NoDup_lookup (sealer <$> seals) x y (sealer s1) Hnd); rewrite list_lookup_fmap; [by rewrite Hs1|]. rewrite Hs2. cbn. congruence. }
  assert (Hi0 : idxs <> []). { intros ->. by apply Forall2_nil_inv_r in Hidx. }
  destruct (aggregate_accepted (Accounts f) idxs sigs (be_bytes 32 hash) DomainCheckpointManager Hnodup Hi0 Hlen Hsig) as (signers & keys & Hf & Hk & Hv & Hmem).
  unfold Verify. cbn [s_Bitmap AggregatedSignature]. rewrite Hf.
  assert (Hset : GetAddressesAsSet signers = list_to_set (sealer <$> seals)).
  { apply set_eq. intros a. unfold GetAddressesAsSet. rewrite !elem_of_list_to_set, !list_elem_of_fmap. split.
    - intros (v & -> & (i & [j Hj]%list_elem_of_lookup_1 & Hi)%Hmem). destruct (Forall2_lookup_r _ _ _ _ _ Hidx Hj) as (s & Hs' & E).
      rewrite list_lookup_fmap, Hi in E. injection E as ->. exists s. split; [done|]. by eapply list_elem_of_lookup_2.
    - intros (s & -> & [j Hj]%list_elem_of_lookup_1). destruct (Forall2_lookup_l _ _ _ _ _ Hidx Hj) as (i & Hi & E). rewrite list_lookup_fmap in E.
      destruct (Accounts f !! i) as [v|] eqn:Ev; [|done]. injection E as <-. exists v. split; [done|]. apply Hmem. exists i. split; [by eapply list_elem_of_lookup_2|done]. }
  rewrite Hset, Hq, Hu, Hk. cbn [negb mbind option_bind]. by rewrite Hv.
Qed.

(** ** The block that is inserted *)

Lemma process_inv (g : fsm T) block e c pc sb :
  wrapper_ProcessBlock (f_parent g) block (validateExtraData g e c pc) = Some (Ok sb) ->
  ValidateBasic c pc = Ok tt /\ h_ExtraData (b_Header (fb_Block sb)) = h_ExtraData (b_Header block) /\
  h_Number (b_Header (fb_Block sb)) = h_Number (b_Header block).
Proof using Type.
  unfold wrapper_ProcessBlock. destruct (ex_BeginTxn _ _ _) as [t|]; [|done]. destruct (write_all _ _) as [[t1|]|]; [|done..]. cbn [mbind option_bind].
  destruct (validateExtraData g e c pc t1) as [[t2|]|] eqn:Ev; [|done..]. cbn [mbind option_bind]. destruct (tr_Commit t2) as [[root t3]|]; [|done]. cbn [mbind option_bind].
  destruct (negb _); [done|]. unfold BuildBlock. destruct (match b_Transactions block with [] => _ | _ => _ end) as [txRoot|]; [|done]. cbn [mbind option_bind].
  destruct (match tr_Receipts t3 with [] => _ | _ => _ end) as [rRoot|]; [|done]. cbn [mbind option_bind]. intros [= <-]. split; [|done].
  unfold validateExtraData in Ev. destruct (if f_isEndOfEpoch g then _ else _) as [[[next|] t4]|]; [|done..]. cbn [mbind option_bind] in Ev.
  destruct (ValidateDelta _ _ _) as [[|]|]; [|done..]. cbn [mbind option_bind] in Ev. destruct (getValidatorsTransition _ _) as [[next'|]|]; [|done..]. cbn [mbind option_bind] in Ev.
  destruct (PlgExtra.Validate _ _ _ _) as [r|] eqn:Er; [|done]. cbn [mbind option_bind] in Ev. destruct r; [|done]. unfold PlgExtra.Validate in Er. by destruct (ValidateBasic c pc) as [[]|].
Qed.

Lemma with_validators_id e : is_Some (e_Validators e) -> with_validators e = e.
Proof using Type. destruct e as [[d|] ? ? ? ?]; [done|]. by intros []. Qed.

Lemma GetIbftExtra_validators raw e : GetIbftExtra raw = Some (Ok e) -> is_Some (e_Validators e).
Proof using Type.
  unfold GetIbftExtra. destruct (_ <? _)%nat; [done|]. intros (e0 & _ & E)%bind_inv. injection E as <-. destruct (e_Validators e0) eqn:E0; [rewrite E0|]; by eexists.
Qed.

(** The hash leaves the seals out. *)
Lemma seal_hash h e raw committed x :
  GetIbftExtra (h_ExtraData h) = Some (Ok e) -> GetIbftExtra raw = Some (Ok (mkExtra (e_Validators e) (e_Seal e) (e_Parent e) committed (e_Checkpoint e))) ->
  HeaderHash (set_hHash x (set_hExtraData raw h)) = HeaderHash h.
Proof using Type.
  intros He Hr. rewrite HeaderHash_hash. cbn [HeaderHash plg_hasher]. unfold plgBFTHeaderHash, GetIbftExtraClean. cbn [h_ExtraData set_hExtraData].
  rewrite He, Hr, !ret_bind. cbn [e_Validators e_Parent e_Checkpoint]. done.
Qed.

(** C11. What becomes of a proposal that a validator accepted and that a quorum of distinct
    validators sealed (with a sum of the seals that is not the point at infinity). If the block
    the validator recomputed has another hash than the proposal, which happens when the header
    states other transaction or receipt roots than the execution gives, the insertion refuses
    it and changes nothing. If it has the same hash, the insertion adds the seals, hands the
    block to the chain and returns what the chain answers; the seals do not change the hash of
    the block, and every node with the same validators of the block and of its parent accepts
    the block as finalized. *)
Theorem sealed_block_finalized {B : Type} (CommitBlock : FullBlock -> B -> bool * B) (chain : B) (g g' : fsm T) (raw : list Z) (block : Block)
    (sb : FullBlock) (e : Extra) (c : CheckpointData) (ph : Hash) (seals : list CommittedSeal) (parents : list Header) :
  fsm_Validate raw g = Some (Ok tt, g') -> f_target g' = Some sb -> block_UnmarshalRLP raw = Some (Ok block) ->
  GetIbftExtra (h_ExtraData (b_Header block)) = Some (Ok e) -> extra_fits e -> e_Checkpoint e = Some c ->
  c_Hash c (f_chainID g) (h_Number (b_Header block)) (h_Hash (b_Header block)) = Some ph ->
  NoDup (addrs (Accounts g)) -> Z.of_nat (length (Accounts g)) * 8 < two64 -> seals <> [] -> NoDup (sealer <$> seals) ->
  Forall (fun s => ValidateCommit g (cs_Signer s) (cs_Signature s) (be_bytes 32 ph) = Some (Ok tt)) seals ->
  HasQuorum (NewValidatorSet (Accounts g)) (list_to_set (sealer <$> seals)) = true ->
  (forall sigs, Forall2 (fun s sig => Bls.UnmarshalSignature (cs_Signature s) = Ok sig) seals sigs ->
    Bls.UnmarshalSignature (G1_Marshal (sig_Aggregate sigs)) = Ok (sig_Aggregate sigs) /\ bytes_ok (G1_Marshal (sig_Aggregate sigs))) ->
  GetValidators (h_Number (b_Header block) -u 1) parents = Some (Accounts g) ->
  GetValidators (h_Number (b_Header block) -u 2) parents = GetValidators (h_Number (b_Header block) -u 2) [] ->
  (h_Hash (b_Header (fb_Block sb)) <> h_Hash (b_Header block) -> Insert CommitBlock raw seals (g', chain) = Some (Err errProposalDontMatch, (g', chain))) /\
  (h_Hash (b_Header (fb_Block sb)) = h_Hash (b_Header block) ->
    exists nb e', Insert CommitBlock raw seals (g', chain) =
      Some (if fst (CommitBlock nb chain) then Ok nb else Err ErrCommitBlock, (set_target (Some nb) g', snd (CommitBlock nb chain))) /\
    let h := b_Header (fb_Block nb) in
    h_Hash h = h_Hash (b_Header block) /\ HeaderHash h = HeaderHash (b_Header (fb_Block sb)) /\ GetIbftExtra (h_ExtraData h) = Some (Ok e') /\
    ValidateFinalizedData e' h (f_parent g) parents (f_chainID g) DomainCheckpointManager = Some (Ok tt)).
Proof using Hlaws Hcodec Hrlp Hacc.
  intros (block' & e1 & pe & c1 & pc & sb' & [Hd _ He Hp Hc Hpc Hs _ _ _ Hproc] & ->)%fsm_Validate_inv Ht Hdec He' Hfits Hcp Hph Hn Hlen Hne Hnd Hseals Hq Hagg Hv1 Hv2.
  rewrite Hdec in Hd. injection Hd as <-. rewrite He' in He. injection He as <-. rewrite Hcp in Hc. injection Hc as <-. injection Ht as ->.
  destruct (process_inv _ _ _ _ _ _ Hproc) as (Hbasic & Hxd & Hnum). set (h := b_Header (fb_Block sb)) in *. split.
  { intros Hhash. unfold Insert. erewrite fbind_then; [|unfold attempt; rewrite Hdec; reflexivity]. erewrite fbind_then; [|reflexivity]. fold h.
    by rewrite (proj2 (Z.eqb_neq _ _) Hhash). }
  intros Hhash.
  destruct (seals_verify g ph seals Hn Hlen Hne Hnd Hseals Hq) as (idxs & sigs & Hcol & Hun & Hverify). destruct (Hagg sigs Hun) as [Hu Hbytes]. specialize (Hverify Hu).
  set (committed := mkAggSignature (G1_Marshal (sig_Aggregate sigs)) (bits idxs)) in *.
  set (e2 := mkExtra (e_Validators e) (e_Seal e) (e_Parent e) (Some committed) (e_Checkpoint e)).
  assert (Hfits2 : extra_fits e2).
  { destruct Hfits as [Fv Fs Fp Fc Fk]. split; [done..| |done]. split; [done|]. cbn. clear. induction idxs as [|i idxs IH] using rev_ind; [apply List.Forall_nil|].
    rewrite bits_snoc. by apply bm_Set_bytes. }
  destruct (extra_rlp e2 Hfits2) as (x & Hx & _ & _).
  assert (Hback : GetIbftExtra (replicate ExtraVanity 0 ++ fastrlp_MarshalTo x) = Some (Ok e2)).
  { rewrite (GetIbftExtra_encoded e2 x) by done. rewrite with_validators_id; [done|]. by apply (GetIbftExtra_validators _ _ He'). }
  exists (seal_block (fastrlp_MarshalTo x) sb), e2. split.
  { unfold Insert. erewrite fbind_then; [|unfold attempt; rewrite Hdec; reflexivity]. erewrite fbind_then; [|reflexivity]. fold h. rewrite Hhash, Z.eqb_refl. cbn [negb].
    erewrite fbind_then; [|unfold attempt; rewrite Hxd, He'; reflexivity]. erewrite fbind_then; [|change (Accounts (set_target (Some sb) g)) with (Accounts g); rewrite Hcol; reflexivity].
    cbn [fst snd]. fold committed e2. erewrite fbind_then; [|unfold e_MarshalRLPTo; rewrite Hx; reflexivity].
    unfold commit_block. by destruct (CommitBlock _ chain) as [ok chain']. }
  cbv zeta. cbn [seal_block fb_Block b_Header]. fold h. split; [exact Hhash|]. split; [|split; [exact Hback|]].
  - change (set_hExtraData ?r h) with (set_hHash (h_Hash h) (set_hExtraData r h)) at 1. apply (seal_hash h e _ (Some committed)); [by rewrite Hxd|exact Hback].
  - unfold ValidateFinalizedData, verify_checkpoint. cbn [e_Committed e_Checkpoint e2 h_Number h_Hash set_hExtraData]. rewrite Hcp.
    change (h_Number (set_hExtraData ?r h)) with (h_Number h). change (h_Hash (set_hExtraData ?r h)) with (h_Hash h). rewrite Hnum, Hhash, Hph, Hv1, Hverify. cbn [mbind option_bind].
    rewrite Hp. cbn [mbind option_bind].
    assert (Hsig : ValidateParentSignatures e2 (h_Number (b_Header block)) parents (f_parent g) pe (f_chainID g) DomainCheckpointManager = Some (Ok tt)).
    { unfold ValidateParentSignatures in *. rewrite Hv2. exact Hs. }
    rewrite Hsig. cbn [mbind option_bind]. rewrite Hpc. cbn [mbind option_bind]. by rewrite Hbasic.
Qed.

End Seals.

(** ** Witness *)

#[local] Existing Instance sample_curve.
#[local] Existing Instance sample_curve_laws.
#[local] Existing Instance sample_points_eq.
#[local] Existing Instance ser_codec.
#[local] Existing Instance ser_rlp.
#[local] Existing Instance sample_access.
#[local] Existing Instance sample_access_laws.
#[local] Existing Instance sample_abi.
#[local] Existing Instance sample_backend.
#[local] Existing Instance plg_hasher | 0.

(** The seals of the validators 103 and 104. *)
Definition sample_seal (k : Z) : CommittedSeal := mkSeal (be_bytes 20 (100 + k)) (be_bytes 64 (sample_point * k)).
Definition sample_committed : list CommittedSeal := [sample_seal 3; sample_seal 4].

Lemma sample_domain : (length DomainCheckpointManager <= 255)%nat.
Proof. unfold DomainCheckpointManager. rewrite keccak256_length. lia. Qed.

Lemma sample_seal_signed k (hash domain : list Z) : (length domain <= 255)%nat -> sig_Verify (sample_point * k : G1) (k : G2) hash domain = Some true.
Proof.
  intros Hd. unfold sig_Verify. rewrite sample_hashes_any by done. cbn [mbind option_bind].
  rewrite (proj1 (proj2 sample_generators)). cbn [mbind option_bind]. f_equal. cbn [PairingCheck sample_curve zip_with foldr]. lia.
Qed.

Lemma sample_seal_read k : k ∈ [3; 4] -> Bls.UnmarshalSignature (cs_Signature (sample_seal k)) = Ok (sample_point * k).
Proof. intros Hk. set_unfold in Hk. destruct Hk as [->|[->|[]]]; match goal with |- _ = ?x => vm_cast_no_check (eq_refl x) end. Qed.

Lemma sample_seal_signer k : k ∈ [3; 4] -> GetValidatorMetadata sample_validators (BytesToAddress (cs_Signer (sample_seal k))) = Some (sample_validator k (10 * k)).
Proof. intros Hk. set_unfold in Hk. by destruct Hk as [->|[->|[]]]. Qed.

Lemma sample_seal_valid (f : fsm (list Hash)) k hash : Accounts f = sample_validators -> k ∈ [3; 4] ->
  ValidateCommit f (cs_Signer (sample_seal k)) (cs_Signature (sample_seal k)) hash = Some (Ok tt).
Proof.
  intros Hf Hk. apply (ValidateCommit_accepts f _ _ _ (sample_validator k (10 * k)) k (sample_point * k)).
  - rewrite Hf. by apply sample_seal_signer.
  - by apply sample_seal_read.
  - done.
  - exact (sample_seal_signed k hash _ sample_domain).
Qed.

Lemma sample_seals_valid (f : fsm (list Hash)) hash : Accounts f = sample_validators ->
  Forall (fun s => ValidateCommit f (cs_Signer s) (cs_Signature s) hash = Some (Ok tt)) sample_committed.
Proof.
  intros Hf. apply List.Forall_cons; [exact (sample_seal_valid f 3 hash Hf ltac:(by_computation))|].
  apply List.Forall_cons; [exact (sample_seal_valid f 4 hash Hf ltac:(by_computation))|]. apply List.Forall_nil.
Qed.

Lemma sample_aggregate sigs : Forall2 (fun s sig => Bls.UnmarshalSignature (cs_Signature s) = Ok sig) sample_committed sigs ->
  Bls.UnmarshalSignature (G1_Marshal (sig_Aggregate sigs)) = Ok (sig_Aggregate sigs) /\ bytes_ok (G1_Marshal (sig_Aggregate sigs)).
Proof.
  intros Hs. assert (sigs = [sample_point * 3; sample_point * 4]) as ->.
  { apply Forall2_cons_inv_l in Hs as (a & l & Ha & Hs & ->). apply Forall2_cons_inv_l in Hs as (b & l' & Hb & Hs & ->). apply Forall2_nil_inv_l in Hs as ->.
    vm_compute in Ha, Hb. injection Ha as <-. injection Hb as <-. reflexivity. }
  split; [reflexivity|apply be_bytes_ok].
Qed.

Lemma sealed_block_finalized_witness : exists raw g' nb e', fsm_Validate raw (sample_fsm 8) = Some (Ok tt, g') /\
  Insert (fun b l => (true, l ++ [b])) raw sample_committed (g', []) = Some (Ok nb, (set_target (Some nb) g', [nb])) /\
  ValidateFinalizedData e' (b_Header (fb_Block nb)) sample_parent [] 100 DomainCheckpointManager = Some (Ok tt).
Proof.
  destruct sample_validated as (fb & delta & c & _ & _ & Hx & Hv). pose proof (fsm_Validate_ok _ _ _ _ _ _ _ _ Hv) as Hval.
  set (block := mkBlock _ _ _) in Hv, Hval. set (sb := mkFullBlock block _) in Hv, Hval.
  assert (Hfits : extra_fits (with_validators (mkExtra delta [] (Some (sample_signature [2; 3])) None (Some c)))).
  { destruct Hx as [Fd Fs Fp Fc Fk]. split; [|exact Fs|exact Fp|exact Fc|exact Fk]. cbn in *. destruct delta; [exact Fd|]. by repeat split. }
  destruct (sealed_block_finalized (B := list FullBlock) (fun b l => (true, l ++ [b])) [] (sample_fsm 8) _ _ block sb _ c _ sample_committed [] Hval eq_refl
    (va_decode _ _ _ _ _ _ _ _ Hv) (va_extra _ _ _ _ _ _ _ _ Hv) Hfits eq_refl eq_refl) as [_ Hins].
  - change (NoDup (v_Address <$> sample_validators)). by_computation.
  - done.
  - done.
  - by_computation.
  - exact (sample_seals_valid (sample_fsm 8) _ eq_refl).
  - vm_cast_no_check (@eq_refl bool true).
  - exact sample_aggregate.
  - reflexivity.
  - reflexivity.
  - destruct (Hins eq_refl) as (nb & e' & Hi & _ & _ & _ & Hf).
    exists (block_MarshalRLP (fb_Block fb)), (set_target (Some sb) (sample_fsm 8)), nb, e'. split; [exact Hval|]. split; [exact Hi|exact Hf].
Defined.
