(* ===== verification/Node.v ===== *)
(** * A node: executor, state and transaction pool behind the consensus

    The block builder and the validators see the executor and the pool through interfaces.
    Here the executor of [Executor] over the tries of [Snapshot], and the pool of [TxPool],
    are shown to keep what the interfaces promise, and the acceptance of proposals is stated
    for them. *)

From stdpp Require Import gmap strings.
From S2P Require Import Prelude GoHeap ChainTypes TxAccount TxPool TxPoolProps BigInt Runtime Receipts EvmState StateTxn StateLemmas Precompiled Executor ExecutorReplay.
From S2P Require Import Rlp Trie TriePure TrieRefine TrieHash TrieDb Snapshot ChainRlp ChainRlpProps Buildroot Bls Validators PlgExtra PlgExtraProps.
From S2P Require Import BlockBuilder StateTx Fsm FsmLemmas FsmSample ProposalProps TrieSample ExecutorSample ValidatorsProps.
Local Open Scope go_scope.
Set Default Proof Using "Type*".

(** ** The executor *)

Section Executor.
Context `{Fastrlp} {K : Type} `{!Lru Hash Trie K} {T : Type -> Type} `{!Radix T} `{!RadixLaws T} {C : Type} `{!Lru Address (list Z) C}.
Context `{CryptoLib} `{AllowListABI}.

(** The state, the chain parameters, the signer and the hashes of ancestors (by parent hash
    and number of the header, as [GetHashHelper] finds them). *)
Context (st : State K) (config : Params) (Sender : Transaction -> option Address) (getHash : Hash -> Z -> Z -> Hash).

(** A transition with the state and the trie of its snapshot. *)
Record Executed := mkExecuted { xe_transition : Transition T C; xe_state : State K; xe_trie : Trie }.

Definition with_transition (x : Executed) (t : Transition T C) : Executed := mkExecuted t (xe_state x) (xe_trie x).

(** [Transition.Commit] *)
Definition executed_Commit (x : Executed) : option (Hash * Executed) :=
  '(objs, s) ← t_Commit (xe_transition x);
  '(_, root, s', _) ← Commit (xe_state x) (xe_trie x) objs;
  Some (BytesToHash root, mkExecuted (set_state s (xe_transition x)) s' (xe_trie x)).

(** [Executor.BeginTxn]; a state whose nodes cannot be read is an error. *)
Definition executed_BeginTxn (root : Hash) (h : Header) (coinbase : Address) : option Executed :=
  match NewSnapshotAt st root with
  | Some (Ok trie, s) => Some (mkExecuted (BeginTxn config (snapshot_of s trie) (getHash (h_ParentHash h) (h_Number h)) h coinbase) s trie)
  | _ => None
  end.

#[local] Instance executor_ops : TransitionOps Executed := {|
  ex_BeginTxn := executed_BeginTxn;
  tr_Write x tx := '(err, t) ← Write None Sender (xe_transition x) tx; Some (err, with_transition x t);
  tr_WriteFailedReceipt x tx := '(err, t) ← WriteFailedReceipt Sender (xe_transition x) tx; Some (err, with_transition x t);
  tr_Call2 x from to input value gas := '(r, t) ← t_Call2 (xe_transition x) from to input value gas; Some (r, with_transition x t);
  tr_Commit := executed_Commit;
  tr_TotalGas x := t_totalGas (xe_transition x);
  tr_Receipts x := t_receipts (xe_transition x) |}.

(** The same but for old snapshots, and for receipts unless [full]. *)
Definition executed_replays (full : bool) (x y : Executed) : Prop :=
  xe_state y = xe_state x /\ xe_trie y = xe_trie x /\ tbare (xe_transition y) = tbare (xe_transition x) /\
  (full = true -> t_receipts (xe_transition y) = t_receipts (xe_transition x)).

(** No logs are pending, and the rules are those of a height. *)
Definition executed_settled (x : Executed) : Prop :=
  tr_logs (txn (t_state (xe_transition x))) = None /\ exists n, t_config (xe_transition x) = Forks_At (p_Forks config) n.

(** The transaction carries its hash and the sender that is recovered from it. *)
Definition tx_sent (tx : Transaction) : Prop :=
  recover_from Sender tx = Some tx /\ recover_from Sender (received tx) = Some tx.

(** Its gas covers its intrinsic cost, under the rules of every height. *)
Definition tx_paid (tx : Transaction) : Prop := forall n, paid_at (Forks_At (p_Forks config) n) tx.

(** Two transitions that differ in what [bare] leaves out. *)
Lemma tbare_split (t r : Transition T C) : tbare r = tbare t -> r = tpad (snapshots (t_state r)) (t_receipts r) (tbare t).
Proof. intros <-. apply tbare_pad. Qed.

Lemma Write_replays (t r : Transition T C) tx e t' : tbare r = tbare t -> Write None Sender t tx = Some (e, t') ->
  exists r', Write None Sender r tx = Some (e, r') /\ tbare r' = tbare t' /\ (t_receipts r = t_receipts t -> t_receipts r' = t_receipts t').
Proof.
  intros Hb Hw. rewrite (tbare_pad t), pad_Write in Hw. destruct (Write None Sender (tbare t) tx) as [[e1 t1]|] eqn:E; [|done].
  injection Hw as -> <-. exists (tpad (snapshots (t_state r)) (t_receipts r) t1). rewrite (tbare_split t r Hb) at 1. rewrite pad_Write, E.
  split; [done|]. split; [done|]. intros Hr. cbn. by rewrite Hr.
Qed.

Lemma Call2_replays (t r : Transition T C) a b input v g x t' : tbare r = tbare t -> t_Call2 t a b input v g = Some (x, t') ->
  exists r', t_Call2 r a b input v g = Some (x, r') /\ tbare r' = tbare t' /\ (t_receipts r = t_receipts t -> t_receipts r' = t_receipts t').
Proof.
  intros Hb Hw. rewrite (tbare_pad t), pad_Call2 in Hw. destruct (t_Call2 (tbare t) a b input v g) as [[e1 t1]|] eqn:E; [|done].
  injection Hw as -> <-. exists (tpad (snapshots (t_state r)) (t_receipts r) t1). rewrite (tbare_split t r Hb) at 1. rewrite pad_Call2, E.
  split; [done|]. split; [done|]. intros Hr. cbn. by rewrite Hr.
Qed.

Lemma Write_logs (t : Transition T C) tx t' : Write None Sender t tx = Some (None, t') -> tr_logs (txn (t_state t')) = None.
Proof.
  unfold Write. destruct (recover_from Sender tx) as [tx'|]; [|done]. destruct (Apply None t tx') as [[[r|e] t1]|]; [|done..].
  unfold write_receipt. destruct (txn_Logs (t_state t1)) as [logs s] eqn:El.
  assert (Hs : tr_logs (txn s) = None) by (unfold txn_Logs in El; destruct (tr_logs (txn (t_state t1))) eqn:E; by injection El as _ <-).
  destruct (CleanDeleteObjects_spec s true) as (s' & -> & _ & _ & _ & Hl & _). intros [= <-]. cbn. congruence.
Qed.

Lemma Commit_replays (t r : Transition T C) objs s : tbare r = tbare t -> t_Commit t = Some (objs, s) ->
  exists s', t_Commit r = Some (objs, s') /\ tbare (set_state s' r) = tbare (set_state s t).
Proof.
  intros Hb Hc. assert (Hcfg : t_config r = t_config t) by apply (f_equal t_config Hb).
  assert (Hs : t_state r = pad (snapshots (t_state r)) (t_state (tbare t))) by (by rewrite (tbare_split _ _ Hb) at 1).
  assert (Ht : t_state t = pad (snapshots (t_state t)) (t_state (tbare t))) by (by rewrite (tbare_pad t) at 1).
  unfold t_Commit, txn_Commit in *. rewrite Hcfg, Hs, pad_Clean. rewrite Ht, pad_Clean in Hc.
  destruct (CleanDeleteObjects (t_state (tbare t)) _) as [s1|]; [|done]. injection Hc as <- <-. eexists. split; [reflexivity|].
  pose proof (f_equal (set_state (mkTxn (snapshot s1) [] (txn s1) (codeCache s1))) Hb) as Hf. exact Hf.
Qed.

#[local] Instance executor_env : TransitionEnv Executed.
Proof.
  split. intros root h h' coinbase (Hn & Ht & Hg & Hd & Hp). cbn. unfold executed_BeginTxn, BeginTxn. by rewrite Hn, Ht, Hg, Hd, Hp.
Qed.

Lemma executed_begin root h coinbase x : executed_BeginTxn root h coinbase = Some x -> executed_settled x.
Proof using Type.
  unfold executed_BeginTxn. destruct (NewSnapshotAt st root) as [[[trie|] s]|]; [|done..]. intros [= <-]. split; [done|]. by exists (h_Number h).
Qed.

Lemma executed_write full x y tx x' : executed_replays full x y -> executed_settled x -> tx_sent tx -> tr_Write x tx = Some (None, x') ->
  exists y', tr_Write y (received tx) = Some (None, y') /\ executed_replays full x' y' /\ executed_settled x'.
Proof.
  intros (Hs & Htr & Hb & Hr) (Hl & n & Hn) [Hs1 Hs2] Hw. cbn in *.
  destruct (Write None Sender (xe_transition x) tx) as [[e t']|] eqn:E; [|done]. injection Hw as -> <-.
  destruct (Write_replays _ _ _ _ _ Hb E) as (r' & Hr' & Hb' & Hrs).
  assert (Hrec : Write None Sender (xe_transition y) (received tx) = Write None Sender (xe_transition y) tx) by (unfold Write; by rewrite Hs1, Hs2).
  exists (with_transition y r'). rewrite Hrec, Hr'. split; [done|]. split; [split; [done|split; [done|split; [done|auto]]]|].
  split; [by eapply Write_logs|]. exists n. by eapply (Write_config _ Sender _ _ Hn).
Qed.

Lemma executed_failed full x y tx e x' : executed_replays full x y -> executed_settled x -> tx_sent tx -> tx_paid tx ->
  tr_Write x tx = Some (Some e, x') -> executed_replays full x' y /\ executed_settled x'.
Proof.
  intros (Hs & Htr & Hb & Hr) (Hl & n & Hn) [Hs1 _] Hp Hw. cbn in *.
  destruct (Write None Sender (xe_transition x) tx) as [[e1 t']|] eqn:E; [|done]. injection Hw as -> <-.
  unfold Write in E. rewrite Hs1 in E. destruct (Apply None (xe_transition x) tx) as [[[r|e0] t1]|] eqn:Ea; [..|done].
  { unfold write_receipt in E. destruct (txn_Logs (t_state t1)). by destruct (CleanDeleteObjects _ true). }
  injection E as -> ->. destruct (Apply_failed _ _ _ _ ltac:(rewrite Hn; apply Hp) Ea) as [Hb' Hr'].
  split; [split; [done|split; [done|split; [cbn; congruence|cbn; intros Hf; rewrite Hr'; auto]]]|].
  assert (Hsame : t_config t' = t_config (xe_transition x) /\ txn (t_state t') = txn (t_state (xe_transition x))).
  { pose proof (f_equal t_config Hb') as H1'. pose proof (f_equal (fun t => txn (t_state t)) Hb') as H2'. done. }
  destruct Hsame as [Hc Ht]. split; [cbn; by rewrite Ht|]. exists n. cbn. by rewrite Hc.
Qed.

Lemma executed_over full x y tx e x' : executed_replays full x y -> executed_settled x ->
  tr_WriteFailedReceipt x tx = Some (e, x') -> executed_replays false x' y /\ executed_settled x'.
Proof using Type.
  intros (Hs & Htr & Hb & Hr) (Hl & n & Hn) Hw. cbn in *.
  destruct (WriteFailedReceipt Sender (xe_transition x) tx) as [[e1 t']|] eqn:E; [|done]. injection Hw as -> <-.
  unfold WriteFailedReceipt in E. destruct (recover_from Sender tx) as [tx'|]; [|injection E as <- <-; split; [done|split; [done|by exists n]]].
  unfold txn_Logs in E. rewrite Hl in E. injection E as <- <-. split; [split; [done|split; [done|split; [done|done]]]|]. split; [done|by exists n].
Qed.

Lemma executed_call full x y a b input v g res x' : executed_replays full x y -> tr_Call2 x a b input v g = Some (res, x') ->
  exists y', tr_Call2 y a b input v g = Some (res, y') /\ executed_replays full x' y'.
Proof.
  intros (Hs & Htr & Hb & Hr) Hc. cbn in *.
  destruct (t_Call2 (xe_transition x) a b input v g) as [[e t']|] eqn:E; [|done]. injection Hc as -> <-.
  destruct (Call2_replays _ _ _ _ _ _ _ _ _ Hb E) as (r' & -> & Hb' & Hrs). exists (with_transition y r'). split; [done|].
  split; [done|split; [done|split; [done|auto]]].
Qed.

Lemma executed_commit full x y root x' : executed_replays full x y -> executed_Commit x = Some (root, x') ->
  exists y', executed_Commit y = Some (root, y') /\ executed_replays full x' y'.
Proof.
  intros (Hs & Htr & Hb & Hr) Hc. unfold executed_Commit in *.
  destruct (t_Commit (xe_transition x)) as [[objs s]|] eqn:E; [|done]. destruct (Commit_replays _ _ _ _ Hb E) as (s' & E' & Hs').
  rewrite E', Hs, Htr. cbn in *. destruct (Commit (xe_state x) (xe_trie x) objs) as [[[[trie rt] s1] e]|]; [|done]. injection Hc as <- <-.
  eexists. split; [reflexivity|]. split; [done|split; [done|split; [exact Hs'|exact Hr]]].
Qed.

Lemma sent_created tx : TxType tx = StateTx -> ComputeHash tx = tx -> tx_sent tx.
Proof using Type. intros Ht Hh. unfold tx_sent. rewrite received_state by done. unfold recover_from. rewrite Ht. by rewrite andb_false_r. Qed.

#[local] Instance executor_laws : TransitionLaws Executed.
Proof.
  refine {| replays := executed_replays; settled := executed_settled; sent := tx_sent; paid := tx_paid;
    sent_state := sent_created; settled_begin := executed_begin; replays_write := executed_write; replays_failed := executed_failed;
    replays_over := executed_over; replays_call := executed_call; replays_commit := executed_commit |}.
  - intros x. by split.
  - intros full x y (? & ? & ? & ?). split; [done|]. split; [done|]. split; [done|]. auto.
  - intros x y (_ & _ & _ & Hr). exact (Hr eq_refl).
Defined.
End Executor.

(** ** The pool *)

Section TheTxPool.
Context `{Codec}.

#[local] Instance txpool_ops : PoolOps Pool := {|
  pool_Prepare := Prepare; pool_Peek := Peek; pool_Pop := Pop; pool_Drop := Drop; pool_Demote := Demote |}.

(** All transactions in the queues have the property [Q]. *)
Definition pool_all (Q : Transaction -> Prop) (p : Pool) : Prop :=
  map_Forall (fun _ a => Forall Q (acc_txs a)) (accounts p) /\ Forall Q (executables p).

#[global] Instance pool_all_dec Q `{forall tx, Decision (Q tx)} p : Decision (pool_all Q p).
Proof. unfold pool_all. apply _. Defined.

Lemma pool_all_impl (Q R : Transaction -> Prop) p : (forall tx, Q tx -> R tx) -> pool_all Q p -> pool_all R p.
Proof.
  intros HQ [Ha He]. split; [intros k a Hk; eapply Forall_impl; [exact (Ha k a Hk)|done]|by eapply Forall_impl].
Qed.

Lemma pool_all_and (Q R : Transaction -> Prop) p : pool_all Q p -> pool_all R p -> pool_all (fun tx => Q tx /\ R tx) p.
Proof.
  intros [Ha He] [Ha' He']. split; [|by apply Forall_and]. intros k a Hk. apply Forall_and. split; [exact (Ha k a Hk)|exact (Ha' k a Hk)].
Qed.

Lemma getPrimaries_all (Q : Transaction -> Prop) m : map_Forall (fun _ a => Forall Q (acc_txs a)) m -> Forall Q (getPrimaries m).
Proof.
  intros Hm. unfold getPrimaries. apply Forall_forall. intros tx. rewrite list_elem_of_omap. intros ([k a] & Hin & Hp).
  apply elem_of_map_to_list in Hin. pose proof (Hm _ _ Hin) as Ha. unfold acc_txs in Ha. apply Forall_app in Ha as [Ha _].
  eapply Forall_forall; [exact Ha|]. by apply q_peek_elem.
Qed.

Lemma pushes_all (Q : Transaction -> Prop) l q : Forall Q l -> Forall Q q -> Forall Q (fold_left pq_push l q).
Proof.
  intros Hl. revert q. induction Hl as [|x l Hx _ IH]; intros q Hq; [done|]. cbn. apply IH.
  unfold pq_push. rewrite heap_push_perm. by constructor.
Qed.

Lemma q_pop_all (Q : Transaction -> Prop) q : Forall Q q -> Forall Q (snd (q_pop q)).
Proof.
  intros Hq. unfold q_pop. destruct (heap_pop minNonce_Less q) as [[x l]|] eqn:E; [|done].
  apply heap_pop_perm in E. rewrite E in Hq. by inversion Hq.
Qed.

Lemma put_all (Q : Transaction -> Prop) k a p : pool_all Q p -> Forall Q (acc_txs a) -> pool_all Q (put_account k a p).
Proof. intros [Ha He] Hq. split; [by apply map_Forall_insert_2|done]. Qed.

Lemma Pop_all (Q : Transaction -> Prop) p tx p' : pool_all Q p -> Pop p tx = Some p' -> pool_all Q p'.
Proof.
  intros Hp. unfold Pop. destruct (accounts p !! From tx) as [a|] eqn:E; [|done]. pose proof (proj1 Hp _ _ E) as Ha.
  unfold acc_txs in Ha. apply Forall_app in Ha as [Hpr Hen]. pose proof (q_pop_all Q _ Hpr) as Hpop.
  destruct (q_pop (promoted a)) as [o prom]. cbn in Hpop.
  pose proof (put_all Q (From tx) (resetDemotions (set_promoted prom a)) p Hp ltac:(apply Forall_app; done)) as [Ha' He'].
  destruct (q_peek prom) as [next|] eqn:En; intros [= <-]; [|by split]. split; [done|]. cbn. unfold pq_push. rewrite heap_push_perm.
  constructor; [|done]. eapply Forall_forall; [exact Hpop|]. by apply q_peek_elem.
Qed.

Lemma Drop_all (Q : Transaction -> Prop) p tx p' : pool_all Q p -> Drop p tx = Some p' -> pool_all Q p'.
Proof.
  intros Hp. unfold Drop. destruct (accounts p !! From tx) as [a|]; [|done]. intros [= <-].
  destruct Hp as [Ha He]. split; [|done]. cbn. apply map_Forall_insert_2; [|done]. constructor.
Qed.

Lemma Demote_all (Q : Transaction -> Prop) p tx p' : pool_all Q p -> Demote p tx = Some p' -> pool_all Q p'.
Proof.
  intros Hp. unfold Demote. destruct (accounts p !! From tx) as [a|] eqn:E; [|done]. pose proof (proj1 Hp _ _ E) as Ha.
  destruct (_ <=? _).
  - destruct (Drop p tx) as [p1|] eqn:Ed; [|done]. apply (Drop_all Q _ _ _ Hp) in Ed.
    destruct (accounts p1 !! From tx) as [a1|] eqn:E1; [|done]. intros [= <-]. apply put_all; [done|]. exact (proj1 Ed _ _ E1).
  - intros [= <-]. by apply (put_all Q (From tx) (incrementDemotions a) p).
Qed.

#[local] Instance txpool_laws (Q : Transaction -> Prop) : PoolLaws Pool Q.
Proof.
  refine {| pool_ok := pool_all Q |}; cbn.
  - intros p [Ha He]. split; [done|]. cbn. apply pushes_all; [by apply getPrimaries_all|]. destruct (_ =? 0); [done|constructor].
  - intros p tx [_ He]. unfold Peek, pq_pop. destruct (heap_pop maxPrice_Less (executables p)) as [[x l]|] eqn:E; [|done].
    intros [= ->]. apply heap_pop_perm in E. rewrite E in He. by inversion He.
  - intros p [Ha He]. unfold Peek, pq_pop. destruct (heap_pop maxPrice_Less (executables p)) as [[x l]|] eqn:E; [|by split].
    split; [done|]. cbn. apply heap_pop_perm in E. rewrite E in He. by inversion He.
  - apply Pop_all.
  - apply Drop_all.
  - apply Demote_all.
Defined.
End TheTxPool.

(** ** Proposals *)

Section Proposals.
Context `{Bn256} `{!EqDecision G2} `{Fastrlp} `{Hcodec : !CodecLaws} `{Hrlp : !FastrlpLaws} `{RlpAccess} `{Hacc : !RlpAccessLaws} `{AbiCodec} `{!plgbftBackend} `{HeaderHasher}.
Context `{BridgeAbi} `{Habi : !BridgeAbiLaws} `{SystemAbi} {K : Type} `{!Lru Hash Trie K} {T : Type -> Type} `{!Radix T} `{Hradix : !RadixLaws T} {C : Type} `{!Lru Address (list Z) C}.
Context `{CryptoLib} `{AllowListABI}.
Context (st : State K) (config : Params) (Sender : Transaction -> option Address) (getHash : Hash -> Z -> Z -> Hash).
#[local] Existing Instance executor_laws.
#[local] Existing Instance txpool_ops.
#[local] Existing Instance txpool_laws.
#[local] Instance the_executor : TransitionOps (Executed (K := K) (T := T) (C := C)) := executor_ops st config Sender getHash.

(** What the pool checks of a transaction it takes. *)
Definition admitted (tx : Transaction) : Prop := tx_sent Sender tx /\ tx_paid config tx /\ TxType tx = LegacyTx.

Lemma signed_sent tx from :
  (forall t a, Sender (set_From a t) = Sender t) -> (forall t h, Sender (set_Hash h t) = Sender t) ->
  TxType tx = LegacyTx -> Sender tx = Some from -> tx_sent Sender (ComputeHash (set_From from tx)).
Proof using Type.
  intros Hs1 Hs2 Hty Hfrom. unfold ComputeHash. set (h := be_val _).
  assert (Hr : received (set_Hash h (set_From from tx)) = set_Hash h (set_From ZeroAddress tx)).
  { unfold received, ComputeHash. cbn [TxType set_Hash set_From]. rewrite Hty. cbn [Z.eqb]. unfold h, tx_MarshalRLPWith. cbn. by rewrite Hty. }
  split.
  - unfold recover_from. rewrite Hs2, Hs1, Hfrom. by destruct (_ && _).
  - rewrite Hr. unfold recover_from. rewrite Hs2, Hs1, Hfrom. cbn [From TxType set_Hash set_From]. by rewrite Hty.
Qed.

(** [validateTx] admits a transaction whose signer it recovers, when the rules are those of
    every height. *)
Lemma validateTx_admitted store (p : Pool) tx tx' :
  (forall n, Forks_At (p_Forks config) n = TxPool.forks p) ->
  (forall t a, Sender (set_From a t) = Sender t) -> (forall t h, Sender (set_Hash h t) = Sender t) ->
  TxType tx = LegacyTx -> is_u64 (Gas tx) -> validateTx Sender store p tx = Ok tx' -> admitted (ComputeHash tx').
Proof using Type.
  intros Hf Hs1 Hs2 Hty Hg Hv. apply validateTx_accepts in Hv as (from & _ & gas & -> & _ & _ & _ & Hfrom & _ & _ & _ & _ & _ & _ & Hcost & Hgas).
  split; [by apply signed_sent|split; [|done]]. intros n. exists gas. rewrite Hf. split; [exact Hcost|]. cbn. split; [|apply Hg]. split; [|lia].
  unfold TransactionGasCost in Hcost. repeat case_match; try done; injection Hcost as <-; apply u64_range.
Qed.

(** C10. What an honest proposer proposes every other validator at the same height accepts,
    with the executor and the pool of the code: transactions of the engine and of the pool
    are replayed to the same state, whatever other transactions failed while the block was
    filled; the change of the validator set, the parent's signatures and the checkpoint pass.
    When no transaction of the pool is above the gas limit of the block, the validator
    computes the block of the proposer; the receipt of one above the limit only the proposer
    has, and the block of the validator is the one with its own receipts. The exit root in
    the checkpoint is not compared with that of the validator. *)
Theorem proposal_accepted (f g f' : fsm (Executed (K := K) (T := T) (C := C))) (p p' : Pool) (pe : Extra) (pc : CheckpointData) (round now now' : Z) (ticks : nat) (raw : list Z) :
  let limit := bp_GasLimit (bb_params (f_blockBuilder f)) in
  same_height f g -> set_up f g pe pc round -> pool_all admitted p ->
  h_Timestamp (f_parent f) < header_time (h_Timestamp (f_parent f)) (bp_BlockTime (bb_params (f_blockBuilder f))) now now' ->
  (f_debug g = true -> forall c n h, is_Some (c_Hash c (f_chainID g) n h)) ->
  BuildProposal round now now' ticks (f, p) = Some (Ok raw, (f', p')) ->
  (forall fb, f_target f' = Some fb -> block_fits (fb_Block fb)) ->
  exists fb receipts, f_target f' = Some fb /\
    let block := mkBlock (b_Header (fb_Block fb)) (received <$> b_Transactions (fb_Block fb)) [] in
    fsm_Validate raw g = (fun sb => (Ok tt, set_target (Some (mkFullBlock sb receipts)) g)) <$> BuildBlock (b_Header block) (b_Transactions block) receipts /\
    (pool_all (fun tx => Gas tx <= limit) p ->
     fsm_Validate raw g = Some (Ok tt, set_target (Some (mkFullBlock block (fb_Receipts fb))) g)).
Proof using Hcodec Hrlp Hacc Habi Hradix.
  intros limit Hsame Hup Hp Htime Hdebug Hbuild Hfits.
  set (full := bool_decide (pool_all (fun tx => Gas tx <= limit) p)). set (Q := fun tx => admitted tx /\ (full = true -> Gas tx <= limit)).
  assert (Hq : pool_all Q p).
  { apply pool_all_and; [exact Hp|]. destruct full eqn:E; [|split; [intros ? ? _|]; by apply Forall_true].
    apply bool_decide_eq_true_1 in E. by eapply pool_all_impl; [|exact E]. }
  assert (Ho : forall tx, Q tx -> offered tx) by (intros tx [Htx _]; exact Htx).
  destruct (proposal_processed full f g f' p p' pe pc round now now' ticks raw Q (txpool_laws Q) Ho (fun Hf tx Htx => proj2 Htx Hf) Hsame Hup Hq Htime Hdebug Hbuild Hfits)
    as (fb & delta & c & receipts & Ht & _ & _ & Hrec & Hbb & _ & Hv).
  apply fsm_Validate_run in Hv. exists fb, receipts. split; [exact Ht|]. cbv zeta. rewrite Hv. split.
  - by destruct (BuildBlock _ _ receipts).
  - intros Hl. rewrite (Hrec (bool_decide_eq_true_2 _ Hl)), Hbb. reflexivity.
Qed.
End Proposals.

(** ** A node of a small network *)

#[local] Existing Instance sample_curve.
#[local] Existing Instance sample_curve_laws.
#[local] Existing Instance sample_points_eq.
#[local] Existing Instance ser_codec.
#[local] Existing Instance ser_rlp.
#[local] Existing Instance sample_access.
#[local] Existing Instance sample_access_laws.
#[local] Existing Instance sample_abi.
#[local] Existing Instance sample_backend.
#[local] Existing Instance plg_hasher | 0.
#[local] Existing Instance txpool_ops.

(** The genesis state: the accounts 17 and 18 have a balance. *)
Definition node_genesis : State (alist Trie) * Hash :=
  let s0 : State (alist Trie) := NewState (fun _ => None) (fun _ => None) in
  let x := newTxn (T := alist) (C := alist (list Z)) (snapshot_of s0 NewTrie) in
  let x := txn_AddBalance (txn_AddBalance x 17 1000000000000) 18 5 in
  match txn_Commit x true with
  | Some (objs, _) => match Commit s0 NewTrie objs with Some (_, root, s, _) => (s, BytesToHash root) | None => (s0, 0) end
  | None => (s0, 0)
  end.

Definition node_config : Params :=
  mkParams {| f_Homestead := Some 0; f_Byzantium := Some 0; f_Constantinople := Some 0; f_Petersburg := Some 0; f_Istanbul := Some 0;
              f_London := Some 0; f_EIP150 := Some 0; f_EIP158 := Some 0; f_EIP155 := Some 0 |} 100 false false.

(** The signer of a transaction is its first signature word. *)
Definition node_Sender (tx : Transaction) : option Address := Some (sigR tx).

#[local] Instance node_executor : TransitionOps (Executed (K := alist Trie) (T := alist) (C := alist (list Z))) :=
  the_executor (fst node_genesis) node_config node_Sender (fun _ _ _ => 0).

Definition node_parent : Header :=
  h_ComputeHash (mkHeader 1 EmptyUncleHash [] (snd node_genesis) 5 6 (replicate BloomByteLength 0) 1 7 sample_limit 21000 1600000000 sample_extra_raw PlgBFTMixDigest 0 0).

Definition node_fsm (exitRoot : Hash) : fsm (Executed (K := alist Trie) (T := alist) (C := alist (list Z))) :=
  mkFsm true 100 node_parent (NewValidatorSet sample_validators) (NewBlockBuilder (mkBuilderParams node_parent 101 sample_limit (2 * second))) 1 sample_input false false None None exitRoot false true.

(** A transfer of 17, and one that 18 cannot pay. *)
Definition node_tx (from nonce : Z) : Transaction := ComputeHash (set_From from (mkTx nonce 1000 21000 (Some 77) 4 [] 27 from 12 0 0 LegacyTx)).
Definition node_pool : Pool :=
  put_account 17 (TxAccount.mkAccount [] [node_tx 17 0; node_tx 17 1] 2 0 0 10)
    (put_account 18 (TxAccount.mkAccount [] [node_tx 18 0] 1 0 0 10) (NewTxPool (Forks_At (p_Forks node_config) 0) {| PriceLimit := 0; MaxSlots := 100; MaxAccountEnqueued := 10; DeploymentWhitelist := [] |})).

Abbreviation node_proposal := (BuildProposal 0 0 0 5 (node_fsm 9, node_pool)).

Lemma node_set_up : set_up (node_fsm 9) (node_fsm 8) (sample_extra [2; 3]) sample_checkpoint 0.
Proof.
  split.
  - reflexivity.
  - change (addr_ok 101). split; vm_compute; done.
  - change (StateTransactionGasLimit <= sample_limit). vm_compute. done.
  - assert (h_ExtraData (f_parent (node_fsm 9)) = sample_extra_raw) as -> by reflexivity. exact sample_raw_extra.
  - apply sample_signature_fits. by_computation.
  - reflexivity.
  - right. exists (sample_signature [2; 3]), sample_validators. split; [reflexivity|]. split; [reflexivity|]. unfold verify_checkpoint, c_Hash.
    cbn [abi_checkpoint sample_abi mbind option_bind]. rewrite sample_seals; [reflexivity|]. unfold DomainCheckpointManager. rewrite keccak256_length. lia.
  - by left.
  - change (is_u64 0 /\ is_u64 1 /\ word 9). split; [|split]; split; vm_compute; done.
  - apply sample_validators_ok.
  - change (Forall (fun v => v_Address v <> ZeroAddress) sample_validators). by_computation.
  - exact sample_copyable.
  - intros [=].
  - intros l [->|[[=] _]]. apply nonzero_hash_spec. pose proof sample_hash_checks as Hc. by apply andb_true_iff in Hc as [Hc _].
  - intros cm _ [=].
Qed.

Lemma node_admitted from nonce : admitted node_config node_Sender (node_tx from nonce).
Proof.
  split; [by apply (signed_sent node_Sender)|split; [|done]]. intros n. exists 21000. split; [reflexivity|]. by split.
Qed.

Lemma node_pool_all (Q : Transaction -> Prop) : (forall from nonce, Q (node_tx from nonce)) -> pool_all Q node_pool.
Proof.
  intros HQ. unfold node_pool. apply put_all; [apply put_all; [|repeat constructor; apply HQ]|repeat constructor; apply HQ].
  split; [apply map_Forall_empty|constructor].
Qed.

Definition proposed_txs (b : Block) : list (Address * Z) := (fun t => (From t, Nonce t)) <$> b_Transactions b.

Lemma node_proposal_check :
  match node_proposal with
  | Some (Ok _, (f, _)) => match f_target f with Some fb => block_fits_b (fb_Block fb) && bool_decide (proposed_txs (fb_Block fb) = [(17, 0); (17, 1)]) | None => false end
  | _ => false
  end = true.
Proof. vm_cast_no_check (@eq_refl bool true). Qed.

Lemma node_proposal_made : exists raw f p fb, node_proposal = Some (Ok raw, (f, p)) /\ f_target f = Some fb /\
  block_fits (fb_Block fb) /\ proposed_txs (fb_Block fb) = [(17, 0); (17, 1)].
Proof.
  pose proof node_proposal_check as Hc. destruct node_proposal as [[[raw|] [f p]]|]; [|discriminate Hc..].
  destruct (f_target f) as [fb|] eqn:E; [|discriminate Hc]. apply andb_true_iff in Hc as [Hfits Htxs].
  exists raw, f, p, fb. split; [done|]. split; [done|]. split; [by apply block_fits_sound|by apply bool_decide_eq_true_1 in Htxs].
Qed.

Lemma node_same_height : same_height (node_fsm 9) (node_fsm 8).
Proof. by split. Qed.

Lemma node_time : h_Timestamp (f_parent (node_fsm 9)) < header_time (h_Timestamp (f_parent (node_fsm 9))) (bp_BlockTime (bb_params (f_blockBuilder (node_fsm 9)))) 0 0.
Proof. change (1600000000 < header_time 1600000000 (2 * second) 0 0). vm_compute. done. Qed.

Lemma node_debug : f_debug (node_fsm 8) = true -> forall c n h, is_Some (c_Hash c (f_chainID (node_fsm 8)) n h).
Proof. intros [=]. Qed.

Lemma node_within : pool_all (fun tx => Gas tx <= bp_GasLimit (bb_params (f_blockBuilder (node_fsm 9)))) node_pool.
Proof. apply node_pool_all. intros from nonce. change (21000 <= sample_limit). vm_compute. done. Qed.

Lemma only_target {T} `{Bn256} (f : fsm T) fb : f_target f = Some fb -> block_fits (fb_Block fb) -> forall fb', f_target f = Some fb' -> block_fits (fb_Block fb').
Proof. intros Hf Hb fb'. rewrite Hf. intros [=]. by subst. Qed.

(** The validator with another exit root takes the block with the two transfers of 17. *)
Lemma proposal_accepted_witness : exists raw f p fb, node_proposal = Some (Ok raw, (f, p)) /\
  f_target f = Some fb /\ proposed_txs (fb_Block fb) = [(17, 0); (17, 1)] /\
  fsm_Validate raw (node_fsm 8) =
    Some (Ok tt, set_target (Some (mkFullBlock (mkBlock (b_Header (fb_Block fb)) (received <$> b_Transactions (fb_Block fb)) []) (fb_Receipts fb))) (node_fsm 8)).
Proof.
  destruct node_proposal_made as (raw & f & p & fb & Hrun & Ht & Hfits & Htxs).
  destruct (proposal_accepted (fst node_genesis) node_config node_Sender (fun _ _ _ => 0) (node_fsm 9) (node_fsm 8) f node_pool p (sample_extra [2; 3]) sample_checkpoint 0 0 0 5 raw
    node_same_height node_set_up (node_pool_all _ node_admitted) node_time node_debug Hrun (only_target f fb Ht Hfits)) as (fb' & receipts & Ht' & _ & Hv).
  exists raw, f, p, fb'. split; [exact Hrun|]. split; [exact Ht'|]. split; [|exact (Hv node_within)]. rewrite Ht in Ht'. injection Ht' as <-. exact Htxs.
Defined.
